(* ===== verification/_CoqProject ===== *)
-Q . S2P
Prelude.v
Format.v
BinTree.v
Io.v
Tree.v
Payload.v
Reuse.v
Refs.v
Emit.v
Reader.v
ReaderSpec.v
ReaderSafe.v
Catalog.v
Chunker.v
Glob.v
Previous.v
ArchiveV2.v
FS.v
FsSpec.v
FsTree.v
FsArchive.v
Acl.v
Scan.v
Linux.v
LinuxSpec.v
Disk.v
Restore.v
RestoreSpec.v
RestoreSafe.v
RestoreDisk.v
ScanSpec.v
Archive.v
ArchiveSpec.v
Async.v
AsyncSpec.v
Hash.v
Blob.v
Json.v
Canon.v
Index.v
KeyFile.v
Server.v
Upload.v
UploadSpec.v
UploadJobs.v
UploadRead.v
UploadLive.v
Manifest.v
