(* ===== verification/Prelude.v ===== *)
(** * gopbs: a verification library for the Proxmox Backup client

    gopbs writes backups to a Proxmox Backup Server.  A directory tree is
    scanned (scan/), encoded as a pxar archive (pxar/, archive/), cut into
    content-defined chunks (chunker/) that are framed as blobs (pbs/blob.go)
    and uploaded by a pool of workers into dynamic indexes (pbs/upload.go,
    pbs/session.go); a catalog (catalog/) makes the archive browsable.  With
    metadata change detection (archive/previous.go) unchanged files are not
    read: chunks of the previous snapshot are injected into a framed payload
    stream (reuse/).  The session ends with a manifest, signed when there is a
    key (pbs/canonjson.go).  Restoring verifies the manifest, reads an index
    back (pbs/reader.go, pbs/indexat.go), and either browses the archive
    (pxar/fs.go) or decodes it (pxar/reader.go) and extracts it (restore/).

    ** Files

    - Prelude: bytes and machine integers, little-endian codes, [result] and
      its monad, [sort.Search], list lemmas, tactics and hints.
    - Format (pxar/format.go, encode.go): record encoders and their [Size]
      functions.  BinTree (bintree.go, goodbye.go): goodbye tables.
    - Io: Go's readers as scripts of results.  Tree (scan/scan.go, reader.go):
      nodes and virtual nodes.
    - Payload, Refs, Emit (archive/payload.go, refs.go, emitv2.go, emit.go,
      estimate.go): content sources, payload references and the walk that
      emits v1 archives and v2 metadata and payload streams.
    - Reader, ReaderSpec, ReaderSafe (pxar/reader.go, decode.go): the archive
      reader, its run on emitted archives, and on arbitrary bytes.
    - FS, FsSpec, FsTree, FsArchive (pxar/fs.go): the archive as a file system,
      looked up through goodbye tables; on arbitrary bytes, and on archives
      that were emitted.
    - Catalog (catalog/, archive/catalog.go).  Previous (archive/previous.go).
    - Glob (scan/glob.go, pattern.go), Scan, ScanSpec (scan/scan.go): exclude
      patterns, and the walk over a filesystem that may change at any call.
    - Acl, Linux, LinuxSpec (scan/linux.go, restore/linux.go): reading and
      writing metadata by system calls; ACL codes, retry loops.
    - Restore, RestoreSpec, RestoreSafe (restore/restore.go, portable.go):
      extraction.  Disk, RestoreDisk: a disk in memory on which the laws of the
      system calls and of [os.Root] hold.
    - ArchiveV2: the two streams of a split archive, read back.  Archive,
      ArchiveSpec (archive/archive.go, prelude.go): queueing roots, building
      the tree, generating and estimating; the way from [New] to a reader.
    - Async, AsyncSpec (archive/async.go): dispatcher, readers and emitter as
      atomic steps; equivalence with the synchronous source, termination.
    - Reuse (reuse/): the framed payload stream.  Chunker (chunker/).
    - Hash, Blob (pbs/blob.go, crypt.go): CRC-32, SHA-256, HMAC, PBKDF2, hex,
      blob frames, keys and digests.
    - Json, Canon (pbs/canonjson.go): documents, how they are decoded into maps
      and structs, and the canonical form that is signed.
    - Index (pbs/index.go, reader.go, indexat.go): dynamic indexes, the
      ordered stream, and random access with the shared chunk cache.
    - KeyFile (pbs/keyfile.go, masterkey.go, tls.go): key files, the copy of a
      key for the master key, fingerprints and the certificate pin.
    - Server (pbs/pbstest): the mock server's session handlers.
    - Upload (pbs/upload.go, session.go), UploadSpec, UploadJobs, UploadRead,
      UploadLive: producers, workers, the single-flight chunk registry and
      collectors of all uploads of a session as interleaved steps; their
      invariants, the jobs of a stream, the way back, and termination.
    - Manifest (pbs/session.go, reader.go): [Finish], and downloading and
      verifying what it stored.

    ** What the theorems show

    - Scanning: a scan ends, its tree is well typed and nests no deeper than
      the reader accepts; every entry is in it or reported, under exactly the
      patterns that the .pxarexclude files on its path stand for; hardlinks
      follow their targets; a virtual tree is queued exactly when it can be
      encoded.
    - Encoding: encoders produce what [Size] announced; goodbye tables are
      search trees that list every entry once; the emitter accepts what it
      must, its estimate is exact, and payload references name the records.
    - Round trips: archives (v1 and v2), catalogs, framed streams, blobs, key
      files and patterns are read back as what was written; a directory scanned and
      archived, in either format, reads back as the tree built; a whole upload
      session is read back through the server as the stream that went in; a
      finished session's manifest is accepted by a reader, and the session's
      key is recovered with the master key.
    - Browsing: every path of an emitted archive opens with its node's metadata
      and content, and every other one is not there.
    - Restoring: extraction leaves exactly the tree that was archived, content,
      metadata and hardlinks; what the Linux writer applies the reader reads
      back.
    - Chunks: [Scan] depends on content alone and chunk sizes stay in bounds.
    - Change detection: the plans made resolve to the content they stand for.
    - Concurrency: the asynchronous source writes what the synchronous one
      writes, every schedule ends, and one that is not canceled delivers what
      the synchronous source does when that succeeds; the chunk cache only hands
      out verified chunks; no chunk is uploaded twice; uploads neither deadlock
      nor run for ever.
    - Untrusted input: whatever bytes an archive or a server delivers, paths
      stay inside the root, also when they are extracted, loops end, lookups do
      not leave the archive, index streams deliver a prefix of the manifest's
      content or an error, and an accepted manifest is the one that was signed.

    ** What modelling showed

    Beside the disagreements with comments: a hardlink whose first name was
    skipped or comes later fails a backup (ScanSpec, ArchiveSpec); a trailing
    fifo or socket cannot be looked up (FsArchive); a stream of the asynchronous
    source that fails can leave the emitter waiting (AsyncSpec); an attribute
    that shrinks during a read can panic (LinuxSpec); a session with a key and
    no files cannot be finished (Manifest).  Each is run or proved in its file.

    ** Conventions

    A Go [uintN] is a [Z] with [uN] applied where the code can wrap; a byte
    sequence is a [list byte].  A loop that is not structural takes fuel, a
    bound on its rounds computed from its input where it is called, and a
    theorem says that the bound is enough (every round consumes input; a scan
    descends at most PATH_MAX / 2 directories, [ScanSpec.scan_fuel]).  A
    Go panic is [None] where the code could index out of range.  Goroutines
    are state machines whose atomic steps (channel operation, critical
    section, request) are events; a theorem about them is about every list
    of events.  Third-party code (zstd, scrypt), AES-GCM, RSA, the syntax of
    JSON and the RFC 3339 form of times are parameters with their documented
    laws, each with an instance the witnesses run with ([Json.plain_json] reads
    and writes documents without white space).  System calls and [os.Root] are
    records of operations with laws, instantiated by a disk in memory.
    SHA-256, HMAC, PBKDF2 and CRC-32 are executable and run on published
    vectors, and that SHA-256 has no collision is assumed only for the chunks at
    hand.

    ** Not modelled

    HTTP/2 connections, the TLS handshake, logins and listings (pbs/client.go,
    login.go, config.go but for the snapshot's defaults, list.go): transport.
    Master key files (LoadMasterKey, decryptPKCS8 of pbs/masterkey.go): PEM and
    ASN.1.  The other platforms' metadata (scan/, restore/: windows.go,
    unsupported.go).  The entry points that wire these parts (gopbs.go,
    restore.go, cmd/, examples/).  Pipes and goroutines of the two generators:
    they appear as the bytes that went through, in the synchronous order. *)

From stdpp Require Export prelude list gmap strings.
From Stdlib Require Export ZArith Lia.
From Stdlib Require Import Strings.Byte.

(* ------------------------------------------------------------------ *)
(** ** Bytes *)

(** A Go [byte]; a [string] and a [[]byte] are both byte sequences. *)
Abbreviation byte := Byte.byte.
Abbreviation bytes := (list Byte.byte).

#[export] Instance byte_eq_dec : EqDecision byte := Byte.byte_eq_dec.

Definition Z_of_byte (b : byte) : Z := Z.of_N (Byte.to_N b).

(** Conversion [byte(z)]: the low eight bits. *)
Definition byte_of_Z (z : Z) : byte :=
  match Byte.of_N (Z.to_N (z mod 256)) with Some b => b | None => x00 end.

(** Character constants. *)
Abbreviation nul := x00.
Abbreviation slash := x2f.
Abbreviation backslash := x5c.
Abbreviation newline := x0a.

(** A Go string literal. *)
Definition lit (s : string) : bytes := String.list_byte_of_string s.
#[global] Arguments lit s%_string.

#[export] Instance byte_countable : Countable byte.
Proof.
  refine (inj_countable' Z_of_byte byte_of_Z _).
  intros b. by destruct b.
Defined.

(* ------------------------------------------------------------------ *)
(** ** Machine-width integers *)

Definition u64_max : Z := 2 ^ 64.

(** Arithmetic on [uint64] and [uint32] wraps. *)
Definition u64 (z : Z) : Z := z mod 2 ^ 64.
Definition u32 (z : Z) : Z := z mod 2 ^ 32.
(** The conversion [int64(z)]: two's complement. *)
Definition i64 (z : Z) : Z := (z + 2 ^ 63) mod 2 ^ 64 - 2 ^ 63.

Definition is_u64 (z : Z) : Prop := (0 <= z < 2 ^ 64)%Z.
Definition is_u32 (z : Z) : Prop := (0 <= z < 2 ^ 32)%Z.
Definition is_i64 (z : Z) : Prop := (- 2 ^ 63 <= z < 2 ^ 63)%Z.

(** [len(b)] as an integer. *)
Abbreviation zlen l := (Z.of_nat (length l)).

(* ------------------------------------------------------------------ *)
(** ** Little-endian integers ([encoding/binary]) *)

Fixpoint le (n : nat) (z : Z) : bytes :=
  match n with
  | O => []
  | S n => byte_of_Z z :: le n (z / 256)
  end.

Fixpoint le_dec (b : bytes) : Z :=
  match b with
  | [] => 0
  | x :: b => Z_of_byte x + 256 * le_dec b
  end.

(** [AppendUint64] / [AppendUint32] write [le64] / [le32]; [Uint64] and
    [Uint32] read the first eight / four bytes of a slice. *)
Definition le64 (z : Z) : bytes := le 8 z.
Definition le32 (z : Z) : bytes := le 4 z.
Definition get64 (b : bytes) : Z := le_dec (take 8 b).
Definition get32 (b : bytes) : Z := le_dec (take 4 b).
Definition get16 (b : bytes) : Z := le_dec (take 2 b).

#[global] Arguments le64 z : simpl never.
#[global] Arguments le32 z : simpl never.
#[global] Arguments get64 b : simpl never.
#[global] Arguments get32 b : simpl never.
#[global] Arguments u64 z : simpl never.
#[global] Arguments u32 z : simpl never.
#[global] Arguments i64 z : simpl never.

(** [AppendUint64] and [AppendUint32] of [binary.LittleEndian]. *)
Definition AppendUint64 (dst : bytes) (v : Z) : bytes := dst ++ le64 v.
Definition AppendUint32 (dst : bytes) (v : Z) : bytes := dst ++ le32 v.

(* ------------------------------------------------------------------ *)
(** ** Results: a value or an error *)

Inductive result (E A : Type) : Type :=
  | Ok (a : A)
  | Err (e : E).
#[global] Arguments Ok {E A} a.
#[global] Arguments Err {E A} e.

#[export] Instance result_ret E : MRet (result E) := fun A a => Ok a.
#[export] Instance result_bind E : MBind (result E) := fun A B f m =>
  match m with Ok a => f a | Err e => Err e end.

Definition is_ok {E A} (m : result E A) : bool :=
  match m with Ok _ => true | Err _ => false end.

#[export] Instance result_eq_dec E A `{EqDecision E, EqDecision A} :
  EqDecision (result E A).
Proof. solve_decision. Defined.

(* ------------------------------------------------------------------ *)
(** ** Binary search *)

(** [sort.Search(n, f)]: its binary search. *)
Fixpoint Search_loop (fuel : nat) (f : nat -> bool) (i j : nat) : nat :=
  match fuel with
  | O => i
  | S fuel =>
      if (i <? j)%nat then
        let h := ((i + j) / 2)%nat in
        if f h then Search_loop fuel f i h else Search_loop fuel f (S h) j
      else i
  end.
Definition Search (n : nat) (f : nat -> bool) : nat := Search_loop n f 0 n.

(* ------------------------------------------------------------------ *)
(** ** Lemmas: bytes and integers *)

Create HintDb gopbs.
Create Rewrite HintDb gopbs.

Lemma Z_of_byte_range b : (0 <= Z_of_byte b < 256)%Z.
Proof. unfold Z_of_byte. pose proof (Byte.to_N_bounded b). lia. Qed.

Lemma byte_of_Z_of_byte b : byte_of_Z (Z_of_byte b) = b.
Proof. by destruct b. Qed.

Lemma Z_of_byte_of_Z z : Z_of_byte (byte_of_Z z) = (z mod 256)%Z.
Proof.
  unfold byte_of_Z, Z_of_byte.
  pose proof (Z.mod_pos_bound z 256 ltac:(lia)).
  destruct (Byte.of_N _) eqn:E.
  - apply Byte.to_of_N in E. lia.
  - apply Byte.of_N_None_iff in E. lia.
Qed.

Lemma Z_of_byte_inj a b : Z_of_byte a = Z_of_byte b -> a = b.
Proof. intros H. by rewrite <- (byte_of_Z_of_byte a), H, byte_of_Z_of_byte. Qed.

Lemma length_le n z : length (le n z) = n.
Proof. revert z; induction n; intros; simpl; auto. Qed.

Lemma le_dec_le n z : le_dec (le n z) = (z mod 256 ^ Z.of_nat n)%Z.
Proof.
  revert z; induction n as [|n IH]; intros z.
  - simpl. by rewrite Z.mod_1_r.
  - cbn [le le_dec]. rewrite IH, Z_of_byte_of_Z, Nat2Z.inj_succ, Z.pow_succ_r by lia.
    rewrite (Z.rem_mul_r z 256) by (try apply Z.pow_nonzero; lia). lia.
Qed.

Lemma le_dec_range b : (0 <= le_dec b < 256 ^ zlen b)%Z.
Proof.
  induction b as [|x b IH]; [cbn; lia|].
  cbn [le_dec length]. rewrite Nat2Z.inj_succ, Z.pow_succ_r by lia.
  pose proof (Z_of_byte_range x). nia.
Qed.

Lemma le_le_dec b : le (length b) (le_dec b) = b.
Proof.
  induction b as [|x b IH]; [done|].
  cbn [length le_dec le].
  pose proof (Z_of_byte_range x).
  f_equal.
  - apply Z_of_byte_inj. rewrite Z_of_byte_of_Z, Z.mul_comm, Z_mod_plus_full.
    apply Z.mod_small; lia.
  - rewrite Z.mul_comm, Z.div_add, (Z.div_small (Z_of_byte x)) by lia.
    by rewrite Z.add_0_l.
Qed.

Lemma length_le64 z : length (le64 z) = 8.
Proof. apply length_le. Qed.
Lemma length_le32 z : length (le32 z) = 4.
Proof. apply length_le. Qed.

Lemma u64_small z : is_u64 z -> u64 z = z.
Proof. apply Z.mod_small. Qed.
Lemma u64_range z : is_u64 (u64 z).
Proof. unfold is_u64, u64. apply Z.mod_pos_bound. lia. Qed.
Lemma i64_small z : is_i64 z -> i64 z = z.
Proof. unfold is_i64, i64. intros. rewrite Z.mod_small; lia. Qed.
Lemma i64_range z : is_i64 (i64 z).
Proof.
  unfold is_i64, i64. pose proof (Z.mod_pos_bound (z + 2 ^ 63) (2 ^ 64)).
  lia.
Qed.
Lemma i64_u64 z : is_i64 z -> i64 (u64 z) = z.
Proof.
  intros H. unfold i64, u64. rewrite Zplus_mod_idemp_l.
  by apply i64_small.
Qed.
Lemma u64_u64 z : u64 (u64 z) = u64 z.
Proof. apply u64_small, u64_range. Qed.
Lemma u64_add_l a b : u64 (u64 a + b) = u64 (a + b).
Proof. unfold u64. apply Zplus_mod_idemp_l. Qed.
Lemma u64_add_r a b : u64 (a + u64 b) = u64 (a + b).
Proof. unfold u64. apply Zplus_mod_idemp_r. Qed.
Lemma u64_sub_l a b : u64 (u64 a - b) = u64 (a - b).
Proof. unfold u64. apply Zminus_mod_idemp_l. Qed.
Lemma u64_sub_r a b : u64 (a - u64 b) = u64 (a - b).
Proof. unfold u64. apply Zminus_mod_idemp_r. Qed.

Lemma get64_le64 z r : get64 (le64 z ++ r) = u64 z.
Proof.
  unfold get64, le64. rewrite take_app_length' by (by rewrite length_le).
  apply le_dec_le.
Qed.
Lemma get32_le32 z r : get32 (le32 z ++ r) = u32 z.
Proof.
  unfold get32, le32. rewrite take_app_length' by (by rewrite length_le).
  apply le_dec_le.
Qed.
Lemma u32_small z : is_u32 z -> u32 z = z.
Proof. intros []. unfold u32. by rewrite Z.mod_small. Qed.
Lemma get64_range b : is_u64 (get64 b).
Proof.
  unfold get64, is_u64. pose proof (le_dec_range (take 8 b)) as H.
  assert (256 ^ zlen (take 8 b) <= 256 ^ 8)%Z as H2.
  { apply Z.pow_le_mono_r; [lia|]. rewrite length_take. lia. }
  change (2 ^ 64)%Z with (256 ^ 8)%Z. lia.
Qed.
Lemma le64_u64 z : le64 (u64 z) = le64 z.
Proof.
  assert (forall n a, le n (a mod 256 ^ Z.of_nat n) = le n a) as H.
  { intros n a. rewrite <- le_dec_le. rewrite <- (length_le n a) at 1. apply le_le_dec. }
  apply (H 8).
Qed.
Lemma le64_get64 b : length b = 8 -> le64 (get64 b) = b.
Proof.
  intros H. unfold get64, le64. rewrite take_ge by lia.
  rewrite <- H. apply le_le_dec.
Qed.

Lemma le64_inj a b : is_u64 a -> is_u64 b -> le64 a = le64 b -> a = b.
Proof.
  intros Ha Hb E. rewrite <- (u64_small a), <- (u64_small b) by done.
  by rewrite <- (get64_le64 a []), <- (get64_le64 b []), E.
Qed.

Lemma lxor_u32 a b : is_u32 a -> is_u32 b -> is_u32 (Z.lxor a b).
Proof.
  unfold is_u32. intros Ha Hb. assert (0 <= Z.lxor a b)%Z by (apply Z.lxor_nonneg; lia). split; [done|].
  destruct (Z.eq_dec (Z.lxor a b) 0%Z) as [->|Hne]; [lia|].
  apply Z.log2_lt_pow2; [lia|].
  eapply Z.le_lt_trans; [apply Z.log2_lxor; lia|].
  assert (forall c, 0 <= c < 2 ^ 32 -> Z.log2 c < 32)%Z as Hl.
  { intros c Hc. destruct (Z.eq_dec c 0%Z) as [->|]; [done|]. apply Z.log2_lt_pow2; lia. }
  apply Z.max_lub_lt; auto.
Qed.

(* ------------------------------------------------------------------ *)
(** ** Lemmas: lists *)

Lemma take_zlen_app {A} (l k : list A) (n : Z) :
  n = zlen l -> take (Z.to_nat n) (l ++ k) = l.
Proof. intros ->. rewrite Nat2Z.id. apply take_app_length. Qed.
Lemma drop_zlen_app {A} (l k : list A) (n : Z) :
  n = zlen l -> drop (Z.to_nat n) (l ++ k) = k.
Proof. intros ->. rewrite Nat2Z.id. apply drop_app_length. Qed.
Lemma take_len_app {A} (l k : list A) n : n = length l -> take n (l ++ k) = l.
Proof. intros ->. apply take_app_length. Qed.
Lemma drop_len_app {A} (l k : list A) n : n = length l -> drop n (l ++ k) = k.
Proof. intros ->. apply drop_app_length. Qed.

Lemma list_bind_cons {A B} (f : A -> list B) x l : (x :: l) ≫= f = f x ++ (l ≫= f).
Proof. done. Qed.

(** Uint64 and Uint32 at an offset inside an encoded record. *)
Lemma get64_drop p z r n : n = length p -> get64 (drop n (p ++ le64 z ++ r)) = u64 z.
Proof. intros H. rewrite drop_len_app by done. apply get64_le64. Qed.

#[export] Hint Rewrite @length_app length_le64 length_le32 @length_cons @length_nil
  @length_take @length_drop @length_fmap @length_replicate : gopbs.
#[export] Hint Resolve Z_of_byte_range u64_range i64_range get64_range : gopbs.

(** Normalise the length of a byte expression, then arithmetic. *)
Ltac len := autorewrite with gopbs in *; simpl length in *; try lia.

(** Run one bind of a [result] whose head is known. *)
Lemma bind_ok {E A B} (a : A) (f : A -> result E B) : (Ok a ≫= f) = f a.
Proof. done. Qed.
Lemma bind_err {E A B} (e : E) (f : A -> result E B) : (Err e ≫= f) = Err e.
Proof. done. Qed.
Lemma bind_ok_inv {E A B} (m : result E A) (f : A -> result E B) b :
  (m ≫= f) = Ok b -> exists a, m = Ok a /\ f a = Ok b.
Proof. destruct m; simpl; [eauto | discriminate]. Qed.
#[export] Hint Rewrite @bind_ok @bind_err : gopbs.

(** Decompose a successful monadic computation in a hypothesis. *)
Ltac inv_bind H :=
  match type of H with
  | (_ ≫= _) = Ok _ =>
      let a := fresh "a" in let Ha := fresh "Ha" in
      apply bind_ok_inv in H as (a & Ha & H)
  end.

(* ------------------------------------------------------------------ *)
(** ** Lemmas: binary search *)

Lemma Search_loop_spec n fuel f i j :
  (i <= j <= n)%nat -> (j - i <= fuel)%nat -> (forall a b, (a <= b < n)%nat -> f a = true -> f b = true) ->
  (forall a, (a < i)%nat -> f a = false) ->
  let k := Search_loop fuel f i j in
  (i <= k <= j)%nat /\ (forall a, (a < k)%nat -> f a = false) /\ ((k < j)%nat -> f k = true).
Proof.
  revert i j. induction fuel as [|fuel IH]; intros i j Hij Hf Hm Hi; cbn [Search_loop].
  { split_and!; [lia|lia|done|lia]. }
  destruct (Nat.ltb_spec i j) as [Hlt|]; [|split_and!; [lia|lia|done|lia]].
  assert (i <= (i + j) / 2 < j)%nat as Hh.
  { split; [apply Nat.div_le_lower_bound; lia|apply Nat.Div0.div_lt_upper_bound; lia]. }
  set (h := ((i + j) / 2)%nat) in *. destruct (f h) eqn:Eh.
  - destruct (IH i h) as (H1 & H2 & H3); [lia|lia|done|done|]. split_and!; [lia|lia|done|]. intros Hk.
    destruct (decide (Search_loop fuel f i h = h)) as [->|]; [done|]. apply H3. lia.
  - destruct (IH (S h) j) as (H1 & H2 & H3); [lia|lia|done| |split_and!; [lia|lia|done|done]].
    intros a Ha. destruct (f a) eqn:Ea; [|done]. rewrite (Hm a h) in Eh; [done|lia|done].
Qed.

(** On a monotone predicate: the first index that satisfies it, or [n]. *)
Lemma Search_spec n f :
  (forall a b, (a <= b < n)%nat -> f a = true -> f b = true) ->
  let k := Search n f in
  (k <= n)%nat /\ (forall a, (a < k)%nat -> f a = false) /\ ((k < n)%nat -> f k = true).
Proof. intros Hm. destruct (Search_loop_spec n n f 0 n) as (H1 & H2 & H3); [lia|lia|done|lia|]. split_and!; [apply H1|done|done]. Qed.
