(* ===== verification/Format.v ===== *)
(** * The pxar record format

    Models pxar/format.go and pxar/encode.go: the record type identifiers,
    the append-style record encoders and the [Size] functions the planner
    uses.  [Rec] names every record an encoder can produce, so that the
    agreement of encoders and [Size] functions is one statement. *)

From S2P Require Import Prelude.
From Stdlib Require Import Strings.Byte.
Local Open Scope Z_scope.

(* ------------------------------------------------------------------ *)
(** ** Record types (format.go) *)

Definition TypeEntry := 0xd5956474e588acef.
Definition TypeEntryV1 := 0x11da850a1c1cceff.
Definition TypeFilename := 0x16701121063917b3.
Definition TypeSymlink := 0x27f971e7dbf5dc5f.
Definition TypeDevice := 0x9fc9e906586d5ce9.
Definition TypeXAttr := 0x0dab0229b57dcd03.
Definition TypeACLUser := 0x2ce8540a457d55b8.
Definition TypeACLGroup := 0x136e3eceb04c03ab.
Definition TypeACLGroupObj := 0x10868031e9582876.
Definition TypeACLDefault := 0xbbbb13415a6896f5.
Definition TypeACLDefaultUser := 0xc89357b40532cd1f.
Definition TypeACLDefaultGroup := 0xf90a8a5816038ffe.
Definition TypeFCaps := 0x2da9dd9db5f7fb67.
Definition TypeQuotaProjID := 0xe07540e82f7d1cbb.
Definition TypeHardlink := 0x51269c8422bd7275.
Definition TypePayload := 0x28147a1b0b7c1a25.
Definition TypeGoodbye := 0x2fec4fa642d5731d.
Definition GoodbyeTailMarker := 0xef5eed5b753e1555.
Definition TypeFormatVersion := 0x730f6c75df16a40d.
Definition TypePrelude := 0xe309d79d9f7b771b.
Definition TypePayloadRef := 0x419d3d6bc4ba977e.
Definition PayloadStartMarker := 0x834c68c2194a4ed2.
Definition PayloadTailMarker := 0x6c72b78b984c81b5.

Definition hashKey1 := 0x83ac3f1cfbb450db.
Definition hashKey2 := 0xaa4f1b6879369fbd.

Definition HeaderSize := 16.

(** SipHash-2-4 (github.com/dchest/siphash): a keyed hash with a 64-bit
    result. *)
Class SipHash := {
  siphash_Hash : Z -> Z -> bytes -> Z;
  siphash_range k1 k2 b : is_u64 (siphash_Hash k1 k2 b)
}.

Definition Hash `{SipHash} (name : bytes) : Z := siphash_Hash hashKey1 hashKey2 name.

(** st_mode type bits (decode.go and scan.go use the same values). *)
Definition modeTypeMask := 0xf000.
Definition modeSocket := 0xc000.
Definition modeSymlink := 0xa000.
Definition modeRegular := 0x8000.
Definition modeBlockDev := 0x6000.
Definition modeDir := 0x4000.
Definition modeCharDev := 0x2000.
Definition modeFifo := 0x1000.

(* ------------------------------------------------------------------ *)
(** ** Encoders (encode.go) *)

Definition appendHeader (dst : bytes) (typ length : Z) : bytes :=
  let dst := AppendUint64 dst typ in
  AppendUint64 dst length.

Record Entry := mkEntry {
  e_Mode : Z; e_Flags : Z; e_UID : Z; e_GID : Z; e_MtimeSecs : Z; e_MtimeNanos : Z }.

Definition EntrySize := HeaderSize + 40.

Definition AppendEntry (dst : bytes) (e : Entry) : bytes :=
  let dst := appendHeader dst TypeEntry EntrySize in
  let dst := AppendUint64 dst (e_Mode e) in
  let dst := AppendUint64 dst (e_Flags e) in
  let dst := AppendUint32 dst (e_UID e) in
  let dst := AppendUint32 dst (e_GID e) in
  let dst := AppendUint64 dst (e_MtimeSecs e) in
  let dst := AppendUint32 dst (e_MtimeNanos e) in
  AppendUint32 dst 0.

Definition SizeFilename (name : bytes) : Z := HeaderSize + zlen name + 1.

Definition AppendFilename (dst name : bytes) : bytes :=
  let dst := appendHeader dst TypeFilename (SizeFilename name) in
  let dst := dst ++ name in
  dst ++ [nul].

Inductive name_error := EmptyName | DotName | SlashInName | NulInName.

Definition ValidateFilename (name : bytes) : result name_error unit :=
  if decide (name = []) then Err EmptyName
  else if decide (name = lit "." \/ name = lit "..") then Err DotName
  else if decide (slash ∈ name) then Err SlashInName
  else if decide (nul ∈ name) then Err NulInName
  else Ok ().

Definition SizeSymlink (target : bytes) : Z := HeaderSize + zlen target + 1.

Definition AppendSymlink (dst target : bytes) : bytes :=
  let dst := appendHeader dst TypeSymlink (SizeSymlink target) in
  let dst := dst ++ target in
  dst ++ [nul].

Record Device := mkDevice { Major : Z; Minor : Z }.

Definition DeviceSize := HeaderSize + 16.

Definition AppendDevice (dst : bytes) (d : Device) : bytes :=
  let dst := appendHeader dst TypeDevice DeviceSize in
  let dst := AppendUint64 dst (Major d) in
  AppendUint64 dst (Minor d).

Definition SizeHardlink (target : bytes) : Z := HeaderSize + 8 + zlen target + 1.

Definition AppendHardlink (dst : bytes) (offset : Z) (target : bytes) : bytes :=
  let dst := appendHeader dst TypeHardlink (SizeHardlink target) in
  let dst := AppendUint64 dst offset in
  let dst := dst ++ target in
  dst ++ [nul].

Definition SizeXAttr (name value : bytes) : Z := HeaderSize + zlen name + 1 + zlen value.

Definition AppendXAttr (dst name value : bytes) : bytes :=
  let dst := appendHeader dst TypeXAttr (SizeXAttr name value) in
  let dst := dst ++ name in
  let dst := dst ++ [nul] in
  dst ++ value.

(** [ACLNoMask] is [^uint64(0)]. *)
Definition ACLNoMask := 2 ^ 64 - 1.

Record ACLUser := mkACLUser { au_UID : Z; au_Permissions : Z }.
Record ACLGroup := mkACLGroup { ag_GID : Z; ag_Permissions : Z }.
Record ACLDefault := mkACLDefault {
  UserObjPermissions : Z; GroupObjPermissions : Z;
  OtherPermissions : Z; MaskPermissions : Z }.

Definition ACLUserSize := HeaderSize + 16.
Definition ACLGroupSize := HeaderSize + 16.
Definition ACLGroupObjSize := HeaderSize + 8.
Definition ACLDefaultSize := HeaderSize + 32.

Definition appendUserBody (dst : bytes) (typ : Z) (a : ACLUser) : bytes :=
  let dst := appendHeader dst typ ACLUserSize in
  let dst := AppendUint64 dst (au_UID a) in
  AppendUint64 dst (au_Permissions a).

Definition AppendACLUser (dst : bytes) (a : ACLUser) : bytes :=
  appendUserBody dst TypeACLUser a.
Definition AppendACLDefaultUser (dst : bytes) (a : ACLUser) : bytes :=
  appendUserBody dst TypeACLDefaultUser a.

Definition appendGroupBody (dst : bytes) (typ : Z) (a : ACLGroup) : bytes :=
  let dst := appendHeader dst typ ACLGroupSize in
  let dst := AppendUint64 dst (ag_GID a) in
  AppendUint64 dst (ag_Permissions a).

Definition AppendACLGroup (dst : bytes) (a : ACLGroup) : bytes :=
  appendGroupBody dst TypeACLGroup a.
Definition AppendACLDefaultGroup (dst : bytes) (a : ACLGroup) : bytes :=
  appendGroupBody dst TypeACLDefaultGroup a.

Definition AppendACLGroupObj (dst : bytes) (permissions : Z) : bytes :=
  let dst := appendHeader dst TypeACLGroupObj ACLGroupObjSize in
  AppendUint64 dst permissions.

Definition AppendACLDefault (dst : bytes) (a : ACLDefault) : bytes :=
  let dst := appendHeader dst TypeACLDefault ACLDefaultSize in
  let dst := AppendUint64 dst (UserObjPermissions a) in
  let dst := AppendUint64 dst (GroupObjPermissions a) in
  let dst := AppendUint64 dst (OtherPermissions a) in
  AppendUint64 dst (MaskPermissions a).

Definition SizeFCaps (data : bytes) : Z := HeaderSize + zlen data.

Definition AppendFCaps (dst data : bytes) : bytes :=
  let dst := appendHeader dst TypeFCaps (SizeFCaps data) in
  dst ++ data.

Definition QuotaProjIDSize := HeaderSize + 8.

Definition AppendQuotaProjID (dst : bytes) (projid : Z) : bytes :=
  let dst := appendHeader dst TypeQuotaProjID QuotaProjIDSize in
  AppendUint64 dst projid.

(** [size] is a caller's [uint64]: the sum wraps. *)
Definition SizePayload (size : Z) : Z := u64 (HeaderSize + size).

Definition AppendPayloadHeader (dst : bytes) (size : Z) : bytes :=
  appendHeader dst TypePayload (SizePayload size).

Definition FormatVersionSize := HeaderSize + 8.

Definition AppendFormatVersion (dst : bytes) (version : Z) : bytes :=
  let dst := appendHeader dst TypeFormatVersion FormatVersionSize in
  AppendUint64 dst version.

Definition SizePrelude (data : bytes) : Z := HeaderSize + zlen data.

Definition AppendPrelude (dst data : bytes) : bytes :=
  let dst := appendHeader dst TypePrelude (SizePrelude data) in
  dst ++ data.

Definition PayloadRefSize := HeaderSize + 16.

Definition AppendPayloadRef (dst : bytes) (offset size : Z) : bytes :=
  let dst := appendHeader dst TypePayloadRef PayloadRefSize in
  let dst := AppendUint64 dst offset in
  AppendUint64 dst size.

Definition MarkerSize := HeaderSize.

Definition AppendPayloadStartMarker (dst : bytes) : bytes :=
  appendHeader dst PayloadStartMarker MarkerSize.
Definition AppendPayloadTailMarker (dst : bytes) : bytes :=
  appendHeader dst PayloadTailMarker MarkerSize.

(* ------------------------------------------------------------------ *)
(** ** Framing specification *)

(** A framed record: type, total length, body. *)
Definition frame (typ : Z) (body : bytes) : bytes :=
  le64 typ ++ le64 (HeaderSize + zlen body) ++ body.

Lemma length_frame typ body : length (frame typ body) = (16 + length body)%nat.
Proof. unfold frame. autorewrite with gopbs. lia. Qed.

#[export] Hint Rewrite length_frame : gopbs.

(** The records the encoders produce. *)
Inductive Rec :=
  | REntry (e : Entry) | RFilename (name : bytes) | RSymlink (target : bytes)
  | RDevice (d : Device) | RHardlink (offset : Z) (target : bytes)
  | RXAttr (name value : bytes) | RACLUser (a : ACLUser) | RACLDefaultUser (a : ACLUser)
  | RACLGroup (a : ACLGroup) | RACLDefaultGroup (a : ACLGroup) | RACLGroupObj (p : Z)
  | RACLDefault (a : ACLDefault) | RFCaps (data : bytes) | RQuotaProjID (id : Z)
  | RFormatVersion (v : Z) | RPrelude (data : bytes) | RPayloadRef (offset size : Z)
  | RPayloadStart | RPayloadTail.

(** The encoder of each record. *)
Definition AppendRec (dst : bytes) (r : Rec) : bytes :=
  match r with
  | REntry e => AppendEntry dst e
  | RFilename n => AppendFilename dst n
  | RSymlink t => AppendSymlink dst t
  | RDevice d => AppendDevice dst d
  | RHardlink o t => AppendHardlink dst o t
  | RXAttr n v => AppendXAttr dst n v
  | RACLUser a => AppendACLUser dst a
  | RACLDefaultUser a => AppendACLDefaultUser dst a
  | RACLGroup a => AppendACLGroup dst a
  | RACLDefaultGroup a => AppendACLDefaultGroup dst a
  | RACLGroupObj p => AppendACLGroupObj dst p
  | RACLDefault a => AppendACLDefault dst a
  | RFCaps d => AppendFCaps dst d
  | RQuotaProjID i => AppendQuotaProjID dst i
  | RFormatVersion v => AppendFormatVersion dst v
  | RPrelude d => AppendPrelude dst d
  | RPayloadRef o s => AppendPayloadRef dst o s
  | RPayloadStart => AppendPayloadStartMarker dst
  | RPayloadTail => AppendPayloadTailMarker dst
  end.

(** The size the planner uses for each record. *)
Definition SizeRec (r : Rec) : Z :=
  match r with
  | REntry _ => EntrySize
  | RFilename n => SizeFilename n
  | RSymlink t => SizeSymlink t
  | RDevice _ => DeviceSize
  | RHardlink _ t => SizeHardlink t
  | RXAttr n v => SizeXAttr n v
  | RACLUser _ | RACLDefaultUser _ => ACLUserSize
  | RACLGroup _ | RACLDefaultGroup _ => ACLGroupSize
  | RACLGroupObj _ => ACLGroupObjSize
  | RACLDefault _ => ACLDefaultSize
  | RFCaps d => SizeFCaps d
  | RQuotaProjID _ => QuotaProjIDSize
  | RFormatVersion _ => FormatVersionSize
  | RPrelude d => SizePrelude d
  | RPayloadRef _ _ => PayloadRefSize
  | RPayloadStart | RPayloadTail => MarkerSize
  end.

(** The type identifier and body of each record. *)
Definition rec_type (r : Rec) : Z :=
  match r with
  | REntry _ => TypeEntry | RFilename _ => TypeFilename | RSymlink _ => TypeSymlink
  | RDevice _ => TypeDevice | RHardlink _ _ => TypeHardlink | RXAttr _ _ => TypeXAttr
  | RACLUser _ => TypeACLUser | RACLDefaultUser _ => TypeACLDefaultUser
  | RACLGroup _ => TypeACLGroup | RACLDefaultGroup _ => TypeACLDefaultGroup
  | RACLGroupObj _ => TypeACLGroupObj | RACLDefault _ => TypeACLDefault
  | RFCaps _ => TypeFCaps | RQuotaProjID _ => TypeQuotaProjID
  | RFormatVersion _ => TypeFormatVersion | RPrelude _ => TypePrelude
  | RPayloadRef _ _ => TypePayloadRef
  | RPayloadStart => PayloadStartMarker | RPayloadTail => PayloadTailMarker
  end.

Definition entry_body (e : Entry) : bytes :=
  le64 (e_Mode e) ++ le64 (e_Flags e) ++ le32 (e_UID e) ++ le32 (e_GID e) ++
  le64 (e_MtimeSecs e) ++ le32 (e_MtimeNanos e) ++ le32 0.

Definition rec_body (r : Rec) : bytes :=
  match r with
  | REntry e => entry_body e
  | RFilename n | RSymlink n => n ++ [nul]
  | RDevice d => le64 (Major d) ++ le64 (Minor d)
  | RHardlink o t => le64 o ++ t ++ [nul]
  | RXAttr n v => n ++ nul :: v
  | RACLUser a | RACLDefaultUser a => le64 (au_UID a) ++ le64 (au_Permissions a)
  | RACLGroup a | RACLDefaultGroup a => le64 (ag_GID a) ++ le64 (ag_Permissions a)
  | RACLGroupObj p => le64 p
  | RACLDefault a =>
      le64 (UserObjPermissions a) ++ le64 (GroupObjPermissions a) ++
      le64 (OtherPermissions a) ++ le64 (MaskPermissions a)
  | RFCaps d | RPrelude d => d
  | RQuotaProjID i => le64 i
  | RFormatVersion v => le64 v
  | RPayloadRef o s => le64 o ++ le64 s
  | RPayloadStart | RPayloadTail => []
  end.

(** A concatenation of records. *)
Definition frames (rs : list Rec) : bytes :=
  rs ≫= fun r => frame (rec_type r) (rec_body r).

(* ------------------------------------------------------------------ *)
(** ** Lemmas *)

Lemma SizeRec_body r : SizeRec r = HeaderSize + zlen (rec_body r).
Proof.
  destruct r; cbn -[Z.add]; unfold entry_body; autorewrite with gopbs;
    unfold SizeFilename, SizeSymlink, SizeHardlink, SizeXAttr, SizeFCaps, SizePrelude,
      EntrySize, DeviceSize, ACLUserSize, ACLGroupSize, ACLGroupObjSize, ACLDefaultSize,
      QuotaProjIDSize, FormatVersionSize, PayloadRefSize, MarkerSize; cbn [length]; lia.
Qed.

Lemma AppendRec_frame dst r : AppendRec dst r = dst ++ frame (rec_type r) (rec_body r).
Proof.
  unfold frame. rewrite <- SizeRec_body.
  destruct r; cbn -[app le64 le32];
    cbv beta delta [AppendEntry AppendFilename AppendSymlink AppendDevice AppendHardlink
      AppendXAttr AppendACLUser AppendACLDefaultUser AppendACLGroup AppendACLDefaultGroup
      appendUserBody appendGroupBody AppendACLGroupObj AppendACLDefault AppendFCaps
      AppendQuotaProjID AppendFormatVersion AppendPrelude AppendPayloadRef
      AppendPayloadStartMarker AppendPayloadTailMarker entry_body
      appendHeader AppendUint64 AppendUint32]; cbv zeta;
    rewrite ?app_nil_r, <- ?app_assoc; reflexivity.
Qed.

Lemma frames_nil : frames [] = [].
Proof. done. Qed.
Lemma frames_cons r rs : frames (r :: rs) = frame (rec_type r) (rec_body r) ++ frames rs.
Proof. done. Qed.
Lemma frames_app r1 r2 : frames (r1 ++ r2) = frames r1 ++ frames r2.
Proof. apply bind_app. Qed.

Lemma ValidateFilename_ok name :
  ValidateFilename name = Ok () <->
  name <> [] /\ name ≠ lit "." /\ name ≠ lit ".." /\ (slash ∉ name) /\ (nul ∉ name).
Proof. unfold ValidateFilename. repeat case_decide; intuition congruence. Qed.

(* ------------------------------------------------------------------ *)
(** ** Properties *)

(** Every encoder extends its buffer by exactly the number of bytes the matching
    Size function announces, and by one frame: the record's type, that same size
    as the length field, and a body of the remaining bytes. *)
Theorem encoders_match_sizes dst r :
  zlen (AppendRec dst r) = zlen dst + SizeRec r /\
  AppendRec dst r = dst ++ le64 (rec_type r) ++ le64 (SizeRec r) ++ rec_body r.
Proof.
  rewrite AppendRec_frame, SizeRec_body. split; [|done].
  autorewrite with gopbs. unfold HeaderSize. lia.
Qed.
