(* ===== verification/BinTree.v ===== *)
(** * Goodbye tables

    Models pxar/bintree.go and pxar/goodbye.go: the permutation of a
    hash-sorted directory into the casync implicit search tree and the
    encoding of a directory's goodbye record.  [None] is a Go panic (an
    index out of range); the theorems show it does not happen. *)

From S2P Require Import Prelude Format.
From stdpp Require Import sorting.
Local Open Scope Z_scope.

Record GoodbyeItem := mkGoodbyeItem { gi_Hash : Z; gi_Start : Z; gi_Length : Z }.

#[export] Instance goodbye_item_eq_dec : EqDecision GoodbyeItem.
Proof. solve_decision. Defined.

(** [bits.Len64]. *)
Definition bits_Len64 (n : Z) : nat :=
  if n =? 0 then O else Z.to_nat (Z.log2 n + 1).

Section permute.
Context {A : Type}.

(** [tree[i] = x], which panics out of range. *)
Definition store (tree : list A) (i : Z) (x : A) : option (list A) :=
  if decide (i < zlen tree) then Some (<[Z.to_nat i := x]> tree) else None.

(** [insertBST]: the level count [e] decreases at every call.  With [e = 0]
    and [n > 0] the Go expressions give [k = n], so [sorted[k]] panics. *)
Fixpoint insertBST (sorted tree : list A) (n : Z) (e : nat) (i : Z) : option (list A) :=
  if n =? 0 then Some tree else
  match e with
  | O => None
  | S e' =>
      let p := u64 (Z.shiftl 1 (Z.of_nat e')) in
      let k := u64 (u64 (Z.shiftl 1 (Z.of_nat e)) / 2 - 1) in
      let c := u64 (u64 (3 * p) / 2 - 1) in
      let k := if n <? c then u64 (k + u64 (n - c)) else k in
      x ← sorted !! Z.to_nat k;
      tree ← store tree i x;
      tree ← insertBST sorted tree k e' (u64 (2 * i + 1));
      insertBST (drop (Z.to_nat (k + 1)) sorted) tree (u64 (n - k - 1)) e' (u64 (2 * i + 2))
  end.
End permute.

(** [permuteBST]: [make([]GoodbyeItem, n)] starts from zero items. *)
Definition permuteBST (sorted : list GoodbyeItem) : option (list GoodbyeItem) :=
  let n := zlen sorted in
  let tree := replicate (length sorted) (mkGoodbyeItem 0 0 0) in
  insertBST sorted tree n (bits_Len64 n) 0.

Definition SizeGoodbye (n : Z) : Z := HeaderSize + 24 * (n + 1).

(** [sort.Slice] by hash; nothing below depends on how ties are ordered. *)
Definition hash_le (a b : GoodbyeItem) : Prop := gi_Hash a <= gi_Hash b.
#[export] Instance hash_le_dec a b : Decision (hash_le a b).
Proof. unfold hash_le. apply _. Defined.
Definition sortByHash (items : list GoodbyeItem) : list GoodbyeItem :=
  merge_sort hash_le items.

Definition appendItem (goodbyeStart : Z) (dst : bytes) (item : GoodbyeItem) : bytes :=
  let dst := AppendUint64 dst (gi_Hash item) in
  let dst := AppendUint64 dst (u64 (goodbyeStart - gi_Start item)) in
  AppendUint64 dst (gi_Length item).

Definition AppendGoodbye (dst : bytes) (items : list GoodbyeItem)
    (dirEntryStart goodbyeStart : Z) : option bytes :=
  let length := SizeGoodbye (zlen items) in
  let dst := appendHeader dst TypeGoodbye length in
  let sorted := sortByHash items in
  tree ← permuteBST sorted;
  let dst := foldl (appendItem goodbyeStart) dst tree in
  let dst := AppendUint64 dst GoodbyeTailMarker in
  let dst := AppendUint64 dst (u64 (goodbyeStart - dirEntryStart)) in
  Some (AppendUint64 dst length).

(* ------------------------------------------------------------------ *)
(** ** The implicit tree *)

(** [m] is below [i] (or [i] itself) in the heap numbering. *)
Definition desc (i m : nat) : Prop :=
  exists j : nat, ((i + 1) * 2 ^ j <= m + 1 < (i + 2) * 2 ^ j)%nat.

(** The in-order positions of the subtree at [i] of an array of [N]. *)
Inductive Positions (N : nat) : nat -> list nat -> Prop :=
  | pos_leaf i : (N <= i)%nat -> Positions N i []
  | pos_node i l r :
    (i < N)%nat -> Positions N (2 * i + 1) l -> Positions N (2 * i + 2) r ->
      Positions N i (l ++ i :: r).

Section layout.
Context {A : Type}.
Implicit Types (t : list A) (l : list A) (i m : nat).

(** The array [t], read in order below [i], is the list [l]. *)
Definition InOrder t i l : Prop :=
  exists ps, Positions (length t) i ps /\ Forall2 (fun p x => t !! p = Some x) ps l.

Lemma desc_refl i : desc i i.
Proof. exists 0%nat. simpl. lia. Qed.
Lemma desc_left i m : desc (2 * i + 1) m -> desc i m.
Proof. intros [j Hj]. exists (S j). rewrite Nat.pow_succ_r'. nia. Qed.
Lemma desc_right i m : desc (2 * i + 2) m -> desc i m.
Proof. intros [j Hj]. exists (S j). rewrite Nat.pow_succ_r'. nia. Qed.
Lemma desc_ge i m : desc i m -> (i <= m)%nat.
Proof. intros [j Hj]. pose proof (Nat.pow_nonzero 2 j). nia. Qed.
Lemma desc_disjoint i m : desc (2 * i + 1) m -> ~ desc (2 * i + 2) m.
Proof.
  intros [a Ha] [b Hb].
  destruct (lt_eq_lt_dec a b) as [[Hl| ->]|Hl]; [| nia |].
  - assert (exists d, 2 ^ b = 2 ^ a * (2 * d) /\ d <> 0)%nat as (d & Hd & Hd0).
    { exists (2 ^ (b - a - 1))%nat. split; [|apply Nat.pow_nonzero; lia].
      rewrite <- Nat.pow_succ_r', <- Nat.pow_add_r. f_equal. lia. }
    pose proof (Nat.pow_nonzero 2 a). nia.
  - assert (exists d, 2 ^ a = 2 ^ b * (2 * d) /\ d <> 0)%nat as (d & Hd & Hd0).
    { exists (2 ^ (a - b - 1))%nat. split; [|apply Nat.pow_nonzero; lia].
      rewrite <- Nat.pow_succ_r', <- Nat.pow_add_r. f_equal. lia. }
    pose proof (Nat.pow_nonzero 2 b). nia.
Qed.
Lemma desc_trans_left i m : desc i m -> m <> i ->
  desc (2 * i + 1) m \/ desc (2 * i + 2) m.
Proof.
  intros [j Hj] Hne. destruct j as [|j]; [simpl in Hj; lia|].
  rewrite Nat.pow_succ_r' in Hj.
  destruct (Nat.lt_ge_cases (m + 1) ((2 * i + 3) * 2 ^ j)).
  - left. exists j. nia.
  - right. exists j. nia.
Qed.

Lemma Positions_desc N i ps : Positions N i ps -> forall p, p ∈ ps -> desc i p /\ (p < N)%nat.
Proof.
  induction 1 as [|i l r Hi Hl IHl Hr IHr]; intros p Hp; [set_solver|].
  apply elem_of_app in Hp as [Hp|Hp].
  - destruct (IHl p Hp). auto using desc_left.
  - apply elem_of_cons in Hp as [->|Hp]; [auto using desc_refl|].
    destruct (IHr p Hp). auto using desc_right.
Qed.

Lemma Positions_NoDup N i ps : Positions N i ps -> NoDup ps.
Proof.
  induction 1 as [|i l r Hi Hl IHl Hr IHr]; [constructor|].
  apply NoDup_app. split; [done|]. split.
  - intros p Hp Hin. pose proof (Positions_desc _ _ _ Hl p Hp) as [Hd _].
    apply elem_of_cons in Hin as [->|Hin].
    + apply desc_ge in Hd. lia.
    + pose proof (Positions_desc _ _ _ Hr p Hin) as [Hd' _].
      by apply (desc_disjoint i p).
  - apply NoDup_cons. split; [|done].
    intros Hin. pose proof (Positions_desc _ _ _ Hr i Hin) as [Hd _].
    apply desc_ge in Hd. lia.
Qed.

Lemma Positions_complete N i ps m :
  Positions N i ps -> desc i m -> (m < N)%nat -> m ∈ ps.
Proof.
  induction 1 as [i Hi|i l r Hi Hl IHl Hr IHr]; intros Hd Hm.
  - apply desc_ge in Hd. lia.
  - destruct (decide (m = i)) as [->|Hne]; [set_solver|].
    destruct (desc_trans_left i m Hd Hne); set_solver.
Qed.

Lemma omap_lookup_seq (k t : list A) :
  omap (fun p => (k ++ t) !! p) (seq (length k) (length t)) = t.
Proof.
  revert k. induction t as [|x t IH]; intros k; [done|].
  cbn [length seq omap list_omap]. rewrite list_lookup_middle by done. f_equal.
  specialize (IH (k ++ [x])). rewrite <- app_assoc, length_app, Nat.add_1_r in IH.
  exact IH.
Qed.

(** Reading the whole array in order permutes it. *)
Lemma InOrder_Permutation t l :
  InOrder t 0 l -> t ≡ₚ l.
Proof.
  intros (ps & Hps & Hl).
  assert (ps ≡ₚ seq 0 (length t)) as Hperm.
  { apply NoDup_Permutation; [by eapply Positions_NoDup|apply NoDup_seq|].
    intros p. rewrite elem_of_seq. split.
    - intros Hp. destruct (Positions_desc _ _ _ Hps p Hp). lia.
    - intros Hp. eapply Positions_complete; [done| |lia].
      exists (Nat.log2 (p + 1)). pose proof (Nat.log2_spec (p + 1)).
      rewrite Nat.pow_succ_r' in *. lia. }
  assert (omap (fun p => t !! p) ps = l) as <-.
  { clear -Hl. induction Hl as [|p x ps l Hp _ IH]; [done|]. cbn [omap list_omap].
    rewrite Hp. f_equal. exact IH. }
  rewrite Hperm. apply reflexive_eq. symmetry. apply (omap_lookup_seq [] t).
Qed.

(** Writes outside a subtree do not change what it reads. *)
Lemma InOrder_frame t t' i l :
  length t = length t' -> (forall m, desc i m -> t !! m = t' !! m) ->
  InOrder t i l -> InOrder t' i l.
Proof.
  intros Hlen Hag (ps & Hps & Hl). exists ps. rewrite <- Hlen. split; [done|].
  assert (forall p, p ∈ ps -> desc i p) as Hd
    by (intros p Hp; by destruct (Positions_desc _ _ _ Hps p Hp)).
  clear Hps. induction Hl as [|p x ps l Hp _ IH]; constructor.
  - rewrite <- Hag; set_solver.
  - apply IH. set_solver.
Qed.

Lemma InOrder_node t i l x r :
  t !! i = Some x -> InOrder t (2 * i + 1) l -> InOrder t (2 * i + 2) r ->
  InOrder t i (l ++ x :: r).
Proof.
  intros Hx (pl & Hpl & Hl) (pr & Hpr & Hr). exists (pl ++ i :: pr). split.
  - constructor; auto. by eapply lookup_lt_Some.
  - apply Forall2_app; [done|]. by constructor.
Qed.
End layout.

(* ------------------------------------------------------------------ *)
(** ** insertBST *)

(** The number of nodes of the subtree at [i] with [e] levels in a complete
    tree of [N] nodes. *)
Definition subtree_size (N i e : nat) : Z :=
  match e with
  | O => 0
  | S e' =>
      2 ^ Z.of_nat e' - 1 +
      Z.max 0 (Z.min (Z.of_nat N + 1 - (Z.of_nat i + 1) * 2 ^ Z.of_nat e') (2 ^ Z.of_nat e'))
  end.

Lemma subtree_size_range N i e : 0 <= subtree_size N i e < 2 ^ Z.of_nat e.
Proof.
  destruct e as [|e]; [cbn; lia|]. unfold subtree_size.
  rewrite Nat2Z.inj_succ, Z.pow_succ_r by lia.
  pose proof (Z.pow_pos_nonneg 2 (Z.of_nat e)). lia.
Qed.

(** The split of a subtree computed by [insertBST]: the wrapped [k] is the size
    of the left subtree and what remains the size of the right one. *)
Lemma subtree_size_split N i e :
  (e < 62)%nat -> 0 < subtree_size N i (S e) ->
  let n := subtree_size N i (S e) in
  let p := u64 (Z.shiftl 1 (Z.of_nat e)) in
  let k := u64 (u64 (Z.shiftl 1 (Z.of_nat (S e))) / 2 - 1) in
  let c := u64 (u64 (3 * p) / 2 - 1) in
  let k := if n <? c then u64 (k + u64 (n - c)) else k in
  k = subtree_size N (2 * i + 1) e /\ u64 (n - k - 1) = subtree_size N (2 * i + 2) e.
Proof.
  intros He Hpos. cbv zeta.
  pose proof (subtree_size_range N i (S e)) as Hn.
  rewrite !Z.shiftl_1_l, Nat2Z.inj_succ, Z.pow_succ_r in * by lia.
  assert (1 <= 2 ^ Z.of_nat e <= 2 ^ 61) as HP
    by (split; [|apply Z.pow_le_mono_r]; lia).
  assert (2 ^ 64 = 8 * 2 ^ 61) as H64 by reflexivity.
  rewrite (u64_small (2 ^ Z.of_nat e)), (u64_small (2 * 2 ^ Z.of_nat e)),
    (u64_small (3 * 2 ^ Z.of_nat e)) by (unfold is_u64; lia).
  rewrite (Z.mul_comm 2 (2 ^ Z.of_nat e)), Z.div_mul by lia.
  rewrite (u64_small (2 ^ Z.of_nat e - 1)) by (unfold is_u64; lia).
  destruct e as [|e].
  - change (2 ^ Z.of_nat 0) with 1 in *.
    assert (subtree_size N i 1 = 1) as -> by lia. done.
  - unfold subtree_size in *. rewrite !Nat2Z.inj_succ, !Z.pow_succ_r in * by lia.
    set (P := 2 ^ Z.of_nat e) in *.
    replace (3 * (2 * P)) with (3 * P * 2) by lia. rewrite Z.div_mul by lia.
    rewrite (u64_small (3 * P - 1)) by (unfold is_u64; lia).
    rewrite !Nat2Z.inj_add, !Nat2Z.inj_mul.
    change (Z.of_nat 2) with 2; change (Z.of_nat 1) with 1.
    replace ((2 * Z.of_nat i + 1 + 1) * P) with ((Z.of_nat i + 1) * (2 * P)) by lia.
    replace ((2 * Z.of_nat i + 2 + 1) * P) with ((Z.of_nat i + 1) * (2 * P) + P) by lia.
    set (X := Z.of_nat N + 1 - (Z.of_nat i + 1) * (2 * P)) in *.
    replace (Z.of_nat N + 1 - ((Z.of_nat i + 1) * (2 * P) + P)) with (X - P) by lia.
    clearbody X. clearbody P. case_match eqn:Hc.
    + apply Z.ltb_lt in Hc. rewrite u64_add_r.
      rewrite (u64_small (2 * P - 1 + _)) by (unfold is_u64; lia).
      split; [lia|]. rewrite u64_small; unfold is_u64; lia.
    + apply Z.ltb_ge in Hc. split; [lia|]. rewrite u64_small; unfold is_u64; lia.
Qed.

(** The complete tree of [N < M <= 2 * N] nodes: where a subtree root lies. *)
Definition at_level (N M : nat) (i e : nat) : Prop :=
  (N < M /\ M <= 2 * N /\ M <= (i + 1) * 2 ^ e /\ (i + 2) * 2 ^ e <= 2 * M)%nat.

Lemma at_level_in_range N M i e :
  at_level N M i e -> (0 < subtree_size N i e <-> (i < N)%nat).
Proof.
  unfold at_level. intros (H1 & H2 & H3 & H4). destruct e as [|[|e]].
  - cbn -[Nat.mul] in *. lia.
  - cbn -[Nat.mul Z.mul] in *. lia.
  - unfold subtree_size. rewrite Nat2Z.inj_succ, Z.pow_succ_r by lia.
    rewrite !Nat.pow_succ_r' in *.
    pose proof (Nat.pow_nonzero 2 e). pose proof (Z.pow_pos_nonneg 2 (Z.of_nat e)).
    split; [intros _; nia | intros _; lia].
Qed.

Lemma at_level_left N M i e : at_level N M i (S e) -> at_level N M (2 * i + 1) e.
Proof. unfold at_level. rewrite Nat.pow_succ_r'. intros; repeat split; nia. Qed.
Lemma at_level_right N M i e : at_level N M i (S e) -> at_level N M (2 * i + 2) e.
Proof. unfold at_level. rewrite Nat.pow_succ_r'. intros; repeat split; nia. Qed.

Lemma subtree_size_sum N i e :
  (e < 62)%nat -> 0 < subtree_size N i (S e) ->
  subtree_size N i (S e) =
    subtree_size N (2 * i + 1) e + 1 + subtree_size N (2 * i + 2) e.
Proof.
  intros He Hpos. destruct (subtree_size_split N i e He Hpos) as [Hk Hr].
  rewrite Hk in Hr.
  pose proof (subtree_size_range N (2 * i + 1) e).
  pose proof (subtree_size_range N i (S e)).
  assert (2 ^ Z.of_nat (S e) <= 2 ^ 62) by (apply Z.pow_le_mono_r; lia).
  assert (2 ^ 64 = 4 * 2 ^ 62) by reflexivity.
  rewrite <- Hr. unfold u64 in *.
  pose proof (subtree_size_range N (2 * i + 2) e).
  assert (2 ^ Z.of_nat e <= 2 ^ 62) by (apply Z.pow_le_mono_r; lia).
  pose proof (Z.mod_small (subtree_size N i (S e) - subtree_size N (2 * i + 1) e - 1) (2 ^ 64)) as Hs.
  destruct (Z_lt_le_dec (subtree_size N i (S e) - subtree_size N (2 * i + 1) e - 1) 0) as [Hneg|]; [|lia].
  rewrite <- (Z_mod_plus_full _ 1), Z.mod_small in Hr by lia. lia.
Qed.

Lemma insertBST_correct {A} N M e (sorted tree : list A) i :
  (e < 62)%nat -> at_level N M i e -> Z.of_nat M <= 2 ^ 62 ->
  length tree = N -> subtree_size N i e <= zlen sorted ->
  exists tree',
    insertBST sorted tree (subtree_size N i e) e (Z.of_nat i) = Some tree' /\
    length tree' = N /\
    (forall m, ~ desc i m -> tree' !! m = tree !! m) /\
    InOrder tree' i (take (Z.to_nat (subtree_size N i e)) sorted).
Proof.
  revert sorted tree i. induction e as [|e IH]; intros sorted tree i He Hlv HM Hlen Hsz;
    pose proof (at_level_in_range _ _ _ _ Hlv) as Hin.
  { exists tree. split; [done|]. repeat split; try done. exists [].
    split; [|constructor]. constructor. rewrite Hlen. cbn in Hin. lia. }
  cbn [insertBST]. case_match eqn:Hn0.
  { apply Z.eqb_eq in Hn0. exists tree. rewrite Hn0. repeat split; try done. exists [].
    split; [|constructor]. constructor. rewrite Hlen. lia. }
  apply Z.eqb_neq in Hn0. pose proof (subtree_size_range N i (S e)) as Hr.
  assert (0 < subtree_size N i (S e)) as Hpos by lia.
  assert (i < N /\ N < M)%nat as [HiN HNM] by (split; [by apply Hin|apply Hlv]).
  pose proof (subtree_size_sum N i e ltac:(lia) Hpos) as Hsum.
  destruct (subtree_size_split N i e ltac:(lia) Hpos) as [Hk Hright].
  cbv zeta in *. rewrite Hright, Hk. clear Hk Hright.
  set (n := subtree_size N i (S e)) in *.
  set (k := subtree_size N (2 * i + 1) e) in *.
  set (r := subtree_size N (2 * i + 2) e) in *.
  pose proof (subtree_size_range N (2 * i + 1) e : 0 <= k < _).
  pose proof (subtree_size_range N (2 * i + 2) e : 0 <= r < _).
  destruct (lookup_lt_is_Some_2 sorted (Z.to_nat k)) as [x Hx]; [lia|].
  rewrite Hx. cbn [mbind option_bind]. unfold store. rewrite decide_True by lia.
  assert (Z.of_nat i < 2 ^ 62) by lia.
  assert (2 ^ 64 = 4 * 2 ^ 62) by reflexivity.
  rewrite !u64_small by (unfold is_u64; lia). rewrite Nat2Z.id.
  replace (2 * Z.of_nat i + 1) with (Z.of_nat (2 * i + 1)) by lia.
  replace (2 * Z.of_nat i + 2) with (Z.of_nat (2 * i + 2)) by lia.
  destruct (IH sorted (<[i:=x]> tree) (2 * i + 1)%nat) as (t1 & E1 & L1 & F1 & O1);
    [lia|by apply at_level_left|done|by rewrite length_insert|fold k; lia|].
  fold k in E1, O1. cbn [mbind option_bind]. rewrite E1.
  destruct (IH (drop (Z.to_nat (k + 1)) sorted) t1 (2 * i + 2)%nat)
    as (t2 & E2 & L2 & F2 & O2);
    [lia|by apply at_level_right|done|done|rewrite length_drop; fold r; lia|].
  fold r in E2, O2. cbn [mbind option_bind]. rewrite E2. exists t2.
  split; [done|]. split; [done|].
  assert (forall m, desc (2 * i + 1) m -> t2 !! m = t1 !! m) as G1.
  { intros m Hm. apply F2. by apply desc_disjoint. }
  assert (t2 !! i = Some x) as Gi.
  { rewrite F2, F1; [by rewrite list_lookup_insert_eq by lia| |];
      intros Hd%desc_ge; lia. }
  split.
  - intros m Hm. rewrite F2, F1, list_lookup_insert_ne; [done| | |].
    + intros ->. apply Hm, desc_refl.
    + intros Hd. by apply Hm, desc_left.
    + intros Hd. by apply Hm, desc_right.
  - replace (take (Z.to_nat n) sorted)
      with (take (Z.to_nat k) sorted ++ x :: take (Z.to_nat r) (drop (Z.to_nat (k + 1)) sorted)).
    + apply InOrder_node; [done| |done].
      eapply InOrder_frame; [|intros m Hm; symmetry; by apply G1|done]. lia.
    + rewrite <- (take_drop_middle _ _ _ Hx) at 3. 
      rewrite take_app_ge by (rewrite length_take; lia).
      rewrite length_take. f_equal.
      replace (Z.to_nat n - Z.to_nat k `min` length sorted)%nat with (S (Z.to_nat r)) by lia.
      cbn [take]. do 3 f_equal. lia.
Qed.

Lemma bits_Len64_spec n : 0 < n -> 2 ^ (Z.of_nat (bits_Len64 n) - 1) <= n < 2 ^ Z.of_nat (bits_Len64 n).
Proof.
  intros Hn. unfold bits_Len64. destruct (Z.eqb_spec n 0); [lia|].
  pose proof (Z.log2_nonneg n). rewrite Z2Nat.id by lia.
  replace (Z.log2 n + 1 - 1) with (Z.log2 n) by lia.
  pose proof (Z.log2_spec n Hn). rewrite Z.add_1_r. lia.
Qed.

Lemma insertBST_whole {A} (sorted tree : list A) :
  zlen sorted < 2 ^ 61 -> length tree = length sorted ->
  exists tree',
    insertBST sorted tree (zlen sorted) (bits_Len64 (zlen sorted)) 0 = Some tree' /\
    length tree' = length sorted /\ InOrder tree' 0 sorted.
Proof.
  intros Hlt Hlen. destruct (decide (sorted = [])) as [->|Hne].
  { exists tree. split; [done|]. split; [done|]. exists []. split; constructor.
    cbn in Hlen. lia. }
  assert (0 < zlen sorted) as Hpos by (destruct sorted; cbn; [done|lia]).
  pose proof (bits_Len64_spec _ Hpos) as Hb.
  set (e := bits_Len64 (zlen sorted)) in *.
  assert (Z.of_nat e <= 61) as He.
  { destruct (Z_le_gt_dec (Z.of_nat e) 61); [done|].
    assert (2 ^ 61 <= 2 ^ (Z.of_nat e - 1)) by (apply Z.pow_le_mono_r; lia). lia. }
  destruct e as [|e'] eqn:Ee; [cbn in Hb; lia|]. rewrite <- Ee in *.
  assert (2 ^ Z.of_nat e = 2 * 2 ^ Z.of_nat e') as H2
    by (rewrite Ee, Nat2Z.inj_succ, Z.pow_succ_r; lia).
  replace (Z.of_nat e - 1) with (Z.of_nat e') in Hb by lia.
  assert (subtree_size (length sorted) 0 e = zlen sorted) as Hsz.
  { rewrite Ee. unfold subtree_size. lia. }
  destruct (insertBST_correct (length sorted) (2 ^ e)%nat e sorted tree 0)
    as (t & E & L & _ & O); rewrite ?Hsz in *.
  - lia.
  - assert (Z.of_nat (2 ^ e) = 2 ^ Z.of_nat e) by (rewrite Nat2Z.inj_pow; lia).
    unfold at_level. lia.
  - rewrite Nat2Z.inj_pow. apply Z.pow_le_mono_r; lia.
  - done.
  - lia.
  - exists t. split; [done|]. split; [done|]. by rewrite Nat2Z.id, firstn_all in O.
Qed.

Lemma InOrder_inv {A} (t : list A) i l :
  InOrder t i l -> (i < length t)%nat ->
  exists x l1 l2, l = l1 ++ x :: l2 /\ t !! i = Some x /\
    InOrder t (2 * i + 1) l1 /\ InOrder t (2 * i + 2) l2.
Proof.
  intros (ps & Hps & Hl) Hi. inversion Hps as [|? pl pr ? Hpl Hpr]; subst; [lia|].
  apply Forall2_app_inv_l in Hl as (l1 & l2 & H1 & H2 & ->).
  apply Forall2_cons_inv_l in H2 as (x & l2' & Hx & H2 & ->).
  exists x, l1, l2'. split; [done|]. split; [done|]. split; [by exists pl|by exists pr].
Qed.

Lemma InOrder_sub {A} (t : list A) i l m :
  InOrder t i l -> desc i m -> (m < length t)%nat ->
  exists l1 l' l2, l = l1 ++ l' ++ l2 /\ InOrder t m l'.
Proof.
  intros (ps & Hps & Hl) Hd Hm. revert l Hl.
  induction Hps as [i Hi|i pl pr Hi Hpl IHl Hpr IHr]; intros l Hl.
  { apply desc_ge in Hd. lia. }
  destruct (decide (m = i)) as [->|Hne].
  { exists [], l, []. rewrite app_nil_r. split; [done|]. exists (pl ++ i :: pr).
    split; [by constructor|done]. }
  apply Forall2_app_inv_l in Hl as (l1 & l2 & H1 & H2 & ->).
  apply Forall2_cons_inv_l in H2 as (x & l2' & Hx & H2 & ->).
  destruct (desc_trans_left i m Hd Hne) as [Hd'|Hd'].
  - destruct (IHl Hd' _ H1) as (a & b & c & -> & Hb).
    exists a, b, (c ++ x :: l2'). by rewrite <- !app_assoc.
  - destruct (IHr Hd' _ H2) as (a & b & c & -> & Hb).
    exists (l1 ++ x :: a), b, c. by rewrite <- app_assoc.
Qed.

Lemma InOrder_elem {A} (t : list A) i l m y :
  InOrder t i l -> desc i m -> t !! m = Some y -> y ∈ l.
Proof.
  intros Ho Hd Hy.
  destruct (InOrder_sub _ _ _ m Ho Hd) as (a & b & c & -> & Hb); [by eapply lookup_lt_Some|].
  destruct (InOrder_inv _ _ _ Hb) as (x & l1 & l2 & -> & Hx & _); [by eapply lookup_lt_Some|].
  simplify_eq. set_solver.
Qed.

(** Any relation that holds in list order holds in tree order. *)
Lemma InOrder_sorted {A} (R : A -> A -> Prop) (t l : list A) i m x y :
  InOrder t 0 l -> StronglySorted R l -> t !! i = Some x -> t !! m = Some y ->
  (desc (2 * i + 1) m -> R y x) /\ (desc (2 * i + 2) m -> R x y).
Proof.
  intros Ho Hs Hx Hy.
  destruct (InOrder_sub t 0 l i Ho) as (a & b & c & -> & Hb).
  { exists (Nat.log2 (i + 1)). pose proof (Nat.log2_spec (i + 1)).
    rewrite Nat.pow_succ_r' in *. lia. }
  { by eapply lookup_lt_Some. }
  destruct (InOrder_inv _ _ _ Hb) as (x' & l1 & l2 & -> & Hx' & H1 & H2);
    [by eapply lookup_lt_Some|]. simplify_eq.
  apply StronglySorted_app in Hs as (_ & _ & Hs).
  apply StronglySorted_app in Hs as (_ & Hs & _).
  apply StronglySorted_app in Hs as (Hlt & _ & Hs).
  apply StronglySorted_cons in Hs as [Hgt _]. split; intros Hd.
  - apply Hlt; [by eapply InOrder_elem|left].
  - rewrite Forall_forall in Hgt. apply Hgt. by eapply InOrder_elem.
Qed.

#[export] Instance hash_le_total : Total hash_le.
Proof. intros a b. unfold hash_le. lia. Qed.
#[export] Instance hash_le_trans : Transitive hash_le.
Proof. intros a b c. unfold hash_le. lia. Qed.

Lemma sortByHash_sorted items : StronglySorted hash_le (sortByHash items).
Proof. apply StronglySorted_merge_sort; apply _. Qed.
Lemma sortByHash_perm items : sortByHash items ≡ₚ items.
Proof. apply merge_sort_Permutation. Qed.

(** The bytes of the items of a table. *)
Definition items_bytes (goodbyeStart : Z) (tree : list GoodbyeItem) : bytes :=
  tree ≫= fun it => le64 (gi_Hash it) ++ le64 (u64 (goodbyeStart - gi_Start it)) ++ le64 (gi_Length it).

Lemma foldl_appendItem gs dst tree :
  foldl (appendItem gs) dst tree = dst ++ items_bytes gs tree.
Proof.
  revert dst. induction tree as [|it tree IH]; intros dst; [by rewrite app_nil_r|].
  cbn [foldl items_bytes mbind list_bind]. rewrite IH.
  unfold appendItem, AppendUint64. cbv zeta. by rewrite <- !app_assoc.
Qed.

Lemma length_items_bytes gs tree : length (items_bytes gs tree) = (24 * length tree)%nat.
Proof.
  induction tree as [|it tree IH]; [done|]. cbn [items_bytes mbind list_bind].
  unfold items_bytes in IH. autorewrite with gopbs. cbn [length]. lia.
Qed.

(* ------------------------------------------------------------------ *)
(** ** Properties *)

(** C12: The permutation never panics, loses no item and is the implicit search
    tree of the items: walking it in order (left child [2i+1], node, right
    child [2i+2]) gives the sorted slice back. *)
Theorem permuteBST_layout (sorted : list GoodbyeItem) :
  zlen sorted < 2 ^ 61 ->
  exists tree, permuteBST sorted = Some tree /\ tree ≡ₚ sorted /\ InOrder tree 0 sorted.
Proof.
  intros Hn. destruct (insertBST_whole sorted (replicate (length sorted) (mkGoodbyeItem 0 0 0)))
    as (tree & E & _ & O); [done|by rewrite length_replicate|].
  exists tree. split; [exact E|]. split; [by apply InOrder_Permutation|exact O].
Qed.

(** The search-tree order the format promises: below the item at index [i],
    everything reached through [2i+1] hashes no higher and everything reached
    through [2i+2] no lower, so that a lookup bisects. *)
Theorem permuteBST_search_order items tree i m x y :
  zlen items < 2 ^ 61 -> permuteBST (sortByHash items) = Some tree ->
  tree !! i = Some x -> tree !! m = Some y ->
  (desc (2 * i + 1) m -> gi_Hash y <= gi_Hash x) /\
  (desc (2 * i + 2) m -> gi_Hash x <= gi_Hash y).
Proof.
  intros Hn E Hx Hy.
  assert (zlen (sortByHash items) < 2 ^ 61) as Hn' by (rewrite sortByHash_perm; done).
  destruct (insertBST_whole (sortByHash items)
    (replicate (length (sortByHash items)) (mkGoodbyeItem 0 0 0)))
    as (tree' & E' & _ & O); [done|by rewrite length_replicate|].
  unfold permuteBST in E. rewrite E' in E. simplify_eq.
  apply (InOrder_sorted hash_le tree (sortByHash items)); auto using sortByHash_sorted.
Qed.

Lemma AppendGoodbye_spec dst items ds gs :
  zlen items < 2 ^ 61 ->
  exists tree, tree ≡ₚ items /\
    AppendGoodbye dst items ds gs =
      Some (dst ++ frame TypeGoodbye
        (items_bytes gs tree ++ le64 GoodbyeTailMarker ++ le64 (u64 (gs - ds)) ++
         le64 (SizeGoodbye (zlen items)))).
Proof.
  intros Hn.
  assert (zlen (sortByHash items) < 2 ^ 61) as Hn' by (rewrite sortByHash_perm; done).
  destruct (insertBST_whole (sortByHash items)
    (replicate (length (sortByHash items)) (mkGoodbyeItem 0 0 0)))
    as (tree & E & _ & O); [done|by rewrite length_replicate|].
  exists tree. assert (tree ≡ₚ items) as Hp
    by (rewrite (InOrder_Permutation _ _ O); apply sortByHash_perm).
  split; [done|]. unfold AppendGoodbye.
  change (permuteBST (sortByHash items)) with
    (insertBST (sortByHash items) (replicate (length (sortByHash items)) (mkGoodbyeItem 0 0 0))
      (zlen (sortByHash items)) (bits_Len64 (zlen (sortByHash items))) 0).
  rewrite E. cbn [mbind option_bind]. rewrite foldl_appendItem. unfold frame.
  f_equal. unfold appendHeader, AppendUint64. cbv zeta. rewrite <- !app_assoc. do 3 f_equal.
  autorewrite with gopbs. rewrite length_items_bytes, Hp. f_equal.
  unfold SizeGoodbye, HeaderSize. lia.
Qed.

(* ------------------------------------------------------------------ *)
(** ** Witnesses *)

Definition sample_items : list GoodbyeItem :=
  [mkGoodbyeItem 40 16 8; mkGoodbyeItem 10 24 8; mkGoodbyeItem 30 32 8; mkGoodbyeItem 20 40 8].

Lemma permuteBST_layout_witness :
  zlen sample_items < 2 ^ 61 /\
  exists tree, permuteBST sample_items = Some tree /\ tree ≡ₚ sample_items /\
    InOrder tree 0 sample_items.
Proof. split; [vm_compute; done|]. apply permuteBST_layout. vm_compute. done. Defined.

Lemma permuteBST_search_order_witness :
  (desc (2 * 0 + 1) 3 -> 10 <= 30) /\ (desc (2 * 0 + 2) 3 -> 30 <= 10).
Proof.
  apply (permuteBST_search_order sample_items
    [mkGoodbyeItem 30 32 8; mkGoodbyeItem 20 40 8; mkGoodbyeItem 40 16 8; mkGoodbyeItem 10 24 8]
    0 3 (mkGoodbyeItem 30 32 8) (mkGoodbyeItem 10 24 8)); vm_compute; reflexivity.
Defined.
