(* ===== verification/Io.v ===== *)
(** * Readers

    The io.Reader and io.ReadFull of Go's standard library as the source
    uses them.  A reader is the list of results its underlying source will
    produce, so that short reads, [(0, nil)] reads, data returned together
    with an error, and errors other than [io.EOF] are all present. *)

From S2P Require Import Prelude.
Local Open Scope nat_scope.

Inductive ioerr := EOF | ErrUnexpectedEOF | IOError (code : Z).

#[export] Instance ioerr_eq_dec : EqDecision ioerr.
Proof. solve_decision. Defined.

(** The pending results; the empty list answers [(0, EOF)] forever. *)
Abbreviation reader := (list (list Byte.byte * option ioerr)).

(** [r.Read(buf[:want])]: at most [want] bytes of the next pending result; an
    error is returned once its data is consumed, and stays. *)
Definition Read (want : nat) (r : reader) : bytes * option ioerr * reader :=
  match r with
  | [] => ([], Some EOF, [])
  | (b, e) :: r' =>
      if decide (want < length b) then (take want b, None, (drop want b, e) :: r')
      else (b, e, match e with None => r' | Some _ => [([], e)] end)
  end.

(** Everything the reader will deliver, and the error that ends it. *)
Fixpoint contents (r : reader) : bytes * ioerr :=
  match r with
  | [] => ([], EOF)
  | (b, Some e) :: _ => (b, e)
  | (b, None) :: r => let '(c, e) := contents r in (b ++ c, e)
  end.

(** A bound on the number of reads that make progress. *)
Definition rsize (r : reader) : nat :=
  foldr (fun x n => S (length x.1 + n)) 0 r.

(** [io.ReadFull(r, buf[:n])]: [n] bytes, or the bytes read and the error
    ([EOF] only if nothing was read). *)
Fixpoint ReadFull_loop (fuel n : nat) (acc : bytes) (r : reader) :
    (bytes * option ioerr) * reader :=
  if decide (n = 0) then ((acc, None), r) else
  match fuel with
  | O => ((acc, Some ErrUnexpectedEOF), r)
  | S fuel =>
      let '(b, e, r) := Read n r in
      let acc := acc ++ b in
      if decide (n <= length b) then ((acc, None), r) else
      match e with
      | None => ReadFull_loop fuel (n - length b) acc r
      | Some EOF =>
          ((acc, Some (if decide (acc = []) then EOF else ErrUnexpectedEOF)), r)
      | Some e => ((acc, Some e), r)
      end
  end.

Definition ReadFull (n : nat) (r : reader) : (bytes * option ioerr) * reader :=
  ReadFull_loop (S (rsize r)) n [] r.

(** A source that ends in [io.EOF]. *)
Definition eof_reader (r : reader) : Prop := (contents r).2 = EOF.

(* ------------------------------------------------------------------ *)
(** ** Lemmas *)

Lemma Read_length want r : length (Read want r).1.1 <= want.
Proof.
  destruct r as [|[b e] r]; cbn; [lia|]. case_decide; cbn; [|lia].
  rewrite length_take. lia.
Qed.

(** One read delivers a prefix of the contents. *)
Lemma Read_contents want r b e r' :
  Read want r = (b, e, r') ->
  contents r = (b ++ (contents r').1, (contents r').2) /\
  (forall e', e = Some e' -> (contents r').1 = [] /\ (contents r').2 = e').
Proof.
  destruct r as [|[b0 e0] r]; cbn; intros H.
  { simplify_eq. split; [done|]. by intros e' [= <-]. }
  case_decide; simplify_eq.
  - split; [|done]. destruct e0 as [e0|]; cbn.
    + by rewrite take_drop.
    + destruct (contents r) as [c e]. cbn. by rewrite app_assoc, take_drop.
  - destruct e as [e|]; cbn.
    + rewrite app_nil_r. split; [done|]. intros e' [= <-]. done.
    + by destruct (contents _).
Qed.

Lemma rsize_cons b e r : rsize ((b, e) :: r) = S (length b + rsize r).
Proof. done. Qed.

(** A read that returns no error makes progress. *)
Lemma Read_rsize want r b r' :
  0 < want -> Read want r = (b, None, r') -> rsize r' < rsize r.
Proof.
  destruct r as [|[b0 e0] r]; cbn [Read]; intros Hw H; [done|].
  case_decide; simplify_eq; rewrite !rsize_cons; [rewrite length_drop|]; lia.
Qed.

Lemma ReadFull_loop_spec fuel n acc r :
  rsize r < fuel ->
  let c := (contents r).1 in
  let e := (contents r).2 in
  exists r',
    (if decide (n <= length c)
     then ReadFull_loop fuel n acc r = ((acc ++ take n c, None), r') /\
          contents r' = (drop n c, e)
     else ReadFull_loop fuel n acc r =
            ((acc ++ c, Some (match e with
                              | EOF => if decide (acc ++ c = []) then EOF else ErrUnexpectedEOF
                              | e => e end)), r')).
Proof.
  revert n acc r. induction fuel as [|fuel IH]; intros n acc r Hf; [lia|].
  cbn [ReadFull_loop]. destruct (decide (n = 0)) as [->|Hn].
  { exists r. rewrite decide_True by lia. rewrite app_nil_r. by destruct (contents r). }
  destruct (Read n r) as [[b e] r'] eqn:HR.
  pose proof (Read_length n r) as Hl. rewrite HR in Hl. cbn in Hl.
  pose proof (Read_contents _ _ _ _ _ HR) as [Hc He].
  rewrite Hc. cbn [fst snd].
  destruct (decide (n <= length b)) as [Hnb|Hnb].
  { exists r'. rewrite decide_True by (rewrite length_app; lia).
    assert (n = length b) as -> by lia. rewrite take_app_length, drop_app_length.
    by destruct (contents r'). }
  destruct e as [e|].
  - destruct (He e eq_refl) as [Hnil <-]. rewrite Hnil, app_nil_r.
    exists r'. rewrite decide_False by lia. by destruct (contents r').2.
  - destruct (IH (n - length b) (acc ++ b) r') as [r2 IH'].
    { pose proof (Read_rsize n r b r' ltac:(lia) HR). lia. }
    exists r2. cbv zeta in *. rewrite length_app. rewrite <- !app_assoc in IH'.
    destruct (decide (n - length b <= length (contents r').1)).
    + rewrite decide_True by lia. destruct IH' as [-> ->].
      rewrite take_app_ge, drop_app_ge by lia. done.
    + rewrite decide_False by lia. exact IH'.
Qed.

(** What ReadFull returns depends on the contents alone, not on how the
    source segments them. *)
Lemma ReadFull_spec n r :
  let c := (contents r).1 in
  let e := (contents r).2 in
  exists r',
    (if decide (n <= length c)
     then ReadFull n r = ((take n c, None), r') /\ contents r' = (drop n c, e)
     else ReadFull n r =
            ((c, Some (match e with
                       | EOF => if decide (c = []) then EOF else ErrUnexpectedEOF
                       | e => e end)), r')).
Proof. apply (ReadFull_loop_spec (S (rsize r)) n [] r). lia. Qed.

(** A source too short leaves nothing to read but its error. *)
Lemma ReadFull_loop_short fuel n acc r :
  rsize r < fuel -> length (contents r).1 < n ->
  contents (ReadFull_loop fuel n acc r).2 = ([], (contents r).2).
Proof.
  revert n acc r. induction fuel as [|fuel IH]; intros n acc r Hf Hn; [lia|].
  cbn [ReadFull_loop]. rewrite decide_False by lia.
  destruct (Read n r) as [[b e] r'] eqn:HR.
  pose proof (Read_contents _ _ _ _ _ HR) as [Hc He]. rewrite Hc in Hn |- *. cbn [fst snd] in Hn |- *.
  rewrite length_app in Hn. rewrite decide_False by lia.
  destruct e as [e|].
  - destruct (He e eq_refl) as [Hnil Hend].
    assert (contents r' = ([], e)) as Hr' by (rewrite (surjective_pairing (contents r')); congruence).
    rewrite Hend. destruct e; exact Hr'.
  - apply IH; [pose proof (Read_rsize n r b r' ltac:(lia) HR); lia|lia].
Qed.
Lemma ReadFull_short n r :
  length (contents r).1 < n -> contents (ReadFull n r).2 = ([], (contents r).2).
Proof. intros Hn. apply ReadFull_loop_short; [lia|done]. Qed.

(** A source holds no more than its size. *)
Lemma contents_rsize r : length (contents r).1 <= rsize r.
Proof.
  induction r as [|[b [e|]] r IH]; cbn [contents fst]; rewrite ?rsize_cons; cbn; [done|lia|].
  destruct (contents r) as [c e]. cbn in *. rewrite length_app. lia.
Qed.
