(* ===== verification/Tree.v ===== *)
(** * The node tree

    Models the data of scan/scan.go, scan/reader.go and pxar/reader.go that
    the archive generators walk: stat data, xattrs, POSIX ACLs and the
    scanned [Node] tree, with the virtual nodes built without a filesystem. *)

From S2P Require Import Prelude Format Io.
From stdpp Require Import sorting.
Local Open Scope Z_scope.

Record Stat := mkStat {
  st_Mode : Z; st_UID : Z; st_GID : Z; st_MtimeSecs : Z; st_MtimeNanos : Z;
  st_Size : Z; st_Nlink : Z; st_Dev : Z; st_Ino : Z; st_Rdev : Device }.

Record Xattr := mkXattr { xa_Name : bytes; xa_Value : bytes }.

(** [pxar.ACLs]; a nil [*uint64] or [*ACLDefault] is [None]. *)
Record ACLs := mkACLs {
  Users : list ACLUser; Groups : list ACLGroup; GroupObj : option Z;
  Default : option ACLDefault;
  DefaultUsers : list ACLUser; DefaultGroups : list ACLGroup }.

Inductive Kind :=
  | KindDirectory | KindFile | KindSymlink | KindHardlink | KindBlockDevice
  | KindCharDevice | KindFifo | KindSocket | KindStream.

#[export] Instance kind_eq_dec : EqDecision Kind.
Proof. solve_decision. Defined.

(** [scan.Node]. *)
Inductive node := mkNode {
  n_Name : bytes; n_Path : bytes; n_Kind : Kind; n_Stat : Stat;
  n_LinkTarget : bytes; n_Xattrs : list Xattr; n_ACL : option ACLs;
  n_FCaps : bytes; n_QuotaProjID : Z; n_Children : list node;
  n_Stream : option reader }.

Definition joinArchive (prefix name : bytes) : bytes :=
  if decide (prefix = []) then name else prefix ++ [slash] ++ name.

Definition zeroDevice := mkDevice 0 0.

Inductive tree_error :=
  | BadName (e : name_error) | NegativeSize (size : Z) | DuplicateName (name : bytes).

(** [StreamNode]: mode 0644, owner 0, one link. *)
Definition StreamNode (name : bytes) (size : Z) (r : reader) : result tree_error node :=
  match ValidateFilename name with
  | Err e => Err (BadName e)
  | Ok _ =>
      if size <? 0 then Err (NegativeSize size) else
      Ok (mkNode name [] KindStream
            (mkStat (Z.lor modeRegular 0x1a4) 0 0 0 0 size 1 0 0 zeroDevice)
            [] [] None [] 0 [] (Some r))
  end.

(** Byte order of Go strings. *)
Fixpoint bytes_leb (a b : bytes) : bool :=
  match a, b with
  | [], _ => true
  | _ :: _, [] => false
  | x :: a, y :: b =>
      if Z_of_byte x <? Z_of_byte y then true
      else if Z_of_byte y <? Z_of_byte x then false
      else bytes_leb a b
  end.

Definition name_le (a b : node) : Prop := bytes_leb (n_Name a) (n_Name b) = true.
#[export] Instance name_le_dec a b : Decision (name_le a b).
Proof. unfold name_le. apply _. Defined.

(** The loop of [VirtualRoot] over its children, [seen] being its map. *)
Fixpoint checkTopLevel (seen : gset bytes) (children : list node) : result tree_error unit :=
  match children with
  | [] => Ok ()
  | c :: children =>
      match ValidateFilename (n_Name c) with
      | Err e => Err (BadName e)
      | Ok _ =>
          if decide (n_Name c ∈ seen) then Err (DuplicateName (n_Name c))
          else checkTopLevel ({[n_Name c]} ∪ seen) children
      end
  end.

Definition VirtualRoot (name : bytes) (children : list node) : result tree_error node :=
  _ ← checkTopLevel ∅ children;
  let sorted := merge_sort name_le children in
  Ok (mkNode name [] KindDirectory
        (mkStat (Z.lor modeDir 0x1ff) 0 0 0 0 0 1 0 0 zeroDevice)
        [] [] None [] 0 sorted None).

(** [P] holds of every node of a tree. *)
Inductive tree_all (P : node -> Prop) (n : node) : Prop :=
  | tree_all_node : P n -> Forall (tree_all P) (n_Children n) -> tree_all P n.

(** Directories on the longest path of a tree. *)
Fixpoint height (n : node) : nat :=
  match n_Kind n with
  | KindDirectory => S (foldr (fun c h => Nat.max (height c) h) 0%nat (n_Children n))
  | _ => O
  end.

(* ------------------------------------------------------------------ *)
(** ** Lemmas *)

Lemma node_ind' (P : node -> Prop) :
  (forall n, Forall P (n_Children n) -> P n) -> forall n, P n.
Proof.
  intros H. fix IH 1. intros n. apply H. destruct n as [? ? ? ? ? ? ? ? ? cs ?]. cbn.
  induction cs as [|c cs IHcs]; constructor; [apply IH|apply IHcs].
Qed.

Lemma height_children n : n_Kind n = KindDirectory ->
  Forall (fun c => (S (height c) <= height n)%nat) (n_Children n).
Proof.
  intros Hk. assert (height n = S (foldr (fun c h => Nat.max (height c) h) 0%nat (n_Children n))) as ->
    by (destruct n; cbn in Hk; by subst).
  induction (n_Children n) as [|c cs IH]; constructor; cbn [foldr]; [lia|].
  eapply Forall_impl; [exact IH|]. cbn. lia.
Qed.

Lemma height_dir n : n_Kind n = KindDirectory -> (1 <= height n)%nat.
Proof. destruct n. cbn. intros ->. lia. Qed.

Lemma bytes_leb_refl a : bytes_leb a a = true.
Proof. induction a; cbn; [done|]. by rewrite Z.ltb_irrefl. Qed.
Lemma bytes_leb_total a b : bytes_leb a b = true \/ bytes_leb b a = true.
Proof.
  revert b. induction a as [|x a IH]; intros [|y b]; cbn; auto.
  destruct (Z.ltb_spec (Z_of_byte x) (Z_of_byte y)); auto.
  destruct (Z.ltb_spec (Z_of_byte y) (Z_of_byte x)); auto.
Qed.
Lemma bytes_leb_trans a b c :
  bytes_leb a b = true -> bytes_leb b c = true -> bytes_leb a c = true.
Proof.
  revert b c. induction a as [|x a IH]; intros [|y b] [|z c]; cbn; try done.
  repeat case_match; rewrite ?Z.ltb_lt, ?Z.ltb_ge in *; intros; try done; try lia.
  eauto.
Qed.
Lemma bytes_leb_antisym a b : bytes_leb a b = true -> bytes_leb b a = true -> a = b.
Proof.
  revert b. induction a as [|x a IH]; intros [|y b]; cbn; try done.
  repeat case_match; rewrite ?Z.ltb_lt, ?Z.ltb_ge in *; intros; try done; try lia.
  f_equal; [apply Z_of_byte_inj; lia|auto].
Qed.

#[export] Instance name_le_total : Total name_le.
Proof. intros a b. apply bytes_leb_total. Qed.
#[export] Instance name_le_trans : Transitive name_le.
Proof. intros a b c. apply bytes_leb_trans. Qed.

Lemma checkTopLevel_ok seen cs :
  checkTopLevel seen cs = Ok () <->
  NoDup (n_Name <$> cs) /\
  Forall (fun c => ValidateFilename (n_Name c) = Ok () /\ n_Name c ∉ seen) cs.
Proof.
  revert seen. induction cs as [|c cs IH]; intros seen.
  { split; [|done]. intros _. split; constructor. }
  cbn [checkTopLevel fmap list_fmap]. rewrite NoDup_cons, Forall_cons.
  destruct (ValidateFilename (n_Name c)) as [[]|e] eqn:Hv.
  2: { split; [done|]. by intros (_ & [] & _). }
  case_decide as Hs; [split; [done|]; by intros (_ & [_ []] & _)|].
  rewrite IH. rewrite !Forall_forall. setoid_rewrite not_elem_of_union.
  setoid_rewrite not_elem_of_singleton. setoid_rewrite list_elem_of_fmap.
  split.
  - intros [Hnd Hall]. split_and!; [|done|done|done|intros x Hx; naive_solver].
    intros (y & Hy & Hin). by destruct (Hall y Hin) as (_ & Hne & _).
  - intros ([Hni Hnd] & _ & Hall). split; [done|]. intros x Hx.
    destruct (Hall x Hx). split_and!; [done| |done]. intros Heq. apply Hni. eauto.
Qed.

(* ------------------------------------------------------------------ *)
(** ** Properties *)

(** A virtual root is built exactly when every top-level name is a valid,
    distinct filename; its children are then the given nodes in strictly
    ascending name order. *)
Theorem VirtualRoot_spec name children :
  (is_ok (VirtualRoot name children) = true <->
     NoDup (n_Name <$> children) /\
     Forall (fun c => ValidateFilename (n_Name c) = Ok ()) children) /\
  (forall root, VirtualRoot name children = Ok root ->
     n_Children root ≡ₚ children /\
     StronglySorted (fun a b => name_le a b /\ n_Name a <> n_Name b) (n_Children root)).
Proof.
  pose proof (checkTopLevel_ok ∅ children) as Hc. unfold VirtualRoot. split.
  - destruct (checkTopLevel ∅ children) as [[]|e]; cbn.
    + destruct Hc as [Hc _]. destruct (Hc eq_refl) as [Hn Hf]. split; [|done].
      intros _. split; [done|]. by eapply Forall_impl; [exact Hf|intros ? []].
    + destruct Hc as [_ Hc]. split; [done|]. intros [Hn Hf]. exfalso.
      discriminate Hc. split; [done|]. eapply Forall_impl; [exact Hf|]. set_solver.
  - intros root H. destruct (checkTopLevel ∅ children) as [[]|e]; [|done].
    cbn in H. simplify_eq. cbn [n_Children]. destruct Hc as [Hc _].
    destruct (Hc eq_refl) as [Hn _].
    pose proof (merge_sort_Permutation name_le children) as Hp. split; [done|].
    assert (NoDup (n_Name <$> merge_sort name_le children)) as Hn' by by rewrite Hp.
    pose proof (StronglySorted_merge_sort name_le children) as Hs.
    revert Hn' Hs. generalize (merge_sort name_le children). clear.
    intros l Hn Hs. induction Hs as [|x l Hs IH Hx]; constructor.
    + apply IH. by inversion Hn.
    + rewrite Forall_forall in *. intros y Hy. split; [auto|]. intros He.
      rewrite fmap_cons, NoDup_cons in Hn. apply Hn. rewrite He. set_solver.
Qed.
