(* ===== verification/Payload.v ===== *)
(** * Payload sources

    Models the [countWriter] of archive/emit.go and archive/payload.go: the
    seam between the emitters and payload I/O, its contract (a payload writes
    exactly the number of bytes it announced) and the synchronous source. *)

From S2P Require Import Prelude Format Io Tree.
Local Open Scope Z_scope.

Inductive Warning :=
  | WarnSkipped (path : bytes)
  | WarnSizeChanged (path : bytes) (bound actual : Z)
  | WarnTorn (path : bytes) (bound actual : Z)
  | WarnTornErr (path : bytes)
  | WarnBadPattern (path : bytes).

Inductive gen_error :=
  | ErrCanceled
  | ErrWrite
  | ErrOpen (path : bytes)
  | ErrReading (e : ioerr)
  | ErrHardlinkTarget (apath target : bytes)
  | ErrNodeKind (apath : bytes)
  | ErrMoreFilesThanPlanned
  | ErrLedger
  | ErrOrder
  | ErrPanic.

(** [countWriter].  [cw_out] is what the consumer received; [cw_cap] bounds
    what it accepts before closing the pipe ([None]: it reads to the end) and
    [cw_ctx] counts the writes after which the context is done. *)
Record countWriter := mkCW {
  cw_pos : Z; cw_out : bytes; cw_cap : option nat; cw_ctx : option nat }.

Definition cw_write (p : bytes) (w : countWriter) : result gen_error unit * countWriter :=
  match cw_ctx w with
  | Some O => (Err ErrCanceled, w)
  | ctx =>
      match cw_cap w with
      | None => (Ok (), mkCW (u64 (cw_pos w + zlen p)) (cw_out w ++ p) None (pred <$> ctx))
      | Some c =>
          if decide (length p <= c)%nat
          then (Ok (), mkCW (u64 (cw_pos w + zlen p)) (cw_out w ++ p)
                         (Some (c - length p)%nat) (pred <$> ctx))
          else (Err ErrWrite, mkCW (u64 (cw_pos w + Z.of_nat c)) (cw_out w ++ take c p)
                                (Some O) (pred <$> ctx))
      end
  end.

(** A writer whose consumer reads to the end. *)
Definition cw_open (pos : Z) (out : bytes) : countWriter := mkCW pos out None None.

Definition copyChunk : Z := 1048576.

(** [copyExactly]: first loop, up to [size] bytes from [r]. *)
Fixpoint copy_source (fuel : nat) (size fromSource : Z) (r : reader) (w : countWriter) :
    result gen_error Z * reader * countWriter :=
  if negb (fromSource <? size) then (Ok fromSource, r, w) else
  match fuel with
  | O => (Ok fromSource, r, w)
  | S fuel =>
      let want := Z.min (size - fromSource) copyChunk in
      let '(b, e, r) := Read (Z.to_nat want) r in
      let '(werr, w) := if decide (b = []) then (Ok (), w) else cw_write b w in
      match werr with
      | Err err => (Err err, r, w)
      | Ok _ =>
          let fromSource := fromSource + zlen b in
          match e with
          | Some EOF => (Ok fromSource, r, w)
          | Some e => (Err (ErrReading e), r, w)
          | None => copy_source fuel size fromSource r w
          end
      end
  end.

(** Second loop: zero-fill whatever the source did not deliver. *)
Fixpoint zero_fill (fuel : nat) (pad : Z) (w : countWriter) : result gen_error unit * countWriter :=
  if negb (0 <? pad) then (Ok (), w) else
  match fuel with
  | O => (Ok (), w)
  | S fuel =>
      let n := Z.min pad copyChunk in
      let '(werr, w) := cw_write (replicate (Z.to_nat n) nul) w in
      match werr with
      | Err err => (Err err, w)
      | Ok _ => zero_fill fuel (pad - n) w
      end
  end.

Definition copyExactly (size : Z) (r : reader) (w : countWriter) :
    result gen_error Z * reader * countWriter :=
  let '(res, r, w) := copy_source (S (rsize r)) size 0 r w in
  match res with
  | Err e => (Err e, r, w)
  | Ok fromSource =>
      let pad := size - fromSource in
      let '(res, w) := zero_fill (S (Z.to_nat (pad / copyChunk))) pad w in
      match res with
      | Err e => (Err e, r, w)
      | Ok _ => (Ok fromSource, r, w)
      end
  end.

(** The [payload] interface; [pl_Copy] returns the warnings [Warnings] reports
    after a successful copy. *)
Record payload := mkPayload {
  pl_Size : Z;
  pl_Copy : countWriter -> result gen_error (list Warning) * countWriter }.

(** [w'] is [w] after the bytes [p] went through. *)
Definition wrote (w : countWriter) (p : bytes) (w' : countWriter) : Prop :=
  cw_out w' = cw_out w ++ p /\ cw_pos w' = u64 (cw_pos w + zlen p).

(** The [payloadSource] interface and its contract. *)
Class PayloadSource (S : Type) := {
  src_open : node -> S -> result gen_error payload * S;
  (** "Copy writes exactly Size bytes." *)
  src_exact n s p s' w ws w' :
    src_open n s = (Ok p, s') -> is_i64 (pl_Size p) /\
    (0 <= pl_Size p -> cw_pos w = u64 (cw_pos w) -> pl_Copy p w = (Ok ws, w') ->
     exists content, zlen content = pl_Size p /\ wrote w content w')
}.

(** The nodes that carry content. *)
Definition is_payload (k : Kind) : bool :=
  match k with KindFile | KindStream => true | _ => false end.

(** A source that keeps an invariant, binds no negative size and copies what
    [cont] says for the nodes satisfying [good]. *)
Definition source_copies {T : Type} `{PayloadSource T} (I : T -> Prop) (good : node -> Prop)
    (cont : node -> bytes -> Prop) : Prop :=
  forall n s p s', I s -> good n -> is_payload (n_Kind n) = true -> src_open n s = (Ok p, s') ->
  I s' /\ 0 <= pl_Size p /\
  forall w ws w', cw_pos w = u64 (cw_pos w) -> pl_Copy p w = (Ok ws, w') ->
  exists content, zlen content = pl_Size p /\ wrote w content w' /\ cont n content.

(** A writer whose consumer reads on and whose context is not done. *)
Definition cw_live (w : countWriter) : Prop := cw_cap w = None /\ cw_ctx w = None.

(** A source that always opens and whose payloads a live writer takes. *)
Definition source_live {T : Type} `{PayloadSource T} (I : T -> Prop) (good : node -> Prop) : Prop :=
  forall n s, I s -> good n -> is_payload (n_Kind n) = true ->
  exists p s', src_open n s = (Ok p, s') /\ I s' /\
  forall w, cw_live w -> exists ws w', pl_Copy p w = (Ok ws, w') /\ cw_live w'.

(** A file as [os.Open] and the two [Stat] calls see it: [None] is a failing
    [Stat]; the mtime is an instant. *)
Record osfile := mkFile {
  f_reader : reader;
  f_stat : option (Z * Z);
  f_after : option (Z * Z) }.

(** What the paths of a tree open to. *)
Abbreviation osfs := (list Byte.byte -> option osfile).

Definition filePayload_Copy (path : bytes) (f : osfile) (size mtime : Z) (w : countWriter) :
    result gen_error (list Warning) * countWriter :=
  let '(res, _, w) := copyExactly size (f_reader f) w in
  match res with
  | Err e => (Err e, w)
  | Ok written =>
      let warns :=
        if written <? size then [WarnSizeChanged path size written] else [] in
      let torn :=
        match f_after f with
        | None => [WarnTornErr path]
        | Some (size', mtime') =>
            if negb (size' =? size) || negb (mtime' =? mtime)
            then [WarnTorn path size size'] else []
        end in
      (Ok (warns ++ torn), w)
  end.

Definition streamPayload_Copy (name : bytes) (r : reader) (size : Z) (w : countWriter) :
    result gen_error (list Warning) * countWriter :=
  let '(res, r, w) := copyExactly size r w in
  match res with
  | Err e => (Err e, w)
  | Ok written =>
      if written <? size then (Ok [WarnSizeChanged name size written], w) else
      let '((probe, _), _) := ReadFull 1 r in
      (Ok (if decide (probe = []) then [] else [WarnSizeChanged name size (size + 1)]), w)
  end.

(** A value of Go type [int64]. *)
Definition int64_of (z : Z) : Z := i64 z.

(** [syncSource.open]. *)
Definition sync_open (n : node) (fs : osfs) : result gen_error payload * osfs :=
  if decide (n_Kind n = KindStream) then
    match n_Stream n with
    | None => (Err ErrPanic, fs)
    | Some r =>
        let size := int64_of (st_Size (n_Stat n)) in
        (Ok (mkPayload size (streamPayload_Copy (n_Name n) r size)), fs)
    end
  else
    match fs (n_Path n) with
    | None => (Err (ErrOpen (n_Path n)), fs)
    | Some f =>
        match f_stat f with
        | None => (Err (ErrOpen (n_Path n)), fs)
        | Some (size, mtime) =>
            let size := int64_of size in
            (Ok (mkPayload size (filePayload_Copy (n_Path n) f size mtime)), fs)
        end
    end.

(* ------------------------------------------------------------------ *)
(** ** Lemmas *)

Lemma wrote_nil w : cw_pos w = u64 (cw_pos w) -> wrote w [] w.
Proof. intros H. split; [by rewrite app_nil_r|]. by rewrite Z.add_0_r. Qed.

Lemma wrote_trans w p w1 q w2 : wrote w p w1 -> wrote w1 q w2 -> wrote w (p ++ q) w2.
Proof.
  intros [H1 H2] [H3 H4]. split.
  - by rewrite H3, H1, app_assoc.
  - rewrite H4, H2, u64_add_l, length_app. f_equal. lia.
Qed.

Lemma cw_write_wrote p w w' : cw_write p w = (Ok (), w') -> wrote w p w'.
Proof. unfold cw_write. intros. repeat case_match; simplify_eq; done. Qed.

(** Any write sequence leaves a prefix behind, whatever failed. *)
Lemma cw_write_prefix p w res w' :
  cw_write p w = (res, w') -> exists q, cw_out w' = cw_out w ++ q /\ q `prefix_of` p.
Proof.
  unfold cw_write. intros H.
  assert (forall n, take n p `prefix_of` p) as Ht
    by (intros n; exists (drop n p); by rewrite take_drop).
  repeat case_match; simplify_eq; cbn; try (by exists p);
    try (exists []; split; [by rewrite app_nil_r|apply prefix_nil]); eauto.
Qed.

Lemma cw_write_open p pos out :
  cw_write p (cw_open pos out) = (Ok (), cw_open (u64 (pos + zlen p)) (out ++ p)).
Proof. done. Qed.

Lemma copy_source_ok fuel size from r w n r' w' :
  0 <= from <= size -> copy_source fuel size from r w = (Ok n, r', w') ->
  (cw_pos w = u64 (cw_pos w)) ->
  exists d, wrote w d w' /\ n = from + zlen d /\ n <= size /\
    contents r = (d ++ (contents r').1, (contents r').2) /\
    ((rsize r < fuel)%nat -> n = size \/ contents r' = ([], EOF)).
Proof.
  revert from r w. induction fuel as [|fuel IH]; intros from r w Hf H Hw; cbn [copy_source] in H.
  - assert (Ok (E := gen_error) from = Ok n /\ r = r' /\ w = w') as (E & -> & ->)
      by (destruct (negb _); simplify_eq; done). simplify_eq.
    exists []. split_and!; [by apply wrote_nil|cbn; lia|lia|by destruct (contents r')|lia].
  - destruct (Z.ltb_spec from size) as [Hlt|Hge]; cbn [negb] in H.
    2: { simplify_eq. exists []. split_and!; [by apply wrote_nil|cbn; lia|lia|by destruct (contents r')|].
         intros _. left. lia. }
    destruct (Read _ r) as [[b e] r1] eqn:HR.
    pose proof (Read_length (Z.to_nat (Z.min (size - from) copyChunk)) r) as Hl.
    rewrite HR in Hl. cbn in Hl.
    pose proof (Read_contents _ _ _ _ _ HR) as [Hc He].
    assert (exists w1, (if decide (b = []) then (Ok (E := gen_error) (), w) else cw_write b w) = (Ok (), w1)
              /\ wrote w b w1) as (w1 & E1 & W1).
    { case_decide as Hb; [subst b; exists w; split; [done|by apply wrote_nil]|].
      destruct (cw_write b w) as [[[]|e1] w1] eqn:Ew; [|done].
      exists w1. split; [done|]. by apply cw_write_wrote. }
    rewrite E1 in H. destruct e as [[| |code]|]; simplify_eq.
    + exists b. destruct (He EOF eq_refl) as [Hn Hs].
      split_and!; [done|lia|unfold copyChunk in *; lia|done|]. intros _. right.
      destruct (contents r'); cbn in *. by subst.
    + apply IH in H as (d & Hd & -> & Hle & Hc2 & Hend);
        [|unfold copyChunk in *; lia|destruct W1 as [_ ->]; by rewrite u64_u64].
      exists (b ++ d). split_and!; [by eapply wrote_trans|rewrite length_app; lia|lia| |].
      * rewrite Hc, Hc2. cbn. by rewrite app_assoc.
      * intros Hfu. apply Hend.
        pose proof (Read_rsize (Z.to_nat (Z.min (size - from) copyChunk)) r b r1) as Hr.
        enough (rsize r1 < rsize r)%nat by lia. apply Hr; [|done]. unfold copyChunk. lia.
Qed.

Lemma zero_fill_ok fuel pad w w' :
  zero_fill fuel pad w = (Ok (), w') -> cw_pos w = u64 (cw_pos w) ->
  pad <= Z.of_nat fuel * copyChunk ->
  wrote w (replicate (Z.to_nat pad) nul) w'.
Proof.
  revert pad w. induction fuel as [|fuel IH]; intros pad w H Hw Hf; cbn [zero_fill] in H.
  - destruct (negb _); simplify_eq; rewrite (Z2Nat.nonpos pad) by lia; by apply wrote_nil.
  - destruct (Z.ltb_spec 0 pad) as [Hlt|Hge]; cbn [negb] in H.
    2: { simplify_eq. rewrite (Z2Nat.nonpos pad) by lia. by apply wrote_nil. }
    destruct (cw_write _ w) as [[[]|e] w1] eqn:Ew; [|done].
    apply cw_write_wrote in Ew. apply IH in H;
      [|destruct Ew as [_ ->]; by rewrite u64_u64|unfold copyChunk in *; lia].
    pose proof (wrote_trans _ _ _ _ _ Ew H) as Hwr. rewrite <- replicate_add in Hwr.
    replace (Z.to_nat pad) with
      (Z.to_nat (Z.min pad copyChunk) + Z.to_nat (pad - Z.min pad copyChunk))%nat
      by (unfold copyChunk; lia). done.
Qed.

(** What a successful [copyExactly] wrote. *)
Lemma copyExactly_ok size r w n r' w' :
  0 <= size -> cw_pos w = u64 (cw_pos w) ->
  copyExactly size r w = (Ok n, r', w') ->
  wrote w (take (Z.to_nat size) (contents r).1 ++
           replicate (Z.to_nat (size - zlen (contents r).1)) nul) w' /\
  n = Z.min size (zlen (contents r).1).
Proof.
  intros Hs Hw H. unfold copyExactly in H.
  destruct (copy_source _ size 0 r w) as [[res r1] w1] eqn:Ec.
  destruct res as [from|e]; [|done].
  apply copy_source_ok in Ec as (d & Wd & -> & Hle & Hc & Hend); [|lia|done].
  destruct (zero_fill _ _ w1) as [[[]|e] w2] eqn:Ez; [|done]. simplify_eq.
  apply zero_fill_ok in Ez.
  2: { destruct Wd as [_ ->]. by rewrite u64_u64. }
  2: { rewrite Nat2Z.inj_succ, Z2Nat.id by (apply Z.div_pos; unfold copyChunk; lia).
       pose proof (Z.mul_succ_div_gt (size - (0 + zlen d)) copyChunk). unfold copyChunk in *. lia. }
  rewrite Z.add_0_l in *. rewrite Hc. cbn [fst].
  destruct (Hend ltac:(lia)) as [Heq|Heq].
  - rewrite take_len_app by lia. rewrite length_app.
    split; [|lia].
    replace (Z.to_nat (size - Z.of_nat _)) with (Z.to_nat (size - zlen d)) by lia.
    by eapply wrote_trans.
  - rewrite Heq. cbn [fst]. rewrite app_nil_r. rewrite take_ge by lia.
    split; [by eapply wrote_trans|lia].
Qed.

(** Nothing fails when the source ends in EOF and the consumer reads on. *)
Lemma copy_source_total fuel size from r pos out :
  eof_reader r -> 
  exists n r' w', copy_source fuel size from r (cw_open pos out) = (Ok n, r', w') /\
    cw_cap w' = None /\ cw_ctx w' = None.
Proof.
  revert from r pos out. induction fuel as [|fuel IH]; intros from r pos out He; cbn [copy_source].
  { case_match; eauto 10. }
  case_match; [eauto 10|]. destruct (Read _ r) as [[b e] r1] eqn:HR.
  pose proof (Read_contents _ _ _ _ _ HR) as [Hc Hend].
  unfold eof_reader in He. rewrite Hc in He. cbn in He.
  assert (exists pos1 out1, (if decide (b = []) then (Ok (E := gen_error) (), cw_open pos out)
            else cw_write b (cw_open pos out)) = (Ok (), cw_open pos1 out1)) as (p1 & o1 & ->).
  { case_decide; eauto. }
  destruct e as [e|].
  - destruct (Hend e eq_refl) as [_ Heq]. rewrite Heq in He. subst e. eauto 10.
  - by apply IH.
Qed.

Lemma zero_fill_total fuel pad w :
  cw_cap w = None -> cw_ctx w = None ->
  exists w', zero_fill fuel pad w = (Ok (), w').
Proof.
  revert pad w. induction fuel as [|fuel IH]; intros pad w Hc Hx; cbn [zero_fill].
  { case_match; eauto. }
  case_match; [eauto|]. destruct w as [pos out cap ctx]. cbn in Hc, Hx. subst. cbn. by apply IH.
Qed.

Lemma cw_write_live p w : cw_live w -> exists w', cw_write p w = (Ok (), w') /\ cw_live w'.
Proof. destruct w as [pos out cap ctx]. intros [Hc Hx]. cbn in *. subst. by eexists. Qed.

Lemma zero_fill_live fuel pad w w' u : cw_live w -> zero_fill fuel pad w = (u, w') -> cw_live w'.
Proof.
  revert pad w. induction fuel as [|fuel IH]; intros pad w Hl Hz; cbn [zero_fill] in Hz.
  { by case_match; simplify_eq. }
  case_match; [by simplify_eq|].
  destruct (cw_write_live (replicate (Z.to_nat (Z.min pad copyChunk)) nul) w Hl) as (w1 & E & Hl1).
  rewrite E in Hz. by eapply IH.
Qed.

Lemma copyExactly_live size r w :
  cw_live w -> eof_reader r ->
  exists n r' w', copyExactly size r w = (Ok n, r', w') /\ cw_live w'.
Proof.
  destruct w as [pos out cap ctx]. intros [Hc Hx] He. cbn in Hc, Hx. subst.
  change (mkCW pos out None None) with (cw_open pos out). unfold copyExactly.
  destruct (copy_source_total (S (rsize r)) size 0 r pos out He) as (n & r1 & w1 & -> & H1 & H2).
  destruct (zero_fill_total (S (Z.to_nat ((size - n) / copyChunk))) (size - n) w1 H1 H2) as [w2 Hz].
  rewrite Hz. eexists _, _, _. split; [done|]. eapply zero_fill_live; [|exact Hz]. done.
Qed.

(** The synchronous source meets the contract of the interface. *)
Lemma filePayload_exact path f size mtime w ws w' :
  0 <= size -> cw_pos w = u64 (cw_pos w) ->
  filePayload_Copy path f size mtime w = (Ok ws, w') ->
  wrote w (take (Z.to_nat size) (contents (f_reader f)).1 ++
           replicate (Z.to_nat (size - zlen (contents (f_reader f)).1)) nul) w'.
Proof.
  intros Hs Hw H. unfold filePayload_Copy in H.
  destruct (copyExactly _ _ w) as [[[n|e] r'] w1] eqn:Ec; [|done].
  apply copyExactly_ok in Ec as [Wd _]; [|done|done]. by repeat case_match; simplify_eq.
Qed.

Lemma streamPayload_exact name r size w ws w' :
  0 <= size -> cw_pos w = u64 (cw_pos w) ->
  streamPayload_Copy name r size w = (Ok ws, w') ->
  wrote w (take (Z.to_nat size) (contents r).1 ++
           replicate (Z.to_nat (size - zlen (contents r).1)) nul) w'.
Proof.
  intros Hs Hw H. unfold streamPayload_Copy in H.
  destruct (copyExactly _ _ w) as [[[n|e] r'] w1] eqn:Ec; [|done].
  apply copyExactly_ok in Ec as [Wd _]; [|done|done].
  case_match; [by simplify_eq|]. destruct (ReadFull 1 r') as [[probe ?] ?].
  by case_match; simplify_eq.
Qed.

#[export] Instance syncSource : PayloadSource osfs.
Proof.
  refine {| src_open := sync_open |}.
  intros n fs p fs' w ws w' H. unfold sync_open in H.
  assert (forall (c : bytes) size, 0 <= size ->
    zlen (take (Z.to_nat size) c ++ replicate (Z.to_nat (size - zlen c)) nul) = size) as Hlen
    by (intros; autorewrite with gopbs; lia).
  repeat case_match; simplify_eq; cbn [pl_Size pl_Copy]; (split; [apply i64_range|]);
    intros Hs Hw Hc; eexists; (split; [by apply Hlen|]).
  - by eapply streamPayload_exact.
  - by eapply filePayload_exact.
Defined.

(* ------------------------------------------------------------------ *)
(** ** Lemmas: the synchronous source *)

(** The bytes the archive holds for a node: what its file or stream contains,
    cut or zero padded to the size it is bound to. *)
Definition fit_content (size : Z) (r : reader) : bytes :=
  take (Z.to_nat size) (contents r).1 ++ replicate (Z.to_nat (size - zlen (contents r).1)) nul.

Lemma length_fit_content size r : 0 <= size -> zlen (fit_content size r) = size.
Proof. intros. unfold fit_content. autorewrite with gopbs. lia. Qed.

(** What a payload node reads from: its stream, or the file at its path. *)
Definition node_reader (fs : osfs) (n : node) : option reader :=
  match n_Kind n with
  | KindStream => n_Stream n
  | KindFile => f_reader <$> fs (n_Path n)
  | _ => None
  end.

(** Payloads can be opened and still have their scan-time size. *)
Definition unchanged (fs : osfs) (n : node) : Prop :=
  is_payload (n_Kind n) = true ->
  0 <= st_Size (n_Stat n) < 2 ^ 63 /\
  match n_Kind n with
  | KindFile => exists f mtime, fs (n_Path n) = Some f /\ f_stat f = Some (st_Size (n_Stat n), mtime) /\
                  eof_reader (f_reader f)
  | _ => exists r, n_Stream n = Some r /\ eof_reader r
  end.

Definition sync_cont (fs : osfs) (n : node) (c : bytes) : Prop :=
  exists r, node_reader fs n = Some r /\ 0 <= st_Size (n_Stat n) /\ c = fit_content (st_Size (n_Stat n)) r.

Lemma sync_copies fs :
  source_copies (fun s => s = fs) (unchanged fs) (sync_cont fs).
Proof.
  intros n s p s' -> Hu Hk Ho. specialize (Hu Hk) as [Hs Hu]. cbn in Ho. unfold sync_open in Ho.
  unfold sync_cont, node_reader, int64_of in *.
  destruct (n_Kind n) eqn:Ek; try done.
  - destruct Hu as (f & mtime & Hf & Hst & He). rewrite decide_False, Hf, Hst in Ho by done.
    simplify_eq. rewrite i64_small by (unfold is_i64; lia). cbn [pl_Size pl_Copy].
    split_and!; [done|lia|]. intros w ws w' Hw Hc. apply filePayload_exact in Hc; [|lia|done].
    exists (fit_content (st_Size (n_Stat n)) (f_reader f)).
    split_and!; [apply length_fit_content; lia|done|]. rewrite Hf. eexists. split_and!; [done|lia|done].
  - destruct Hu as (r & Hr & He). rewrite decide_True, Hr in Ho by done.
    simplify_eq. rewrite i64_small by (unfold is_i64; lia). cbn [pl_Size pl_Copy].
    split_and!; [done|lia|]. intros w ws w' Hw Hc. apply streamPayload_exact in Hc; [|lia|done].
    exists (fit_content (st_Size (n_Stat n)) r).
    split_and!; [apply length_fit_content; lia|done|]. eexists. split_and!; [done|lia|done].
Qed.

Lemma sync_live fs : source_live (fun s => s = fs) (unchanged fs).
Proof.
  intros n s -> Hu Hk. specialize (Hu Hk) as [Hs Hu]. cbn. unfold sync_open.
  destruct (n_Kind n) eqn:Ek; try done.
  - destruct Hu as (f & mtime & -> & -> & He). rewrite decide_False by done.
    eexists _, _. split_and!; [done|done|]. cbn [pl_Copy]. intros w Hw. unfold filePayload_Copy.
    destruct (copyExactly_live (int64_of (st_Size (n_Stat n))) (f_reader f) w Hw He) as (k & r' & w' & -> & Hl).
    eauto.
  - destruct Hu as (r & -> & He). rewrite decide_True by done.
    eexists _, _. split_and!; [done|done|]. cbn [pl_Copy]. intros w Hw. unfold streamPayload_Copy.
    destruct (copyExactly_live (int64_of (st_Size (n_Stat n))) r w Hw He) as (k & r' & w' & -> & Hl).
    case_match; [eauto|]. destruct (ReadFull 1 r') as [[probe ?] ?]. eauto.
Qed.

Lemma sync_cont_size fs n c : sync_cont fs n c -> zlen c = st_Size (n_Stat n).
Proof. intros (r & _ & Hs & ->). by apply length_fit_content. Qed.

(* ------------------------------------------------------------------ *)
(** ** Properties *)

(** Whatever way the source segments its reads, a consumer that reads to the
    end receives exactly [size] bytes: the source's first [size] bytes, zero
    padded if it ends early; the count returned is what came from the source. *)
Theorem copyExactly_exact size r pos out :
  0 <= size -> is_u64 pos -> eof_reader r ->
  exists r' w',
    copyExactly size r (cw_open pos out) =
      (Ok (Z.min size (zlen (contents r).1)), r', w') /\
    wrote (cw_open pos out)
      (take (Z.to_nat size) (contents r).1 ++
       replicate (Z.to_nat (size - zlen (contents r).1)) nul) w'.
Proof.
  intros Hs Hp He.
  destruct (copyExactly size r (cw_open pos out)) as [[res r'] w'] eqn:Ec.
  assert (exists n, res = Ok n) as [n ->].
  { unfold copyExactly in Ec.
    destruct (copy_source_total (S (rsize r)) size 0 r pos out He)
      as (n & r1 & w1 & Hc & Hcap & Hctx).
    rewrite Hc in Ec. destruct (zero_fill_total (S (Z.to_nat ((size - n) / copyChunk)))
      (size - n) w1 Hcap Hctx) as [w2 Hz].
    rewrite Hz in Ec. simplify_eq. eauto. }
  apply copyExactly_ok in Ec as [Hw ->]; [|done|cbn; by rewrite u64_small].
  by exists r', w'.
Qed.

(** A stream payload copied from an EOF-terminated source reports a size
    change exactly when the source does not hold the declared number of bytes:
    the actual count when it is shorter, one more than declared when longer. *)
Theorem streamPayload_warnings name r size pos out :
  0 <= size -> is_u64 pos -> eof_reader r ->
  (streamPayload_Copy name r size (cw_open pos out)).1 =
    Ok (if zlen (contents r).1 <? size then [WarnSizeChanged name size (zlen (contents r).1)]
        else if size <? zlen (contents r).1 then [WarnSizeChanged name size (size + 1)]
        else []).
Proof.
  intros Hs Hp He. unfold streamPayload_Copy, copyExactly.
  destruct (copy_source_total (S (rsize r)) size 0 r pos out He)
    as (n & r1 & w1 & Hc & Hcap & Hctx). rewrite Hc.
  destruct (zero_fill_total (S (Z.to_nat ((size - n) / copyChunk)))
    (size - n) w1 Hcap Hctx) as [w2 Hz]. rewrite Hz.
  apply copy_source_ok in Hc as (d & _ & -> & Hle & Hcont & Hend);
    [|lia|cbn; by rewrite u64_small].
  rewrite Z.add_0_l in *. rewrite Hcont. cbn [fst]. rewrite length_app.
  unfold eof_reader in He. rewrite Hcont in He. cbn in He.
  assert (zlen d = size \/ contents r1 = ([], EOF)) as [Hd|Hd] by (apply Hend; lia).
  - rewrite Hd, Z.ltb_irrefl. destruct (Z.ltb_spec (Z.of_nat (length d + length (contents r1).1)) size); [lia|].
    destruct (ReadFull_spec 1 r1) as [r3 H3]. rewrite He in H3. cbv zeta in H3.
    destruct (contents r1) as [c e]. cbn [fst snd] in *. subst e.
    destruct c as [|x c]; cbn -[ReadFull] in H3.
    + rewrite H3. rewrite (proj2 (Z.ltb_ge _ _)) by (cbn; lia). done.
    + destruct H3 as [-> _]. rewrite (proj2 (Z.ltb_lt _ _)) by (cbn; lia). done.
  - rewrite Hd. cbn [fst length]. rewrite Nat.add_0_r.
    destruct (Z.ltb_spec (zlen d) size); [done|].
    destruct (Z.ltb_spec size (zlen d)); [lia|].
    destruct (ReadFull_spec 1 r1) as [r3 H3]. rewrite Hd in H3. cbn -[ReadFull] in H3. by rewrite H3.
Qed.

(* ------------------------------------------------------------------ *)
(** ** Witnesses *)

(** Four bytes in three reads, one of them empty. *)
Definition sample_reader : reader :=
  [(lit "ab", None); ([], None); (lit "cd", Some EOF)].

Lemma copyExactly_exact_witness :
  exists r' w',
    copyExactly 6 sample_reader (cw_open 16 []) = (Ok 4, r', w') /\
    wrote (cw_open 16 []) (lit "abcd" ++ [nul; nul]) w'.
Proof. apply (copyExactly_exact 6 sample_reader 16 []); [lia|done|done]. Defined.

Lemma streamPayload_warnings_witness :
  (streamPayload_Copy (lit "s") sample_reader 3 (cw_open 0 [])).1 =
    Ok [WarnSizeChanged (lit "s") 3 4].
Proof. apply (streamPayload_warnings (lit "s") sample_reader 3 0 []); [lia|done|done]. Defined.
