(* ===== verification/Reuse.v ===== *)
(** * Framed payload streams

    Models reuse/reuse.go: the framing that carries previously uploaded
    chunks through a payload stream, its writer and its demultiplexer. *)

From S2P Require Import Prelude Io.
From Stdlib Require Import Strings.Byte.
Local Open Scope Z_scope.

Definition Magic : bytes := lit "GOPBSRU1".

Definition KindData : byte := x00.
Definition KindInject : byte := x01.

Definition entrySize : Z := 40.

(** A previously uploaded chunk; [Digest] is a [[32]byte]. *)
Record Chunk := mkChunk { c_Digest : bytes; c_Size : Z }.

#[export] Instance chunk_eq_dec : EqDecision Chunk.
Proof. solve_decision. Defined.

(** [io.Writer]. *)
Class IoWriter (W : Type) := io_write : bytes -> W -> result ioerr unit * W.
(** [bytes.Buffer], which never fails. *)
#[export] Instance buffer_writer : IoWriter bytes := fun p out => (Ok (), out ++ p).

Section writer.
Context {W : Type} `{IoWriter W}.

(** [reuse.Writer]. *)
Record Writer := mkWriter { fw_w : W; fw_begun : bool }.

Definition NewWriter (w : W) : Writer := mkWriter w false.

Definition fw_raw (p : bytes) (fw : Writer) : result ioerr unit * Writer :=
  let '(e, w) := io_write p (fw_w fw) in (e, mkWriter w (fw_begun fw)).

Definition begin (fw : Writer) : result ioerr unit * Writer :=
  if fw_begun fw then (Ok (), fw)
  else fw_raw Magic (mkWriter (fw_w fw) true).

(** The frame header; [n] is a [uint64]. *)
Definition fw_frame (kind : byte) (n : Z) (fw : Writer) : result ioerr unit * Writer :=
  match begin fw with
  | (Err e, fw) => (Err e, fw)
  | (Ok _, fw) => fw_raw (kind :: le64 n) fw
  end.

Definition Write (p : bytes) (fw : Writer) : result ioerr unit * Writer :=
  if decide (p = []) then (Ok (), fw) else
  match fw_frame KindData (zlen p) fw with
  | (Err e, fw) => (Err e, fw)
  | (Ok _, fw) => fw_raw p fw
  end.

Definition Inject (chunks : list Chunk) (fw : Writer) : result ioerr unit * Writer :=
  if decide (chunks = []) then (Ok (), fw) else
  match fw_frame KindInject (zlen chunks * entrySize) fw with
  | (Err e, fw) => (Err e, fw)
  | (Ok _, fw) =>
      let buf := foldl (fun buf c => AppendUint64 (buf ++ c_Digest c) (c_Size c)) [] chunks in
      fw_raw buf fw
  end.
End writer.
Arguments Writer W : clear implicits.

(** [reuse.Reader]; its buffer is overwritten by every call. *)
Record Reader := mkReader { fr_r : reader }.

Inductive reuse_error :=
  | ErrNotFramed | ErrMagicRead (e : ioerr) | ErrEOF | ErrHeader (e : ioerr)
  | ErrTooLarge (n : Z) | ErrBody (e : ioerr) | ErrEntries (n : Z) | ErrKind (k : byte).

(** [NewReader]: on failure the bytes already read come back. *)
Definition NewReader (r : reader) : result (reuse_error * bytes * reader) Reader :=
  let '((magic, e), r) := ReadFull (length Magic) r in
  match e with
  | Some (EOF | ErrUnexpectedEOF) => Err (ErrNotFramed, magic, r)
  | Some e => Err (ErrMagicRead e, magic, r)
  | None =>
      if decide (magic = Magic) then Ok (mkReader r) else Err (ErrNotFramed, magic, r)
  end.

Inductive Frame := Data (p : bytes) | Injected (chunks : list Chunk).

(** The loop over a body of whole entries; [fuel] is the entry count. *)
Fixpoint parseEntries (fuel : nat) (buf : bytes) : list Chunk :=
  match fuel with
  | O => []
  | S fuel =>
      mkChunk (take 32 buf) (get64 (drop 32 buf)) :: parseEntries fuel (drop 40 buf)
  end.

Definition fr_Next (fr : Reader) : result reuse_error Frame * Reader :=
  let '((hdr, e), r) := ReadFull 9 (fr_r fr) in
  match e with
  | Some EOF => (Err ErrEOF, mkReader r)
  | Some e => (Err (ErrHeader e), mkReader r)
  | None =>
      let kind := default KindData (head hdr) in
      let n := get64 (drop 1 hdr) in
      if 2 ^ 31 <? n then (Err (ErrTooLarge n), mkReader r) else
      let '((buf, e), r) := ReadFull (Z.to_nat n) r in
      match e with
      | Some e => (Err (ErrBody e), mkReader r)
      | None =>
          if decide (kind = KindData) then (Ok (Data buf), mkReader r)
          else if decide (kind = KindInject) then
            if negb (n mod entrySize =? 0) then (Err (ErrEntries n), mkReader r)
            else (Ok (Injected (parseEntries (Z.to_nat (n / entrySize)) buf)), mkReader r)
          else (Err (ErrKind kind), mkReader r)
      end
  end.

(** All frames up to the first error; [fuel] bounds the number of calls. *)
Fixpoint fr_all (fuel : nat) (fr : Reader) : list Frame * reuse_error :=
  match fuel with
  | O => ([], ErrEOF)
  | S fuel =>
      match fr_Next fr with
      | (Err e, _) => ([], e)
      | (Ok f, fr) => let '(fs, e) := fr_all fuel fr in (f :: fs, e)
      end
  end.

(** The calls a generator makes on the writer. *)
Definition fw_call {W} `{IoWriter W} (f : Frame) (fw : Writer W) : result ioerr unit * Writer W :=
  match f with Data p => Write p fw | Injected cs => Inject cs fw end.

Fixpoint fw_calls {W} `{IoWriter W} (fs : list Frame) (fw : Writer W) :
    result ioerr unit * Writer W :=
  match fs with
  | [] => (Ok (), fw)
  | f :: fs =>
      match fw_call f fw with
      | (Err e, fw) => (Err e, fw)
      | (Ok _, fw) => fw_calls fs fw
      end
  end.

(* ------------------------------------------------------------------ *)
(** ** Lemmas *)

(** What the wire format can carry. *)
Definition chunk_ok (c : Chunk) : Prop := length (c_Digest c) = 32%nat /\ is_u64 (c_Size c).
Definition frame_ok (f : Frame) : Prop :=
  match f with
  | Data p => zlen p <= 2 ^ 31
  | Injected cs => zlen cs * entrySize <= 2 ^ 31 /\ Forall chunk_ok cs
  end.
(** Calls with nothing to say leave no frame. *)
Definition frame_nonempty (f : Frame) : bool :=
  match f with Data p => bool_decide (p <> []) | Injected cs => bool_decide (cs <> []) end.

Definition chunk_bytes (c : Chunk) : bytes := c_Digest c ++ le64 (c_Size c).
Definition frame_bytes (f : Frame) : bytes :=
  match f with
  | Data p => KindData :: le64 (zlen p) ++ p
  | Injected cs => KindInject :: le64 (zlen cs * entrySize) ++ (cs ≫= chunk_bytes)
  end.

Lemma inject_buf (buf : bytes) (cs : list Chunk) :
  foldl (fun buf c => AppendUint64 (buf ++ c_Digest c) (c_Size c)) buf cs
  = buf ++ (cs ≫= chunk_bytes).
Proof.
  revert buf. induction cs as [|c cs IH]; intros buf; [by rewrite app_nil_r|].
  cbn [foldl]. rewrite IH, list_bind_cons. unfold AppendUint64, chunk_bytes.
  by rewrite <- !app_assoc.
Qed.

Lemma length_chunks cs :
  Forall chunk_ok cs -> zlen (cs ≫= chunk_bytes) = zlen cs * entrySize.
Proof.
  unfold entrySize. induction 1 as [|c cs [Hc _] _ IH]; [done|].
  rewrite list_bind_cons, length_app. unfold chunk_bytes at 1.
  autorewrite with gopbs. lia.
Qed.

Lemma parseEntries_chunks cs rest :
  Forall chunk_ok cs -> parseEntries (length cs) ((cs ≫= chunk_bytes) ++ rest) = cs.
Proof.
  induction 1 as [|c cs [Hc Hs] _ IH]; [done|].
  cbn [length parseEntries]. rewrite list_bind_cons. unfold chunk_bytes at 1 3 5.
  rewrite <- !app_assoc. rewrite take_len_app, (drop_len_app (c_Digest c)) by done.
  rewrite get64_le64, u64_small by done.
  rewrite (app_assoc (c_Digest c)), drop_len_app
    by (autorewrite with gopbs; lia).
  f_equal; [by destruct c|exact IH].
Qed.

(** The stream a sequence of calls leaves in a buffer. *)
Definition calls_bytes (fs : list Frame) : bytes := filter frame_nonempty fs ≫= frame_bytes.

Lemma fw_call_buffer f (w : bytes) begun :
  fw_call f (mkWriter w begun) =
    if frame_nonempty f
    then (Ok (), mkWriter (w ++ (if begun then [] else Magic) ++ frame_bytes f) true)
    else (Ok (), mkWriter w begun).
Proof.
  destruct f as [p|cs]; cbn [fw_call frame_nonempty frame_bytes].
  - unfold Write. destruct (decide (p = [])) as [->|Hp]; [done|].
    rewrite bool_decide_eq_true_2 by done.
    destruct begun; cbn; unfold fw_raw, io_write, buffer_writer; cbn;
      by rewrite ?app_nil_r, <- ?app_assoc.
  - unfold Inject. destruct (decide (cs = [])) as [->|Hp]; [done|].
    rewrite bool_decide_eq_true_2 by done. rewrite inject_buf. 
    destruct begun; cbn; unfold fw_raw, io_write, buffer_writer; cbn;
      by rewrite ?app_nil_r, <- ?app_assoc.
Qed.

Lemma fw_calls_buffer fs (w : bytes) begun :
  exists begun', fw_calls fs (mkWriter w begun) =
    (Ok (), mkWriter (w ++ (if begun || bool_decide (filter frame_nonempty fs = []) then [] else Magic) ++
                      calls_bytes fs) begun').
Proof.
  revert w begun. induction fs as [|f fs IH]; intros w begun.
  { exists begun. cbn. unfold calls_bytes. cbn. rewrite orb_true_r. by rewrite !app_nil_r. }
  cbn [fw_calls]. rewrite fw_call_buffer. unfold calls_bytes. rewrite filter_cons.
  destruct (frame_nonempty f) eqn:Ef.
  - destruct (IH (w ++ (if begun then [] else Magic) ++ frame_bytes f) true) as [b' ->].
    exists b'. rewrite decide_True by done. cbn [orb].
    rewrite (bool_decide_eq_false_2 (f :: _ = [])) by done. rewrite orb_false_r. rewrite list_bind_cons.
    rewrite app_nil_l, <- !app_assoc. done.
  - rewrite decide_False by (by intros []).
    destruct (IH w begun) as [b' ->]. by exists b'.
Qed.

(** Next on a stream that starts with a frame. *)
Lemma fr_Next_frame f rest e r :
  frame_ok f -> contents r = (frame_bytes f ++ rest, e) ->
  exists r', fr_Next (mkReader r) = (Ok f, mkReader r') /\ contents r' = (rest, e).
Proof.
  intros Hok Hc. unfold fr_Next. cbn [fr_r].
  remember (match f with Data _ => KindData | Injected _ => KindInject end) as kind eqn:Hkind.
  set (body := match f with Data p => p | Injected cs => cs ≫= chunk_bytes end).
  assert (frame_bytes f = (kind :: le64 (zlen body)) ++ body) as Hf.
  { subst kind. destruct f as [p|cs]; [done|]. destruct Hok as [_ Hok]. subst body. cbn [frame_bytes].
    by rewrite length_chunks. }
  assert (zlen body <= 2 ^ 31) as Hb.
  { destruct f as [p|cs]; [done|]. destruct Hok as [Hl Hok]. subst body. by rewrite length_chunks. }
  rewrite Hf, <- app_assoc in Hc.
  destruct (ReadFull_spec 9 r) as [r1 H1]. rewrite Hc in H1. cbv zeta in H1. cbn [fst snd] in H1.
  rewrite decide_True in H1 by (autorewrite with gopbs; lia).
  rewrite take_len_app, drop_len_app in H1 by (autorewrite with gopbs; lia).
  destruct H1 as [-> Hc1]. cbn [head default from_option]. 
  change (drop 1 (kind :: le64 (zlen body))) with (le64 (zlen body)).
  assert (get64 (le64 (zlen body)) = zlen body) as Hg.
  { rewrite <- (app_nil_r (le64 _)), get64_le64, u64_small; [done|unfold is_u64; lia]. }
  rewrite Hg. rewrite (proj2 (Z.ltb_ge _ _)) by done.
  destruct (ReadFull_spec (Z.to_nat (zlen body)) r1) as [r2 H2].
  rewrite Hc1 in H2. cbv zeta in H2. cbn [fst snd] in H2. rewrite Nat2Z.id in *.
  rewrite decide_True in H2 by (rewrite length_app; lia).
  rewrite take_app_length, drop_app_length in H2. destruct H2 as [-> Hc2].
  exists r2. split; [|done]. subst kind body.
  destruct f as [p|cs]; cbn [frame_ok] in *.
  - by rewrite decide_True.
  - destruct Hok as [_ Hok]. rewrite decide_False, decide_True by done.
    rewrite length_chunks by done. unfold entrySize.
    rewrite Z.mod_mul, Z.div_mul by lia. cbn [Z.eqb negb].
    rewrite Nat2Z.id. rewrite <- (app_nil_r (cs ≫= _)), parseEntries_chunks by done. done.
Qed.

Lemma fr_all_frames fs r e fuel :
  Forall frame_ok fs -> contents r = (fs ≫= frame_bytes, e) -> e = EOF ->
  (length fs < fuel)%nat ->
  fr_all fuel (mkReader r) = (fs, ErrEOF).
Proof.
  intros Hok Hc ->. revert r fuel Hc. induction Hok as [|f fs Hf _ IH]; intros r fuel Hc Hfu;
    destruct fuel as [|fuel]; cbn [length] in Hfu; try lia; cbn [fr_all].
  - assert (fr_Next (mkReader r) = (Err ErrEOF, (fr_Next (mkReader r)).2)) as ->; [|done].
    unfold fr_Next. cbn [fr_r]. destruct (ReadFull_spec 9 r) as [r1 H1]. rewrite Hc in H1.
    cbn -[ReadFull] in H1. by rewrite H1.
  - rewrite list_bind_cons in Hc.
    destruct (fr_Next_frame f _ _ _ Hf Hc) as (r' & -> & Hc').
    rewrite (IH r' fuel Hc') by lia. done.
Qed.

Lemma NewReader_unframed r prefix r' :
  NewReader r = Err (ErrNotFramed, prefix, r') ->
  prefix ++ (contents r').1 = (contents r).1 /\ (contents r').2 = (contents r).2.
Proof.
  unfold NewReader. intros H.
  destruct (ReadFull_spec (length Magic) r) as [r1 H1]. cbv zeta in H1.
  case_decide as Hl.
  - destruct H1 as [H1 Hc]. rewrite H1 in H. case_decide; simplify_eq.
    rewrite Hc. cbn [fst snd]. by rewrite take_drop.
  - pose proof (ReadFull_short (length Magic) r ltac:(lia)) as Hs. rewrite H1 in H, Hs. cbn [snd] in Hs.
    assert (prefix = (contents r).1 /\ r' = r1) as [-> ->] by (repeat case_match; simplify_eq; done).
    rewrite Hs. by rewrite app_nil_r.
Qed.

(* ------------------------------------------------------------------ *)
(** ** Properties *)

(** C25: Demultiplexing a framed stream gives back the writer's calls, in order,
    and ends in EOF: for any sequence of Write and Inject calls (empty ones
    leave no trace) with at least one frame, and however the stream is
    segmented when it is read. *)
Theorem framed_roundtrip (calls : list Frame) (r : reader) (fuel : nat) :
  Forall frame_ok calls -> filter frame_nonempty calls <> [] ->
  (length calls < fuel)%nat ->
  contents r = (fw_w (fw_calls calls (NewWriter [])).2, EOF) ->
  exists fr, NewReader r = Ok fr /\
    fr_all fuel fr = (filter frame_nonempty calls, ErrEOF).
Proof.
  intros Hok Hne Hfu Hc. unfold NewWriter in Hc.
  destruct (fw_calls_buffer calls [] false) as [b' E]. rewrite E in Hc. cbn [snd fw_w] in Hc.
  rewrite bool_decide_eq_false_2 in Hc by done. cbn [orb] in Hc. rewrite app_nil_l in Hc.
  unfold NewReader. destruct (ReadFull_spec (length Magic) r) as [r1 H1].
  rewrite Hc in H1. cbv zeta in H1. cbn [fst snd] in H1.
  rewrite decide_True in H1 by (rewrite length_app; lia).
  rewrite take_app_length, drop_app_length in H1. destruct H1 as [-> Hc1].
  rewrite decide_True by done. eexists. split; [done|].
  apply (fr_all_frames _ _ EOF); [|done|done|].
  - rewrite Forall_forall in *. intros f Hf. apply list_elem_of_filter in Hf as [_ Hf]. auto.
  - pose proof (length_filter frame_nonempty calls). lia.
Qed.

(** A stream that does not start with the magic is handed back whole: the
    prefix already read followed by what is left of the reader is the original
    stream and ends as it did, so that plain chunking of prefix and rest loses
    nothing. *)
Theorem unframed_fallback (r : reader) (prefix : bytes) (r' : reader) :
  NewReader r = Err (ErrNotFramed, prefix, r') ->
  prefix ++ (contents r').1 = (contents r).1 /\ (contents r').2 = (contents r).2.
Proof. apply NewReader_unframed. Qed.

(* ------------------------------------------------------------------ *)
(** ** Witnesses *)

Definition sample_calls : list Frame :=
  [Data (lit "ab"); Data []; Injected [mkChunk (replicate 32 x07) 5]].

Lemma framed_roundtrip_witness :
  exists fr,
    NewReader [((fw_w (fw_calls sample_calls (NewWriter [])).2), None)] = Ok fr /\
    fr_all 9 fr = ([Data (lit "ab"); Injected [mkChunk (replicate 32 x07) 5]], ErrEOF).
Proof.
  apply (framed_roundtrip sample_calls _ 9).
  - unfold sample_calls. apply Forall_cons_2; [cbn; lia|]. apply Forall_cons_2; [cbn; lia|].
    apply Forall_cons_2; [|constructor]. split; [cbn; unfold entrySize; lia|].
    apply Forall_cons_2; [|constructor]. split; [done|]. unfold is_u64. cbn. lia.
  - vm_compute. discriminate.
  - cbn. lia.
  - vm_compute. reflexivity.
Defined.

Lemma unframed_fallback_witness :
  lit "plain da" ++ lit "ta" = lit "plain data" /\ EOF = EOF.
Proof.
  apply (unframed_fallback [(lit "plain data", Some EOF)] (lit "plain da") [(lit "ta", Some EOF)]).
  vm_compute. reflexivity.
Defined.
