(* ===== verification/Refs.v ===== *)
(** * Payload references

    Models archive/refs.go and archive/emitv2.go: the ledger through which
    the payload side publishes bound sizes, the reader that turns plan
    entries into PAYLOAD_REF offsets, and the payload stream emitter. *)

From S2P Require Import Prelude Format Io Tree Payload Reuse.
From Stdlib Require Import Strings.Byte.
Local Open Scope Z_scope.

(* ------------------------------------------------------------------ *)
(** ** The plan (archive/previous.go) *)

(** [payloadPlan]. *)
Record payloadPlan := mkPlan {
  pp_node : node; pp_reuse : bool; pp_rel : Z; pp_size : Z;
  pp_inject : list Chunk; pp_runEnd : bool; pp_runTotal : Z; pp_readSeq : nat }.

(* ------------------------------------------------------------------ *)
(** ** The ledger *)

Record refLedger := mkLedger { l_sizes : list Z; l_err : option gen_error; l_done : bool }.

Definition newRefLedger : refLedger := mkLedger [] None false.

(** [publish(size, err)]. *)
Definition l_publish (size : Z) (err : option gen_error) (l : refLedger) : refLedger :=
  match l_err l, err with
  | Some _, _ => l
  | None, Some e => mkLedger (l_sizes l) (Some e) (l_done l)
  | None, None => mkLedger (l_sizes l ++ [size]) None (l_done l)
  end.

Definition l_fail (err : gen_error) (l : refLedger) : refLedger :=
  match l_err l with
  | None => mkLedger (l_sizes l) (Some err) (l_done l)
  | Some _ => l
  end.

(** The context ends. *)
Definition l_cancel (l : refLedger) : refLedger := mkLedger (l_sizes l) (l_err l) true.

(** One pass of the loop of [get]: [None] waits on the condition variable. *)
Definition l_get (i : nat) (l : refLedger) : option (result gen_error Z) :=
  match l_sizes l !! i with
  | Some s => Some (Ok s)
  | None =>
      match l_err l with
      | Some e => Some (Err e)
      | None => if l_done l then Some (Err ErrCanceled) else None
      end
  end.

(** What the other goroutines do to the ledger. *)
Inductive ledger_step : refLedger -> refLedger -> Prop :=
  | step_publish size err l : ledger_step l (l_publish size err l)
  | step_fail err l : ledger_step l (l_fail err l)
  | step_cancel l : ledger_step l (l_cancel l).

(* ------------------------------------------------------------------ *)
(** ** The reference reader *)

Record refReader := mkRefReader { rr_plan : list payloadPlan; rr_seq : nat; rr_offset : Z }.

Definition newRefReader (plan : list payloadPlan) : refReader := mkRefReader plan 0 MarkerSize.

(** [refReader.next]; [get] is what the ledger answers. *)
Definition rr_next (get : nat -> result gen_error Z) (r : refReader) :
    result gen_error (Z * Z) * refReader :=
  match rr_plan r !! rr_seq r with
  | None => (Err ErrMoreFilesThanPlanned, r)
  | Some p =>
      let r := mkRefReader (rr_plan r) (S (rr_seq r)) (rr_offset r) in
      if pp_reuse p then
        let offset := u64 (rr_offset r + pp_rel p) in
        let r := if pp_runEnd p
                 then mkRefReader (rr_plan r) (rr_seq r) (u64 (rr_offset r + pp_runTotal p))
                 else r in
        (Ok (offset, pp_size p), r)
      else
        match get (pp_readSeq p) with
        | Err e => (Err e, r)
        | Ok s =>
            (Ok (rr_offset r, u64 s),
             mkRefReader (rr_plan r) (rr_seq r) (u64 (rr_offset r + u64 (HeaderSize + u64 s))))
        end
  end.

Fixpoint rr_nexts (n : nat) (get : nat -> result gen_error Z) (r : refReader) :
    result gen_error (list (Z * Z)) * refReader :=
  match n with
  | O => (Ok [], r)
  | S n =>
      match rr_next get r with
      | (Err e, r) => (Err e, r)
      | (Ok x, r) =>
          match rr_nexts n get r with
          | (Err e, r) => (Err e, r)
          | (Ok xs, r) => (Ok (x :: xs), r)
          end
      end
  end.

(* ------------------------------------------------------------------ *)
(** ** The payload emitter *)

Section emitv2.
Context {S : Type} `{PayloadSource S}.

(** [payloadEmitter]: [pe_injected] lists what was injected and where in the
    byte stream, [pe_publish]/[pe_framed] are [publish] and [inject != nil]. *)
Record payloadEmitter := mkPE {
  pe_w : countWriter; pe_src : S; pe_warns : list Warning; pe_ledger : refLedger;
  pe_publish : bool; pe_framed : bool; pe_injected : list (nat * list Chunk) }.

Definition pe_set_w (w : countWriter) (pe : payloadEmitter) : payloadEmitter :=
  mkPE w (pe_src pe) (pe_warns pe) (pe_ledger pe) (pe_publish pe) (pe_framed pe) (pe_injected pe).

Definition pe_write (p : bytes) (pe : payloadEmitter) : result gen_error unit * payloadEmitter :=
  let '(e, w) := cw_write p (pe_w pe) in (e, pe_set_w w pe).

(** [payloadEmitter.payload]. *)
Definition pe_payload (p : payloadPlan) (pe : payloadEmitter) : result gen_error unit * payloadEmitter :=
  let '(res, src) := src_open (pp_node p) (pe_src pe) in
  let ledger :=
    if pe_publish pe then
      match res with
      | Err e => l_publish 0 (Some e) (pe_ledger pe)
      | Ok pl => l_publish (pl_Size pl) None (pe_ledger pe)
      end
    else pe_ledger pe in
  let pe := mkPE (pe_w pe) src (pe_warns pe) ledger (pe_publish pe) (pe_framed pe) (pe_injected pe) in
  match res with
  | Err e => (Err e, pe)
  | Ok pl =>
      match pe_write (AppendPayloadHeader [] (u64 (pl_Size pl))) pe with
      | (Err e, pe) => (Err e, pe)
      | (Ok _, pe) =>
          let '(res, w) := pl_Copy pl (pe_w pe) in
          let pe := pe_set_w w pe in
          match res with
          | Err e => (Err e, pe)
          | Ok ws =>
              (Ok (), mkPE (pe_w pe) (pe_src pe) (pe_warns pe ++ ws) (pe_ledger pe)
                        (pe_publish pe) (pe_framed pe) (pe_injected pe))
          end
      end
  end.

(** [inject.Inject(p.inject)] on the framing writer below [pe_w]: an empty list
    leaves no frame, a nil writer panics, a consumer that has closed the pipe refuses the frame. *)
Definition pe_inject (chunks : list Chunk) (pe : payloadEmitter) :
    result gen_error unit * payloadEmitter :=
  if decide (chunks = []) then (Ok (), pe)
  else if negb (pe_framed pe) then (Err ErrPanic, pe)
  else if decide (cw_cap (pe_w pe) = Some O) then (Err ErrWrite, pe)
  else
    (Ok (), mkPE (pe_w pe) (pe_src pe) (pe_warns pe) (pe_ledger pe) (pe_publish pe) (pe_framed pe)
              (pe_injected pe ++ [(length (cw_out (pe_w pe)), chunks)])).

Fixpoint pe_entries (plan : list payloadPlan) (pe : payloadEmitter) :
    result gen_error unit * payloadEmitter :=
  match plan with
  | [] => (Ok (), pe)
  | p :: plan =>
      if pp_reuse p then
        match pe_inject (pp_inject p) pe with
        | (Err e, pe) => (Err e, pe)
        | (Ok _, pe) => pe_entries plan pe
        end
      else
        match pe_payload p pe with
        | (Err e, pe) => (Err e, pe)
        | (Ok _, pe) => pe_entries plan pe
        end
  end.

(** [payloadEmitter.run]. *)
Definition pe_run (plan : list payloadPlan) (pe : payloadEmitter) :
    result gen_error unit * payloadEmitter :=
  match pe_write (AppendPayloadStartMarker []) pe with
  | (Err e, pe) => (Err e, pe)
  | (Ok _, pe) =>
      match pe_entries plan pe with
      | (Err e, pe) => (Err e, pe)
      | (Ok _, pe) => pe_write (AppendPayloadTailMarker []) pe
      end
  end.
End emitv2.
Arguments payloadEmitter S : clear implicits.

(* ------------------------------------------------------------------ *)
(** ** Specification: the payload archive the references address *)

(** The bytes an uploader indexes are the data bytes with every injected span
    in its place; [chunk_span] is the length of such a span. *)
Definition chunk_span (cs : list Chunk) : Z := foldr (fun c n => c_Size c + n) 0 cs.
Definition injected_total (inj : list (nat * list Chunk)) : Z :=
  foldr (fun x n => chunk_span x.2 + n) 0 inj.

(** A plan whose runs inject exactly the span their last entry accounts for:
    [open] is the span injected by the run under way. *)
Fixpoint plan_wf (open : Z) (plan : list payloadPlan) : Prop :=
  match plan with
  | [] => open = 0
  | p :: plan =>
      if pp_reuse p then
        (pp_inject p = [] \/ open = 0) /\
        let open := open + chunk_span (pp_inject p) in
        if pp_runEnd p then open = pp_runTotal p /\ plan_wf 0 plan else plan_wf open plan
      else open = 0 /\ plan_wf 0 plan
  end.

(** The reads of a plan are numbered in order from [k]. *)
Fixpoint plan_numbered (k : nat) (plan : list payloadPlan) : Prop :=
  match plan with
  | [] => True
  | p :: plan =>
      if pp_reuse p then plan_numbered k plan else pp_readSeq p = k /\ plan_numbered (S k) plan
  end.

(** Every entry of a plan with the chunks injected for the run it is in. *)
Fixpoint with_runs (cur : list Chunk) (plan : list payloadPlan) : list (payloadPlan * list Chunk) :=
  match plan with
  | [] => []
  | p :: plan =>
      if pp_reuse p then
        let cur := if decide (pp_inject p = []) then cur else pp_inject p in
        (p, cur) :: with_runs (if pp_runEnd p then [] else cur) plan
      else (p, []) :: with_runs [] plan
  end.

(** The injected span before byte [n] of the data stream. *)
Definition injected_before (n : nat) (inj : list (nat * list Chunk)) : Z :=
  injected_total (filter (fun x => x.1 <= n)%nat inj).

(* ------------------------------------------------------------------ *)
(** ** Lemmas *)

Lemma injected_total_app a b : injected_total (a ++ b) = injected_total a + injected_total b.
Proof.
  unfold injected_total. induction a as [|x a IH]; [done|]. cbn [foldr app]. rewrite IH. lia.
Qed.

Lemma injected_before_all n inj :
  Forall (fun x => x.1 <= n)%nat inj -> injected_before n inj = injected_total inj.
Proof.
  intros H. unfold injected_before. f_equal.
  induction H as [|x inj Hx _ IH]; [done|]. rewrite filter_cons, decide_True by done. by rewrite IH.
Qed.

Lemma rr_nexts_app n m get r r1 r2 xs ys :
  rr_nexts n get r = (Ok xs, r1) -> rr_nexts m get r1 = (Ok ys, r2) ->
  rr_nexts (n + m) get r = (Ok (xs ++ ys), r2).
Proof.
  revert r xs. induction n as [|n IH]; intros r xs H1 H2; cbn [rr_nexts Nat.add] in *.
  - by simplify_eq.
  - destruct (rr_next get r) as [[x|e] r']; [|done].
    destruct (rr_nexts n get r') as [[xs'|e] r''] eqn:E; [|done]. simplify_eq.
    by rewrite (IH _ _ E H2).
Qed.

Section emitter_lemmas.
Context {S : Type} `{PayloadSource S} (I : S -> Prop) (good : node -> Prop) (cont : node -> bytes -> Prop).
Context (Hsrc : source_copies I good cont).

(** The observable effect of a payload run: what went out, what was injected,
    what was published. *)
Record pe_effect (pe pe' : payloadEmitter S) (p : bytes)
    (inj : list (nat * list Chunk)) (sizes : list Z) : Prop := {
  eff_out : wrote (pe_w pe) p (pe_w pe');
  eff_inj : pe_injected pe' = pe_injected pe ++ inj;
  eff_sizes : l_sizes (pe_ledger pe') = l_sizes (pe_ledger pe) ++ sizes;
  eff_err : l_err (pe_ledger pe') = None;
  eff_publish : pe_publish pe' = true;
  eff_framed : pe_framed pe' = pe_framed pe;
  eff_src : I (pe_src pe') }.

(** An emitter in a healthy state that publishes binds itself. *)
Definition pe_ready (pe : payloadEmitter S) : Prop :=
  cw_pos (pe_w pe) = u64 (cw_pos (pe_w pe)) /\ l_err (pe_ledger pe) = None /\
  pe_publish pe = true /\ I (pe_src pe).

Lemma pe_effect_ready pe pe' p inj sizes : pe_effect pe pe' p inj sizes -> pe_ready pe'.
Proof. intros [[_ Hp] _ _ He Hb _ Hs]. split_and!; [|done|done|done]. rewrite Hp. by rewrite u64_u64. Qed.

Lemma pe_effect_trans pe pe1 pe2 p1 p2 i1 i2 s1 s2 :
  pe_effect pe pe1 p1 i1 s1 -> pe_effect pe1 pe2 p2 i2 s2 ->
  pe_effect pe pe2 (p1 ++ p2) (i1 ++ i2) (s1 ++ s2).
Proof.
  intros [] []. split; [by eapply wrote_trans|..]; try congruence.
  - rewrite app_assoc. congruence.
  - rewrite app_assoc. congruence.
Qed.

Lemma pe_write_effect p pe pe' :
  pe_ready pe -> pe_write p pe = (Ok (), pe') -> pe_effect pe pe' p [] [].
Proof.
  intros (_ & He & Hb & Hs) Hw. unfold pe_write in Hw.
  destruct (cw_write p (pe_w pe)) as [e w] eqn:Ew. simplify_eq.
  apply cw_write_wrote in Ew. split; cbn; by rewrite ?app_nil_r.
Qed.

Lemma pe_payload_effect p pe pe' :
  pe_ready pe -> good (pp_node p) -> is_payload (n_Kind (pp_node p)) = true ->
  pe_payload p pe = (Ok (), pe') ->
  exists size content, is_u64 size /\ zlen content = size /\ cont (pp_node p) content /\
    pe_effect pe pe' (AppendPayloadHeader [] size ++ content) [] [size].
Proof.
  intros (Hpos & He & Hb & Hs) Hgood Hkind Hp. unfold pe_payload in Hp.
  destruct (src_open (pp_node p) (pe_src pe)) as [[pl|e] src] eqn:Eo; [|done].
  rewrite Hb in Hp. destruct (Hsrc _ _ _ _ Hs Hgood Hkind Eo) as (Hs' & Hsz & Hex).
  destruct (src_exact _ _ _ _ (pe_w pe) [] (pe_w pe) Eo) as [Hi _].
  assert (is_u64 (pl_Size pl)) as Hu by (unfold is_i64, is_u64 in *; lia).
  rewrite u64_small in Hp by done.
  destruct (pe_write _ _) as [[[]|e] pe1] eqn:Ew; [|done].
  unfold l_publish in Ew. rewrite He in Ew.
  apply pe_write_effect in Ew; [|done].
  destruct (pl_Copy pl (pe_w pe1)) as [[ws|e] w2] eqn:Ec; [|done].
  destruct (Hex (pe_w pe1) ws w2) as (content & Hc & Hwr & Hcn); [by apply pe_effect_ready in Ew as (? & _)|done|].
  simplify_eq. exists (pl_Size pl), content. split; [done|]. split; [done|]. split; [done|].
  destruct Ew as [W1 I1 S1 E1 B1 F1]. cbn in *.
  split; cbn; rewrite ?app_nil_r; try done; [by eapply wrote_trans|by rewrite I1, app_nil_r|].
  by rewrite S1, app_nil_r.
Qed.

Lemma pe_inject_effect cs pe pe' :
  pe_ready pe -> pe_inject cs pe = (Ok (), pe') ->
  pe_effect pe pe' [] (if decide (cs = []) then [] else [(length (cw_out (pe_w pe)), cs)]) [].
Proof.
  intros (Hpos & He & Hb & Hs) Hp. unfold pe_inject in Hp.
  repeat case_match; simplify_eq; split; cbn; rewrite ?app_nil_r; try done;
    by apply wrote_nil.
Qed.
End emitter_lemmas.

(* ------------------------------------------------------------------ *)
(** ** Properties *)

(** An answer of the ledger is final: whatever the other goroutines publish,
    fail or cancel afterwards, a size once returned for payload [i] and the
    error of a poisoned ledger are returned again (cancellation itself only
    tells the caller to stop waiting). *)
Theorem ledger_answers_final l l' i r :
  rtc ledger_step l l' -> l_get i l = Some r -> r <> Err ErrCanceled -> l_get i l' = Some r.
Proof.
  intros Hs Hg Hne. induction Hs as [l|l l1 l' Hst _ IH]; [done|]. apply IH. clear IH l'.
  assert (forall s, l_sizes l !! i = Some s -> forall k, (l_sizes l ++ k) !! i = Some s) as Happ
    by (intros s Hs k; by apply lookup_app_l_Some).
  unfold l_get in *.
  destruct Hst as [size err l|err l|l]; unfold l_publish, l_fail, l_cancel;
    destruct (l_sizes l !! i) as [s|] eqn:Es; destruct (l_err l) eqn:Ee; try destruct err; cbn;
    rewrite ?Es, ?Ee; rewrite ?(Happ _ eq_refl) by done; try done;
    destruct (l_done l); simplify_eq; done.
Qed.

Lemma length_payload_header n : length (AppendPayloadHeader [] n) = 16%nat.
Proof. unfold AppendPayloadHeader, appendHeader, AppendUint64. cbn [app]. by autorewrite with gopbs. Qed.

Section resolve.
Context {S : Type} `{PayloadSource S} (I : S -> Prop) (good : node -> Prop) (cont : node -> bytes -> Prop).
Context (Hsrc : source_copies I good cont).

Definition plan_good (p : payloadPlan) : Prop :=
  good (pp_node p) /\ is_payload (n_Kind (pp_node p)) = true.

(** What a reference means for the stream that was uploaded: a reused entry
    points into the span [cur] injected for its run, a read one at its own
    record, which no span splits. *)
Definition ref_resolves (out : bytes) (inj : list (nat * list Chunk))
    (x : payloadPlan * list Chunk) (ref : Z * Z) : Prop :=
  let '(p, cur) := x in
  if pp_reuse p then
    cur <> [] ->
    exists i n, inj !! i = Some (n, cur) /\
      ref = (u64 (Z.of_nat n + injected_total (take i inj) + pp_rel p), pp_size p)
  else
    exists pre content post,
      out = pre ++ AppendPayloadHeader [] ref.2 ++ content ++ post /\
      zlen content = ref.2 /\ cont (pp_node p) content /\
      ref.1 = u64 (zlen pre + injected_before (length pre) inj) /\
      Forall (fun x => x.1 <= length pre \/ length pre + 16 + length content <= x.1)%nat inj.

(** Injections in stream order between two byte positions. *)
Fixpoint ordered (lo : nat) (inj : list (nat * list Chunk)) (hi : nat) : Prop :=
  match inj with [] => (lo <= hi)%nat | x :: inj => (lo <= x.1)%nat /\ ordered x.1 inj hi end.

Lemma ordered_le lo inj hi : ordered lo inj hi -> (lo <= hi)%nat.
Proof. revert lo. induction inj as [|x inj IH]; intros lo; cbn; [done|]. intros [H1 H2%IH]. lia. Qed.
Lemma ordered_app lo a mid b hi : ordered lo a mid -> ordered mid b hi -> ordered lo (a ++ b) hi.
Proof.
  revert lo. induction a as [|x a IH]; intros lo Ha Hb; cbn [app ordered] in *.
  - destruct b as [|y b]; cbn in *; [lia|]. intuition lia.
  - destruct Ha. auto.
Qed.
Lemma ordered_bounds lo inj hi : ordered lo inj hi -> Forall (fun x => lo <= x.1 <= hi)%nat inj.
Proof.
  revert lo. induction inj as [|x inj IH]; intros lo Ho; constructor; destruct Ho as [H1 H2].
  - apply ordered_le in H2. lia.
  - eapply Forall_impl; [by apply IH|]. cbn. lia.
Qed.
Lemma ordered_widen lo lo' inj hi hi' : ordered lo inj hi -> (lo' <= lo)%nat -> (hi <= hi')%nat -> ordered lo' inj hi'.
Proof.
  revert lo lo'. induction inj as [|x inj IH]; intros lo lo' Ho Hl Hh; cbn in *; [lia|].
  destruct Ho as [H1 H2]. split; [lia|]. by eapply IH.
Qed.

Lemma pe_entries_effect plan : forall (pe pe' : payloadEmitter S),
  pe_ready I pe -> Forall plan_good plan -> pe_entries plan pe = (Ok (), pe') ->
  exists p inj sizes, pe_effect I pe pe' p inj sizes /\
    ordered (length (cw_out (pe_w pe))) inj (length (cw_out (pe_w pe'))) /\
    Forall (fun x => exists q, q ∈ plan /\ pp_reuse q = true /\ x.2 = pp_inject q) inj.
Proof.
  induction plan as [|x plan IH]; intros pe pe' Hr Hg Hp; cbn [pe_entries] in Hp;
      [|apply Forall_cons in Hg as [Hg0 Hg]].
  - simplify_eq. exists [], [], []. split; [|split; [cbn; lia|constructor]]. destruct Hr as (Hpos & He & Hb & Hs).
    split; rewrite ?app_nil_r; try done. by apply wrote_nil.
  - assert (exists pe1 p inj sizes, pe_effect I pe pe1 p inj sizes /\
      ordered (length (cw_out (pe_w pe))) inj (length (cw_out (pe_w pe1))) /\
      Forall (fun y => pp_reuse x = true /\ y.2 = pp_inject x) inj /\
      pe_entries plan pe1 = (Ok (), pe')) as (pe1 & p & inj & sizes & He & Hf & Hx & Hp').
    { destruct (pp_reuse x).
      - destruct (pe_inject _ pe) as [[[]|e] pe1] eqn:Ei; [|done].
        apply (pe_inject_effect I) in Ei; [|done]. eexists pe1, _, _, _. split; [done|].
        destruct Ei as [[Eo _] _ _ _ _ _ _].
        rewrite Eo, app_nil_r. split; [case_decide; cbn; lia|]. split; [|done].
        case_decide; by repeat constructor.
      - destruct (pe_payload x pe) as [[[]|e] pe1] eqn:Ei; [|done].
        eapply pe_payload_effect in Ei as (size & content & _ & _ & _ & Ei);
          [|exact Hsrc|done|apply Hg0|apply Hg0].
        eexists pe1, _, _, _. split; [done|]. destruct Ei as [[Eo _] _ _ _ _ _ _].
        rewrite Eo, length_app. split; [cbn; lia|]. split; [constructor|done]. }
    destruct (IH pe1 pe') as (p2 & inj2 & sizes2 & He2 & Hf2 & Hx2);
      [by eapply pe_effect_ready|done|done|].
    eexists _, _, _. split; [by eapply pe_effect_trans|]. split; [by eapply ordered_app|].
    apply Forall_app. split; (eapply Forall_impl; [eassumption|]); cbn.
    + intros y [H1 H2]. exists x. split; [left|done].
    + intros y (q & Hq & H'). exists q. split; [by right|done].
Qed.

Lemma injected_before_split n inj1 inj2 :
  Forall (fun x => x.1 <= n)%nat inj1 -> Forall (fun x => n < x.1)%nat inj2 ->
  injected_before n (inj1 ++ inj2) = injected_total inj1.
Proof.
  intros H1 H2. unfold injected_before. rewrite filter_app, injected_total_app.
  fold (injected_before n inj1). rewrite injected_before_all by done.
  assert (filter (fun x : nat * list Chunk => x.1 <= n)%nat inj2 = []) as ->; [|cbn; lia].
  induction H2 as [|x l Hx _ IH]; [done|]. rewrite filter_cons, decide_False; [done|lia].
Qed.

Lemma pe_entries_refs plan :
  forall (pe pe' : payloadEmitter S) open cur (r : refReader) get,
  pe_ready I pe -> Forall plan_good plan ->
  pe_entries plan pe = (Ok (), pe') ->
  plan_wf open plan -> plan_numbered (length (l_sizes (pe_ledger pe))) plan ->
  Forall (fun x => x.1 <= length (cw_out (pe_w pe)))%nat (pe_injected pe) ->
  (forall i s, l_sizes (pe_ledger pe') !! i = Some s -> get i = Ok s) ->
  (exists done, rr_plan r = done ++ plan /\ rr_seq r = length done) ->
  (cur <> [] -> open = chunk_span cur /\
    exists inj0, pe_injected pe = inj0 ++ [(length (cw_out (pe_w pe)), cur)]) ->
  rr_offset r = u64 (zlen (cw_out (pe_w pe)) + injected_total (pe_injected pe) - open) ->
  exists refs r',
    rr_nexts (length plan) get r = (Ok refs, r') /\
    Forall2 (fun pl ref => forall later injl,
      Forall (fun x => length (cw_out (pe_w pe')) <= x.1)%nat injl ->
      ref_resolves (cw_out (pe_w pe') ++ later) (pe_injected pe' ++ injl) pl ref) (with_runs cur plan) refs.
Proof.
  induction plan as [|x plan IH]; intros pe pe' open cur r get Hr Hg Hp Hwf Hnum Hinj Hget Hplan Hcur Hoff.
  { exists [], r. split; [done|constructor]. }
  destruct Hplan as (done & Hpl & Hseq).
  cbn [length rr_nexts pe_entries plan_wf plan_numbered with_runs] in *.
  apply Forall_cons in Hg as [Hg0 Hg].
  unfold rr_next. rewrite Hpl, Hseq, list_lookup_middle by reflexivity.
  assert (exists d, done ++ x :: plan = d ++ plan /\ Datatypes.S (length done) = length d) as Hd.
  { exists (done ++ [x]). rewrite <- app_assoc, length_app. split; [reflexivity|cbn; lia]. }
  destruct (pp_reuse x) eqn:Ereuse.
  - destruct (pe_inject _ pe) as [[[]|e] pe1] eqn:Ei; [|discriminate Hp].
    apply (pe_inject_effect I) in Ei; [|assumption]. pose proof (pe_effect_ready _ _ _ _ _ _ Ei) as Hr1.
    destruct (pe_entries_effect _ _ _ Hr1 Hg Hp) as (p2 & inj2 & sizes2 & E2 & _).
    destruct Hwf as [Hrun Hwf]. cbv zeta in Hwf.
    set (open' := if pp_runEnd x then 0 else open + chunk_span (pp_inject x)).
    set (r1 := if pp_runEnd x
          then mkRefReader (done ++ x :: plan) (Datatypes.S (length done)) (u64 (rr_offset r + pp_runTotal x))
          else mkRefReader (done ++ x :: plan) (Datatypes.S (length done)) (rr_offset r)).
    assert (zlen (cw_out (pe_w pe1)) = zlen (cw_out (pe_w pe))) as Ho
      by (destruct Ei as [[-> _] _ _ _ _ _ _]; by rewrite app_nil_r).
    assert (injected_total (pe_injected pe1) =
            injected_total (pe_injected pe) + chunk_span (pp_inject x)) as Ht.
    { destruct Ei as [_ -> _ _ _ _ _]. rewrite injected_total_app.
      case_decide as Hn; [rewrite Hn; unfold injected_total; cbn [chunk_span foldr]; lia|].
      unfold injected_total. cbn [foldr snd]. lia. }
    set (cur1 := if decide (pp_inject x = []) then cur else pp_inject x).
    assert (cur1 <> [] -> open + chunk_span (pp_inject x) = chunk_span cur1 /\
      exists inj0, pe_injected pe1 = inj0 ++ [(length (cw_out (pe_w pe1)), cur1)]) as Hcur1.
    { assert (length (cw_out (pe_w pe1)) = length (cw_out (pe_w pe))) as -> by lia.
      destruct Ei as [_ -> _ _ _ _ _]. unfold cur1. intros Hne. destruct (decide (pp_inject x = [])) as [Hn|Hn].
      - rewrite Hn, app_nil_r. destruct (Hcur Hne) as [Ho' Hi']. split; [cbn [chunk_span foldr]; lia|exact Hi'].
      - destruct Hrun as [Hrun| ->]; [contradiction|]. split; [lia|eauto]. }
    destruct (IH pe1 pe' open' (if pp_runEnd x then [] else cur1) r1 get) as (refs & r' & Hn & Hall); try assumption.
    + subst open'. destruct (pp_runEnd x); [apply Hwf|assumption].
    + destruct Ei as [_ _ Hs _ _ _ _]. by rewrite Hs, app_nil_r.
    + destruct Ei as [_ -> _ _ _ _ _]. apply Forall_app. split.
      * eapply Forall_impl; [exact Hinj|]. cbn. lia.
      * case_decide; repeat constructor. cbn. lia.
    + subst r1. destruct (pp_runEnd x); exact Hd.
    + subst open'. destruct (pp_runEnd x); [contradiction|exact Hcur1].
    + subst r1 open'. rewrite Ho, Ht. destruct (pp_runEnd x); cbn [rr_offset].
      * destruct Hwf as [Hwf _]. rewrite Hoff, u64_add_l. f_equal. lia.
      * rewrite Hoff. f_equal. lia.
    + cbn [rr_plan rr_seq rr_offset]. fold r1. rewrite Hn. eexists _, _. split; [reflexivity|].
      constructor; [|exact Hall]. intros later injl Hl. unfold ref_resolves. rewrite Ereuse.
      intros Hne. destruct (Hcur1 Hne) as [Hop (inj0 & Hi0)].
      exists (length inj0), (length (cw_out (pe_w pe1))). destruct E2 as [_ E2 _ _ _ _ _].
      rewrite E2, Hi0, <- !app_assoc. cbn [app]. split; [by rewrite list_lookup_middle|].
      rewrite take_app_length, Hoff, u64_add_l. rewrite Hi0, injected_total_app in Ht.
      unfold injected_total at 2 in Ht. cbn [foldr snd] in Ht. do 2 f_equal. lia.
  - destruct (pe_payload x pe) as [[[]|e] pe1] eqn:Ei; [|discriminate Hp].
    eapply pe_payload_effect in Ei as (size & content & Hsz & Hc & Hcn & Ei);
      [|exact Hsrc|assumption|apply Hg0|apply Hg0].
    pose proof (pe_effect_ready _ _ _ _ _ _ Ei) as Hr1.
    destruct (pe_entries_effect _ _ _ Hr1 Hg Hp) as (p2 & inj2 & sizes2 & E2 & B2%ordered_bounds & _).
    destruct Hwf as [-> Hwf]. destruct Hnum as [Hk Hnum].
    assert (get (pp_readSeq x) = Ok size) as Hgt.
    { apply Hget. destruct E2 as [_ _ -> _ _ _ _]. destruct Ei as [_ _ -> _ _ _ _].
      rewrite Hk, <- app_assoc. cbn [app]. by rewrite list_lookup_middle. }
    rewrite Hgt. cbn [rr_plan rr_seq rr_offset]. rewrite (u64_small size) by assumption.
    destruct Ei as [[Eo Ep] Ei Es Ee Eb Ef Er]. destruct E2 as [[Eo2 _] E2 _ _ _ _ _].
    rewrite app_nil_r in Ei.
    assert (zlen (cw_out (pe_w pe1)) = zlen (cw_out (pe_w pe)) + 16 + size) as Ho.
    { rewrite Eo, !length_app, length_payload_header. lia. }
    destruct (IH pe1 pe' 0 [] (mkRefReader (done ++ x :: plan) (Datatypes.S (length done))
      (u64 (rr_offset r + u64 (HeaderSize + size)))) get) as (refs & r' & Hn & Hall);
      try assumption; try congruence.
    + rewrite Es, length_app. cbn [length]. by rewrite Nat.add_1_r.
    + rewrite Ei. eapply Forall_impl; [exact Hinj|]. cbn. lia.
    + cbn [rr_offset]. rewrite Ho, Ei, Hoff, u64_add_l, u64_add_r. unfold HeaderSize. f_equal. lia.
    + rewrite Hn. eexists _, _. split; [reflexivity|]. constructor; [|exact Hall].
      intros later injl Hl. unfold ref_resolves. rewrite Ereuse. cbn [fst snd].
      exists (cw_out (pe_w pe)), content, (p2 ++ later).
      rewrite Eo2, Eo, <- !app_assoc. split; [reflexivity|]. split; [assumption|]. split; [assumption|].
      assert (length (cw_out (pe_w pe1)) = length (cw_out (pe_w pe)) + 16 + length content)%nat as Hon by lia.
      assert (Forall (fun x => length (cw_out (pe_w pe1)) <= x.1)%nat (inj2 ++ injl)) as Hlater.
      { apply Forall_app. split; (eapply Forall_impl; [eassumption|]); cbn.
        - intros y [Hy _]. lia.
        - intros y Hy. rewrite Eo2, length_app in Hy. lia. }
      rewrite E2, Ei, <- app_assoc. split.
      * rewrite Hoff, injected_before_split; [f_equal; lia|assumption|].
        eapply Forall_impl; [exact Hlater|]. cbn. lia.
      * apply Forall_app. split; (eapply Forall_impl; [eassumption|]); cbn; lia.
Qed.

(** What a payload run injects. *)
Lemma pe_run_injected plan (pe pe' : payloadEmitter S) :
  pe_ready I pe -> pe_injected pe = [] -> Forall plan_good plan -> pe_run plan pe = (Ok (), pe') ->
  ordered 0 (pe_injected pe') (length (cw_out (pe_w pe'))) /\
  Forall (fun x => exists q, q ∈ plan /\ pp_reuse q = true /\ x.2 = pp_inject q) (pe_injected pe').
Proof.
  intros Hr Hi Hg Hrun. unfold pe_run in Hrun.
  destruct (pe_write _ pe) as [[[]|e] pe1] eqn:E1; [|done].
  apply (pe_write_effect I) in E1; [|done]. pose proof (pe_effect_ready _ _ _ _ _ _ E1) as Hr1.
  destruct (pe_entries plan pe1) as [[[]|e] pe2] eqn:E2; [|done].
  destruct (pe_entries_effect _ _ _ Hr1 Hg E2) as (p2 & inj2 & sizes2 & Ef2 & Ho & Hx).
  pose proof (pe_effect_ready _ _ _ _ _ _ Ef2) as Hr2. apply (pe_write_effect I) in Hrun; [|done].
  destruct E1 as [_ I1 _ _ _ _ _]. destruct Ef2 as [_ I2 _ _ _ _ _]. destruct Hrun as [[O3 _] I3 _ _ _ _ _].
  rewrite I3, I2, I1, Hi, !app_nil_r. cbn [app]. split; [|exact Hx]. rewrite O3, length_app.
  eapply ordered_widen; [exact Ho|lia..].
Qed.

(** A complete payload run, and the references its reader hands out. *)
Lemma pe_run_refs plan get (pe pe' : payloadEmitter S) :
  pe_w pe = cw_open 0 [] -> pe_injected pe = [] -> pe_ledger pe = newRefLedger -> pe_publish pe = true ->
  I (pe_src pe) -> Forall plan_good plan -> plan_wf 0 plan -> plan_numbered 0 plan ->
  pe_run plan pe = (Ok (), pe') ->
  (forall i s, l_sizes (pe_ledger pe') !! i = Some s -> get i = Ok s) ->
  (exists rest, cw_out (pe_w pe') = AppendPayloadStartMarker [] ++ rest) /\
  exists refs r',
    rr_nexts (length plan) get (newRefReader plan) = (Ok refs, r') /\
    Forall2 (ref_resolves (cw_out (pe_w pe')) (pe_injected pe')) (with_runs [] plan) refs.
Proof.
  intros Hw Hi Hl Hb Hs Hg Hwf Hnum Hrun Hget. unfold pe_run in Hrun.
  assert (pe_ready I pe) as Hr by (unfold pe_ready; rewrite Hw, Hl; done).
  destruct (pe_write _ pe) as [[[]|e] pe1] eqn:E1; [|done].
  apply (pe_write_effect I) in E1; [|done]. pose proof (pe_effect_ready _ _ _ _ _ _ E1) as Hr1.
  destruct (pe_entries plan pe1) as [[[]|e] pe2] eqn:E2; [|done].
  destruct (pe_entries_effect _ _ _ Hr1 Hg E2) as (p2 & inj2 & sizes2 & Ef2 & _).
  pose proof (pe_effect_ready _ _ _ _ _ _ Ef2) as Hr2.
  apply (pe_write_effect I) in Hrun; [|done].
  destruct E1 as [[O1 _] I1 S1 _ _ F1 _]. destruct Hrun as [[O3 _] I3 S3 _ _ _ _]. destruct Ef2 as [[O2 _] _ _ _ _ _ _].
  rewrite Hw, Hi, Hl in *. cbn [cw_out cw_open newRefLedger l_sizes app] in *.
  rewrite app_nil_r in S3, I3.
  split; [rewrite O3, O2, O1, <- app_assoc; by eexists|].
  destruct (pe_entries_refs plan pe1 pe2 0 [] (newRefReader plan) get) as (refs & r' & Hn & Hall);
    try done; try congruence.
  - by rewrite S1.
  - by rewrite I1.
  - rewrite <- S3. done.
  - by exists [].
  - cbn [newRefReader rr_offset]. rewrite O1, I1. reflexivity.
  - exists refs, r'. split; [done|]. eapply Forall2_impl; [exact Hall|].
    intros pl ref Hres. specialize (Hres (AppendPayloadTailMarker []) [] ltac:(constructor)).
    by rewrite app_nil_r, <- O3, <- I3 in Hres.
Qed.

(** C17: The references the metadata stream records resolve in the payload stream:
    after a complete payload run of a well-formed plan, the reader hands out one
    reference per plan entry; a read file's reference is the position, in the
    uploaded stream (data bytes plus injected spans), of a payload record header
    followed by exactly the recorded number of content bytes, which no span
    splits, and a reused file's points its recorded distance into the span
    injected for its run. *)
Theorem payload_refs_resolve plan get (pe pe' : payloadEmitter S) :
  pe_w pe = cw_open 0 [] -> pe_injected pe = [] -> pe_ledger pe = newRefLedger ->
  pe_publish pe = true ->
  I (pe_src pe) -> Forall plan_good plan ->
  plan_wf 0 plan -> plan_numbered 0 plan ->
  pe_run plan pe = (Ok (), pe') ->
  (forall i s, l_sizes (pe_ledger pe') !! i = Some s -> get i = Ok s) ->
  exists refs r',
    rr_nexts (length plan) get (newRefReader plan) = (Ok refs, r') /\
    Forall2 (ref_resolves (cw_out (pe_w pe')) (pe_injected pe')) (with_runs [] plan) refs.
Proof.
  intros Hw Hi Hl Hb Hs Hg Hwf Hnum Hrun Hget.
  by destruct (pe_run_refs plan get pe pe' Hw Hi Hl Hb Hs Hg Hwf Hnum Hrun Hget) as [_ ?].
Qed.
End resolve.

(* ------------------------------------------------------------------ *)
(** ** Witnesses *)

Definition sample_stream_node : node :=
  mkNode (lit "s") [] KindStream (mkStat 0x81a4 0 0 0 0 3 1 0 0 zeroDevice) [] [] None [] 0 []
    (Some [(lit "abc", Some EOF)]).

(** A read file, then a run of one reused file inside a 50 byte chunk. *)
Definition sample_plan : list payloadPlan :=
  [mkPlan sample_stream_node false 0 0 [] false 0 0;
   mkPlan sample_stream_node true 10 3 [mkChunk (replicate 32 x07) 50] true 50 0;
   mkPlan sample_stream_node false 0 0 [] false 0 1].

Definition sample_emitter : payloadEmitter osfs :=
  mkPE (cw_open 0 []) (fun _ => None) [] newRefLedger true true [].

Lemma sample_plan_good : Forall (plan_good (unchanged (fun _ => None))) sample_plan.
Proof.
  assert (unchanged (fun _ => None) sample_stream_node) as Hu.
  { intros _. split; [cbn; lia|]. eexists. split; reflexivity. }
  unfold sample_plan. rewrite !Forall_cons. by split_and!.
Qed.

Lemma ledger_answers_final_witness :
  l_get 0 (l_cancel (l_fail ErrWrite (l_publish 7 None newRefLedger))) = Some (Ok 7).
Proof.
  apply (ledger_answers_final (l_publish 7 None newRefLedger)).
  - eapply rtc_l; [apply step_fail|]. eapply rtc_l; [apply step_cancel|]. apply rtc_refl.
  - reflexivity.
  - discriminate.
Defined.

Lemma payload_refs_resolve_witness :
  exists refs r',
    rr_nexts 3 (fun _ => Ok 3) (newRefReader sample_plan) = (Ok refs, r') /\
    Forall2 (ref_resolves (sync_cont (fun _ => None)) (cw_out (pe_w (pe_run sample_plan sample_emitter).2))
      (pe_injected (pe_run sample_plan sample_emitter).2)) (with_runs [] sample_plan) refs.
Proof.
  refine (payload_refs_resolve (fun fs : osfs => fs = (fun _ => None)) (unchanged (fun _ => None))
    (sync_cont (fun _ => None)) (sync_copies _) sample_plan (fun _ => Ok 3) sample_emitter
    (pe_run sample_plan sample_emitter).2 eq_refl eq_refl eq_refl eq_refl eq_refl
    sample_plan_good _ _ _ _).
  - cbn. repeat split; auto.
  - cbn. auto.
  - vm_compute. reflexivity.
  - vm_compute. intros [|[|i]] s; intros [= <-]; reflexivity.
Defined.
