(* ===== verification/Emit.v ===== *)
(** * The archive emitter

    Models archive/emit.go and archive/estimate.go: the walk that streams a
    node tree as a pxar v1 archive or a v2 metadata stream, and the size
    estimates that mirror it.  [encodes] is the grammar of an emitted tree:
    the specification the reader (Reader.v) is proved against. *)

From S2P Require Import Prelude Format BinTree Io Tree Payload Reuse Refs.
Local Open Scope Z_scope.

(* ------------------------------------------------------------------ *)
(** ** Metadata records *)

Definition metaEntry (n : node) : Entry :=
  let st := n_Stat n in
  mkEntry (st_Mode st) 0 (st_UID st) (st_GID st) (st_MtimeSecs st) (st_MtimeNanos st).

Definition metadataACL (buf : bytes) (acl : ACLs) : bytes :=
  let buf := foldl AppendACLUser buf (Users acl) in
  let buf := foldl AppendACLGroup buf (Groups acl) in
  let buf := match GroupObj acl with Some p => AppendACLGroupObj buf p | None => buf end in
  let buf := match Default acl with Some d => AppendACLDefault buf d | None => buf end in
  let buf := foldl AppendACLDefaultUser buf (DefaultUsers acl) in
  foldl AppendACLDefaultGroup buf (DefaultGroups acl).

(** [metadataBytes]. *)
Definition metadataBytes (dst : bytes) (n : node) : bytes :=
  let buf := AppendEntry dst (metaEntry n) in
  let buf := foldl (fun buf x => AppendXAttr buf (xa_Name x) (xa_Value x)) buf (n_Xattrs n) in
  let buf := match n_ACL n with Some acl => metadataACL buf acl | None => buf end in
  let buf := if 0 <? zlen (n_FCaps n) then AppendFCaps buf (n_FCaps n) else buf in
  if negb (n_QuotaProjID n =? 0) then AppendQuotaProjID buf (n_QuotaProjID n) else buf.

(* ------------------------------------------------------------------ *)
(** ** The emitter *)

Section emitter.
Context {S : Type} `{PayloadSource S} `{SipHash}.

(** [emitter]; [em_refs] is nil in v1 mode and [em_get] is the ledger behind it. *)
Record emitter := mkEm {
  em_w : countWriter; em_src : S; em_refs : option refReader;
  em_get : nat -> result gen_error Z; em_prelude : option bytes;
  em_links : gmap bytes Z; em_warns : list Warning }.

(** Emitter actions: state changes made before an error persist. *)
Definition M (A : Type) : Type := emitter -> result gen_error A * emitter.
#[global] Instance M_ret : MRet M := fun A a em => (Ok a, em).
#[global] Instance M_bind : MBind M := fun A B f m em =>
  match m em with
  | (Ok a, em) => f a em
  | (Err e, em) => (Err e, em)
  end.

Definition fail {A} (e : gen_error) : M A := fun em => (Err e, em).
Definition gets {A} (f : emitter -> A) : M A := fun em => (Ok (f em), em).
Definition modify (f : emitter -> emitter) : M unit := fun em => (Ok (), f em).

Definition set_w (w : countWriter) (em : emitter) : emitter :=
  mkEm w (em_src em) (em_refs em) (em_get em) (em_prelude em) (em_links em) (em_warns em).
Definition set_src (s : S) (em : emitter) : emitter :=
  mkEm (em_w em) s (em_refs em) (em_get em) (em_prelude em) (em_links em) (em_warns em).
Definition set_refs (r : refReader) (em : emitter) : emitter :=
  mkEm (em_w em) (em_src em) (Some r) (em_get em) (em_prelude em) (em_links em) (em_warns em).
Definition add_link (p : bytes) (pos : Z) (em : emitter) : emitter :=
  mkEm (em_w em) (em_src em) (em_refs em) (em_get em) (em_prelude em)
    (<[p := pos]> (em_links em)) (em_warns em).
Definition add_warns (ws : list Warning) (em : emitter) : emitter :=
  mkEm (em_w em) (em_src em) (em_refs em) (em_get em) (em_prelude em)
    (em_links em) (em_warns em ++ ws).

Definition write (p : bytes) : M unit := fun em =>
  let '(e, w) := cw_write p (em_w em) in (e, set_w w em).
Definition open (n : node) : M payload := fun em =>
  let '(r, s) := src_open n (em_src em) in (r, set_src s em).
Definition copy (pl : payload) : M unit := fun em =>
  let '(r, w) := pl_Copy pl (em_w em) in
  match r with
  | Ok ws => (Ok (), add_warns ws (set_w w em))
  | Err e => (Err e, set_w w em)
  end.
Definition next_ref : M (Z * Z) := fun em =>
  match em_refs em with
  | None => (Err ErrPanic, em)
  | Some r => let '(x, r) := rr_next (em_get em) r in (x, set_refs r em)
  end.

(** [em.refs != nil]. *)
Definition em_v2 (em : emitter) : bool :=
  match em_refs em with Some _ => true | None => false end.

(** The end of a directory: its goodbye table. *)
Definition emit_goodbye (isRoot : bool) (entryStart : Z) (items : list GoodbyeItem) : M Z :=
  pos ← gets (fun em => cw_pos (em_w em));
  match AppendGoodbye [] items (if isRoot then 0 else entryStart) pos with
  | None => fail ErrPanic
  | Some goodbye => _ ← write goodbye; mret 0
  end.

(** The payload or payload reference of a regular file. *)
Definition emit_payload (n : node) (apath : bytes) (start : Z) (v2 : bool) (pl : option payload) : M Z :=
  extra ←
    (if v2 then
       '(offset, size) ← next_ref;
       _ ← write (AppendPayloadRef [] offset size);
       mret size
     else
       match pl with
       | None => fail ErrPanic
       | Some pl =>
           _ ← write (AppendPayloadHeader [] (u64 (pl_Size pl)));
           _ ← copy pl;
           mret 0
       end);
  _ ← (if decide (n_Kind n = KindFile) then
         if 1 <? st_Nlink (n_Stat n) then modify (add_link apath start) else mret () : M unit
       else mret () : M unit);
  mret extra.

Definition emit_hardlink (n : node) (apath : bytes) (start : Z) : M Z :=
  links ← gets em_links;
  match links !! n_LinkTarget n with
  | None => fail (ErrHardlinkTarget apath (n_LinkTarget n))
  | Some targetStart =>
      _ ← write (AppendHardlink [] (u64 (start - targetStart)) (n_LinkTarget n));
      mret 0
  end.

(** [emitter.node].  The size of a v1 payload is bound (the source opened)
    before any record of the node is rendered. *)
Fixpoint emit_node (n : node) (apath : bytes) (isRoot : bool) {struct n} : M Z :=
  start ← gets (fun em => cw_pos (em_w em));
  _ ← (if isRoot then mret () : M unit else write (AppendFilename [] (n_Name n)));
  if decide (n_Kind n = KindHardlink) then emit_hardlink n apath start else
  v2 ← gets em_v2;
  pl ← (if negb v2 && is_payload (n_Kind n) then (pl ← open n; mret (Some pl))
         else mret None : M (option payload));
  entryStart ← gets (fun em => cw_pos (em_w em));
  _ ← write (metadataBytes [] n);
  match n_Kind n with
  | KindDirectory =>
      items ←
        (fix children (cs : list node) (items : list GoodbyeItem) : M (list GoodbyeItem) :=
           match cs with
           | [] => mret items
           | child :: cs =>
               childStart ← gets (fun em => cw_pos (em_w em));
               extra ← emit_node child (joinArchive apath (n_Name child)) false;
               pos ← gets (fun em => cw_pos (em_w em));
               children cs (items ++
                 [mkGoodbyeItem (Hash (n_Name child)) childStart (u64 (pos - childStart + extra))])
           end) (n_Children n) [];
      emit_goodbye isRoot entryStart items
  | KindFile | KindStream => emit_payload n apath start v2 pl
  | KindSymlink => _ ← write (AppendSymlink [] (n_LinkTarget n)); mret 0
  | KindBlockDevice | KindCharDevice =>
      _ ← write (AppendDevice [] (st_Rdev (n_Stat n))); mret 0
  | KindFifo | KindSocket => mret 0
  | KindHardlink => fail (ErrNodeKind apath)
  end.

(** The children loop of [emit_node] by itself. *)
Definition emit_children (apath : bytes) : list node -> list GoodbyeItem -> M (list GoodbyeItem) :=
  fix children cs items :=
    match cs with
    | [] => mret items
    | child :: cs =>
        childStart ← gets (fun em => cw_pos (em_w em));
        extra ← emit_node child (joinArchive apath (n_Name child)) false;
        pos ← gets (fun em => cw_pos (em_w em));
        children cs (items ++
          [mkGoodbyeItem (Hash (n_Name child)) childStart (u64 (pos - childStart + extra))])
    end.

Lemma emit_node_eq n apath isRoot : emit_node n apath isRoot =
  (start ← gets (fun em => cw_pos (em_w em));
   _ ← (if isRoot then mret () : M unit else write (AppendFilename [] (n_Name n)));
   if decide (n_Kind n = KindHardlink) then emit_hardlink n apath start else
   v2 ← gets em_v2;
   pl ← (if negb v2 && is_payload (n_Kind n) then (pl ← open n; mret (Some pl))
          else mret None : M (option payload));
   entryStart ← gets (fun em => cw_pos (em_w em));
   _ ← write (metadataBytes [] n);
   match n_Kind n with
   | KindDirectory =>
       items ← emit_children apath (n_Children n) [];
       emit_goodbye isRoot entryStart items
   | KindFile | KindStream => emit_payload n apath start v2 pl
   | KindSymlink => _ ← write (AppendSymlink [] (n_LinkTarget n)); mret 0
   | KindBlockDevice | KindCharDevice =>
       _ ← write (AppendDevice [] (st_Rdev (n_Stat n))); mret 0
   | KindFifo | KindSocket => mret 0
   | KindHardlink => fail (ErrNodeKind apath)
   end).
Proof. by destruct n. Qed.

(** [emitter.run]. *)
Definition em_run (root : node) : M unit :=
  _ ← modify (fun em => mkEm (em_w em) (em_src em) (em_refs em) (em_get em)
                          (em_prelude em) ∅ (em_warns em));
  v2 ← gets em_v2;
  prelude ← gets em_prelude;
  _ ← (if (v2 : bool) then
         _ ← write (AppendFormatVersion [] 2);
         match prelude with
         | Some p => write (AppendPrelude [] p)
         | None => mret () : M unit
         end
       else mret () : M unit);
  _ ← emit_node root [] true;
  mret ().
End emitter.
Arguments emitter S : clear implicits.

(* ------------------------------------------------------------------ *)
(** ** Estimates (estimate.go) *)

Definition sizeACL (acl : ACLs) : Z :=
  zlen (Users acl) * ACLUserSize + zlen (Groups acl) * ACLGroupSize +
  (if GroupObj acl is Some _ then ACLGroupObjSize else 0) +
  (if Default acl is Some _ then ACLDefaultSize else 0) +
  zlen (DefaultUsers acl) * ACLUserSize + zlen (DefaultGroups acl) * ACLGroupSize.

(** [sizeMetadata]; every addition is on [uint64]. *)
Definition sizeMetadata (n : node) : Z :=
  let s := EntrySize in
  let s := foldl (fun s x => u64 (s + SizeXAttr (xa_Name x) (xa_Value x))) s (n_Xattrs n) in
  let s := match n_ACL n with Some acl => u64 (s + sizeACL acl) | None => s end in
  let s := if 0 <? zlen (n_FCaps n) then u64 (s + SizeFCaps (n_FCaps n)) else s in
  if negb (n_QuotaProjID n =? 0) then u64 (s + QuotaProjIDSize) else s.

(** [estimateV1]. *)
Fixpoint estimateV1 (n : node) (isRoot : bool) : Z :=
  let s := if isRoot then 0 else SizeFilename (n_Name n) in
  if decide (n_Kind n = KindHardlink) then u64 (s + SizeHardlink (n_LinkTarget n)) else
  let s := u64 (s + sizeMetadata n) in
  match n_Kind n with
  | KindDirectory =>
      let s := foldl (fun s child => u64 (s + estimateV1 child false)) s (n_Children n) in
      u64 (s + SizeGoodbye (zlen (n_Children n)))
  | KindFile | KindStream => u64 (s + SizePayload (u64 (st_Size (n_Stat n))))
  | KindSymlink => u64 (s + SizeSymlink (n_LinkTarget n))
  | KindBlockDevice | KindCharDevice => u64 (s + DeviceSize)
  | _ => s
  end.

(** [estimateV2]: the metadata and the payload stream. *)
Fixpoint estimateV2 (n : node) (isRoot : bool) : Z * Z :=
  let meta := if isRoot then FormatVersionSize else SizeFilename (n_Name n) in
  let payload := if isRoot then 2 * MarkerSize else 0 in
  if decide (n_Kind n = KindHardlink)
  then (u64 (meta + SizeHardlink (n_LinkTarget n)), payload) else
  let meta := u64 (meta + sizeMetadata n) in
  match n_Kind n with
  | KindDirectory =>
      let '(meta, payload) :=
        foldl (fun '(meta, payload) child =>
                 let '(m, p) := estimateV2 child false in (u64 (meta + m), u64 (payload + p)))
          (meta, payload) (n_Children n) in
      (u64 (meta + SizeGoodbye (zlen (n_Children n))), payload)
  | KindFile | KindStream =>
      (u64 (meta + PayloadRefSize), u64 (payload + SizePayload (u64 (st_Size (n_Stat n)))))
  | KindSymlink => (u64 (meta + SizeSymlink (n_LinkTarget n)), payload)
  | KindBlockDevice | KindCharDevice => (u64 (meta + DeviceSize), payload)
  | _ => (meta, payload)
  end.

(* ------------------------------------------------------------------ *)
(** ** The grammar of an emitted tree *)

(** The metadata records of a node, in canonical order. *)
Definition acl_recs (acl : ACLs) : list Rec :=
  (RACLUser <$> Users acl) ++ (RACLGroup <$> Groups acl) ++
  (match GroupObj acl with Some p => [RACLGroupObj p] | None => [] end) ++
  (match Default acl with Some d => [RACLDefault d] | None => [] end) ++
  (RACLDefaultUser <$> DefaultUsers acl) ++ (RACLDefaultGroup <$> DefaultGroups acl).

Definition extra_recs (n : node) : list Rec :=
  ((fun x => RXAttr (xa_Name x) (xa_Value x)) <$> n_Xattrs n) ++
  (match n_ACL n with Some acl => acl_recs acl | None => [] end) ++
  (if 0 <? zlen (n_FCaps n) then [RFCaps (n_FCaps n)] else []) ++
  (if negb (n_QuotaProjID n =? 0) then [RQuotaProjID (n_QuotaProjID n)] else []).

Definition head_recs (n : node) (isRoot : bool) : list Rec :=
  if isRoot then [] else [RFilename (n_Name n)].

(** What precedes the type-specific part of a node that is not a hardlink. *)
Definition node_prefix (n : node) (isRoot : bool) : bytes :=
  frames (head_recs n isRoot ++ REntry (metaEntry n) :: extra_recs n).

(** What an emitted node carries besides its metadata. *)
Inductive item_data :=
  | DNone
  | DContent (content : bytes)
  | DRef (offset size : Z)
  | DLink (offset : Z).

(** A node of the stream: where its first record starts, its archive path. *)
Record item := mkItem { it_pos : Z; it_path : bytes; it_node : node; it_data : item_data }.

(** The payload references of a stream, in order. *)
Definition item_refs (xs : list item) : list (Z * Z) :=
  omap (fun it => match it_data it with DRef off size => Some (off, size) | _ => None end) xs.

(** Hardlink targets emitted so far. *)
Abbreviation links := (gmap (list Byte.byte) Z).

Definition link_after (n : node) (ap : bytes) (pos : Z) (ln : links) : links :=
  if decide (n_Kind n = KindFile) then
    if 1 <? st_Nlink (n_Stat n) then <[ap := pos]> ln else ln
  else ln.

Lemma item_refs_app xs ys : item_refs (xs ++ ys) = item_refs xs ++ item_refs ys.
Proof. apply omap_app. Qed.

Section grammar.
Context `{SipHash} (v2 : bool) (cont : node -> bytes -> Prop).

(** [encodes n isRoot ap pos ln out extra xs ln']: [out] is node [n] emitted at
    stream position [pos] under archive path [ap]; [extra] is what its parent's
    goodbye item adds to its length, [xs] the nodes of [out] in order. *)
Inductive encodes :
    node -> bool -> bytes -> Z -> links -> bytes -> Z -> list item -> links -> Prop :=
  | enc_hardlink n (isRoot : bool) ap pos ln ts :
      n_Kind n = KindHardlink -> ln !! n_LinkTarget n = Some ts ->
      encodes n isRoot ap pos ln
        (frames (head_recs n isRoot ++ [RHardlink (u64 (pos - ts)) (n_LinkTarget n)])) 0
        [mkItem pos ap n (DLink (u64 (pos - ts)))] ln
  | enc_dir n (isRoot : bool) ap pos ln outs items xs ln' goodbye :
      n_Kind n = KindDirectory ->
      encodes_all ap (n_Children n) (u64 (pos + zlen (node_prefix n isRoot))) ln
        outs items xs ln' ->
      AppendGoodbye [] items
        (if isRoot then 0 else u64 (pos + zlen (frames (head_recs n isRoot))))
        (u64 (pos + zlen (node_prefix n isRoot ++ outs))) = Some goodbye ->
      encodes n isRoot ap pos ln (node_prefix n isRoot ++ outs ++ goodbye) 0
        (mkItem pos ap n DNone :: xs) ln'
  | enc_content n (isRoot : bool) ap pos ln content :
      v2 = false -> is_payload (n_Kind n) = true -> is_i64 (zlen content) -> cont n content ->
      encodes n isRoot ap pos ln
        (node_prefix n isRoot ++ AppendPayloadHeader [] (zlen content) ++ content) 0
        [mkItem pos ap n (DContent content)] (link_after n ap pos ln)
  | enc_ref n (isRoot : bool) ap pos ln offset size :
      v2 = true -> is_payload (n_Kind n) = true -> is_u64 offset -> is_u64 size ->
      encodes n isRoot ap pos ln
        (node_prefix n isRoot ++ frames [RPayloadRef offset size]) size
        [mkItem pos ap n (DRef offset size)] (link_after n ap pos ln)
  | enc_symlink n (isRoot : bool) ap pos ln :
      n_Kind n = KindSymlink ->
      encodes n isRoot ap pos ln
        (node_prefix n isRoot ++ frames [RSymlink (n_LinkTarget n)]) 0 [mkItem pos ap n DNone] ln
  | enc_device n (isRoot : bool) ap pos ln :
      n_Kind n = KindBlockDevice \/ n_Kind n = KindCharDevice ->
      encodes n isRoot ap pos ln
        (node_prefix n isRoot ++ frames [RDevice (st_Rdev (n_Stat n))]) 0 [mkItem pos ap n DNone] ln
  | enc_plain n (isRoot : bool) ap pos ln :
      n_Kind n = KindFifo \/ n_Kind n = KindSocket ->
      encodes n isRoot ap pos ln (node_prefix n isRoot) 0 [mkItem pos ap n DNone] ln
(** The children of the directory at [ap]. *)
with encodes_all :
    bytes -> list node -> Z -> links -> bytes -> list GoodbyeItem -> list item -> links -> Prop :=
  | enc_nil ap pos ln : encodes_all ap [] pos ln [] [] [] ln
  | enc_cons ap c cs pos ln out extra xs ln1 outs items xs' ln2 :
      encodes c false (joinArchive ap (n_Name c)) pos ln out extra xs ln1 ->
      encodes_all ap cs (u64 (pos + zlen out)) ln1 outs items xs' ln2 ->
      encodes_all ap (c :: cs) pos ln (out ++ outs)
        (mkGoodbyeItem (Hash (n_Name c)) pos (u64 (zlen out + extra)) :: items) (xs ++ xs') ln2.

Scheme encodes_ind2 := Induction for encodes Sort Prop
  with encodes_all_ind2 := Induction for encodes_all Sort Prop.
Combined Scheme encodes_mutind from encodes_ind2, encodes_all_ind2.
End grammar.

(* ------------------------------------------------------------------ *)
(** ** Lemmas: metadata *)

Lemma foldl_AppendRec {A} (f : A -> Rec) l dst :
  foldl (fun b x => AppendRec b (f x)) dst l = dst ++ frames (f <$> l).
Proof.
  revert dst. induction l as [|x l IH]; intros dst; cbn [foldl]; [by rewrite app_nil_r|].
  rewrite IH, AppendRec_frame, <- app_assoc. done.
Qed.

Lemma metadataACL_recs acl dst : metadataACL dst acl = dst ++ frames (acl_recs acl).
Proof.
  unfold metadataACL, acl_recs. rewrite !frames_app.
  rewrite (foldl_AppendRec RACLUser _ dst).
  rewrite (foldl_AppendRec RACLGroup).
  change AppendACLGroupObj with (fun b p => AppendRec b (RACLGroupObj p)).
  change AppendACLDefault with (fun b p => AppendRec b (RACLDefault p)).
  assert (forall (o : option Z) b, match o with Some p => AppendRec b (RACLGroupObj p) | None => b end
    = b ++ frames match o with Some p => [RACLGroupObj p] | None => [] end) as H1.
  { intros [p|] b; [|by rewrite app_nil_r]. by rewrite AppendRec_frame, frames_cons, frames_nil, app_nil_r. }
  assert (forall (o : option ACLDefault) b, match o with Some p => AppendRec b (RACLDefault p) | None => b end
    = b ++ frames match o with Some p => [RACLDefault p] | None => [] end) as H2.
  { intros [p|] b; [|by rewrite app_nil_r]. by rewrite AppendRec_frame, frames_cons, frames_nil, app_nil_r. }
  cbv beta zeta. rewrite H1, H2.
  rewrite (foldl_AppendRec RACLDefaultUser), (foldl_AppendRec RACLDefaultGroup).
  by rewrite <- !app_assoc.
Qed.

Lemma frames_sing r : frames [r] = AppendRec [] r.
Proof. rewrite AppendRec_frame, frames_cons, frames_nil. by rewrite app_nil_r. Qed.

Lemma metadataBytes_recs dst n :
  metadataBytes dst n = dst ++ frames (REntry (metaEntry n) :: extra_recs n).
Proof.
  unfold metadataBytes, extra_recs. cbv zeta.
  change (AppendEntry dst (metaEntry n)) with (AppendRec dst (REntry (metaEntry n))).
  rewrite AppendRec_frame, (foldl_AppendRec (fun x => RXAttr (xa_Name x) (xa_Value x))).
  rewrite frames_cons, !frames_app.
  generalize (frame (rec_type (REntry (metaEntry n))) (rec_body (REntry (metaEntry n)))).
  generalize (frames ((fun x => RXAttr (xa_Name x) (xa_Value x)) <$> n_Xattrs n)). intros xs e.
  assert (forall b, match n_ACL n with Some acl => metadataACL b acl | None => b end =
    b ++ frames match n_ACL n with Some acl => acl_recs acl | None => [] end) as ->
    by (intros b; destruct (n_ACL n); [apply metadataACL_recs|by rewrite app_nil_r]).
  assert (forall b, (if 0 <? zlen (n_FCaps n) then AppendFCaps b (n_FCaps n) else b) =
    b ++ frames (if 0 <? zlen (n_FCaps n) then [RFCaps (n_FCaps n)] else [])) as ->
    by (intros b; case_match; [apply (foldl_AppendRec RFCaps [_])|by rewrite app_nil_r]).
  assert (forall b, (if negb (n_QuotaProjID n =? 0) then AppendQuotaProjID b (n_QuotaProjID n) else b) =
    b ++ frames (if negb (n_QuotaProjID n =? 0) then [RQuotaProjID (n_QuotaProjID n)] else [])) as ->
    by (intros b; case_match; [apply (foldl_AppendRec RQuotaProjID [_])|by rewrite app_nil_r]).
  by rewrite <- !app_assoc.
Qed.

Lemma node_prefix_eq n isRoot :
  node_prefix n isRoot = frames (head_recs n isRoot) ++ metadataBytes [] n.
Proof. unfold node_prefix. by rewrite metadataBytes_recs, frames_app. Qed.

(* ------------------------------------------------------------------ *)
(** ** Lemmas: a successful walk *)

Lemma M_bind_ok {T A B} (m : M (S := T) A) (f : A -> M (S := T) B) em b em' :
  (m ≫= f) em = (Ok b, em') -> exists a em1, m em = (Ok a, em1) /\ f a em1 = (Ok b, em').
Proof.
  unfold mbind, M_bind. destruct (m em) as [[a|e] em1]; [|done]. eauto.
Qed.

Lemma gets_ok {T A} (f : emitter T -> A) em a em' : gets f em = (Ok a, em') -> a = f em /\ em' = em.
Proof. unfold gets. intros. by simplify_eq. Qed.

(** Step into a bind of a successful run; resolve a [gets]. *)
Ltac next H x em :=
  let Hx := fresh "H" x in apply M_bind_ok in H as (x & em & Hx & H).
Ltac got H := apply gets_ok in H as [-> ->].

Section walk.
Context {T : Type} `{PayloadSource T} `{SipHash}.
Context (I : T -> Prop) (good : node -> Prop) (cont : node -> bytes -> Prop).
Context (Hsrc : source_copies I good cont).

Definition em_ready (em : emitter T) : Prop :=
  is_u64 (cw_pos (em_w em)) /\ I (em_src em) /\
  match em_refs em with
  | Some r => is_u64 (rr_offset r) /\ Forall (fun p => is_u64 (pp_size p)) (rr_plan r)
  | None => True
  end.

(** A step that emits [p] and takes the references [rs]. *)
Record em_step (em : emitter T) (p : bytes) (rs : list (Z * Z)) (em' : emitter T) : Prop := {
  ems_wrote : wrote (em_w em) p (em_w em');
  ems_ready : em_ready em';
  ems_v2 : em_v2 em' = em_v2 em;
  ems_prelude : em_prelude em' = em_prelude em;
  ems_get : em_get em' = em_get em;
  ems_refs : match em_refs em with
             | Some r => exists r', em_refs em' = Some r' /\ rr_nexts (length rs) (em_get em) r = (Ok rs, r')
             | None => em_refs em' = None /\ rs = []
             end }.

Lemma same_refs (em em' : emitter T) : em_refs em' = em_refs em ->
  match em_refs em with
  | Some r => exists r', em_refs em' = Some r' /\ rr_nexts 0 (em_get em) r = (Ok [], r')
  | None => em_refs em' = None /\ @nil (Z * Z) = []
  end.
Proof. intros ->. destruct (em_refs em); eauto. Qed.

Lemma em_step_refl em : em_ready em -> em_step em [] [] em.
Proof.
  intros Hr. split; try done; [|by apply same_refs]. apply wrote_nil. by rewrite u64_small by apply Hr.
Qed.
Lemma em_step_trans em p rs em1 q rs' em2 :
  em_step em p rs em1 -> em_step em1 q rs' em2 -> em_step em (p ++ q) (rs ++ rs') em2.
Proof.
  intros [W1 _ V1 P1 G1 F1] [W2 R2 V2 P2 G2 F2].
  split; [by eapply wrote_trans|done|congruence..|].
  destruct (em_refs em) as [r|].
  - destruct F1 as (r1 & E1 & N1). rewrite E1, G1 in F2. destruct F2 as (r2 & E2 & N2).
    exists r2. split; [done|]. rewrite length_app. by eapply rr_nexts_app.
  - destruct F1 as [E1 ->]. rewrite E1 in F2. by destruct F2 as [? ->].
Qed.
Lemma em_step_then em p em1 q rs em2 :
  em_step em p [] em1 -> em_step em1 q rs em2 -> em_step em (p ++ q) rs em2.
Proof. apply em_step_trans. Qed.
Lemma em_step_pos em p rs em' : em_step em p rs em' -> cw_pos (em_w em') = u64 (cw_pos (em_w em) + zlen p).
Proof. by intros [[_ ?] _ _ _ _ _]. Qed.

Lemma write_step p em u em' :
  em_ready em -> write p em = (Ok u, em') -> em_step em p [] em' /\ em_links em' = em_links em.
Proof.
  intros (Hp & Hi & Hr) Hw. unfold write in Hw.
  destruct (cw_write p (em_w em)) as [e w] eqn:Ew. simplify_eq. destruct u.
  pose proof (cw_write_wrote _ _ _ Ew) as W. split; [|done].
  split; [..|by apply same_refs]; cbn; try done. split; [|done]. cbn. destruct W as [_ ->]. apply u64_range.
Qed.

Lemma next_ref_step em x em' :
  em_ready em -> next_ref em = (Ok x, em') ->
  em_step em [] [x] em' /\ em_links em' = em_links em /\ em_v2 em = true /\ is_u64 x.1 /\ is_u64 x.2.
Proof.
  intros (Hp & Hi & Hr) Hn. unfold next_ref in Hn. unfold em_v2.
  destruct (em_refs em) as [r|] eqn:Er; [|done]. destruct Hr as [Ho Hpl].
  destruct (rr_next (em_get em) r) as [y r'] eqn:En. simplify_eq.
  pose proof En as En0. unfold rr_next in En.
  destruct (rr_plan r !! rr_seq r) as [p|] eqn:Ep; [|done].
  assert (is_u64 (pp_size p)) as Hs by (rewrite Forall_forall in Hpl; eapply Hpl, list_elem_of_lookup_2, Ep).
  assert (is_u64 x.1 /\ is_u64 x.2 /\ is_u64 (rr_offset r') /\ rr_plan r' = rr_plan r) as (H1 & H2 & H3 & H4).
  { destruct (pp_reuse p); [destruct (pp_runEnd p)|destruct (em_get em _)]; simplify_eq; cbn;
      split_and!; auto with gopbs. }
  split_and!; try done. split; cbn; try done.
  - apply wrote_nil. by rewrite u64_small.
  - split; [done|]. split; [done|]. cbn. by rewrite H4.
  - unfold em_v2. by rewrite Er.
  - rewrite Er. exists r'. split; [done|]. cbn [length rr_nexts]. by rewrite En0.
Qed.
Lemma write_rec_step r em u em' :
  em_ready em -> write (AppendRec [] r) em = (Ok u, em') ->
  em_step em (frames [r]) [] em' /\ em_links em' = em_links em.
Proof. rewrite <- frames_sing. apply write_step. Qed.

Lemma head_step n (isRoot : bool) em u em' :
  em_ready em ->
  (if isRoot then mret () : M unit else write (AppendFilename [] (n_Name n))) em = (Ok u, em') ->
  em_step em (frames (head_recs n isRoot)) [] em' /\ em_links em' = em_links em.
Proof.
  intros Hr Hw. destruct isRoot; cbn [head_recs].
  - injection Hw as _ <-. split; [by apply em_step_refl|done].
  - by apply (write_rec_step (RFilename _)) in Hw.
Qed.

Lemma open_step n em pl em' :
  em_ready em -> good n -> is_payload (n_Kind n) = true -> open n em = (Ok pl, em') ->
  em_step em [] [] em' /\ em_links em' = em_links em /\ is_i64 (pl_Size pl) /\ 0 <= pl_Size pl /\
  forall w ws w', cw_pos w = u64 (cw_pos w) -> pl_Copy pl w = (Ok ws, w') ->
  exists content, zlen content = pl_Size pl /\ wrote w content w' /\ cont n content.
Proof.
  intros (Hp & Hi & Hr) Hg Hk Ho. unfold open in Ho.
  destruct (src_open n (em_src em)) as [r s] eqn:Es. simplify_eq.
  destruct (Hsrc _ _ _ _ Hi Hg Hk Es) as (Hi' & Hs & Hc).
  assert (is_i64 (pl_Size pl)) by (eapply (src_exact _ _ _ _ (cw_open 0 []) [] (cw_open 0 [])), Es).
  split_and!; try done. split; [..|by apply same_refs]; try done. apply wrote_nil. by rewrite u64_small.
Qed.

Lemma copy_step n pl em u em' :
  em_ready em ->
  (forall w ws w', cw_pos w = u64 (cw_pos w) -> pl_Copy pl w = (Ok ws, w') ->
   exists content, zlen content = pl_Size pl /\ wrote w content w' /\ cont n content) ->
  copy pl em = (Ok u, em') ->
  exists content, zlen content = pl_Size pl /\ cont n content /\
    em_step em content [] em' /\ em_links em' = em_links em.
Proof.
  intros (Hp & Hi & Hr) Hc Hw. unfold copy in Hw.
  destruct (pl_Copy pl (em_w em)) as [[ws|e] w] eqn:Ec; simplify_eq.
  destruct (Hc _ _ _ (eq_sym (u64_small _ Hp)) Ec) as (content & Hl & Hw & Hn).
  exists content. split_and!; try done. split; [..|by apply same_refs]; cbn; try done. split; [|done].
  cbn. destruct Hw as [_ ->]. apply u64_range.
Qed.

(** What a successful walk of a node did. *)
Definition emitted_node (n : node) (isRoot : bool) (ap : bytes) em extra em' : Prop :=
  exists out xs,
    encodes (em_v2 em) cont n isRoot ap (cw_pos (em_w em)) (em_links em) out extra xs (em_links em') /\
    em_step em out (item_refs xs) em'.
Lemma emit_children_ok ap cs :
  Forall (fun c => forall ap em extra em', em_ready em ->
    emit_node c ap false em = (Ok extra, em') -> emitted_node c false ap em extra em') cs ->
  forall items em items' em', em_ready em ->
  emit_children ap cs items em = (Ok items', em') ->
  exists outs its xs, items' = items ++ its /\
    encodes_all (em_v2 em) cont ap cs (cw_pos (em_w em)) (em_links em) outs its xs (em_links em') /\
    em_step em outs (item_refs xs) em'.
Proof.
  induction 1 as [|c cs Hc _ IH]; intros items em items' em' Hr He; cbn [emit_children] in He.
  - injection He as <- <-. exists [], [], []. rewrite app_nil_r.
    split_and!; [done|constructor|by apply em_step_refl].
  - next He start em1. got Hstart. next He extra em1. next He p em2. got Hp.
    destruct (Hc _ _ _ _ Hr Hextra) as (out & xs & Henc & Hst).
    pose proof (em_step_pos _ _ _ _ Hst) as Hpos.
    apply IH in He as (outs & its & xs' & -> & Hall & Hst2); [|apply Hst].
    eexists (out ++ outs), (_ :: its), (xs ++ xs').
    split_and!; [by rewrite <- app_assoc| |rewrite item_refs_app; by eapply em_step_trans].
    rewrite (ems_v2 _ _ _ _ Hst), Hpos in Hall. rewrite Hpos.
    assert (u64 (u64 (cw_pos (em_w em) + zlen out) - cw_pos (em_w em) + extra) = u64 (zlen out + extra)) as ->.
    { rewrite <- u64_add_l, u64_sub_l, u64_add_l. f_equal. lia. }
    by eapply enc_cons.
Qed.

Lemma write_done_step r em extra em' :
  em_ready em -> (_ ← write (AppendRec [] r); mret 0) em = (Ok extra, em') ->
  extra = 0 /\ em_step em (frames [r]) [] em' /\ em_links em' = em_links em.
Proof.
  intros Hr He. next He u em1. injection He as <- <-.
  split; [done|]. by eapply write_rec_step.
Qed.

Lemma emit_goodbye_ok isRoot es items em extra em' :
  em_ready em -> emit_goodbye isRoot es items em = (Ok extra, em') ->
  extra = 0 /\ em_links em' = em_links em /\ exists goodbye,
  AppendGoodbye [] items (if isRoot then 0 else es) (cw_pos (em_w em)) = Some goodbye /\
  em_step em goodbye [] em'.
Proof.
  intros Hr He. unfold emit_goodbye in He. next He p em1. got Hp.
  destruct (AppendGoodbye _ _ _ _) as [goodbye|]; [|done].
  next He u em2. injection He as <- <-. apply write_step in Hu as [Hs Hl]; eauto.
Qed.

Lemma link_step n ap start em u em' :
  em_ready em ->
  (if decide (n_Kind n = KindFile) then
     if 1 <? st_Nlink (n_Stat n) then modify (add_link ap start) else mret () : M unit
   else mret () : M unit) em = (Ok u, em') ->
  em_step em [] [] em' /\ em_links em' = link_after n ap start (em_links em).
Proof.
  intros Hr He. unfold link_after.
  repeat case_match; injection He as _ <-; (split; [|done]);
    destruct (em_step_refl _ Hr); by split.
Qed.

Lemma emit_payload_ok n ap start pl em extra em' :
  em_ready em ->
  emit_payload n ap start (em_v2 em) pl em = (Ok extra, em') ->
  (em_v2 em = false -> forall p, pl = Some p -> is_i64 (pl_Size p) /\ 0 <= pl_Size p /\
   forall w ws w', cw_pos w = u64 (cw_pos w) -> pl_Copy p w = (Ok ws, w') ->
   exists content, zlen content = pl_Size p /\ wrote w content w' /\ cont n content) ->
  em_links em' = link_after n ap start (em_links em) /\
  ((em_v2 em = true /\ exists off, is_u64 off /\ is_u64 extra /\
     em_step em (frames [RPayloadRef off extra]) [(off, extra)] em') \/
   (em_v2 em = false /\ extra = 0 /\ exists content, is_i64 (zlen content) /\ cont n content /\
     em_step em (AppendPayloadHeader [] (zlen content) ++ content) [] em')).
Proof.
  intros Hr He Hpl. unfold emit_payload in He.
  next He x em1. next He u em2. injection He as <- <-.
  destruct (em_v2 em) eqn:Ev.
  - next Hx r em3. destruct r as [off size]. next Hx u' em4. injection Hx as <- <-.
    apply next_ref_step in Hr0 as (S1 & L1 & _ & Ho & Hs); [|done].
    apply (write_rec_step (RPayloadRef off size)) in Hu' as [S2 L2]; [|apply S1].
    apply link_step in Hu as [S3 L3]; [|apply S2]. rewrite L3, L2, L1. split; [done|].
    left. split; [done|]. exists off. split_and!; [done..|].
    pose proof (em_step_trans _ _ _ _ _ _ _ S1 (em_step_trans _ _ _ _ _ _ _ S2 S3)) as S4.
    by rewrite app_nil_r in S4.
  - destruct pl as [p|]; [|done]. destruct (Hpl eq_refl p eq_refl) as (Hi & H0' & Hc).
    next Hx u1 em3. next Hx u2 em4. injection Hx as <- <-.
    apply write_step in Hu1 as [S1 L1]; [|done].
    eapply copy_step in Hu2 as (content & Hl & Hn & S2 & L2); [|apply S1|exact Hc].
    apply link_step in Hu as [S3 L3]; [|apply S2]. rewrite L3, L2, L1. split; [done|].
    right. split_and!; [done..|]. exists content. rewrite Hl. split_and!; [done..|].
    pose proof (em_step_trans _ _ _ _ _ _ _ S1 (em_step_trans _ _ _ _ _ _ _ S2 S3)) as S4.
    rewrite app_nil_r, u64_small in S4 by (unfold is_u64, is_i64 in *; lia). done.
Qed.
Lemma emit_hardlink_ok n ap start em extra em' :
  em_ready em -> emit_hardlink n ap start em = (Ok extra, em') ->
  extra = 0 /\ em_links em' = em_links em /\ exists ts,
  em_links em !! n_LinkTarget n = Some ts /\
  em_step em (frames [RHardlink (u64 (start - ts)) (n_LinkTarget n)]) [] em'.
Proof.
  intros Hr He. unfold emit_hardlink in He. next He ln em1. got Hln.
  destruct (em_links em !! n_LinkTarget n) as [ts|] eqn:Et; [|done].
  apply (write_done_step (RHardlink _ _)) in He as (-> & S1 & L1); [|done]. eauto.
Qed.

(** What precedes the type-specific part of a node. *)
Lemma emit_prefix n (isRoot : bool) em u em1 pl em2 u' em3 :
  em_ready em -> good n ->
  (if isRoot then mret () : M unit else write (AppendFilename [] (n_Name n))) em = (Ok u, em1) ->
  (if negb (em_v2 em1) && is_payload (n_Kind n) then (pl ← open n; mret (Some pl))
   else mret None : M (option payload)) em1 = (Ok pl, em2) ->
  write (metadataBytes [] n) em2 = (Ok u', em3) ->
  em_step em (node_prefix n isRoot) [] em3 /\ em_links em3 = em_links em /\
  cw_pos (em_w em2) = u64 (cw_pos (em_w em) + zlen (frames (head_recs n isRoot))) /\
  (em_v2 em = false -> is_payload (n_Kind n) = true -> forall p, pl = Some p ->
   is_i64 (pl_Size p) /\ 0 <= pl_Size p /\
   forall w ws w', cw_pos w = u64 (cw_pos w) -> pl_Copy p w = (Ok ws, w') ->
   exists content, zlen content = pl_Size p /\ wrote w content w' /\ cont n content).
Proof.
  intros Hr Hg Hw Ho Hm. apply head_step in Hw as [S1 L1]; [|done].
  assert (em_step em1 [] [] em2 /\ em_links em2 = em_links em1 /\
    (negb (em_v2 em1) && is_payload (n_Kind n) = true -> forall p, pl = Some p ->
      is_i64 (pl_Size p) /\ 0 <= pl_Size p /\
      forall w ws w', cw_pos w = u64 (cw_pos w) -> pl_Copy p w = (Ok ws, w') ->
      exists content, zlen content = pl_Size p /\ wrote w content w' /\ cont n content)) as (S2 & L2 & Hc).
  { destruct (negb _ && _) eqn:En.
    { apply andb_true_iff in En as [_ Hk]. next Ho p em4. injection Ho as <- <-.
      apply open_step in Hp as (S2 & L2 & Hp); [|apply S1|done|done].
      split_and!; [done..|]. intros _ p' [= ->]. done. }
    { injection Ho as <- <-. split_and!; [by apply em_step_refl, S1|done|done]. } }
  apply write_step in Hm as [S3 L3]; [|apply S2].
  pose proof (em_step_trans _ _ _ _ _ _ _ S1 S2) as S12. rewrite app_nil_r in S12.
  split_and!; [|congruence|by eapply em_step_pos|].
  - rewrite node_prefix_eq. by eapply em_step_then.
  - intros Hv Hk. apply Hc. by rewrite (ems_v2 _ _ _ _ S1), Hv, Hk.
Qed.

Lemma emit_node_ok n : forall isRoot ap em extra em',
  tree_all good n -> em_ready em -> emit_node n ap isRoot em = (Ok extra, em') ->
  emitted_node n isRoot ap em extra em'.
Proof.
  induction n as [n IH] using node_ind'. intros isRoot ap em extra em' Hg Hr He.
  destruct Hg as [Hg Hgs].
  assert (Forall (fun c => forall ap em extra em', em_ready em ->
    emit_node c ap false em = (Ok extra, em') -> emitted_node c false ap em extra em')
    (n_Children n)) as Hcs.
  { rewrite Forall_forall in *. intros c Hin. intros. eapply IH; eauto. }
  clear IH Hgs. unfold emitted_node. rewrite emit_node_eq in He.
  next He start em0. got Hstart. next He u em1.
  case_decide as Hhl.
  { apply head_step in Hu as [S1 L1]; [|done].
    apply emit_hardlink_ok in He as (-> & L2 & ts & Hts & S2); [|apply S1].
    rewrite L1 in *. rewrite L2. do 2 eexists. split; [by apply enc_hardlink|].
    rewrite frames_app. by eapply em_step_then. }
  next He v2 em2. got Hv2. next He pl em2. next He es em3. got Hes. next He u' em3.
  destruct (emit_prefix _ _ _ _ _ _ _ _ _ Hr Hg Hu Hpl Hu') as (S1 & L1 & Ep & Hc).
  rewrite Ep in He. clear Hpl.
  assert (em_v2 em1 = em_v2 em3) as Ev.
  { apply head_step in Hu as [[_ _ -> _] _]; [|done]. by destruct S1. }
  rewrite Ev in He. pose proof (em_step_pos _ _ _ _ S1) as Epos.
  pose proof (ems_v2 _ _ _ _ S1) as Ev3.
  destruct (n_Kind n) eqn:Ek; try done.
  - next He items em4. apply emit_children_ok in Hitems as (outs & its & xs & Hit & Hall & S2);
      [|done|apply S1]. cbn [app] in Hit. subst its.
    apply emit_goodbye_ok in He as (-> & L3 & gb & Hgb & S3); [|apply S2].
    pose proof (em_step_trans _ _ _ _ _ _ _ S1 S2) as S12.
    rewrite (em_step_pos _ _ _ _ S12) in Hgb. rewrite Epos, L1, Ev3 in Hall.
    rewrite L3. do 2 eexists. split; [by eapply enc_dir|].
    rewrite app_assoc. change (item_refs (_ :: xs)) with (item_refs xs). rewrite <- (app_nil_r (item_refs xs)). by eapply em_step_trans.
  - apply emit_payload_ok in He as [L3 [(V & off & Ho & Hs & S3)|(V & -> & c & Hi & Hn & S3)]];
      [| |apply S1|intros V; apply Hc; [congruence|done]]; rewrite L3, L1; do 2 eexists.
    + split; [apply (enc_ref _ _ n isRoot ap _ _ off extra); [congruence|by rewrite Ek|done..]|by eapply em_step_then].
    + split; [apply enc_content; [congruence|by rewrite Ek|done..]|by eapply em_step_then].
  - apply (write_done_step (RSymlink _)) in He as (-> & S2 & L2); [|apply S1].
    rewrite L2, L1. do 2 eexists. split; [by apply enc_symlink|]. by eapply em_step_then.
  - apply (write_done_step (RDevice _)) in He as (-> & S2 & L2); [|apply S1].
    rewrite L2, L1. do 2 eexists. split; [apply enc_device; auto|]. by eapply em_step_then.
  - apply (write_done_step (RDevice _)) in He as (-> & S2 & L2); [|apply S1].
    rewrite L2, L1. do 2 eexists. split; [apply enc_device; auto|]. by eapply em_step_then.
  - injection He as <- <-. rewrite L1. do 2 eexists. split; [apply enc_plain; auto|]. done.
  - injection He as <- <-. rewrite L1. do 2 eexists. split; [apply enc_plain; auto|]. done.
  - apply emit_payload_ok in He as [L3 [(V & off & Ho & Hs & S3)|(V & -> & c & Hi & Hn & S3)]];
      [| |apply S1|intros V; apply Hc; [congruence|done]]; rewrite L3, L1; do 2 eexists.
    + split; [apply (enc_ref _ _ n isRoot ap _ _ off extra); [congruence|by rewrite Ek|done..]|by eapply em_step_then].
    + split; [apply enc_content; [congruence|by rewrite Ek|done..]|by eapply em_step_then].
Qed.
End walk.

(* ------------------------------------------------------------------ *)
(** ** Lemmas: a successful run *)

Section run.
Context {T : Type} `{PayloadSource T} `{SipHash}.
Context (I : T -> Prop) (good : node -> Prop) (cont : node -> bytes -> Prop).
Context (Hsrc : source_copies I good cont).

(** The records before the root in v2 mode. *)
Definition stream_head (v2 : bool) (prelude : option bytes) : bytes :=
  if v2 then
    frames (RFormatVersion 2 :: match prelude with Some p => [RPrelude p] | None => [] end)
  else [].

Lemma em_run_ok root em u em' :
  tree_all good root -> em_ready I em -> em_run root em = (Ok u, em') ->
  exists out extra xs ln,
    encodes (em_v2 em) cont root true []
      (u64 (cw_pos (em_w em) + zlen (stream_head (em_v2 em) (em_prelude em)))) ∅ out extra xs ln /\
    em_step I em (stream_head (em_v2 em) (em_prelude em) ++ out) (item_refs xs) em'.
Proof.
  intros Hg Hr He. unfold em_run in He.
  next He u1 em1. injection Hu1 as _ <-.
  next He v2 em2. got Hv2. next He pr em2. got Hpr. cbn [em_prelude] in He.
  set (em1 := mkEm _ _ _ _ _ _ _) in He.
  assert (em_ready I em1) as Hr1 by done.
  change (em_v2 em1) with (em_v2 em) in He.
  next He u2 em2.
  assert (em_step I em1 (stream_head (em_v2 em) (em_prelude em)) [] em2 /\ em_links em2 = ∅) as [S1 L1].
  { unfold stream_head. destruct (em_v2 em).
    - next Hu2 u3 em3. apply (write_rec_step I (RFormatVersion 2)) in Hu3 as [S1 L1]; [|done].
      change (RFormatVersion 2 :: ?l) with ([RFormatVersion 2] ++ l). rewrite frames_app.
      destruct (em_prelude em) as [p|].
      + apply (write_rec_step I (RPrelude p)) in Hu2 as [S2 L2]; [|apply S1].
        split; [by eapply em_step_then|by rewrite L2, L1].
      + injection Hu2 as _ <-. by rewrite app_nil_r.
    - injection Hu2 as _ <-. split; [by apply em_step_refl|done]. }
  next He extra em3. injection He as _ <-.
  eapply emit_node_ok in Hextra as (out & xs & Henc & S2); [|exact Hsrc|done|apply S1].
  rewrite (ems_v2 _ _ _ _ _ S1), (em_step_pos _ _ _ _ _ S1), L1 in Henc.
  exists out, extra, xs, (em_links em3). split; [exact Henc|].
  destruct (em_step_trans _ _ _ _ _ _ _ _ S1 S2). by split.
Qed.
End run.

(* ------------------------------------------------------------------ *)
(** ** Lemmas: estimates *)

(** Fewer entries than address space. *)
Definition fits (n : node) : Prop := zlen (n_Children n) < 2 ^ 61.

Lemma zlen_frames rs : zlen (frames rs) = foldr (fun r s => SizeRec r + s) 0 rs.
Proof.
  induction rs as [|r rs IH]; [done|]. rewrite frames_cons, length_app. cbn [foldr].
  rewrite <- IH, SizeRec_body. rewrite length_frame. unfold HeaderSize. lia.
Qed.
Lemma zlen_frame_rec r : zlen (frames [r]) = SizeRec r.
Proof. rewrite zlen_frames. cbn. lia. Qed.

Lemma u64_step a b a' b' : u64 a = u64 a' -> u64 b = u64 b' -> u64 (a + b) = u64 (a' + b').
Proof. intros. rewrite <- u64_add_l, <- u64_add_r. rewrite H, H0. by rewrite u64_add_l, u64_add_r. Qed.

Lemma foldl_u64 {A} (f : A -> Z) (g : A -> Rec) l s :
  (forall x, f x = SizeRec (g x)) ->
  u64 (foldl (fun s x => u64 (s + f x)) s l) = u64 (s + zlen (frames (g <$> l))).
Proof.
  intros Hf. revert s. induction l as [|x l IH]; intros s; cbn [foldl]; [f_equal; cbn; lia|].
  rewrite IH, fmap_cons, frames_cons, length_app, u64_add_l, Hf, SizeRec_body, length_frame.
  unfold HeaderSize. f_equal. lia.
Qed.

Lemma frames_fmap_const {A} (g : A -> Rec) k l :
  (forall x, SizeRec (g x) = k) -> zlen (frames (g <$> l)) = zlen l * k.
Proof.
  intros Hk. induction l as [|x l IH]; [done|].
  rewrite fmap_cons, frames_cons, length_app, Nat2Z.inj_add, IH. cbn [length].
  pose proof (SizeRec_body (g x)). rewrite Hk in H. rewrite length_frame. unfold HeaderSize in *. lia.
Qed.

Lemma sizeACL_recs acl : sizeACL acl = zlen (frames (acl_recs acl)).
Proof.
  unfold sizeACL, acl_recs. rewrite !frames_app, !length_app, !Nat2Z.inj_add.
  rewrite (frames_fmap_const RACLUser ACLUserSize), (frames_fmap_const RACLGroup ACLGroupSize),
    (frames_fmap_const RACLDefaultUser ACLUserSize), (frames_fmap_const RACLDefaultGroup ACLGroupSize) by done.
  assert (zlen (frames match GroupObj acl with Some p => [RACLGroupObj p] | None => [] end) =
    if GroupObj acl is Some _ then ACLGroupObjSize else 0) as ->
    by (destruct (GroupObj acl); [apply zlen_frame_rec|done]).
  assert (zlen (frames match Default acl with Some p => [RACLDefault p] | None => [] end) =
    if Default acl is Some _ then ACLDefaultSize else 0) as ->
    by (destruct (Default acl); [apply zlen_frame_rec|done]).
  lia.
Qed.

Lemma sizeMetadata_bytes n : u64 (sizeMetadata n) = u64 (zlen (metadataBytes [] n)).
Proof.
  rewrite metadataBytes_recs. unfold sizeMetadata, extra_recs. cbv zeta. cbn [app].
  rewrite frames_cons, !frames_app, !length_app, !Nat2Z.inj_add.
  assert (zlen (frame (rec_type (REntry (metaEntry n))) (rec_body (REntry (metaEntry n)))) = EntrySize) as ->
    by (rewrite length_frame; cbn [rec_body]; unfold entry_body; by autorewrite with gopbs).
  set (s0 := foldl _ _ _).
  assert (u64 s0 = u64 (EntrySize + zlen (frames ((fun x => RXAttr (xa_Name x) (xa_Value x)) <$> n_Xattrs n)))) as H0
    by (subst s0; by apply (foldl_u64 (fun x => SizeXAttr (xa_Name x) (xa_Value x)))).
  set (s1 := match n_ACL n with Some _ => _ | None => s0 end).
  assert (u64 s1 = u64 (s0 + zlen (frames match n_ACL n with Some acl => acl_recs acl | None => [] end))) as H1.
  { subst s1. destruct (n_ACL n); [by rewrite u64_u64, sizeACL_recs|f_equal; cbn; lia]. }
  set (s2 := if 0 <? zlen (n_FCaps n) then _ else s1).
  assert (u64 s2 = u64 (s1 + zlen (frames (if 0 <? zlen (n_FCaps n) then [RFCaps (n_FCaps n)] else [])))) as H2.
  { subst s2. destruct (0 <? zlen (n_FCaps n)); [|f_equal; cbn; lia]. rewrite u64_u64. by rewrite (zlen_frame_rec (RFCaps _)). }
  assert (forall s, u64 (if negb (n_QuotaProjID n =? 0) then u64 (s + QuotaProjIDSize) else s) =
    u64 (s + zlen (frames (if negb (n_QuotaProjID n =? 0) then [RQuotaProjID (n_QuotaProjID n)] else [])))) as ->.
  { intros s. destruct (negb _); [|f_equal; cbn; lia]. rewrite u64_u64. by rewrite (zlen_frame_rec (RQuotaProjID (n_QuotaProjID n))). }
  rewrite !Z.add_assoc in *.
  eapply u64_step; [|done]. rewrite H2. eapply u64_step; [|done]. rewrite H1. by eapply u64_step.
Qed.

Lemma node_prefix_size n (isRoot : bool) :
  u64 (zlen (node_prefix n isRoot)) =
  u64 ((if isRoot then 0 else SizeFilename (n_Name n)) + sizeMetadata n).
Proof.
  rewrite node_prefix_eq, length_app, Nat2Z.inj_add. apply u64_step.
  - destruct isRoot; [done|]. f_equal. apply zlen_frame_rec.
  - symmetry. apply sizeMetadata_bytes.
Qed.

Lemma AppendGoodbye_size items ds gs gb :
  zlen items < 2 ^ 61 -> AppendGoodbye [] items ds gs = Some gb -> zlen gb = SizeGoodbye (zlen items).
Proof.
  intros Hl Hg. destruct (AppendGoodbye_spec [] items ds gs Hl) as (tree & Hp & E).
  rewrite E in Hg. simplify_eq. rewrite <- Hp. unfold SizeGoodbye, HeaderSize.
  cbn [app]. rewrite length_frame, !length_app, !length_le64, length_items_bytes. lia.
Qed.

Lemma estimateV1_eq n isRoot : estimateV1 n isRoot =
  let s := if isRoot then 0 else SizeFilename (n_Name n) in
  if decide (n_Kind n = KindHardlink) then u64 (s + SizeHardlink (n_LinkTarget n)) else
  let s := u64 (s + sizeMetadata n) in
  match n_Kind n with
  | KindDirectory =>
      u64 (foldl (fun s child => u64 (s + estimateV1 child false)) s (n_Children n) +
           SizeGoodbye (zlen (n_Children n)))
  | KindFile | KindStream => u64 (s + SizePayload (u64 (st_Size (n_Stat n))))
  | KindSymlink => u64 (s + SizeSymlink (n_LinkTarget n))
  | KindBlockDevice | KindCharDevice => u64 (s + DeviceSize)
  | _ => s
  end.
Proof. by destruct n. Qed.

Lemma estimateV2_eq n isRoot : estimateV2 n isRoot =
  let meta := if isRoot then FormatVersionSize else SizeFilename (n_Name n) in
  let payload := if isRoot then 2 * MarkerSize else 0 in
  if decide (n_Kind n = KindHardlink)
  then (u64 (meta + SizeHardlink (n_LinkTarget n)), payload) else
  let meta := u64 (meta + sizeMetadata n) in
  match n_Kind n with
  | KindDirectory =>
      let '(meta, payload) :=
        foldl (fun '(meta, payload) child =>
                 let '(m, p) := estimateV2 child false in (u64 (meta + m), u64 (payload + p)))
          (meta, payload) (n_Children n) in
      (u64 (meta + SizeGoodbye (zlen (n_Children n))), payload)
  | KindFile | KindStream =>
      (u64 (meta + PayloadRefSize), u64 (payload + SizePayload (u64 (st_Size (n_Stat n)))))
  | KindSymlink => (u64 (meta + SizeSymlink (n_LinkTarget n)), payload)
  | KindBlockDevice | KindCharDevice => (u64 (meta + DeviceSize), payload)
  | _ => (meta, payload)
  end.
Proof. by destruct n. Qed.

(** The two components of the children loop of [estimateV2]. *)
Lemma estimateV2_children cs m p :
  foldl (fun '(meta, payload) child =>
           let '(m, p) := estimateV2 child false in (u64 (meta + m), u64 (payload + p))) (m, p) cs =
  (foldl (fun s child => u64 (s + (estimateV2 child false).1)) m cs,
   foldl (fun s child => u64 (s + (estimateV2 child false).2)) p cs).
Proof.
  revert m p. induction cs as [|c cs IH]; intros m p; [done|]. cbn [foldl].
  by destruct (estimateV2 c false); rewrite IH.
Qed.

(** The metadata estimate of either format, as one function of [v2]. *)
Definition estimate_meta (v2 : bool) (n : node) (isRoot : bool) : Z :=
  if v2 then (estimateV2 n isRoot).1 else estimateV1 n isRoot.

Definition root_extra (v2 isRoot : bool) : Z :=
  if v2 then if isRoot then FormatVersionSize else 0 else 0.

Lemma estimate_meta_eq v2 n isRoot : exists s,
  u64 s = u64 (root_extra v2 isRoot + zlen (node_prefix n isRoot)) /\
  estimate_meta v2 n isRoot =
  if decide (n_Kind n = KindHardlink) then
    u64 (root_extra v2 isRoot + zlen (frames (head_recs n isRoot)) + SizeHardlink (n_LinkTarget n))
  else
  match n_Kind n with
  | KindDirectory =>
      u64 (foldl (fun s child => u64 (s + estimate_meta v2 child false)) s (n_Children n) +
           SizeGoodbye (zlen (n_Children n)))
  | KindFile | KindStream =>
      u64 (s + if v2 then PayloadRefSize else SizePayload (u64 (st_Size (n_Stat n))))
  | KindSymlink => u64 (s + SizeSymlink (n_LinkTarget n))
  | KindBlockDevice | KindCharDevice => u64 (s + DeviceSize)
  | _ => s
  end.
Proof.
  assert (zlen (frames (head_recs n isRoot)) = if isRoot then 0 else SizeFilename (n_Name n)) as Hh
    by (destruct isRoot; [done|apply (zlen_frame_rec (RFilename _))]).
  unfold estimate_meta, root_extra. destruct v2.
  - exists (u64 ((if isRoot then FormatVersionSize else SizeFilename (n_Name n)) + sizeMetadata n)).
    split.
    + rewrite u64_u64, <- (u64_add_r _ (zlen _)), node_prefix_size, u64_add_r.
      f_equal. destruct isRoot; lia.
    + rewrite estimateV2_eq. cbv zeta. rewrite Hh.
      case_decide; [cbn [fst]; f_equal; destruct isRoot; lia|].
      destruct (n_Kind n); try done. by rewrite estimateV2_children.
  - exists (u64 ((if isRoot then 0 else SizeFilename (n_Name n)) + sizeMetadata n)).
    split; [by rewrite u64_u64, Z.add_0_l, node_prefix_size|].
    rewrite estimateV1_eq. cbv zeta. rewrite Hh. case_decide; [f_equal; lia|].
    by destruct (n_Kind n).
Qed.

Section estimates.
Context `{SipHash} (v2 : bool) (cont : node -> bytes -> Prop).
Context (Hcont : forall n c, cont n c -> zlen c = st_Size (n_Stat n)).

Lemma encodes_estimate :
  (forall n isRoot ap pos ln out extra xs ln',
     encodes v2 cont n isRoot ap pos ln out extra xs ln' -> tree_all fits n ->
     u64 (root_extra v2 isRoot + zlen out) = u64 (estimate_meta v2 n isRoot)) /\
  (forall ap cs pos ln outs items xs ln',
     encodes_all v2 cont ap cs pos ln outs items xs ln' -> Forall (tree_all fits) cs ->
     length items = length cs /\
     forall s, u64 (s + zlen outs) = u64 (foldl (fun s c => u64 (s + estimate_meta v2 c false)) s cs)).
Proof.
  apply encodes_mutind.
  - intros n isRoot ap pos ln ts Hk _ _.
    destruct (estimate_meta_eq v2 n isRoot) as (s & _ & ->). rewrite decide_True by done.
    rewrite u64_u64, frames_app, length_app, Nat2Z.inj_add, (zlen_frame_rec (RHardlink _ _)).
    f_equal. cbn [SizeRec]. lia.
  - intros n isRoot ap pos ln outs items xs ln' gb Hk _ IH Hgb [Hf Hcs].
    destruct (estimate_meta_eq v2 n isRoot) as (s & Hs & ->).
    destruct (IH Hcs) as [Hl Hsum]. unfold fits in Hf.
    apply AppendGoodbye_size in Hgb; [|by rewrite Hl].
    rewrite decide_False, Hk by congruence. rewrite u64_u64, !length_app, !Nat2Z.inj_add, Hgb, Hl.
    rewrite !Z.add_assoc. apply u64_step; [|done]. rewrite <- Hsum. by apply u64_step.
  - intros n isRoot ap pos ln c Hv Hk Hi Hc _.
    destruct (estimate_meta_eq v2 n isRoot) as (s & Hs & ->).
    rewrite !length_app, !Nat2Z.inj_add, length_payload_header, Hv.
    rewrite decide_False by (intros E; by rewrite E in Hk). rewrite <- (Hcont _ _ Hc).
    destruct (n_Kind n); try done; rewrite u64_u64; rewrite Hv in Hs;
      rewrite Z.add_assoc; (apply u64_step; [done|]); unfold SizePayload, HeaderSize;
      by rewrite u64_u64, u64_add_r.
  - intros n isRoot ap pos ln off size Hv Hk _ _ _.
    destruct (estimate_meta_eq v2 n isRoot) as (s & Hs & ->).
    rewrite !length_app, !Nat2Z.inj_add, (zlen_frame_rec (RPayloadRef _ _)), Hv.
    rewrite decide_False by (intros E; by rewrite E in Hk). rewrite Hv in Hs.
    destruct (n_Kind n); try done; rewrite u64_u64, Z.add_assoc; by apply u64_step.
  - intros n isRoot ap pos ln Hk _.
    destruct (estimate_meta_eq v2 n isRoot) as (s & Hs & ->). rewrite decide_False, Hk by congruence.
    rewrite !length_app, !Nat2Z.inj_add, (zlen_frame_rec (RSymlink _)), u64_u64, Z.add_assoc.
    by apply u64_step.
  - intros n isRoot ap pos ln Hk _.
    destruct (estimate_meta_eq v2 n isRoot) as (s & Hs & ->). rewrite decide_False by (intros ?; destruct Hk; congruence).
    rewrite !length_app, !Nat2Z.inj_add, (zlen_frame_rec (RDevice _)), Z.add_assoc.
    destruct Hk as [-> | ->]; rewrite u64_u64; by apply u64_step.
  - intros n isRoot ap pos ln Hk _.
    destruct (estimate_meta_eq v2 n isRoot) as (s & Hs & ->). rewrite decide_False by (intros ?; destruct Hk; congruence).
    rewrite <- Hs. by destruct Hk as [-> | ->].
  - intros ap pos ln _. split; [done|]. intros s. cbn. f_equal. lia.
  - intros ap c cs pos ln out extra xs ln1 outs items xs' ln2 _ IH1 _ IH2 Hf.
    apply Forall_cons in Hf as [Hc Hcs]. destruct (IH2 Hcs) as [Hl Hsum].
    split; [cbn; lia|]. intros s. cbn [foldl]. rewrite <- Hsum.
    rewrite length_app, Nat2Z.inj_add, Z.add_assoc, u64_add_l. apply u64_step; [|done].
    apply u64_step; [done|]. rewrite <- IH1 by done. unfold root_extra.
    destruct v2; f_equal; lia.
Qed.
End estimates.

(* ------------------------------------------------------------------ *)
(** ** Lemmas: where things are in the stream *)

(** The nodes of a tree with their archive paths, in archive order. *)
Fixpoint flatten (n : node) (ap : bytes) : list (bytes * node) :=
  (ap, n) ::
  match n_Kind n with
  | KindDirectory => n_Children n ≫= fun c => flatten c (joinArchive ap (n_Name c))
  | _ => []
  end.

(** [it] starts at its position in a stream [out] that began at [pos]. *)
Definition located (pos : Z) (out : bytes) (it : item) : Prop :=
  exists pre post isRoot,
    out = pre ++ frames (head_recs (it_node it) isRoot) ++ post /\ it_pos it = u64 (pos + zlen pre).

(** [l] came from a linkable file among [xs]. *)
Definition link_from (xs : list item) (p : bytes) (pos : Z) : Prop :=
  exists t, t ∈ xs /\ it_path t = p /\ n_Kind (it_node t) = KindFile /\
    1 < st_Nlink (n_Stat (it_node t)) /\ it_pos t = pos.

(** Every hardlink of [xs] points back to a file of [seen] or an earlier one. *)
Fixpoint links_back (seen : list item) (xs : list item) : Prop :=
  match xs with
  | [] => True
  | x :: xs =>
      (forall off, it_data x = DLink off ->
         exists ts, link_from seen (n_LinkTarget (it_node x)) ts /\ off = u64 (it_pos x - ts)) /\
      links_back (seen ++ [x]) xs
  end.

Lemma links_back_app seen xs ys :
  links_back seen (xs ++ ys) <-> links_back seen xs /\ links_back (seen ++ xs) ys.
Proof.
  revert seen. induction xs as [|x xs IH]; intros seen; cbn [links_back app].
  - rewrite app_nil_r. tauto.
  - rewrite IH, <- app_assoc. cbn [app]. tauto.
Qed.

Lemma link_from_app xs ys p pos : link_from xs p pos -> link_from (xs ++ ys) p pos.
Proof. intros (t & Hin & Ht). exists t. split; [set_solver|done]. Qed.

Lemma located_app_l pos out out2 it : located pos out it -> located pos (out ++ out2) it.
Proof.
  intros (pre & post & r & -> & Hp). exists pre, (post ++ out2), r. by rewrite <- !app_assoc.
Qed.
Lemma located_app_r pos out out2 it :
  located (u64 (pos + zlen out)) out2 it -> located pos (out ++ out2) it.
Proof.
  intros (pre & post & r & -> & Hp). exists (out ++ pre), post, r.
  rewrite <- app_assoc. split; [done|]. rewrite Hp, u64_add_l, length_app. f_equal. lia.
Qed.

Lemma link_after_from n ap pos ln d p ts seen :
  (forall p ts, ln !! p = Some ts -> link_from seen p ts) ->
  link_after n ap pos ln !! p = Some ts -> link_from (seen ++ [mkItem pos ap n d]) p ts.
Proof.
  intros Hs Hl. unfold link_after in Hl.
  case_decide as Hk; [|by apply link_from_app, Hs].
  destruct (Z.ltb_spec 1 (st_Nlink (n_Stat n))); [|by apply link_from_app, Hs].
  apply lookup_insert_Some in Hl as [[<- <-]|[_ Hl]]; [|by apply link_from_app, Hs].
  exists (mkItem pos ap n d). split_and!; try done. set_solver.
Qed.

Lemma flatten_eq n ap : flatten n ap = (ap, n) ::
  match n_Kind n with
  | KindDirectory => n_Children n ≫= fun c => flatten c (joinArchive ap (n_Name c))
  | _ => []
  end.
Proof. by destruct n. Qed.

Section layout.
Context `{SipHash} (v2 : bool) (cont : node -> bytes -> Prop).

Lemma located_head n isRoot ap pos d rest :
  is_u64 pos ->
  located pos (frames (head_recs n isRoot) ++ rest) (mkItem pos ap n d).
Proof.
  intros Hp. exists [], rest, isRoot. split; [done|]. cbn. by rewrite Z.add_0_r, u64_small.
Qed.

Lemma node_prefix_app n isRoot rest :
  node_prefix n isRoot ++ rest = frames (head_recs n isRoot) ++ metadataBytes [] n ++ rest.
Proof. by rewrite node_prefix_eq, <- app_assoc. Qed.

Lemma encodes_layout :
  (forall n isRoot ap pos ln out extra xs ln',
     encodes v2 cont n isRoot ap pos ln out extra xs ln' -> is_u64 pos ->
     (fun it => (it_path it, it_node it)) <$> xs = flatten n ap /\
     Forall (located pos out) xs /\
     forall seen, (forall p ts, ln !! p = Some ts -> link_from seen p ts) ->
       links_back seen xs /\ (forall p ts, ln' !! p = Some ts -> link_from (seen ++ xs) p ts)) /\
  (forall ap cs pos ln outs items xs ln',
     encodes_all v2 cont ap cs pos ln outs items xs ln' -> is_u64 pos ->
     (fun it => (it_path it, it_node it)) <$> xs =
       (cs ≫= fun c => flatten c (joinArchive ap (n_Name c))) /\
     Forall (located pos outs) xs /\
     forall seen, (forall p ts, ln !! p = Some ts -> link_from seen p ts) ->
       links_back seen xs /\ (forall p ts, ln' !! p = Some ts -> link_from (seen ++ xs) p ts)).
Proof.
  apply encodes_mutind.
  - intros n isRoot ap pos ln ts Hk Hts Hp. rewrite flatten_eq, Hk. split_and!; [done| |].
    + constructor; [|constructor]. rewrite frames_app. by apply located_head.
    + intros seen Hs. split; [|intros; by apply link_from_app, Hs]. split; [|done].
      cbn. intros off [= <-]. eauto.
  - intros n isRoot ap pos ln outs items xs ln' gb Hk _ IH Hgb Hp.
    destruct (IH (u64_range _)) as (Hx & Hloc & Hl). rewrite flatten_eq, Hk.
    split_and!; [cbn; by f_equal| |].
    + constructor; [rewrite node_prefix_app; by apply located_head|].
      eapply Forall_impl; [exact Hloc|]. intros it Hit.
      by apply located_app_r, located_app_l.
    + intros seen Hs. destruct (Hl (seen ++ [mkItem pos ap n DNone])) as [H1 H2].
      { intros. by apply link_from_app, Hs. }
      split; [by split|]. by rewrite <- app_assoc in H2.
  - intros n isRoot ap pos ln c Hv Hk _ _ Hp. rewrite flatten_eq.
    split_and!; [by destruct (n_Kind n)| |].
    + constructor; [|done]. rewrite node_prefix_app. by apply located_head.
    + intros seen Hs. split; [by split|]. intros. by eapply link_after_from.
  - intros n isRoot ap pos ln off size Hv Hk _ _ Hp. rewrite flatten_eq.
    split_and!; [by destruct (n_Kind n)| |].
    + constructor; [|done]. rewrite node_prefix_app. by apply located_head.
    + intros seen Hs. split; [by split|]. intros. by eapply link_after_from.
  - intros n isRoot ap pos ln Hk Hp. rewrite flatten_eq, Hk. split_and!; [done| |].
    + constructor; [|done]. rewrite node_prefix_app. by apply located_head.
    + intros seen Hs. split; [by split|]. intros. by apply link_from_app, Hs.
  - intros n isRoot ap pos ln Hk Hp. rewrite flatten_eq.
    split_and!; [by destruct Hk as [-> | ->]| |].
    + constructor; [|done]. rewrite node_prefix_app. by apply located_head.
    + intros seen Hs. split; [by split|]. intros. by apply link_from_app, Hs.
  - intros n isRoot ap pos ln Hk Hp. rewrite flatten_eq.
    split_and!; [by destruct Hk as [-> | ->]| |].
    + constructor; [|done]. rewrite <- (app_nil_r (node_prefix _ _)), node_prefix_app.
      by apply located_head.
    + intros seen Hs. split; [by split|]. intros. by apply link_from_app, Hs.
  - intros ap pos ln Hp. split_and!; [done|constructor|]. intros seen Hs.
    split; [done|]. rewrite app_nil_r. exact Hs.
  - intros ap c cs pos ln out extra xs ln1 outs items xs' ln2 _ IH1 _ IH2 Hp.
    destruct (IH1 Hp) as (Hx1 & Hloc1 & Hl1). destruct (IH2 (u64_range _)) as (Hx2 & Hloc2 & Hl2).
    split_and!.
    + rewrite fmap_app, Hx1, Hx2. done.
    + apply Forall_app. split; (eapply Forall_impl; [eassumption|]); intros it Hit;
        [by apply located_app_l|by apply located_app_r].
    + intros seen Hs. destruct (Hl1 seen Hs) as [H1 H2]. destruct (Hl2 _ H2) as [H3 H4].
      split; [by apply links_back_app|]. by rewrite <- app_assoc in H4.
Qed.
End layout.

(* ------------------------------------------------------------------ *)
(** ** Lemmas: a walk that cannot fail *)

(** The hardlink targets a walk has seen; [None] when one is missing. *)
Fixpoint link_walk (n : node) (ap : bytes) (seen : gset bytes) {struct n} : option (gset bytes) :=
  match n_Kind n with
  | KindHardlink => if decide (n_LinkTarget n ∈ seen) then Some seen else None
  | KindDirectory =>
      (fix all (cs : list node) (seen : gset bytes) : option (gset bytes) :=
         match cs with
         | [] => Some seen
         | c :: cs => seen ← link_walk c (joinArchive ap (n_Name c)) seen; all cs seen
         end) (n_Children n) seen
  | KindFile => Some (if 1 <? st_Nlink (n_Stat n) then {[ap]} ∪ seen else seen)
  | _ => Some seen
  end.

Definition link_walks (ap : bytes) : list node -> gset bytes -> option (gset bytes) :=
  fix all cs seen :=
    match cs with
    | [] => Some seen
    | c :: cs => seen ← link_walk c (joinArchive ap (n_Name c)) seen; all cs seen
    end.

Lemma link_walk_eq n ap seen : link_walk n ap seen =
  match n_Kind n with
  | KindHardlink => if decide (n_LinkTarget n ∈ seen) then Some seen else None
  | KindDirectory => link_walks ap (n_Children n) seen
  | KindFile => Some (if 1 <? st_Nlink (n_Stat n) then {[ap]} ∪ seen else seen)
  | _ => Some seen
  end.
Proof. by destruct n. Qed.

Section total.
Context {T : Type} `{PayloadSource T} `{SipHash}.
Context (I : T -> Prop) (good : node -> Prop).
Context (Hsrc : source_live I good).

Definition em_live (em : emitter T) : Prop :=
  cw_live (em_w em) /\ I (em_src em) /\ em_refs em = None.

(** [m] run from [em] succeeds exactly when [walk] does. *)
Definition decided {A} (m : M (S := T) A) (em : emitter T) (walk : option (gset bytes)) : Prop :=
  match walk with
  | Some seen => exists a em', m em = (Ok a, em') /\ em_live em' /\ dom (em_links em') = seen
  | None => exists ap t em', m em = (Err (ErrHardlinkTarget ap t), em')
  end.

Lemma decided_bind {A B} (m : M (S := T) A) (f : A -> M (S := T) B) em w :
  decided m em (Some (dom (em_links em))) ->
  (forall a em', m em = (Ok a, em') -> em_live em' -> dom (em_links em') = dom (em_links em) ->
    decided (f a) em' w) ->
  decided (m ≫= f) em w.
Proof.
  intros (a & em' & Hm & Hl & Hd) Hf. specialize (Hf _ _ Hm Hl Hd).
  unfold decided, mbind, M_bind in *. by rewrite Hm.
Qed.

Lemma decided_ret {A} (a : A) em : em_live em -> decided (mret a) em (Some (dom (em_links em))).
Proof. intros Hl. by exists a, em. Qed.
Lemma decided_gets {A} (f : emitter T -> A) em :
  em_live em -> decided (gets f) em (Some (dom (em_links em))).
Proof. intros Hl. by exists (f em), em. Qed.
Lemma decided_write p em : em_live em -> decided (write p) em (Some (dom (em_links em))).
Proof.
  intros (Hw & Hi & Hr). destruct (cw_write_live p _ Hw) as (w' & E & Hl).
  exists (), (set_w w' em). unfold write. by rewrite E.
Qed.
Lemma decided_write_ret {A} p (a : A) em :
  em_live em -> decided (_ ← write p; mret a) em (Some (dom (em_links em))).
Proof.
  intros Hl. apply decided_bind; [by apply decided_write|]. intros ? em' _ Hl' <-.
  by apply decided_ret.
Qed.

Lemma decided_payload n ap start em p :
  em_live em -> (forall w, cw_live w -> exists ws w', pl_Copy p w = (Ok ws, w') /\ cw_live w') ->
  is_payload (n_Kind n) = true ->
  decided (emit_payload n ap start false (Some p)) em (link_walk n ap (dom (em_links em))).
Proof.
  intros Hl Hp Hk. unfold emit_payload. apply decided_bind.
  { apply decided_bind; [by apply decided_write|]. intros ? em1 _ Hl1 <-.
    apply decided_bind; [|intros ? em2 _ Hl2 <-; by apply decided_ret].
    destruct Hl1 as (Hw & Hi & Hr). destruct (Hp _ Hw) as (ws & w' & E & Hl2).
    exists (), (add_warns ws (set_w w' em1)). unfold copy. by rewrite E. }
  intros x em1 _ Hl1 <-. rewrite link_walk_eq.
  destruct (n_Kind n); try done; cbn [decide].
  - destruct (1 <? st_Nlink (n_Stat n)); [|by exists x, em1].
    eexists x, _. split; [done|]. split; [done|]. cbn. by rewrite dom_insert_L.
  - by exists x, em1.
Qed.

Lemma emit_children_cons ap c cs items (em : emitter T) :
  emit_children ap (c :: cs) items em =
  match emit_node c (joinArchive ap (n_Name c)) false em with
  | (Ok x, em1) =>
      emit_children ap cs (items ++ [mkGoodbyeItem (Hash (n_Name c)) (cw_pos (em_w em))
        (u64 (cw_pos (em_w em1) - cw_pos (em_w em) + x))]) em1
  | (Err e, em1) => (Err e, em1)
  end.
Proof.
  cbn [emit_children]. unfold mbind, M_bind, gets.
  by destruct (emit_node c _ false em) as [[x|e] em1].
Qed.

Lemma decided_children ap cs :
  Forall (fun c => forall ap em, em_live em ->
    decided (emit_node c ap false) em (link_walk c ap (dom (em_links em)))) cs ->
  forall items em, em_live em ->
  (exists seen, link_walks ap cs (dom (em_links em)) = Some seen /\
    exists its em', emit_children ap cs items em = (Ok (items ++ its), em') /\
      length its = length cs /\ em_live em' /\ dom (em_links em') = seen) \/
  (link_walks ap cs (dom (em_links em)) = None /\
   exists q t em', emit_children ap cs items em = (Err (ErrHardlinkTarget q t), em')).
Proof.
  induction 1 as [|c cs Hc _ IH]; intros items em Hl.
  { left. eexists. split; [done|]. exists [], em. by rewrite app_nil_r. }
  rewrite emit_children_cons. cbn [link_walks].
  specialize (Hc (joinArchive ap (n_Name c)) em Hl). unfold decided in Hc.
  destruct (link_walk c _ _) as [seen|]; cbn [mbind option_bind].
  - destruct Hc as (x & em1 & -> & Hl1 & <-).
    destruct (IH (items ++ [mkGoodbyeItem (Hash (n_Name c)) (cw_pos (em_w em))
      (u64 (cw_pos (em_w em1) - cw_pos (em_w em) + x))]) em1 Hl1)
      as [(seen' & Hs & its & em' & E' & Hn & Hl' & Hd)|(Hs & q & t & em' & E')].
    + left. exists seen'. split; [done|]. eexists (_ :: its), em'.
      rewrite <- app_assoc in E'. split; [exact E'|]. split; [cbn; lia|done].
    + right. split; [done|]. eauto.
  - right. split; [done|]. destruct Hc as (q & t & em1 & ->). eauto.
Qed.

Lemma decided_node n : forall (isRoot : bool) ap em,
  tree_all good n -> tree_all fits n -> em_live em ->
  decided (emit_node n ap isRoot) em (link_walk n ap (dom (em_links em))).
Proof.
  induction n as [n IH] using node_ind'. intros isRoot ap em [Hg Hgs] [Hf Hfs] Hl.
  assert (Forall (fun c => forall ap em, em_live em ->
    decided (emit_node c ap false) em (link_walk c ap (dom (em_links em)))) (n_Children n)) as Hcs.
  { rewrite Forall_forall in *. intros c Hin ap' em' Hl'. apply IH; auto. }
  clear IH Hgs Hfs. rewrite emit_node_eq.
  apply decided_bind; [by apply decided_gets|]. intros start em1 _ Hl1 <-.
  apply decided_bind; [destruct isRoot; [by apply decided_ret|by apply decided_write]|].
  intros u em2 _ Hl2 <-. rewrite link_walk_eq. case_decide as Hk.
  { rewrite Hk. unfold emit_hardlink.
    case_decide as Ht.
    - apply elem_of_dom in Ht as [ts Ht]. apply decided_bind; [by apply decided_gets|].
      intros ln em3 E Hl3 <-. unfold gets in E. simplify_eq. rewrite Ht. by apply decided_write_ret.
    - apply not_elem_of_dom in Ht. unfold decided, mbind, M_bind, gets, fail. rewrite Ht. eauto. }
  apply decided_bind; [by apply decided_gets|]. intros v2 em3 E Hl3 <-.
  unfold gets in E. simplify_eq.
  assert (em_v2 em3 = false) as Ev by (unfold em_v2; by destruct Hl3 as (_ & _ & ->)). rewrite Ev.
  destruct (is_payload (n_Kind n)) eqn:Ep; cbn [negb andb].
  - destruct Hl3 as (Hw & Hi & Hr). destruct (Hsrc n _ Hi Hg Ep) as (p & s' & Eo & Hi' & Hc).
    apply decided_bind.
    { apply decided_bind; [|intros ? em4 _ Hl4 <-; by apply decided_ret].
      exists p, (set_src s' em3). unfold open. by rewrite Eo. }
    intros pl em4 E Hl4 <-.
    assert (pl = Some p) as -> by (unfold mbind, M_bind, open, mret, M_ret in E; rewrite Eo in E; by simplify_eq).
    apply decided_bind; [by apply decided_gets|]. intros es em5 _ Hl5 <-.
    apply decided_bind; [by apply decided_write|]. intros ? em6 _ Hl6 <-.
    rewrite <- link_walk_eq.
    destruct (n_Kind n) eqn:Ek; try done; (apply decided_payload; [done|done|by rewrite Ek]).
  - apply decided_bind; [by apply decided_ret|]. intros pl em4 _ Hl4 <-.
    apply decided_bind; [by apply decided_gets|]. intros es em5 _ Hl5 <-.
    apply decided_bind; [by apply decided_write|]. intros ? em6 _ Hl6 <-.
    destruct (n_Kind n) eqn:Ek; try done; try (by apply decided_write_ret); try by apply decided_ret.
    destruct (decided_children ap _ Hcs [] _ Hl6)
      as [(seen & -> & its & em7 & E & Hn & Hl7 & <-)|(-> & q & t & em7 & E)];
      unfold decided, mbind, M_bind; rewrite E; [|eauto].
    cbn [app]. unfold emit_goodbye, mbind, M_bind, gets.
    destruct (AppendGoodbye_spec [] its (if isRoot then 0 else es) (cw_pos (em_w em7))) as (tree & _ & ->);
      [unfold fits in Hf; by rewrite Hn|].
    apply (decided_write_ret _ 0 _ Hl7).
Qed.

(** A v1 run, whose record of links starts empty. *)
Lemma em_run_decided root (em : emitter T) :
  tree_all good root -> tree_all fits root -> em_live em ->
  match link_walk root [] ∅ with
  | Some _ => exists em', em_run root em = (Ok (), em')
  | None => exists ap t em', em_run root em = (Err (ErrHardlinkTarget ap t), em')
  end.
Proof.
  intros Hg Hf (Hw & Hi & Hr).
  set (em0 := mkEm (em_w em) (em_src em) (em_refs em) (em_get em) (em_prelude em) ∅ (em_warns em)).
  assert (em_live em0) as Hl by done.
  pose proof (decided_node root true [] em0 Hg Hf Hl) as Hd.
  cbn [em0 em_links] in Hd. rewrite dom_empty_L in Hd. unfold decided in Hd.
  unfold em_run, modify, gets, mbind, M_bind. fold em0.
  assert (em_v2 em0 = false) as -> by (unfold em_v2; cbn; by rewrite Hr).
  destruct (link_walk root [] ∅).
  - destruct Hd as (a & em' & E & _). exists em'. cbn. by rewrite E.
  - destruct Hd as (ap & t & em' & E). exists ap, t, em'. cbn. by rewrite E.
Qed.
End total.

(* ------------------------------------------------------------------ *)
(** ** Properties *)

Section properties.
Context {T : Type} `{PayloadSource T} `{SipHash}.
Context (I : T -> Prop) (good : node -> Prop).

(** C35: When no file changed size since the scan, the size estimated for the v1
    archive is the number of bytes emitted. *)
Theorem estimateV1_exact cont root (em em' : emitter T) :
  (forall n c, cont n c -> zlen c = st_Size (n_Stat n)) ->
  source_copies I good cont -> tree_all good root -> tree_all fits root ->
  em_ready I em -> em_refs em = None -> em_w em = cw_open 0 [] ->
  em_run root em = (Ok (), em') ->
  estimateV1 root true = u64 (zlen (cw_out (em_w em'))).
Proof.
  intros Hc Hsrc Hg Hf Hr Hv Hw He.
  destruct (em_run_ok I good cont Hsrc _ _ _ _ Hg Hr He) as (out & extra & xs & ln & Henc & [[Ho _] _ _ _]).
  assert (em_v2 em = false) as Ev by (unfold em_v2; by rewrite Hv).
  destruct (encodes_estimate (em_v2 em) cont Hc) as [Hest _].
  specialize (Hest _ _ _ _ _ _ _ _ _ Henc Hf). rewrite Ev in *. cbn in Ho, Hest.
  rewrite Hw in Ho. cbn in Ho. rewrite Z.add_0_l in Hest. rewrite Ho, Hest, estimateV1_eq. cbv zeta.
  by repeat case_match; rewrite u64_u64.
Qed.

(** C33: With payloads that open and a consumer that reads on, v1 emission succeeds
    exactly when every hardlink's target was emitted before it, and otherwise
    stops at the first such hardlink. *)
Theorem emit_succeeds root (em : emitter T) :
  source_live I good -> tree_all good root -> tree_all fits root ->
  cw_live (em_w em) -> I (em_src em) -> em_refs em = None ->
  if link_walk root [] ∅ is Some _ then (em_run root em).1 = Ok ()
  else exists ap t, (em_run root em).1 = Err (ErrHardlinkTarget ap t).
Proof.
  intros Hsrc Hg Hf Hw Hi Hr.
  pose proof (em_run_decided I good Hsrc root em Hg Hf (conj Hw (conj Hi Hr))) as Hd.
  destruct (link_walk root [] ∅); [by destruct Hd as (em' & ->)|].
  destruct Hd as (ap & t & em' & ->). by exists ap, t.
Qed.
End properties.

(* ------------------------------------------------------------------ *)
(** ** Witnesses *)

(** A SipHash for concrete runs. *)
Definition toy_siphash : SipHash.
Proof.
  refine {| siphash_Hash k1 k2 b := u64 (k1 + k2 * le_dec b) |}.
  intros. apply u64_range.
Defined.

Definition meta_node (name path : bytes) (kind : Kind) (mode size nlink : Z) (target : bytes)
    (children : list node) (stream : option reader) : node :=
  mkNode name path kind (mkStat mode 0 0 1700000000 5 size nlink 1 2 zeroDevice) target
    [mkXattr (lit "user.k") (lit "v")] None [] 0 children stream.

(** A directory holding a linked file, its hardlink, a symlink and a stream. *)
Definition sample_tree : node :=
  meta_node (lit "r") (lit "/r") KindDirectory 0x41ed 0 1 []
    [meta_node (lit "a") (lit "/r/a") KindFile 0x81a4 3 2 [] [] None;
     meta_node (lit "b") (lit "/r/b") KindHardlink 0x81a4 3 2 (lit "a") [] None;
     meta_node (lit "d") (lit "/r/d") KindDirectory 0x41ed 0 1 []
       [meta_node (lit "l") (lit "/r/d/l") KindSymlink 0xa1ff 0 1 (lit "../a") [] None] None;
     meta_node (lit "s") [] KindStream 0x81a4 4 1 [] [] (Some sample_reader)] None.

Definition sample_fs : osfs := fun p =>
  if decide (p = lit "/r/a") then Some (mkFile [(lit "xyz", Some EOF)] (Some (3, 7)) (Some (3, 7))) else None.

Definition sample_em : emitter osfs :=
  mkEm (cw_open 0 []) sample_fs None (fun _ => Err ErrLedger) None ∅ [].

(** Reduce [tree_all] of a concrete tree to its nodes. *)
Ltac each_node :=
  repeat match goal with
  | |- tree_all _ _ => apply tree_all_node
  | |- Forall _ (n_Children _) => cbn [n_Children meta_node]
  | |- Forall _ (_ :: _) => apply Forall_cons; split
  | |- Forall _ [] => apply Forall_nil; exact Logic.I
  end.

Lemma sample_good : tree_all (unchanged sample_fs) sample_tree.
Proof.
  unfold sample_tree. each_node; unfold unchanged; cbn -[sample_fs]; try done; intros _; (split; [lia|]); eauto.
  - eexists _, _. split_and!; reflexivity.
  - eexists. split; reflexivity.
Qed.

Lemma sample_fits : tree_all fits sample_tree.
Proof. unfold sample_tree. each_node; done. Qed.

Lemma estimateV1_exact_witness :
  estimateV1 sample_tree true =
  u64 (zlen (cw_out (em_w (@em_run _ _ toy_siphash sample_tree sample_em).2))).
Proof.
  refine (@estimateV1_exact _ _ toy_siphash (fun s => s = sample_fs) (unchanged sample_fs) (sync_cont sample_fs)
    sample_tree sample_em _ (sync_cont_size sample_fs) (sync_copies sample_fs) sample_good sample_fits
    _ eq_refl eq_refl _).
  - split; [done|]. by split.
  - vm_compute. reflexivity.
Defined.

Lemma emit_succeeds_witness :
  (@em_run _ _ toy_siphash sample_tree sample_em).1 = Ok ().
Proof.
  exact (@emit_succeeds _ _ toy_siphash (fun s => s = sample_fs) (unchanged sample_fs) sample_tree
    sample_em (sync_live sample_fs) sample_good sample_fits (conj eq_refl eq_refl) eq_refl eq_refl).
Defined.
