(* ===== verification/Reader.v ===== *)
(** * The archive reader

    Models pxar/reader.go and pxar/decode.go: the entry by entry reader of a
    pxar v1 archive or v2 metadata stream, with content read on demand, and
    [DecodeMetadata].  Reading what the emitter wrote (Emit.v) gives back the
    tree. *)

From S2P Require Import Prelude Format BinTree Io Tree Payload Emit.
From Stdlib Require Import Strings.Byte.
Local Open Scope Z_scope.

(* ------------------------------------------------------------------ *)
(** ** Data *)

(** [pxar.Node]. *)
Record rnode := mkRNode {
  r_Path : bytes; r_Entry : Entry; r_Hardlink : bool; r_LinkTarget : bytes;
  r_Xattrs : list Xattr; r_ACL : option ACLs; r_FCaps : option bytes; r_QuotaProjID : Z;
  r_Device : Device; r_Size : Z; r_PayloadOffset : Z; r_meta : bytes }.

Inductive rerror :=
  | RdEOF | RdIO (e : ioerr) | RdTruncated (pos : Z) | RdBadLength (typ pos length : Z)
  | RdTooLarge (typ pos n : Z) | RdRecord (typ pos : Z) (e : ioerr) | RdTrailing (pos : Z)
  | RdUnexpected (pos typ : Z) | RdNotV2 | RdV2Given | RdVersion | RdNul | RdName (e : name_error)
  | RdShortLink | RdObsolete | RdMetaLength (typ length : Z) | RdXattr | RdDepth | RdMode (mode : Z)
  | RdEmptyTarget | RdPayload | RdNoPayload | RdContent (e : ioerr) | RdFuel.

(** [io.ReaderAt]: [ReadAt(p, off)] for [len(p)] bytes. *)
Abbreviation readerAt := (Z -> nat -> list Byte.byte * option ioerr).

(** [Reader.content]: what [Read] reads from. *)
Inductive content :=
  | CNone
  | CInline                     (* r.br *)
  | CSection (off limit : Z)    (* io.SectionReader over the payload *)
  | CErr.                       (* errReader *)

(** [Reader]; [rd_have] is the one-record lookahead, the innermost open
    directory is first in [rd_dirs]. *)
Record rstate := mkR {
  rd_br : reader; rd_payload : option readerAt; rd_version : Z; rd_keepMeta : bool;
  rd_started : bool; rd_checked : bool; rd_dirs : list bytes; rd_pos : Z;
  rd_have : option (Z * Z); rd_content : content; rd_left : Z; rd_err : option rerror }.

Definition maxRecordBody := 1048576.
Definition maxDepth : nat := 2048.

Definition NewReaderV1 (r : reader) : rstate :=
  mkR r None 1 false false false [] 0 None CNone 0 None.
Definition NewReaderV2 (meta : reader) (payload : option readerAt) : rstate :=
  mkR meta payload 2 false false false [] 0 None CNone 0 None.

Definition inline (r : rstate) : bool := match rd_content r with CInline => true | _ => false end.

(** Field updates. *)
Definition set_br (b : reader) (r : rstate) : rstate :=
  mkR b (rd_payload r) (rd_version r) (rd_keepMeta r) (rd_started r) (rd_checked r)
    (rd_dirs r) (rd_pos r) (rd_have r) (rd_content r) (rd_left r) (rd_err r).
Definition set_version (v : Z) (r : rstate) : rstate :=
  mkR (rd_br r) (rd_payload r) v (rd_keepMeta r) (rd_started r) (rd_checked r)
    (rd_dirs r) (rd_pos r) (rd_have r) (rd_content r) (rd_left r) (rd_err r).
Definition set_started (r : rstate) : rstate :=
  mkR (rd_br r) (rd_payload r) (rd_version r) (rd_keepMeta r) true (rd_checked r)
    (rd_dirs r) (rd_pos r) (rd_have r) (rd_content r) (rd_left r) (rd_err r).
Definition set_checked (r : rstate) : rstate :=
  mkR (rd_br r) (rd_payload r) (rd_version r) (rd_keepMeta r) (rd_started r) true
    (rd_dirs r) (rd_pos r) (rd_have r) (rd_content r) (rd_left r) (rd_err r).
Definition set_dirs (d : list bytes) (r : rstate) : rstate :=
  mkR (rd_br r) (rd_payload r) (rd_version r) (rd_keepMeta r) (rd_started r) (rd_checked r)
    d (rd_pos r) (rd_have r) (rd_content r) (rd_left r) (rd_err r).
Definition set_pos (p : Z) (r : rstate) : rstate :=
  mkR (rd_br r) (rd_payload r) (rd_version r) (rd_keepMeta r) (rd_started r) (rd_checked r)
    (rd_dirs r) p (rd_have r) (rd_content r) (rd_left r) (rd_err r).
Definition set_have (h : option (Z * Z)) (r : rstate) : rstate :=
  mkR (rd_br r) (rd_payload r) (rd_version r) (rd_keepMeta r) (rd_started r) (rd_checked r)
    (rd_dirs r) (rd_pos r) h (rd_content r) (rd_left r) (rd_err r).
Definition set_content (c : content) (left : Z) (r : rstate) : rstate :=
  mkR (rd_br r) (rd_payload r) (rd_version r) (rd_keepMeta r) (rd_started r) (rd_checked r)
    (rd_dirs r) (rd_pos r) (rd_have r) c left (rd_err r).
Definition set_err (e : rerror) (r : rstate) : rstate :=
  mkR (rd_br r) (rd_payload r) (rd_version r) (rd_keepMeta r) (rd_started r) (rd_checked r)
    (rd_dirs r) (rd_pos r) (rd_have r) (rd_content r) (rd_left r) (Some e).

(** Reader actions: state changes made before an error persist. *)
Definition R (A : Type) : Type := rstate -> result rerror A * rstate.
#[export] Instance R_ret : MRet R := fun A a r => (Ok a, r).
#[export] Instance R_bind : MBind R := fun A B f m r =>
  match m r with
  | (Ok a, r) => f a r
  | (Err e, r) => (Err e, r)
  end.
Definition rfail {A} (e : rerror) : R A := fun r => (Err e, r).
Definition rget {A} (f : rstate -> A) : R A := fun r => (Ok (f r), r).
Definition rmod (f : rstate -> rstate) : R unit := fun r => (Ok (), f r).
Definition lift {A} (m : result rerror A) : R A := fun r => (m, r).

(* ------------------------------------------------------------------ *)
(** ** Records *)

(** [peek] reads the next record header without consuming it. *)
Definition peek : R (Z * Z) := fun r =>
  match rd_have r with
  | Some h => (Ok h, r)
  | None =>
      match ReadFull 16 (rd_br r) with
      | ((hdr, None), br) =>
          let typ := get64 hdr in
          let length := get64 (drop 8 hdr) in
          let r := set_br br r in
          if length <? HeaderSize then (Err (RdBadLength typ (rd_pos r) length), r)
          else (Ok (typ, length), set_have (Some (typ, length)) r)
      | ((_, Some e), br) =>
          (Err (match e with EOF | ErrUnexpectedEOF => RdTruncated (rd_pos r) | e => RdIO e end),
           set_br br r)
      end
  end.

(** [body] consumes the peeked record. *)
Definition rbody (typ length : Z) : R bytes := fun r =>
  let n := length - HeaderSize in
  if maxRecordBody <? n then (Err (RdTooLarge typ (rd_pos r) n), r) else
  match ReadFull (Z.to_nat n) (rd_br r) with
  | ((_, Some e), br) => (Err (RdRecord typ (rd_pos r) e), set_br br r)
  | ((body, None), br) => (Ok body, set_have None (set_pos (u64 (rd_pos r + length)) (set_br br r)))
  end.

(** [skip] consumes the peeked record without keeping its body; [io.CopyN]
    to [io.Discard] reports an early end as [EOF]. *)
Definition rskip (typ length : Z) : R unit := fun r =>
  let n := length - HeaderSize in
  if 2 ^ 62 <? n then (Err (RdBadLength typ (rd_pos r) length), r) else
  match ReadFull (Z.to_nat n) (rd_br r) with
  | ((_, Some e), br) =>
      (Err (RdRecord typ (rd_pos r) (match e with ErrUnexpectedEOF => EOF | e => e end)), set_br br r)
  | ((_, None), br) => (Ok (), set_have None (set_pos (u64 (rd_pos r + length)) (set_br br r)))
  end.

Definition cstring (b : bytes) : result rerror bytes :=
  match last b with
  | Some c => if decide (c = nul) then Ok (take (length b - 1) b) else Err RdNul
  | None => Err RdNul
  end.

(** The components of a slash-separated path ([strings.SplitSeq]). *)
Fixpoint split_slash (p : bytes) : list bytes :=
  match p with
  | [] => [[]]
  | c :: p =>
      if decide (c = slash) then [] :: split_slash p
      else match split_slash p with
           | [] => [[c]]
           | s :: ss => (c :: s) :: ss
           end
  end.

Definition validate_name (name : bytes) : result rerror unit :=
  match ValidateFilename name with Ok _ => Ok () | Err e => Err (RdName e) end.

Fixpoint validate_all (names : list bytes) : result rerror unit :=
  match names with
  | [] => Ok ()
  | n :: ns => _ ← validate_name n; validate_all ns
  end.

Definition validatePath (p : bytes) : result rerror unit := validate_all (split_slash p).

(** [metadataRecord]: the exact length of a fixed-layout metadata record, 0
    for the variable ones, [None] for other records. *)
Definition metadataRecord (typ : Z) : option Z :=
  if decide (typ = TypeACLUser \/ typ = TypeACLDefaultUser) then Some ACLUserSize
  else if decide (typ = TypeACLGroup \/ typ = TypeACLDefaultGroup) then Some ACLGroupSize
  else if decide (typ = TypeACLGroupObj) then Some ACLGroupObjSize
  else if decide (typ = TypeACLDefault) then Some ACLDefaultSize
  else if decide (typ = TypeQuotaProjID) then Some QuotaProjIDSize
  else if decide (typ = TypeXAttr \/ typ = TypeFCaps) then Some 0
  else None.

Definition emptyACLs : ACLs := mkACLs [] [] None None [] [].

(** The closure [acl] of [metadata]. *)
Definition acl_of (n : rnode) : ACLs := match r_ACL n with Some a => a | None => emptyACLs end.

Definition with_acl (n : rnode) (a : ACLs) : rnode :=
  mkRNode (r_Path n) (r_Entry n) (r_Hardlink n) (r_LinkTarget n) (r_Xattrs n) (Some a) (r_FCaps n)
    (r_QuotaProjID n) (r_Device n) (r_Size n) (r_PayloadOffset n) (r_meta n).
Definition add_xattr (n : rnode) (x : Xattr) : rnode :=
  mkRNode (r_Path n) (r_Entry n) (r_Hardlink n) (r_LinkTarget n) (r_Xattrs n ++ [x]) (r_ACL n)
    (r_FCaps n) (r_QuotaProjID n) (r_Device n) (r_Size n) (r_PayloadOffset n) (r_meta n).
Definition with_fcaps (n : rnode) (b : bytes) : rnode :=
  mkRNode (r_Path n) (r_Entry n) (r_Hardlink n) (r_LinkTarget n) (r_Xattrs n) (r_ACL n) (Some b)
    (r_QuotaProjID n) (r_Device n) (r_Size n) (r_PayloadOffset n) (r_meta n).
Definition with_quota (n : rnode) (q : Z) : rnode :=
  mkRNode (r_Path n) (r_Entry n) (r_Hardlink n) (r_LinkTarget n) (r_Xattrs n) (r_ACL n) (r_FCaps n)
    q (r_Device n) (r_Size n) (r_PayloadOffset n) (r_meta n).
Definition with_target (n : rnode) (t : bytes) (hard : bool) : rnode :=
  mkRNode (r_Path n) (r_Entry n) hard t (r_Xattrs n) (r_ACL n) (r_FCaps n)
    (r_QuotaProjID n) (r_Device n) (r_Size n) (r_PayloadOffset n) (r_meta n).
Definition with_device (n : rnode) (d : Device) : rnode :=
  mkRNode (r_Path n) (r_Entry n) (r_Hardlink n) (r_LinkTarget n) (r_Xattrs n) (r_ACL n) (r_FCaps n)
    (r_QuotaProjID n) d (r_Size n) (r_PayloadOffset n) (r_meta n).
Definition with_payload (n : rnode) (off size : Z) : rnode :=
  mkRNode (r_Path n) (r_Entry n) (r_Hardlink n) (r_LinkTarget n) (r_Xattrs n) (r_ACL n) (r_FCaps n)
    (r_QuotaProjID n) (r_Device n) size off (r_meta n).
Definition with_meta (n : rnode) (m : bytes) : rnode :=
  mkRNode (r_Path n) (r_Entry n) (r_Hardlink n) (r_LinkTarget n) (r_Xattrs n) (r_ACL n) (r_FCaps n)
    (r_QuotaProjID n) (r_Device n) (r_Size n) (r_PayloadOffset n) m.

(** [keep]. *)
Definition keep (keepMeta : bool) (n : rnode) (typ : Z) (body : bytes) : rnode :=
  if keepMeta
  then with_meta n (appendHeader (r_meta n) typ (u64 (HeaderSize + zlen body)) ++ body)
  else n.

(** [bytes.IndexByte(body, 0)], [None] for -1. *)
Fixpoint index_nul (b : bytes) : option nat :=
  match b with
  | [] => None
  | c :: b => if decide (c = nul) then Some O else S <$> index_nul b
  end.

(** One record of [metadata]. *)
Definition apply_meta (n : rnode) (typ : Z) (body : bytes) : result rerror rnode :=
  let w i := get64 (drop (8 * i) body) in
  let acl := acl_of n in
  if decide (typ = TypeXAttr) then
    match index_nul body with
    | Some (S _ as i) => Ok (add_xattr n (mkXattr (take i body) (drop (S i) body)))
    | _ => Err RdXattr
    end
  else if decide (typ = TypeACLUser) then
    Ok (with_acl n (mkACLs (Users acl ++ [mkACLUser (w 0%nat) (w 1%nat)]) (Groups acl) (GroupObj acl)
                      (Default acl) (DefaultUsers acl) (DefaultGroups acl)))
  else if decide (typ = TypeACLDefaultUser) then
    Ok (with_acl n (mkACLs (Users acl) (Groups acl) (GroupObj acl) (Default acl)
                      (DefaultUsers acl ++ [mkACLUser (w 0%nat) (w 1%nat)]) (DefaultGroups acl)))
  else if decide (typ = TypeACLGroup) then
    Ok (with_acl n (mkACLs (Users acl) (Groups acl ++ [mkACLGroup (w 0%nat) (w 1%nat)]) (GroupObj acl)
                      (Default acl) (DefaultUsers acl) (DefaultGroups acl)))
  else if decide (typ = TypeACLDefaultGroup) then
    Ok (with_acl n (mkACLs (Users acl) (Groups acl) (GroupObj acl) (Default acl) (DefaultUsers acl)
                      (DefaultGroups acl ++ [mkACLGroup (w 0%nat) (w 1%nat)])))
  else if decide (typ = TypeACLGroupObj) then
    Ok (with_acl n (mkACLs (Users acl) (Groups acl) (Some (w 0%nat)) (Default acl)
                      (DefaultUsers acl) (DefaultGroups acl)))
  else if decide (typ = TypeACLDefault) then
    Ok (with_acl n (mkACLs (Users acl) (Groups acl) (GroupObj acl)
                      (Some (mkACLDefault (w 0%nat) (w 1%nat) (w 2%nat) (w 3%nat)))
                      (DefaultUsers acl) (DefaultGroups acl)))
  else if decide (typ = TypeFCaps) then Ok (with_fcaps n body)
  else if decide (typ = TypeQuotaProjID) then Ok (with_quota n (w 0%nat))
  else Ok n.

(** [metadata]: the records between an entry and its type-specific record;
    every round consumes a record, so the length of the stream is fuel. *)
Fixpoint metadata_loop (fuel : nat) (n : rnode) : R (rnode * Z * Z) :=
  match fuel with
  | O => rfail RdFuel
  | S fuel =>
      '(typ, length) ← peek;
      match metadataRecord typ with
      | None => mret (n, typ, length)
      | Some want =>
          if negb (want =? 0) && negb (length =? want) then rfail (RdMetaLength typ length) else
          body ← rbody typ length;
          keepMeta ← rget rd_keepMeta;
          n ← lift (apply_meta (keep keepMeta n typ body) typ body);
          metadata_loop fuel n
      end
  end.

Definition metadata (n : rnode) : R (rnode * Z * Z) := fun r =>
  metadata_loop (S (length (contents (rd_br r)).1)) n r.

(* ------------------------------------------------------------------ *)
(** ** Content *)

Definition checkPayloadStart (ra : readerAt) : result rerror unit :=
  match ra 0 16%nat with
  | (_, Some e) => Err (RdContent e)
  | (hdr, None) => if decide (get64 hdr = PayloadStartMarker) then Ok () else Err RdPayload
  end.

(** [checkPayloadRecord]: the reference resolves to a record of that size. *)
Definition checkPayloadRecord (ra : readerAt) (n : rnode) : result rerror unit :=
  if (2 ^ 62 <? r_PayloadOffset n) || (2 ^ 62 <? r_Size n) then Err RdPayload else
  match ra (r_PayloadOffset n) 16%nat with
  | (_, Some e) => Err (RdContent e)
  | (hdr, None) =>
      if decide (get64 hdr = TypePayload /\ get64 (drop 8 hdr) = u64 (HeaderSize + r_Size n))
      then Ok () else Err RdPayload
  end.

(** [payloadRecord] consumes a payload (v1) or payload reference (v2). *)
Definition payloadRecord (n : rnode) (typ length : Z) : R rnode := fun r =>
  if decide (rd_version r = 1 /\ typ = TypePayload) then
    let n := with_payload n (r_PayloadOffset n) (length - HeaderSize) in
    (Ok n, set_content CInline (r_Size n) (set_pos (u64 (rd_pos r + HeaderSize)) (set_have None r)))
  else if decide (rd_version r = 2 /\ typ = TypePayloadRef) then
    if negb (length =? PayloadRefSize) then (Err RdPayload, r) else
    (body ← rbody typ length;
     let n := with_payload n (get64 body) (get64 (drop 8 body)) in
     payload ← rget rd_payload;
     match payload with
     | None => _ ← rmod (set_content CErr (r_Size n)); mret n
     | Some ra =>
         checked ← rget rd_checked;
         _ ← (if checked : bool then mret () : R unit
              else _ ← lift (checkPayloadStart ra); rmod set_checked);
         _ ← lift (checkPayloadRecord ra n);
         let off := u64 (r_PayloadOffset n + HeaderSize) in
         _ ← rmod (set_content (CSection off (off + r_Size n)) (r_Size n));
         mret n
     end) r
  else (Err (RdUnexpected (rd_pos r) typ), r).

(** One [Read] of [r.content] into a buffer of [want] bytes. *)
Definition content_read (want : nat) (r : rstate) : bytes * option ioerr * rstate :=
  match rd_content r with
  | CNone => ([], Some (IOError 0), r)
  | CErr => ([], Some (IOError 1), r)
  | CInline =>
      let '(b, e, br) := Read want (rd_br r) in (b, e, set_br br r)
  | CSection off limit =>
      if limit <=? off then ([], Some EOF, r) else
      let want := Nat.min want (Z.to_nat (limit - off)) in
      match rd_payload r with
      | None => ([], Some (IOError 0), r)
      | Some ra =>
          let '(b, e) := ra off want in
          (b, e, set_content (CSection (off + zlen b) limit) (rd_left r) r)
      end
  end.

(** [Read] the content of the current regular file. *)
Definition RRead (want : nat) (r : rstate) : bytes * option rerror * rstate :=
  if decide (rd_left r = 0) then ([], Some RdEOF, r) else
  let want := if rd_left r <? Z.of_nat want then Z.to_nat (rd_left r) else want in
  let '(b, e, r) := content_read want r in
  let r := set_content (rd_content r) (rd_left r - zlen b) r in
  let r := if inline r then set_pos (u64 (rd_pos r + zlen b)) r else r in
  match e with
  | None => (b, None, r)
  | Some e =>
      if decide (rd_left r = 0) then (b, None, r) else
      let err := RdContent (match e with EOF => ErrUnexpectedEOF | e => e end) in
      (b, Some err, set_err err r)
  end.

(* ------------------------------------------------------------------ *)
(** ** Entries *)

(** The end of [node]: the type-specific record, by the mode's type bits. *)
Definition node_special (path : bytes) (n : rnode) (typ length : Z) : R rnode :=
  let mode := Z.land (e_Mode (r_Entry n)) modeTypeMask in
  if decide (mode = modeDir) then
    dirs ← rget rd_dirs;
    if decide (maxDepth <= List.length dirs)%nat then rfail RdDepth else
    _ ← rmod (set_dirs (path :: dirs));
    mret n
  else if decide (mode = modeRegular) then payloadRecord n typ length
  else if decide (mode = modeSymlink) then
    if negb (bool_decide (typ = TypeSymlink)) then (pos ← rget rd_pos; rfail (RdUnexpected pos typ)) else
    body ← rbody typ length;
    target ← lift (cstring body);
    if decide (target = []) then rfail RdEmptyTarget else
    mret (with_target n target false)
  else if decide (mode = modeBlockDev \/ mode = modeCharDev) then
    if negb (bool_decide (typ = TypeDevice /\ length = DeviceSize))
    then (pos ← rget rd_pos; rfail (RdUnexpected pos typ)) else
    body ← rbody typ length;
    mret (with_device n (mkDevice (get64 body) (get64 (drop 8 body))))
  else if decide (mode = modeFifo \/ mode = modeSocket) then mret n
  else rfail (RdMode (e_Mode (r_Entry n))).

Definition decode_entry (body : bytes) : Entry :=
  mkEntry (get64 body) (get64 (drop 8 body)) (get32 (drop 16 body)) (get32 (drop 20 body))
    (i64 (get64 (drop 24 body))) (get32 (drop 32 body)).

(** [node] decodes the entry following a filename record (or the root). *)
Definition read_node (path : bytes) : R rnode :=
  '(typ, length) ← peek;
  if decide (typ = TypeHardlink /\ path <> []) then
    body ← rbody typ length;
    if decide (List.length body < 9)%nat then rfail RdShortLink else
    target ← lift (cstring (drop 8 body));
    _ ← lift (validatePath target);
    mret (mkRNode path (mkEntry 0 0 0 0 0 0) true target [] None None 0 zeroDevice 0 0 [])
  else if decide (typ = TypeEntryV1) then rfail RdObsolete
  else if negb (bool_decide (typ = TypeEntry)) then (pos ← rget rd_pos; rfail (RdUnexpected pos typ))
  else if negb (length =? EntrySize) then rfail (RdMetaLength typ length)
  else
  body ← rbody typ length;
  keepMeta ← rget rd_keepMeta;
  let n := mkRNode path (decode_entry body) false [] [] None None 0 zeroDevice 0 0 [] in
  '(n, typ, length) ← metadata (keep keepMeta n TypeEntry body);
  node_special path n typ length.

(** [readHead] consumes the v2 format version and prelude records. *)
Definition readHead : R unit :=
  '(typ, length) ← peek;
  version ← rget rd_version;
  if negb (bool_decide (typ = TypeFormatVersion)) then
    if decide (version = 2) then rfail RdNotV2 else rmod (set_version 1)
  else if decide (version = 1) then rfail RdV2Given
  else
  body ← rbody typ length;
  if negb (bool_decide (List.length body = 8%nat)) then rfail RdVersion else
  if negb (bool_decide (get64 body = 2)) then rfail RdVersion else
  _ ← rmod (set_version 2);
  '(typ, length) ← peek;
  if decide (typ = TypePrelude) then (_ ← rbody typ length; mret ()) else mret ().

(** The loop of [next] over the open directories [dirs], innermost first. *)
Fixpoint next_loop (dirs : list bytes) : R rnode :=
  match dirs with
  | [] => fun r =>
      match contents (rd_br r) with   (* Peek(1) *)
      | (_ :: _, _) => (Err (RdTrailing (rd_pos r)), r)
      | ([], EOF) => (Err RdEOF, r)
      | ([], e) => (Err (RdIO e), r)
      end
  | dir :: dirs' =>
      '(typ, length) ← peek;
      if decide (typ = TypeGoodbye) then
        _ ← rskip typ length;
        _ ← rmod (set_dirs dirs');
        next_loop dirs'
      else if decide (typ = TypeFilename) then
        body ← rbody typ length;
        name ← lift (cstring body);
        _ ← lift (validate_name name);
        read_node (if decide (dir = []) then name else dir ++ [slash] ++ name)
      else (pos ← rget rd_pos; rfail (RdUnexpected pos typ))
  end.

(** [io.CopyN(io.Discard, r, int64(left))]: reads of any size that make
    progress end the same; the errors are those of [Read].  A negative count
    copies nothing and is no error. *)
Definition skip_content : R unit := fun r =>
  if inline r && (0 <? rd_left r) then
    if i64 (rd_left r) <? 0 then (Ok (), r) else
    match ReadFull (Z.to_nat (rd_left r)) (rd_br r) with
    | ((b, None), br) => (Ok (), set_pos (u64 (rd_pos r + rd_left r)) (set_br br r))
    | ((b, Some e), br) =>
        let err := RdContent (match e with EOF => ErrUnexpectedEOF | e => e end) in
        (Err err, set_err err (set_pos (u64 (rd_pos r + zlen b)) (set_br br r)))
    end
  else (Ok (), r).

Definition next : R rnode :=
  _ ← skip_content;
  _ ← rmod (set_content CNone 0);
  started ← rget rd_started;
  if negb started then
    _ ← rmod set_started;
    _ ← readHead;
    read_node []
  else
    dirs ← rget rd_dirs;
    next_loop dirs.

(** [Next]; an error is sticky. *)
Definition Next : R rnode := fun r =>
  match rd_err r with
  | Some e => (Err e, r)
  | None =>
      match next r with
      | (Ok n, r) => (Ok n, r)
      | (Err e, r) => (Err e, set_err e r)
      end
  end.

(* ------------------------------------------------------------------ *)
(** ** DecodeMetadata (decode.go) *)

Record MetaFile := mkMetaFile { mf_Path : bytes; mf_Meta : bytes; mf_Size : Z; mf_PayloadOffset : Z }.

(** The loop of [DecodeMetadata]: the files [visit] is called with, in order,
    and the version or the error.  Every [Next] consumes a record. *)
Fixpoint decode_loop (fuel : nat) (r : rstate) : list MetaFile * result rerror Z :=
  match fuel with
  | O => ([], Err RdFuel)
  | S fuel =>
      match Next r with
      | (Err RdEOF, r) => ([], Ok (rd_version r))
      | (Err e, _) => ([], Err e)
      | (Ok n, r) =>
          let '(fs, v) := decode_loop fuel r in
          if r_Hardlink n || negb (Z.land (e_Mode (r_Entry n)) modeTypeMask =? modeRegular)
          then (fs, v)
          else (mkMetaFile (r_Path n) (r_meta n) (r_Size n) (r_PayloadOffset n) :: fs, v)
      end
  end.

Definition DecodeMetadata (r : reader) : list MetaFile * result rerror Z :=
  decode_loop (S (length (contents r).1))
    (mkR r None 0 true false false [] 0 None CNone 0 None).

(* ------------------------------------------------------------------ *)
(** ** A client that reads everything *)

(** Read the current file to its end with buffers of [want] bytes. *)
Fixpoint read_all (fuel want : nat) (r : rstate) : bytes * option rerror * rstate :=
  match fuel with
  | O => ([], Some RdFuel, r)
  | S fuel =>
      match RRead want r with
      | (b, Some RdEOF, r) => (b, None, r)
      | (b, Some e, r) => (b, Some e, r)
      | (b, None, r) => let '(c, e, r) := read_all fuel want r in (b ++ c, e, r)
      end
  end.

(** Every entry with its content, and the error that ends the archive. *)
Fixpoint read_archive (fuel want : nat) (r : rstate) : list (rnode * bytes) * rerror :=
  match fuel with
  | O => ([], RdFuel)
  | S fuel =>
      match Next r with
      | (Err e, _) => ([], e)
      | (Ok n, r) =>
          match read_all (S (rsize (rd_br r) + Z.to_nat (rd_left r))) want r with
          | (c, Some e, _) => ([(n, c)], e)
          | (c, None, r) => let '(xs, e) := read_archive fuel want r in ((n, c) :: xs, e)
          end
      end
  end.
