(* ===== verification/ReaderSpec.v ===== *)
(** * Reading back what was emitted

    The reader of Reader.v run on a stream of the grammar of Emit.v: every
    record is recovered, the nodes come back in order with their content, and
    the archive ends in [io.EOF]; the v1 and v2 round trips and the metadata
    change detection relies on. *)

From S2P Require Import Prelude Format BinTree Io Tree Payload Refs Emit Reader.
From Stdlib Require Import Strings.Byte.
Local Open Scope Z_scope.

(* ------------------------------------------------------------------ *)
(** ** What the reader should return *)

(** Field widths of what the scanner and the virtual nodes fill in. *)
Definition wf_entry (e : Entry) : Prop :=
  is_u64 (e_Mode e) /\ e_Flags e = 0 /\ is_u32 (e_UID e) /\ is_u32 (e_GID e) /\
  is_i64 (e_MtimeSecs e) /\ is_u32 (e_MtimeNanos e).

Definition wf_user (a : ACLUser) : Prop := is_u64 (au_UID a) /\ is_u64 (au_Permissions a).
Definition wf_group (a : ACLGroup) : Prop := is_u64 (ag_GID a) /\ is_u64 (ag_Permissions a).

(** A metadata record the reader accepts. *)
Definition wf_meta (r : Rec) : Prop :=
  zlen (rec_body r) <= maxRecordBody /\
  match r with
  | RXAttr name _ => name <> [] /\ nul ∉ name
  | RACLUser a | RACLDefaultUser a => wf_user a
  | RACLGroup a | RACLDefaultGroup a => wf_group a
  | RACLGroupObj p => is_u64 p
  | RACLDefault d =>
      is_u64 (UserObjPermissions d) /\ is_u64 (GroupObjPermissions d) /\
      is_u64 (OtherPermissions d) /\ is_u64 (MaskPermissions d)
  | RFCaps _ => True
  | RQuotaProjID q => is_u64 q
  | _ => False
  end.

(** The mode bits say the kind. *)
Definition kind_mode (k : Kind) : Z :=
  match k with
  | KindDirectory => modeDir
  | KindFile | KindStream | KindHardlink => modeRegular
  | KindSymlink => modeSymlink
  | KindBlockDevice => modeBlockDev
  | KindCharDevice => modeCharDev
  | KindFifo => modeFifo
  | KindSocket => modeSocket
  end.

(** A node the reader accepts back. *)
Record wf_node (n : node) : Prop := {
  wf_Entry : wf_entry (metaEntry n);
  wf_extra : Forall wf_meta (extra_recs n);
  wf_mode : Z.land (st_Mode (n_Stat n)) modeTypeMask = kind_mode (n_Kind n);
  wf_children : Forall (fun c => ValidateFilename (n_Name c) = Ok () /\ zlen (n_Name c) < maxRecordBody)
                  (n_Children n);
  wf_fits : zlen (n_Children n) < 2 ^ 57;
  wf_symlink : n_Kind n = KindSymlink -> n_LinkTarget n <> [] /\ zlen (n_LinkTarget n) < maxRecordBody;
  wf_hardlink : n_Kind n = KindHardlink ->
    validatePath (n_LinkTarget n) = Ok () /\ zlen (n_LinkTarget n) < maxRecordBody - 8;
  wf_rdev : is_u64 (Major (st_Rdev (n_Stat n))) /\ is_u64 (Minor (st_Rdev (n_Stat n))) }.

(** The ACL of a node, [None] if no record carries it. *)
Definition decode_acl (n : node) : option ACLs :=
  match n_ACL n with
  | Some acl => if decide (acl_recs acl = []) then None else Some acl
  | None => None
  end.

(** The capabilities of a node, [None] if there is no record of them. *)
Definition decode_fcaps (n : node) : option bytes :=
  match n_FCaps n with [] => None | c => Some c end.

(** The entry the reader returns for an emitted node. *)
Definition decode_item (keepMeta : bool) (it : item) : rnode :=
  let n := it_node it in
  match it_data it with
  | DLink _ =>
      mkRNode (it_path it) (mkEntry 0 0 0 0 0 0) true (n_LinkTarget n) [] None None 0 zeroDevice 0 0 []
  | d =>
      mkRNode (it_path it) (metaEntry n) false
        (if decide (n_Kind n = KindSymlink) then n_LinkTarget n else [])
        (n_Xattrs n) (decode_acl n) (decode_fcaps n) (n_QuotaProjID n)
        (if decide (n_Kind n = KindBlockDevice \/ n_Kind n = KindCharDevice)
         then st_Rdev (n_Stat n) else zeroDevice)
        (match d with DContent c => zlen c | DRef _ size => size | _ => 0 end)
        (match d with DRef off _ => off | _ => 0 end)
        (if keepMeta then metadataBytes [] n else [])
  end.

(* ------------------------------------------------------------------ *)
(** ** Lemmas: records *)

(** The unread bytes, the lookahead included. *)
Definition stream (r : rstate) : bytes :=
  match rd_have r with Some (t, l) => le64 t ++ le64 l | None => [] end ++ (contents (rd_br r)).1.

Definition streams (r : rstate) (s : bytes) : Prop :=
  match rd_have r with Some (t, l) => is_u64 t /\ is_u64 l /\ 16 <= l | None => True end /\
  (contents (rd_br r)).2 = EOF /\ stream r = s.

(** What record reading leaves alone. *)
Definition cfg (r : rstate) :=
  (rd_payload r, rd_version r, rd_keepMeta r, rd_started r, rd_checked r, rd_dirs r, rd_content r,
   rd_left r, rd_err r).

Lemma app_le64_inj a b s t : is_u64 a -> is_u64 b -> le64 a ++ s = le64 b ++ t -> a = b /\ s = t.
Proof.
  intros Ha Hb E. apply app_inj_1 in E as [E ->]; [|by rewrite !length_le64].
  split; [by apply le64_inj|done].
Qed.

Definition header (t : Z) (body : bytes) : Prop := is_u64 t /\ 16 + zlen body < 2 ^ 64.

Lemma peek_frame r t body rest :
  streams r (frame t body ++ rest) -> header t body ->
  exists r', peek r = (Ok (t, 16 + zlen body), r') /\ streams r' (frame t body ++ rest) /\
    cfg r' = cfg r /\ contents (rd_br r') = (body ++ rest, EOF).
Proof.
  intros (Hh & He & Hs) [Ht Hl]. unfold stream in Hs. unfold frame in *. unfold HeaderSize in *.
  rewrite <- !app_assoc in *. unfold peek.
  assert (is_u64 (16 + zlen body)) as Hu by (unfold is_u64; lia).
  destruct (rd_have r) as [[t' l']|] eqn:Eh.
  - destruct Hh as (Ht' & Hl' & _). rewrite <- app_assoc in Hs.
    apply app_le64_inj in Hs as [-> Hs]; [|done..].
    apply app_le64_inj in Hs as [-> Hs]; [|done..].
    exists r. split_and!; try done; [|by rewrite <- Hs, <- He; destruct (contents (rd_br r))].
    unfold streams, stream. rewrite Eh. split_and!; try done; try lia. by rewrite Hs, <- !app_assoc.
  - cbn [app] in Hs. destruct (ReadFull_spec 16 (rd_br r)) as [br H]. cbv zeta in H.
    rewrite Hs in H. rewrite decide_True in H by (rewrite !length_app, !length_le64; lia).
    destruct H as [-> Hc].
    rewrite (app_assoc (le64 t)) in Hc |- *.
    rewrite take_len_app by (by rewrite length_app, !length_le64).
    rewrite drop_len_app in Hc by (by rewrite length_app, !length_le64).
    rewrite get64_le64, u64_small by done.
    assert (get64 (drop 8 (le64 t ++ le64 (16 + zlen body))) = 16 + zlen body) as ->.
    { rewrite drop_len_app by done. rewrite <- (app_nil_r (le64 _)), get64_le64. by apply u64_small. }
    rewrite (proj2 (Z.ltb_ge _ _)) by (unfold HeaderSize; lia).
    eexists. split; [done|]. split_and!; [|done|by rewrite <- He; cbn; rewrite Hc].
    unfold streams, stream. cbn [rd_have set_have set_br rd_br]. rewrite Hc. cbn [fst snd].
    split_and!; try done; try lia; by rewrite <- !app_assoc.
Qed.

Lemma rbody_frame r t body rest :
  contents (rd_br r) = (body ++ rest, EOF) -> zlen body <= maxRecordBody ->
  exists r', rbody t (16 + zlen body) r = (Ok body, r') /\ streams r' rest /\ cfg r' = cfg r /\
    contents (rd_br r') = (rest, EOF).
Proof.
  intros Hc Hm. unfold rbody. cbv zeta. unfold HeaderSize.
  replace (16 + zlen body - 16) with (zlen body) by lia.
  rewrite (proj2 (Z.ltb_ge _ _)) by lia. rewrite Nat2Z.id.
  destruct (ReadFull_spec (length body) (rd_br r)) as [br H]. cbv zeta in H. rewrite Hc in H.
  cbn [fst snd] in H. rewrite decide_True in H by (rewrite length_app; lia). destruct H as [-> Hc'].
  rewrite take_app_length. rewrite drop_app_length in Hc'.
  eexists. split; [done|]. split_and!; [|done|done].
  unfold streams, stream. cbn. rewrite Hc'. done.
Qed.

Lemma rskip_frame r t body rest :
  contents (rd_br r) = (body ++ rest, EOF) -> zlen body <= 2 ^ 62 ->
  exists r', rskip t (16 + zlen body) r = (Ok (), r') /\ streams r' rest /\ cfg r' = cfg r.
Proof.
  intros Hc Hm. unfold rskip. cbv zeta. unfold HeaderSize.
  replace (16 + zlen body - 16) with (zlen body) by lia.
  rewrite (proj2 (Z.ltb_ge _ _)) by lia. rewrite Nat2Z.id.
  destruct (ReadFull_spec (length body) (rd_br r)) as [br H]. cbv zeta in H. rewrite Hc in H.
  cbn [fst snd] in H. rewrite decide_True in H by (rewrite length_app; lia). destruct H as [-> Hc'].
  rewrite drop_app_length in Hc'. eexists. split; [done|]. split; [|done].
  unfold streams, stream. cbn. rewrite Hc'. done.
Qed.

(* ------------------------------------------------------------------ *)
(** ** Lemmas: metadata records *)

(** What one metadata record does to the entry under construction. *)
Definition apply_rec (n : rnode) (r : Rec) : rnode :=
  let acl := acl_of n in
  match r with
  | RXAttr name v => add_xattr n (mkXattr name v)
  | RACLUser a => with_acl n (mkACLs (Users acl ++ [a]) (Groups acl) (GroupObj acl) (Default acl)
                                (DefaultUsers acl) (DefaultGroups acl))
  | RACLDefaultUser a => with_acl n (mkACLs (Users acl) (Groups acl) (GroupObj acl) (Default acl)
                                       (DefaultUsers acl ++ [a]) (DefaultGroups acl))
  | RACLGroup a => with_acl n (mkACLs (Users acl) (Groups acl ++ [a]) (GroupObj acl) (Default acl)
                                 (DefaultUsers acl) (DefaultGroups acl))
  | RACLDefaultGroup a => with_acl n (mkACLs (Users acl) (Groups acl) (GroupObj acl) (Default acl)
                                        (DefaultUsers acl) (DefaultGroups acl ++ [a]))
  | RACLGroupObj p => with_acl n (mkACLs (Users acl) (Groups acl) (Some p) (Default acl)
                                    (DefaultUsers acl) (DefaultGroups acl))
  | RACLDefault d => with_acl n (mkACLs (Users acl) (Groups acl) (GroupObj acl) (Some d)
                                   (DefaultUsers acl) (DefaultGroups acl))
  | RFCaps b => with_fcaps n b
  | RQuotaProjID q => with_quota n q
  | _ => n
  end.

Definition rec_step (k : bool) (n : rnode) (r : Rec) : rnode :=
  apply_rec (keep k n (rec_type r) (rec_body r)) r.

Lemma index_nul_app name v : nul ∉ name -> index_nul (name ++ nul :: v) = Some (length name).
Proof.
  induction name as [|c name IH]; intros Hn; cbn [app index_nul]; [by rewrite decide_True|].
  rewrite decide_False by set_solver. rewrite IH by set_solver. done.
Qed.

Lemma get64_at2 a b : is_u64 a -> is_u64 b ->
  get64 (drop 0 (le64 a ++ le64 b)) = a /\ get64 (drop 8 (le64 a ++ le64 b)) = b.
Proof.
  intros Ha Hb. rewrite drop_0. rewrite drop_len_app by (by rewrite length_le64). rewrite get64_le64.
  rewrite <- (app_nil_r (le64 b)), get64_le64. by rewrite !u64_small.
Qed.

Lemma get64_at1 a : is_u64 a -> get64 (drop 0 (le64 a)) = a.
Proof.
  intros Ha. rewrite drop_0, <- (app_nil_r (le64 a)), get64_le64. by apply u64_small.
Qed.

Lemma get64_at4 a b c d : is_u64 a -> is_u64 b -> is_u64 c -> is_u64 d ->
  let body := le64 a ++ le64 b ++ le64 c ++ le64 d in
  get64 (drop 0 body) = a /\ get64 (drop 8 body) = b /\ get64 (drop 16 body) = c /\ get64 (drop 24 body) = d.
Proof.
  intros Ha Hb Hc Hd body. subst body. rewrite drop_0.
  rewrite (drop_len_app (le64 a)) by (by rewrite length_le64).
  rewrite (app_assoc (le64 a)), (drop_len_app (le64 a ++ le64 b)) by (by rewrite length_app, !length_le64).
  rewrite <- !app_assoc. rewrite (app_assoc (le64 a)), (app_assoc (le64 a ++ le64 b)).
  rewrite (drop_len_app ((le64 a ++ le64 b) ++ le64 c)) by (by rewrite !length_app, !length_le64).
  rewrite <- !app_assoc, !get64_le64. rewrite <- (app_nil_r (le64 d)), get64_le64.
  by rewrite !u64_small.
Qed.

(** Decide equations between record type constants. *)
Ltac types :=
  repeat match goal with
  | |- context [decide (?a = ?b)] =>
      first [rewrite (decide_True (P := a = b)) by reflexivity
            |rewrite (decide_False (P := a = b)) by discriminate]
  | |- context [decide (?a = ?b \/ ?a = ?c)] =>
      first [rewrite (decide_True (P := a = b \/ a = c)) by (first [left; reflexivity|right; reflexivity])
            |rewrite (decide_False (P := a = b \/ a = c)) by (intros [E|E]; discriminate E)]
  end.

Lemma apply_meta_rec n r : wf_meta r -> apply_meta n (rec_type r) (rec_body r) = Ok (apply_rec n r).
Proof.
  intros [_ Hr]. destruct r; try done; unfold apply_meta; cbn [rec_type rec_body]; types; cbv zeta;
    cbn [Nat.mul Nat.add].
  - destruct Hr as [Hne Hn]. rewrite index_nul_app by done.
    destruct name as [|c name]; [done|]. cbn [length].
    rewrite take_len_app by done.
    change (nul :: value) with ([nul] ++ value).
    rewrite (app_assoc (c :: name)), drop_len_app by (rewrite length_app; cbn; lia). done.
  - destruct Hr as [H1 H2]. destruct (get64_at2 _ _ H1 H2) as [-> ->]. by destruct a.
  - destruct Hr as [H1 H2]. destruct (get64_at2 _ _ H1 H2) as [-> ->]. by destruct a.
  - destruct Hr as [H1 H2]. destruct (get64_at2 _ _ H1 H2) as [-> ->]. by destruct a.
  - destruct Hr as [H1 H2]. destruct (get64_at2 _ _ H1 H2) as [-> ->]. by destruct a.
  - by rewrite get64_at1.
  - destruct Hr as (H1 & H2 & H3 & H4). destruct (get64_at4 _ _ _ _ H1 H2 H3 H4) as (-> & -> & -> & ->).
    by destruct a.
  - by rewrite get64_at1.
Qed.

Lemma metadataRecord_rec r : wf_meta r ->
  exists want, metadataRecord (rec_type r) = Some want /\ (want = 0 \/ want = 16 + zlen (rec_body r)).
Proof.
  intros [_ Hr]. destruct r; try done; unfold metadataRecord; cbn [rec_type]; types;
    eexists; (split; [reflexivity|]); auto; right; cbn [rec_body];
    rewrite ?length_app, ?length_le64; done.
Qed.

Lemma rec_header r : zlen (rec_body r) <= maxRecordBody -> header (rec_type r) (rec_body r).
Proof. unfold header, is_u64, maxRecordBody. intros. split; [by destruct r|lia]. Qed.

(** A header the metadata loop stops at. *)
Definition stops (t : Z) : Prop := metadataRecord t = None.

Lemma rec_step_keep k n r : r_meta (rec_step k n r) = r_meta (keep k n (rec_type r) (rec_body r)).
Proof. by destruct r. Qed.

Lemma R_bind_ok {A B} (m : R A) (f : A -> R B) r a r' : m r = (Ok a, r') -> (m ≫= f) r = f a r'.
Proof. intros E. unfold mbind, R_bind. by rewrite E. Qed.

Lemma cfg_keepMeta r r' : cfg r' = cfg r -> rd_keepMeta r' = rd_keepMeta r.
Proof. unfold cfg. congruence. Qed.

(** A run of metadata records is applied in order. *)
Lemma metadata_loop_run s rs : forall n r fuel, Forall wf_meta rs -> streams r (frames rs ++ s) ->
  exists r', metadata_loop (length rs + fuel) n r = metadata_loop fuel (foldl (rec_step (rd_keepMeta r)) n rs) r' /\
    streams r' s /\ cfg r' = cfg r.
Proof.
  induction rs as [|x rs IH]; intros n r fuel Hw Hs; [by exists r|].
  apply Forall_cons in Hw as [Hx Hw]. rewrite frames_cons, <- app_assoc in Hs.
  destruct (peek_frame r _ _ _ Hs (rec_header x (proj1 Hx))) as (r1 & E & Hs1 & Hc1 & Hb).
  cbn [length Nat.add metadata_loop]. rewrite (R_bind_ok _ _ _ _ _ E).
  destruct (metadataRecord_rec x Hx) as (want & -> & Hwant).
  assert (negb (want =? 0) && negb (16 + zlen (rec_body x) =? want) = false) as ->.
  { destruct Hwant as [-> | ->]; [done|]. rewrite Z.eqb_refl. apply andb_false_r. }
  destruct (rbody_frame r1 (rec_type x) _ _ Hb (proj1 Hx)) as (r2 & E2 & Hs2 & Hc2 & _).
  rewrite (R_bind_ok _ _ _ _ _ E2). erewrite R_bind_ok by reflexivity.
  unfold lift. erewrite R_bind_ok by (rewrite apply_meta_rec by done; reflexivity).
  assert (rd_keepMeta r2 = rd_keepMeta r) as -> by (rewrite <- (cfg_keepMeta r r1) by done; by apply cfg_keepMeta).
  destruct (IH (rec_step (rd_keepMeta r) n x) r2 fuel Hw Hs2) as (r3 & E3 & Hs3 & Hc3).
  rewrite (cfg_keepMeta r1 r2), (cfg_keepMeta r r1) in E3 by done.
  exists r3. split_and!; [exact E3|done|congruence].
Qed.

Lemma metadata_loop_frames t b rest : header t b -> stops t -> forall rs n r fuel,
  Forall wf_meta rs -> (length rs < fuel)%nat -> streams r (frames rs ++ frame t b ++ rest) ->
  exists r', metadata_loop fuel n r = (Ok (foldl (rec_step (rd_keepMeta r)) n rs, t, 16 + zlen b), r') /\
    streams r' (frame t b ++ rest) /\ cfg r' = cfg r /\ contents (rd_br r') = (b ++ rest, EOF).
Proof.
  intros Hh Hst rs n r fuel Hw Hf Hs.
  destruct (metadata_loop_run _ rs n r (S (fuel - S (length rs))) Hw Hs) as (r1 & E1 & Hs1 & Hc1).
  replace (length rs + S (fuel - S (length rs)))%nat with fuel in E1 by lia.
  destruct (peek_frame r1 t b rest Hs1 Hh) as (r2 & E & Hs2 & Hc2 & Hb).
  exists r2. rewrite E1. cbn [metadata_loop]. rewrite (R_bind_ok _ _ _ _ _ E). unfold stops in Hst. rewrite Hst.
  split_and!; try done. congruence.
Qed.

(** At the end of the stream no record follows the metadata. *)
Lemma metadata_loop_end rs n r fuel : Forall wf_meta rs -> (length rs < fuel)%nat -> streams r (frames rs) ->
  exists pos r', metadata_loop fuel n r = (Err (RdTruncated pos), r').
Proof.
  intros Hw Hf Hs. rewrite <- (app_nil_r (frames rs)) in Hs.
  destruct (metadata_loop_run _ rs n r (S (fuel - S (length rs))) Hw Hs) as (r1 & E1 & (Hh & He & Hs1) & _).
  replace (length rs + S (fuel - S (length rs)))%nat with fuel in E1 by lia. rewrite E1. cbn [metadata_loop].
  unfold stream in Hs1. destruct (rd_have r1) as [[t l]|] eqn:Eh; [done|]. cbn [app] in Hs1.
  unfold mbind, R_bind, peek. rewrite Eh. destruct (ReadFull_spec 16 (rd_br r1)) as [br H]. cbv zeta in H.
  rewrite Hs1, He in H. rewrite decide_False in H by (cbn; lia). rewrite H. cbn. by eexists _, _.
Qed.

(** The records of a node rebuild its metadata. *)
Lemma with_meta_apply n m r : apply_rec (with_meta n m) r = with_meta (apply_rec n r) m.
Proof. by destruct r. Qed.

Lemma keep_meta k n r : wf_meta r ->
  keep k n (rec_type r) (rec_body r) =
  with_meta n (if k then r_meta n ++ frame (rec_type r) (rec_body r) else r_meta n).
Proof.
  intros [Hm _]. unfold keep. destruct k; [|by destruct n]. f_equal.
  unfold appendHeader, AppendUint64, frame. rewrite u64_small; [by rewrite <- !app_assoc|].
  unfold is_u64, HeaderSize, maxRecordBody in *. lia.
Qed.

Lemma foldl_rec_step k rs n : Forall wf_meta rs ->
  foldl (rec_step k) n rs =
  with_meta (foldl apply_rec n rs) (if k then r_meta n ++ frames rs else r_meta n).
Proof.
  intros Hw. revert n. induction Hw as [|r rs Hr _ IH]; intros n; cbn [foldl].
  - rewrite frames_nil, app_nil_r. destruct k; by destruct n.
  - rewrite IH, rec_step_keep. unfold rec_step. rewrite keep_meta by done. cbn [with_meta r_meta].
    rewrite with_meta_apply. set (m := if k then _ else r_meta n).
    assert (foldl apply_rec (with_meta (apply_rec n r) m) rs = with_meta (foldl apply_rec (apply_rec n r) rs) m) as ->.
    { generalize (apply_rec n r) m. clear. induction rs as [|x rs IH]; intros n m; [done|].
      cbn [foldl]. by rewrite with_meta_apply, IH. }
    subst m. rewrite frames_cons. by destruct k; rewrite <- ?app_assoc.
Qed.

Lemma fold_xattrs n xs :
  foldl apply_rec n ((fun x => RXAttr (xa_Name x) (xa_Value x)) <$> xs) =
  mkRNode (r_Path n) (r_Entry n) (r_Hardlink n) (r_LinkTarget n) (r_Xattrs n ++ xs) (r_ACL n) (r_FCaps n)
    (r_QuotaProjID n) (r_Device n) (r_Size n) (r_PayloadOffset n) (r_meta n).
Proof.
  revert n. induction xs as [|[a v] xs IH]; intros n; cbn [fmap list_fmap foldl].
  - rewrite app_nil_r. by destruct n.
  - rewrite IH. cbn. by rewrite <- app_assoc.
Qed.

(** One kind of ACL record, repeated. *)
Lemma fold_acl_list {A} (rec : A -> Rec) (upd : ACLs -> list A -> ACLs) n :
  (forall a, upd a [] = a) -> (forall a x l, upd (upd a [x]) l = upd a (x :: l)) ->
  (forall a x, apply_rec (with_acl n a) (rec x) = with_acl n (upd a [x])) ->
  forall l a, foldl apply_rec (with_acl n a) (rec <$> l) = with_acl n (upd a l).
Proof.
  intros H0 H1 H2 l. induction l as [|x l IH]; intros a; cbn [fmap list_fmap foldl]; [by rewrite H0|].
  by rewrite H2, IH, H1.
Qed.

Lemma fold_acl n acl : foldl apply_rec (with_acl n emptyACLs) (acl_recs acl) = with_acl n acl.
Proof.
  unfold acl_recs. rewrite !foldl_app.
  rewrite (fold_acl_list RACLUser (fun a l => mkACLs (Users a ++ l) (Groups a) (GroupObj a) (Default a) (DefaultUsers a) (DefaultGroups a)) n)
    by (intros; cbn; rewrite ?app_nil_r, <- ?app_assoc; by destruct a).
  rewrite (fold_acl_list RACLGroup (fun a l => mkACLs (Users a) (Groups a ++ l) (GroupObj a) (Default a) (DefaultUsers a) (DefaultGroups a)) n)
    by (intros; cbn; rewrite ?app_nil_r, <- ?app_assoc; by destruct a).
  set (a0 := mkACLs _ _ _ _ _ _).
  assert (foldl apply_rec (with_acl n a0) match GroupObj acl with Some p => [RACLGroupObj p] | None => [] end =
    with_acl n (mkACLs (Users acl) (Groups acl) (GroupObj acl) None [] [])) as ->
    by (destruct (GroupObj acl); done).
  assert (foldl apply_rec (with_acl n (mkACLs (Users acl) (Groups acl) (GroupObj acl) None [] []))
      match Default acl with Some p => [RACLDefault p] | None => [] end =
    with_acl n (mkACLs (Users acl) (Groups acl) (GroupObj acl) (Default acl) [] [])) as ->
    by (destruct (Default acl); done).
  rewrite (fold_acl_list RACLDefaultUser (fun a l => mkACLs (Users a) (Groups a) (GroupObj a) (Default a) (DefaultUsers a ++ l) (DefaultGroups a)) n)
    by (intros; cbn; rewrite ?app_nil_r, <- ?app_assoc; by destruct a).
  rewrite (fold_acl_list RACLDefaultGroup (fun a l => mkACLs (Users a) (Groups a) (GroupObj a) (Default a) (DefaultUsers a) (DefaultGroups a ++ l)) n)
    by (intros; cbn; rewrite ?app_nil_r, <- ?app_assoc; by destruct a).
  by destruct acl.
Qed.

Lemma fold_acl_none n acl : r_ACL n = None ->
  foldl apply_rec n (acl_recs acl) =
  if decide (acl_recs acl = []) then n else with_acl n acl.
Proof.
  intros Hn. case_decide as He; [by rewrite He|]. rewrite <- fold_acl.
  assert (Forall (fun r => apply_rec n r = apply_rec (with_acl n emptyACLs) r) (acl_recs acl)) as Ha.
  { assert (acl_of n = emptyACLs) as Hz by (unfold acl_of; by rewrite Hn).
    unfold acl_recs. rewrite !Forall_app, !Forall_fmap.
    split_and!; try (apply Forall_true; intros; cbn; by rewrite Hz).
    - destruct (GroupObj acl); repeat constructor. cbn. by rewrite Hz.
    - destruct (Default acl); repeat constructor. cbn. by rewrite Hz. }
  destruct Ha as [|r rs Hr _]; [done|]. cbn [foldl]. by rewrite Hr.
Qed.

(** The entry after the metadata records of node [nd]. *)
Definition meta_done (path : bytes) (e : Entry) (nd : node) (m : bytes) : rnode :=
  mkRNode path e false [] (n_Xattrs nd) (decode_acl nd) (decode_fcaps nd) (n_QuotaProjID nd) zeroDevice 0 0 m.

Lemma fold_extra path e nd m :
  foldl apply_rec (mkRNode path e false [] [] None None 0 zeroDevice 0 0 m) (extra_recs nd) =
  meta_done path e nd m.
Proof.
  unfold extra_recs. rewrite !foldl_app, fold_xattrs. cbn [r_Path r_Entry r_Hardlink r_LinkTarget r_Xattrs
    r_ACL r_FCaps r_QuotaProjID r_Device r_Size r_PayloadOffset r_meta app].
  assert (foldl apply_rec (mkRNode path e false [] (n_Xattrs nd) None None 0 zeroDevice 0 0 m)
    match n_ACL nd with Some acl => acl_recs acl | None => [] end =
    mkRNode path e false [] (n_Xattrs nd) (decode_acl nd) None 0 zeroDevice 0 0 m) as ->.
  { unfold decode_acl. destruct (n_ACL nd); [|done]. rewrite fold_acl_none by done. by case_decide. }
  assert (foldl apply_rec (mkRNode path e false [] (n_Xattrs nd) (decode_acl nd) None 0 zeroDevice 0 0 m)
    (if 0 <? zlen (n_FCaps nd) then [RFCaps (n_FCaps nd)] else []) =
    mkRNode path e false [] (n_Xattrs nd) (decode_acl nd) (decode_fcaps nd) 0 zeroDevice 0 0 m) as ->.
  { unfold decode_fcaps. destruct (n_FCaps nd); [done|]. by rewrite (proj2 (Z.ltb_lt _ _)) by (cbn; lia). }
  unfold meta_done. destruct (Z.eqb_spec (n_QuotaProjID nd) 0) as [->|]; done.
Qed.

Lemma drop_le64 n a s : drop (8 + n) (le64 a ++ s) = drop n s.
Proof. rewrite <- drop_drop. by rewrite drop_len_app by (by rewrite length_le64). Qed.
Lemma drop_le32 n a s : drop (4 + n) (le32 a ++ s) = drop n s.
Proof. rewrite <- drop_drop. by rewrite drop_len_app by (by rewrite length_le32). Qed.

Lemma decode_entry_body e : wf_entry e -> decode_entry (entry_body e) = e.
Proof.
  intros (Hm & Hf & Hu & Hg & Hs & Hn). unfold decode_entry, entry_body.
  rewrite get64_le64.
  rewrite (drop_le64 0), drop_0, get64_le64.
  rewrite (drop_le64 8), (drop_le64 0), drop_0, get32_le32.
  rewrite (drop_le64 12), (drop_le64 4), (drop_le32 0), drop_0, get32_le32.
  rewrite (drop_le64 16), (drop_le64 8), (drop_le32 4), (drop_le32 0), drop_0, get64_le64.
  rewrite (drop_le64 24), (drop_le64 16), (drop_le32 12), (drop_le32 8), (drop_le64 0), drop_0, get32_le32.
  rewrite i64_u64, !u32_small, Hf, (u64_small 0), u64_small by done. destruct e. cbn in *. by subst.
Qed.

Lemma cstring_nul s : cstring (s ++ [nul]) = Ok s.
Proof.
  unfold cstring. rewrite last_snoc, decide_True by done.
  by rewrite take_len_app by (rewrite length_app; cbn; lia).
Qed.

(* ------------------------------------------------------------------ *)
(** ** Lemmas: reader states between entries *)

Section reading.
Context (v : Z) (pay : option readerAt) (k : bool).

(** The constants of one run of the reader. *)
Definition conf (r : rstate) : Prop :=
  rd_version r = v /\ rd_payload r = pay /\ rd_keepMeta r = k /\ rd_started r = true /\ rd_err r = None.

(** Ready to decode the stream [s] inside the directories [D]. *)
Definition ready (r : rstate) (D : list bytes) (s : bytes) : Prop :=
  conf r /\ rd_dirs r = D /\ streams r s /\ rd_content r = CNone /\ rd_left r = 0.

(** [ra] holds [c] at [off]. *)
Definition serves (ra : readerAt) (off : Z) (c : bytes) : Prop :=
  forall i n, (i + n <= length c)%nat -> ra (off + Z.of_nat i) n = (take n (drop i c), None).

(** [c] is the unread content of the current file. *)
Definition has_left (r : rstate) (c : bytes) : Prop :=
  match rd_content r with
  | CNone => rd_left r = 0 /\ c = []
  | CInline => rd_have r = None /\ rd_left r = zlen c /\ is_i64 (zlen c)
  | CSection off limit =>
      rd_left r = zlen c /\ limit = off + zlen c /\
      match pay with Some ra => serves ra off c | None => False end
  | CErr => pay = None /\ v = 2
  end.

Definition inline_part (r : rstate) (c : bytes) : bytes := if inline r then c else [].

(** The goodbye tables of finished directories. *)
Definition closes (gbs : list bytes) : bytes := gbs ≫= frame TypeGoodbye.
Definition small_tables (gbs : list bytes) : Prop := Forall (fun b => zlen b <= 2 ^ 62) gbs.

(** Between two entries: [c] may still be read, then follow the tables of
    finished directories and the stream [s] inside [D]. *)
Definition pend (D : list bytes) (s : bytes) (r : rstate) (c : bytes) : Prop :=
  conf r /\ has_left r c /\ exists E gbs,
    rd_dirs r = E ++ D /\ length E = length gbs /\ small_tables gbs /\
    streams r (inline_part r c ++ closes gbs ++ s).

Lemma closes_app g1 g2 : closes (g1 ++ g2) = closes g1 ++ closes g2.
Proof. apply bind_app. Qed.

(** A table at the head of the stream closes the innermost directory. *)
Lemma pend_close d D gb s r c : zlen gb <= 2 ^ 62 ->
  pend (d :: D) (frame TypeGoodbye gb ++ s) r c -> pend D s r c.
Proof.
  intros Hg (Hc & Hl & E & gbs & Hd & Hn & Hsm & Hs). split; [done|]. split; [done|].
  exists (E ++ [d]), (gbs ++ [gb]). rewrite Hd, !length_app, closes_app, Hn, <- !app_assoc.
  split_and!; [done|done| |].
  - apply Forall_app. repeat constructor; done.
  - unfold closes at 2. cbn [mbind list_bind]. by rewrite app_nil_r.
Qed.

Lemma ready_pend r D s : ready r D s -> pend D s r [].
Proof.
  intros (Hc & Hd & Hs & Hn & Hl). split; [done|]. unfold has_left, inline_part, inline. rewrite Hn.
  split; [done|]. exists [], []. split_and!; [done|done|constructor|done].
Qed.

(** The beginning of [next]. *)
Definition next_start : R unit := _ ← skip_content; rmod (set_content CNone 0).

Lemma pend_skip D s r c : pend D s r c ->
  exists r1 E gbs, next_start r = (Ok (), r1) /\ ready r1 (E ++ D) (closes gbs ++ s) /\
    length E = length gbs /\ small_tables gbs.
Proof.
  intros (Hc & Hl & E & gbs & Hd & Hn & Hsm & Hs). unfold has_left in Hl.
  unfold next_start, mbind, R_bind, skip_content, inline_part, inline in *.
  destruct (rd_content r) eqn:Ec; cbn [andb].
  - eexists _, E, gbs. split; [reflexivity|]. done.
  - destruct Hl as (Hh & Hl & Hi). destruct Hs as (Hs1 & Hs2 & Hs3).
    unfold stream in Hs3. rewrite Hh in Hs3. cbn [app] in Hs3.
    destruct (Z.ltb_spec 0 (rd_left r)) as [Hpos|Hpos].
    + rewrite Hl in *. rewrite i64_small, (proj2 (Z.ltb_ge _ _)), Nat2Z.id by (done || lia).
      destruct (ReadFull_spec (length c) (rd_br r)) as [br H]. cbv zeta in H.
      rewrite Hs3 in H. rewrite decide_True in H by (rewrite length_app; lia). destruct H as [-> Hc'].
      rewrite drop_app_length in Hc'. eexists _, E, gbs. split; [reflexivity|]. split; [|done].
      split; [done|]. split; [done|]. split; [|done]. unfold streams, stream. cbn. by rewrite Hh, Hc'.
    + assert (c = []) as -> by (destruct c; [done|cbn in *; lia]). cbn [app] in Hs3.
      eexists _, E, gbs. split; [reflexivity|]. split; [|done].
      split; [done|]. split; [done|]. split; [|done]. unfold streams, stream. cbn. by rewrite Hh.
  - eexists _, E, gbs. split; [reflexivity|]. done.
  - eexists _, E, gbs. split; [reflexivity|]. done.
Qed.

Lemma next_eq r : next r = (_ ← next_start;
  started ← rget rd_started;
  if negb started then _ ← rmod set_started; _ ← readHead; read_node []
  else dirs ← rget rd_dirs; next_loop dirs) r.
Proof.
  unfold next, next_start, mbind, R_bind. destruct (skip_content r) as [[[]|e] r1]; done.
Qed.

(** Finished directories are popped. *)
Lemma next_loop_closes gbs : forall E D s r, ready r (E ++ D) (closes gbs ++ s) ->
  length E = length gbs -> small_tables gbs ->
  exists r1, next_loop (E ++ D) r = next_loop D r1 /\ ready r1 D s.
Proof.
  induction gbs as [|gb gbs IH]; intros [|d E] D s r Hr Hn Hsm; try done.
  { exists r. done. }
  apply Forall_cons in Hsm as [Hg Hsm]. destruct Hr as (Hc & Hd & Hs & Hcn & Hl).
  unfold closes in Hs. cbn [mbind list_bind] in Hs. rewrite <- app_assoc in Hs.
  destruct (peek_frame r _ _ _ Hs) as (r1 & E1 & Hs1 & Hc1 & Hb); [split; [by vm_compute|lia]|].
  destruct (rskip_frame r1 TypeGoodbye gb _ Hb Hg) as (r2 & E2 & Hs2 & Hc2).
  cbn [next_loop app]. rewrite (R_bind_ok _ _ _ _ _ E1). types. rewrite (R_bind_ok _ _ _ _ _ E2).
  erewrite R_bind_ok by reflexivity. apply IH; [|by injection Hn|done].
  unfold cfg in *. unfold ready, conf in *. cbn. split_and!; try done; try intuition congruence.
Qed.

Lemma conf_cfg r r' : cfg r' = cfg r -> conf r -> conf r'.
Proof. unfold cfg, conf. intros E. simplify_eq. intuition congruence. Qed.

Lemma ready_step r r' D s s' : ready r D s -> cfg r' = cfg r -> streams r' s' -> ready r' D s'.
Proof.
  intros (Hc & Hd & Hs & Hn & Hl) E Hs'. split; [by eapply conf_cfg|].
  unfold cfg in E. simplify_eq. split; [congruence|]. split; [done|]. split; congruence.
Qed.

(** One more record is read. *)
Lemma ready_rec r D t b rest : ready r D (frame t b ++ rest) -> header t b ->
  exists r1, peek r = (Ok (t, 16 + zlen b), r1) /\ ready r1 D (frame t b ++ rest) /\
    contents (rd_br r1) = (b ++ rest, EOF).
Proof.
  intros Hr Hh. destruct (peek_frame r t b rest) as (r1 & E & Hs & Hc & Hb); [apply Hr|done|].
  exists r1. split_and!; try done. by eapply ready_step.
Qed.
Lemma ready_body r D t b rest s : ready r D s -> contents (rd_br r) = (b ++ rest, EOF) ->
  zlen b <= maxRecordBody ->
  exists r1, rbody t (16 + zlen b) r = (Ok b, r1) /\ ready r1 D rest.
Proof.
  intros Hr Hb Hm. destruct (rbody_frame r t b rest Hb Hm) as (r1 & E & Hs & Hc & _).
  exists r1. split; [done|]. by eapply ready_step.
Qed.

(** [s] begins with a record that ends a run of metadata records. *)
Definition starts (s : bytes) : Prop :=
  exists t b rest, s = frame t b ++ rest /\ header t b /\ stops t.

(** The entry record is read and the metadata records follow. *)
Lemma read_node_entry n path r D s :
  wf_node n -> ready r D (frames (REntry (metaEntry n) :: extra_recs n) ++ s) ->
  exists r1, read_node path r =
      ('(n, typ, length) ← metadata (mkRNode path (metaEntry n) false [] [] None None 0 zeroDevice 0 0
          (if k then frame TypeEntry (rec_body (REntry (metaEntry n))) else []));
       node_special path n typ length) r1 /\
    ready r1 D (frames (extra_recs n) ++ s) /\ (length (extra_recs n) < S (length (contents (rd_br r1)).1))%nat.
Proof.
  intros Hw Hr. rewrite frames_cons, <- app_assoc in Hr.
  set (eb := rec_body (REntry (metaEntry n))) in *. cbn [rec_type] in Hr.
  assert (zlen eb = 40) as Hel by (subst eb; cbn [rec_body]; unfold entry_body; by autorewrite with gopbs).
  assert (header TypeEntry eb) as Heh by (split; [by vm_compute|lia]).
  destruct (ready_rec _ _ _ _ _ Hr Heh) as (r1 & E1 & Hr1 & Hb1).
  unfold read_node. rewrite (R_bind_ok _ _ _ _ _ E1).
  rewrite decide_False by (intros [E _]; discriminate E). types.
  rewrite bool_decide_true by done. cbn [negb].
  assert ((16 + zlen eb =? EntrySize) = true) as -> by (rewrite Hel; done). cbn [negb].
  destruct (ready_body _ _ TypeEntry _ _ _ Hr1 Hb1) as (r2 & E2 & Hr2); [unfold maxRecordBody; lia|].
  rewrite (R_bind_ok _ _ _ _ _ E2). erewrite R_bind_ok by reflexivity.
  assert (rd_keepMeta r2 = k) as -> by apply Hr2.
  assert (decode_entry eb = metaEntry n) as -> by (apply decode_entry_body, Hw).
  assert (keep k (mkRNode path (metaEntry n) false [] [] None None 0 zeroDevice 0 0 []) TypeEntry eb =
    mkRNode path (metaEntry n) false [] [] None None 0 zeroDevice 0 0 (if k then frame TypeEntry eb else [])) as ->.
  { unfold keep. destruct k; [|done]. unfold with_meta, appendHeader, AppendUint64, frame.
    rewrite Hel, <- !app_assoc. done. }
  assert (rd_have r2 = None) as Hh2 by (unfold rbody in E2; by repeat case_match; simplify_eq).
  exists r2. split_and!; [done|done|].
  destruct Hr2 as (_ & _ & (_ & _ & Hs2) & _). unfold stream in Hs2. rewrite Hh2 in Hs2. cbn [app] in Hs2.
  pose proof (f_equal length Hs2) as Hl. rewrite !length_app in Hl.
  assert (16 * length (extra_recs n) <= length (frames (extra_recs n)))%nat as Hfr.
  { clear. induction (extra_recs n) as [|x xs IH]; [done|]. rewrite frames_cons, length_app, length_frame. cbn [length]. lia. }
  lia.
Qed.

(** The part of [node] before the type-specific record. *)
Lemma read_node_prefix n path r D t b rest :
  wf_node n -> header t b -> stops t ->
  ready r D (frames (REntry (metaEntry n) :: extra_recs n) ++ frame t b ++ rest) ->
  exists r1, read_node path r =
      node_special path (meta_done path (metaEntry n) n (if k then metadataBytes [] n else [])) t (16 + zlen b) r1 /\
    ready r1 D (frame t b ++ rest) /\ contents (rd_br r1) = (b ++ rest, EOF).
Proof.
  intros Hw Hh Hst Hr. destruct (read_node_entry n path r D _ Hw Hr) as (r2 & E2 & Hr2 & Hf).
  set (n0 := mkRNode path _ _ _ _ _ _ _ _ _ _ _) in E2.
  destruct (metadata_loop_frames t b rest Hh Hst (extra_recs n) n0 r2 _ (wf_extra n Hw) Hf) as (r3 & E3 & Hs3 & Hc3 & Hb3);
    [apply Hr2|].
  rewrite E2. erewrite (R_bind_ok (metadata _)) by exact E3.
  assert (rd_keepMeta r2 = k) as Hk2 by apply Hr2. rewrite Hk2 in *.
  exists r3. split; [|split; [by eapply ready_step|done]].
  subst n0. rewrite foldl_rec_step by apply Hw. rewrite fold_extra. cbn [r_meta].
  rewrite metadataBytes_recs, frames_cons. by destruct k.
Qed.

(** A node whose bytes end with its metadata does not decode. *)
Lemma read_node_end n path r D : wf_node n -> ready r D (frames (REntry (metaEntry n) :: extra_recs n)) ->
  exists pos r1, read_node path r = (Err (RdTruncated pos), r1).
Proof.
  intros Hw Hr. rewrite <- (app_nil_r (frames _)) in Hr.
  destruct (read_node_entry n path r D _ Hw Hr) as (r2 & E2 & Hr2 & Hf). rewrite app_nil_r in Hr2.
  set (n0 := mkRNode path _ _ _ _ _ _ _ _ _ _ _) in E2.
  destruct (metadata_loop_end (extra_recs n) n0 r2 _ (wf_extra n Hw) Hf) as (pos & r3 & E3); [apply Hr2|].
  exists pos, r3. rewrite E2. unfold mbind, R_bind, metadata. by rewrite E3.
Qed.
Context (pc : Z -> Z -> bytes).

(** The content of an item; [pc] is what the payload stream holds. *)
Definition item_content (it : item) : bytes :=
  match it_data it with DContent c => c | DRef off size => pc off size | _ => [] end.

(** The payload stream resolves a reference. *)
Definition served (it : item) : Prop :=
  match it_data it, pay with
  | DRef off size, Some ra =>
      ra 0 16%nat = (AppendPayloadStartMarker [], None) /\
      off <= 2 ^ 62 /\ size <= 2 ^ 62 /\
      ra off 16%nat = (AppendPayloadHeader [] size, None) /\
      zlen (pc off size) = size /\ serves ra (off + 16) (pc off size)
  | _, _ => True
  end.

(** Successive calls of [Next], content read or not in between, return [xs]
    and lead from the stream [s] inside [D] to [s'] inside [D']. *)
Fixpoint visits (D : list bytes) (s : bytes) (xs : list item) (D' : list bytes) (s' : bytes) : Prop :=
  match xs with
  | [] => forall r c, pend D s r c -> pend D' s' r c
  | x :: xs => exists D1 s1,
      (forall r c, pend D s r c -> exists r1, Next r = (Ok (decode_item k x), r1) /\
         pend D1 s1 r1 (item_content x)) /\
      visits D1 s1 xs D' s'
  end.

Lemma visits_impl xs D s D' s' D0 s0 :
  (forall r c, pend D0 s0 r c -> pend D s r c) -> visits D s xs D' s' -> visits D0 s0 xs D' s'.
Proof.
  intros Hi. destruct xs as [|x xs]; cbn [visits]; [eauto|].
  intros (D1 & s1 & Hx & Hv). exists D1, s1. eauto.
Qed.

Lemma visits_app xs ys D s D1 s1 D2 s2 :
  visits D s xs D1 s1 -> visits D1 s1 ys D2 s2 -> visits D s (xs ++ ys) D2 s2.
Proof.
  revert D s. induction xs as [|x xs IH]; intros D s Hx Hy; cbn [app visits] in *.
  - by eapply visits_impl.
  - destruct Hx as (D' & s' & Hx & Hv). exists D', s'. eauto.
Qed.

Lemma visits_post xs D s D1 s1 D2 s2 :
  visits D s xs D1 s1 -> (forall r c, pend D1 s1 r c -> pend D2 s2 r c) -> visits D s xs D2 s2.
Proof. intros Hv Hi. rewrite <- (app_nil_r xs). by eapply visits_app. Qed.

Lemma payload_header_frame c : is_i64 (zlen c) -> AppendPayloadHeader [] (zlen c) ++ c = frame TypePayload c.
Proof.
  intros Hi. unfold AppendPayloadHeader, appendHeader, AppendUint64, frame, SizePayload. cbn [app].
  rewrite u64_small by (unfold is_u64, is_i64, HeaderSize in *; lia). by rewrite <- !app_assoc.
Qed.

(** The type-specific record of every kind. *)
Lemma special_dir ap n m r D s t l : ready r D s -> wf_node n -> n_Kind n = KindDirectory ->
  (length D < maxDepth)%nat ->
  node_special ap (meta_done ap (metaEntry n) n m) t l r =
    (Ok (meta_done ap (metaEntry n) n m), set_dirs (ap :: D) r) /\
  ready (set_dirs (ap :: D) r) (ap :: D) s.
Proof.
  intros (Hc & Hd & Hs & Hn & Hl) Hw Hk Hdep. pose proof (wf_mode n Hw) as Hm. rewrite Hk in Hm.
  unfold node_special. cbn [meta_done r_Entry metaEntry e_Mode]. rewrite Hm. cbn [kind_mode]. types.
  unfold mbind, R_bind, rget, rmod. rewrite Hd. rewrite decide_False by lia. by split.
Qed.

Lemma special_symlink ap n m r D rest : ready r D (frames [RSymlink (n_LinkTarget n)] ++ rest) ->
  contents (rd_br r) = (n_LinkTarget n ++ [nul] ++ rest, EOF) ->
  wf_node n -> n_Kind n = KindSymlink -> exists r1,
  node_special ap (meta_done ap (metaEntry n) n m) TypeSymlink (16 + zlen (n_LinkTarget n ++ [nul])) r =
    (Ok (with_target (meta_done ap (metaEntry n) n m) (n_LinkTarget n) false), r1) /\ ready r1 D rest.
Proof.
  intros Hr Hb Hw Hk. pose proof (wf_mode n Hw) as Hm. rewrite Hk in Hm.
  destruct (wf_symlink n Hw Hk) as [Hne Hl].
  unfold node_special. cbn [meta_done r_Entry metaEntry e_Mode]. rewrite Hm. cbn [kind_mode]. types.
  rewrite bool_decide_true by done. cbn [negb]. rewrite app_assoc in Hb.
  destruct (ready_body _ _ TypeSymlink _ _ _ Hr Hb) as (r1 & E1 & Hr1); [rewrite length_app; cbn; lia|].
  rewrite (R_bind_ok _ _ _ _ _ E1). unfold lift. erewrite R_bind_ok by (rewrite cstring_nul; reflexivity).
  rewrite decide_False by done. by exists r1.
Qed.

Lemma special_device ap n m r D rest :
  let b := le64 (Major (st_Rdev (n_Stat n))) ++ le64 (Minor (st_Rdev (n_Stat n))) in
  ready r D (frame TypeDevice b ++ rest) -> contents (rd_br r) = (b ++ rest, EOF) ->
  wf_node n -> n_Kind n = KindBlockDevice \/ n_Kind n = KindCharDevice -> exists r1,
  node_special ap (meta_done ap (metaEntry n) n m) TypeDevice (16 + zlen b) r =
    (Ok (with_device (meta_done ap (metaEntry n) n m) (st_Rdev (n_Stat n))), r1) /\ ready r1 D rest.
Proof.
  intros b Hr Hb Hw Hk. pose proof (wf_mode n Hw) as Hm. destruct (wf_rdev n Hw) as [H1 H2].
  assert (zlen b = 16) as Hlb by (subst b; by autorewrite with gopbs).
  unfold node_special. cbn [meta_done r_Entry metaEntry e_Mode]. rewrite Hm.
  assert (Z.land (st_Mode (n_Stat n)) modeTypeMask = modeBlockDev \/
          Z.land (st_Mode (n_Stat n)) modeTypeMask = modeCharDev) as Hmode
    by (rewrite Hm; destruct Hk as [-> | ->]; auto).
  rewrite Hm in Hmode. rewrite !decide_False by (intros E; rewrite E in Hmode; destruct Hmode; discriminate).
  rewrite decide_True by done. rewrite bool_decide_true by (split; [done|by rewrite Hlb]). cbn [negb].
  destruct (ready_body _ _ TypeDevice _ _ _ Hr Hb) as (r1 & E1 & Hr1); [unfold maxRecordBody; lia|].
  rewrite (R_bind_ok _ _ _ _ _ E1). subst b. destruct (get64_at2 _ _ H1 H2) as [E3 E4].
  rewrite drop_0 in E3. rewrite E3, E4. exists r1. split; [|done]. by destruct (st_Rdev _).
Qed.

Lemma special_plain ap n m r t l : wf_node n -> n_Kind n = KindFifo \/ n_Kind n = KindSocket ->
  node_special ap (meta_done ap (metaEntry n) n m) t l r = (Ok (meta_done ap (metaEntry n) n m), r).
Proof.
  intros Hw Hk. pose proof (wf_mode n Hw) as Hm.
  unfold node_special. cbn [meta_done r_Entry metaEntry e_Mode]. rewrite Hm.
  destruct Hk as [-> | ->]; cbn [kind_mode]; by types.
Qed.

Lemma special_content ap n m r D c rest : v = 1 -> is_i64 (zlen c) -> ready r D (frame TypePayload c ++ rest) ->
  contents (rd_br r) = (c ++ rest, EOF) -> wf_node n -> is_payload (n_Kind n) = true -> exists r1,
  node_special ap (meta_done ap (metaEntry n) n m) TypePayload (16 + zlen c) r =
    (Ok (with_payload (meta_done ap (metaEntry n) n m) 0 (zlen c)), r1) /\ pend D rest r1 c /\ streams r1 (c ++ rest).
Proof.
  intros Hv Hi (Hc & Hd & Hs & Hn & Hl) Hb Hw Hk. pose proof (wf_mode n Hw) as Hm.
  unfold node_special. cbn [meta_done r_Entry metaEntry e_Mode]. rewrite Hm.
  destruct (n_Kind n); try done; cbn [kind_mode]; types; unfold payloadRecord;
    (rewrite decide_True by (split; [by rewrite (proj1 Hc)|done])); cbn [r_PayloadOffset meta_done];
    (replace (16 + zlen c - HeaderSize) with (zlen c) by (unfold HeaderSize; lia));
    (eexists; split; [reflexivity|]); (split; [split; [done|]; split; [done|]; exists [], []|]);
    rewrite ?Hd; unfold streams, stream, inline_part; cbn; rewrite Hb; by repeat constructor.
Qed.
Lemma header_payload_fields size : is_u64 size -> size <= 2 ^ 62 ->
  get64 (AppendPayloadHeader [] size) = TypePayload /\
  get64 (drop 8 (AppendPayloadHeader [] size)) = u64 (HeaderSize + size).
Proof.
  intros Hu Hs. unfold AppendPayloadHeader, appendHeader, AppendUint64, SizePayload. cbn [app].
  rewrite (drop_le64 0), drop_0, get64_le64.
  rewrite <- (app_nil_r (le64 (u64 (HeaderSize + size)))), get64_le64, u64_u64. by split.
Qed.

Lemma special_ref ap n m r D off size rest : v = 2 -> is_u64 off -> is_u64 size ->
  served (mkItem 0 ap n (DRef off size)) ->
  let b := le64 off ++ le64 size in
  ready r D (frame TypePayloadRef b ++ rest) -> contents (rd_br r) = (b ++ rest, EOF) ->
  wf_node n -> is_payload (n_Kind n) = true -> exists r1,
  node_special ap (meta_done ap (metaEntry n) n m) TypePayloadRef (16 + zlen b) r =
    (Ok (with_payload (meta_done ap (metaEntry n) n m) off size), r1) /\ pend D rest r1 (pc off size).
Proof.
  intros Hv Ho Hs Hsv b Hr Hb Hw Hk. pose proof (wf_mode n Hw) as Hm.
  assert (zlen b = 16) as Hlb by (subst b; by autorewrite with gopbs).
  destruct (ready_body _ _ TypePayloadRef _ _ _ Hr Hb) as (r1 & E1 & Hr1); [unfold maxRecordBody; lia|].
  destruct (get64_at2 _ _ Ho Hs) as [E3 E4]. rewrite drop_0 in E3. fold b in E3, E4.
  assert (exists r2, payloadRecord (meta_done ap (metaEntry n) n m) TypePayloadRef (16 + zlen b) r =
    (Ok (with_payload (meta_done ap (metaEntry n) n m) off size), r2) /\ pend D rest r2 (pc off size)) as Hp.
  { unfold payloadRecord. rewrite decide_False by (intros [_ E]; discriminate E).
    rewrite decide_True by (split; [by rewrite (proj1 (proj1 Hr))|done]).
    assert ((16 + zlen b =? PayloadRefSize) = true) as -> by (rewrite Hlb; done). cbn [negb].
    rewrite (R_bind_ok _ _ _ _ _ E1). cbv zeta. rewrite E3, E4. erewrite R_bind_ok by reflexivity.
    destruct Hr1 as (Hc & Hd & Hs1 & Hn & Hl). rewrite (proj1 (proj2 Hc)).
    unfold served in Hsv. cbn [it_data] in Hsv. destruct pay as [ra|] eqn:Epay.
    - destruct Hsv as (Hst & Ho2 & Hs2 & Hhd & Hpl & Hsrv).
      erewrite R_bind_ok by reflexivity.
      assert (exists r2, (if rd_checked r1 : bool then mret () : R unit
                 else _ ← lift (checkPayloadStart ra); rmod set_checked) r1 = (Ok (), r2) /\
               ready r2 D rest) as (r2 & E2 & Hr2).
      { destruct (rd_checked r1); [by exists r1|]. exists (set_checked r1).
        unfold lift, checkPayloadStart, mbind, R_bind. rewrite Hst.
        rewrite decide_True by (by vm_compute). done. }
      rewrite (R_bind_ok _ _ _ _ _ E2). unfold lift.
      erewrite R_bind_ok; [|unfold checkPayloadRecord; cbn [r_PayloadOffset r_Size with_payload];
        rewrite !(proj2 (Z.ltb_ge _ _)) by lia; cbn [orb]; rewrite Hhd;
        rewrite decide_True by (by apply header_payload_fields); reflexivity].
      eexists. split; [reflexivity|]. cbn [r_PayloadOffset r_Size with_payload].
      destruct Hr2 as (Hc2 & Hd2 & Hs2' & Hn2 & Hl2).
      split; [exact Hc2|]. split.
      { cbn. rewrite Epay. rewrite u64_small by (unfold is_u64, HeaderSize in *; lia).
        unfold HeaderSize. rewrite Hpl. split_and!; [done|done|]. done. }
      exists [], []. split; [done|]. split; [done|]. split; [constructor|]. exact Hs2'.
    - eexists. split; [reflexivity|]. split; [exact Hc|]. split; [by split|].
      exists [], []. split; [done|]. split; [done|]. split; [constructor|]. exact Hs1. }
  unfold node_special. cbn [meta_done r_Entry metaEntry e_Mode]. rewrite Hm.
  destruct (n_Kind n); try done; cbn [kind_mode]; types; exact Hp.
Qed.

Lemma read_hardlink n ap r D rest off : wf_node n -> n_Kind n = KindHardlink -> ap <> [] ->
  ready r D (frames [RHardlink off (n_LinkTarget n)] ++ rest) -> exists r1,
  read_node ap r = (Ok (mkRNode ap (mkEntry 0 0 0 0 0 0) true (n_LinkTarget n) [] None None 0 zeroDevice 0 0 []), r1) /\
  ready r1 D rest.
Proof.
  intros Hw Hk Hap Hr. destruct (wf_hardlink n Hw Hk) as [Hv Hl].
  rewrite frames_cons, frames_nil, app_nil_r in Hr.
  set (b := rec_body (RHardlink off (n_LinkTarget n))) in *. cbn [rec_type] in Hr.
  assert (zlen b = 9 + zlen (n_LinkTarget n)) as Hlb
    by (subst b; cbn [rec_body]; autorewrite with gopbs; cbn [length]; lia).
  assert (zlen b <= maxRecordBody) as Hmax by lia.
  destruct (ready_rec _ _ _ _ _ Hr) as (r1 & E1 & Hr1 & Hb1); [split; [by vm_compute|unfold maxRecordBody in *; lia]|].
  unfold read_node. rewrite (R_bind_ok _ _ _ _ _ E1). rewrite decide_True by done.
  destruct (ready_body _ _ TypeHardlink _ _ _ Hr1 Hb1 Hmax) as (r2 & E2 & Hr2).
  rewrite (R_bind_ok _ _ _ _ _ E2). rewrite decide_False by lia. unfold lift.
  assert (cstring (drop 8 b) = Ok (n_LinkTarget n)) as Hcs.
  { subst b. cbn [rec_body]. rewrite (drop_le64 0), drop_0. apply cstring_nul. }
  erewrite R_bind_ok by (rewrite Hcs; reflexivity). erewrite R_bind_ok by (rewrite Hv; reflexivity).
  by exists r2.
Qed.

(** [Next] at a filename record inside the directory [par]. *)
Lemma next_filename par D name s r c : ValidateFilename name = Ok () -> zlen name < maxRecordBody ->
  pend (par :: D) (frame TypeFilename (name ++ [nul]) ++ s) r c ->
  exists r1, Next r = match read_node (joinArchive par name) r1 with
                      | (Ok n, r) => (Ok n, r) | (Err e, r) => (Err e, set_err e r) end /\
    ready r1 (par :: D) s.
Proof.
  intros Hv Hl Hp. destruct (pend_skip _ _ _ _ Hp) as (r1 & E & gbs & E1 & Hr1 & Hn & Hsm).
  destruct (next_loop_closes _ _ _ _ _ Hr1 Hn Hsm) as (r2 & E2 & Hr2).
  assert (zlen (name ++ [nul]) <= maxRecordBody) as Hmax by (rewrite length_app; cbn; lia).
  destruct (ready_rec _ _ _ _ _ Hr2) as (r3 & E3 & Hr3 & Hb3); [split; [by vm_compute|unfold maxRecordBody in *; lia]|].
  destruct (ready_body _ _ TypeFilename _ _ _ Hr3 Hb3 Hmax) as (r4 & E4 & Hr4).
  exists r4. split; [|done]. unfold Next. destruct Hp as (Hc & _).
  assert (rd_err r = None) as -> by apply Hc.
  rewrite next_eq, (R_bind_ok _ _ _ _ _ E1). erewrite R_bind_ok by reflexivity.
  assert (rd_started r1 = true) as -> by apply Hr1. cbn [negb]. erewrite R_bind_ok by reflexivity.
  assert (rd_dirs r1 = E ++ par :: D) as -> by apply Hr1. rewrite E2. cbn [next_loop].
  rewrite (R_bind_ok _ _ _ _ _ E3). types. rewrite (R_bind_ok _ _ _ _ _ E4).
  unfold lift. erewrite R_bind_ok by (rewrite cstring_nul; reflexivity).
  unfold validate_name. erewrite R_bind_ok by (rewrite Hv; reflexivity). done.
Qed.
Lemma starts_frame t b rest : header t b -> stops t -> starts (frame t b ++ rest).
Proof. intros. by exists t, b, rest. Qed.

Lemma node_prefix_body n isRoot s body :
  node_prefix n isRoot ++ s = frames (head_recs n isRoot) ++ body ->
  body = frames (REntry (metaEntry n) :: extra_recs n) ++ s.
Proof. unfold node_prefix. rewrite frames_app, <- app_assoc. intros E. by apply app_inv_head in E. Qed.

Lemma joinArchive_not_nil ap name : ValidateFilename name = Ok () -> joinArchive ap name <> [].
Proof.
  intros Hv. apply ValidateFilename_ok in Hv as [Hne _]. unfold joinArchive.
  case_decide; [done|]. destruct ap; done.
Qed.

Lemma goodbye_frame items ds gs gb : zlen items < 2 ^ 57 -> AppendGoodbye [] items ds gs = Some gb ->
  exists body, gb = frame TypeGoodbye body /\ zlen body <= 2 ^ 62.
Proof.
  intros Hl Hg. assert (zlen items < 2 ^ 61) as Hl' by lia.
  pose proof (AppendGoodbye_size _ _ _ _ Hl' Hg) as Hs.
  destruct (AppendGoodbye_spec [] items ds gs Hl') as (tree & _ & E). rewrite E in Hg. simplify_eq.
  cbn [app] in *. eexists. split; [reflexivity|]. rewrite length_frame in Hs.
  assert (SizeGoodbye (zlen items) = 16 + 24 * (zlen items + 1)) as Hz by reflexivity. lia.
Qed.

Section trees.
Context `{SipHash} (v2 : bool) (cont : node -> bytes -> Prop) (Hv : v = if v2 then 2 else 1).

Lemma encodes_visits :
  (forall n isRoot ap pos ln out extra xs ln', encodes v2 cont n isRoot ap pos ln out extra xs ln' ->
   forall D rest body, tree_all wf_node n -> (height n + length D <= maxDepth)%nat ->
   (n_Kind n = KindHardlink -> ap <> []) -> Forall served xs ->
   (n_Kind n = KindFifo \/ n_Kind n = KindSocket -> starts rest) ->
   out = frames (head_recs n isRoot) ++ body ->
   exists x0 xs' D1 s1, xs = x0 :: xs' /\
     (forall r, ready r D (body ++ rest) -> exists r1,
        read_node ap r = (Ok (decode_item k x0), r1) /\ pend D1 s1 r1 (item_content x0) /\
        (forall c, it_data x0 = DContent c -> streams r1 (c ++ rest))) /\
     visits D1 s1 xs' D rest) /\
  (forall ap cs pos ln outs items xs ln', encodes_all v2 cont ap cs pos ln outs items xs ln' ->
   forall D rest, Forall (tree_all wf_node) cs ->
   Forall (fun c => ValidateFilename (n_Name c) = Ok () /\ zlen (n_Name c) < maxRecordBody) cs ->
   Forall (fun c => (height c + length (ap :: D) <= maxDepth)%nat) cs -> Forall served xs -> starts rest ->
   length items = length cs /\ visits (ap :: D) (outs ++ rest) xs (ap :: D) rest /\ starts (outs ++ rest)).
Proof.
  apply encodes_mutind.
  - (* hardlink *)
    intros n isRoot ap pos ln ts Hk _ D rest body [Hw _] _ Hap _ _ E.
    rewrite frames_app in E. apply app_inv_head in E as <-.
    exists (mkItem pos ap n (DLink (u64 (pos - ts)))), [], D, rest. split; [done|]. split; [|by cbn].
    intros r Hr. destruct (read_hardlink _ _ _ _ _ _ Hw Hk (Hap Hk) Hr) as (r1 & E1 & Hr1).
    exists r1. split; [exact E1|]. split; [by apply ready_pend|done].
  - (* directory *)
    intros n isRoot ap pos ln outs items xs ln' gb Hk _ IH Hgb D rest body [Hw Hws] Hh _ Hsv Hst E.
    apply node_prefix_body in E as ->. apply Forall_cons in Hsv as [_ Hsv].
    pose proof (height_children n Hk) as Hhc. pose proof (height_dir n Hk) as H1.
    assert (length items = length (n_Children n) /\ forall gbody, gb = frame TypeGoodbye gbody -> zlen gbody <= 2 ^ 62 ->
      visits (ap :: D) (outs ++ gb ++ rest) xs (ap :: D) (gb ++ rest) /\ starts (outs ++ gb ++ rest)) as [Hlen Hch].
    { destruct (IH D (frame TypeGoodbye [] ++ rest)) as (Hlen & _); try done.
      { by apply wf_children. }
      { eapply Forall_impl; [exact Hhc|]. cbn [length]. intros c Hc. lia. }
      { apply starts_frame; [split; [by vm_compute|cbn; lia]|by vm_compute]. }
      split; [done|]. intros gbody -> Hgl.
      destruct (IH D (frame TypeGoodbye gbody ++ rest)) as (_ & Hvis & Hsts); try done.
      { by apply wf_children. }
      { eapply Forall_impl; [exact Hhc|]. cbn [length]. intros c Hc. lia. }
      { apply starts_frame; [split; [by vm_compute|lia]|by vm_compute]. } }
    assert (zlen items < 2 ^ 57) as Hl57 by (rewrite Hlen; apply wf_fits, Hw).
    destruct (goodbye_frame _ _ _ _ Hl57 Hgb) as (gbody & Egb & Hgl).
    destruct (Hch gbody Egb Hgl) as [Hvis (t & b & rest' & Es & Hhd & Hstp)].
    exists (mkItem pos ap n DNone), xs, (ap :: D), (outs ++ gb ++ rest). split; [done|]. split.
    + intros r Hr. rewrite <- !app_assoc, Es in Hr.
      destruct (read_node_prefix n ap r D t b rest' Hw Hhd Hstp Hr) as (r1 & E1 & Hr1 & _).
      destruct (special_dir ap n (if k then metadataBytes [] n else []) r1 D _ t (16 + zlen b) Hr1 Hw Hk)
        as [E2 Hr2]; [lia|].
      rewrite <- Es in Hr2. eexists. split; [rewrite E1, E2|split; [by apply ready_pend|done]].
      do 2 f_equal. unfold decode_item, meta_done. cbn [it_node it_data it_path].
      rewrite decide_False, decide_False by (rewrite Hk; naive_solver). done.
    + eapply visits_post; [exact Hvis|]. intros r c. rewrite Egb. by apply pend_close.
  - (* content *)
    intros n isRoot ap pos ln c E2 Hk Hi _ D rest body [Hw _] _ _ _ _ E.
    rewrite payload_header_frame in E by done. apply node_prefix_body in E as ->.
    exists (mkItem pos ap n (DContent c)), [], D, rest. split; [done|]. split; [|by cbn].
    intros r Hr. rewrite <- app_assoc in Hr.
    assert (header TypePayload c) as Hhd by (split; [by vm_compute|unfold is_i64 in Hi; lia]).
    destruct (read_node_prefix n ap r D _ _ rest Hw Hhd eq_refl Hr) as (r1 & E1 & Hr1 & Hb1).
    assert (v = 1) as Hv1 by (by rewrite Hv, E2).
    destruct (special_content ap n (if k then metadataBytes [] n else []) r1 D c rest
      Hv1 Hi Hr1 Hb1 Hw Hk) as (r2 & E3 & Hp & Hst).
    exists r2. split; [|split; [exact Hp|by intros c' [= <-]]]. rewrite E1, E3. do 2 f_equal.
    unfold decode_item. cbn [it_node it_data it_path].
    rewrite decide_False, decide_False by (destruct (n_Kind n); naive_solver). done.
  - (* reference *)
    intros n isRoot ap pos ln off size E2 Hk Ho Hs D rest body [Hw _] _ _ Hsv _ E.
    apply node_prefix_body in E as ->. apply Forall_cons in Hsv as [Hsv _].
    exists (mkItem pos ap n (DRef off size)), [], D, rest. split; [done|]. split; [|by cbn].
    intros r Hr. rewrite <- app_assoc in Hr. rewrite (frames_cons (RPayloadRef _ _)), frames_nil, app_nil_r in Hr.
    cbn [rec_type rec_body] in Hr.
    assert (header TypePayloadRef (le64 off ++ le64 size)) as Hhd
      by (split; [by vm_compute|rewrite length_app, !length_le64; done]).
    destruct (read_node_prefix n ap r D _ _ rest Hw Hhd eq_refl Hr) as (r1 & E1 & Hr1 & Hb1).
    assert (v = 2) as Hv2 by (by rewrite Hv, E2).
    destruct (special_ref ap n (if k then metadataBytes [] n else []) r1 D off size rest
      Hv2 Ho Hs Hsv Hr1 Hb1 Hw Hk) as (r2 & E3 & Hp).
    exists r2. split; [|split; [exact Hp|done]]. rewrite E1, E3. do 2 f_equal.
    unfold decode_item. cbn [it_node it_data it_path].
    rewrite decide_False, decide_False by (destruct (n_Kind n); naive_solver). done.
  - (* symlink *)
    intros n isRoot ap pos ln Hk D rest body [Hw _] _ _ _ _ E.
    apply node_prefix_body in E as ->.
    exists (mkItem pos ap n DNone), [], D, rest. split; [done|]. split; [|by cbn].
    intros r Hr. rewrite <- app_assoc in Hr.
    destruct (wf_symlink n Hw Hk) as [_ Hlt].
    rewrite (frames_cons (RSymlink _)), frames_nil, app_nil_r in Hr.
    cbn [rec_type rec_body] in Hr.
    assert (header TypeSymlink (n_LinkTarget n ++ [nul])) as Hhd
      by (split; [by vm_compute|rewrite length_app; unfold maxRecordBody in Hlt; cbn [length]; lia]).
    destruct (read_node_prefix n ap r D _ _ rest Hw Hhd eq_refl Hr) as (r1 & E1 & Hr1 & Hb1).
    rewrite <- app_assoc in Hb1.
    destruct (special_symlink ap n (if k then metadataBytes [] n else []) r1 D rest) as (r2 & E3 & Hp);
      [rewrite frames_cons, frames_nil, app_nil_r; exact Hr1|exact Hb1|exact Hw|exact Hk|].
    exists r2. split; [|split; [by apply ready_pend|done]]. rewrite E1, E3. do 2 f_equal.
    unfold decode_item. cbn [it_node it_data it_path].
    rewrite decide_True, decide_False by (rewrite Hk; naive_solver). done.
  - (* device *)
    intros n isRoot ap pos ln Hk D rest body [Hw _] _ _ _ _ E.
    apply node_prefix_body in E as ->.
    exists (mkItem pos ap n DNone), [], D, rest. split; [done|]. split; [|by cbn].
    intros r Hr. rewrite <- app_assoc in Hr.
    rewrite (frames_cons (RDevice _)), frames_nil, app_nil_r in Hr. cbn [rec_type rec_body] in Hr.
    assert (header TypeDevice (le64 (Major (st_Rdev (n_Stat n))) ++ le64 (Minor (st_Rdev (n_Stat n))))) as Hhd
      by (split; [by vm_compute|rewrite length_app, !length_le64; done]).
    destruct (read_node_prefix n ap r D _ _ rest Hw Hhd eq_refl Hr) as (r1 & E1 & Hr1 & Hb1).
    destruct (special_device ap n (if k then metadataBytes [] n else []) r1 D rest Hr1 Hb1 Hw Hk) as (r2 & E3 & Hp).
    exists r2. split; [|split; [by apply ready_pend|done]]. rewrite E1, E3. do 2 f_equal.
    unfold decode_item. cbn [it_node it_data it_path].
    rewrite decide_False, decide_True by (destruct Hk as [-> | ->]; naive_solver). done.
  - (* fifo, socket *)
    intros n isRoot ap pos ln Hk D rest body [Hw _] _ _ _ Hst E.
    destruct (Hst Hk) as (t & b & rest' & Es & Hhd & Hstp).
    rewrite <- (app_nil_r (node_prefix _ _)) in E. apply node_prefix_body in E as ->.
    exists (mkItem pos ap n DNone), [], D, rest. split; [done|]. split; [|by cbn].
    intros r Hr. rewrite app_nil_r, Es in Hr.
    destruct (read_node_prefix n ap r D t b rest' Hw Hhd Hstp Hr) as (r1 & E1 & Hr1 & Hb1).
    exists r1. split; [|split; [apply ready_pend; by rewrite Es|done]].
    rewrite E1, special_plain by done. do 2 f_equal.
    unfold decode_item. cbn [it_node it_data it_path].
    rewrite decide_False, decide_False by (destruct Hk as [-> | ->]; naive_solver). done.
  - (* no more children *)
    intros ap pos ln D rest _ _ _ _ Hst. split; [done|]. split; [by intros r c|done].
  - (* a child *)
    intros ap c cs pos ln out extra xs ln1 outs items xs' ln2 Henc IH1 _ IH2 D rest Hw Hnm Hh Hsv Hst.
    apply Forall_cons in Hw as [Hw Hws]. apply Forall_cons in Hnm as [[Hvn Hln] Hnm].
    apply Forall_cons in Hh as [Hh Hhs]. apply Forall_app in Hsv as [Hsv Hsv'].
    destruct (IH2 D rest Hws Hnm Hhs Hsv' Hst) as (Hlen & Hvis & Hst').
    assert (exists body, out = frames (head_recs c false) ++ body) as [body Eo].
    { inversion Henc; subst; rewrite ?node_prefix_app, ?frames_app; eauto.
      rewrite node_prefix_eq. eauto. }
    destruct (IH1 (ap :: D) (outs ++ rest) body Hw Hh (fun _ => joinArchive_not_nil ap _ Hvn) Hsv (fun _ => Hst') Eo)
      as (x0 & xs0 & D1 & s1 & -> & Hrd & Hvis0).
    split; [cbn; lia|]. rewrite <- app_assoc. cbn [head_recs] in Eo.
    rewrite frames_cons, frames_nil, app_nil_r in Eo. cbn [rec_type rec_body] in Eo.
    split.
    + cbn [app visits]. exists D1, s1. split; [|by eapply visits_app].
      intros r c0 Hp. rewrite Eo, <- app_assoc in Hp.
      destruct (next_filename _ _ _ _ _ _ Hvn Hln Hp) as (r1 & -> & Hr1).
      destruct (Hrd r1 Hr1) as (r2 & -> & Hp2 & _). eauto.
    + rewrite Eo, <- app_assoc. apply starts_frame; [|by vm_compute].
      split; [by vm_compute|]. rewrite length_app. unfold maxRecordBody in *. cbn. lia.
Qed.
End trees.
(** The end of the archive. *)
Lemma next_end r c : pend [] [] r c -> exists r1, Next r = (Err RdEOF, r1) /\ rd_version r1 = v.
Proof.
  intros Hp. destruct (pend_skip _ _ _ _ Hp) as (r1 & E & gbs & E1 & Hr1 & Hn & Hsm).
  destruct (next_loop_closes _ _ _ _ _ Hr1 Hn Hsm) as (r2 & E2 & Hr2).
  destruct Hp as (Hc & _). unfold Next. assert (rd_err r = None) as -> by apply Hc.
  rewrite next_eq, (R_bind_ok _ _ _ _ _ E1). erewrite R_bind_ok by reflexivity.
  assert (rd_started r1 = true) as -> by apply Hr1. cbn [negb]. erewrite R_bind_ok by reflexivity.
  assert (rd_dirs r1 = E ++ []) as -> by apply Hr1. rewrite E2. cbn [next_loop].
  destruct Hr2 as (Hc2 & _ & (_ & He & Hs) & _). unfold stream in Hs.
  destruct (rd_have r2) as [[t l]|]; [exfalso; apply (f_equal length) in Hs;
    rewrite !length_app, !length_le64 in Hs; cbn in Hs; lia|].
  cbn [app] in Hs. destruct (contents (rd_br r2)) as [b e]. cbn in Hs, He. subst.
  eexists. split; [reflexivity|]. apply Hc2.
Qed.

(** Reading the current file to its end delivers its content. *)
Lemma RRead_step D s r c want : pend D s r c -> rd_content r <> CErr -> (0 < want)%nat -> c <> [] ->
  exists b c' r', RRead want r = (b, None, r') /\ c = b ++ c' /\ pend D s r' c' /\
    rd_content r' <> CErr /\
    (rsize (rd_br r') + Z.to_nat (rd_left r') < rsize (rd_br r) + Z.to_nat (rd_left r))%nat.
Proof.
  intros (Hc & Hl & E & gbs & Hd & Hn & Hsm & Hs) Hce Hw Hne.
  assert (0 < length c)%nat as Hlen by (destruct c; [done|cbn; lia]).
  unfold has_left in Hl. unfold RRead, content_read, inline_part, inline in *.
  destruct (rd_content r) as [| |off limit|] eqn:Ec; [by destruct Hl| | |done].
  - destruct Hl as (Hh & Hl & Hi). rewrite Hl. rewrite decide_False by lia.
    destruct Hs as (Hs1 & Hs2 & Hs3). unfold stream in Hs3. rewrite Hh in Hs3. cbn [app] in Hs3.
    set (w := if zlen c <? Z.of_nat want then Z.to_nat (zlen c) else want).
    assert (0 < w <= length c)%nat as Hww by (subst w; destruct (Z.ltb_spec (zlen c) (Z.of_nat want)); lia).
    pose proof (Read_length w (rd_br r)) as Hrl.
    destruct (Read w (rd_br r)) as [[b e] br] eqn:ER. cbn [fst] in Hrl.
    destruct (Read_contents _ _ _ _ _ ER) as [Hcon Hend].
    rewrite Hcon in Hs3. cbn [fst] in Hs3. rewrite Hcon in Hs2. cbn [snd] in Hs2.
    assert (c = b ++ drop (length b) c) as Hcb.
    { pose proof (f_equal (take (length b)) Hs3) as Ht.
      rewrite take_app_length, take_app_le in Ht by lia. rewrite Ht at 1. by rewrite take_drop. }
    set (c' := drop (length b) c) in *.
    assert ((contents br).1 = c' ++ closes gbs ++ s) as Hcbr.
    { rewrite Hcb, <- app_assoc in Hs3. by apply app_inv_head in Hs3. }
    assert (zlen c - zlen b = zlen c') as Hlc by (rewrite Hcb at 1; rewrite length_app; lia).
    assert (pend D s (set_pos (u64 (rd_pos r + zlen b)) (set_content CInline (zlen c - zlen b) (set_br br r))) c') as Hp.
    { split; [exact Hc|]. split.
      - unfold has_left. cbn. split; [done|]. split; [done|]. unfold is_i64 in *. lia.
      - exists E, gbs. split; [done|]. split; [done|]. split; [done|].
        unfold streams, stream, inline_part, inline. cbn. rewrite Hh. by split_and!. }
    exists b, c'. cbn [rd_content set_br set_content rd_left rd_pos]. rewrite Hl, Ec.
    destruct e as [e|].
    + destruct (Hend e eq_refl) as [Hnil He]. rewrite Hs2 in He. subst e.
      rewrite Hnil in Hcbr. symmetry in Hcbr. apply app_eq_nil in Hcbr as [Hc0 _].
      cbn [rd_left set_pos]. rewrite decide_True by (cbn; rewrite Hlc, Hc0; done).
      eexists. split; [reflexivity|]. split; [done|]. split; [exact Hp|]. split; [done|].
      cbn [rd_br set_pos set_content set_br rd_left]. assert (rsize br <= rsize (rd_br r))%nat.
      { clear -ER. destruct (rd_br r) as [|[b0 e0] r']; cbn in ER; [simplify_eq; cbn; lia|].
        case_decide; simplify_eq; cbn; lia. }
      rewrite Hlc, Hc0. cbn [length]. lia.
    + eexists. split; [reflexivity|]. split; [done|]. split; [exact Hp|]. split; [done|].
      pose proof (Read_rsize _ _ _ _ (proj1 Hww) ER). cbn [rd_br set_pos set_content set_br rd_left]. lia.
  - destruct Hl as (Hl & -> & Hra). rewrite Hl. rewrite decide_False by lia.
    rewrite (proj2 (Z.leb_gt _ _)) by lia.
    replace (off + zlen c - off) with (zlen c) by lia. rewrite Nat2Z.id.
    set (w := Nat.min _ (length c)).
    assert (0 < w <= length c)%nat as Hww.
    { subst w. destruct (Z.ltb_spec (zlen c) (Z.of_nat want)); lia. }
    assert (rd_payload r = pay) as Hpay by apply Hc. rewrite Hpay.
    destruct pay as [ra|] eqn:Ep; [|done].
    pose proof (Hra 0%nat w ltac:(lia)) as Hr0. rewrite Z.add_0_r, drop_0 in Hr0. rewrite Hr0.
    exists (take w c), (drop w c). eexists. split; [reflexivity|].
    split; [by rewrite take_drop|].
    assert (zlen (take w c) = Z.of_nat w) as Hlt by (rewrite length_take; lia).
    cbn [rd_content set_content rd_left rd_pos]. rewrite ?Hlt.
    split; [|split; [done|]]. 2: { cbn [rd_br rd_left set_content]. lia. }
    split; [exact Hc|]. split.
    + unfold has_left. cbn. split; [rewrite length_drop; lia|]. split; [rewrite length_drop; lia|].
      rewrite Ep. intros i m Him. rewrite length_drop in Him.
      specialize (Hra (w + i)%nat m ltac:(lia)). rewrite drop_drop.
      rewrite Nat2Z.inj_add, Z.add_assoc in Hra. exact Hra.
    + exists E, gbs. by split_and!.
Qed.

Lemma read_all_ok want : (0 < want)%nat -> forall fuel D s r c, pend D s r c ->
  (rd_content r = CErr -> c = [] /\ rd_left r = 0) ->
  (rsize (rd_br r) + Z.to_nat (rd_left r) < fuel)%nat ->
  exists r', read_all fuel want r = (c, None, r') /\ pend D s r' [].
Proof.
  intros Hw fuel. induction fuel as [|fuel IH]; intros D s r c Hp He Hf; [lia|]. cbn [read_all].
  destruct (decide (c = [])) as [->|Hne].
  - assert (rd_left r = 0) as Hl0.
    { destruct Hp as (_ & Hl & _). unfold has_left in Hl. destruct (rd_content r); [apply Hl|apply Hl|apply Hl|].
      by apply He. }
    unfold RRead. rewrite Hl0. rewrite decide_True by done. by exists r.
  - destruct (RRead_step D s r c want Hp) as (b & c' & r1 & -> & -> & Hp1 & Hce & Hlt); [|done|done|].
    { intros E. by destruct (He E). }
    destruct (IH D s r1 c' Hp1) as (r2 & -> & Hp2); [done|lia|]. by exists r2.
Qed.
End reading.

(* ------------------------------------------------------------------ *)
(** ** Lemmas: a whole archive *)

Section archive.
Context (v : Z) (pay : option readerAt) (k : bool) (pc : Z -> Z -> bytes).
Context `{SipHash} (v2 : bool) (cont : node -> bytes -> Prop) (Hv : v = if v2 then 2 else 1).

(** A reader that has not been started; version 0 detects. *)
Definition fresh (r : rstate) (s : bytes) : Prop :=
  (rd_version r = v \/ rd_version r = 0) /\ rd_payload r = pay /\ rd_keepMeta r = k /\
  rd_started r = false /\ rd_err r = None /\ rd_dirs r = [] /\ rd_have r = None /\
  rd_content r = CNone /\ rd_left r = 0 /\ contents (rd_br r) = (s, EOF).

Definition prelude_ok (prelude : option bytes) : Prop :=
  match prelude with Some p => zlen p <= maxRecordBody | None => True end.

Lemma ready_set_version r D s w : ready w pay k r D s -> ready v pay k (set_version v r) D s.
Proof. intros ((_ & Hp & Hk & Hs & He) & Hd & Hst & Hn & Hl).
  split; [by split_and!|]. by split_and!. Qed.

(** The head of the stream is consumed and the root entry follows. *)
Lemma fresh_start r prelude t b rest : prelude_ok prelude ->
  header t b -> (t = TypeEntry) -> fresh r (stream_head v2 prelude ++ frame t b ++ rest) ->
  exists r1, next r = read_node [] r1 /\ ready v pay k r1 [] (frame t b ++ rest).
Proof.
  intros Hpr Hh Ht (Hver & Hpay & Hk & Hst & Herr & Hd & Hhv & Hcn & Hl & Hbr).
  rewrite next_eq. unfold next_start. set (r0 := set_content CNone 0 r).
  assert ((_ ← skip_content; rmod (set_content CNone 0)) r = (Ok (), r0)) as E0.
  { unfold mbind, R_bind, skip_content, inline. by rewrite Hcn. }
  rewrite (R_bind_ok _ _ _ _ _ E0). erewrite R_bind_ok by reflexivity.
  assert (rd_started r0 = false) as -> by done. cbn [negb]. erewrite R_bind_ok by reflexivity.
  assert (ready (rd_version r) pay k (set_started r0) [] (stream_head v2 prelude ++ frame t b ++ rest)) as Hr0.
  { split; [by split_and!|]. split; [done|]. split; [|done].
    unfold streams, stream. cbn. rewrite Hhv. by rewrite Hbr. }
  clearbody r0. set (r1 := set_started r0) in *. clearbody r1.
  enough (exists r2, readHead r1 = (Ok (), r2) /\ ready v pay k r2 [] (frame t b ++ rest)) as (r2 & E2 & Hr2).
  { rewrite (R_bind_ok _ _ _ _ _ E2). by exists r2. }
  unfold readHead, stream_head in *. destruct v2.
  - rewrite frames_cons, <- app_assoc in Hr0. cbn [rec_type rec_body] in Hr0.
    assert (header TypeFormatVersion (le64 2)) as Hhv2 by (split; [by vm_compute|rewrite length_le64; done]).
    destruct (ready_rec _ _ _ _ _ _ _ _ Hr0 Hhv2) as (r2 & E2 & Hr2 & Hb2).
    rewrite (R_bind_ok _ _ _ _ _ E2). erewrite R_bind_ok by reflexivity.
    rewrite bool_decide_true by done. cbn [negb].
    assert (rd_version r2 = rd_version r) as Hv2 by apply Hr2.
    rewrite decide_False by (rewrite Hv2; destruct Hver; lia).
    destruct (ready_body _ _ _ _ _ TypeFormatVersion _ _ _ Hr2 Hb2) as (r3 & E3 & Hr3); [rewrite length_le64; done|].
    rewrite (R_bind_ok _ _ _ _ _ E3). rewrite bool_decide_true by done. cbn [negb].
    assert (get64 (le64 2) = 2) as -> by (by vm_compute). rewrite bool_decide_true by done. cbn [negb].
    erewrite R_bind_ok by reflexivity. apply ready_set_version in Hr3. rewrite Hv in Hr3 at 2.
    set (r4 := set_version 2 r3) in *. clearbody r4.
    destruct prelude as [p|].
    + cbn [prelude_ok] in Hpr. rewrite frames_cons, frames_nil, app_nil_r in Hr3. cbn [rec_type rec_body] in Hr3.
      assert (header TypePrelude p) as Hhp by (split; [by vm_compute|unfold maxRecordBody in Hpr; lia]).
      destruct (ready_rec _ _ _ _ _ _ _ _ Hr3 Hhp) as (r5 & E5 & Hr5 & Hb5).
      rewrite (R_bind_ok _ _ _ _ _ E5). rewrite decide_True by done.
      destruct (ready_body _ _ _ _ _ TypePrelude _ _ _ Hr5 Hb5 Hpr) as (r6 & E6 & Hr6).
      rewrite (R_bind_ok _ _ _ _ _ E6). by exists r6.
    + rewrite frames_nil in Hr3. cbn [app] in Hr3.
      destruct (ready_rec _ _ _ _ _ _ _ _ Hr3 Hh) as (r5 & E5 & Hr5 & Hb5).
      rewrite (R_bind_ok _ _ _ _ _ E5). rewrite decide_False by (rewrite Ht; discriminate). by exists r5.
  - cbn [app] in Hr0. destruct (ready_rec _ _ _ _ _ _ _ _ Hr0 Hh) as (r2 & E2 & Hr2 & Hb2).
    rewrite (R_bind_ok _ _ _ _ _ E2). erewrite R_bind_ok by reflexivity.
    rewrite bool_decide_false by (rewrite Ht; discriminate). cbn [negb].
    assert (rd_version r2 = rd_version r) as Hv2 by apply Hr2.
    rewrite decide_False by (rewrite Hv2; destruct Hver; lia).
    eexists. split; [reflexivity|]. rewrite <- Hv. by eapply ready_set_version.
Qed.

(** The calls of [Next] over a whole archive. *)
Lemma archive_visits root pos ln prelude out extra xs ln' r :
  encodes v2 cont root true [] pos ln out extra xs ln' -> n_Kind root = KindDirectory ->
  tree_all wf_node root -> (height root <= maxDepth)%nat -> Forall (served pay pc) xs -> prelude_ok prelude ->
  fresh r (stream_head v2 prelude ++ out) ->
  exists x0 xs' r1 D1 s1, xs = x0 :: xs' /\ Next r = (Ok (decode_item k x0), r1) /\
    pend v pay k D1 s1 r1 (item_content pc x0) /\ visits v pay k pc D1 s1 xs' [] [].
Proof.
  intros Henc Hk Hw Hh Hsv Hpr Hf.
  destruct (encodes_visits v pay k pc v2 cont Hv) as [Hvis _].
  destruct (Hvis _ _ _ _ _ _ _ _ _ Henc [] [] out) as (x0 & xs' & D1 & s1 & -> & Hrd & Hvs); try done;
    [cbn; lia|by rewrite Hk|by rewrite Hk; intros []|].
  assert (exists rest, out = frame TypeEntry (entry_body (metaEntry root)) ++ rest) as [rest Eo].
  { inversion Henc; subst; try congruence; try (by destruct (n_Kind root)); try (by intuition congruence);
      unfold node_prefix; cbn [head_recs app]; rewrite frames_cons, <- app_assoc; by eexists. }
  rewrite Eo in Hf.
  assert (header TypeEntry (entry_body (metaEntry root))) as Hhe.
  { split; [by vm_compute|]. unfold entry_body. rewrite !length_app, !length_le64, !length_le32. done. }
  destruct (fresh_start r prelude _ _ _ Hpr Hhe eq_refl Hf) as (r1 & E1 & Hr1).
  rewrite <- Eo in Hr1. rewrite app_nil_r in Hrd. destruct (Hrd r1 Hr1) as (r2 & E2 & Hp2 & _).
  exists x0, xs', r2, D1, s1. split; [done|]. split; [|done].
  unfold Next. assert (rd_err r = None) as -> by apply Hf. by rewrite E1, E2.
Qed.

Lemma read_archive_ok want : (0 < want)%nat -> v = 1 \/ pay <> None -> forall xs fuel D s r c,
  (length xs < fuel)%nat -> visits v pay k pc D s xs [] [] -> pend v pay k D s r c ->
  read_archive fuel want r = ((fun x => (decode_item k x, item_content pc x)) <$> xs, RdEOF).
Proof.
  intros Hw Hvp xs. induction xs as [|x xs IH]; intros [|fuel] D s r c Hf Hvis Hp; cbn [length] in Hf; try lia;
    cbn [read_archive visits] in *.
  - destruct (next_end _ _ _ r c (Hvis r c Hp)) as (r1 & -> & _). done.
  - destruct Hvis as (D1 & s1 & Hx & Hvis). destruct (Hx r c Hp) as (r1 & -> & Hp1).
    assert (rd_content r1 <> CErr) as Hce.
    { intros E. destruct Hp1 as (_ & Hl & _). unfold has_left in Hl. rewrite E in Hl.
      destruct Hl, Hvp; [lia|done]. }
    destruct (read_all_ok _ _ _ want Hw (S (rsize (rd_br r1) + Z.to_nat (rd_left r1))) D1 s1 r1
      (item_content pc x) Hp1) as (r2 & -> & Hp2); [done|lia|].
    rewrite (IH fuel D1 s1 r2 [] ltac:(lia) Hvis Hp2). done.
Qed.

(** [DecodeMetadata] over the same calls. *)
Definition meta_files (xs : list item) : list MetaFile :=
  omap (fun x => match it_data x with
                 | DContent c => Some (mkMetaFile (it_path x) (metadataBytes [] (it_node x)) (zlen c) 0)
                 | DRef off size => Some (mkMetaFile (it_path x) (metadataBytes [] (it_node x)) size off)
                 | _ => None
                 end) xs.

Definition file_item (x : item) : Prop :=
  wf_node (it_node x) /\
  match it_data x with
  | DContent _ | DRef _ _ => is_payload (n_Kind (it_node x)) = true
  | DNone => is_payload (n_Kind (it_node x)) = false /\ n_Kind (it_node x) <> KindHardlink
  | DLink _ => True
  end.

Lemma decode_loop_step x fuel r r1 fs w : k = true -> file_item x ->
  Next r = (Ok (decode_item k x), r1) -> decode_loop fuel r1 = (fs, w) ->
  decode_loop (S fuel) r = (meta_files [x] ++ fs, w).
Proof.
  intros Hk [Hwx Hkx] Hn Hd. cbn [decode_loop]. rewrite Hn, Hd.
  unfold meta_files. cbn [omap list_omap]. pose proof (wf_mode _ Hwx) as Hm.
  destruct (it_data x) eqn:Ed; unfold decode_item; rewrite Ed;
    cbn [r_Hardlink r_Entry r_Path r_meta r_Size r_PayloadOffset metaEntry e_Mode orb];
    rewrite ?Hm, ?Hk; try done.
  - destruct Hkx as [Hkx Hnh]. by destruct (n_Kind (it_node x)).
  - by destruct (n_Kind (it_node x)).
  - by destruct (n_Kind (it_node x)).
Qed.

Lemma meta_files_cons x xs : meta_files (x :: xs) = meta_files [x] ++ meta_files xs.
Proof. apply (omap_app _ [x] xs). Qed.

Lemma decode_loop_ok : k = true -> forall xs fuel D s r c,
  (length xs < fuel)%nat -> visits v pay k pc D s xs [] [] -> pend v pay k D s r c ->
  Forall file_item xs -> decode_loop fuel r = (meta_files xs, Ok v).
Proof.
  intros Hk xs. induction xs as [|x xs IH]; intros [|fuel] D s r c Hf Hvis Hp Hk'; cbn [length] in Hf; try lia;
    cbn [visits] in *.
  - destruct (next_end _ _ _ r c (Hvis r c Hp)) as (r1 & E & Ev). cbn [decode_loop]. by rewrite E, Ev.
  - destruct Hvis as (D1 & s1 & Hx & Hvis). destruct (Hx r c Hp) as (r1 & E & Hp1).
    apply Forall_cons in Hk' as [Hx0 Hk'].
    rewrite meta_files_cons. eapply decode_loop_step; [done|done|exact E|].
    apply (IH fuel D1 s1 r1 _ ltac:(lia) Hvis Hp1 Hk').
Qed.
End archive.

(* ------------------------------------------------------------------ *)
(** ** Lemmas: the items of a stream *)

(** What the items of a stream carry. *)
Definition item_ok (v2 : bool) (cont : node -> bytes -> Prop) (it : item) : Prop :=
  match it_data it with
  | DContent c => v2 = false /\ is_payload (n_Kind (it_node it)) = true /\ cont (it_node it) c
  | DRef off size => v2 = true /\ is_payload (n_Kind (it_node it)) = true /\ is_u64 off /\ is_u64 size
  | DLink _ => n_Kind (it_node it) = KindHardlink
  | DNone => is_payload (n_Kind (it_node it)) = false /\ n_Kind (it_node it) <> KindHardlink
  end.

Lemma encodes_items `{SipHash} v2 cont :
  (forall n isRoot ap pos ln out extra xs ln',
     encodes v2 cont n isRoot ap pos ln out extra xs ln' -> Forall (item_ok v2 cont) xs) /\
  (forall ap cs pos ln outs items xs ln',
     encodes_all v2 cont ap cs pos ln outs items xs ln' -> Forall (item_ok v2 cont) xs).
Proof.
  apply encodes_mutind.
  - intros n isRoot ap pos ln ts Hk _. by repeat constructor.
  - intros n isRoot ap pos ln outs items xs ln' gb Hk _ IH _. constructor; [|done].
    cbn. rewrite Hk. by split.
  - intros n isRoot ap pos ln c Hv Hk _ Hc. constructor; [|done]. by split_and!.
  - intros n isRoot ap pos ln off size Hv Hk Ho Hs. constructor; [|done]. by split_and!.
  - intros n isRoot ap pos ln Hk. constructor; [|done]. cbn. rewrite Hk. by split.
  - intros n isRoot ap pos ln Hk. constructor; [|done]. cbn. by destruct Hk as [-> | ->].
  - intros n isRoot ap pos ln Hk. constructor; [|done]. cbn. by destruct Hk as [-> | ->].
  - constructor.
  - intros. by apply Forall_app.
Qed.

(** Every node takes up space. *)
Lemma encodes_length `{SipHash} v2 cont :
  (forall n isRoot ap pos ln out extra xs ln',
     encodes v2 cont n isRoot ap pos ln out extra xs ln' -> (length xs <= length out)%nat) /\
  (forall ap cs pos ln outs items xs ln',
     encodes_all v2 cont ap cs pos ln outs items xs ln' -> (length xs <= length outs)%nat).
Proof.
  assert (forall n isRoot, 1 <= length (node_prefix n isRoot))%nat as Hp.
  { intros n isRoot. unfold node_prefix. rewrite frames_app, frames_cons, !length_app, length_frame. lia. }
  apply encodes_mutind; intros; rewrite ?length_app; cbn [length];
    try match goal with |- context [node_prefix ?n ?b] => pose proof (Hp n b) end; try lia.
  rewrite frames_app, length_app, (frames_cons (RHardlink _ _)), length_app, length_frame. lia.
Qed.

Lemma flatten_all P n ap : tree_all P n -> Forall (fun x => P x.2) (flatten n ap).
Proof.
  revert ap. induction n as [n IH] using node_ind'. intros ap [Hn Hc]. rewrite flatten_eq.
  constructor; [done|]. destruct (n_Kind n); try constructor.
  rewrite Forall_forall in IH, Hc. rewrite Forall_forall. intros x Hx. apply list_elem_of_bind in Hx as (c & Hx & Hin).
  specialize (IH c Hin (joinArchive ap (n_Name c)) (Hc c Hin)). rewrite Forall_forall in IH. auto.
Qed.

Lemma items_all P xs n ap : (fun it => (it_path it, it_node it)) <$> xs = flatten n ap -> tree_all P n ->
  Forall (fun it => P (it_node it)) xs.
Proof.
  intros E Ht. pose proof (flatten_all P n ap Ht) as Hf. rewrite <- E, Forall_fmap in Hf. exact Hf.
Qed.

(** Reading the encoding of a tree back. *)
Lemma read_fresh `{SipHash} v (pay : option readerAt) (pc : Z -> Z -> bytes) (v2 : bool) cont root pos ln0 prelude out extra xs ln r want :
  v = (if v2 then 2 else 1) -> v = 1 \/ pay <> None ->
  encodes v2 cont root true [] pos ln0 out extra xs ln -> n_Kind root = KindDirectory ->
  tree_all wf_node root -> (height root <= maxDepth)%nat -> Forall (served pay pc) xs -> prelude_ok prelude ->
  fresh v pay false r (stream_head v2 prelude ++ out) -> (0 < want)%nat ->
  read_archive (S (length xs)) want r = ((fun it => (decode_item false it, item_content pc it)) <$> xs, RdEOF).
Proof.
  intros Hv Hvp Henc Hk Hwf Hh Hsv Hpr Hf Hwant.
  destruct (archive_visits v pay false pc v2 cont Hv root _ _ prelude out extra xs ln r Henc Hk Hwf Hh Hsv Hpr Hf)
    as (x0 & xs' & r1 & D1 & s1 & -> & E1 & Hp & Hvis).
  cbn [length]. remember (S (length xs')) as f eqn:Ef. cbn [read_archive]. rewrite E1.
  assert (rd_content r1 <> CErr) as Hce.
  { intros E. destruct Hp as (_ & Hl & _). unfold has_left in Hl. rewrite E in Hl. destruct Hl, Hvp; [lia|done]. }
  destruct (read_all_ok v pay false want Hwant (S (rsize (rd_br r1) + Z.to_nat (rd_left r1))) D1 s1 r1
    _ Hp ltac:(done) ltac:(lia)) as (r2 & -> & Hp2).
  rewrite (read_archive_ok v pay false pc want Hwant Hvp xs' f D1 s1 r2 []); [done|lia|done|done].
Qed.

Lemma read_encoded `{SipHash} cont root pos ln0 out extra xs ln seg want :
  encodes false cont root true [] pos ln0 out extra xs ln -> n_Kind root = KindDirectory ->
  tree_all wf_node root -> (height root <= maxDepth)%nat -> contents seg = (out, EOF) -> (0 < want)%nat ->
  read_archive (S (length xs)) want (NewReaderV1 seg) =
    ((fun it => (decode_item false it, item_content (fun _ _ => []) it)) <$> xs, RdEOF).
Proof.
  intros Henc Hk Hwf Hh Hseg Hwant. destruct (encodes_items false cont) as [Hit _]. specialize (Hit _ _ _ _ _ _ _ _ _ Henc).
  eapply (read_fresh 1 None (fun _ _ => []) false cont root _ _ None); try done; [by left| |].
  - eapply Forall_impl; [exact Hit|]. intros it. unfold item_ok, served. by destruct (it_data it).
  - split_and!; try done. by left.
Qed.

(* ------------------------------------------------------------------ *)
(** ** Properties *)

Section properties.
Context {T : Type} `{PayloadSource T} `{SipHash}.
Context (I : T -> Prop) (good : node -> Prop) (cont : node -> bytes -> Prop).
Context (Hsrc : source_copies I good cont).

(** C1: The v1 round trip: whatever archive a successful emission wrote for a
    well-formed tree, the reader, fed the bytes in any segmentation and read with
    buffers of any size, returns exactly the tree's nodes in order, every one with
    its metadata and the content its source supplied, and then [io.EOF]. *)
Theorem archive_roundtrip_v1 root (em em' : emitter T) seg want :
  tree_all good root -> tree_all wf_node root -> (height root <= maxDepth)%nat ->
  n_Kind root = KindDirectory -> em_ready I em -> em_refs em = None -> em_w em = cw_open 0 [] ->
  em_run root em = (Ok (), em') -> contents seg = (cw_out (em_w em'), EOF) -> (0 < want)%nat ->
  exists xs,
    (fun it => (it_path it, it_node it)) <$> xs = flatten root [] /\
    Forall (item_ok false cont) xs /\
    read_archive (S (length xs)) want (NewReaderV1 seg) =
      ((fun it => (decode_item false it, item_content (fun _ _ => []) it)) <$> xs, RdEOF).
Proof.
  intros Hg Hwf Hh Hk Hr Hrefs Hw He Hseg Hwant.
  destruct (em_run_ok I good cont Hsrc _ _ _ _ Hg Hr He) as (out & extra & xs & ln & Henc & [[Ho _] _ _ _ _ _]).
  assert (em_v2 em = false) as Ev by (unfold em_v2; by rewrite Hrefs).
  rewrite Ev in *. cbn [stream_head app length] in *. rewrite Hw in *. cbn [cw_out cw_open app cw_pos] in *.
  destruct (encodes_layout false cont) as [Hlay _].
  destruct (Hlay _ _ _ _ _ _ _ _ _ Henc (u64_range _)) as (Hx & _).
  destruct (encodes_items false cont) as [Hit _]. specialize (Hit _ _ _ _ _ _ _ _ _ Henc).
  exists xs. split; [done|]. split; [done|]. rewrite Ho in Hseg. by eapply read_encoded.
Qed.

(** C26: Decoding the metadata of an emitted stream, v1 or v2, visits exactly its
    regular files in archive order, each with the bytes change detection renders
    for the scanned node, and reports the stream's format version.  In v1 a
    file's size is the length of its content; in v2 the sizes and offsets are,
    file by file, the references the emitter took from its ledger
    ([Refs.payload_refs_resolve] says where those lead). *)
Theorem decode_metadata_emitted root (em em' : emitter T) seg :
  tree_all good root -> tree_all wf_node root -> (height root <= maxDepth)%nat ->
  n_Kind root = KindDirectory -> em_ready I em -> em_w em = cw_open 0 [] ->
  prelude_ok (em_prelude em) ->
  em_run root em = (Ok (), em') -> contents seg = (cw_out (em_w em'), EOF) ->
  exists xs,
    (fun it => (it_path it, it_node it)) <$> xs = flatten root [] /\
    Forall (item_ok (em_v2 em) cont) xs /\
    match em_refs em with
    | Some r => exists r', rr_nexts (length (item_refs xs)) (em_get em) r = (Ok (item_refs xs), r')
    | None => item_refs xs = []
    end /\
    DecodeMetadata seg = (meta_files xs, Ok (if em_v2 em then 2 else 1)).
Proof.
  intros Hg Hwf Hh Hk Hr Hw Hpr He Hseg.
  destruct (em_run_ok I good cont Hsrc _ _ _ _ Hg Hr He) as (out & extra & xs & ln & Henc & [[Ho _] _ _ _ _ Hrefs]).
  rewrite Hw in *. cbn [cw_out cw_open app cw_pos] in *.
  destruct (encodes_layout (em_v2 em) cont) as [Hlay _].
  destruct (Hlay _ _ _ _ _ _ _ _ _ Henc (u64_range _)) as (Hx & Hloc & _).
  destruct (encodes_items (em_v2 em) cont) as [Hit _]. specialize (Hit _ _ _ _ _ _ _ _ _ Henc).
  exists xs. split; [done|]. split; [done|]. split.
  { destruct (em_refs em); [destruct Hrefs as (r' & _ & ?); by exists r'|by destruct Hrefs]. }
  pose proof (items_all wf_node xs root [] Hx Hwf) as Hwx.
  destruct (encodes_length (em_v2 em) cont) as [Hlen _]. specialize (Hlen _ _ _ _ _ _ _ _ _ Henc).
  assert (Forall file_item xs) as Hall.
  { rewrite Forall_forall in *. intros x Hin. split; [auto|]. specialize (Hit x Hin).
    unfold item_ok in Hit. destruct (it_data x); tauto. }
  destruct (archive_visits (if em_v2 em then 2 else 1) None true (fun _ _ => []) (em_v2 em) cont eq_refl root _ _
    (em_prelude em) out extra xs ln
    (mkR seg None 0 true false false [] 0 None CNone 0 None) Henc Hk Hwf Hh)
    as (x0 & xs' & r1 & D1 & s1 & -> & E1 & Hp & Hvis).
  - eapply Forall_impl; [exact Hit|]. intros it. unfold item_ok, served. by destruct (it_data it).
  - done.
  - split_and!; try done; [by right|]. cbn [rd_br]. by rewrite Hseg, Ho.
  - unfold DecodeMetadata. rewrite Hseg, meta_files_cons. cbn [fst]. rewrite Ho.
    apply Forall_cons in Hall as [H0' Hall].
    eapply decode_loop_step; [done|done|exact E1|].
    eapply (decode_loop_ok _ None true (fun _ _ => [])); try done. rewrite length_app. cbn [length] in Hlen. lia.
Qed.
End properties.

(* ------------------------------------------------------------------ *)
(** ** Witnesses *)

(** The emitted bytes of the sample tree, arriving in two reads. *)
Definition sample_out : bytes := cw_out (em_w (@em_run _ _ toy_siphash sample_tree sample_em).2).
Definition sample_seg : reader := [(take 7 sample_out, None); (drop 7 sample_out, Some EOF)].

Ltac small := vm_compute; first [done | split; [discriminate|reflexivity]].

Lemma sample_wf : tree_all wf_node sample_tree.
Proof.
  unfold sample_tree. each_node; (split;
    [cbn; unfold wf_entry; cbn; split_and!; try reflexivity; small
    |cbn; repeat constructor; try (cbn; unfold maxRecordBody; lia); try done; vm_compute; set_solver
    |reflexivity
    |cbn; repeat constructor; vm_compute; done
    |cbn; lia
    |try done
    |try done
    |split; small]).
Qed.

Lemma archive_roundtrip_v1_witness :
  exists xs,
    (fun it => (it_path it, it_node it)) <$> xs = flatten sample_tree [] /\
    Forall (item_ok false (sync_cont sample_fs)) xs /\
    read_archive (S (length xs)) 2 (NewReaderV1 sample_seg) =
      ((fun it => (decode_item false it, item_content (fun _ _ => []) it)) <$> xs, RdEOF).
Proof.
  refine (@archive_roundtrip_v1 _ _ toy_siphash (fun s => s = sample_fs) (unchanged sample_fs)
    (sync_cont sample_fs) (sync_copies sample_fs) sample_tree sample_em
    (@em_run _ _ toy_siphash sample_tree sample_em).2 sample_seg 2%nat
    sample_good sample_wf _ eq_refl _ eq_refl eq_refl _ _ _).
  - apply Nat.leb_le. vm_compute. reflexivity.
  - split; [done|]. by split.
  - vm_compute. reflexivity.
  - vm_compute. reflexivity.
  - lia.
Defined.

(** The same tree emitted as a v2 metadata stream. *)
Definition sample_plan_v2 : list payloadPlan :=
  [mkPlan sample_tree false 0 0 [] false 0 0; mkPlan sample_tree false 0 0 [] false 0 1].
Definition sample_em_v2 : emitter osfs :=
  mkEm (cw_open 0 []) sample_fs (Some (newRefReader sample_plan_v2))
    (fun i => Ok (if decide (i = 0%nat) then 3 else 4)) (Some (lit "{}")) ∅ [].
Definition sample_meta : bytes := cw_out (em_w (@em_run _ _ toy_siphash sample_tree sample_em_v2).2).

Lemma decode_metadata_emitted_witness :
  exists xs,
    (fun it => (it_path it, it_node it)) <$> xs = flatten sample_tree [] /\
    Forall (item_ok true (sync_cont sample_fs)) xs /\
    match em_refs sample_em_v2 with
    | Some r => exists r', rr_nexts (length (item_refs xs)) (em_get sample_em_v2) r = (Ok (item_refs xs), r')
    | None => item_refs xs = []
    end /\
    DecodeMetadata [(sample_meta, Some EOF)] = (meta_files xs, Ok 2).
Proof.
  refine (@decode_metadata_emitted _ _ toy_siphash (fun s => s = sample_fs) (unchanged sample_fs)
    (sync_cont sample_fs) (sync_copies sample_fs) sample_tree sample_em_v2
    (@em_run _ _ toy_siphash sample_tree sample_em_v2).2 [(sample_meta, Some EOF)]
    sample_good sample_wf _ eq_refl _ eq_refl _ _ _).
  - apply Nat.leb_le. vm_compute. reflexivity.
  - split; [split; vm_compute; [discriminate|reflexivity]|]. split; [done|]. split; [by vm_compute|].
    repeat constructor; vm_compute; try discriminate; reflexivity.
  - vm_compute. discriminate.
  - vm_compute. reflexivity.
  - reflexivity.
Defined.
