(* ===== verification/ReaderSafe.v ===== *)
(** * The reader on untrusted archives

    What Reader.v guarantees whatever bytes it is fed: the paths and hardlink
    targets it returns stay inside the archive root, nesting is bounded, its
    loops never run out of fuel and an error stays. *)

From S2P Require Import Prelude Format Io Tree Emit Reader.
From Stdlib Require Import Strings.Byte.
Local Open Scope Z_scope.

(** The empty path of the root, or slash-separated valid filenames. *)
Definition safe_path (p : bytes) : Prop := p = [] \/ validatePath p = Ok ().

(** What [Next] may return. *)
Definition safe_node (n : rnode) : Prop :=
  safe_path (r_Path n) /\ (r_Hardlink n = true -> validatePath (r_LinkTarget n) = Ok ()).

(** Reader states between calls. *)
Definition safe_state (r : rstate) : Prop :=
  Forall safe_path (rd_dirs r) /\ (length (rd_dirs r) <= maxDepth)%nat.

(* ------------------------------------------------------------------ *)
(** ** Lemmas: paths *)

Lemma validate_all_ok ns : validate_all ns = Ok () <-> Forall (fun n => ValidateFilename n = Ok ()) ns.
Proof.
  induction ns as [|n ns IH]; cbn [validate_all]; [split; [constructor|done]|].
  rewrite Forall_cons. unfold validate_name.
  destruct (ValidateFilename n) as [[]|e]; cbn [mbind result_bind]; [rewrite IH; tauto|].
  split; [done|]. by intros [? _].
Qed.

Lemma split_slash_not_nil p : split_slash p <> [].
Proof. destruct p; cbn; [done|]. case_decide; [done|]. by destruct (split_slash p). Qed.

Lemma split_slash_name name : slash ∉ name -> split_slash name = [name].
Proof.
  induction name as [|c name IH]; intros Hn; [done|]. cbn [split_slash].
  rewrite decide_False by set_solver. rewrite IH by set_solver. done.
Qed.

Lemma split_slash_join p name : slash ∉ name -> split_slash (p ++ [slash] ++ name) = split_slash p ++ [name].
Proof.
  intros Hn. induction p as [|c p IH]; cbn [app split_slash].
  - rewrite decide_True by done. by rewrite split_slash_name.
  - cbn [app] in IH. rewrite IH. case_decide; [done|].
    destruct (split_slash p) eqn:E; [by destruct (split_slash_not_nil p)|done].
Qed.

Lemma safe_join dir name : safe_path dir -> validate_name name = Ok () ->
  validatePath (if decide (dir = []) then name else dir ++ [slash] ++ name) = Ok ().
Proof.
  unfold validate_name. intros Hd Hn.
  assert (ValidateFilename name = Ok ()) as Hv by (destruct (ValidateFilename name) as [[]|]; done).
  apply ValidateFilename_ok in Hv as Hs. destruct Hs as (_ & _ & _ & Hs & _).
  unfold validatePath, safe_path in *. apply validate_all_ok. case_decide as E.
  - rewrite split_slash_name by done. by constructor.
  - destruct Hd as [Hd|Hd]; [done|]. rewrite split_slash_join by done.
    apply validate_all_ok in Hd. apply Forall_app. split; [done|]. by constructor.
Qed.

(* ------------------------------------------------------------------ *)
(** ** Lemmas: actions *)

(** [m] leaves the directories and the payload alone and never runs dry;
    [P] holds of what it returns. *)
Definition tame {A} (m : R A) (P : A -> Prop) : Prop :=
  forall r res r', m r = (res, r') -> rd_dirs r' = rd_dirs r /\
  match res with Ok a => P a | Err e => e <> RdFuel end.

Lemma tame_bind {A B} (m : R A) (f : A -> R B) (P : A -> Prop) (Q : B -> Prop) :
  tame m P -> (forall a, P a -> tame (f a) Q) -> tame (m ≫= f) Q.
Proof.
  intros Hm Hf r res r' E. unfold mbind, R_bind in E.
  destruct (m r) as [[a|e] r1] eqn:Em; destruct (Hm _ _ _ Em) as [Hd HP].
  - destruct (Hf a HP _ _ _ E) as [Hd' HQ]. split; [congruence|done].
  - simplify_eq. done.
Qed.

Lemma tame_ret {A} (a : A) (P : A -> Prop) : P a -> tame (mret a) P.
Proof. intros HP r res r' E. unfold mret, R_ret in E. by simplify_eq. Qed.
Lemma tame_fail {A} e (P : A -> Prop) : e <> RdFuel -> tame (rfail e) P.
Proof. intros He r res r' E. unfold rfail in E. by simplify_eq. Qed.
Lemma tame_get {A} (f : rstate -> A) : tame (rget f) (fun _ => True).
Proof. intros r res r' E. unfold rget in E. by simplify_eq. Qed.
Lemma tame_mod (f : rstate -> rstate) : (forall r, rd_dirs (f r) = rd_dirs r) -> tame (rmod f) (fun _ => True).
Proof. intros Hf r res r' E. unfold rmod in E. by simplify_eq. Qed.
Lemma tame_lift {A} (m : result rerror A) (P : A -> Prop) :
  match m with Ok a => P a | Err e => e <> RdFuel end -> tame (lift m) P.
Proof. intros Hm r res r' E. unfold lift in E. by simplify_eq. Qed.

Lemma tame_peek : tame peek (fun x => 16 <= x.2 \/ True).
Proof.
  intros r res r' E. unfold peek in E.
  repeat case_match; simplify_eq; try done; split; try done; auto.
Qed.
Lemma tame_rbody t l : tame (rbody t l) (fun _ => True).
Proof. intros r res r' E. unfold rbody in E. repeat case_match; simplify_eq; done. Qed.
Lemma tame_rskip t l : tame (rskip t l) (fun _ => True).
Proof. intros r res r' E. unfold rskip in E. repeat case_match; simplify_eq; done. Qed.

(** Bytes left to decode. *)
Definition bytes_left (r : rstate) : nat :=
  (length (contents (rd_br r)).1 + match rd_have r with Some _ => 16 | None => 0 end)%nat.

Lemma peek_left r x r' : peek r = (Ok x, r') -> bytes_left r' = bytes_left r /\ rd_have r' = Some x.
Proof.
  unfold peek, bytes_left. intros E. destruct (rd_have r) eqn:Eh; [injection E as <- <-; by rewrite Eh|].
  destruct (ReadFull_spec 16 (rd_br r)) as [br H]. cbv zeta in H.
  case_decide as Hd.
  - destruct H as [H Hc]. rewrite H in E. cbv beta iota zeta in E.
    destruct (_ <? HeaderSize); simplify_eq. cbn. rewrite Hc. cbn [fst].
    rewrite length_drop. split; [lia|done].
  - rewrite H in E. simplify_eq.
Qed.

Lemma rbody_left t l r b r' : rbody t l r = (Ok b, r') ->
  (length (contents (rd_br r')).1 <= length (contents (rd_br r)).1)%nat /\ rd_have r' = None.
Proof.
  unfold rbody. intros E. case_match; [by simplify_eq|].
  destruct (ReadFull_spec (Z.to_nat (l - HeaderSize)) (rd_br r)) as [br H1]. cbv zeta in H1.
  case_decide as Hd.
  - destruct H1 as [H1 Hc]. rewrite H1 in E. simplify_eq. cbn. rewrite Hc. cbn [fst]. rewrite length_drop. split; [lia|done].
  - rewrite H1 in E. simplify_eq.
Qed.

Definition same_path (n n' : rnode) : Prop :=
  r_Path n' = r_Path n /\ r_Hardlink n' = r_Hardlink n /\ r_LinkTarget n' = r_LinkTarget n.

Lemma apply_meta_path n t b : match apply_meta n t b with Ok n' => same_path n n' | Err e => e <> RdFuel end.
Proof. unfold apply_meta, same_path. repeat case_match; simplify_eq; done. Qed.

Lemma keep_path k n t b : same_path n (keep k n t b).
Proof. unfold keep. by destruct k. Qed.

Lemma metadata_loop_tame fuel : forall n r res r', (bytes_left r < 16 * fuel)%nat ->
  metadata_loop fuel n r = (res, r') -> rd_dirs r' = rd_dirs r /\
  match res with Ok x => same_path n x.1.1 | Err e => e <> RdFuel end.
Proof.
  induction fuel as [|fuel IH]; intros n r res r' Hf E; [lia|]. cbn [metadata_loop] in E.
  unfold mbind at 1, R_bind in E. destruct (peek r) as [[[t l]|e] r1] eqn:Ep;
    destruct (tame_peek _ _ _ Ep) as [Hd1 He]; [|by simplify_eq].
  destruct (peek_left _ _ _ Ep) as [Hl1 Hh1].
  destruct (metadataRecord t) as [want|]; [|by unfold mret, R_ret in E; simplify_eq].
  case_match; [by unfold rfail in E; simplify_eq|].
  unfold mbind at 1 in E. destruct (rbody t l r1) as [[b|e] r2] eqn:Eb;
    destruct (tame_rbody _ _ _ _ _ Eb) as [Hd2 He2]; [|simplify_eq; split; [congruence|done]].
  destruct (rbody_left _ _ _ _ _ Eb) as [Hl2 Hh2].
  unfold mbind, rget, lift in E.
  pose proof (apply_meta_path (keep (rd_keepMeta r2) n t b) t b) as Ha.
  destruct (apply_meta _ t b) as [n'|e]; [|simplify_eq; split; [congruence|done]].
  apply IH in E as [Hd3 Hres].
  - split; [congruence|]. destruct res as [x|]; [|done].
    destruct (keep_path (rd_keepMeta r2) n t b) as (K1 & K2 & K3).
    destruct Ha as (A1 & A2 & A3), Hres as (R1 & R2 & R3). unfold same_path. by rewrite R1, R2, R3, A1, A2, A3.
  - unfold bytes_left in *. rewrite Hh2. rewrite Hh1 in Hl1. lia.
Qed.

Lemma metadata_tame n r res r' : rd_have r = None -> metadata n r = (res, r') -> rd_dirs r' = rd_dirs r /\
  match res with Ok x => same_path n x.1.1 | Err e => e <> RdFuel end.
Proof.
  intros Hh. apply metadata_loop_tame. unfold bytes_left. rewrite Hh. lia.
Qed.

Lemma tame_payloadRecord n t l : tame (payloadRecord n t l) (same_path n).
Proof.
  intros r res r' E. unfold payloadRecord in E. case_decide; [by simplify_eq|].
  case_decide; [|by simplify_eq]. case_match; [by simplify_eq|]. revert E.
  apply (tame_bind _ _ (fun _ => True)); [apply tame_rbody|]. intros b _. cbv zeta.
  apply (tame_bind _ _ (fun _ => True)); [apply tame_get|]. intros [ra|] _.
  - apply (tame_bind _ _ (fun _ => True)); [apply tame_get|]. intros chk _.
    apply (tame_bind _ _ (fun _ => True)).
    { destruct chk; [by apply tame_ret|].
      apply (tame_bind _ _ (fun _ => True)); [|intros; by apply tame_mod].
      apply tame_lift. unfold checkPayloadStart. by repeat case_match; simplify_eq. }
    intros _ _. apply (tame_bind _ _ (fun _ => True)).
    { apply tame_lift. unfold checkPayloadRecord. by repeat case_match; simplify_eq. }
    intros _ _. apply (tame_bind _ _ (fun _ => True)); [by apply tame_mod|]. intros _ _. by apply tame_ret.
  - apply (tame_bind _ _ (fun _ => True)); [by apply tame_mod|]. intros _ _. by apply tame_ret.
Qed.

Lemma cstring_err b e : cstring b = Err e -> e <> RdFuel.
Proof. unfold cstring. intros. by repeat case_match; simplify_eq. Qed.

Lemma validatePath_err p e : validatePath p = Err e -> e <> RdFuel.
Proof.
  unfold validatePath. induction (split_slash p) as [|n ns IH]; cbn [validate_all]; [done|].
  unfold validate_name. destruct (ValidateFilename n); cbn; [done|by intros; simplify_eq].
Qed.

(** What decoding one entry does: at most one directory is entered. *)
Definition entered (path : bytes) (r : rstate) (res : result rerror rnode) (r' : rstate) : Prop :=
  match res with
  | Ok n =>
      r_Path n = path /\ (r_Hardlink n = true -> validatePath (r_LinkTarget n) = Ok ()) /\
      (rd_dirs r' = rd_dirs r \/ rd_dirs r' = path :: rd_dirs r /\ (length (rd_dirs r) < maxDepth)%nat)
  | Err e => e <> RdFuel
  end.

Lemma tame_entered (m : R rnode) path r res r' : tame m (fun n => r_Path n = path /\ r_Hardlink n = false) ->
  m r = (res, r') -> entered path r res r'.
Proof.
  intros Ht E. destruct (Ht _ _ _ E) as [Hd HP]. destruct res as [n|]; [|done].
  destruct HP as [HP Hl]. split_and!; [done|by rewrite Hl|by left].
Qed.

Lemma node_special_entered path n t l r res r' : r_Path n = path -> r_Hardlink n = false ->
  node_special path n t l r = (res, r') -> entered path r res r'.
Proof.
  intros Hp Hl E. unfold node_special in E.
  case_decide.
  { unfold mbind, R_bind, rget, rmod, rfail, mret, R_ret in E. cbv beta iota in E.
    case_decide as Hd; simplify_eq; [done|].
    split_and!; [done|by rewrite Hl|]. right. split; [done|]. lia. }
  case_decide.
  { eapply tame_entered; [|exact E]. intros r0 res0 r0' E0. destruct (tame_payloadRecord _ _ _ _ _ _ E0) as [Hd Hn].
    split; [done|]. destruct res0; [|done]. destruct Hn as (H1 & H2 & _). by rewrite H1, H2. }
  eapply tame_entered; [|exact E]. clear E.
  case_decide.
  { case_match; [apply (tame_bind _ _ (fun _ => True)); [apply tame_get|]; intros; by apply tame_fail|].
    apply (tame_bind _ _ (fun _ => True)); [apply tame_rbody|]. intros b _.
    apply (tame_bind _ _ (fun _ => True)); [apply tame_lift; destruct (cstring b) eqn:Ec; [done|by eapply cstring_err]|].
    intros tg _. destruct (decide (tg = [])); [by apply tame_fail|by apply tame_ret]. }
  case_decide.
  { case_match; [apply (tame_bind _ _ (fun _ => True)); [apply tame_get|]; intros; by apply tame_fail|].
    apply (tame_bind _ _ (fun _ => True)); [apply tame_rbody|]. intros b _. by apply tame_ret. }
  destruct (decide _); [by apply tame_ret|by apply tame_fail].
Qed.

Lemma read_node_entered path r res r' : read_node path r = (res, r') -> entered path r res r'.
Proof.
  unfold read_node. intros E. unfold mbind at 1, R_bind in E.
  destruct (peek r) as [[[t l]|e] r1] eqn:Ep; destruct (tame_peek _ _ _ Ep) as [Hd1 He]; [|by simplify_eq].
  enough (entered path r1 res r') as Hen.
  { unfold entered in *. destruct res; [|done]. by rewrite Hd1 in Hen. }
  clear Ep He. destruct (decide (t = TypeHardlink /\ path <> [])).
  { revert E. intros E. assert (tame (body ← rbody t l;
      if decide (List.length body < 9)%nat then rfail RdShortLink else
      target ← lift (cstring (drop 8 body));
      _ ← lift (validatePath target);
      mret (mkRNode path (mkEntry 0 0 0 0 0 0) true target [] None None 0 zeroDevice 0 0 []))
      (fun n => r_Path n = path /\ validatePath (r_LinkTarget n) = Ok ())) as Ht.
    { apply (tame_bind _ _ (fun _ => True)); [apply tame_rbody|]. intros b _.
      destruct (decide _); [by apply tame_fail|].
      apply (tame_bind _ _ (fun _ => True)); [apply tame_lift; destruct (cstring _) eqn:Ec; [done|by eapply cstring_err]|].
      intros tg _. apply (tame_bind _ _ (fun _ => validatePath tg = Ok ())).
      { apply tame_lift. destruct (validatePath tg) as [[]|e] eqn:Ec; [done|by eapply validatePath_err]. }
      intros _ Hv. by apply tame_ret. }
    destruct (Ht _ _ _ E) as [Hd HP]. destruct res as [n|]; [|done]. destruct HP as [HP Hv].
    split_and!; [done|done|by left]. }
  destruct (decide (t = TypeEntryV1)); [unfold rfail in E; by simplify_eq|].
  destruct (negb (bool_decide _)); [unfold mbind, rget, rfail in E; by simplify_eq|].
  destruct (negb _); [unfold rfail in E; by simplify_eq|].
  unfold mbind at 1 in E. destruct (rbody t l r1) as [[b|e] r2] eqn:Eb;
    destruct (tame_rbody _ _ _ _ _ Eb) as [Hd2 He2]; [|by simplify_eq].
  destruct (rbody_left _ _ _ _ _ Eb) as [_ Hh]. unfold mbind, rget in E. cbv zeta in E.
  set (nd := keep _ _ _ _) in E.
  assert (same_path (mkRNode path (decode_entry b) false [] [] None None 0 zeroDevice 0 0 []) nd) as Hn0 by apply keep_path.
  destruct (metadata nd r2) as [[[[rn t'] l']|e] r3] eqn:Em;
    destruct (metadata_tame _ _ _ _ Hh Em) as [Hd3 He3]; [|by simplify_eq].
  destruct Hn0 as (N1 & N2 & _), He3 as (M1 & M2 & _). cbn [fst] in M1, M2.
  apply node_special_entered in E; [|by rewrite M1, N1|by rewrite M2, N2].
  unfold entered in *. destruct res; [|done]. by rewrite Hd3, Hd2 in E.
Qed.

Lemma tame_readHead : tame readHead (fun _ => True).
Proof.
  unfold readHead. apply (tame_bind _ _ (fun x => 16 <= x.2 \/ True)); [apply tame_peek|]. intros [t l] _.
  apply (tame_bind _ _ (fun _ => True)); [apply tame_get|]. intros v _.
  destruct (negb _); [destruct (decide _); [by apply tame_fail|by apply tame_mod]|].
  destruct (decide _); [by apply tame_fail|].
  apply (tame_bind _ _ (fun _ => True)); [apply tame_rbody|]. intros b _.
  destruct (negb _); [by apply tame_fail|]. destruct (negb _); [by apply tame_fail|].
  apply (tame_bind _ _ (fun _ => True)); [by apply tame_mod|]. intros _ _.
  apply (tame_bind _ _ (fun x => 16 <= x.2 \/ True)); [apply tame_peek|]. intros [t' l'] _.
  destruct (decide _); [|by apply tame_ret].
  apply (tame_bind _ _ (fun _ => True)); [apply tame_rbody|]. intros _ _. by apply tame_ret.
Qed.

(** The result of a call that started in a safe state. *)
Definition safe_result (res : result rerror rnode) (r' : rstate) : Prop :=
  match res with Ok n => safe_node n /\ safe_state r' | Err e => e <> RdFuel end.

Lemma entered_safe path r res r' : safe_path path -> safe_state r -> entered path r res r' -> safe_result res r'.
Proof.
  intros Hp [Hf Hl] He. destruct res as [n|e]; [|done]. destruct He as (HP & Hh & Hd).
  split; [split; [by rewrite HP|done]|]. unfold safe_state. destruct Hd as [->|[-> Hlt]]; [done|].
  split; [by constructor|cbn [length]; lia].
Qed.

Lemma next_loop_safe dirs : forall r res r', rd_dirs r = dirs -> safe_state r ->
  next_loop dirs r = (res, r') -> safe_result res r'.
Proof.
  induction dirs as [|dir dirs IH]; intros r res r' Hd [Hf Hl] E; cbn [next_loop] in E.
  { destruct (contents (rd_br r)) as [[|? ?] []]; by simplify_eq. }
  unfold mbind at 1, R_bind in E.
  destruct (peek r) as [[[t l]|e] r1] eqn:Ep; destruct (tame_peek _ _ _ Ep) as [Hd1 He]; [|by simplify_eq].
  rewrite Hd in Hf, Hl. apply Forall_cons in Hf as [Hdir Hf]. cbn [length] in Hl.
  destruct (decide (t = TypeGoodbye)).
  { unfold mbind at 1 in E. destruct (rskip t l r1) as [[u|e5] r2] eqn:Eb;
      destruct (tame_rskip _ _ _ _ _ Eb) as [Hd2 He2]; [|by simplify_eq].
    unfold mbind, rmod in E. apply IH in E; [done|done|]. split; [done|cbn; lia]. }
  destruct (decide (t = TypeFilename)); [|unfold mbind, rget, rfail in E; by simplify_eq].
  unfold mbind at 1 in E. destruct (rbody t l r1) as [[b|e2] r2] eqn:Eb;
    destruct (tame_rbody _ _ _ _ _ Eb) as [Hd2 He2]; [|by simplify_eq].
  unfold mbind at 1, lift in E. destruct (cstring b) as [name|e3] eqn:Ec; [|simplify_eq; by eapply cstring_err].
  unfold mbind in E. destruct (validate_name name) as [[]|e4] eqn:Ev.
  2: { simplify_eq. unfold validate_name in Ev. by destruct (ValidateFilename name); simplify_eq. }
  apply read_node_entered in E. eapply entered_safe; [|split|exact E].
  - right. by apply safe_join.
  - rewrite Hd2, Hd1, Hd. by constructor.
  - rewrite Hd2, Hd1, Hd. cbn [length]. lia.
Qed.

Lemma next_safe r res r' : safe_state r -> next r = (res, r') -> safe_result res r'.
Proof.
  intros Hs E. unfold next in E. unfold mbind at 1, R_bind in E.
  destruct (skip_content r) as [[[]|e] r1] eqn:Es.
  - assert (rd_dirs r1 = rd_dirs r) as Hd by (unfold skip_content in Es; by repeat case_match; simplify_eq).
    unfold mbind at 1, rmod in E. unfold mbind at 1, rget in E.
    assert (safe_state (set_content CNone 0 r1)) as Hs1
      by (unfold safe_state in *; cbn [rd_dirs set_content]; rewrite Hd; exact Hs).
    destruct (negb _).
    + unfold mbind in E. destruct (readHead (set_started (set_content CNone 0 r1))) as [[[]|e] r2] eqn:Eh;
        destruct (tame_readHead _ _ _ Eh) as [Hd2 He2]; [|by simplify_eq].
      apply read_node_entered in E. eapply entered_safe; [by left| |exact E].
      unfold safe_state in *. by rewrite Hd2.
    + unfold mbind, rget in E. cbv beta iota in E. eapply next_loop_safe; [|exact Hs1|exact E]. done.
  - unfold skip_content in Es. by repeat case_match; simplify_eq.
Qed.

(** A v1 payload record of 2^63 bytes or more is not skipped: the count passed
    to [io.CopyN] is negative, nothing is read and no error is returned. *)
Lemma skip_content_overflow r : inline r = true -> 2 ^ 63 <= rd_left r < 2 ^ 64 -> skip_content r = (Ok (), r).
Proof.
  intros Hi Hl. unfold skip_content. rewrite Hi, (proj2 (Z.ltb_lt _ _)) by lia. cbn [andb].
  assert (i64 (rd_left r) = rd_left r - 2 ^ 64) as ->.
  { unfold i64. replace (rd_left r + 2 ^ 63) with (rd_left r - 2 ^ 63 + 1 * 2 ^ 64) by lia.
    rewrite Z_mod_plus_full, Z.mod_small by lia. lia. }
  rewrite (proj2 (Z.ltb_lt _ _)) by lia. done.
Qed.

(* ------------------------------------------------------------------ *)
(** ** Properties *)

(** The calls a client makes. *)
Inductive client_step : rstate -> rstate -> Prop :=
  | step_next r res r' : Next r = (res, r') -> client_step r r'
  | step_read want r b e r' : RRead want r = (b, e, r') -> client_step r r'.

Definition unstarted (r : rstate) : Prop := rd_dirs r = [] /\ rd_err r = None.

Lemma client_safe r r' : client_step r r' -> rd_err r <> None \/ safe_state r -> rd_err r' <> None \/ safe_state r'.
Proof.
  intros [r0 res r0' E|want r0 b e r0' E] Hs.
  - unfold Next in E. destruct (rd_err r0) eqn:Ee; [simplify_eq; left; congruence|].
    destruct Hs as [Hs|Hs]; [done|].
    destruct (next r0) as [[n|e] r1] eqn:En; simplify_eq; [|by left].
    right. by destruct (next_safe _ _ _ Hs En).
  - destruct Hs as [Hs|Hs].
    + left. unfold RRead, content_read in E. by repeat case_match; simplify_eq.
    + right. unfold RRead, content_read in E. by repeat case_match; simplify_eq.
Qed.

(** C13: On any byte stream at all, however it is segmented and however calls of
    Next and Read are interleaved, every entry the reader returns has the empty
    path or a relative path of valid filenames (no "..", no slash or NUL in a
    component), a hardlink's target is such a path too, the nesting stays within
    the bound, no loop of the reader runs out of fuel, and an error is returned
    again by every later call. *)
Theorem reader_safe r0 r : unstarted r0 -> rtc client_step r0 r ->
  match Next r with
  | (Ok n, r') => safe_node n /\ safe_state r'
  | (Err e, r') => (rd_err r = None -> e <> RdFuel) /\ (Next r').1 = Err e
  end.
Proof.
  intros [Hd He] Hs. assert (rd_err r <> None \/ safe_state r) as Hinv.
  { assert (rd_err r0 <> None \/ safe_state r0) as H0 by (right; unfold safe_state; rewrite Hd; split; [constructor|cbn; lia]).
    clear Hd He. induction Hs; [done|]. eauto using client_safe. }
  unfold Next at 1. destruct (rd_err r) as [e|] eqn:Ee.
  - split; [done|]. unfold Next. by rewrite Ee.
  - destruct Hinv as [Hi|Hi]; [done|].
    destruct (next r) as [[n|e] r1] eqn:En; pose proof (next_safe _ _ _ Hi En) as Hn; [done|].
    split; [done|]. done.
Qed.

(* ------------------------------------------------------------------ *)
(** ** Witnesses *)

(** A hostile archive: a directory whose child is called "..". *)
Definition hostile : bytes :=
  frames [REntry (mkEntry 0x41ed 0 0 0 0 0); RFilename (lit ".."); REntry (mkEntry 0x41ed 0 0 0 0 0)].

Definition hostile_reader : rstate := NewReaderV1 [(hostile, Some EOF)].
Definition hostile_inside : rstate := (Next hostile_reader).2.

Lemma reader_safe_witness :
  match Next hostile_inside with
  | (Ok n, r') => safe_node n /\ safe_state r'
  | (Err e, r') => (rd_err hostile_inside = None -> e <> RdFuel) /\ (Next r').1 = Err e
  end.
Proof.
  apply (reader_safe hostile_reader hostile_inside).
  - split; reflexivity.
  - apply rtc_once. apply (step_next hostile_reader (Next hostile_reader).1). apply surjective_pairing.
Defined.
