(* ===== verification/Catalog.v ===== *)
(** * The catalog

    Models catalog/varint.go, catalog/writer.go, catalog/reader.go and the
    walk of archive/catalog.go: the .pcat1 directory tables written bottom-up
    with backward deltas, and the decoder that follows them from the trailer. *)

From S2P Require Import Prelude Io Tree Payload.
From Stdlib Require Import Strings.Byte.
Local Open Scope Z_scope.

(* ------------------------------------------------------------------ *)
(** ** Variable-length integers (varint.go) *)

(** The low seven bits with the continuation bit. *)
Definition group (v : Z) : byte := byte_of_Z (Z.lor 128 (Z.land v 127)).

(** [for v >= 128]: a [uint64] has at most ten groups. *)
Fixpoint appendU64_loop (fuel : nat) (dst : bytes) (v : Z) : bytes :=
  match fuel with
  | O => dst ++ [byte_of_Z v]
  | S fuel =>
      if 128 <=? v then appendU64_loop fuel (dst ++ [group v]) (Z.shiftr v 7)
      else dst ++ [byte_of_Z v]
  end.
Definition appendU64 (dst : bytes) (v : Z) : bytes := appendU64_loop 10 dst v.

Fixpoint appendI64_loop (fuel : nat) (dst : bytes) (d : Z) : bytes :=
  match fuel with
  | O => dst ++ [byte_of_Z (Z.lor 128 d); nul]
  | S fuel =>
      if 128 <=? d then appendI64_loop fuel (dst ++ [group d]) (Z.shiftr d 7)
      else dst ++ [byte_of_Z (Z.lor 128 d); nul]
  end.
(** [uint64(-v)] of an [int64]: negation wraps at the minimum. *)
Definition appendI64 (dst : bytes) (v : Z) : bytes :=
  if 0 <=? v then appendU64 dst (u64 v) else appendI64_loop 10 dst (u64 (i64 (- v))).

Inductive cat_error :=
  | ErrVarint | ErrMagic | ErrRootPos | ErrDepth | ErrPos | ErrOverrun | ErrTruncated
  | ErrNameOverrun | ErrDelta | ErrType (t : byte)
  | ErrEmptyName | ErrBadName | ErrUnmatched | ErrOutside | ErrUnclosed | ErrCatWrite (e : gen_error)
  | ErrCatKind.

Fixpoint decodeU64_loop (fuel : nat) (i : nat) (v : Z) (data : bytes) : result cat_error (Z * nat) :=
  match fuel, data with
  | S fuel, t :: data =>
      let t := Z_of_byte t in
      if t <? 128 then Ok (Z.lor v (u64 (Z.shiftl t (Z.of_nat i * 7))), S i)
      else decodeU64_loop fuel (S i) (Z.lor v (u64 (Z.shiftl (Z.land t 127) (Z.of_nat i * 7)))) data
  | _, _ => Err ErrVarint
  end.
Definition decodeU64 (data : bytes) : result cat_error (Z * nat) := decodeU64_loop 10 0 0 data.

Fixpoint decodeI64_loop (fuel : nat) (i : nat) (v : Z) (data : bytes) : result cat_error (Z * nat) :=
  match fuel, data with
  | S fuel, t :: data =>
      let t := Z_of_byte t in
      if t =? 0 then
        if v =? 0 then Ok (0, S i) else Ok (i64 (i64 (- i64 (u64 (v - 1))) - 1), S i)
      else if t <? 128 then Ok (i64 (Z.lor v (u64 (Z.shiftl t (Z.of_nat i * 7)))), S i)
      else decodeI64_loop fuel (S i) (Z.lor v (u64 (Z.shiftl (Z.land t 127) (Z.of_nat i * 7)))) data
  | _, _ => Err ErrVarint
  end.
Definition decodeI64 (data : bytes) : result cat_error (Z * nat) := decodeI64_loop 11 0 0 data.

(* ------------------------------------------------------------------ *)
(** ** The writer (writer.go) *)

Definition Magic : bytes := map byte_of_Z [145; 253; 96; 249; 196; 103; 88; 213].

(** Entry type bytes: 'd' 'f' 'l' 'h' 'b' 'c' 'p' 's'. *)
Definition TypeDirectory : byte := x64.
Definition TypeFile : byte := x66.
Definition TypeSymlink : byte := x6c.
Definition TypeHardlink : byte := x68.
Definition TypeBlockDevice : byte := x62.
Definition TypeCharDevice : byte := x63.
Definition TypeFifo : byte := x70.
Definition TypeSocket : byte := x73.

Record entry := mkEnt {
  en_typ : byte; en_name : bytes; en_size : Z; en_mtime : Z; en_start : Z }.

Record dirInfo := mkDir { d_name : bytes; d_entries : list entry }.

(** [Writer]; the innermost open directory is first in [w_stack]. *)
Record Writer := mkW { w_w : countWriter; w_pos : Z; w_stack : list dirInfo }.

Definition C (A : Type) : Type := Writer -> result cat_error A * Writer.
#[export] Instance C_ret : MRet C := fun A a c => (Ok a, c).
#[export] Instance C_bind : MBind C := fun A B f m c =>
  match m c with
  | (Ok a, c) => f a c
  | (Err e, c) => (Err e, c)
  end.

(** [write]: [pos] counts the bytes the writer took. *)
Definition cat_write (p : bytes) : C unit := fun c =>
  let '(e, w) := cw_write p (w_w c) in
  let n := zlen (cw_out w) - zlen (cw_out (w_w c)) in
  let c := mkW w (u64 (w_pos c + n)) (w_stack c) in
  match e with
  | Ok _ => (Ok (), c)
  | Err e => (Err (ErrCatWrite e), c)
  end.

(** The encoding of one entry in a table at [start]. *)
Definition append_entry (start : Z) (table : bytes) (e : entry) : bytes :=
  let table := table ++ [en_typ e] in
  let table := appendU64 table (zlen (en_name e)) in
  let table := table ++ en_name e in
  if decide (en_typ e = TypeDirectory) then appendU64 table (u64 (start - en_start e))
  else if decide (en_typ e = TypeFile) then appendI64 (appendU64 table (en_size e)) (en_mtime e)
  else table.

Definition table_bytes (entries : list entry) (start : Z) : bytes :=
  foldl (append_entry start) (appendU64 [] (zlen entries)) entries.

Definition writeTable (dir : dirInfo) (start : Z) : C unit :=
  let table := table_bytes (d_entries dir) start in
  let out := appendU64 [] (zlen table) in
  cat_write (out ++ table).

Definition checkName (name : bytes) : result cat_error unit :=
  if decide (name = []) then Err ErrEmptyName
  else if decide (slash ∈ name \/ nul ∈ name) then Err ErrBadName
  else Ok ().

(** [NewWriter]: the magic goes to [w] itself. *)
Definition NewWriter (w : countWriter) : result cat_error Writer * countWriter :=
  let '(e, w) := cw_write Magic w in
  match e with
  | Ok _ => (Ok (mkW w 8 [mkDir [] []]), w)
  | Err e => (Err (ErrCatWrite e), w)
  end.

Definition StartDirectory (name : bytes) : C unit := fun c =>
  match checkName name with
  | Err e => (Err e, c)
  | Ok _ => (Ok (), mkW (w_w c) (w_pos c) (mkDir name [] :: w_stack c))
  end.

Definition EndDirectory : C unit := fun c =>
  match w_stack c with
  | dir :: parent :: stack =>
      let start := w_pos c in
      match writeTable dir start (mkW (w_w c) (w_pos c) (parent :: stack)) with
      | (Err e, c) => (Err e, c)
      | (Ok _, c) =>
          let parent := mkDir (d_name parent)
            (d_entries parent ++ [mkEnt TypeDirectory (d_name dir) 0 0 start]) in
          (Ok (), mkW (w_w c) (w_pos c) (parent :: stack))
      end
  | _ => (Err ErrUnmatched, c)
  end.

Definition add (e : entry) : C unit := fun c =>
  match checkName (en_name e) with
  | Err e => (Err e, c)
  | Ok _ =>
      match w_stack c with
      | dir :: parent :: stack =>
          (Ok (), mkW (w_w c) (w_pos c) (mkDir (d_name dir) (d_entries dir ++ [e]) :: parent :: stack))
      | _ => (Err ErrOutside, c)
      end
  end.

Definition AddFile (name : bytes) (size mtimeSecs : Z) : C unit :=
  add (mkEnt TypeFile name size mtimeSecs 0).
(** [AddSymlink] and its like. *)
Definition AddNamed (typ : byte) (name : bytes) : C unit := add (mkEnt typ name 0 0 0).

Definition Finish : C unit := fun c =>
  match w_stack c with
  | [root] =>
      let start := w_pos c in
      (_ ← writeTable root start; cat_write (le64 start)) (mkW (w_w c) (w_pos c) [])
  | _ => (Err ErrUnclosed, c)
  end.

(* ------------------------------------------------------------------ *)
(** ** The walk (archive/catalog.go) *)

Definition didx_suffix : bytes := lit ".didx".
Definition pxar_suffix : bytes := lit ".pxar".

(** [strings.HasSuffix]. *)
Definition HasSuffix (s suffix : bytes) : bool :=
  bool_decide (drop (length s - length suffix) s = suffix).

Definition CatalogEntryName (name : bytes) : bytes :=
  if decide (name = []) then lit "backup.pxar.didx"
  else if HasSuffix name didx_suffix then name
  else if HasSuffix name pxar_suffix then name ++ didx_suffix
  else name ++ pxar_suffix ++ didx_suffix.

Fixpoint catalogNode (n : node) : C unit :=
  match n_Kind n with
  | KindDirectory =>
      _ ← StartDirectory (n_Name n);
      _ ← (fix children (cs : list node) : C unit :=
             match cs with
             | [] => mret ()
             | c :: cs => _ ← catalogNode c; children cs
             end) (n_Children n);
      EndDirectory
  | KindFile | KindStream => AddFile (n_Name n) (u64 (st_Size (n_Stat n))) (st_MtimeSecs (n_Stat n))
  | KindSymlink => AddNamed TypeSymlink (n_Name n)
  | KindHardlink => AddNamed TypeHardlink (n_Name n)
  | KindBlockDevice => AddNamed TypeBlockDevice (n_Name n)
  | KindCharDevice => AddNamed TypeCharDevice (n_Name n)
  | KindFifo => AddNamed TypeFifo (n_Name n)
  | KindSocket => AddNamed TypeSocket (n_Name n)
  end.

Fixpoint catalogNodes (cs : list node) : C unit :=
  match cs with
  | [] => mret ()
  | c :: cs => _ ← catalogNode c; catalogNodes cs
  end.

Definition writeCatalog (w : countWriter) (root : node) (entryName : bytes) :
    result cat_error unit * countWriter :=
  match NewWriter w with
  | (Err e, w) => (Err e, w)
  | (Ok cw, _) =>
      let '(r, c) :=
        (_ ← StartDirectory entryName;
         _ ← catalogNodes (n_Children root);
         _ ← EndDirectory;
         Finish) cw in
      (r, w_w c)
  end.

(* ------------------------------------------------------------------ *)
(** ** The decoder (reader.go) *)

Inductive Entry := mkEntry {
  ce_Name : bytes; ce_Type : byte; ce_Size : Z; ce_MtimeSecs : Z; ce_Children : list Entry }.

Definition maxDepth : nat := 4096.

(** The entries of one table; [sub] decodes the child table at a position.
    Every entry takes a byte of the table. *)
Fixpoint decode_entries (fuel : nat) (sub : Z -> result cat_error (list Entry))
    (pos : Z) (i count : Z) (table : bytes) : result cat_error (list Entry) :=
  if count <=? i then Ok [] else
  match fuel with
  | O => Err ErrTruncated
  | S fuel =>
      match table with
      | [] => Err ErrTruncated
      | typ :: table =>
          '(nameLen, n) ← decodeU64 table;
          let table := drop n table in
          if zlen table <? nameLen then Err ErrNameOverrun else
          let name := take (Z.to_nat nameLen) table in
          let table := drop (Z.to_nat nameLen) table in
          '(e, table) ←
            (if decide (typ = TypeDirectory) then
               '(delta, n) ← decodeU64 table;
               if (delta =? 0) || (pos <? delta) then Err ErrDelta else
               children ← sub (pos - delta);
               mret (mkEntry name typ 0 0 children, drop n table)
             else if decide (typ = TypeFile) then
               '(size, n) ← decodeU64 table;
               let table := drop n table in
               '(mtime, n) ← decodeI64 table;
               mret (mkEntry name typ size mtime [], drop n table)
             else if decide (typ = TypeSymlink \/ typ = TypeHardlink \/ typ = TypeBlockDevice \/
                             typ = TypeCharDevice \/ typ = TypeFifo \/ typ = TypeSocket) then
               mret (mkEntry name typ 0 0 [], table)
             else Err (ErrType typ) : result cat_error (Entry * bytes));
          rest ← decode_entries fuel sub pos (i + 1) count table;
          mret (e :: rest)
      end
  end.

(** [decodeTable] at nesting [maxDepth + 1 - levels]. *)
Fixpoint decodeTable (levels : nat) (data : bytes) (pos : Z) : result cat_error (list Entry) :=
  match levels with
  | O => Err ErrDepth
  | S levels =>
      if zlen data <=? pos then Err ErrPos else
      '(tableLen, n) ← decodeU64 (drop (Z.to_nat pos) data);
      let table := drop n (drop (Z.to_nat pos) data) in
      if zlen table <? tableLen then Err ErrOverrun else
      let table := take (Z.to_nat tableLen) table in
      '(count, n) ← decodeU64 table;
      let table := drop n table in
      decode_entries (length table) (decodeTable levels data) pos 0 count table
  end.

Definition Decode (data : bytes) : result cat_error Entry :=
  if decide (length data < length Magic + 8)%nat then Err ErrMagic
  else if negb (bool_decide (take (length Magic) data = Magic)) then Err ErrMagic else
  let rootPos := get64 (drop (length data - 8) data) in
  if (rootPos <? 8) || (zlen data - 8 <=? rootPos) then Err ErrRootPos else
  children ← decodeTable (S maxDepth) data rootPos;
  Ok (mkEntry [] TypeDirectory 0 0 children).

(* ------------------------------------------------------------------ *)
(** ** Lemmas: varints *)

Lemma lor_shiftl v t n : 0 <= n -> 0 <= v < 2 ^ n -> 0 <= t -> Z.lor v (Z.shiftl t n) = v + t * 2 ^ n.
Proof.
  intros Hn Hv Ht. rewrite <- (Z.shiftl_mul_pow2 t n) by done.
  rewrite <- Z.add_lor_land.
  assert (Z.land v (Z.shiftl t n) = 0) as ->; [|lia].
  apply Z.bits_inj'. intros m Hm. rewrite Z.land_spec, Z.bits_0.
  destruct (Z.ltb_spec m n).
  - rewrite Z.shiftl_spec_low by lia. apply andb_false_r.
  - rewrite <- (Z.mod_small v (2 ^ n)) by lia. by rewrite Z.mod_pow2_bits_high by lia.
Qed.

Lemma land_127 v : Z.land v 127 = v mod 128.
Proof. apply (Z.land_ones v 7). lia. Qed.

Lemma lor_128 v : 0 <= v < 128 -> Z.lor 128 v = 128 + v.
Proof.
  intros Hv. rewrite Z.lor_comm. change (Z.lor v 128) with (Z.lor v (Z.shiftl 1 7)).
  rewrite lor_shiftl by lia. lia.
Qed.

Lemma Z_of_last v : 0 <= v < 128 -> Z_of_byte (byte_of_Z (Z.lor 128 v)) = 128 + v.
Proof. intros Hv. rewrite lor_128, Z_of_byte_of_Z, Z.mod_small; lia. Qed.

Lemma Z_of_group v : 0 <= v -> Z_of_byte (group v) = 128 + v mod 128.
Proof.
  intros Hv. unfold group. rewrite land_127. apply Z_of_last, Z.mod_pos_bound. lia.
Qed.

Lemma group_low v : (128 + v mod 128) mod 128 = v mod 128.
Proof. rewrite Z.add_comm. change 128 with (1 * 128) at 2. by rewrite Z.mod_add, Z.mod_mod by lia. Qed.

Lemma appendU64_loop_dst f dst v : appendU64_loop f dst v = dst ++ appendU64_loop f [] v.
Proof.
  revert dst v. induction f as [|f IH]; intros dst v; [done|]. cbn [appendU64_loop].
  case_match; [|done]. rewrite IH, (IH ([] ++ [group v])). by rewrite <- app_assoc.
Qed.
Lemma appendU64_dst dst v : appendU64 dst v = dst ++ appendU64 [] v.
Proof. apply appendU64_loop_dst. Qed.
Lemma appendU64_loop_length f v : (1 <= length (appendU64_loop f [] v))%nat.
Proof.
  destruct f as [|f]; cbn [appendU64_loop]; [cbn; lia|].
  case_match; [rewrite appendU64_loop_dst, length_app|]; cbn [app length]; lia.
Qed.
Lemma appendI64_loop_dst f dst v : appendI64_loop f dst v = dst ++ appendI64_loop f [] v.
Proof.
  revert dst v. induction f as [|f IH]; intros dst v; [done|]. cbn [appendI64_loop].
  case_match; [|done]. rewrite IH, (IH ([] ++ [group v])). by rewrite <- app_assoc.
Qed.
Lemma appendI64_dst dst v : appendI64 dst v = dst ++ appendI64 [] v.
Proof. unfold appendI64. case_match; [apply appendU64_dst|apply appendI64_loop_dst]. Qed.

(** The value accumulated after [i] groups. *)
Lemma group_acc (v w : Z) (i : nat) : 0 <= v < 2 ^ (Z.of_nat i * 7) -> 0 <= w -> v + w * 2 ^ (Z.of_nat i * 7) < 2 ^ 64 ->
  128 <= w ->
  let v' := Z.lor v (u64 (Z.shiftl (w mod 128) (Z.of_nat i * 7))) in
  0 <= v' < 2 ^ (Z.of_nat (S i) * 7) /\
  v' + Z.shiftr w 7 * 2 ^ (Z.of_nat (S i) * 7) = v + w * 2 ^ (Z.of_nat i * 7).
Proof.
  intros Hv Hw Hm Hw2 v'. pose proof (Z.mod_pos_bound w 128 ltac:(lia)) as Hr.
  pose proof (Z.div_mod w 128 ltac:(lia)) as Hd.
  assert (2 ^ (Z.of_nat (S i) * 7) = 128 * 2 ^ (Z.of_nat i * 7)) as Hp.
  { replace (Z.of_nat (S i) * 7) with (7 + Z.of_nat i * 7) by lia. by rewrite Z.pow_add_r by lia. }
  assert (0 < 2 ^ (Z.of_nat i * 7)) as Hpos by (apply Z.pow_pos_nonneg; lia).
  assert (v' = v + (w mod 128) * 2 ^ (Z.of_nat i * 7)) as ->.
  { subst v'. rewrite u64_small, lor_shiftl by (rewrite ?Z.shiftl_mul_pow2 by lia; unfold is_u64; nia). done. }
  rewrite Z.shiftr_div_pow2, Hp by lia. change (2 ^ 7) with 128. split; nia.
Qed.

Lemma decodeU64_loop_enc f : forall i v w rest, 0 <= v < 2 ^ (Z.of_nat i * 7) -> 0 <= w < 128 ^ Z.of_nat f ->
  v + w * 2 ^ (Z.of_nat i * 7) < 2 ^ 64 -> (1 <= f)%nat ->
  decodeU64_loop f i v (appendU64_loop f [] w ++ rest) =
    Ok (v + w * 2 ^ (Z.of_nat i * 7), (i + length (appendU64_loop f [] w))%nat).
Proof.
  induction f as [|f IH]; intros i v w rest Hv Hw Hm Hf; [lia|].
  assert (0 < 2 ^ (Z.of_nat i * 7)) as Hpos by (apply Z.pow_pos_nonneg; lia).
  cbn [appendU64_loop]. destruct (Z.leb_spec 128 w) as [Hge|Hlt].
  - rewrite (appendU64_loop_dst f ([] ++ [group w])). cbn [app decodeU64_loop length].
    rewrite Z_of_group by lia. pose proof (Z.mod_pos_bound w 128 ltac:(lia)) as Hr.
    rewrite (proj2 (Z.ltb_ge _ _)) by lia. rewrite land_127.
    rewrite group_low.
    destruct (group_acc v w i Hv ltac:(lia) Hm Hge) as [Hv' Heq].
    rewrite IH.
    + f_equal. f_equal; [exact Heq|lia].
    + exact Hv'.
    + rewrite Z.shiftr_div_pow2 by lia. split; [apply Z.div_pos; lia|].
      apply Z.div_lt_upper_bound; [lia|]. rewrite Nat2Z.inj_succ, Z.pow_succ_r in Hw by lia. exact (proj2 Hw).
    + by rewrite Heq.
    + destruct f; [change (128 ^ Z.of_nat 1) with 128 in Hw|]; lia.
  - cbn [app decodeU64_loop length]. rewrite Z_of_byte_of_Z, Z.mod_small by lia.
    rewrite (proj2 (Z.ltb_lt _ _)) by lia.
    rewrite u64_small, lor_shiftl by (rewrite ?Z.shiftl_mul_pow2 by lia; unfold is_u64; nia).
    f_equal. f_equal. lia.
Qed.

(** Bounds of the first group. *)
Ltac first_group H :=
  change (2 ^ (Z.of_nat 0 * 7)) with 1 in H; change (128 ^ Z.of_nat 10) with (2 ^ 70) in H;
  rewrite Z.mul_1_r, Z.add_0_l in H.

Lemma decodeU64_enc w rest : is_u64 w -> decodeU64 (appendU64 [] w ++ rest) = Ok (w, length (appendU64 [] w)).
Proof.
  intros Hw. unfold is_u64 in Hw. pose proof (decodeU64_loop_enc 10 0 0 w rest) as H. first_group H.
  apply H; lia.
Qed.

Lemma decodeI64_loop_pos f : forall i v w rest, 0 <= v < 2 ^ (Z.of_nat i * 7) -> 0 < w < 128 ^ Z.of_nat f ->
  v + w * 2 ^ (Z.of_nat i * 7) < 2 ^ 64 -> (1 <= f)%nat ->
  decodeI64_loop (S f) i v (appendU64_loop f [] w ++ rest) =
    Ok (i64 (v + w * 2 ^ (Z.of_nat i * 7)), (i + length (appendU64_loop f [] w))%nat).
Proof.
  induction f as [|f IH]; intros i v w rest Hv Hw Hm Hf; [lia|].
  assert (0 < 2 ^ (Z.of_nat i * 7)) as Hpos by (apply Z.pow_pos_nonneg; lia).
  cbn [appendU64_loop]. destruct (Z.leb_spec 128 w) as [Hge|Hlt].
  - rewrite (appendU64_loop_dst f ([] ++ [group w])).
    remember (S f) as g eqn:Eg. cbn [app decodeI64_loop length].
    rewrite Z_of_group by lia. pose proof (Z.mod_pos_bound w 128 ltac:(lia)) as Hr.
    rewrite (proj2 (Z.eqb_neq _ _)) by lia.
    rewrite (proj2 (Z.ltb_ge _ _)) by lia. rewrite land_127.
    rewrite group_low.
    destruct (group_acc v w i Hv ltac:(lia) Hm Hge) as [Hv' Heq]. subst g.
    rewrite IH.
    + f_equal. f_equal; [by rewrite Heq|lia].
    + exact Hv'.
    + rewrite Z.shiftr_div_pow2 by lia. split; [apply Z.div_str_pos; lia|].
      apply Z.div_lt_upper_bound; [lia|]. rewrite Nat2Z.inj_succ, Z.pow_succ_r in Hw by lia. exact (proj2 Hw).
    + by rewrite Heq.
    + destruct f; [change (128 ^ Z.of_nat 1) with 128 in Hw|]; lia.
  - cbn [app decodeI64_loop length]. rewrite Z_of_byte_of_Z, Z.mod_small by lia.
    rewrite (proj2 (Z.eqb_neq _ _)) by lia. rewrite (proj2 (Z.ltb_lt _ _)) by lia.
    rewrite u64_small, lor_shiftl by (rewrite ?Z.shiftl_mul_pow2 by lia; unfold is_u64; nia).
    f_equal. f_equal. lia.
Qed.

Lemma decodeI64_loop_neg f : forall i v w rest, 0 <= v < 2 ^ (Z.of_nat i * 7) -> 0 < w < 128 ^ Z.of_nat f ->
  v + w * 2 ^ (Z.of_nat i * 7) <= 2 ^ 63 -> (1 <= f)%nat ->
  decodeI64_loop (S f) i v (appendI64_loop f [] w ++ rest) =
    Ok (- (v + w * 2 ^ (Z.of_nat i * 7)), (i + length (appendI64_loop f [] w))%nat).
Proof.
  induction f as [|f IH]; intros i v w rest Hv Hw Hm Hf; [lia|].
  assert (0 < 2 ^ (Z.of_nat i * 7)) as Hpos by (apply Z.pow_pos_nonneg; lia).
  cbn [appendI64_loop]. destruct (Z.leb_spec 128 w) as [Hge|Hlt].
  - rewrite (appendI64_loop_dst f ([] ++ [group w])).
    remember (S f) as g eqn:Eg. cbn [app decodeI64_loop length].
    rewrite Z_of_group by lia. pose proof (Z.mod_pos_bound w 128 ltac:(lia)) as Hr.
    rewrite (proj2 (Z.eqb_neq _ _)) by lia.
    rewrite (proj2 (Z.ltb_ge _ _)) by lia. rewrite land_127.
    rewrite group_low.
    destruct (group_acc v w i Hv ltac:(lia) ltac:(lia) Hge) as [Hv' Heq]. subst g.
    rewrite IH.
    + f_equal. f_equal; [by rewrite Heq|lia].
    + exact Hv'.
    + rewrite Z.shiftr_div_pow2 by lia. split; [apply Z.div_str_pos; lia|].
      apply Z.div_lt_upper_bound; [lia|]. rewrite Nat2Z.inj_succ, Z.pow_succ_r in Hw by lia. exact (proj2 Hw).
    + by rewrite Heq.
    + destruct f; [change (128 ^ Z.of_nat 1) with 128 in Hw|]; lia.
  - cbn [app length]. change [byte_of_Z (Z.lor 128 w); nul] with ([byte_of_Z (Z.lor 128 w)] ++ [nul]).
    cbn [app decodeI64_loop]. rewrite Z_of_last by lia.
    rewrite (proj2 (Z.eqb_neq _ _)) by lia. rewrite (proj2 (Z.ltb_ge _ _)) by lia. rewrite land_127.
    replace ((128 + w) mod 128) with w
      by (rewrite <- (Z.mod_small w 128) at 2 by lia; rewrite group_low; symmetry; apply Z.mod_small; lia).
    rewrite u64_small, lor_shiftl by (rewrite ?Z.shiftl_mul_pow2 by lia; unfold is_u64; nia).
    cbn [Z_of_byte Byte.to_N Z.of_N]. rewrite Z.eqb_refl.
    rewrite (proj2 (Z.eqb_neq _ _)) by nia. set (d := v + w * 2 ^ (Z.of_nat i * 7)) in *.
    assert (1 <= d) as Hd by (subst d; nia).
    rewrite u64_small by (unfold is_u64; lia). rewrite (i64_small (d - 1)) by (unfold is_i64; lia).
    rewrite (i64_small (- (d - 1))) by (unfold is_i64; lia).
    rewrite i64_small by (unfold is_i64; lia). f_equal. f_equal; lia.
Qed.

Lemma decodeI64_enc w rest : is_i64 w -> decodeI64 (appendI64 [] w ++ rest) = Ok (w, length (appendI64 [] w)).
Proof.
  intros Hw. unfold is_i64 in Hw. unfold appendI64. destruct (Z.leb_spec 0 w) as [Hp|Hn].
  - rewrite u64_small by (unfold is_u64; lia). destruct (decide (w = 0)) as [->|Hne]; [done|].
    pose proof (decodeI64_loop_pos 10 0 0 w rest) as H. first_group H.
    rewrite i64_small in H by (unfold is_i64; lia). apply H; lia.
  - assert (u64 (i64 (- w)) = - w) as ->.
    { destruct (decide (w = - 2 ^ 63)) as [->|Hne]; [by vm_compute|].
      rewrite i64_small by (unfold is_i64; lia). apply u64_small. unfold is_u64. lia. }
    pose proof (decodeI64_loop_neg 10 0 0 (- w) rest) as H. first_group H.
    rewrite Z.opp_involutive in H. apply H; lia.
Qed.

(* ------------------------------------------------------------------ *)
(** ** Lemmas: tables *)

(** The entry a directory table records for a node. *)
Definition type_byte (k : Kind) : byte :=
  match k with
  | KindDirectory => TypeDirectory
  | KindFile | KindStream => TypeFile
  | KindSymlink => TypeSymlink
  | KindHardlink => TypeHardlink
  | KindBlockDevice => TypeBlockDevice
  | KindCharDevice => TypeCharDevice
  | KindFifo => TypeFifo
  | KindSocket => TypeSocket
  end.

(** What the catalog says of a tree. *)
Fixpoint catalog_of (n : node) : Entry :=
  match n_Kind n with
  | KindDirectory => mkEntry (n_Name n) TypeDirectory 0 0 (map catalog_of (n_Children n))
  | KindFile | KindStream =>
      mkEntry (n_Name n) TypeFile (u64 (st_Size (n_Stat n))) (st_MtimeSecs (n_Stat n)) []
  | k => mkEntry (n_Name n) (type_byte k) 0 0 []
  end.

(** A table decoding to [cs] starts at [pos], whatever follows it. *)
Definition table_at (h : nat) (out : bytes) (pos : Z) (cs : list Entry) : Prop :=
  0 <= pos < zlen out /\
  forall rest levels, (h <= levels)%nat -> decodeTable levels (out ++ rest) pos = Ok cs.

(** A recorded entry denotes a decoded one. *)
Inductive entry_ok (h : nat) (out : bytes) : entry -> Entry -> Prop :=
  | ok_dir name size mtime start cs : table_at h out start cs ->
      entry_ok h out (mkEnt TypeDirectory name size mtime start) (mkEntry name TypeDirectory 0 0 cs)
  | ok_file name size mtime start : is_u64 size -> is_i64 mtime ->
      entry_ok h out (mkEnt TypeFile name size mtime start) (mkEntry name TypeFile size mtime [])
  | ok_named typ name size mtime start :
      typ ∈ [TypeSymlink; TypeHardlink; TypeBlockDevice; TypeCharDevice; TypeFifo; TypeSocket] ->
      entry_ok h out (mkEnt typ name size mtime start) (mkEntry name typ 0 0 []).

Lemma table_at_mono h h' out more pos cs :
  (h <= h')%nat -> table_at h out pos cs -> table_at h' (out ++ more) pos cs.
Proof.
  intros Hh [Hp H]. split; [rewrite length_app; lia|]. intros rest levels Hl.
  rewrite <- app_assoc. apply H. lia.
Qed.

Lemma entry_ok_mono h h' out more e c :
  (h <= h')%nat -> entry_ok h out e c -> entry_ok h' (out ++ more) e c.
Proof. intros Hh []; constructor; try done. by eapply table_at_mono. Qed.

(** The bytes of one entry. *)
Definition entry_bytes (start : Z) (e : entry) : bytes := append_entry start [] e.

Lemma append_entry_dst start dst e : append_entry start dst e = dst ++ entry_bytes start e.
Proof.
  unfold entry_bytes, append_entry. cbv zeta. rewrite !app_nil_l.
  repeat case_decide; rewrite ?(appendI64_dst (appendU64 _ _)), ?(appendU64_dst (appendU64 _ _ ++ _)),
    ?(appendU64_dst (dst ++ _)), ?(appendU64_dst [en_typ e]) by done; by rewrite <- ?app_assoc.
Qed.

Lemma foldl_append_entry start dst es :
  foldl (append_entry start) dst es = dst ++ (es ≫= entry_bytes start).
Proof.
  revert dst. induction es as [|e es IH]; intros dst; cbn [foldl]; [by rewrite app_nil_r|].
  by rewrite IH, append_entry_dst, list_bind_cons, app_assoc.
Qed.

Lemma table_bytes_eq es start :
  table_bytes es start = appendU64 [] (zlen es) ++ (es ≫= entry_bytes start).
Proof. apply foldl_append_entry. Qed.

Section tables.
Context (h levels : nat) (out rest : bytes) (Hl : (h <= levels)%nat) (Hout : zlen out < 2 ^ 64).

Lemma decode_entry_ok e c fuel i count T :
  entry_ok h out e c -> zlen (en_name e) < 2 ^ 64 -> i < count ->
  decode_entries (S fuel) (decodeTable levels (out ++ rest)) (zlen out) i count (entry_bytes (zlen out) e ++ T) =
    (r ← decode_entries fuel (decodeTable levels (out ++ rest)) (zlen out) (i + 1) count T; mret (c :: r)).
Proof.
  intros He Hn Hi. cbn [decode_entries]. rewrite (proj2 (Z.leb_gt _ _)) by lia.
  unfold entry_bytes, append_entry. cbv zeta. rewrite !app_nil_l.
  destruct He as [name size mtime start cs [Hs Ht]|name size mtime start Hz Hm|typ name size mtime start Hty];
    cbn [en_typ en_name en_start en_size en_mtime] in *.
  - rewrite decide_True by done. rewrite u64_small by (unfold is_u64; lia).
    rewrite appendU64_dst, (appendU64_dst [TypeDirectory]). rewrite <- !app_assoc. cbn [app].
    rewrite decodeU64_enc by (unfold is_u64; lia). cbn [mbind result_bind].
    rewrite drop_app_length. rewrite length_app, (proj2 (Z.ltb_ge _ _)) by lia.
    rewrite take_zlen_app, drop_zlen_app by done. rewrite decide_True by done.
    rewrite decodeU64_enc by (unfold is_u64; lia). cbn [mbind result_bind].
    rewrite (proj2 (Z.eqb_neq _ _)), (proj2 (Z.ltb_ge _ _)) by lia. cbn [orb].
    replace (zlen out - (zlen out - start)) with start by lia. rewrite (Ht rest levels Hl).
    cbn [mbind result_bind mret result_ret]. by rewrite drop_app_length.
  - rewrite decide_False, decide_True by done.
    rewrite appendI64_dst, (appendU64_dst (_ ++ name)), (appendU64_dst [TypeFile]). rewrite <- !app_assoc. cbn [app].
    rewrite decodeU64_enc by (unfold is_u64; lia). cbn [mbind result_bind].
    rewrite drop_app_length. rewrite length_app, (proj2 (Z.ltb_ge _ _)) by lia.
    rewrite take_zlen_app, drop_zlen_app by done. rewrite decide_False, decide_True by done.
    rewrite decodeU64_enc by done. cbn [mbind result_bind]. rewrite drop_app_length, decodeI64_enc by done.
    cbn [mbind result_bind mret result_ret]. by rewrite drop_app_length.
  - rewrite !elem_of_cons, elem_of_nil in Hty.
    assert (typ <> TypeDirectory /\ typ <> TypeFile) as [Hd Hf]
      by (destruct_or! Hty; subst; done).
    rewrite !decide_False by done. rewrite (appendU64_dst [typ]). rewrite <- !app_assoc. cbn [app].
    rewrite decodeU64_enc by (unfold is_u64; lia). cbn [mbind result_bind].
    rewrite drop_app_length. rewrite length_app, (proj2 (Z.ltb_ge _ _)) by lia.
    rewrite take_zlen_app, drop_zlen_app by done. rewrite !decide_False by done.
    rewrite decide_True by (destruct_or! Hty; tauto).
    done.
Qed.

Lemma decode_entries_ok es cs fuel i T :
  Forall2 (entry_ok h out) es cs -> Forall (fun e => zlen (en_name e) < 2 ^ 64) es ->
  (length es <= fuel)%nat ->
  decode_entries fuel (decodeTable levels (out ++ rest)) (zlen out) i (i + zlen es)
    ((es ≫= entry_bytes (zlen out)) ++ T) = Ok cs.
Proof.
  intros Hes. revert fuel i. induction Hes as [|e c es cs He Hes IH]; intros fuel i Hn Hf.
  { destruct fuel; cbn [decode_entries length]; by rewrite (proj2 (Z.leb_le _ _)) by lia. }
  apply Forall_cons_1 in Hn as [Hn Hns]. destruct fuel as [|fuel]; cbn [length] in *; [lia|].
  rewrite list_bind_cons, <- app_assoc, (decode_entry_ok e c) by (done || lia).
  replace (i + Z.of_nat (S (length es))) with (i + 1 + zlen es) by lia.
  rewrite IH by (done || lia). done.
Qed.
End tables.

Lemma entry_bytes_length start e : (S (length (en_name e)) <= length (entry_bytes start e))%nat.
Proof.
  unfold entry_bytes, append_entry. cbv zeta. rewrite !app_nil_l, (appendU64_dst [en_typ e]).
  repeat case_decide; [rewrite appendU64_dst|rewrite appendI64_dst, (appendU64_dst (_ ++ _))|];
    rewrite !length_app; cbn [length]; lia.
Qed.

Lemma entries_length start es :
  (length es <= length (es ≫= entry_bytes start))%nat /\
  Forall (fun e => (length (en_name e) <= length (es ≫= entry_bytes start))%nat) es.
Proof.
  induction es as [|e es [IH IHn]]; [split; [cbn; lia|constructor]|].
  rewrite list_bind_cons, length_app. cbn [length]. pose proof (entry_bytes_length start e).
  split; [lia|]. constructor; [lia|]. eapply Forall_impl; [exact IHn|]. cbn. lia.
Qed.

(** A table written at the end of the output decodes to what its entries
    denote, one level deeper than its entries need. *)
Lemma table_ok h out es cs :
  let table := table_bytes es (zlen out) in
  let out' := out ++ appendU64 [] (zlen table) ++ table in
  Forall2 (entry_ok h out) es cs -> zlen out' < 2 ^ 64 -> table_at (S h) out' (zlen out) cs.
Proof.
  intros table out' Hes Ho. destruct (entries_length (zlen out) es) as [Hle Hne].
  assert (is_u64 (zlen table) /\ is_u64 (zlen es) /\ zlen out < 2 ^ 64) as (Ht & He & Hout).
  { subst out' table. rewrite table_bytes_eq in *. rewrite !length_app in *.
    unfold is_u64. lia. }
  assert (Forall (fun e => zlen (en_name e) < 2 ^ 64) es) as Hn.
  { eapply Forall_impl; [exact Hne|]. cbn. intros e Hlen. subst table. rewrite table_bytes_eq, length_app in Ht.
    unfold is_u64 in Ht. lia. }
  assert (1 <= length (appendU64 [] (zlen table)))%nat as H1.
  { apply appendU64_loop_length. }
  split; [subst out'; rewrite !length_app; lia|]. intros rest levels Hl.
  destruct levels as [|levels]; [lia|]. cbn [decodeTable].
  rewrite (proj2 (Z.leb_gt _ _)) by (subst out'; rewrite !length_app; lia).
  subst out'. rewrite <- !app_assoc. rewrite drop_zlen_app by done.
  rewrite decodeU64_enc by done. cbn [mbind result_bind]. rewrite drop_app_length.
  rewrite (proj2 (Z.ltb_ge _ _)) by (rewrite length_app; lia). rewrite take_zlen_app by done.
  subst table. rewrite table_bytes_eq in *. rewrite decodeU64_enc by done. cbn [mbind result_bind].
  rewrite drop_app_length.
  pose proof (fun rest => decode_entries_ok h levels out rest ltac:(lia) Hout es cs
    (length (es ≫= entry_bytes (zlen out))) 0 [] Hes Hn Hle) as H.
  setoid_rewrite app_nil_r in H. apply H.
Qed.

(* ------------------------------------------------------------------ *)
(** ** Lemmas: the walk *)

Lemma foldr_max_le {A} (f : A -> nat) l : Forall (fun x => (f x <= foldr (fun c h => Nat.max (f c) h) 0 l)%nat) l.
Proof.
  induction l as [|x l IH]; constructor; cbn [foldr]; [lia|].
  eapply Forall_impl; [exact IH|]. cbn. lia.
Qed.

(** The position the writer keeps is the length of its output. *)
Definition cat_inv (c : Writer) : Prop := w_pos c = zlen (cw_out (w_w c)).

Lemma cat_write_ok p c u c' :
  cat_write p c = (Ok u, c') -> cat_inv c ->
  zlen (cw_out (w_w c')) < 2 ^ 64 ->
  cw_out (w_w c') = cw_out (w_w c) ++ p /\ cat_inv c' /\ w_stack c' = w_stack c.
Proof.
  unfold cat_write, cat_inv. intros H Hc Hb. destruct (cw_write p (w_w c)) as [[[]|e] w] eqn:E; [|done].
  simplify_eq. cbn in *. apply cw_write_wrote in E as [E _]. rewrite E in *.
  rewrite length_app in *. rewrite Hc, u64_small by (unfold is_u64; lia). split_and!; [done|lia|done].
Qed.

Lemma catalogNode_dir n : n_Kind n = KindDirectory ->
  catalogNode n = (_ ← StartDirectory (n_Name n); _ ← catalogNodes (n_Children n); EndDirectory).
Proof.
  destruct n as [name ? kind ? ? ? ? ? ? cs ?]. cbn. intros ->. f_equal.
Qed.
Lemma catalog_of_dir n : n_Kind n = KindDirectory ->
  catalog_of n = mkEntry (n_Name n) TypeDirectory 0 0 (map catalog_of (n_Children n)).
Proof. destruct n. cbn. by intros ->. Qed.

Lemma cat_bind_inv {A B} (m : C A) (f : A -> C B) c b c' :
  (m ≫= f) c = (Ok b, c') -> exists a c1, m c = (Ok a, c1) /\ f a c1 = (Ok b, c').
Proof. unfold mbind, C_bind. destruct (m c) as [[a|e] c1]; [eauto|done]. Qed.

(** No operation takes back output. *)
Definition grows {A} (m : C A) : Prop := forall c r c', m c = (r, c') ->
  exists more, cw_out (w_w c') = cw_out (w_w c) ++ more.

Lemma grows_same {A} (m : C A) : (forall c, w_w (m c).2 = w_w c) -> grows m.
Proof. intros H c r c' E. exists []. rewrite app_nil_r, <- (H c), E. done. Qed.
Lemma grows_bind {A B} (m : C A) (f : A -> C B) : grows m -> (forall a, grows (f a)) -> grows (m ≫= f).
Proof.
  intros Hm Hf c r c' H. unfold mbind, C_bind in H. destruct (m c) as [[a|e] c1] eqn:E; [|simplify_eq; eauto].
  destruct (Hm _ _ _ E) as [m1 H1]. destruct (Hf a _ _ _ H) as [m2 H2].
  exists (m1 ++ m2). by rewrite H2, H1, app_assoc.
Qed.
Lemma grows_write p : grows (cat_write p).
Proof.
  intros c r c' H. unfold cat_write in H. destruct (cw_write p (w_w c)) as [r1 w1] eqn:E.
  apply cw_write_prefix in E as (q & Hq & _). exists q. repeat case_match; simplify_eq; done.
Qed.
Lemma grows_start name : grows (StartDirectory name).
Proof. apply grows_same. intros c. unfold StartDirectory. by case_match. Qed.
Lemma grows_add e : grows (add e).
Proof. apply grows_same. intros c. unfold add. by repeat case_match. Qed.
Lemma grows_end : grows EndDirectory.
Proof.
  intros c r c' H. unfold EndDirectory in H. destruct (w_stack c) as [|dir [|parent stack]]; simplify_eq;
    try (exists []; by rewrite app_nil_r).
  destruct (writeTable _ _ _) as [[a|e] c1] eqn:E; simplify_eq; by apply grows_write in E.
Qed.
#[local] Hint Resolve grows_bind grows_write grows_start grows_add grows_end : core.

Lemma grows_node n : grows (catalogNode n).
Proof.
  induction n as [n IH] using node_ind'. destruct (decide (n_Kind n = KindDirectory)) as [Hk|Hk].
  - rewrite (catalogNode_dir n Hk). apply grows_bind; [auto|]. intros _. apply grows_bind; [|auto].
    induction IH; cbn [catalogNodes]; auto. by apply grows_same.
  - destruct n as [name ? kind ? ? ? ? ? ? cs ?]. destruct kind; cbn in *; try done; apply grows_add.
Qed.
Lemma grows_nodes cs : grows (catalogNodes cs).
Proof. induction cs; cbn [catalogNodes]; [by apply grows_same|]. apply grows_bind; auto using grows_node. Qed.

(** [c'] is [c] with bytes written and the entries [es] added to the
    innermost directory. *)
Definition added (c : Writer) (es : list entry) (c' : Writer) : Prop :=
  cat_inv c' /\ (exists more, cw_out (w_w c') = cw_out (w_w c) ++ more) /\
  forall dir stack, w_stack c = dir :: stack ->
    w_stack c' = mkDir (d_name dir) (d_entries dir ++ es) :: stack.

Lemma added_nil c : cat_inv c -> added c [] c.
Proof.
  intros Hc. split; [done|]. split; [exists []; by rewrite app_nil_r|].
  intros [dn de] stack ->. cbn. by rewrite app_nil_r.
Qed.

Lemma added_trans c e c1 es c2 : added c [e] c1 -> added c1 es c2 -> added c (e :: es) c2.
Proof.
  intros (_ & [m1 H1] & Hs1) (Hi & [m2 H2] & Hs2). split; [done|]. split.
  - exists (m1 ++ m2). by rewrite H2, H1, app_assoc.
  - intros dir stack Hs. rewrite (Hs2 _ _ (Hs1 _ _ Hs)). cbn. by rewrite <- app_assoc.
Qed.

Lemma add_ok e c u c' : add e c = (Ok u, c') -> cat_inv c -> added c [e] c' /\ cw_out (w_w c') = cw_out (w_w c).
Proof.
  unfold add. intros H Hc. destruct (checkName _); [|done]. destruct (w_stack c) as [|dir [|parent stack]] eqn:Hs; try done.
  simplify_eq. split; [|done]. split; [done|]. split; [exists []; by rewrite app_nil_r|].
  cbn. intros dir0 stack0 Hs0. rewrite Hs in Hs0. by simplify_eq.
Qed.

Lemma added_stack c es c' : added c es c' -> length (w_stack c') = length (w_stack c) \/ w_stack c = [].
Proof. intros [_ [_ Hs]]. destruct (w_stack c) as [|dir stack]; [by right|left]. by rewrite (Hs _ _ eq_refl). Qed.

Lemma checked_bound {A} (m : C A) c r c' : grows m -> m c = (r, c') ->
  zlen (cw_out (w_w c')) < 2 ^ 64 -> zlen (cw_out (w_w c)) < 2 ^ 64.
Proof. intros Hm H. destruct (Hm _ _ _ H) as [more ->]. rewrite length_app. lia. Qed.

Lemma writeTable_ok h dir start c u c' cs :
  writeTable dir start c = (Ok u, c') -> cat_inv c -> start = w_pos c -> zlen (cw_out (w_w c')) < 2 ^ 64 ->
  Forall2 (entry_ok h (cw_out (w_w c))) (d_entries dir) cs ->
  (exists more, cw_out (w_w c') = cw_out (w_w c) ++ more) /\ cat_inv c' /\ w_stack c' = w_stack c /\
  table_at (S h) (cw_out (w_w c')) start cs.
Proof.
  intros H Hc -> Hb Hes. unfold writeTable in H. cbv zeta in H. rewrite Hc in *.
  destruct (cat_write_ok _ _ _ _ H Hc Hb) as (Ho & Hi & Hs). split_and!; [eauto|done|done|].
  rewrite Ho in *. by apply table_ok.
Qed.

Definition mtime_ok (n : node) : Prop := is_i64 (st_MtimeSecs (n_Stat n)).

Lemma entries_ok_mono h h' out more es cs : (h <= h')%nat ->
  Forall2 (entry_ok h out) es cs -> Forall2 (entry_ok h' (out ++ more)) es cs.
Proof. intros Hh H. eapply Forall2_impl; [exact H|]. intros. by eapply entry_ok_mono. Qed.


Definition node_cataloged (h : nat) (n : node) : Prop := forall c u c',
  catalogNode n c = (Ok u, c') -> cat_inv c -> w_stack c <> [] -> zlen (cw_out (w_w c')) < 2 ^ 64 ->
  exists e, added c [e] c' /\ entry_ok h (cw_out (w_w c')) e (catalog_of n).

Lemma catalogNodes_ok h cs c u c' :
  Forall (node_cataloged h) cs ->
  catalogNodes cs c = (Ok u, c') -> cat_inv c -> w_stack c <> [] -> zlen (cw_out (w_w c')) < 2 ^ 64 ->
  exists es, added c es c' /\ Forall2 (entry_ok h (cw_out (w_w c'))) es (map catalog_of cs).
Proof.
  intros Hcs. revert c. induction Hcs as [|n cs Hn Hcs IH]; intros c H Hc Hst Hb.
  { cbn in H. unfold mret, C_ret in H. simplify_eq. exists []. split; [by apply added_nil|constructor]. }
  cbn [catalogNodes] in H. apply cat_bind_inv in H as ([] & c1 & H1 & H).
  destruct (Hn _ _ _ H1 Hc Hst (checked_bound _ _ _ _ (grows_nodes cs) H Hb)) as (e & Ha & He).
  destruct (IH c1 H (proj1 Ha)) as (es & Has & Hes); [|done|].
  { apply added_stack in Ha as [Ha|Ha]; [|done]. intros E. rewrite E in Ha. by destruct (w_stack c). }
  exists (e :: es). split; [by eapply added_trans|]. cbn [map]. constructor; [|done].
  destruct Has as (_ & [more ->] & _). by eapply entry_ok_mono.
Qed.

(** The entry [add] records for a leaf. *)
Lemma leaf_entry n h out : n_Kind n <> KindDirectory -> mtime_ok n ->
  exists e, catalogNode n = add e /\ entry_ok h out e (catalog_of n).
Proof.
  unfold mtime_ok. intros Hk Hm.
  destruct n as [name ? kind st ? ? ? ? ? cs ?], kind; cbn in *; try done; eexists; (split; [reflexivity|]);
    constructor; try apply u64_range; try done; set_solver.
Qed.

Lemma node_cataloged_le h h' n : (h <= h')%nat -> node_cataloged h n -> node_cataloged h' n.
Proof.
  intros Hh Hn c u c' H Hc Hs Hb. destruct (Hn _ _ _ H Hc Hs Hb) as (e & Ha & He).
  exists e. split; [done|]. rewrite <- (app_nil_r (cw_out _)). by eapply entry_ok_mono.
Qed.

Lemma cataloged_dir h name cs c u c' :
  Forall (node_cataloged h) cs ->
  (_ ← StartDirectory name; _ ← catalogNodes cs; EndDirectory) c = (Ok u, c') ->
  cat_inv c -> w_stack c <> [] -> zlen (cw_out (w_w c')) < 2 ^ 64 ->
  exists e, added c [e] c' /\
    entry_ok (S h) (cw_out (w_w c')) e (mkEntry name TypeDirectory 0 0 (map catalog_of cs)).
Proof.
  intros Hns H Hc Hst Hb. apply cat_bind_inv in H as ([] & c1 & H1 & H).
  apply cat_bind_inv in H as ([] & c2 & H2 & H3).
  unfold StartDirectory in H1. destruct (checkName name); [|done]. simplify_eq.
  destruct (catalogNodes_ok h _ _ _ _ Hns H2 Hc ltac:(done) (checked_bound _ _ _ _ grows_end H3 Hb))
    as (es & (Hc2 & [m2 Ho2] & Hs2) & Hes).
  specialize (Hs2 _ _ eq_refl). cbn in Hs2, Ho2. unfold EndDirectory in H3. rewrite Hs2 in H3.
  destruct (w_stack c) as [|parent stack] eqn:Hsc; [done|].
  destruct (writeTable _ _ _) as [[[]|e] c3] eqn:E; simplify_eq.
  destruct (writeTable_ok h _ _ _ _ _ _ E Hc2 eq_refl Hb Hes) as ([m3 Ho3] & Hc3 & Hs3 & Ht). cbn in *.
  eexists. split; [|by constructor].
  split; [exact Hc3|]. split; [exists (m2 ++ m3); cbn; by rewrite Ho3, Ho2, app_assoc|].
  cbn. intros ? ? Hst'. rewrite Hsc in Hst'. by simplify_eq.
Qed.

Lemma catalogNode_ok n : tree_all mtime_ok n -> node_cataloged (height n) n.
Proof.
  induction n as [n IH] using node_ind'. intros [Hm Hms].
  destruct (decide (n_Kind n = KindDirectory)) as [Hk|Hk].
  2: { intros c u c' H Hc Hst Hb.
       destruct (leaf_entry n (height n) (cw_out (w_w c')) Hk Hm) as (e & Hn & He). rewrite Hn in H.
       destruct (add_ok _ _ _ _ H Hc) as [Ha _]. eauto. }
  intros c u c' H Hc Hst Hb. rewrite (catalogNode_dir n Hk) in H. rewrite catalog_of_dir by done.
  assert (height n = S (foldr (fun c h => Nat.max (height c) h) 0%nat (n_Children n))) as ->
    by (destruct n; cbn in *; by rewrite Hk).
  refine (cataloged_dir _ _ _ _ _ _ _ H Hc Hst Hb). apply Forall_forall. intros x Hx. rewrite Forall_forall in IH, Hms.
  pose proof (foldr_max_le height (n_Children n)) as Hle. rewrite Forall_forall in Hle.
  eapply node_cataloged_le; [exact (Hle x Hx)|]. exact (IH x Hx (Hms x Hx)).
Qed.

(** Every name the walk reaches is accepted. *)
Fixpoint names_ok (n : node) : bool :=
  is_ok (checkName (n_Name n)) &&
  match n_Kind n with KindDirectory => forallb names_ok (n_Children n) | _ => true end.

Definition c_live (c : Writer) : Prop := cw_live (w_w c).

(** On a live writer inside a directory, [m] succeeds exactly when [b] holds,
    and then leaves the writer live and as deep. *)
Definition succeeds_iff (b : bool) (m : C unit) : Prop := forall c, c_live c -> (2 <= length (w_stack c))%nat ->
  if m c is (Ok _, c') then b = true /\ c_live c' /\ length (w_stack c') = length (w_stack c) else b = false.

Lemma cat_write_live p c : c_live c -> exists c', cat_write p c = (Ok (), c') /\ c_live c' /\ w_stack c' = w_stack c.
Proof.
  intros Hc. unfold cat_write. destruct (cw_write_live p (w_w c) Hc) as (w' & -> & Hw). by eexists.
Qed.

Lemma add_succeeds e : succeeds_iff (is_ok (checkName (en_name e))) (add e).
Proof.
  intros c Hc Hs. unfold add. destruct (checkName (en_name e)) as [[]|]; [|done].
  by destruct (w_stack c) as [|d [|p s]]; cbn in *; [lia..|].
Qed.

Lemma writeTable_live dir start c : c_live c ->
  exists c', writeTable dir start c = (Ok (), c') /\ c_live c' /\ w_stack c' = w_stack c.
Proof. apply cat_write_live. Qed.

Lemma end_succeeds c : c_live c -> (2 <= length (w_stack c))%nat ->
  exists c', EndDirectory c = (Ok (), c') /\ c_live c' /\ S (length (w_stack c')) = length (w_stack c).
Proof.
  intros Hc Hs. unfold EndDirectory. destruct (w_stack c) as [|d [|p s]]; cbn in Hs; [lia..|].
  destruct (writeTable_live d (w_pos c) (mkW (w_w c) (w_pos c) (p :: s)) Hc) as (c' & -> & Hc' & Hs').
  by eexists.
Qed.

Lemma nodes_succeed cs : Forall (fun n => succeeds_iff (names_ok n) (catalogNode n)) cs ->
  succeeds_iff (forallb names_ok cs) (catalogNodes cs).
Proof.
  induction 1 as [|n cs Hn Hcs IH]; intros c Hc Hs; cbn [catalogNodes forallb]; [by split|].
  unfold mbind, C_bind. specialize (Hn c Hc Hs). destruct (catalogNode n c) as [[[]|e] c1]; [|by rewrite Hn].
  destruct Hn as (-> & Hc1 & Hs1). rewrite <- Hs1 in *. by apply IH.
Qed.

(** What a directory's walk does before its table is written. *)
Lemma dir_succeeds name cs :
  succeeds_iff (forallb names_ok cs) (catalogNodes cs) ->
  forall c, c_live c -> (1 <= length (w_stack c))%nat ->
  if (_ ← StartDirectory name; _ ← catalogNodes cs; EndDirectory) c is (Ok _, c')
  then is_ok (checkName name) && forallb names_ok cs = true /\ c_live c' /\ length (w_stack c') = length (w_stack c)
  else is_ok (checkName name) && forallb names_ok cs = false.
Proof.
  intros Hcs c Hc Hs. unfold mbind, C_bind, StartDirectory.
  destruct (checkName name) as [[]|]; [|done].
  specialize (Hcs (mkW (w_w c) (w_pos c) (mkDir name [] :: w_stack c)) Hc). cbn [length w_stack] in Hcs.
  specialize (Hcs ltac:(lia)). destruct (catalogNodes _ _) as [[[]|e] c1]; [|done].
  destruct Hcs as (H & Hc1 & Hs1). destruct (end_succeeds c1 Hc1 ltac:(lia)) as (c2 & -> & Hc2 & Hs2).
  split; [done|]. split; [done|]. lia.
Qed.

Lemma node_succeeds n : succeeds_iff (names_ok n) (catalogNode n).
Proof.
  induction n as [n IH] using node_ind'. destruct (decide (n_Kind n = KindDirectory)) as [Hk|Hk].
  - rewrite (catalogNode_dir n Hk). intros c Hc Hs.
    pose proof (dir_succeeds (n_Name n) _ (nodes_succeed _ IH) c Hc ltac:(lia)) as H.
    destruct n. cbn in *. by subst.
  - destruct n as [name ? kind st ? ? ? ? ? cs ?]. destruct kind; cbn in *; try done;
      rewrite andb_true_r; apply (add_succeeds (mkEnt _ name _ _ 0)).
Qed.

(* ------------------------------------------------------------------ *)
(** ** Properties *)

Lemma NewWriter_ok w cw w' : NewWriter w = (Ok cw, w') ->
  cw = mkW w' 8 [mkDir [] []] /\ cw_out w' = cw_out w ++ Magic.
Proof.
  unfold NewWriter. destruct (cw_write Magic w) as [[[]|e] w1] eqn:E; [|done].
  apply cw_write_wrote in E as [Ho _]. intros. simplify_eq. done.
Qed.

(** A table after the magic, found from the trailer. *)
Lemma Decode_ok X start cs : (exists more, X = Magic ++ more) -> 8 <= start -> is_u64 start ->
  table_at 4097 X start cs -> Decode (X ++ le64 start) = Ok (mkEntry [] TypeDirectory 0 0 cs).
Proof.
  intros [more ->] Hs Hu [Hp Ht]. unfold Decode. cbv zeta. change (length Magic) with 8%nat.
  assert (zlen ((Magic ++ more) ++ le64 start) = zlen (Magic ++ more) + 8) as Hl
    by (rewrite length_app, length_le64; lia).
  rewrite decide_False by lia.
  replace (take 8 ((Magic ++ more) ++ le64 start)) with Magic by (by rewrite <- app_assoc, take_len_app).
  rewrite bool_decide_eq_true_2 by done. cbn [negb]. rewrite drop_len_app by lia.
  replace (get64 (le64 start)) with start
    by (rewrite <- (app_nil_r (le64 start)); rewrite get64_le64, u64_small; done).
  rewrite (proj2 (Z.ltb_ge _ _)), (proj2 (Z.leb_gt _ _)) by lia. cbn [orb].
  rewrite Ht by (unfold maxDepth; lia). done.
Qed.

(** Both variable-length codes are inverted by their decoders, which
    consume exactly the bytes written, for every 64-bit value. *)
Theorem varint_roundtrip u i dst rest :
  is_u64 u -> is_i64 i ->
  exists bu bi, appendU64 dst u = dst ++ bu /\ appendI64 dst i = dst ++ bi /\
    decodeU64 (bu ++ rest) = Ok (u, length bu) /\ decodeI64 (bi ++ rest) = Ok (i, length bi).
Proof.
  intros Hu Hi. exists (appendU64 [] u), (appendI64 [] i). split_and!.
  - apply appendU64_dst.
  - apply appendI64_dst.
  - by apply decodeU64_enc.
  - by apply decodeI64_enc.
Qed.

(** C22: Decoding the catalog written for a tree gives back the tree's names,
    types, sizes and modification times below the archive's entry. *)
Theorem catalog_roundtrip w root entryName w' :
  cw_out w = [] -> writeCatalog w root entryName = (Ok (), w') -> zlen (cw_out w') < 2 ^ 64 ->
  Forall (tree_all mtime_ok) (n_Children root) ->
  Forall (fun c => (height c < maxDepth)%nat) (n_Children root) ->
  Decode (cw_out w') =
    Ok (mkEntry [] TypeDirectory 0 0
          [mkEntry entryName TypeDirectory 0 0 (map catalog_of (n_Children root))]).
Proof.
  intros Hw H Hb Hm Hh. unfold writeCatalog in H.
  destruct (NewWriter w) as [[cw|e] w1] eqn:Ew; [|done]. apply NewWriter_ok in Ew as [-> Ho1]. rewrite Hw in Ho1.
  assert (Forall (node_cataloged 4095) (n_Children root)) as Hns.
  { rewrite Forall_forall in *. intros c Hc. specialize (Hh c Hc). unfold maxDepth in Hh.
    eapply node_cataloged_le; [|apply catalogNode_ok; auto]. lia. }
  match type of H with (let '(_, _) := ?x in _) = _ => destruct x as [r c'] eqn:E end. simplify_eq.
  apply cat_bind_inv in E as ([] & c1 & E1 & E). apply cat_bind_inv in E as ([] & c2 & E2 & E).
  apply cat_bind_inv in E as ([] & c3 & E3 & E4).
  assert ((_ ← StartDirectory entryName; _ ← catalogNodes (n_Children root); EndDirectory)
    (mkW w1 8 [mkDir [] []]) = (Ok (), c3)) as Hd.
  { unfold mbind, C_bind. by rewrite E1, E2. }
  assert (grows Finish) as Hg.
  { intros c r c4 Hf. unfold Finish in Hf. destruct (w_stack c) as [|d [|]]; simplify_eq;
      try (exists []; by rewrite app_nil_r). eapply grows_bind in Hf; [exact Hf| |]; intros; apply grows_write. }
  destruct (cataloged_dir 4095 entryName _ _ _ _ Hns Hd) as (e & (Hi & [m1 Ho] & Hs) & He).
  { unfold cat_inv. cbn. by rewrite Ho1. }
  { done. }
  { by eapply checked_bound. }
  specialize (Hs _ _ eq_refl). cbn in Hs, Ho. unfold Finish in E4. rewrite Hs in E4.
  apply cat_bind_inv in E4 as ([] & c4 & E4 & E5).
  destruct (writeTable_ok 4096 _ _ _ _ _ [mkEntry entryName TypeDirectory 0 0 (map catalog_of (n_Children root))] E4)
    as ([m2 Ho4] & Hi4 & Hs4 & Ht); [exact Hi|done|by eapply checked_bound; [apply grows_write|..]|by repeat constructor|].
  apply cat_write_ok in E5 as (Ho5 & _ & _); [|done|done].
  rewrite Ho5. cbn in Ho4, Ht. apply Decode_ok; [| | |exact Ht].
  - exists (m1 ++ m2). by rewrite Ho4, Ho, Ho1, <- app_assoc.
  - rewrite Hi, Ho, Ho1, !length_app. cbn [length Magic]. unfold Magic. rewrite length_map. cbn [length]. lia.
  - unfold cat_inv in Hi. unfold is_u64. rewrite Hi. rewrite Ho5, length_app, Ho4, length_app in Hb. lia.
Qed.

(** On a consumer that reads on, the catalog of a tree is written exactly
    when the archive's entry name and every name in the tree are non-empty and
    free of slashes and NULs. *)
Theorem writeCatalog_succeeds w root entryName :
  cw_live w ->
  is_ok (writeCatalog w root entryName).1 =
    is_ok (checkName entryName) && forallb names_ok (n_Children root).
Proof.
  intros Hw. unfold writeCatalog, NewWriter.
  destruct (cw_write_live Magic w Hw) as (w1 & -> & Hw1).
  set (c := mkW w1 8 [mkDir [] []]).
  assert (succeeds_iff (forallb names_ok (n_Children root)) (catalogNodes (n_Children root))) as Hs
    by (apply nodes_succeed, Forall_forall; intros; apply node_succeeds).
  pose proof (dir_succeeds entryName _ Hs c Hw1 ltac:(cbn; lia)) as H.
  unfold mbind, C_bind in *. destruct (StartDirectory entryName c) as [[[]|e] c1]; [|by rewrite H].
  destruct (catalogNodes _ c1) as [[[]|e] c2]; [|by rewrite H].
  destruct (EndDirectory c2) as [[[]|e] c3]; [|by rewrite H].
  destruct H as (-> & Hc3 & Hl). unfold Finish. destruct (w_stack c3) as [|d [|]]; cbn in Hl; try lia.
  unfold mbind, C_bind. destruct (writeTable_live d (w_pos c3) (mkW (w_w c3) (w_pos c3) []) Hc3) as (c4 & -> & Hc4 & _).
  by destruct (cat_write_live (le64 (w_pos c3)) c4 Hc4) as (c5 & -> & _).
Qed.

(* ------------------------------------------------------------------ *)
(** ** Witnesses *)

Definition sample_file (name : bytes) (kind : Kind) (size mtime : Z) (children : list node) : node :=
  mkNode name name kind (mkStat 0 0 0 mtime 0 size 1 0 0 zeroDevice) [] [] None [] 0 children None.

(** A directory, a file older than the epoch, a symlink and a nested pipe. *)
Definition sample_root : node :=
  sample_file (lit "r") KindDirectory 0 0
    [sample_file (lit "d") KindDirectory 0 5 [sample_file (lit "p") KindFifo 0 1 []];
     sample_file (lit "f") KindFile 70000 (-90) [];
     sample_file (lit "l") KindSymlink 0 1 []].

Lemma varint_roundtrip_witness :
  exists bu bi, appendU64 [] (2 ^ 63 + 5) = [] ++ bu /\ appendI64 [] (- 2 ^ 63) = [] ++ bi /\
    decodeU64 (bu ++ [x61]) = Ok (2 ^ 63 + 5, length bu) /\ decodeI64 (bi ++ [x61]) = Ok (- 2 ^ 63, length bi).
Proof.
  refine (varint_roundtrip (2 ^ 63 + 5) (- 2 ^ 63) [] [x61] _ _); unfold is_u64, is_i64; lia.
Defined.

Lemma catalog_roundtrip_witness :
  Decode (cw_out (writeCatalog (cw_open 0 []) sample_root (lit "r.pxar.didx")).2) =
    Ok (mkEntry [] TypeDirectory 0 0
          [mkEntry (lit "r.pxar.didx") TypeDirectory 0 0 (map catalog_of (n_Children sample_root))]).
Proof.
  refine (catalog_roundtrip (cw_open 0 []) sample_root (lit "r.pxar.didx") _ eq_refl _ _ _ _).
  - vm_compute. reflexivity.
  - vm_compute. reflexivity.
  - cbn [n_Children sample_root sample_file]. repeat constructor; cbn; lia.
  - cbn [n_Children sample_root sample_file]. repeat constructor; cbn; unfold maxDepth; lia.
Defined.

Lemma writeCatalog_succeeds_witness :
  is_ok (writeCatalog (cw_open 0 []) sample_root (lit "a/b")).1 = false.
Proof. exact (writeCatalog_succeeds (cw_open 0 []) sample_root (lit "a/b") (conj eq_refl eq_refl)). Defined.
