(* ===== verification/Chunker.v ===== *)
(** * The content-defined chunker

    Models chunker/chunker.go and chunker/table.go: the buzhash with its
    64-byte ring window, [Scan] over arbitrary segments and [Split] over a
    reader, against a definition of chunk boundaries by content alone. *)

From S2P Require Import Prelude Io.
From Stdlib Require Import Strings.Byte.
Local Open Scope Z_scope.

Definition DefaultAvg : Z := Z.shiftl 4 20.
Definition windowSize : Z := 64.

(** The casync buzhash table. *)
Definition table : list Z :=
  [
   0x458be752; 0xc10748cc; 0xfbbcdbb8; 0x6ded5b68; 0xb10a82b5; 0x20d75648; 0xdfc5665f; 0xa8428801;
   0x7ebf5191; 0x841135c7; 0x65cc53b3; 0x280a597c; 0x16f60255; 0xc78cbc3e; 0x294415f5; 0xb938d494;
   0xec85c4e6; 0xb7d33edc; 0xe549b544; 0xfdeda5aa; 0x882bf287; 0x3116737c; 0x05569956; 0xe8cc1f68;
   0x0806ac5e; 0x22a14443; 0x15297e10; 0x50d090e7; 0x4ba60f6f; 0xefd9f1a7; 0x5c5c885c; 0x82482f93;
   0x9bfd7c64; 0x0b3e7276; 0xf2688e77; 0x8fad8abc; 0xb0509568; 0xf1ada29f; 0xa53efdfe; 0xcb2b1d00;
   0xf2a9e986; 0x6463432b; 0x95094051; 0x5a223ad2; 0x9be8401b; 0x61e579cb; 0x1a556a14; 0x5840fdc2;
   0x9261ddf6; 0xcde002bb; 0x52432bb0; 0xbf17373e; 0x7b7c222f; 0x2955ed16; 0x9f10ca59; 0xe840c4c9;
   0xccabd806; 0x14543f34; 0x1462417a; 0x0d4a1f9c; 0x087ed925; 0xd7f8f24c; 0x7338c425; 0xcf86c8f5;
   0xb19165cd; 0x9891c393; 0x325384ac; 0x0308459d; 0x86141d7e; 0xc922116a; 0xe2ffa6b6; 0x53f52aed;
   0x2cd86197; 0xf5b9f498; 0xbf319c8f; 0xe0411fae; 0x977eb18c; 0xd8770976; 0x9833466a; 0xc674df7f;
   0x8c297d45; 0x8ca48d26; 0xc49ed8e2; 0x7344f874; 0x556f79c7; 0x6b25eaed; 0xa03e2b42; 0xf68f66a4;
   0x8e8b09a2; 0xf2e0e62a; 0x0d3a9806; 0x9729e493; 0x8c72b0fc; 0x160b94f6; 0x450e4d3d; 0x7a320e85;
   0xbef8f0e1; 0x21d73653; 0x4e3d977a; 0x1e7b3929; 0x1cc6c719; 0xbe478d53; 0x8d752809; 0xe6d8c2c6;
   0x275f0892; 0xc8acc273; 0x4cc21580; 0xecc4a617; 0xf5f7be70; 0xe795248a; 0x375a2fe9; 0x425570b6;
   0x8898dcf8; 0xdc2d97c4; 0x0106114b; 0x364dc22f; 0x1e0cad1f; 0xbe63803c; 0x5f69fac2; 0x4d5afa6f;
   0x1bc0dfb5; 0xfb273589; 0x0ea47f7b; 0x3c1c2b50; 0x21b2a932; 0x6b1223fd; 0x2fe706a8; 0xf9bd6ce2;
   0xa268e64e; 0xe987f486; 0x3eacf563; 0x1ca2018c; 0x65e18228; 0x2207360a; 0x57cf1715; 0x34c37d2b;
   0x1f8f3cde; 0x93b657cf; 0x31a019fd; 0xe69eb729; 0x8bca7b9b; 0x4c9d5bed; 0x277ebeaf; 0xe0d8f8ae;
   0xd150821c; 0x31381871; 0xafc3f1b0; 0x927db328; 0xe95effac; 0x305a47bd; 0x426ba35b; 0x1233af3f;
   0x686a5b83; 0x50e072e5; 0xd9d3bb2a; 0x8befc475; 0x487f0de6; 0xc88dff89; 0xbd664d5e; 0x971b5d18;
   0x63b14847; 0xd7d3c1ce; 0x7f583cf3; 0x72cbcb09; 0xc0d0a81c; 0x7fa3429b; 0xe9158a1b; 0x225ea19a;
   0xd8ca9ea3; 0xc763b282; 0xbb0c6341; 0x020b8293; 0xd4cd299d; 0x58cfa7f8; 0x91b4ee53; 0x37e4d140;
   0x95ec764c; 0x30f76b06; 0x5ee68d24; 0x679c8661; 0xa41979c2; 0xf2b61284; 0x4fac1475; 0x0adb49f9;
   0x19727a23; 0x15a7e374; 0xc43a18d5; 0x3fb1aa73; 0x342fc615; 0x924c0793; 0xbee2d7f0; 0x8a279de9;
   0x4aa2d70c; 0xe24dd37f; 0xbe862c0b; 0x177c22c2; 0x5388e5ee; 0xcd8a7510; 0xf901b4fd; 0xdbc13dbc;
   0x6c0bae5b; 0x64efe8c7; 0x48b02079; 0x80331a49; 0xca3d8ae6; 0xf3546190; 0xfed7108b; 0xc49b941b;
   0x32baf4a9; 0xeb833a4a; 0x88a3f1a5; 0x3a91ce0a; 0x3cc27da1; 0x7112e684; 0x4a3096b1; 0x3794574c;
   0xa3c8b6f3; 0x1d213941; 0x6e0a2e00; 0x233479f1; 0x0f4cd82f; 0x6093edd2; 0x5d7d209e; 0x464fe319;
   0xd4dcac9e; 0x0db845cb; 0xfb5e4bc3; 0xe0256ce1; 0x09fb4ed1; 0x0914be1e; 0xa5bdb2c3; 0xc6eb57bb;
   0x30320350; 0x3f397e91; 0xa67791bc; 0x86bc0e2c; 0xefa0a7e2; 0xe9ff7543; 0xe733612c; 0xd185897b;
   0x329e5388; 0x91dd236b; 0x2ecb0d93; 0xf4d82a3d; 0x35b5c03f; 0xe4e606f0; 0x05b21843; 0x37b45964;
   0x5eff22f4; 0x6027f4cc; 0x77178b3c; 0xae507131; 0x7bf7cabc; 0xf9c18d66; 0x593ade65; 0xd95ddf11].
Definition table_at (b : byte) : Z := nth (Z.to_nat (Z_of_byte b)) table 0.

(** [bits.RotateLeft32(h, 1)]. *)
Definition rotl1 (h : Z) : Z := Z.lor (u32 (Z.shiftl h 1)) (Z.shiftr h 31).

Record Chunker := mkChunker {
  c_h : Z; c_winFill : Z; c_chunkSize : Z; c_min : Z; c_max : Z;
  c_breakMask : Z; c_breakMin : Z; c_window : list byte }.

Inductive chunker_error := ErrAverage (avg : Z) | ErrRead (e : ioerr).

Definition New (avg : Z) : result chunker_error Chunker :=
  let avg := if avg =? 0 then DefaultAvg else avg in
  if negb (Z.land avg (u64 (avg - 1)) =? 0) || (avg <? 4 * windowSize) then Err (ErrAverage avg) else
  let mask := u32 (u64 (u64 (avg * 2) - 1)) in
  Ok (mkChunker 0 0 0 (Z.shiftr avg 2) (u64 (Z.shiftl avg 2)) mask (u32 (mask - 2))
        (replicate (Z.to_nat windowSize) nul)).

Definition Reset (c : Chunker) : Chunker :=
  mkChunker 0 0 0 (c_min c) (c_max c) (c_breakMask c) (c_breakMin c) (c_window c).

Definition shallBreak (c : Chunker) : bool :=
  if c_max c <=? c_chunkSize c then true
  else if c_chunkSize c <? c_min c then false
  else c_breakMin c <=? Z.land (c_h c) (c_breakMask c).

(** The loop that fills the window. *)
Fixpoint fill (c : Chunker) (data : bytes) : Chunker :=
  match data with
  | [] => c
  | b :: data =>
      fill (mkChunker (Z.lxor (rotl1 (c_h c)) (table_at b)) (c_winFill c + 1) (c_chunkSize c)
              (c_min c) (c_max c) (c_breakMask c) (c_breakMin c)
              (<[Z.to_nat (c_winFill c) := b]> (c_window c))) data
  end.

(** The rolling loop from [pos]. *)
Fixpoint scan_loop (c : Chunker) (idx pos : Z) (data : bytes) : Z * Chunker :=
  match data with
  | [] => (0, c)
  | enter :: data =>
      let leave := nth (Z.to_nat idx) (c_window c) nul in
      let h := Z.lxor (Z.lxor (rotl1 (c_h c)) (table_at leave)) (table_at enter) in
      let pos := pos + 1 in
      let c := mkChunker h (c_winFill c) (u64 (c_chunkSize c + 1)) (c_min c) (c_max c)
                 (c_breakMask c) (c_breakMin c) (<[Z.to_nat idx := enter]> (c_window c)) in
      if shallBreak c then (pos, Reset c)
      else scan_loop c (Z.land (c_chunkSize c) (windowSize - 1)) pos data
  end.

Definition Scan (c : Chunker) (data : bytes) : Z * Chunker :=
  if c_winFill c <? windowSize then
    let n := Z.min (windowSize - c_winFill c) (zlen data) in
    let c := fill c (take (Z.to_nat n) data) in
    let c := mkChunker (c_h c) (c_winFill c) (u64 (c_chunkSize c + n)) (c_min c) (c_max c)
               (c_breakMask c) (c_breakMin c) (c_window c) in
    if c_winFill c <? windowSize then (0, c)
    else scan_loop c (Z.land (c_chunkSize c) (windowSize - 1)) n (drop (Z.to_nat n) data)
  else scan_loop c (Z.land (c_chunkSize c) (windowSize - 1)) 0 data.

Record Chunk := mkChunk { ck_Data : bytes; ck_Offset : Z }.

(** What one segment of [Split]'s reader yields: the chunks it completes, the
    bytes left over, the stream offset and the chunker; every round takes at
    least a byte of the segment. *)
Fixpoint split_segment (fuel : nat) (c : Chunker) (current : bytes) (offset : Z) (seg : bytes) :
    list Chunk * (Chunker * bytes * Z) :=
  match fuel, seg with
  | S fuel, _ :: _ =>
      let '(pos, c) := Scan c seg in
      if pos =? 0 then ([], (c, current ++ seg, offset)) else
      let current := current ++ take (Z.to_nat pos) seg in
      let '(ys, r) := split_segment fuel c [] (u64 (offset + zlen current)) (drop (Z.to_nat pos) seg) in
      (mkChunk current offset :: ys, r)
  | _, _ => ([], (c, current, offset))
  end.

Definition bufSize : nat := Z.to_nat (Z.shiftl 64 10).

(** [Split] for a consumer that takes every element: the chunks yielded and
    the error that ends them, if any. *)
Fixpoint split_loop (fuel : nat) (c : Chunker) (current : bytes) (offset : Z) (r : reader) :
    list Chunk * option chunker_error :=
  match fuel with
  | O => ([], None)
  | S fuel =>
      let '(seg, e, r) := Read bufSize r in
      let '(ys, (c, current, offset)) := split_segment (length seg) c current offset seg in
      match e with
      | None => let '(zs, e) := split_loop fuel c current offset r in (ys ++ zs, e)
      | Some EOF =>
          (ys ++ (if decide (current = []) then [] else [mkChunk current offset]), None)
      | Some e => (ys, Some (ErrRead e))
      end
  end.

Definition Split (r : reader) (avg : Z) : list Chunk * option chunker_error :=
  match New avg with
  | Err e => ([], Some e)
  | Ok c => split_loop (S (S (rsize r))) c [] 0 r
  end.

(* ------------------------------------------------------------------ *)
(** ** Boundaries by content *)

(** The buzhash of a window from scratch. *)
Definition roll (h : Z) (b : byte) : Z := Z.lxor (rotl1 h) (table_at b).
Definition buz (w : bytes) : Z := foldl roll 0 w.

(** The last 64 bytes of a chunk. *)
Definition lastw (p : bytes) : bytes := drop (length p - 64) p.

(** Whether a chunk may end after [p]: a function of its length and its last
    64 bytes. *)
Definition breaks (c : Chunker) (p : bytes) : bool :=
  if zlen p <=? windowSize then false
  else if c_max c <=? zlen p then true
  else if zlen p <? c_min c then false
  else c_breakMin c <=? Z.land (buz (lastw p)) (c_breakMask c).

(** How many bytes of [data], read after [p], end the chunk. *)
Fixpoint first_break (c : Chunker) (p data : bytes) : option nat :=
  match data with
  | [] => None
  | b :: data =>
      let p := p ++ [b] in
      if breaks c p then Some 1%nat else S <$> first_break c p data
  end.

(** The complete chunks of a content read after the unfinished chunk [p] at
    [offset], with the unfinished chunk left and its offset. *)
Fixpoint cut_loop (fuel : nat) (c : Chunker) (p : bytes) (offset : Z) (data : bytes) : list Chunk * (bytes * Z) :=
  match fuel, first_break c p data with
  | S fuel, Some k =>
      let d := p ++ take k data in
      let '(ys, r) := cut_loop fuel c [] (u64 (offset + zlen d)) (drop k data) in
      (mkChunk d offset :: ys, r)
  | _, _ => ([], (p ++ data, offset))
  end.
Definition cut (c : Chunker) (p : bytes) (offset : Z) (data : bytes) : list Chunk * (bytes * Z) :=
  cut_loop (length data) c p offset data.

(** All chunks of a content: its end closes the last one. *)
Definition chunks_of (c : Chunker) (content : bytes) (e : ioerr) : list Chunk * option chunker_error :=
  let '(ys, (p, offset)) := cut c [] 0 content in
  match e with
  | EOF => (ys ++ (if decide (p = []) then [] else [mkChunk p offset]), None)
  | e => (ys, Some (ErrRead e))
  end.

(* ------------------------------------------------------------------ *)
(** ** Lemmas: the hash *)

Lemma u32_bits x : is_u32 x <-> 0 <= x /\ forall i, 32 <= i -> Z.testbit x i = false.
Proof.
  unfold is_u32. split.
  - intros H. split; [lia|]. intros i Hi. rewrite <- (Z.mod_small x (2 ^ 32)) by lia.
    apply Z.mod_pow2_bits_high. lia.
  - intros [H0 Hb]. split; [done|]. destruct (Z.eq_dec x 0) as [->|Hx]; [lia|].
    destruct (Z.lt_ge_cases x (2 ^ 32)) as [|Hge]; [done|].
    exfalso. pose proof (Z.bit_log2 x ltac:(lia)) as Hl. rewrite Hb in Hl; [done|].
    apply Z.log2_le_pow2; lia.
Qed.

Lemma rotl1_bits h i : is_u32 h -> 0 <= i < 32 -> Z.testbit (rotl1 h) i = Z.testbit h ((i - 1) mod 32).
Proof.
  intros Hh Hi. unfold rotl1, u32. rewrite Z.lor_spec, Z.mod_pow2_bits_low by lia.
  rewrite Z.shiftl_spec, Z.shiftr_spec by lia. destruct (Z.eq_dec i 0) as [->|Hn].
  - rewrite Z.testbit_neg_r by lia. done.
  - rewrite (Z.mod_small (i - 1)) by lia. apply u32_bits in Hh as [_ Hh]. rewrite (Hh (i + 31)) by lia.
    apply orb_false_r.
Qed.

Lemma rotl1_u32 h : is_u32 h -> is_u32 (rotl1 h).
Proof.
  intros Hh. pose proof Hh as Hr. unfold is_u32 in Hr. apply u32_bits in Hh as [H0 Hh].
  apply u32_bits. unfold rotl1, u32. split.
  - apply Z.lor_nonneg. split; [apply Z.mod_pos_bound; lia|]. by apply Z.shiftr_nonneg.
  - intros i Hi. rewrite Z.lor_spec, Z.mod_pow2_bits_high, Z.shiftr_spec by lia. apply Hh. lia.
Qed.

Lemma u32_ext a b : is_u32 a -> is_u32 b -> (forall i, 0 <= i < 32 -> Z.testbit a i = Z.testbit b i) -> a = b.
Proof.
  rewrite !u32_bits. intros [Ha Ha'] [Hb Hb'] H. apply Z.bits_inj'. intros i Hi.
  destruct (Z.lt_ge_cases i 32); [by apply H|]. by rewrite Ha', Hb'.
Qed.

Lemma rotl1_lxor a b : is_u32 a -> is_u32 b -> rotl1 (Z.lxor a b) = Z.lxor (rotl1 a) (rotl1 b).
Proof.
  intros Ha Hb. apply u32_ext; [by apply rotl1_u32, lxor_u32|by apply lxor_u32; apply rotl1_u32|].
  intros i Hi. rewrite Z.lxor_spec, !rotl1_bits, Z.lxor_spec by (done || by apply lxor_u32). done.
Qed.

Fixpoint rotl (k : nat) (h : Z) : Z := match k with O => h | S k => rotl1 (rotl k h) end.

Lemma rotl_S k h : rotl1 (rotl k h) = rotl (S k) h.
Proof. done. Qed.
Lemma rotl_succ k h : rotl k (rotl1 h) = rotl (S k) h.
Proof. induction k as [|k IH]; [done|]. cbn [rotl] in *. by rewrite IH. Qed.

Lemma rotl_u32 k h : is_u32 h -> is_u32 (rotl k h).
Proof. intros Hh. induction k; [done|]. by apply rotl1_u32. Qed.
Lemma rotl_lxor k a b : is_u32 a -> is_u32 b -> rotl k (Z.lxor a b) = Z.lxor (rotl k a) (rotl k b).
Proof.
  intros Ha Hb. induction k as [|k IH]; [done|]. cbn [rotl]. rewrite IH. apply rotl1_lxor; by apply rotl_u32.
Qed.
Lemma rotl_bits k h i : is_u32 h -> 0 <= i < 32 -> Z.testbit (rotl k h) i = Z.testbit h ((i - Z.of_nat k) mod 32).
Proof.
  intros Hh. revert i. induction k as [|k IH]; intros i Hi.
  - cbn. rewrite Z.sub_0_r, Z.mod_small by lia. done.
  - change (rotl (S k) h) with (rotl1 (rotl k h)).
    rewrite rotl1_bits by (done || by apply rotl_u32). rewrite IH by (apply Z.mod_pos_bound; lia).
    f_equal. rewrite Zminus_mod_idemp_l. f_equal. lia.
Qed.
Lemma rotl_64 h : is_u32 h -> rotl 64 h = h.
Proof.
  intros Hh. apply u32_ext; [by apply rotl_u32|done|]. intros i Hi. rewrite rotl_bits by done. f_equal.
  change (Z.of_nat 64) with (2 * 32). rewrite <- (Z.mod_small i 32) at 2 by lia.
  replace (i - 2 * 32) with (i + (-2) * 32) by lia. apply Z.mod_add. lia.
Qed.

Lemma table_at_u32 b : is_u32 (table_at b).
Proof.
  assert (forallb (fun x => (0 <=? x) && (x <? 2 ^ 32)) table = true) as H by (by vm_compute).
  rewrite forallb_forall in H. unfold table_at, is_u32.
  destruct (nth_in_or_default (Z.to_nat (Z_of_byte b)) table 0) as [Hin| ->]; [|lia].
  apply H in Hin. lia.
Qed.
#[local] Hint Resolve rotl1_u32 rotl_u32 lxor_u32 table_at_u32 : core.

Lemma foldl_roll_u32 h w : is_u32 h -> is_u32 (foldl roll h w).
Proof. revert h. induction w as [|b w IH]; intros h Hh; cbn [foldl]; [done|]. apply IH. unfold roll. auto. Qed.
Lemma foldl_roll h w : is_u32 h -> foldl roll h w = Z.lxor (rotl (length w) h) (buz w).
Proof.
  unfold buz. revert h. induction w as [|b w IH]; intros h Hh; cbn [foldl length].
  { cbn. by rewrite Z.lxor_0_r. }
  assert (is_u32 (rotl1 0)) as H0 by done. rewrite (IH (roll h b)), (IH (roll 0 b)) by (unfold roll; auto).
  unfold roll.
  rewrite rotl_lxor by auto. change (rotl1 0) with 0. rewrite Z.lxor_0_l.
  rewrite rotl_succ. apply Z.lxor_assoc.
Qed.
Lemma buz_u32 w : is_u32 (buz w).
Proof. by apply foldl_roll_u32. Qed.
#[local] Hint Resolve buz_u32 : core.

Lemma buz_snoc w b : buz (w ++ [b]) = Z.lxor (rotl1 (buz w)) (table_at b).
Proof. unfold buz. by rewrite foldl_app. Qed.

(** Rolling a full window one byte on. *)
Lemma buz_roll l w e : length w = 63%nat ->
  buz (w ++ [e]) = Z.lxor (Z.lxor (rotl1 (buz (l :: w))) (table_at l)) (table_at e).
Proof.
  intros Hw. rewrite buz_snoc. f_equal.
  change (buz (l :: w)) with (foldl roll (Z.lxor (rotl1 0) (table_at l)) w). change (rotl1 0) with 0.
  rewrite Z.lxor_0_l, foldl_roll, Hw, rotl1_lxor by auto.
  rewrite rotl_S, rotl_64 by auto.
  rewrite (Z.lxor_comm (table_at l)), Z.lxor_assoc, Z.lxor_nilpotent, Z.lxor_0_r. done.
Qed.

(* ------------------------------------------------------------------ *)
(** ** Lemmas: the window *)

(** The ring holds the last 64 bytes of the chunk, each at its position
    modulo 64. *)
Definition win_ok (w : list byte) (p : bytes) : Prop :=
  length w = 64%nat /\
  forall k, (k < length p)%nat -> (length p <= k + 64)%nat -> w !! (k mod 64)%nat = p !! k.

Lemma win_ok_snoc w p b : win_ok w p -> win_ok (<[(length p mod 64)%nat := b]> w) (p ++ [b]).
Proof.
  intros [Hl Hw]. split; [by rewrite length_insert|]. intros k Hk Hp. rewrite length_app in *. cbn [length] in *.
  pose proof (Nat.mod_upper_bound (length p) 64 ltac:(done)).
  destruct (decide (k = length p)) as [->|Hne].
  - rewrite list_lookup_insert_eq by lia. by rewrite list_lookup_middle.
  - rewrite list_lookup_insert_ne.
    + rewrite lookup_app_l by lia. apply Hw; lia.
    + intros Heq. pose proof (Nat.div_mod_eq k 64). pose proof (Nat.div_mod_eq (length p) 64). lia.
Qed.

Lemma lastw_short p : (length p <= 64)%nat -> lastw p = p.
Proof. intros H. unfold lastw. replace (length p - 64)%nat with 0%nat by lia. apply drop_0. Qed.

Lemma lastw_roll p : (64 <= length p)%nat -> exists l w, lastw p = l :: w /\ length w = 63%nat /\
  p !! (length p - 64)%nat = Some l /\ forall e, lastw (p ++ [e]) = w ++ [e].
Proof.
  intros Hp. unfold lastw. destruct (p !! (length p - 64)%nat) as [l|] eqn:E.
  2: { apply lookup_ge_None in E. lia. }
  exists l, (drop (S (length p - 64)) p). split_and!; [by apply drop_S|rewrite length_drop; lia|done|].
  intros e. rewrite length_app. cbn [length].
  replace (length p + 1 - 64)%nat with (S (length p - 64)) by lia. by rewrite drop_app_le by lia.
Qed.

Lemma land_63 z : Z.land z (windowSize - 1) = z mod 64.
Proof. apply (Z.land_ones z 6). lia. Qed.

Lemma leaving w p l : win_ok w p -> (64 <= length p)%nat -> p !! (length p - 64)%nat = Some l ->
  nth (length p mod 64) w nul = l.
Proof.
  intros [Hl Hw] Hp Hq. apply nth_lookup_Some with (d := nul). rewrite <- Hq, <- Hw by lia. f_equal.
  replace (length p) with (length p - 64 + 1 * 64)%nat at 1 by lia. apply Nat.Div0.mod_add.
Qed.

(** The constants of a chunker. *)
Definition same_params (c c' : Chunker) : Prop :=
  c_min c' = c_min c /\ c_max c' = c_max c /\ c_breakMask c' = c_breakMask c /\ c_breakMin c' = c_breakMin c.

#[local] Instance same_params_equiv : Equivalence same_params.
Proof.
  split; [done|..]; unfold same_params; repeat intro; intuition congruence.
Qed.

Lemma breaks_params c c' p : same_params c c' -> breaks c' p = breaks c p.
Proof. intros (E1 & E2 & E3 & E4). unfold breaks. by rewrite E1, E2, E3, E4. Qed.
Lemma first_break_params c c' p data : same_params c c' -> first_break c' p data = first_break c p data.
Proof.
  intros H. revert p. induction data as [|b data IH]; intros p; cbn [first_break]; [done|].
  by rewrite (breaks_params c c'), IH.
Qed.
Lemma cut_loop_params fuel c c' p offset data : same_params c c' -> cut_loop fuel c' p offset data = cut_loop fuel c p offset data.
Proof.
  intros H. revert p offset data. induction fuel as [|f IH]; intros; cbn [cut_loop]; [done|].
  rewrite (first_break_params c c') by done. case_match; [|done]. by rewrite IH.
Qed.

(** The chunker after the bytes [p] of an unfinished chunk. *)
Record chunk_state (c : Chunker) (p : bytes) : Prop := {
  cs_h : c_h c = buz (lastw p);
  cs_fill : c_winFill c = Z.min 64 (zlen p);
  cs_size : c_chunkSize c = zlen p;
  cs_win : win_ok (c_window c) p;
  cs_max : is_u64 (c_max c);
  cs_len : zlen p <= Z.max 64 (c_max c - 1) }.

Lemma chunk_state_reset c p : chunk_state c p -> chunk_state (Reset c) [] /\ same_params c (Reset c).
Proof.
  intros []. split; [|done]. constructor; cbn; try done; [|lia]. split; [by destruct cs_win0|]. cbn. lia.
Qed.

(** What scanning [data] after [p] gives. *)
Definition scanned (c : Chunker) (p data : bytes) (pos : Z) (res : Z * Chunker) : Prop :=
  same_params c res.2 /\
  match first_break c p data with
  | Some k => res.1 = pos + Z.of_nat k /\ chunk_state res.2 []
  | None => res.1 = 0 /\ chunk_state res.2 (p ++ data)
  end.

Lemma shallBreak_breaks c p : c_h c = buz (lastw p) -> c_chunkSize c = zlen p -> 64 < zlen p ->
  shallBreak c = breaks c p.
Proof.
  intros Hh Hs Hp. unfold shallBreak, breaks, windowSize. rewrite Hs, Hh.
  by rewrite (proj2 (Z.leb_gt (zlen p) 64)) by lia.
Qed.

Lemma scan_loop_ok c p idx pos data :
  chunk_state c p -> 64 <= zlen p -> idx = zlen p mod 64 -> scanned c p data pos (scan_loop c idx pos data).
Proof.
  revert c p idx pos. induction data as [|b data IH]; intros c p idx pos Hc Hp ->.
  { split; cbn; [done|]. by rewrite app_nil_r. }
  cbn [scan_loop]. destruct (lastw_roll p ltac:(lia)) as (l & w & Hl & Hw & Hlk & Hr).
  change (zlen p mod 64) with (zlen p mod Z.of_nat 64). rewrite <- Nat2Z.inj_mod, Nat2Z.id. rewrite (leaving _ p l) by (apply Hc || done || lia).
  match goal with |- context [shallBreak ?x] => set (c1 := x) end.
  assert (zlen (p ++ [b]) = zlen p + 1) as Hl1 by (rewrite length_app; cbn [length]; lia).
  pose proof (cs_len _ _ Hc) as Hlen. pose proof (cs_max _ _ Hc) as Hmax. unfold is_u64 in Hmax.
  assert (c_h c1 = buz (lastw (p ++ [b]))) as Hh1.
  { unfold c1. cbn [c_h]. rewrite (cs_h _ _ Hc), Hr, Hl, <- buz_roll by done. done. }
  assert (c_chunkSize c1 = zlen (p ++ [b])) as Hs1.
  { unfold c1. cbn [c_chunkSize]. rewrite (cs_size _ _ Hc), Hl1. apply u64_small. unfold is_u64. lia. }
  assert (win_ok (c_window c1) (p ++ [b])) as Hw1 by (by apply win_ok_snoc, Hc).
  unfold scanned. cbn [first_break].
  rewrite (shallBreak_breaks c1 (p ++ [b])), (breaks_params c c1) by (done || lia).
  destruct (breaks c (p ++ [b])) eqn:Hb.
  { split; [done|]. split; [done|]. constructor; cbn; try done; [|lia]. split; [apply Hw1|cbn; lia]. }
  assert (chunk_state c1 (p ++ [b])) as Hc1.
  { constructor; try done.
    - unfold c1. cbn [c_winFill]. rewrite (cs_fill _ _ Hc), Hl1. lia.
    - unfold breaks, windowSize in Hb. rewrite (proj2 (Z.leb_gt _ 64)) in Hb by lia.
      destruct (Z.leb_spec (c_max c) (zlen (p ++ [b]))); [done|]. cbn [c_max c1]. lia. }
  rewrite land_63. cbn [c_chunkSize c1] in Hs1 |- *. rewrite Hs1.
  destruct (IH c1 (p ++ [b]) (zlen (p ++ [b]) mod 64) (pos + 1) Hc1 ltac:(lia) eq_refl) as [Hsp Hres].
  split; [exact Hsp|]. rewrite (first_break_params c c1) in Hres by done.
  destruct (first_break c (p ++ [b]) data) as [k|]; cbn [fmap option_fmap option_map].
  - destruct Hres as [-> Hres]. split; [lia|done].
  - by rewrite <- app_assoc in Hres.
Qed.

(* ------------------------------------------------------------------ *)
(** ** Lemmas: scanning a segment *)

Lemma first_break_app c p d1 d2 : first_break c p (d1 ++ d2) =
  match first_break c p d1 with
  | Some k => Some k
  | None => Nat.add (length d1) <$> first_break c (p ++ d1) d2
  end.
Proof.
  revert p. induction d1 as [|b d1 IH]; intros p.
  { cbn. rewrite app_nil_r. by destruct (first_break c p d2). }
  cbn [app first_break length]. case_match; [done|]. rewrite IH, <- app_assoc. cbn [app].
  destruct (first_break c (p ++ [b]) d1); [done|]. by destruct (first_break c (p ++ b :: d1) d2).
Qed.

Lemma first_break_bound c p data k : first_break c p data = Some k -> (1 <= k <= length data)%nat.
Proof.
  revert p k. induction data as [|b data IH]; intros p k; cbn [first_break]; [done|].
  case_match; [intros; simplify_eq; cbn; lia|].
  destruct (first_break c (p ++ [b]) data) as [j|] eqn:E; cbn; [|done]. intros. simplify_eq. apply IH in E. lia.
Qed.

Lemma first_break_breaks c p data k : first_break c p data = Some k ->
  breaks c (p ++ take k data) = true /\ forall j, (1 <= j < k)%nat -> breaks c (p ++ take j data) = false.
Proof.
  revert p k. induction data as [|b data IH]; intros p k; cbn [first_break]; [done|].
  destruct (breaks c (p ++ [b])) eqn:Hb; [intros; simplify_eq; split; [done|lia]|].
  destruct (first_break c (p ++ [b]) data) as [j|] eqn:E; cbn [fmap option_fmap option_map]; [|done].
  intros. simplify_eq. destruct (IH _ _ E) as [H1 H2]. rewrite <- app_assoc in H1. split; [done|].
  intros [|i] Hi; [lia|]. cbn [take]. destruct i as [|i]; [done|].
  specialize (H2 (S i) ltac:(lia)). by rewrite <- app_assoc in H2.
Qed.

Lemma first_break_none c p data j : first_break c p data = None -> (1 <= j <= length data)%nat ->
  breaks c (p ++ take j data) = false.
Proof.
  revert p j. induction data as [|b data IH]; intros p j; cbn [first_break length]; [lia|].
  destruct (breaks c (p ++ [b])) eqn:Hb; [done|].
  destruct (first_break c (p ++ [b]) data) as [i|] eqn:E; cbn [fmap option_fmap option_map]; [done|].
  intros _ Hj. destruct j as [|[|j]]; [lia|done|]. specialize (IH _ (S j) E ltac:(lia)).
  by rewrite <- app_assoc in IH.
Qed.

(** No boundary while the window fills. *)
Lemma first_break_short c p data : (length (p ++ data) <= 64)%nat -> first_break c p data = None.
Proof.
  revert p. induction data as [|b data IH]; intros p Hl; cbn [first_break]; [done|].
  rewrite length_app in Hl. cbn [length] in Hl.
  unfold breaks. rewrite (proj2 (Z.leb_le (zlen (p ++ [b])) windowSize))
    by (unfold windowSize; rewrite length_app; cbn [length]; lia).
  rewrite IH; [done|]. rewrite !length_app. cbn [length]. lia.
Qed.

(** The chunker while its window fills; the chunk's size lags behind. *)
Record filling (c : Chunker) (p : bytes) : Prop := {
  fl_h : c_h c = buz p; fl_fill : c_winFill c = zlen p; fl_win : win_ok (c_window c) p }.

Lemma fill_ok c p data : filling c p -> (length (p ++ data) <= 64)%nat ->
  filling (fill c data) (p ++ data) /\ c_chunkSize (fill c data) = c_chunkSize c /\ same_params c (fill c data).
Proof.
  revert c p. induction data as [|b data IH]; intros c p Hf Hl; cbn [fill]; [by rewrite app_nil_r|].
  rewrite length_app in Hl. cbn [length] in Hl.
  match goal with |- context [fill ?x data] => set (c1 := x) end.
  destruct (IH c1 (p ++ [b])) as (H1 & H2 & H3).
  - destruct Hf as [Hh Hw Hwin]. constructor.
    + unfold c1. cbn [c_h]. by rewrite buz_snoc, Hh.
    + unfold c1. cbn [c_winFill]. rewrite Hw, length_app. cbn [length]. lia.
    + unfold c1. cbn [c_window]. rewrite Hw, Nat2Z.id. rewrite <- (Nat.mod_small (length p) 64) by lia.
      by apply win_ok_snoc.
  - rewrite !length_app. cbn [length]. lia.
  - rewrite <- app_assoc in H1. split; [exact H1|]. split; [by rewrite H2|]. by transitivity c1.
Qed.

Lemma Scan_ok c p data : chunk_state c p -> scanned c p data 0 (Scan c data).
Proof.
  intros Hc. unfold Scan. pose proof (cs_fill _ _ Hc) as Hf. pose proof (cs_len _ _ Hc) as Hlen.
  destruct (Z.ltb_spec (c_winFill c) windowSize) as [Hlt|Hge]; unfold windowSize in *.
  2: { rewrite land_63. apply scan_loop_ok; [done|lia|by rewrite (cs_size _ _ Hc)]. }
  assert (filling c p) as Hfl.
  { constructor; [|lia|apply Hc]. rewrite (cs_h _ _ Hc). by rewrite lastw_short by lia. }
  set (n := Z.min (64 - c_winFill c) (zlen data)).
  assert (Z.of_nat (Z.to_nat n) = n) as Hn by lia.
  set (d := take (Z.to_nat n) data). assert (zlen d = n) as Hd by (subst d; rewrite length_take; lia).
  destruct (fill_ok c p d Hfl) as (Hfl' & Hsz & Hsp); [rewrite length_app; lia|].
  pose proof (cs_max _ _ Hc) as Hmax. unfold is_u64 in Hmax.
  match goal with |- context [if c_winFill ?x <? 64 then _ else _] => set (c1 := x) end.
  assert (zlen (p ++ d) = zlen p + n) as Hpd by (rewrite length_app; lia).
  assert (chunk_state c1 (p ++ d)) as Hc1.
  { destruct Hfl' as [Hh Hw Hwin]. unfold c1. constructor; cbn [c_h c_winFill c_chunkSize c_window c_max].
    - rewrite lastw_short by lia. done.
    - rewrite Hw. lia.
    - rewrite Hsz, (cs_size _ _ Hc), Hpd. apply u64_small. unfold is_u64. lia.
    - done.
    - destruct Hsp as (_ & -> & _). done.
    - lia. }
  assert (same_params c c1) as Hsp1 by (by transitivity (fill c d)).
  change (c_winFill (fill c d)) with (c_winFill c1). rewrite (cs_fill _ _ Hc1), Hpd.
  destruct (Z.ltb_spec (Z.min 64 (zlen p + n)) 64).
  - assert (d = data) as Hdd by (apply take_ge; lia). split; [done|].
    rewrite first_break_short by (rewrite <- Hdd, length_app; lia). rewrite <- Hdd. done.
  - rewrite land_63.
    destruct (scan_loop_ok c1 (p ++ d) (c_chunkSize c1 mod 64) n (drop (Z.to_nat n) data) Hc1) as [Hs Hr];
      [lia|by rewrite (cs_size _ _ Hc1)|].
    split; [by transitivity c1|].
    assert (first_break c p data = Nat.add (length d) <$> first_break c (p ++ d) (drop (Z.to_nat n) data)) as ->.
    { pose proof (first_break_app c p d (drop (Z.to_nat n) data)) as Ha.
      rewrite (first_break_short c p d) in Ha by (rewrite length_app; lia). unfold d in Ha at 1. by rewrite take_drop in Ha. }
    rewrite (first_break_params c c1) in Hr by done.
    destruct (first_break c (p ++ d) (drop (Z.to_nat n) data)) as [k|]; cbn [fmap option_fmap option_map].
    + destruct Hr as [-> Hr]. split; [lia|done].
    + rewrite <- app_assoc in Hr. unfold d in Hr. by rewrite take_drop in Hr.
Qed.

(* ------------------------------------------------------------------ *)
(** ** Lemmas: splitting *)

Lemma cut_loop_fuel f1 f2 c p offset data : (length data <= f1)%nat -> (length data <= f2)%nat ->
  cut_loop f1 c p offset data = cut_loop f2 c p offset data.
Proof.
  revert f2 p offset data. induction f1 as [|f1 IH]; intros [|f2] p offset data H1 H2; cbn [cut_loop]; try done;
    try (destruct data; [|cbn in *; lia]; done).
  destruct (first_break c p data) as [k|] eqn:E; [|done]. apply first_break_bound in E.
  rewrite (IH f2); [done|rewrite length_drop; lia..].
Qed.

Lemma cut_eq c p offset data : cut c p offset data =
  match first_break c p data with
  | Some k =>
      let d := p ++ take k data in
      let '(ys, r) := cut c [] (u64 (offset + zlen d)) (drop k data) in
      (mkChunk d offset :: ys, r)
  | None => ([], (p ++ data, offset))
  end.
Proof.
  unfold cut. destruct (length data) as [|n] eqn:Hn.
  { by destruct data. }
  cbn [cut_loop]. destruct (first_break c p data) as [k|] eqn:E; [|done]. apply first_break_bound in E.
  rewrite (cut_loop_fuel n (length (drop k data))); [done|rewrite length_drop; lia|lia].
Qed.

Lemma cut_app c p offset d1 d2 : cut c p offset (d1 ++ d2) =
  let '(ys, (p', o')) := cut c p offset d1 in
  let '(zs, r) := cut c p' o' d2 in (ys ++ zs, r).
Proof.
  remember (length d1) as n eqn:Hn. revert p offset d1 Hn.
  induction n as [n IH] using lt_wf_ind. intros p offset d1 ->.
  rewrite (cut_eq c p offset (d1 ++ d2)), (cut_eq c p offset d1), first_break_app.
  destruct (first_break c p d1) as [k|] eqn:E.
  - apply first_break_bound in E. cbv zeta. rewrite take_app_le, drop_app_le by lia.
    rewrite (IH (length (drop k d1))) by (rewrite ?length_drop; lia).
    destruct (cut c [] _ (drop k d1)) as [ys [p' o']]. by destruct (cut c p' o' d2).
  - rewrite (cut_eq c (p ++ d1)). destruct (first_break c (p ++ d1) d2) as [k|]; cbn [fmap option_fmap option_map].
    + cbv zeta. rewrite take_app_add, drop_app_add, app_assoc.
      by destruct (cut c [] _ (drop k d2)).
    + by rewrite app_assoc.
Qed.

Lemma split_segment_ok fuel c p offset seg :
  chunk_state c p -> (length seg <= fuel)%nat ->
  exists c' p' o', split_segment fuel c p offset seg = ((cut c p offset seg).1, (c', p', o')) /\
    (cut c p offset seg).2 = (p', o') /\ chunk_state c' p' /\ same_params c c'.
Proof.
  revert c p offset seg. induction fuel as [|fuel IH]; intros c p offset seg Hc Hl.
  { destruct seg; [|cbn in Hl; lia]. exists c, p, offset. cbn. by rewrite app_nil_r. }
  rewrite cut_eq. destruct seg as [|b seg].
  { exists c, p, offset. cbn. by rewrite app_nil_r. }
  cbn [split_segment]. destruct (Scan_ok c p (b :: seg) Hc) as [Hsp Hres].
  destruct (Scan c (b :: seg)) as [pos c1]. cbn [fst snd] in *.
  destruct (first_break c p (b :: seg)) as [k|] eqn:E.
  - destruct Hres as [-> Hc1]. apply first_break_bound in E. rewrite Z.add_0_l, Nat2Z.id.
    rewrite (proj2 (Z.eqb_neq _ _)) by lia. cbv zeta.
    destruct (IH c1 [] (u64 (offset + zlen (p ++ take k (b :: seg)))) (drop k (b :: seg)) Hc1)
      as (c2 & p2 & o2 & E2 & E3 & Hc2 & Hsp2); [rewrite length_drop; lia|].
    rewrite E2. unfold cut in *. rewrite (cut_loop_params _ c c1) in * by done.
    destruct (cut_loop _ c [] _ _) as [ys r]. exists c2, p2, o2. cbn in *.
    split_and!; [done|done|done|by transitivity c1].
  - destruct Hres as [-> Hc1]. cbn [Z.eqb]. by exists c1, (p ++ b :: seg), offset.
Qed.

Lemma split_loop_ok fuel c p offset r :
  chunk_state c p -> (rsize r < fuel)%nat ->
  split_loop fuel c p offset r =
    let '(ys, (p', o')) := cut c p offset (contents r).1 in
    match (contents r).2 with
    | EOF => (ys ++ (if decide (p' = []) then [] else [mkChunk p' o']), None)
    | e => (ys, Some (ErrRead e))
    end.
Proof.
  revert c p offset r. induction fuel as [|fuel IH]; intros c p offset r Hc Hf; [lia|].
  cbn [split_loop]. destruct (Read bufSize r) as [[seg e] r'] eqn:HR.
  pose proof (Read_contents _ _ _ _ _ HR) as [Hct He].
  destruct (split_segment_ok (length seg) c p offset seg Hc ltac:(done)) as (c1 & p1 & o1 & -> & Hcut & Hc1 & Hsp).
  rewrite Hct. cbn [fst snd]. rewrite cut_app. destruct (cut c p offset seg) as [ys r1]. cbn in Hcut. subst r1.
  cbn [fst]. destruct e as [e|].
  - destruct (He e eq_refl) as [-> <-].
    assert (cut c p1 o1 [] = ([], (p1, o1))) as -> by (rewrite cut_eq; cbn; by rewrite app_nil_r).
    rewrite app_nil_r. by destruct (contents r').2.
  - assert (rsize r' < rsize r)%nat as Hlt by (eapply Read_rsize; [|exact HR]; apply Nat.ltb_lt; by vm_compute).
    rewrite (IH c1 p1 o1 r' Hc1) by lia. unfold cut. rewrite (cut_loop_params _ c c1) by done.
    destruct (cut_loop _ c p1 o1 _) as [zs [p2 o2]]. destruct (contents r').2; [by rewrite app_assoc|done..].
Qed.

Lemma New_state avg c : New avg = Ok c -> chunk_state c [].
Proof.
  unfold New. intros H. match type of H with (if ?b then _ else _) = _ => destruct b; [done|] end.
  simplify_eq. constructor; try done; cbn [c_max].
  - split; [done|]. intros k Hk. cbn in Hk. lia.
  - apply u64_range.
  - pose proof (u64_range (Z.shiftl (if avg =? 0 then DefaultAvg else avg) 2)) as Hr. unfold is_u64 in Hr. cbn [length]. lia.
Qed.

(** The average an argument of [New] asks for. *)
Definition average (avg : Z) : Z := if avg =? 0 then DefaultAvg else avg.

Lemma New_params avg c : New avg = Ok c -> is_u64 avg -> average avg < 2 ^ 62 ->
  c_min c = average avg / 4 /\ 64 <= c_min c /\ c_max c = 4 * average avg.
Proof.
  unfold New, is_u64. cbv zeta. fold (average avg). intros H Ha Hb.
  assert (0 <= average avg) as Ha0 by (unfold average; destruct (avg =? 0); [by vm_compute|lia]).
  destruct (negb _); cbn [orb] in H; [done|].
  destruct (Z.ltb_spec (average avg) (4 * windowSize)) as [|Hge]; [done|]. unfold windowSize in Hge.
  simplify_eq. cbn [c_min c_max].
  rewrite Z.shiftr_div_pow2, Z.shiftl_mul_pow2 by lia. change (2 ^ 2) with 4.
  rewrite u64_small by (unfold is_u64; lia). split; [done|]. split; [|lia].
  apply Z.div_le_lower_bound; lia.
Qed.

(** A chunk no longer than a boundary allows. *)
Lemma first_break_sizes c p data k : first_break c p data = Some k ->
  zlen p <= Z.max 64 (c_max c - 1) -> 64 <= c_min c < c_max c ->
  c_min c <= zlen (p ++ take k data) <= c_max c.
Proof.
  intros H Hp Hc. pose proof (first_break_bound _ _ _ _ H) as Hk.
  destruct (first_break_breaks _ _ _ _ H) as [Hb Hn]. split.
  - unfold breaks, windowSize in Hb. destruct (Z.leb_spec (zlen (p ++ take k data)) 64); [done|].
    destruct (Z.leb_spec (c_max c) (zlen (p ++ take k data))); [lia|].
    by destruct (Z.ltb_spec (zlen (p ++ take k data)) (c_min c)).
  - rewrite length_app, length_take. destruct (decide (k = 1%nat)) as [->|Hk1]; [lia|].
    specialize (Hn (k - 1)%nat ltac:(lia)). unfold breaks, windowSize in Hn.
    rewrite length_app, length_take in Hn.
    destruct (Z.leb_spec (Z.of_nat (length p + (k - 1) `min` length data)) 64); [lia|].
    destruct (Z.leb_spec (c_max c) (Z.of_nat (length p + (k - 1) `min` length data))); [done|]. lia.
Qed.

Lemma first_break_none_size c p data : first_break c p data = None ->
  zlen p <= Z.max 64 (c_max c - 1) -> 64 <= c_min c < c_max c -> zlen (p ++ data) < c_max c.
Proof.
  intros H Hp Hc. destruct data as [|b data]; [rewrite app_nil_r; lia|].
  pose proof (first_break_none _ _ _ (length (b :: data)) H) as Hn. rewrite firstn_all in Hn.
  specialize (Hn ltac:(cbn; lia)). unfold breaks, windowSize in Hn.
  destruct (Z.leb_spec (zlen (p ++ b :: data)) 64); [lia|].
  destruct (Z.leb_spec (c_max c) (zlen (p ++ b :: data))); [done|]. lia.
Qed.

(** Chunks that follow each other from [offset] to [stop]. *)
Inductive consecutive : Z -> list Chunk -> Z -> Prop :=
  | cons_nil offset : consecutive offset [] offset
  | cons_cons d offset ys stop : consecutive (u64 (offset + zlen d)) ys stop ->
      consecutive offset (mkChunk d offset :: ys) stop.

Lemma cut_ok c p offset data : zlen p <= Z.max 64 (c_max c - 1) -> 64 <= c_min c < c_max c ->
  let '(ys, (p', o')) := cut c p offset data in
  concat (map ck_Data ys) ++ p' = p ++ data /\ consecutive offset ys o' /\
  Forall (fun k => c_min c <= zlen (ck_Data k) <= c_max c) ys /\ zlen p' < c_max c.
Proof.
  intros Hp Hc. remember (length data) as n eqn:Hn. revert p offset data Hp Hn.
  induction n as [n IH] using lt_wf_ind. intros p offset data Hp ->. rewrite cut_eq.
  destruct (first_break c p data) as [k|] eqn:E.
  2: { split_and!; [done|constructor|constructor|by apply first_break_none_size]. }
  cbv zeta. pose proof (first_break_bound _ _ _ _ E) as Hk.
  pose proof (first_break_sizes _ _ _ _ E Hp Hc) as Hs.
  specialize (IH (length (drop k data)) ltac:(rewrite length_drop; lia) []
    (u64 (offset + zlen (p ++ take k data))) (drop k data) ltac:(cbn; lia) eq_refl).
  destruct (cut c [] _ (drop k data)) as [ys [p' o']]. destruct IH as (H1 & H2 & H3 & H4).
  split_and!; [|by constructor|by constructor|done].
  cbn [map concat ck_Data]. rewrite <- app_assoc, H1. cbn [app]. by rewrite <- app_assoc, take_drop.
Qed.

(* ------------------------------------------------------------------ *)
(** ** Properties *)

(** C18: Scanning in segments finds exactly the boundaries the content defines:
    a chunk ends at the first point whose length since the last boundary and
    whose last 64 bytes, hashed from scratch, allow it. *)
Theorem Scan_content_defined c p seg :
  chunk_state c p ->
  let '(pos, c') := Scan c seg in
  same_params c c' /\
  match first_break c p seg with
  | Some k => pos = Z.of_nat k /\ chunk_state c' []
  | None => pos = 0 /\ chunk_state c' (p ++ seg)
  end.
Proof. intros Hc. destruct (Scan_ok c p seg Hc) as [Hs Hr]. destruct (Scan c seg). done. Qed.

(** What Split yields depends on the content alone, not on how the reader
    segments it: the content-defined chunks, then the reader's error. *)
Lemma Split_chunks r avg c :
  New avg = Ok c -> Split r avg = chunks_of c (contents r).1 (contents r).2.
Proof.
  intros H. unfold Split, chunks_of. rewrite H. rewrite (split_loop_ok _ c [] 0 r (New_state _ _ H)) by lia.
  by destruct (cut c [] 0 _) as [ys [p o]], (contents r).2.
Qed.

(** C40: The chunks of a stream concatenate to it, follow each other from
    offset 0, and hold between a quarter and four times the average; only the
    last may be shorter, and none is empty. *)
Theorem Split_sizes r avg ys :
  is_u64 avg -> average avg < 2 ^ 62 -> Split r avg = (ys, None) ->
  concat (map ck_Data ys) = (contents r).1 /\
  (exists stop, consecutive 0 ys stop) /\
  Forall (fun k => 1 <= zlen (ck_Data k) <= 4 * average avg) ys /\
  forall k ks, ys = ks ++ [k] -> Forall (fun k => average avg / 4 <= zlen (ck_Data k)) ks.
Proof.
  intros Ha Hb H. destruct (New avg) as [c|e] eqn:Hn; [|unfold Split in H; rewrite Hn in H; by simplify_eq].
  rewrite (Split_chunks r avg c Hn) in H. unfold chunks_of in H.
  destruct (New_params avg c Hn Ha Hb) as (Hmin & H64 & Hmax).
  assert (64 <= c_min c < c_max c) as Hc.
  { rewrite Hmin, Hmax in *. pose proof (Z.mul_div_le (average avg) 4 ltac:(lia)). lia. }
  pose proof (cut_ok c [] 0 (contents r).1 ltac:(cbn [length]; lia) Hc) as Hcut.
  destruct (cut c [] 0 _) as [zs [p o]]. destruct Hcut as (H1 & H2 & H3 & H4).
  destruct (contents r).2; simplify_eq.
  assert (Forall (fun k => 1 <= zlen (ck_Data k) <= 4 * average avg) zs) as H5
    by (eapply Forall_impl; [exact H3|]; cbn; lia).
  destruct (decide (p = [])) as [->|Hp].
  - rewrite !app_nil_r in *. split_and!; [done|eauto|done|]. intros k ks ->.
    apply Forall_app in H3 as [H3 _]. eapply Forall_impl; [exact H3|]. cbn. lia.
  - split_and!.
    + rewrite map_app, concat_app. cbn. by rewrite app_nil_r.
    + exists (u64 (o + zlen p)). clear -H2. induction H2; [repeat constructor|by constructor].
    + apply Forall_app. split; [done|]. constructor; [|constructor]. cbn [ck_Data].
      destruct p; [done|]. cbn [length] in *. lia.
    + intros k ks E. apply app_inj_tail in E as [<- _]. eapply Forall_impl; [exact H3|]. cbn. lia.
Qed.

(** An average of 2^62 is accepted, but its maximum wraps to zero: every
    chunk ends right after the window. *)
Lemma New_overflow : exists c, New (2 ^ 62) = Ok c /\ c_max c = 0 /\
  forall p, breaks c p = (64 <? zlen p).
Proof.
  eexists. split; [by vm_compute|]. split; [done|]. intros p. unfold breaks. cbn [c_max windowSize].
  unfold windowSize. destruct (Z.leb_spec (zlen p) 64), (Z.ltb_spec 64 (zlen p)); try lia.
  by rewrite (proj2 (Z.leb_le 0 (zlen p))) by lia.
Qed.

(* ------------------------------------------------------------------ *)
(** ** Witnesses *)

Definition sample_content : bytes := map (fun i => byte_of_Z (Z.of_nat i * Z.of_nat i / 7)) (seq 0 2000).

(** A reader that delivers [sample_content] in odd segments. *)
Definition sample_source : reader :=
  [(take 70 sample_content, None); ([], None); (drop 70 sample_content, Some EOF)].

Definition sample_chunker : Chunker :=
  Eval vm_compute in match New 256 with Ok c => c | Err _ => mkChunker 0 0 0 0 0 0 0 [] end.

Lemma Scan_content_defined_witness :
  let '(pos, c') := Scan sample_chunker sample_content in
  same_params sample_chunker c' /\
  match first_break sample_chunker [] sample_content with
  | Some k => pos = Z.of_nat k /\ chunk_state c' []
  | None => pos = 0 /\ chunk_state c' ([] ++ sample_content)
  end.
Proof. exact (Scan_content_defined sample_chunker [] sample_content (New_state 256 _ eq_refl)). Defined.

Lemma Split_sizes_witness :
  exists ys, Split sample_source 256 = (ys, None) /\ concat (map ck_Data ys) = sample_content /\ (2 < length ys)%nat.
Proof.
  eexists. split; [vm_compute; reflexivity|]. split; [|vm_compute; lia].
  refine (proj1 (Split_sizes sample_source 256 _ _ _ _)); [unfold is_u64; lia|unfold average; cbn; lia|].
  vm_compute. reflexivity.
Defined.
