(* ===== verification/Glob.v ===== *)
(** * Globs and exclude patterns

    Models scan/glob.go and scan/pattern.go: compiled globs over path
    components, matching by runes with bracket classes, and the pattern lists
    evaluated last match first.  An index panic is [None]. *)

From S2P Require Import Prelude.
From Stdlib Require Import Strings.Byte.
Local Open Scope Z_scope.

(* ------------------------------------------------------------------ *)
(** ** Runes ([unicode/utf8]) *)

Definition RuneError : Z := 0xfffd.

(** Width of a sequence and range of its second byte, by its first byte. *)
Definition utf8_first (b : Z) : option (nat * Z * Z) :=
  if b <? 0xc2 then None
  else if b <? 0xe0 then Some (2%nat, 0x80, 0xbf)
  else if b =? 0xe0 then Some (3%nat, 0xa0, 0xbf)
  else if b <? 0xed then Some (3%nat, 0x80, 0xbf)
  else if b =? 0xed then Some (3%nat, 0x80, 0x9f)
  else if b <? 0xf0 then Some (3%nat, 0x80, 0xbf)
  else if b =? 0xf0 then Some (4%nat, 0x90, 0xbf)
  else if b <? 0xf4 then Some (4%nat, 0x80, 0xbf)
  else if b =? 0xf4 then Some (4%nat, 0x80, 0x8f)
  else None.

Definition in_range (lo hi z : Z) : bool := (lo <=? z) && (z <=? hi).
Definition cont_bits (b : byte) : Z := Z.land (Z_of_byte b) 0x3f.

(** [utf8.DecodeRuneInString]. *)
Definition DecodeRuneInString (s : bytes) : Z * nat :=
  match s with
  | [] => (RuneError, 0%nat)
  | b0 :: s =>
      let z0 := Z_of_byte b0 in
      if z0 <? 0x80 then (z0, 1%nat) else
      match utf8_first z0 with
      | None => (RuneError, 1%nat)
      | Some (sz, lo, hi) =>
          match s with
          | b1 :: s =>
              if negb (in_range lo hi (Z_of_byte b1)) then (RuneError, 1%nat) else
              if decide (sz = 2%nat) then
                (Z.lor (Z.shiftl (Z.land z0 0x1f) 6) (cont_bits b1), 2%nat) else
              match s with
              | b2 :: s =>
                  if negb (in_range 0x80 0xbf (Z_of_byte b2)) then (RuneError, 1%nat) else
                  if decide (sz = 3%nat) then
                    (Z.lor (Z.lor (Z.shiftl (Z.land z0 0x0f) 12) (Z.shiftl (cont_bits b1) 6)) (cont_bits b2), 3%nat)
                  else
                  match s with
                  | b3 :: _ =>
                      if negb (in_range 0x80 0xbf (Z_of_byte b3)) then (RuneError, 1%nat) else
                      (Z.lor (Z.lor (Z.lor (Z.shiftl (Z.land z0 0x07) 18) (Z.shiftl (cont_bits b1) 12))
                         (Z.shiftl (cont_bits b2) 6)) (cont_bits b3), 4%nat)
                  | [] => (RuneError, 1%nat)
                  end
              | [] => (RuneError, 1%nat)
              end
          | [] => (RuneError, 1%nat)
          end
      end
  end.

(* ------------------------------------------------------------------ *)
(** ** Compilation (glob.go) *)

Definition star : byte := x2a.
Definition quest : byte := x3f.
Definition lbrack : byte := x5b.
Definition rbrack : byte := x5d.
Definition caret : byte := x5e.
Definition dash : byte := x2d.
Definition bang : byte := x21.

Inductive glob_error := errUnterminatedClass | errTrailingEscape.

(** The loop from [j] to the [']'] of a class: the bytes passed and the rest
    from the bracket on; [None] past the end. *)
Fixpoint class_end (p : bytes) : option (bytes * bytes) :=
  match p with
  | [] => None
  | b :: p' =>
      if decide (b = rbrack) then Some ([], p) else
      if decide (b = backslash) then
        match p' with
        | [] => None
        | c :: p' => '(x, rest) ← class_end p'; Some (b :: c :: x, rest)
        end
      else '(x, rest) ← class_end p'; Some (b :: x, rest)
  end.

(** The optional ['^'] and literal [']'] that may open a class. *)
Definition class_open (p : bytes) : bytes * bytes :=
  let '(x, p) := match p with b :: p' => if decide (b = caret) then ([b], p') else ([], p) | [] => ([], []) end in
  match p with b :: p' => if decide (b = rbrack) then (x ++ [b], p') else (x, p) | [] => (x, []) end.

(** The loop of [compileGlob] over the rest [p] of the pattern, [cur] being
    [pat[start:i]]. *)
Fixpoint compile_loop (fuel : nat) (comps : list bytes) (cur p : bytes) : result glob_error (list bytes) :=
  match fuel, p with
  | S fuel, b :: p =>
      if decide (b = slash) then compile_loop fuel (comps ++ [cur]) [] p else
      if decide (b = backslash) then
        match p with
        | [] => Err errTrailingEscape
        | c :: p => compile_loop fuel comps (cur ++ [b; c]) p
        end
      else if decide (b = lbrack) then
        let '(x, p) := class_open p in
        match class_end p with
        | Some (y, rb :: p) => compile_loop fuel comps (cur ++ [b] ++ x ++ y ++ [rb]) p
        | _ => Err errUnterminatedClass
        end
      else compile_loop fuel comps (cur ++ [b]) p
  | _, _ => Ok (comps ++ [cur])
  end.

(** The components of the pattern: a [*glob]. *)
Definition compileGlob (pat : bytes) : result glob_error (list bytes) :=
  compile_loop (length pat) [] [] pat.

(* ------------------------------------------------------------------ *)
(** ** Matching (glob.go) *)

Definition classRune (p : bytes) : option (Z * nat) :=
  match p with
  | [] => None
  | b :: p' =>
      if decide (b = backslash /\ p' <> []) then let '(r, n) := DecodeRuneInString p' in Some (r, S n)
      else Some (DecodeRuneInString p)
  end.

(** The loop of [matchClass]; every round takes a byte. *)
Fixpoint class_loop (fuel : nat) (p : bytes) (r : Z) (matched first : bool) : option (bytes * bool) :=
  match p with
  | b :: p' => if decide (b = rbrack /\ first = false) then Some (p', matched) else
      match fuel with
      | O => None
      | S fuel =>
          '(lo, n) ← classRune p;
          let p := drop n p in
          '(hi, p) ← match p with
                     | d :: e :: _ =>
                         if decide (d = dash /\ e <> rbrack)
                         then '(hi, n) ← classRune (drop 1 p); Some (hi, drop (1 + n) p)
                         else Some (lo, p)
                     | _ => Some (lo, p)
                     end;
          class_loop fuel p r (matched || in_range lo hi r) false
      end
  | [] => None
  end.

Definition matchClass (p : bytes) (r : Z) : option (bytes * bool) :=
  let '(negate, p) := match p with
                      | b :: p' => if decide (b = caret) then (true, p') else (false, p)
                      | [] => (false, p)
                      end in
  '(rest, matched) ← class_loop (length p) p r false true;
  Some (rest, xorb matched negate).

(** [for len(p) > 0 && p[0] == '*']. *)
Fixpoint strip_stars (p : bytes) : bytes :=
  match p with b :: p' => if decide (b = star) then strip_stars p' else p | [] => [] end.

(** [for i := 0; i <= len(s); i++] over the suffixes of [s]. *)
Fixpoint any_suffix {A} (m : list A -> option bool) (s : list A) : option bool :=
  match m s with
  | Some false => match s with [] => Some false | _ :: s => any_suffix m s end
  | r => r
  end.

Definition HasPrefix (s prefix : bytes) : bool := bool_decide (take (length prefix) s = prefix).

(** [matchComponent]; every round takes a byte of the pattern. *)
Fixpoint match_component (fuel : nat) (p s : bytes) : option bool :=
  match fuel, p with
  | S fuel, b :: p' =>
      if decide (b = star) then
        let p := strip_stars p' in
        match p with [] => Some true | _ => any_suffix (match_component fuel p) s end
      else if decide (b = quest) then
        match s with
        | [] => Some false
        | _ => match_component fuel p' (drop (DecodeRuneInString s).2 s)
        end
      else if decide (b = lbrack) then
        match s with
        | [] => Some false
        | _ =>
            let '(r, n) := DecodeRuneInString s in
            '(rest, ok) ← matchClass p' r;
            if ok : bool then match_component fuel rest (drop n s) else Some false
        end
      else
        let p := if decide (b = backslash) then p' else p in
        let n := (DecodeRuneInString p).2 in
        if HasPrefix s (take n p) then match_component fuel (drop n p) (drop n s) else Some false
  | _, _ => Some (match s with [] => true | _ => false end)
  end.
Definition matchComponent (p s : bytes) : option bool := match_component (length p) p s.

Definition doublestar : bytes := [star; star].

Fixpoint strip_doublestars (pat : list bytes) : list bytes :=
  match pat with c :: pat' => if decide (c = doublestar) then strip_doublestars pat' else pat | [] => [] end.

Fixpoint match_comps (fuel : nat) (pat path : list bytes) : option bool :=
  match fuel, pat with
  | S fuel, c :: pat' =>
      if decide (c = doublestar) then
        let pat := strip_doublestars pat' in
        match pat with
        | [] => Some (match path with [] => false | _ => true end)
        | _ => any_suffix (match_comps fuel pat) path
        end
      else
        match path with
        | [] => Some false
        | x :: path =>
            ok ← matchComponent c x;
            if ok : bool then match_comps fuel pat' path else Some false
        end
  | _, _ => Some (match path with [] => true | _ => false end)
  end.
Definition matchComps (pat path : list bytes) : option bool := match_comps (length pat) pat path.

(* ------------------------------------------------------------------ *)
(** ** Patterns (pattern.go) *)

Inductive MatchType := MatchExclude | MatchInclude.

Record Pattern := mkPattern {
  pt_Text : bytes; pt_Anchored : bool; pt_DirOnly : bool; pt_Include : bool;
  pt_g : option (list bytes) }.

Inductive pattern_error := errEmptyPattern | errNulNewline | errGlob (e : glob_error).
Inductive PatternError := mkPatternError (pattern : bytes) (e : pattern_error).

(** [strings.ContainsAny]. *)
Definition ContainsAny (s chars : bytes) : bool := existsb (fun b => bool_decide (b ∈ chars)) s.
Definition metachars : bytes := [star; quest; lbrack; backslash].

(** A one-byte prefix or suffix. *)
Definition cutPrefix (b : byte) (s : bytes) : bool * bytes :=
  match s with c :: s' => if decide (c = b) then (true, s') else (false, s) | [] => (false, []) end.
Definition cutSuffix (b : byte) (s : bytes) : bool * bytes :=
  match last s with
  | Some c => if decide (c = b) then (true, take (length s - 1) s) else (false, s)
  | None => (false, s)
  end.

Definition ParsePattern (s : bytes) : result PatternError Pattern :=
  let '(include, body) := cutPrefix bang s in
  let '(anchored, body) := cutPrefix slash body in
  let '(dirOnly, body) := cutSuffix slash body in
  if decide (body = []) then Err (mkPatternError s errEmptyPattern) else
  if ContainsAny body [nul; newline] then Err (mkPatternError s errNulNewline) else
  if ContainsAny body metachars then
    match compileGlob body with
    | Err e => Err (mkPatternError s (errGlob e))
    | Ok g => Ok (mkPattern body anchored dirOnly include (Some g))
    end
  else Ok (mkPattern body anchored dirOnly include None).

Fixpoint ParsePatterns (ss : list bytes) : result PatternError (list Pattern) :=
  match ss with
  | [] => Ok []
  | s :: ss => p ← ParsePattern s; l ← ParsePatterns ss; mret (p :: l)
  end.

Definition Pattern_String (p : Pattern) : bytes :=
  (if pt_Include p then [bang] else []) ++ (if pt_Anchored p then [slash] else []) ++
  pt_Text p ++ (if pt_DirOnly p then [slash] else []).

Definition PatternList_String (l : list Pattern) : bytes :=
  foldl (fun b p => b ++ Pattern_String p ++ [newline]) [] l.

(** [strings.Split(s, "/")]. *)
Fixpoint split_loop (cur s : bytes) : list bytes :=
  match s with
  | [] => [cur]
  | b :: s => if decide (b = slash) then cur :: split_loop [] s else split_loop (cur ++ [b]) s
  end.
Definition Split (s : bytes) : list bytes := split_loop [] s.

(** [for i := range comps]: the non-empty suffixes. *)
Fixpoint any_tail (m : list bytes -> option bool) (comps : list bytes) : option bool :=
  match comps with
  | [] => Some false
  | _ :: comps' =>
      match m comps with
      | Some false => any_tail m comps'
      | r => r
      end
  end.

Definition HasSuffix (s suffix : bytes) : bool :=
  bool_decide ((length suffix <= length s)%nat /\ drop (length s - length suffix) s = suffix).

Definition Pattern_Match (p : Pattern) (archivePath : bytes) (isDir : bool) : option bool :=
  if pt_DirOnly p && negb isDir then Some false else
  if decide (archivePath = []) then Some false else
  match pt_g p with
  | None =>
      if pt_Anchored p then Some (bool_decide (archivePath = pt_Text p))
      else Some (bool_decide (archivePath = pt_Text p) || HasSuffix archivePath ([slash] ++ pt_Text p))
  | Some g =>
      let comps := Split archivePath in
      if pt_Anchored p then matchComps g comps
      else any_tail (matchComps g) comps
  end.

(** The loop of [PatternList.Match] from the last pattern down. *)
Fixpoint match_rev (l : list Pattern) (archivePath : bytes) (isDir : bool) : option (MatchType * bool) :=
  match l with
  | [] => Some (MatchExclude, false)
  | p :: l =>
      hit ← Pattern_Match p archivePath isDir;
      if hit : bool then Some (if pt_Include p then MatchInclude else MatchExclude, true)
      else match_rev l archivePath isDir
  end.
Definition PatternList_Match (l : list Pattern) : bytes -> bool -> option (MatchType * bool) :=
  match_rev (rev l).

(* ------------------------------------------------------------------ *)
(** ** What a pattern denotes *)

(** [s] starts with the rune [r], [rest] following it. *)
Definition rune_at (s : bytes) (r : Z) (rest : bytes) : Prop :=
  s <> [] /\ exists n, DecodeRuneInString s = (r, n) /\ rest = drop n s.

(** A member of a class, escaped or plain. *)
Inductive member : bytes -> Z -> bytes -> Prop :=
  | mb_escaped s r rest : rune_at s r rest -> member (backslash :: s) r rest
  | mb_plain b s r rest : b <> backslash \/ s = [] -> rune_at (b :: s) r rest -> member (b :: s) r rest.

(** A class body up to its closing bracket: ranges of runes. *)
Definition range_follows (p : bytes) : Prop := exists e p', p = dash :: e :: p' /\ e <> rbrack.
Inductive class_body : bool -> bytes -> list (Z * Z) -> bytes -> Prop :=
  | cb_end rest : class_body false (rbrack :: rest) [] rest
  | cb_range first p lo p1 hi p2 ms rest :
      first = true \/ head p <> Some rbrack -> member p lo p1 -> range_follows p1 ->
      member (drop 1 p1) hi p2 -> class_body false p2 ms rest -> class_body first p ((lo, hi) :: ms) rest
  | cb_one first p lo p1 ms rest :
      first = true \/ head p <> Some rbrack -> member p lo p1 -> ~ range_follows p1 ->
      class_body false p1 ms rest -> class_body first p ((lo, lo) :: ms) rest.

Inductive tok := TStar | TAny | TClass (negate : bool) (ms : list (Z * Z)) | TLit (b : bytes).

(** The tokens of a component. *)
Inductive parses : bytes -> list tok -> Prop :=
  | ps_nil : parses [] []
  | ps_star p ts : parses p ts -> parses (star :: p) (TStar :: ts)
  | ps_any p ts : parses p ts -> parses (quest :: p) (TAny :: ts)
  | ps_class p ms rest ts : head p <> Some caret -> class_body true p ms rest -> parses rest ts ->
      parses (lbrack :: p) (TClass false ms :: ts)
  | ps_nclass p ms rest ts : class_body true p ms rest -> parses rest ts ->
      parses (lbrack :: caret :: p) (TClass true ms :: ts)
  | ps_escaped p n ts : p <> [] -> n = (DecodeRuneInString p).2 -> parses (drop n p) ts ->
      parses (backslash :: p) (TLit (take n p) :: ts)
  | ps_plain b p n ts : b <> star -> b <> quest -> b <> lbrack -> b <> backslash ->
      n = (DecodeRuneInString (b :: p)).2 -> parses (drop n (b :: p)) ts ->
      parses (b :: p) (TLit (take n (b :: p)) :: ts).

Definition in_class (ms : list (Z * Z)) (r : Z) : bool := existsb (fun m => in_range m.1 m.2 r) ms.

(** The strings a token list stands for. *)
Fixpoint den (ts : list tok) (s : bytes) : Prop :=
  match ts with
  | [] => s = []
  | TStar :: ts => exists s1 s2, s = s1 ++ s2 /\ den ts s2
  | TAny :: ts => exists r s2, rune_at s r s2 /\ den ts s2
  | TClass negate ms :: ts => exists r s2, rune_at s r s2 /\ xorb (in_class ms r) negate = true /\ den ts s2
  | TLit b :: ts => exists s2, s = b ++ s2 /\ den ts s2
  end.

(** The paths a component list stands for. *)
Inductive path_matches : list bytes -> list bytes -> Prop :=
  | pm_nil : path_matches [] []
  | pm_comp c ts x pat path : c <> doublestar -> parses c ts -> den ts x -> path_matches pat path ->
      path_matches (c :: pat) (x :: path)
  | pm_gap pat pre path : ~ Forall (eq doublestar) pat -> path_matches pat path ->
      path_matches (doublestar :: pat) (pre ++ path)
  | pm_tail pat path : Forall (eq doublestar) pat -> path <> [] -> path_matches (doublestar :: pat) path.

(* ------------------------------------------------------------------ *)
(** ** Lemmas: runes *)

Definition wide (b : byte) : Prop := 128 <= Z_of_byte b.

Lemma in_range_spec lo hi z : in_range lo hi z = true <-> lo <= z <= hi.
Proof. unfold in_range. lia. Qed.

Lemma utf8_first_range b sz lo hi : utf8_first b = Some (sz, lo, hi) -> 128 <= lo /\ (2 <= sz)%nat.
Proof.
  unfold utf8_first. intros. repeat (case_match; [simplify_eq; try done; lia|]). done.
Qed.

(** A rune takes at least a byte, and only its first byte can be ASCII. *)
Lemma decode_rune b s : let n := (DecodeRuneInString (b :: s)).2 in
  (1 <= n <= S (length s))%nat /\ Forall wide (take (n - 1) s) /\ (~ wide b -> n = 1%nat).
Proof.
  cbv zeta. cbn [DecodeRuneInString]. unfold wide.
  destruct (Z.ltb_spec (Z_of_byte b) 128); cbn [snd].
  { split_and!; [lia|lia|constructor|done]. }
  destruct (utf8_first (Z_of_byte b)) as [[[sz lo] hi]|] eqn:Hu; cbn [snd].
  2: { split_and!; [lia|lia|constructor|done]. }
  apply utf8_first_range in Hu as [Hlo _].
  destruct s as [|b1 s]; cbn [snd length]; [split_and!; [lia|lia|constructor|done]|].
  destruct (in_range lo hi (Z_of_byte b1)) eqn:H1; cbn [negb snd].
  2: { split_and!; [lia|lia|constructor|done]. }
  apply in_range_spec in H1. destruct (decide (sz = 2%nat)); cbn [snd].
  { split_and!; [lia|lia|repeat constructor; lia|lia]. }
  destruct s as [|b2 s]; cbn [snd length]; [split_and!; [lia|lia|constructor|lia]|].
  destruct (in_range 128 191 (Z_of_byte b2)) eqn:H2; cbn [negb snd].
  2: { split_and!; [lia|lia|constructor|lia]. }
  apply in_range_spec in H2. destruct (decide (sz = 3%nat)); cbn [snd].
  { split_and!; [lia|lia|repeat constructor; lia|lia]. }
  destruct s as [|b3 s]; cbn [snd length]; [split_and!; [lia|lia|constructor|lia]|].
  destruct (in_range 128 191 (Z_of_byte b3)) eqn:H3; cbn [negb snd].
  2: { split_and!; [lia|lia|constructor|lia]. }
  apply in_range_spec in H3. split_and!; [lia|lia|repeat constructor; lia|lia].
Qed.

Lemma rune_at_intro b s : exists r rest, rune_at (b :: s) r rest /\ (length rest <= length s)%nat /\
  rest = drop (DecodeRuneInString (b :: s)).2 (b :: s).
Proof.
  pose proof (decode_rune b s) as (Hn & _ & _).
  destruct (DecodeRuneInString (b :: s)) as [r n] eqn:E. cbn [snd] in *.
  exists r, (drop n (b :: s)). split_and!; [split; [done|]; eauto|rewrite length_drop; cbn [length]; lia|done].
Qed.

Lemma rune_at_length s r rest : rune_at s r rest -> (length rest < length s)%nat.
Proof.
  intros [Hs (n & E & ->)]. destruct s as [|b s]; [done|]. pose proof (decode_rune b s) as (Hn & _ & _).
  rewrite E in Hn. cbn [snd] in Hn. rewrite length_drop. cbn [length]. lia.
Qed.

Lemma rune_at_fun s r rest r' rest' : rune_at s r rest -> rune_at s r' rest' -> r = r' /\ rest = rest'.
Proof. intros [_ (n & E & ->)] [_ (n' & E' & ->)]. rewrite E in E'. by simplify_eq. Qed.

(* ------------------------------------------------------------------ *)
(** ** Lemmas: classes *)

Lemma classRune_member p lo p1 : member p lo p1 -> exists n, classRune p = Some (lo, n) /\ p1 = drop n p.
Proof.
  intros [s r rest [Hs (n & E & ->)]|b s r rest Hb [Hs (n & E & ->)]]; unfold classRune.
  - rewrite decide_True by done. rewrite E. by exists (S n).
  - rewrite decide_False by naive_solver. rewrite E. by exists n.
Qed.

Lemma member_length p lo p1 : member p lo p1 -> (length p1 < length p)%nat.
Proof. intros [s r rest H|b s r rest _ H]; apply rune_at_length in H; cbn [length] in *; lia. Qed.

Lemma class_loop_ok first p ms rest r : class_body first p ms rest ->
  forall fuel m, (length p <= fuel)%nat ->
  class_loop fuel p r m first = Some (rest, m || in_class ms r).
Proof.
  induction 1 as [rest|first p lo p1 hi p2 ms rest Hf Hm Hr Hm2 Hb IH|first p lo p1 ms rest Hf Hm Hr Hb IH];
    intros fuel m Hl.
  - cbn [class_loop in_class existsb]. rewrite orb_false_r. destruct fuel; cbn [class_loop]; by rewrite decide_True.
  - pose proof (member_length _ _ _ Hm) as H1. pose proof (member_length _ _ _ Hm2) as H2.
    rewrite length_drop in H2. destruct p as [|b p]; [cbn in H1; lia|]. destruct fuel as [|fuel]; [cbn in Hl; lia|].
    cbn [class_loop]. rewrite decide_False by (cbn in Hf; naive_solver).
    destruct (classRune_member _ _ _ Hm) as (n & -> & ->). cbn [mbind option_bind].
    destruct Hr as (e & q & Hq & He). rewrite Hq in *. rewrite decide_True by done.
    destruct (classRune_member _ _ _ Hm2) as (n2 & -> & ->). cbn [mbind option_bind].
    rewrite drop_drop in IH. rewrite IH by (cbn [length] in *; rewrite <- drop_drop; cbn [drop length] in *; lia).
    cbn [in_class existsb fst snd]. by rewrite orb_assoc.
  - pose proof (member_length _ _ _ Hm) as H1. destruct p as [|b p]; [cbn in H1; lia|].
    destruct fuel as [|fuel]; [cbn in Hl; lia|].
    cbn [class_loop]. rewrite decide_False by (cbn in Hf; naive_solver).
    destruct (classRune_member _ _ _ Hm) as (n & -> & ->). cbn [mbind option_bind].
    assert (match drop n (b :: p) with
      | d :: e :: _ => if decide (d = dash /\ e <> rbrack)
          then '(hi, n0) ← classRune (drop 1 (drop n (b :: p))); Some (hi, drop (1 + n0) (drop n (b :: p)))
          else Some (lo, drop n (b :: p))
      | _ => Some (lo, drop n (b :: p)) end = Some (lo, drop n (b :: p))) as ->.
    { destruct (drop n (b :: p)) as [|d [|e q]]; [done..|]. rewrite decide_False; [done|].
      intros [-> He]. apply Hr. unfold range_follows. eauto. }
    cbn [mbind option_bind]. rewrite IH by (cbn [length] in *; lia).
    cbn [in_class existsb fst snd]. by rewrite orb_assoc.
Qed.

(* ------------------------------------------------------------------ *)
(** ** Lemmas: components *)

(** A matcher that answers, exactly when [P] holds. *)
Definition answers (m : option bool) (P : Prop) : Prop := exists b, m = Some b /\ (b = true <-> P).

Lemma answers_true (P : Prop) : P -> answers (Some true) P.
Proof. by exists true. Qed.
Lemma answers_false (P : Prop) : ~ P -> answers (Some false) P.
Proof. by exists false. Qed.
Lemma answers_iff m P Q : (P <-> Q) -> answers m P -> answers m Q.
Proof. intros H (b & -> & Hb). exists b. split; [done|]. by rewrite Hb. Qed.

Lemma any_suffix_ok {A} (m : list A -> option bool) (P : list A -> Prop) s :
  (forall s, answers (m s) (P s)) -> answers (any_suffix m s) (exists s1 s2, s = s1 ++ s2 /\ P s2).
Proof.
  intros Hm. induction s as [|x s IH]; cbn [any_suffix].
  - destruct (Hm []) as ([] & -> & Hb).
    + apply answers_true. exists [], []. split; [done|]. by apply Hb.
    + apply answers_false. intros (s1 & s2 & Hs & Hp). symmetry in Hs. apply app_nil in Hs as [-> ->].
      by apply Hb in Hp.
  - destruct (Hm (x :: s)) as ([] & -> & Hb).
    + apply answers_true. exists [], (x :: s). split; [done|]. by apply Hb.
    + eapply answers_iff; [|exact IH]. split.
      * intros (s1 & s2 & -> & Hp). by exists (x :: s1), s2.
      * intros ([|y s1] & s2 & Hs & Hp); cbn in Hs; simplify_eq; [by apply Hb in Hp|eauto].
Qed.

Lemma parses_nil ts : parses [] ts -> ts = [].
Proof. by inversion 1. Qed.

(** Consecutive stars are one. *)
Lemma strip_stars_ok p ts : parses p ts -> exists ts', parses (strip_stars p) ts' /\
  (length (strip_stars p) <= length p)%nat /\
  forall s, (exists s1 s2, s = s1 ++ s2 /\ den ts s2) <-> (exists s1 s2, s = s1 ++ s2 /\ den ts' s2).
Proof.
  revert ts. induction p as [|b p IH]; intros ts H; cbn [strip_stars].
  { exists ts. done. }
  destruct (decide (b = star)) as [->|Hb]; [|by exists ts].
  inversion H as [|? ts0 H0| | | | |]; simplify_eq. destruct (IH _ H0) as (ts' & Hp & Hl & Hd). exists ts'.
  split; [done|]. split; [cbn [length]; lia|]. intros s. rewrite <- Hd. cbn [den]. split.
  - intros (s1 & s2 & -> & s3 & s4 & -> & Hs). exists (s1 ++ s3), s4. by rewrite app_assoc.
  - intros (s1 & s2 & -> & Hs). exists s1, s2. split; [done|]. by exists [], s2.
Qed.

Lemma HasPrefix_spec s x : HasPrefix s x = true <-> exists s2, s = x ++ s2.
Proof.
  unfold HasPrefix. rewrite bool_decide_eq_true. split.
  - intros H. exists (drop (length x) s). rewrite <- H at 1. by rewrite take_drop.
  - intros (s2 & ->). by rewrite take_app_length.
Qed.

(** One literal rune. *)
Lemma literal_ok fuel p n s ts :
  n = (DecodeRuneInString p).2 -> p <> [] ->
  (forall s, answers (match_component fuel (drop n p) s) (den ts s)) ->
  answers (if HasPrefix s (take n p) then match_component fuel (drop n p) (drop n s) else Some false)
    (den (TLit (take n p) :: ts) s).
Proof.
  intros -> Hp IH. cbn [den]. destruct (HasPrefix s _) eqn:E.
  - apply HasPrefix_spec in E as (s2 & ->). rewrite drop_len_app.
    + eapply answers_iff; [|apply IH]. split; [eauto|]. intros (s3 & Hs & Hd). by apply app_inv_head in Hs as ->.
    + rewrite length_take. destruct p as [|b p]; [done|]. pose proof (decode_rune b p) as (Hn & _ & _).
      cbn [length]. lia.
  - apply answers_false. intros (s2 & -> & _). enough (HasPrefix (take (DecodeRuneInString p).2 p ++ s2)
      (take (DecodeRuneInString p).2 p) = true) by congruence. apply HasPrefix_spec. eauto.
Qed.

Lemma class_ok negate p p0 ms rest r : class_body true p ms rest ->
  p0 = (if negate : bool then caret :: p else p) -> (negate = false -> head p <> Some caret) ->
  matchClass p0 r = Some (rest, xorb (in_class ms r) negate) /\ (length rest < length p)%nat.
Proof.
  intros H -> Hh. split.
  - unfold matchClass. destruct negate.
    + rewrite decide_True by done. by rewrite (class_loop_ok _ _ _ _ _ H) by lia.
    + specialize (Hh eq_refl). destruct p as [|b p].
      { inversion H; subst; match goal with H : member [] _ _ |- _ => inversion H end. }
      rewrite decide_False by (intros ->; done). by rewrite (class_loop_ok _ _ _ _ _ H) by lia.
  - clear Hh. induction H as [rest|first p lo p1 hi p2 ms rest Hf Hm Hr Hm2 Hb IH|first p lo p1 ms rest Hf Hm Hr Hb IH].
    + cbn [length]. lia.
    + apply member_length in Hm, Hm2. rewrite length_drop in Hm2. lia.
    + apply member_length in Hm. lia.
Qed.

Lemma class_step fuel negate p p0 ms rest ts s : class_body true p ms rest ->
  p0 = (if negate : bool then caret :: p else p) -> (negate = false -> head p <> Some caret) ->
  (forall s, answers (match_component fuel rest s) (den ts s)) ->
  answers (match s with
           | [] => Some false
           | _ => let '(r, n) := DecodeRuneInString s in
                  '(rest, ok) ← matchClass p0 r;
                  if ok : bool then match_component fuel rest (drop n s) else Some false
           end) (den (TClass negate ms :: ts) s).
Proof.
  intros Hc Hp0 Hh IH. cbn [den]. destruct s as [|b s].
  { apply answers_false. by intros (r & s2 & [? _] & _). }
  destruct (rune_at_intro b s) as (r & s2 & Hr & _ & _). pose proof Hr as [_ (n & E & Hs2)]. rewrite E.
  destruct (class_ok negate p p0 ms rest r Hc Hp0 Hh) as [-> _]. cbn [mbind option_bind].
  assert ((exists r0 s0, rune_at (b :: s) r0 s0 /\ xorb (in_class ms r0) negate = true /\ den ts s0) <->
          (xorb (in_class ms r) negate = true /\ den ts s2)) as Hiff.
  { split; [|eauto]. intros (r' & s' & Hr' & H). by destruct (rune_at_fun _ _ _ _ _ Hr Hr') as [-> ->]. }
  eapply answers_iff; [symmetry; exact Hiff|]. destruct (xorb _ negate).
  - rewrite <- Hs2. eapply answers_iff; [|apply IH]. naive_solver.
  - apply answers_false. naive_solver.
Qed.

Lemma match_component_ok fuel : forall p ts s, parses p ts -> (length p <= fuel)%nat ->
  answers (match_component fuel p s) (den ts s).
Proof.
  induction fuel as [|fuel IH]; intros p ts s Hp Hl.
  { destruct p; [|cbn in Hl; lia]. apply parses_nil in Hp as ->. cbn. by destruct s; [apply answers_true|apply answers_false]. }
  destruct Hp as [|p ts Hp|p ts Hp|p ms rest ts Hh Hc Hp|p ms rest ts Hc Hp|p n ts Hne Hn Hp|b p n ts N1 N2 N3 N4 Hn Hp];
    cbn [match_component]; cbn [length] in Hl.
  - by destruct s; [apply answers_true|apply answers_false].
  - destruct (strip_stars_ok p ts Hp) as (ts' & Hp' & Hl' & Hd). cbn [den]. rewrite decide_True by done.
    eapply answers_iff; [symmetry; apply Hd|]. destruct (strip_stars p) as [|c q] eqn:E.
    + apply parses_nil in Hp' as ->. apply answers_true. exists s, []. by rewrite app_nil_r.
    + apply any_suffix_ok. intros s'. apply IH; [done|lia].
  - rewrite decide_False, decide_True by done. cbn [den]. destruct s as [|b s].
    { apply answers_false. by intros (r & s2 & [? _] & _). }
    destruct (rune_at_intro b s) as (r & rest & Hr & _ & <-).
    eapply answers_iff; [|apply (IH p ts rest Hp); lia]. split; [eauto|].
    intros (r' & s2 & Hr' & Hd). by destruct (rune_at_fun _ _ _ _ _ Hr Hr') as [_ ->].
  - destruct (class_ok false p p ms rest 0 Hc eq_refl (fun _ => Hh)) as [_ Hlr].
    rewrite !decide_False, decide_True by done. eapply class_step; [done..|]. intros. apply IH; [done|lia].
  - destruct (class_ok true p (caret :: p) ms rest 0 Hc eq_refl ltac:(done)) as [_ Hlr].
    rewrite !decide_False, decide_True by done. eapply class_step; [done..|]. intros. apply IH; [done|]. lia.
  - rewrite !decide_False, decide_True by done. cbv zeta. subst n. apply literal_ok; [done..|].
    intros s'. apply IH; [done|]. rewrite length_drop. lia.
  - rewrite !decide_False by done. cbv zeta. subst n. apply literal_ok; [done..|].
    intros s'. apply IH; [done|]. pose proof (decode_rune b p) as (Hr & _ & _).
    rewrite length_drop. cbn [length]. lia.
Qed.

(* ------------------------------------------------------------------ *)
(** ** Lemmas: compiled patterns parse *)

Lemma wide_not b : wide b -> b <> backslash /\ b <> lbrack /\ b <> rbrack /\ b <> dash /\ b <> caret.
Proof. intros H. split_and!; intros ->; unfold wide in H; cbn in H; lia. Qed.

Lemma class_end_cons b q : b <> rbrack -> b <> backslash ->
  class_end (b :: q) = ('(x, rest) ← class_end q; Some (b :: x, rest)).
Proof. intros H1 H2. cbn [class_end]. by rewrite !decide_False by done. Qed.

Lemma class_end_ind (P : bytes -> bytes -> bytes -> Prop) :
  (forall rest, P (rbrack :: rest) [] (rbrack :: rest)) ->
  (forall c q y R, class_end q = Some (y, R) -> P q y R -> P (backslash :: c :: q) (backslash :: c :: y) R) ->
  (forall b q y R, b <> rbrack -> b <> backslash -> class_end q = Some (y, R) -> P q y R -> P (b :: q) (b :: y) R) ->
  forall q y R, class_end q = Some (y, R) -> P q y R.
Proof.
  intros H1 H2 H3. fix IH 1. intros [|b q] y R H; cbn [class_end] in H; [done|].
  destruct (decide (b = rbrack)) as [->|Hb]; [simplify_eq; apply H1|].
  destruct (decide (b = backslash)) as [->|Hb2].
  - destruct q as [|c q]; [done|]. destruct (class_end q) as [[y' R']|] eqn:E; [|done]. cbn in H. simplify_eq. auto.
  - destruct (class_end q) as [[y' R']|] eqn:E; [|done]. cbn in H. simplify_eq. auto.
Qed.

Lemma class_end_split q y R : class_end q = Some (y, R) ->
  q = y ++ R /\ (exists rest, R = rbrack :: rest) /\
  forall rest, class_end (y ++ rbrack :: rest) = Some (y, rbrack :: rest).
Proof.
  revert q y R. apply class_end_ind.
  - intros rest. split_and!; [done|eauto|]. intros r. cbn [app class_end]. by rewrite decide_True.
  - intros c q y R _ (-> & Hr & IH). split_and!; [done|done|]. intros r. cbn [app class_end].
    rewrite decide_False, decide_True by done. by rewrite IH.
  - intros b q y R Hb Hb2 _ (-> & Hr & IH). split_and!; [done|done|]. intros r. cbn [app class_end].
    rewrite !decide_False by done. by rewrite IH.
Qed.

(** Skipping wide bytes. *)
Lemma class_end_drop k q y R : class_end q = Some (y, R) -> Forall wide (take k q) -> (k <= length q)%nat ->
  exists y', class_end (drop k q) = Some (y', R).
Proof.
  revert q y. induction k as [|k IH]; intros q y H Hw Hk; [rewrite drop_0; eauto|].
  destruct q as [|b q]; [cbn in Hk; lia|]. cbn [take] in Hw. apply Forall_cons_1 in Hw as [Hb Hw].
  apply wide_not in Hb. cbn [class_end] in H. rewrite !decide_False in H by tauto.
  destruct (class_end q) as [[y' R']|] eqn:E; [|done]. cbn in H. simplify_eq. cbn [drop length] in *.
  eapply IH; [exact E|done|lia].
Qed.

Lemma rune_class_end b q y R : class_end q = Some (y, R) -> exists r q1 y1,
  rune_at (b :: q) r q1 /\ class_end q1 = Some (y1, R) /\ (length q1 <= length q)%nat.
Proof.
  intros H. pose proof (decode_rune b q) as (Hn & Hw & _). destruct (rune_at_intro b q) as (r & rest & Hr & Hl & ->).
  set (n := (DecodeRuneInString (b :: q)).2) in *.
  destruct (class_end_drop (n - 1) q y R H Hw ltac:(lia)) as [y1 H1].
  exists r, (drop n (b :: q)), y1. split_and!; [done| |done].
  replace n with (S (n - 1)) by lia. done.
Qed.

Lemma member_exists q y R : class_end q = Some (y, R) -> head q <> Some rbrack ->
  exists lo q1 y1, member q lo q1 /\ class_end q1 = Some (y1, R) /\ (length q1 < length q)%nat.
Proof.
  intros H Hh. destruct q as [|b q]; [done|]. cbn [class_end] in H.
  rewrite decide_False in H by (intros ->; done). destruct (decide (b = backslash)) as [->|Hb].
  - destruct q as [|c q]; [done|]. destruct (class_end q) as [[y' R']|] eqn:E; [|done]. cbn in H. simplify_eq.
    destruct (rune_class_end c q y' R E) as (r & q1 & y1 & Hr & H1 & Hl). exists r, q1, y1.
    split_and!; [by constructor|done|cbn [length]; lia].
  - destruct (class_end q) as [[y' R']|] eqn:E; [|done]. cbn in H. simplify_eq.
    destruct (rune_class_end b q y' R E) as (r & q1 & y1 & Hr & H1 & Hl). exists r, q1, y1.
    split_and!; [constructor; auto|done|cbn [length]; lia].
Qed.

(** A class body after a first member. *)
Lemma body_after_member n rest first p lo q y :
  (forall q y, (length q < n)%nat -> class_end q = Some (y, rbrack :: rest) -> exists ms, class_body false q ms rest) ->
  (length q < n)%nat -> first = true \/ head p <> Some rbrack -> member p lo q ->
  class_end q = Some (y, rbrack :: rest) -> exists ms, class_body first p ms rest.
Proof.
  intros IH Hl Hf Hm H.
  assert (range_follows q \/ ~ range_follows q) as [Hr|Hr].
  { destruct q as [|d [|e q]]; [right; by intros (?&?&?&?)..|].
    destruct (decide (d = dash)) as [->|]; [|right; intros (?&?&?&?); by simplify_eq].
    destruct (decide (e = rbrack)) as [->|]; [right; intros (?&?&?&?); by simplify_eq|left]. unfold range_follows. eauto. }
  - pose proof Hr as (e & q2 & -> & He). rewrite class_end_cons in H by done.
    destruct (class_end (e :: q2)) as [[y2 R2]|] eqn:E; [|done]. cbn in H. simplify_eq.
    destruct (member_exists _ _ _ E) as (hi & q3 & y3 & Hm3 & H3 & Hl3); [cbn; congruence|].
    destruct (IH q3 y3) as [ms Hms]; [cbn [length] in *; lia|done|].
    exists ((lo, hi) :: ms). by eapply cb_range.
  - destruct (IH q y Hl H) as [ms Hms]. exists ((lo, lo) :: ms). by eapply cb_one.
Qed.

Lemma class_body_exists n rest : forall q y, (length q < n)%nat -> class_end q = Some (y, rbrack :: rest) ->
  exists ms, class_body false q ms rest.
Proof.
  induction n as [|n IH]; intros q y Hl H; [lia|].
  destruct (decide (head q = Some rbrack)) as [Hh|Hh].
  - destruct q as [|b q]; [done|]. cbn in Hh. simplify_eq. cbn [class_end] in H. rewrite decide_True in H by done.
    simplify_eq. exists []. constructor.
  - destruct (member_exists _ _ _ H Hh) as (lo & q1 & y1 & Hm & H1 & Hl1).
    eapply body_after_member; [exact IH| |by right|exact Hm|exact H1]. lia.
Qed.

(** The class a compiled pattern closes has a body. *)
Lemma class_opened p x q y rest : class_open p = (x, q) -> class_end q = Some (y, rbrack :: rest) ->
  exists negate p1 ms, p = (if negate : bool then caret :: p1 else p1) /\ (negate = false -> head p1 <> Some caret) /\
    class_body true p1 ms rest.
Proof.
  intros Ho He.
  assert (forall p1 x0, (match p1 with b :: p' => if decide (b = rbrack) then (x0 ++ [b], p') else (x0, p1)
    | [] => (x0, []) end) = (x, q) -> exists ms, class_body true p1 ms rest) as Hbody.
  { intros p1 x0 H. destruct p1 as [|b p1]; [by simplify_eq|]. destruct (decide (b = rbrack)) as [->|Hb]; simplify_eq.
    - eapply (body_after_member (S (length q))); [apply class_body_exists| |by left| |exact He]; [lia|].
      apply mb_plain; [by left|]. split; [done|]. by exists 1%nat.
    - destruct (member_exists _ _ _ He) as (lo & q1 & y1 & Hm & H1 & Hl1); [cbn; congruence|].
      eapply (body_after_member (S (length q1))); [apply class_body_exists| |by left|exact Hm|exact H1]. lia. }
  unfold class_open in Ho. destruct p as [|b p].
  { cbn in Ho. simplify_eq. }
  destruct (decide (b = caret)) as [->|Hb].
  - destruct (Hbody _ _ Ho) as [ms Hms]. exists true, p, ms. done.
  - destruct (Hbody (b :: p) [] Ho) as [ms Hms]. exists false, (b :: p), ms. split_and!; [done|cbn; congruence|done].
Qed.

(** Components as [compileGlob] leaves them: escapes followed by a byte,
    classes closed. *)
Inductive wf_comp : bytes -> Prop :=
  | wf_nil : wf_comp []
  | wf_escape c p : wf_comp p -> wf_comp (backslash :: c :: p)
  | wf_class x q y p : class_open (x ++ q) = (x, q) -> class_end q = Some (y, rbrack :: p) -> wf_comp p ->
      wf_comp (lbrack :: x ++ q)
  | wf_char b p : b <> backslash -> b <> lbrack -> wf_comp p -> wf_comp (b :: p).

Lemma wf_drop k p : wf_comp p -> Forall wide (take k p) -> (k <= length p)%nat -> wf_comp (drop k p).
Proof.
  revert p. induction k as [|k IH]; intros p Hp Hw Hk; [done|].
  destruct p as [|b p]; [cbn in Hk; lia|]. cbn [take] in Hw. apply Forall_cons_1 in Hw as [Hb Hw].
  apply wide_not in Hb. inversion Hp; simplify_eq; try tauto. cbn [drop length] in *. apply IH; [done|done|lia].
Qed.

Lemma wf_rune b p : wf_comp p -> let n := (DecodeRuneInString (b :: p)).2 in
  wf_comp (drop n (b :: p)) /\ (length (drop n (b :: p)) <= length p)%nat.
Proof.
  intros Hp n. pose proof (decode_rune b p) as (Hn & Hw & _). fold n in Hn, Hw.
  replace n with (S (n - 1)) by lia. cbn [drop]. split; [|rewrite length_drop; lia].
  apply wf_drop; [done|done|lia].
Qed.

Lemma wf_parses p : wf_comp p -> exists ts, parses p ts.
Proof.
  remember (length p) as n eqn:Hn. revert p Hn. induction n as [n IH] using lt_wf_ind. intros p -> Hp.
  assert (forall q, (length q < length p)%nat -> wf_comp q -> exists ts, parses q ts) as IH' by eauto.
  destruct Hp as [|c p Hp|x q y p Ho He Hp|b p Hb Hl Hp]; cbn [length] in IH'.
  - exists []. constructor.
  - destruct (wf_rune c p Hp) as [Hd Hlen]. destruct (IH' _ (le_n_S _ _ (le_S _ _ Hlen)) Hd) as [ts Hts].
    eexists. by constructor.
  - destruct (class_opened _ _ _ _ _ Ho He) as (negate & p1 & ms & Hp1 & Hh & Hms).
    apply class_end_split in He as (-> & _ & _). rewrite !length_app in IH'. cbn [length] in IH'.
    destruct (IH' p ltac:(lia) Hp) as [ts Hts]. rewrite Hp1. destruct negate; eexists; [by eapply ps_nclass|].
    eapply ps_class; eauto.
  - destruct (decide (b = star)) as [->|Hs]; [destruct (IH' p ltac:(lia) Hp); eexists; by constructor|].
    destruct (decide (b = quest)) as [->|Hq]; [destruct (IH' p ltac:(lia) Hp); eexists; by constructor|].
    destruct (wf_rune b p Hp) as [Hd Hlen]. destruct (IH' _ (le_n_S _ _ Hlen) Hd) as [ts Hts].
    eexists. by eapply ps_plain.
Qed.

Lemma class_open_split p x q : class_open p = (x, q) ->
  p = x ++ q /\ forall q', head q' = head q -> class_open (x ++ q') = (x, q').
Proof.
  unfold class_open. destruct p as [|b p].
  { intros. simplify_eq. split; [done|]. intros [|] Hq; [done|discriminate]. }
  destruct (decide (b = caret)) as [->|Hb].
  - destruct p as [|c p].
    { intros. simplify_eq. split; [done|]. intros [|] Hq; [|discriminate]. cbn [app]. by rewrite decide_True. }
    destruct (decide (c = rbrack)) as [->|Hc]; intros; simplify_eq; (split; [done|]); intros q' Hq'; cbn [app];
      rewrite decide_True by done; [by rewrite decide_True|].
    destruct q' as [|d q']; [done|]. cbn in Hq'. simplify_eq. by rewrite decide_False.
  - destruct (decide (b = rbrack)) as [->|Hc]; intros; simplify_eq; (split; [done|]); intros q' Hq'; cbn [app].
    + by rewrite decide_False, decide_True.
    + destruct q' as [|d q']; [done|]. cbn in Hq'. simplify_eq. by rewrite !decide_False.
Qed.

Lemma compile_loop_ok fuel comps cur p res : (length p <= fuel)%nat ->
  compile_loop fuel comps cur p = Ok res ->
  exists first others, res = comps ++ (cur ++ first) :: others /\ wf_comp first /\ Forall wf_comp others.
Proof.
  revert comps cur p. induction fuel as [|fuel IH]; intros comps cur p Hl H.
  { destruct p; [|cbn in Hl; lia]. cbn in H. simplify_eq. exists [], []. rewrite app_nil_r. split_and!; [done|constructor..]. }
  destruct p as [|b p]; cbn [compile_loop] in H.
  { simplify_eq. exists [], []. rewrite app_nil_r. split_and!; [done|constructor..]. }
  cbn [length] in Hl. destruct (decide (b = slash)) as [->|Hs].
  { apply IH in H as (f & o & -> & Hf & Ho); [|lia]. exists [], (f :: o). rewrite app_nil_r, <- app_assoc.
    split_and!; [done|constructor|by constructor]. }
  destruct (decide (b = backslash)) as [->|Hb].
  { destruct p as [|c p]; [done|]. cbn [length] in Hl. apply IH in H as (f & o & -> & Hf & Ho); [|lia].
    exists (backslash :: c :: f), o. rewrite <- app_assoc. split_and!; [done|by constructor|done]. }
  destruct (decide (b = lbrack)) as [->|Hlb].
  - destruct (class_open p) as [x q] eqn:Ho. destruct (class_end q) as [[y [|rb q2]]|] eqn:He; try done.
    pose proof (class_end_split _ _ _ He) as (-> & [rest [= -> ->]] & Hce).
    pose proof (class_open_split _ _ _ Ho) as (-> & Hco). rewrite !length_app in Hl. cbn [length] in Hl.
    apply IH in H as (f & o & -> & Hf & Hos); [|lia].
    exists (lbrack :: x ++ y ++ rbrack :: f), o. split_and!; [by rewrite <- !app_assoc| |done].
    eapply wf_class; [apply Hco; by destruct y|apply Hce|done].
  - apply IH in H as (f & o & -> & Hf & Ho); [|lia]. exists (b :: f), o. rewrite <- app_assoc.
    split_and!; [done|by constructor|done].
Qed.

Lemma compiled_parses pat g : compileGlob pat = Ok g -> Forall (fun c => exists ts, parses c ts) g.
Proof.
  intros H. apply compile_loop_ok in H as (f & o & -> & Hf & Ho); [|done].
  apply Forall_cons. split; [by apply wf_parses|]. eapply Forall_impl; [exact Ho|]. apply wf_parses.
Qed.

(* ------------------------------------------------------------------ *)
(** ** Lemmas: paths *)

Lemma strip_doublestars_ok pat : 
  (strip_doublestars pat = [] /\ Forall (eq doublestar) pat) \/
  (exists c pat', strip_doublestars pat = c :: pat' /\ c <> doublestar /\ ~ Forall (eq doublestar) pat).
Proof.
  induction pat as [|c pat IH]; cbn [strip_doublestars]; [by left|].
  destruct (decide (c = doublestar)) as [->|Hc].
  - destruct IH as [[H1 H2]|(c' & pat' & H1 & H2 & H3)]; [left; split; [done|by constructor]|right].
    exists c', pat'. split_and!; [done|done|]. by intros [_ H]%Forall_cons_1.
  - right. exists c, pat. split_and!; [done|done|]. intros [H _]%Forall_cons_1. congruence.
Qed.

(** A run of ["**"] before a component is one gap. *)
Lemma gap_iff pat path : ~ Forall (eq doublestar) pat ->
  path_matches (doublestar :: pat) path <->
  exists p1 p2, path = p1 ++ p2 /\ path_matches (strip_doublestars pat) p2.
Proof.
  revert path. induction pat as [|c pat IH]; intros path Hn.
  { exfalso. apply Hn. constructor. }
  cbn [strip_doublestars]. destruct (decide (c = doublestar)) as [->|Hc].
  - assert (~ Forall (eq doublestar) pat) as Hn' by (intros H; apply Hn; by constructor).
    split.
    + inversion 1 as [| |? pre q _ Hq|]; simplify_eq. apply IH in Hq as (p1 & p2 & -> & H2); [|done].
      exists (pre ++ p1), p2. by rewrite app_assoc.
    + intros (p1 & p2 & -> & H2). apply (pm_gap _ p1); [done|]. apply IH; [done|]. by exists [], p2.
  - split.
    + inversion 1; simplify_eq. eauto.
    + intros (p1 & p2 & -> & H2). by apply pm_gap.
Qed.

Lemma match_comps_ok fuel : forall pat path, Forall (fun c => exists ts, parses c ts) pat -> (length pat <= fuel)%nat ->
  answers (match_comps fuel pat path) (path_matches pat path).
Proof.
  assert (forall path, answers (Some (match path with [] => true | _ => false end)) (path_matches [] path)) as Hnil.
  { intros [|x path]; [apply answers_true; constructor|apply answers_false; by inversion 1]. }
  induction fuel as [|fuel IH]; intros pat path Hp Hl; destruct pat as [|c pat]; try apply Hnil; [cbn in Hl; lia|].
  cbn [match_comps length] in *. apply Forall_cons_1 in Hp as [Hc Hp].
  destruct (decide (c = doublestar)) as [->|Hds].
  - destruct (strip_doublestars_ok pat) as [[-> Hall]|(c & pat' & Hst & Hcn & Hn)].
    + destruct path as [|x path]; [apply answers_false|apply answers_true].
      * inversion 1; simplify_eq; done.
      * by apply pm_tail.
    + eapply answers_iff; [symmetry; by apply gap_iff|]. rewrite Hst. apply any_suffix_ok. intros s.
      assert (Forall (fun c => exists ts, parses c ts) (strip_doublestars pat) /\
        (length (strip_doublestars pat) <= length pat)%nat) as [Hp' Hl'].
      { clear -Hp. induction Hp as [|d pat Hd Hp [IH1 IH2]]; cbn [strip_doublestars]; [done|].
        destruct (decide _); cbn [length]; (split; [first [done|by constructor]|lia]). }
      rewrite Hst in Hp', Hl'. apply IH; [done|lia].
  - destruct path as [|x path].
    { apply answers_false. inversion 1; simplify_eq. }
    destruct Hc as [ts Hts]. destruct (match_component_ok (length c) c ts x Hts ltac:(done)) as (b & Hb & Hiff).
    unfold matchComponent. rewrite Hb. cbn [mbind option_bind].
    assert (forall ts', parses c ts' -> b = true <-> den ts' x) as Hdet.
    { intros ts' Hts'. destruct (match_component_ok (length c) c ts' x Hts' ltac:(done)) as (b' & Hb' & Hiff').
      rewrite Hb in Hb'. by simplify_eq. }
    destruct b.
    + eapply answers_iff; [|apply IH; [done|lia]]. split.
      * intros Hm. apply (pm_comp c ts); [done|done|by apply Hiff|done].
      * inversion 1; simplify_eq; done.
    + apply answers_false. inversion 1 as [|? ts' ? ? ? _ Hts' Hd| |]; simplify_eq; try done.
      by apply (Hdet ts') in Hd.
Qed.

(* ------------------------------------------------------------------ *)
(** ** Lemmas: patterns *)

Lemma not_meta b : b ∉ metachars -> b <> star /\ b <> quest /\ b <> lbrack /\ b <> backslash.
Proof. unfold metachars. rewrite !not_elem_of_cons. tauto. Qed.

(** Without metacharacters [compileGlob] only splits. *)
Lemma compile_plain fuel comps cur p : (length p <= fuel)%nat -> Forall (fun b => b ∉ metachars) p ->
  compile_loop fuel comps cur p = Ok (comps ++ split_loop cur p).
Proof.
  revert comps cur p. induction fuel as [|fuel IH]; intros comps cur [|b p] Hl Hp; cbn [compile_loop split_loop length] in *;
    try done; [lia|]. apply Forall_cons_1 in Hp as [Hb Hp].
  destruct (decide (b = slash)) as [->|Hs].
  { rewrite IH by (done || lia). by rewrite <- app_assoc. }
  apply not_meta in Hb. rewrite !decide_False by tauto. apply IH; [lia|done].
Qed.

Lemma ContainsAny_false s chars : ContainsAny s chars = false -> Forall (fun b => b ∉ chars) s.
Proof.
  unfold ContainsAny. induction s as [|b s IH]; cbn [existsb]; [constructor|].
  intros H. apply orb_false_iff in H as [H1 H2]. constructor; [by apply bool_decide_eq_false in H1|auto].
Qed.

(** A plain component stands for itself. *)
Lemma plain_den n c : forall ts x, (length c <= n)%nat -> Forall (fun b => b ∉ metachars) c -> parses c ts ->
  (den ts x <-> x = c).
Proof.
  revert c. induction n as [|n IH]; intros c ts x Hl Hc Hp.
  { destruct c; [|cbn in Hl; lia]. by apply parses_nil in Hp as ->. }
  destruct Hp as [|p ts Hp|p ts Hp|p ms rest ts Hh Hm Hp|p ms rest ts Hm Hp|p k ts Hne Hn Hp|b p k ts N1 N2 N3 N4 Hn Hp];
    try (apply Forall_cons_1 in Hc as [Hc%not_meta _]; tauto).
  - done.
  - pose proof (decode_rune b p) as (Hk & _ & _). rewrite <- Hn in Hk. cbn [length] in Hl.
    cbn [den]. setoid_rewrite (fun y => IH (drop k (b :: p)) ts y); [|rewrite length_drop; cbn [length]; lia|by apply Forall_drop|done].
    split; [|intros ->; exists (drop k (b :: p)); by rewrite take_drop].
    intros (s2 & -> & ->). apply take_drop.
Qed.

Lemma split_loop_plain cur s : Forall (fun b => b ∉ metachars) cur -> Forall (fun b => b ∉ metachars) s ->
  Forall (Forall (fun b => b ∉ metachars)) (split_loop cur s).
Proof.
  revert cur. induction s as [|b s IH]; intros cur Hcur Hs; cbn [split_loop]; [by repeat constructor|].
  apply Forall_cons_1 in Hs as [Hb Hs]. destruct (decide _); [constructor; [done|by apply IH]|].
  apply IH; [apply Forall_app; split; [done|by repeat constructor]|done].
Qed.

Lemma plain_not_doublestar c : Forall (fun b => b ∉ metachars) c -> c <> doublestar.
Proof. intros H ->. apply Forall_cons_1 in H as [H%not_meta _]. tauto. Qed.

(** Plain components match exactly themselves. *)
Lemma plain_path pat path : Forall (Forall (fun b => b ∉ metachars)) pat ->
  Forall (fun c => exists ts, parses c ts) pat -> (path_matches pat path <-> path = pat).
Proof.
  intros Hp Hts. split.
  - intros H. induction H as [|c ts x pat path Hc Hx Hd Hm IH|pat pre path Hn Hm IH|pat path Hn Hm]; [done|..];
      apply Forall_cons_1 in Hp as [Hpc Hp]; try by apply plain_not_doublestar in Hpc.
    apply Forall_cons_1 in Hts as [_ Hts]. rewrite IH by done. f_equal. by eapply plain_den.
  - intros ->. induction Hp as [|c pat Hc Hp IH]; [constructor|].
    apply Forall_cons_1 in Hts as [[ts Hc'] Hts]. eapply pm_comp; [by apply plain_not_doublestar|exact Hc'| |auto].
    by eapply plain_den.
Qed.

(** Joining what [Split] splits. *)
Fixpoint join (l : list bytes) : bytes :=
  match l with [] => [] | [c] => c | c :: l => c ++ [slash] ++ join l end.

Lemma split_loop_ne cur s : exists c l, split_loop cur s = c :: l.
Proof. revert cur. induction s as [|b s IH]; intros cur; cbn [split_loop]; [eauto|]. destruct (decide _); eauto. Qed.

Lemma join_split_loop cur s : join (split_loop cur s) = cur ++ s.
Proof.
  revert cur. induction s as [|b s IH]; intros cur; cbn [split_loop]; [by rewrite app_nil_r|].
  destruct (decide (b = slash)) as [->|Hb]; [|rewrite IH; by rewrite <- app_assoc].
  destruct (split_loop_ne [] s) as (c & l & E). cbn [join]. rewrite E, <- E, IH. done.
Qed.
Lemma join_Split s : join (Split s) = s.
Proof. apply join_split_loop. Qed.

Lemma split_loop_app cur s t : split_loop cur (s ++ slash :: t) = split_loop cur s ++ split_loop [] t.
Proof.
  revert cur. induction s as [|b s IH]; intros cur; cbn [app split_loop]; [by rewrite decide_True|].
  destruct (decide _); [by rewrite IH|apply IH].
Qed.

Lemma join_app l1 l2 : l1 <> [] -> l2 <> [] -> join (l1 ++ l2) = join l1 ++ slash :: join l2.
Proof.
  intros H1 H2. induction l1 as [|c l1 IH]; [done|]. destruct l1 as [|c' l1].
  - destruct l2; [done|]. done.
  - cbn [app join] in *. rewrite IH by done. by rewrite <- !app_assoc.
Qed.

Lemma HasSuffix_spec s x : HasSuffix s x = true <-> exists s1, s = s1 ++ x.
Proof.
  unfold HasSuffix. rewrite bool_decide_eq_true. split.
  - intros [_ H]. exists (take (length s - length x) s). rewrite <- H at 2. by rewrite take_drop.
  - intros (s1 & ->). rewrite length_app. split; [lia|].
    replace (length s1 + length x - length x)%nat with (length s1) by lia. apply drop_app_length.
Qed.

Lemma any_tail_ok m (P : list bytes -> Prop) comps : (forall l, answers (m l) (P l)) ->
  answers (any_tail m comps) (exists pre tail, comps = pre ++ tail /\ tail <> [] /\ P tail).
Proof.
  intros Hm. induction comps as [|c comps IH]; cbn [any_tail].
  { apply answers_false. intros (pre & tail & H & Ht & _). symmetry in H. by apply app_nil in H as [_ ->]. }
  destruct (Hm (c :: comps)) as ([] & -> & Hb).
  - apply answers_true. exists [], (c :: comps). split_and!; [done|done|by apply Hb].
  - eapply answers_iff; [|exact IH]. split.
    + intros (pre & tail & -> & Ht & Hp). by exists (c :: pre), tail.
    + intros ([|d pre] & tail & H & Ht & Hp); cbn in H; simplify_eq; [by apply Hb in Hp|eauto].
Qed.


(** The suffixes of a path a pattern may match: all that start at a component
    boundary, the whole path only if it is anchored. *)
Definition glob_selects (p : Pattern) (path : bytes) : Prop :=
  exists g pre tail, compileGlob (pt_Text p) = Ok g /\ Split path = pre ++ tail /\ tail <> [] /\
    (pt_Anchored p = true -> pre = []) /\ path_matches g tail.

(** What a pattern selects. *)
Definition selects (p : Pattern) (path : bytes) (isDir : bool) : Prop :=
  (pt_DirOnly p = true -> isDir = true) /\ path <> [] /\ glob_selects p path.

Lemma cutPrefix_spec b s x r : cutPrefix b s = (x, r) -> s = (if x : bool then [b] else []) ++ r.
Proof. destruct s as [|c s]; cbn; [intros; by simplify_eq|]. case_decide; intros; by simplify_eq. Qed.
Lemma cutSuffix_spec b s x r : cutSuffix b s = (x, r) -> s = r ++ (if x : bool then [b] else []).
Proof.
  unfold cutSuffix. destruct (last s) as [c|] eqn:E; [|intros; simplify_eq; by rewrite app_nil_r].
  apply last_Some in E as [l ->]. case_decide; intros; simplify_eq; [|by rewrite app_nil_r].
  rewrite length_app. cbn [length]. rewrite Nat.add_sub. by rewrite take_app_length.
Qed.

(** A parsed pattern, and its glob. *)
Lemma ParsePattern_inv s p : ParsePattern s = Ok p ->
  Pattern_String p = s /\ pt_Text p <> [] /\ Forall (fun b => b ∉ [nul; newline]) (pt_Text p) /\
  match pt_g p with
  | Some g => compileGlob (pt_Text p) = Ok g
  | None => Forall (fun b => b ∉ metachars) (pt_Text p)
  end.
Proof.
  unfold ParsePattern. destruct (cutPrefix bang s) as [x1 b1] eqn:E1. destruct (cutPrefix slash b1) as [x2 b2] eqn:E2.
  destruct (cutSuffix slash b2) as [x3 b3] eqn:E3. apply cutPrefix_spec in E1, E2. apply cutSuffix_spec in E3. subst.
  destruct (decide (b3 = [])); [done|]. destruct (ContainsAny b3 [nul; newline]) eqn:Hn; [done|].
  apply ContainsAny_false in Hn. destruct (ContainsAny b3 metachars) eqn:Hm.
  - destruct (compileGlob b3) eqn:Hg; [|done]. intros. simplify_eq. done.
  - intros. simplify_eq. split_and!; [done..|]. by apply ContainsAny_false.
Qed.

Lemma compileGlob_plain t : Forall (fun b => b ∉ metachars) t -> compileGlob t = Ok (Split t).
Proof. intros H. unfold compileGlob. by rewrite compile_plain. Qed.

Lemma Split_ne s : Split s <> [].
Proof. destruct (split_loop_ne [] s) as (c & l & E). unfold Split. by rewrite E. Qed.
Lemma Split_inj s t : Split s = Split t -> s = t.
Proof. intros H. by rewrite <- (join_Split s), H, join_Split. Qed.

(** A plain text is a suffix at a component boundary exactly as the literal
    comparison says. *)
Lemma plain_suffix path text : 
  (exists pre, Split path = pre ++ Split text) <-> path = text \/ HasSuffix path ([slash] ++ text) = true.
Proof.
  rewrite HasSuffix_spec. split.
  - intros ([|c pre] & H); [left; by apply Split_inj|right]. exists (join (c :: pre)).
    rewrite <- (join_Split path), H, join_app, join_Split by (done || apply Split_ne). done.
  - intros [->|(s1 & ->)]; [by exists []|]. exists (Split s1). apply split_loop_app.
Qed.

Lemma compiled_answers p g path : compileGlob (pt_Text p) = Ok g ->
  answers (if pt_Anchored p then matchComps g (Split path) else any_tail (matchComps g) (Split path))
    (glob_selects p path).
Proof.
  intros Hg. pose proof (compiled_parses _ _ Hg) as Hps. unfold glob_selects. destruct (pt_Anchored p).
  - eapply answers_iff; [|by apply match_comps_ok]. split.
    + intros Hm. exists g, [], (Split path). split_and!; try done. apply Split_ne.
    + intros (g' & pre & tail & Hg' & Hs & _ & Hpre & Hm). rewrite Hg in Hg'. simplify_eq.
      rewrite (Hpre eq_refl) in Hs. by rewrite Hs.
  - eapply answers_iff; [|apply any_tail_ok; intros l; by apply (match_comps_ok (length g) g l Hps)]. split.
    + intros (pre & tail & Hs & Ht & Hm). by exists g, pre, tail.
    + intros (g' & pre & tail & Hg' & Hs & Ht & _ & Hm). rewrite Hg in Hg'. simplify_eq. eauto.
Qed.

Lemma plain_answers p path : Forall (fun b => b ∉ metachars) (pt_Text p) ->
  answers (if pt_Anchored p then Some (bool_decide (path = pt_Text p))
           else Some (bool_decide (path = pt_Text p) || HasSuffix path ([slash] ++ pt_Text p)))
    (glob_selects p path).
Proof.
  intros Hg. pose proof (compileGlob_plain _ Hg) as Hc. pose proof (compiled_parses _ _ Hc) as Hps.
  assert (forall tail, path_matches (Split (pt_Text p)) tail <-> tail = Split (pt_Text p)) as Hm.
  { intros tail. apply plain_path; [apply split_loop_plain; [constructor|done]|done]. }
  assert (glob_selects p path <-> exists pre, Split path = pre ++ Split (pt_Text p) /\ (pt_Anchored p = true -> pre = [])) as Hsel.
  { split.
    - intros (g & pre & tail & Hg' & Hs & _ & Hpre & Hmt). rewrite Hc in Hg'. simplify_eq.
      apply Hm in Hmt as ->. eauto.
    - intros (pre & Hs & Hpre). exists (Split (pt_Text p)), pre, (Split (pt_Text p)).
      split_and!; [done|done|apply Split_ne|done|by apply Hm]. }
  eapply answers_iff; [symmetry; exact Hsel|]. destruct (pt_Anchored p); eexists; (split; [done|]).
  - rewrite bool_decide_eq_true. split; [intros ->; by exists []|].
    intros (pre & Hs & Hpre). rewrite (Hpre eq_refl) in Hs. by apply Split_inj.
  - rewrite orb_true_iff, bool_decide_eq_true, <- plain_suffix. split; [intros (pre & Hs); by exists pre|].
    intros (pre & Hs & _). by exists pre.
Qed.

Lemma pattern_answers s p path isDir : ParsePattern s = Ok p ->
  answers (Pattern_Match p path isDir) (selects p path isDir).
Proof.
  intros H. apply ParsePattern_inv in H as (_ & _ & _ & Hg). unfold Pattern_Match, selects.
  destruct (pt_DirOnly p), isDir; cbn [andb negb]; try (apply answers_false; by intros [H _]; discriminate (H eq_refl)).
  all: destruct (decide (path = [])) as [->|Hne]; [apply answers_false; by intros (_ & ? & _)|].
  all: eapply answers_iff; [|destruct (pt_g p); [by apply compiled_answers|by apply plain_answers]].
  all: split; [by intros Hs; split; [|split]|by intros (_ & _ & ?)].
Qed.

(* ------------------------------------------------------------------ *)
(** ** Properties *)

(** C30: A parsed pattern matches without index panics, and exactly the paths
    its glob denotes: literal comparison agrees with the glob semantics, the
    runes, classes and gaps of the compiled glob are those of its syntax,
    and anchoring and directory-only restrict it. *)
Theorem Pattern_Match_spec s p path isDir :
  ParsePattern s = Ok p ->
  exists b, Pattern_Match p path isDir = Some b /\ (b = true <-> selects p path isDir).
Proof. apply pattern_answers. Qed.

Lemma ParsePatterns_all ss l : ParsePatterns ss = Ok l -> Forall2 (fun s p => ParsePattern s = Ok p) ss l.
Proof.
  revert l. induction ss as [|s ss IH]; intros l H; cbn [ParsePatterns] in H; [simplify_eq; constructor|].
  destruct (ParsePattern s) as [p|] eqn:E; [|done]. destruct (ParsePatterns ss) as [l'|]; [|done].
  unfold mret, result_ret, mbind, result_bind in H. simplify_eq. constructor; auto.
Qed.

(** In a pattern list the last pattern that selects an entry decides, an
    include keeping it and an exclude dropping it; with none the entry stays. *)
Theorem last_match_wins ss l path isDir :
  ParsePatterns ss = Ok l ->
  (PatternList_Match l path isDir = Some (MatchExclude, false) /\ Forall (fun p => ~ selects p path isDir) l) \/
  exists l1 p l2, l = l1 ++ p :: l2 /\ selects p path isDir /\ Forall (fun p => ~ selects p path isDir) l2 /\
    PatternList_Match l path isDir = Some (if pt_Include p then MatchInclude else MatchExclude, true).
Proof.
  intros H. apply ParsePatterns_all in H.
  assert (Forall (fun p => answers (Pattern_Match p path isDir) (selects p path isDir)) l) as Hl.
  { induction H; constructor; [|done]. by eapply pattern_answers. }
  clear H ss. unfold PatternList_Match. induction l as [|p l IH] using rev_ind; [left; split; [done|constructor]|].
  rewrite rev_app_distr. cbn [rev app match_rev]. apply Forall_app in Hl as [Hl Hp].
  apply Forall_cons_1 in Hp as [(b & -> & Hb) _]. cbn [mbind option_bind]. destruct b.
  - right. exists l, p, []. split_and!; [done|by apply Hb|constructor|done].
  - assert (~ selects p path isDir) as Hns by (intros Hs; by apply Hb in Hs).
    destruct (IH Hl) as [[-> Hn]|(l1 & q & l2 & -> & Hs & Hn & ->)].
    + left. split; [done|]. apply Forall_app. by repeat constructor.
    + right. exists l1, q, (l2 ++ [p]). rewrite <- app_assoc. split_and!; [done|done| |done].
      apply Forall_app. by repeat constructor.
Qed.

(** Splitting a text at its newlines. *)
Fixpoint lines (cur s : bytes) : list bytes :=
  match s with
  | [] => match cur with [] => [] | _ => [cur] end
  | b :: s => if decide (b = newline) then cur :: lines [] s else lines (cur ++ [b]) s
  end.

Lemma lines_app cur s rest : newline ∉ s -> lines cur (s ++ newline :: rest) = (cur ++ s) :: lines [] rest.
Proof.
  revert cur. induction s as [|b s IH]; intros cur Hs; cbn [app lines]; [by rewrite decide_True, app_nil_r|].
  apply not_elem_of_cons in Hs as [Hb Hs]. rewrite decide_False by done. rewrite IH by done. by rewrite <- app_assoc.
Qed.

Lemma foldl_lines acc l : foldl (fun b p => b ++ Pattern_String p ++ [newline]) acc l =
  acc ++ concat (map (fun p => Pattern_String p ++ [newline]) l).
Proof.
  revert acc. induction l as [|p l IH]; intros acc; cbn [foldl map concat]; [by rewrite app_nil_r|].
  by rewrite IH, <- app_assoc.
Qed.

Lemma no_newline p : Forall (fun b => b ∉ [nul; newline]) (pt_Text p) -> newline ∉ Pattern_String p.
Proof.
  intros Hn. unfold Pattern_String. rewrite !not_elem_of_app. split_and!.
  - destruct (pt_Include p); [by apply not_elem_of_cons; split; [|apply not_elem_of_nil]|apply not_elem_of_nil].
  - destruct (pt_Anchored p); [by apply not_elem_of_cons; split; [|apply not_elem_of_nil]|apply not_elem_of_nil].
  - intros Hin. rewrite Forall_forall in Hn. apply Hn in Hin. apply Hin. right. left.
  - destruct (pt_DirOnly p); [by apply not_elem_of_cons; split; [|apply not_elem_of_nil]|apply not_elem_of_nil].
Qed.

(** Printing a parsed pattern gives its source back, so the recorded
    pattern list, split at its newlines, parses to the same list. *)
Theorem patterns_roundtrip ss l :
  ParsePatterns ss = Ok l ->
  map Pattern_String l = ss /\ lines [] (PatternList_String l) = ss /\
  ParsePatterns (lines [] (PatternList_String l)) = Ok l.
Proof.
  intros H. pose proof (ParsePatterns_all _ _ H) as Hall.
  assert (map Pattern_String l = ss) as Hm.
  { clear H. induction Hall as [|s p ss l Hp Hall IH]; [done|]. cbn [map]. rewrite IH. f_equal.
    by apply ParsePattern_inv in Hp as [Hp _]. }
  assert (lines [] (PatternList_String l) = ss) as Hlines; [|by rewrite Hlines].
  unfold PatternList_String. rewrite foldl_lines. clear H Hm. cbn [app].
  induction Hall as [|s p ss l Hp Hall IH]; [done|]. cbn [map concat].
  apply ParsePattern_inv in Hp as (<- & _ & Hn & _). rewrite <- app_assoc. cbn [app].
  rewrite lines_app; [by rewrite IH|]. by apply no_newline.
Qed.

(* ------------------------------------------------------------------ *)
(** ** Witnesses *)

Definition sample_pattern : Pattern :=
  Eval vm_compute in match ParsePattern (lit "a/**/[^b-d]?*.tmp") with
                     | Ok p => p | Err _ => mkPattern [] false false false None end.

Lemma Pattern_Match_spec_witness :
  exists b, Pattern_Match sample_pattern (lit "z/a/q/rxyz.tmp") false = Some b /\
    (b = true <-> selects sample_pattern (lit "z/a/q/rxyz.tmp") false).
Proof. exact (Pattern_Match_spec (lit "a/**/[^b-d]?*.tmp") sample_pattern _ _ eq_refl). Defined.

Definition sample_sources : list bytes := [lit "*.tmp"; lit "!/keep.tmp"; lit "cache/"].
Definition sample_patterns : list Pattern :=
  Eval vm_compute in match ParsePatterns sample_sources with Ok l => l | Err _ => [] end.

Lemma last_match_wins_witness :
  (PatternList_Match sample_patterns (lit "keep.tmp") false = Some (MatchExclude, false) /\
   Forall (fun p => ~ selects p (lit "keep.tmp") false) sample_patterns) \/
  exists l1 p l2, sample_patterns = l1 ++ p :: l2 /\ selects p (lit "keep.tmp") false /\
    Forall (fun p => ~ selects p (lit "keep.tmp") false) l2 /\
    PatternList_Match sample_patterns (lit "keep.tmp") false =
      Some (if pt_Include p then MatchInclude else MatchExclude, true).
Proof. exact (last_match_wins sample_sources sample_patterns (lit "keep.tmp") false eq_refl). Defined.

Lemma patterns_roundtrip_witness :
  map Pattern_String sample_patterns = sample_sources /\
  lines [] (PatternList_String sample_patterns) = sample_sources /\
  ParsePatterns (lines [] (PatternList_String sample_patterns)) = Ok sample_patterns.
Proof. exact (patterns_roundtrip sample_sources sample_patterns eq_refl). Defined.
