(* ===== verification/Previous.v ===== *)
(** * Metadata change detection

    Models archive/previous.go: the previous snapshot's file table and chunk
    layout, and the plan that decides per file whether its content is read or
    referenced; the plans it makes are those the payload stream and the
    references of Refs.v are proved for. *)

From S2P Require Import Prelude Format Io Tree Payload Reuse Refs Emit Reader.
From stdpp Require Import sorting.
From Stdlib Require Import Floats.SpecFloat.
Local Open Scope Z_scope.

(* ------------------------------------------------------------------ *)
(** ** Floating point: IEEE binary64 *)

Abbreviation float64 := spec_float.
(** The conversion of a [uint64], rounded to nearest even. *)
Definition float64_of (z : Z) : float64 := binary_normalize 53 1024 z 0 false.

(** 0.1 *)
Definition DefaultPaddingThreshold : float64 := S754_finite false 7205759403792794 (-56).

(* ------------------------------------------------------------------ *)
(** ** The previous snapshot *)

Record PayloadChunk := mkPayloadChunk { pc_EndOffset : Z; pc_Digest : bytes }.
Record prevFile := mkPrevFile { pf_meta : bytes; pf_size : Z; pf_offset : Z }.
Record Previous := mkPrevious { p_files : gmap bytes prevFile; p_chunks : list PayloadChunk }.

Inductive prev_error := ErrPrevMetadata (e : rerror) | ErrPrevVersion (v : Z) | ErrNotAscending (i : nat).

Definition record_files (fs : list MetaFile) : gmap bytes prevFile :=
  foldl (fun m f => <[mf_Path f := mkPrevFile (mf_Meta f) (mf_Size f) (mf_PayloadOffset f)]> m) ∅ fs.

(** [for i := 1; i < len(chunks); i++]. *)
Fixpoint check_ascending (i : nat) (prev : Z) (chunks : list PayloadChunk) : result prev_error unit :=
  match chunks with
  | [] => Ok ()
  | c :: chunks =>
      if pc_EndOffset c <=? prev then Err (ErrNotAscending i)
      else check_ascending (S i) (pc_EndOffset c) chunks
  end.

Definition LoadPrevious (meta : reader) (chunks : list PayloadChunk) : result prev_error Previous :=
  match DecodeMetadata meta with
  | (_, Err e) => Err (ErrPrevMetadata e)
  | (fs, Ok version) =>
      if negb (version =? 2) then Err (ErrPrevVersion version) else
      match chunks with
      | [] => Ok (mkPrevious (record_files fs) chunks)
      | c :: rest => _ ← check_ascending 1 (pc_EndOffset c) rest; Ok (mkPrevious (record_files fs) chunks)
      end
  end.

Definition Files (p : Previous) : nat := size (p_files p).

Definition end_at (chunks : list PayloadChunk) (i : nat) : Z :=
  match chunks !! i with Some c => pc_EndOffset c | None => 0 end.

(** The loop over [p.chunks[first:]]. *)
Fixpoint cover (prevEnd stop : Z) (chunks : list PayloadChunk) : list Chunk * Z :=
  match chunks with
  | [] => ([], prevEnd)
  | c :: chunks =>
      let ck := mkChunk (pc_Digest c) (u64 (pc_EndOffset c - prevEnd)) in
      if stop <=? pc_EndOffset c then ([ck], pc_EndOffset c)
      else let '(cs, e) := cover (pc_EndOffset c) stop chunks in (ck :: cs, e)
  end.

(** [chunksFor(start, end)]: the chunks and the span they cover. *)
Definition chunksFor (p : Previous) (start stop : Z) : option (list Chunk * Z * Z) :=
  let n := length (p_chunks p) in
  if (stop <=? start) || bool_decide (n = 0)%nat || (end_at (p_chunks p) (n - 1) <? stop) then None else
  let first := Search n (fun i => start <? end_at (p_chunks p) i) in
  let prevEnd := if bool_decide (0 < first)%nat then end_at (p_chunks p) (first - 1) else 0 in
  let '(cs, cEnd) := cover prevEnd stop (drop first (p_chunks p)) in
  Some (cs, prevEnd, cEnd).

(* ------------------------------------------------------------------ *)
(** ** Collecting payloads *)

Fixpoint collectPayloadPaths (n : node) (apath : bytes) : list (node * bytes) :=
  match n_Kind n with
  | KindFile | KindStream => [(n, apath)]
  | KindDirectory =>
      (fix children (cs : list node) : list (node * bytes) :=
         match cs with
         | [] => []
         | c :: cs => collectPayloadPaths c (joinArchive apath (n_Name c)) ++ children cs
         end) (n_Children n)
  | _ => []
  end.

(* ------------------------------------------------------------------ *)
(** ** The plan *)

Record ReuseStats := mkStats {
  rs_Files : Z; rs_ReusedFiles : Z; rs_ReusedBytes : Z; rs_InjectedBytes : Z; rs_RejectedRuns : Z }.

(** [unchanged(i)]. *)
Definition unchanged_file (prev : Previous) (x : node * bytes) : option prevFile :=
  let '(n, path) := x in
  match n_Kind n with
  | KindFile | KindStream =>
      match p_files prev !! path with
      | Some pf =>
          if negb (pf_size pf =? u64 (st_Size (n_Stat n))) then None
          else if bool_decide (metadataBytes [] n = pf_meta pf) then Some pf else None
      | None => None
      end
  | _ => None
  end.

(** The run loop: the unchanged nodes after [last] with ascending offsets, and
    the rest. *)
Fixpoint extend_run (prev : Previous) (last : prevFile) (xs : list (node * bytes)) :
    list (node * prevFile) * list (node * bytes) :=
  match xs with
  | [] => ([], [])
  | x :: xs' =>
      match unchanged_file prev x with
      | Some next =>
          if pf_offset next <=? pf_offset last then ([], xs)
          else let '(run, rest) := extend_run prev next xs' in ((x.1, next) :: run, rest)
      | None => ([], xs)
      end
  end.

(** [markRead] of consecutive nodes, [k] being [len(read)]. *)
Fixpoint mark_read (k : nat) (ns : list node) : list payloadPlan :=
  match ns with
  | [] => []
  | n :: ns => mkPlan n false 0 0 [] false 0 k :: mark_read (S k) ns
  end.

(** The entries of a reused run: the first carries the chunks, the last the
    span's size. *)
Fixpoint mark_reused (cStart total : Z) (chunks : list Chunk) (run : list (node * prevFile)) : list payloadPlan :=
  match run with
  | [] => []
  | (n, f) :: run =>
      let last := bool_decide (run = []) in
      mkPlan n true (u64 (pf_offset f - cStart)) (pf_size f) chunks last (if last then total else 0) 0
        :: mark_reused cStart total [] run
  end.

Definition run_used (run : list (node * prevFile)) : Z :=
  foldl (fun used x => u64 (used + u64 (HeaderSize + pf_size x.2))) 0 run.
Definition run_bytes (b : Z) (run : list (node * prevFile)) : Z :=
  foldl (fun b x => u64 (b + pf_size x.2)) b run.

(** Whether the span of a run carries at most [threshold] padding. *)
Definition accepts (threshold : float64) (used cStart cEnd : Z) : bool :=
  let total := u64 (cEnd - cStart) in
  negb (total <? used) &&
  negb (SFltb threshold (SFdiv 53 1024 (float64_of (u64 (total - used))) (float64_of total))).

(** What [planReuse] builds up. *)
Record planning := mkPlanning { pg_plan : list payloadPlan; pg_read : list node; pg_stats : ReuseStats }.

(** [markRead] of the nodes [ns]. *)
Definition add_read (ns : list node) (g : planning) : planning :=
  mkPlanning (pg_plan g ++ mark_read (length (pg_read g)) ns) (pg_read g ++ ns) (pg_stats g).

Definition add_rejected (g : planning) : planning :=
  let st := pg_stats g in
  mkPlanning (pg_plan g) (pg_read g)
    (mkStats (rs_Files st) (rs_ReusedFiles st) (rs_ReusedBytes st) (rs_InjectedBytes st) (rs_RejectedRuns st + 1)).

Definition add_reused (cStart cEnd : Z) (chunks : list Chunk) (run : list (node * prevFile)) (g : planning) : planning :=
  let total := u64 (cEnd - cStart) in
  let st := pg_stats g in
  mkPlanning (pg_plan g ++ mark_reused cStart total chunks run) (pg_read g)
    (mkStats (rs_Files st) (rs_ReusedFiles st + Z.of_nat (length run)) (run_bytes (rs_ReusedBytes st) run)
       (u64 (rs_InjectedBytes st + total)) (rs_RejectedRuns st)).

(** The end of a run's last record. *)
Definition run_end (pf : prevFile) (more : list (node * prevFile)) : Z :=
  let f := match last more with Some y => y.2 | None => pf end in
  u64 (u64 (pf_offset f + HeaderSize) + pf_size f).

(** The loop of [planReuse]; every round takes a node. *)
Fixpoint plan_loop (fuel : nat) (prev : Previous) (threshold : float64)
    (xs : list (node * bytes)) (g : planning) : planning :=
  match fuel, xs with
  | S fuel, x :: xs' =>
      match unchanged_file prev x with
      | None => plan_loop fuel prev threshold xs' (add_read [x.1] g)
      | Some pf =>
          let '(more, rest) := extend_run prev pf xs' in
          let run := (x.1, pf) :: more in
          let g :=
            match chunksFor prev (pf_offset pf) (run_end pf more) with
            | Some (chunks, cStart, cEnd) =>
                if accepts threshold (run_used run) cStart cEnd
                then add_reused cStart cEnd chunks run g
                else add_read (run.*1) (add_rejected g)
            | None => add_read (run.*1) g
            end in
          plan_loop fuel prev threshold rest g
      end
  | _, _ => g
  end.

(** [planReuse]: the plan, the nodes to read and the statistics. *)
Definition planReuse (xs : list (node * bytes)) (prev : option Previous) (threshold : float64) : planning :=
  let g := mkPlanning [] [] (mkStats (Z.of_nat (length xs)) 0 0 0 0) in
  match prev with
  | None => add_read (xs.*1) g
  | Some prev =>
      let threshold := if SFleb threshold (S754_zero false) then DefaultPaddingThreshold else threshold in
      plan_loop (length xs) prev threshold xs g
  end.

(* ------------------------------------------------------------------ *)
(** ** Lemmas: the chunk layout *)

(** Chunk ends that do not descend from [prev]; [check_ascending] is strict. *)
Fixpoint layout (prev : Z) (chunks : list PayloadChunk) : Prop :=
  match chunks with
  | [] => True
  | c :: chunks => prev <= pc_EndOffset c < 2 ^ 64 /\ layout (pc_EndOffset c) chunks
  end.

Lemma check_ascending_layout i prev chunks :
  check_ascending i prev chunks = Ok () -> Forall (fun c => is_u64 (pc_EndOffset c)) chunks -> layout prev chunks.
Proof.
  revert i prev. induction chunks as [|c chunks IH]; intros i prev H Hu; cbn [check_ascending layout] in *; [done|].
  apply Forall_cons_1 in Hu as [Hc Hu]. unfold is_u64 in Hc.
  destruct (Z.leb_spec (pc_EndOffset c) prev); [done|]. split; [lia|]. eauto.
Qed.

(** The chunks of the index [chunks] as slices of the stream [P]. *)
Fixpoint indexed (store : bytes -> bytes) (prev : Z) (chunks : list PayloadChunk) (P : bytes) : Prop :=
  match chunks with
  | [] => True
  | c :: chunks =>
      store (pc_Digest c) = take (Z.to_nat (pc_EndOffset c - prev)) (drop (Z.to_nat prev) P) /\
      pc_EndOffset c <= zlen P /\ indexed store (pc_EndOffset c) chunks P
  end.

(** The bytes injected chunks stand for. *)
Definition span_bytes (store : bytes -> bytes) (cs : list Chunk) : bytes := cs ≫= fun c => store (c_Digest c).

Definition prev_end (prev : Z) (chunks : list PayloadChunk) (k : nat) : Z :=
  match k with O => prev | S k => end_at chunks k end.

Lemma layout_drop store P k prev chunks : (k <= length chunks)%nat -> layout prev chunks -> indexed store prev chunks P ->
  layout (prev_end prev chunks k) (drop k chunks) /\ indexed store (prev_end prev chunks k) (drop k chunks) P /\
  prev <= prev_end prev chunks k.
Proof.
  revert prev chunks. induction k as [|k IH]; intros prev chunks Hk Hl Hi; [split_and!; [done|done|cbn; lia]|].
  destruct chunks as [|c chunks]; [cbn in Hk; lia|]. destruct Hl as [Hc Hl]. destruct Hi as (_ & _ & Hi).
  destruct (IH (pc_EndOffset c) chunks) as (H1 & H2 & H3); [cbn in Hk; lia|done|done|].
  assert (prev_end prev (c :: chunks) (S k) = prev_end (pc_EndOffset c) chunks k) as -> by (by destruct k).
  cbn [drop]. split_and!; [done|done|lia].
Qed.

Lemma layout_le prev chunks i c : layout prev chunks -> chunks !! i = Some c -> prev <= pc_EndOffset c.
Proof.
  revert prev i. induction chunks as [|d chunks IH]; intros prev i Hl Hi; [done|]. destruct Hl as [Hd Hl].
  destruct i as [|i]; cbn in Hi; simplify_eq; [lia|]. specialize (IH _ _ Hl Hi). lia.
Qed.

Lemma layout_mono prev chunks i j : layout prev chunks -> (i <= j < length chunks)%nat ->
  end_at chunks i <= end_at chunks j.
Proof.
  revert prev i j. induction chunks as [|d chunks IH]; intros prev i j Hl Hij; [cbn in Hij; lia|].
  destruct Hl as [Hd Hl]. cbn [length] in Hij. destruct j as [|j]; [by replace i with 0%nat by lia|]. destruct i as [|i].
  - unfold end_at. cbn. destruct (chunks !! j) as [c|] eqn:E; [by eapply layout_le|].
    apply lookup_ge_None in E. lia.
  - apply (IH _ i j Hl). lia.
Qed.

Lemma cover_ok store P prev stop chunks :
  0 <= prev < stop -> layout prev chunks -> indexed store prev chunks P ->
  (exists i, (i < length chunks)%nat /\ stop <= end_at chunks i) ->
  let '(cs, e) := cover prev stop chunks in
  stop <= e < 2 ^ 64 /\ e <= zlen P /\ cs <> [] /\ chunk_span cs = e - prev /\
  span_bytes store cs = take (Z.to_nat (e - prev)) (drop (Z.to_nat prev) P).
Proof.
  revert prev. induction chunks as [|c chunks IH]; intros prev Hp Hl Hi (i & Hi1 & Hi2); [cbn in Hi1; lia|].
  destruct Hl as [Hc Hl]. destruct Hi as (Hst & Hle & Hi). cbn [cover].
  destruct (Z.leb_spec stop (pc_EndOffset c)) as [Hs|Hs].
  - split_and!; [lia|lia|done|done| |].
    + cbn [chunk_span foldr c_Size]. rewrite u64_small by (unfold is_u64; lia). lia.
    + unfold span_bytes. cbn. by rewrite app_nil_r.
  - destruct i as [|i]; [cbn in Hi2; lia|]. specialize (IH (pc_EndOffset c)).
    destruct (cover (pc_EndOffset c) stop chunks) as [cs e].
    destruct IH as (H1 & H2 & H3 & H4 & H5); [lia|done|done|exists i; split; [cbn in Hi1; lia|done]|].
    split_and!; [lia|lia|done|done| |].
    + cbn [chunk_span foldr c_Size] in *. rewrite u64_small by (unfold is_u64; lia). fold (chunk_span cs). lia.
    + unfold span_bytes in *. rewrite list_bind_cons, H5. cbn [c_Digest]. rewrite Hst.
      replace (Z.to_nat (e - prev)) with (Z.to_nat (pc_EndOffset c - prev) + Z.to_nat (e - pc_EndOffset c))%nat by lia.
      rewrite <- take_take_drop, drop_drop. do 3 f_equal. lia.
Qed.

(** The chunks found for a range: a slice of the previous stream around it. *)
Lemma chunksFor_ok store P p start stop cs cStart cEnd :
  layout 0 (p_chunks p) -> indexed store 0 (p_chunks p) P -> 0 <= start ->
  chunksFor p start stop = Some (cs, cStart, cEnd) ->
  0 <= cStart <= start /\ start < stop <= cEnd /\ cEnd < 2 ^ 64 /\ cEnd <= zlen P /\ cs <> [] /\
  chunk_span cs = cEnd - cStart /\
  span_bytes store cs = take (Z.to_nat (cEnd - cStart)) (drop (Z.to_nat cStart) P).
Proof.
  intros Hl Hi Hs. unfold chunksFor. set (chunks := p_chunks p) in *. cbv zeta.
  destruct (Z.leb_spec stop start) as [|Hss]; [done|]. cbn [orb].
  case_bool_decide as Hn; [done|]. cbn [orb].
  destruct (Z.ltb_spec (end_at chunks (length chunks - 1)) stop) as [|Hend]; [done|].
  set (f := fun i => start <? end_at chunks i).
  set (k := Search (length chunks) f).
  assert ((k <= length chunks - 1)%nat /\ (forall a, (a < k)%nat -> f a = false)) as [Hk Hf].
  { assert (forall a b, (a <= b)%nat -> (b < length chunks)%nat -> f a = true -> f b = true) as Hm.
    { intros a b Hab Hb. unfold f. pose proof (layout_mono 0 chunks a b Hl ltac:(lia)). lia. }
    destruct (Search_spec (length chunks) f) as (H1 & H2 & H3); [intros a b Hab; apply Hm; lia|]. fold k in H1, H2, H3.
    split; [|exact H2]. destruct (decide (k <= length chunks - 1)%nat); [done|].
    specialize (H2 (length chunks - 1)%nat ltac:(lia)). unfold f in H2. lia. }
  assert ((if bool_decide (0 < k)%nat then end_at chunks (k - 1) else 0) = prev_end 0 chunks k) as ->.
  { destruct k as [|k']; [done|]. cbn [prev_end]. by rewrite Nat.sub_1_r. }
  destruct (layout_drop store P k 0 chunks) as (Hl' & Hi' & H0); [lia|done|done|].
  assert (prev_end 0 chunks k <= start) as Hps.
  { destruct k as [|k']; [cbn; lia|]. cbn [prev_end]. specialize (Hf k' ltac:(lia)). unfold f in Hf. lia. }
  pose proof (cover_ok store P (prev_end 0 chunks k) stop (drop k chunks) ltac:(lia) Hl' Hi') as Hc.
  destruct (cover _ _ _) as [cs' e']. intros [= <- <- <-].
  destruct Hc as (H1 & H2 & H3 & H4 & H5).
  { exists (length chunks - 1 - k)%nat. rewrite length_drop. split; [lia|]. unfold end_at in *.
    rewrite lookup_drop. by replace (k + (length chunks - 1 - k))%nat with (length chunks - 1)%nat by lia. }
  split_and!; try done; lia.
Qed.

(* ------------------------------------------------------------------ *)
(** ** Lemmas: plans *)

Fixpoint run_after (cur : list Chunk) (plan : list payloadPlan) : list Chunk :=
  match plan with
  | [] => cur
  | p :: plan =>
      if pp_reuse p then
        let cur := if decide (pp_inject p = []) then cur else pp_inject p in
        run_after (if pp_runEnd p then [] else cur) plan
      else run_after [] plan
  end.

Lemma with_runs_app cur a b : with_runs cur (a ++ b) = with_runs cur a ++ with_runs (run_after cur a) b.
Proof.
  revert cur. induction a as [|p a IH]; intros cur; cbn [app with_runs run_after]; [done|].
  destruct (pp_reuse p); cbn [app]; by rewrite IH.
Qed.
Lemma run_after_app cur a b : run_after cur (a ++ b) = run_after (run_after cur a) b.
Proof.
  revert cur. induction a as [|p a IH]; intros cur; cbn [app run_after]; [done|]. destruct (pp_reuse p); by rewrite IH.
Qed.
Lemma plan_wf_app open a b : plan_wf open a -> plan_wf 0 b -> plan_wf open (a ++ b).
Proof.
  revert open. induction a as [|p a IH]; intros open Ha Hb; cbn [app plan_wf] in *; [by subst|].
  destruct (pp_reuse p); [|naive_solver]. destruct Ha as [H1 H2]. split; [done|].
  destruct (pp_runEnd p); [naive_solver|auto].
Qed.
Lemma plan_numbered_app k a b :
  plan_numbered k a -> plan_numbered (k + length (filter (fun p => pp_reuse p = false) a)) b -> plan_numbered k (a ++ b).
Proof.
  revert k. induction a as [|p a IH]; intros k Ha Hb; cbn [app plan_numbered] in *; [by rewrite Nat.add_0_r in Hb|].
  rewrite filter_cons in Hb. destruct (pp_reuse p).
  - rewrite decide_False in Hb by done. auto.
  - rewrite decide_True in Hb by done. cbn [length] in Hb. destruct Ha. split; [done|]. apply IH; [done|].
    by rewrite Nat.add_succ_comm.
Qed.

Section plans.
Context (store : bytes -> bytes) (P : bytes) (prev : Previous).

(** A previous snapshot whose index describes the payload stream [P] and whose
    files' records lie in it without overlapping. *)
Record prev_wf : Prop := {
  pw_layout : layout 0 (p_chunks prev);
  pw_indexed : indexed store 0 (p_chunks prev) P;
  pw_length : zlen P < 2 ^ 64;
  pw_records path f : p_files prev !! path = Some f ->
    0 <= pf_offset f /\ 0 <= pf_size f /\ pf_offset f + HeaderSize + pf_size f <= zlen P;
  pw_disjoint path1 f path2 g : p_files prev !! path1 = Some f -> p_files prev !! path2 = Some g ->
    pf_offset f < pf_offset g -> pf_offset f + HeaderSize + pf_size f <= pf_offset g }.

(** The record of a file in the previous payload stream. *)
Definition old_record (f : prevFile) : bytes :=
  take (Z.to_nat (HeaderSize + pf_size f)) (drop (Z.to_nat (pf_offset f)) P).

(** What the plan says of a payload: a reused one is unchanged in metadata
    and size, and its record lies at its distance in the injected span. *)
Definition planned (x : node * bytes) (y : payloadPlan * list Chunk) : Prop :=
  pp_node y.1 = x.1 /\
  (pp_reuse y.1 = true -> exists f a b,
     p_files prev !! x.2 = Some f /\ metadataBytes [] x.1 = pf_meta f /\ pf_size f = u64 (st_Size (n_Stat x.1)) /\
     pp_size y.1 = pf_size f /\ y.2 <> [] /\
     span_bytes store y.2 = a ++ old_record f ++ b /\ pp_rel y.1 = zlen a).

Record plan_ok (xs : list (node * bytes)) (g : planning) : Prop := {
  po_wf : plan_wf 0 (pg_plan g);
  po_numbered : plan_numbered 0 (pg_plan g);
  po_closed : run_after [] (pg_plan g) = [];
  po_planned : Forall2 planned xs (with_runs [] (pg_plan g));
  po_read : pg_read g = pp_node <$> filter (fun p => pp_reuse p = false) (pg_plan g);
  po_spans : Forall (fun p => zlen (span_bytes store (pp_inject p)) = chunk_span (pp_inject p)) (pg_plan g) }.

(** One more segment of a plan. *)
Lemma plan_ok_app xs ys g seg reads st :
  plan_ok xs g -> plan_wf 0 seg -> plan_numbered (length (pg_read g)) seg -> run_after [] seg = [] ->
  Forall2 planned ys (with_runs [] seg) -> reads = pp_node <$> filter (fun p => pp_reuse p = false) seg ->
  Forall (fun p => zlen (span_bytes store (pp_inject p)) = chunk_span (pp_inject p)) seg ->
  plan_ok (xs ++ ys) (mkPlanning (pg_plan g ++ seg) (pg_read g ++ reads) st).
Proof.
  intros [H1 H2 H3 H4 H5 H6] S1 S2 S3 S4 S5 S6. constructor; cbn [pg_plan pg_read].
  - by apply plan_wf_app.
  - apply plan_numbered_app; [done|]. rewrite H5, length_fmap in S2. done.
  - by rewrite run_after_app, H3.
  - rewrite with_runs_app, H3. by apply Forall2_app.
  - by rewrite filter_app, fmap_app, <- H5, S5.
  - by apply Forall_app.
Qed.

Lemma mark_read_ok k ns :
  plan_wf 0 (mark_read k ns) /\ plan_numbered k (mark_read k ns) /\ run_after [] (mark_read k ns) = [] /\
  pp_node <$> filter (fun p => pp_reuse p = false) (mark_read k ns) = ns /\
  Forall (fun p => pp_reuse p = false /\ pp_inject p = []) (mark_read k ns) /\
  with_runs [] (mark_read k ns) = (fun p => (p, [])) <$> mark_read k ns /\ pp_node <$> mark_read k ns = ns.
Proof.
  revert k. induction ns as [|n ns IH]; intros k; cbn [mark_read plan_wf plan_numbered run_after pp_reuse]; [by split_and!|].
  destruct (IH (S k)) as (H1 & H2 & H3 & H4 & H5 & H6 & H7). split_and!; try done.
  - rewrite filter_cons, decide_True by done. cbn. by rewrite H4.
  - by constructor.
  - cbn [with_runs pp_reuse]. by rewrite H6.
  - cbn. by rewrite H7.
Qed.

Lemma add_read_ok xs ys g : plan_ok xs g -> plan_ok (xs ++ ys) (add_read (ys.*1) g).
Proof.
  intros Hg. destruct (mark_read_ok (length (pg_read g)) (ys.*1)) as (H1 & H2 & H3 & H4 & H5 & H6 & H7).
  apply plan_ok_app; try done.
  - rewrite H6. clear -H5 H7. remember (mark_read _ _) as l eqn:E. clear E.
    revert ys H7. induction H5 as [|p l [Hp _] Hl IH]; intros [|y ys] H7; try done; cbn in *; simplify_eq.
    constructor; [split; [done|cbn [fst]; congruence]|auto].
  - eapply Forall_impl; [exact H5|]. cbn. intros p [_ ->]. done.
Qed.

(** A run in its span: files in ascending order, each inside it. *)
Definition in_span (cStart cEnd : Z) (f : prevFile) : Prop :=
  cStart <= pf_offset f /\ 0 <= pf_size f /\ pf_offset f + HeaderSize + pf_size f <= cEnd.

Lemma span_slice cStart cEnd cs f : 0 <= cStart -> cEnd <= zlen P ->
  span_bytes store cs = take (Z.to_nat (cEnd - cStart)) (drop (Z.to_nat cStart) P) -> in_span cStart cEnd f ->
  exists a b, span_bytes store cs = a ++ old_record f ++ b /\ zlen a = pf_offset f - cStart.
Proof.
  intros H0 HP Hs (H1 & H2 & H3). unfold HeaderSize in *.
  set (d := Z.to_nat (pf_offset f - cStart)). set (n := Z.to_nat (16 + pf_size f)).
  exists (take d (span_bytes store cs)), (drop n (drop d (span_bytes store cs))).
  assert (old_record f = take n (drop d (span_bytes store cs))) as ->.
  { unfold old_record. rewrite Hs, skipn_firstn_comm, drop_drop, take_take. fold n. 
    replace (n `min` (Z.to_nat (cEnd - cStart) - d))%nat with n by lia. do 2 f_equal. lia. }
  rewrite !take_drop. split; [done|]. rewrite length_take, Hs, length_take, length_drop. lia.
Qed.

Lemma mark_reused_ok cStart cEnd cs total xs run : forall cur,
  0 <= cStart < cEnd -> cEnd < 2 ^ 64 -> cEnd <= zlen P ->
  let span := if decide (cs = []) then cur else cs in
  span <> [] -> total = chunk_span span ->
  span_bytes store span = take (Z.to_nat (cEnd - cStart)) (drop (Z.to_nat cStart) P) ->
  Forall2 (fun x y => y.1 = x.1 /\ unchanged_file prev x = Some y.2 /\ in_span cStart cEnd y.2) xs run -> run <> [] ->
  let seg := mark_reused cStart total cs run in
  plan_wf (if decide (cs = []) then chunk_span cur else 0) seg /\ (forall k, plan_numbered k seg) /\
  run_after cur seg = [] /\ filter (fun p => pp_reuse p = false) seg = [] /\
  Forall2 planned xs (with_runs cur seg) /\
  Forall (fun p => pp_inject p = [] \/ pp_inject p = cs) seg.
Proof.
  revert cs xs. induction run as [|[n f] run IH]; intros cs xs cur Hc HcE HcP span Hspan Ht Hb Hrun Hne seg; [done|].
  inversion Hrun as [|x y xs' run' (Hn & Hu & Hin) Hrun' E1 E2]; subst.
  assert (planned x (mkPlan n true (u64 (pf_offset f - cStart)) (pf_size f) cs (bool_decide (run = []))
    (if bool_decide (run = []) then chunk_span span else 0) 0, span)) as Hpl.
  { split; [done|]. intros _. destruct (span_slice cStart cEnd span f ltac:(lia) HcP Hb Hin) as (a & b & Hab & Ha).
    exists f, a, b. unfold unchanged_file in Hu. destruct x as [n' path]. cbn [fst snd] in *.
    assert (p_files prev !! path = Some f /\ pf_size f = u64 (st_Size (n_Stat n')) /\ metadataBytes [] n' = pf_meta f)
      as (Hf & Hsz & Hm).
    { destruct (n_Kind n'); try done; destruct (p_files prev !! path) as [pf|]; try done;
        destruct (Z.eqb_spec (pf_size pf) (u64 (st_Size (n_Stat n')))); try done; cbn [negb] in Hu;
        case_bool_decide; by simplify_eq. }
    destruct Hin as (Hi1 & Hi2 & Hi3). unfold HeaderSize in *.
    split_and!; try done. cbn [pp_rel]. rewrite u64_small by (unfold is_u64; lia). lia. }
  subst seg. cbn [mark_reused plan_wf plan_numbered run_after with_runs pp_reuse pp_inject pp_runEnd pp_runTotal] in *.
  fold span. 
  assert ((if decide (cs = []) then chunk_span cur else 0) + chunk_span cs = chunk_span span) as Hopen.
  { subst span. destruct (decide (cs = [])) as [->|]; [cbn [chunk_span foldr]; lia|lia]. }
  case_bool_decide as Hr.
  - subst run. inversion Hrun'; subst. rewrite filter_cons_False by (cbn; discriminate). cbn [mark_reused with_runs].
    split; [split; [|split; [lia|done]]|].
    { destruct (decide (cs = [])); [by left|by right]. }
    split; [done|]. split; [done|]. split; [done|]. split; [constructor; [done|constructor]|].
    constructor; [by right|constructor].
  - destruct (IH [] xs' span Hc HcE HcP) as (H1 & H2 & H3 & H4 & H5 & H6); [done|done|done|done|done|].
    rewrite decide_True in H1 by done. rewrite filter_cons_False by (cbn; discriminate).
    split; [split; [|by rewrite Hopen]|].
    { destruct (decide (cs = [])); [by left|by right]. }
    split; [done|]. split; [done|]. split; [done|]. split; [by constructor|].
    constructor; [by right|]. eapply Forall_impl; [exact H6|]. cbn. intuition.
Qed.

Lemma extend_run_ok lastf xs run rest : extend_run prev lastf xs = (run, rest) ->
  exists ys, xs = ys ++ rest /\ Forall2 (fun x y => y.1 = x.1 /\ unchanged_file prev x = Some y.2) ys run /\
    StronglySorted (fun a b => pf_offset a < pf_offset b) (lastf :: run.*2).
Proof.
  revert lastf run rest. induction xs as [|x xs IH]; intros lastf run rest H; cbn [extend_run] in H.
  { simplify_eq. exists []. split_and!; [done|constructor|by repeat constructor]. }
  destruct (unchanged_file prev x) as [next|] eqn:Hu.
  2: { simplify_eq. exists []. split_and!; [done|constructor|by repeat constructor]. }
  destruct (Z.leb_spec (pf_offset next) (pf_offset lastf)) as [|Hlt].
  { simplify_eq. exists []. split_and!; [done|constructor|by repeat constructor]. }
  destruct (extend_run prev next xs) as [run' rest'] eqn:E. simplify_eq.
  destruct (IH next run' rest E) as (ys & -> & Hf & Hs). exists (x :: ys). split; [done|].
  split; [by constructor|]. cbn. constructor; [exact Hs|]. inversion Hs as [|? ? Hs' Ha]; subst.
  constructor; [done|]. eapply Forall_impl; [exact Ha|]. cbn. lia.
Qed.

Lemma unchanged_recorded x f : unchanged_file prev x = Some f -> p_files prev !! x.2 = Some f.
Proof.
  unfold unchanged_file. destruct x as [n path]. intros Hu. cbn.
  destruct (n_Kind n); try done; destruct (p_files prev !! path) as [pf|]; try done;
    destruct (Z.eqb_spec (pf_size pf) (u64 (st_Size (n_Stat n)))); try done; cbn [negb] in Hu;
    case_bool_decide; by simplify_eq.
Qed.

(** Records of a run before its end. *)
Lemma run_in_span xs pf more : prev_wf ->
  Forall2 (fun x y => y.1 = x.1 /\ unchanged_file prev x = Some y.2) xs more ->
  StronglySorted (fun a b => pf_offset a < pf_offset b) (pf :: more.*2) ->
  (exists path, p_files prev !! path = Some pf) ->
  Forall (in_span (pf_offset pf) (run_end pf more)) (pf :: more.*2).
Proof.
  intros Hw Hm Hs Hp.
  assert (Forall (fun f => exists path, p_files prev !! path = Some f) (pf :: more.*2)) as Hall.
  { constructor; [done|]. clear Hs Hp. induction Hm as [|x y xs more [_ Hu] Hm IH]; [constructor|].
    constructor; [|done]. exists x.2. by apply unchanged_recorded. }
  set (lastf := match last more with Some y => y.2 | None => pf end).
  assert (exists l, pf :: more.*2 = l ++ [lastf]) as [l Hl].
  { unfold lastf. destruct more as [|y more _] using rev_ind; [by exists []|]. rewrite last_snoc.
    exists (pf :: more.*2). by rewrite fmap_app. }
  assert (forall f, f ∈ pf :: more.*2 -> exists path, p_files prev !! path = Some f) as Hmem
    by (by apply Forall_forall).
  destruct (Hmem lastf) as [pl Hpl]; [rewrite Hl; apply elem_of_app; right; left|].
  destruct (pw_records Hw _ _ Hpl) as (L1 & L2 & L3). pose proof (pw_length Hw) as HP.
  assert (run_end pf more = pf_offset lastf + HeaderSize + pf_size lastf) as Hend.
  { unfold run_end. fold lastf. unfold HeaderSize in *.
    rewrite (u64_small (pf_offset lastf + 16)) by (unfold is_u64; lia). apply u64_small. unfold is_u64. lia. }
  rewrite Hend. apply Forall_forall. intros f Hf. destruct (Hmem f Hf) as [path Hpath].
  destruct (pw_records Hw _ _ Hpath) as (F1 & F2 & F3). split_and!; [|done|].
  - apply elem_of_cons in Hf as [->|Hf]; [lia|]. inversion Hs as [|? ? _ Ha]; subst.
    rewrite Forall_forall in Ha. specialize (Ha f Hf). lia.
  - rewrite Hl in Hf, Hs. apply elem_of_app in Hf as [Hf|Hf%list_elem_of_singleton]; [|subst f; lia].
    assert (pf_offset f < pf_offset lastf) as Hlt.
    { clear -Hf Hs. induction l as [|g l IH]; [by apply elem_of_nil in Hf|]. cbn in Hs. inversion Hs as [|? ? Hs' Ha]; subst.
      apply elem_of_cons in Hf as [->|Hf]; [|auto]. rewrite Forall_forall in Ha. apply Ha, elem_of_app. right. left. }
    pose proof (pw_disjoint Hw _ _ _ _ Hpath Hpl Hlt). unfold HeaderSize in *. lia.
Qed.

Lemma add_reused_ok xs ys g pf x more cs cStart cEnd : prev_wf -> plan_ok xs g ->
  unchanged_file prev x = Some pf ->
  Forall2 (fun x y => y.1 = x.1 /\ unchanged_file prev x = Some y.2) ys more ->
  StronglySorted (fun a b => pf_offset a < pf_offset b) (pf :: more.*2) ->
  chunksFor prev (pf_offset pf) (run_end pf more) = Some (cs, cStart, cEnd) ->
  plan_ok (xs ++ x :: ys) (add_reused cStart cEnd cs ((x.1, pf) :: more) g).
Proof.
  intros Hw Hg Hx Hm Hs Hc. pose proof (unchanged_recorded _ _ Hx) as Hp.
  pose proof (run_in_span ys pf more Hw Hm Hs ltac:(eauto)) as Hin.
  destruct (pw_records Hw _ _ Hp) as (P1 & _).
  destruct (chunksFor_ok store P prev _ _ _ _ _ (pw_layout Hw) (pw_indexed Hw) P1 Hc)
    as (C1 & C2 & C3 & C4 & C5 & C6 & C7).
  assert (u64 (cEnd - cStart) = chunk_span cs) as Htot by (rewrite C6; apply u64_small; unfold is_u64; lia).
  destruct (mark_reused_ok cStart cEnd cs (u64 (cEnd - cStart)) (x :: ys) ((x.1, pf) :: more) [])
    as (H1 & H2 & H3 & H4 & H5 & H6); try done; try lia.
  - by rewrite decide_False.
  - by rewrite decide_False.
  - by rewrite decide_False.
  - cbn in Hin. apply Forall_cons_1 in Hin as [Hin0 Hin].
    assert (forall f, in_span (pf_offset pf) (run_end pf more) f -> in_span cStart cEnd f) as Hwid.
    { intros f (I1 & I2 & I3). split_and!; [lia|lia|lia]. }
    constructor; [split; [done|split; [done|by apply Hwid]]|].
    clear -Hm Hin Hwid. revert Hin Hwid. generalize (run_end pf more). intros e Hin Hwid.
    induction Hm as [|y z ys more [E1 E2] Hm IH]; [constructor|].
    cbn in Hin. apply Forall_cons_1 in Hin as [Hi Hin]. constructor; [split; [done|split; [done|by apply Hwid]]|auto].
  - unfold add_reused. replace (pg_read g) with (pg_read g ++ []) by apply app_nil_r. rewrite decide_False in H1 by done.
    apply plan_ok_app; try done; [by rewrite H4|].
    eapply Forall_impl; [exact H6|]. cbn. intros p [->| ->]; [done|].
    rewrite C7, length_take, length_drop, C6. lia.
Qed.

Lemma plan_loop_ok threshold fuel : forall ys xs g, prev_wf -> plan_ok xs g -> (length ys <= fuel)%nat ->
  plan_ok (xs ++ ys) (plan_loop fuel prev threshold ys g).
Proof.
  induction fuel as [|fuel IH]; intros ys xs g Hw Hg Hl.
  { destruct ys; [|cbn in Hl; lia]. by rewrite app_nil_r. }
  destruct ys as [|y ys]; cbn [plan_loop]; [by rewrite app_nil_r|]. cbn [length] in Hl.
  destruct (unchanged_file prev y) as [pf|] eqn:Hu.
  2: { replace (xs ++ y :: ys) with ((xs ++ [y]) ++ ys) by (by rewrite <- app_assoc).
       apply IH; [done|by apply add_read_ok|lia]. }
  destruct (extend_run prev pf ys) as [more rest] eqn:He.
  destruct (extend_run_ok _ _ _ _ He) as (zs & -> & Hm & Hs). rewrite length_app in Hl.
  replace (xs ++ y :: zs ++ rest) with ((xs ++ y :: zs) ++ rest) by (by rewrite <- app_assoc).
  assert (((y.1, pf) :: more).*1 = (y :: zs).*1) as Hfst.
  { cbn. f_equal. clear -Hm. induction Hm as [|a b la lb [E _] Hm IH]; [done|]. cbn. by rewrite E, IH. }
  apply IH; [done| |lia]. rewrite Hfst. clear Hfst.
  destruct (chunksFor prev (pf_offset pf) (run_end pf more)) as [[[cs cStart] cEnd]|] eqn:Hc; [|by apply add_read_ok].
  destruct (accepts _ _ _ _); [by eapply add_reused_ok|].
  apply add_read_ok. destruct Hg. by constructor.
Qed.
End plans.

(* ------------------------------------------------------------------ *)
(** ** The uploaded stream *)

(** The data bytes from [pos] on with the injected spans in their places. *)
Fixpoint splice (store : bytes -> bytes) (pos : nat) (out : bytes) (inj : list (nat * list Chunk)) : bytes :=
  match inj with
  | [] => drop pos out
  | (n, cs) :: inj => take (n - pos) (drop pos out) ++ span_bytes store cs ++ splice store n out inj
  end.
Definition uploaded (store : bytes -> bytes) (out : bytes) (inj : list (nat * list Chunk)) : bytes :=
  splice store 0 out inj.

Section upload.
Context (store : bytes -> bytes) (out : bytes).

(** Injected chunks as long as the index says. *)
Definition sized (inj : list (nat * list Chunk)) : Prop :=
  Forall (fun x => zlen (span_bytes store x.2) = chunk_span x.2) inj.

Lemma splice_at pos inj i n cs : ordered pos inj (length out) -> sized inj -> inj !! i = Some (n, cs) ->
  exists pre post, splice store pos out inj = pre ++ span_bytes store cs ++ post /\
    zlen pre = Z.of_nat n - Z.of_nat pos + injected_total (take i inj).
Proof.
  revert pos i. induction inj as [|[m ds] inj IH]; intros pos i Ho Hs Hi; [done|].
  destruct Ho as [H1 H2]. cbn [fst] in *. pose proof (ordered_le _ _ _ H2) as H3.
  apply Forall_cons_1 in Hs as [Hd Hs]. cbn [snd] in Hd. cbn [splice]. destruct i as [|i]; cbn in Hi.
  - simplify_eq. eexists _, _. split; [reflexivity|]. rewrite length_take, length_drop. cbn. lia.
  - destruct (IH m i H2 Hs Hi) as (pre & post & -> & Hp).
    exists (take (m - pos) (drop pos out) ++ span_bytes store ds ++ pre), post. rewrite <- !app_assoc. split; [done|].
    rewrite !length_app, length_take, length_drop. cbn [take injected_total foldr snd].
    change (foldr _ 0 (take i inj)) with (injected_total (take i inj)). lia.
Qed.

Lemma injected_before_later a inj lo : ordered lo inj (length out) -> (a < lo)%nat -> injected_before a inj = 0.
Proof.
  intros Ho Ha. unfold injected_before. assert (filter (fun x : nat * list Chunk => x.1 <= a)%nat inj = []) as ->; [|done].
  apply ordered_bounds in Ho. induction Ho as [|x inj Hx _ IH]; [done|]. rewrite filter_cons_False; [done|lia].
Qed.

Lemma splice_read pos inj a mid : ordered pos inj (length out) -> sized inj ->
  (pos <= a)%nat -> mid <> [] -> (a + length mid <= length out)%nat -> take (length mid) (drop a out) = mid ->
  Forall (fun x => x.1 <= a \/ a + length mid <= x.1)%nat inj ->
  exists pre post, splice store pos out inj = pre ++ mid ++ post /\
    zlen pre = Z.of_nat a - Z.of_nat pos + injected_before a inj.
Proof.
  intros Ho Hs Hpos Hne Hlen Hmid. revert pos Ho Hpos. induction inj as [|[m ds] inj IH]; intros pos Ho Hpos Hsep.
  - exists (take (a - pos) (drop pos out)), (drop (a - pos + length mid) (drop pos out)). cbn [splice]. split.
    + rewrite <- Hmid at 1. replace a with (pos + (a - pos))%nat at 2 by lia.
      rewrite <- (drop_drop out (a - pos) pos), app_assoc, take_take_drop. by rewrite take_drop.
    + rewrite length_take, length_drop. cbn. lia.
  - destruct Ho as [H1 H2]. cbn [fst] in *. apply Forall_cons_1 in Hs as [Hd Hs]. apply Forall_cons_1 in Hsep as [Hm Hsep].
    cbn [fst snd] in *. pose proof (ordered_le _ _ _ H2) as H3. cbn [splice].
    assert (0 < length mid)%nat as Hpm by (destruct mid; [done|cbn; lia]).
    destruct Hm as [Hm|Hm].
    + destruct (IH Hs m H2 Hm Hsep) as (pre & post & -> & Hp).
      exists (take (m - pos) (drop pos out) ++ span_bytes store ds ++ pre), post. rewrite <- !app_assoc. split; [done|].
      unfold injected_before in *. rewrite filter_cons_True by done. cbn [injected_total foldr snd].
      change (foldr _ 0 (filter _ inj)) with (injected_total (filter (fun x => x.1 <= a)%nat inj)).
      rewrite !length_app, length_take, length_drop. lia.
    + exists (take (a - pos) (drop pos out)),
        (drop (a - pos + length mid) (take (m - pos) (drop pos out)) ++ span_bytes store ds ++ splice store m out inj).
      split.
      * rewrite !app_assoc. f_equal. f_equal.
        assert (take (m - pos) (drop pos out) = take (a - pos) (take (m - pos) (drop pos out)) ++
          take (length mid) (drop (a - pos) (take (m - pos) (drop pos out))) ++
          drop (a - pos + length mid) (take (m - pos) (drop pos out))) as Hsplit.
        { rewrite app_assoc, take_take_drop. by rewrite take_drop. }
        rewrite Hsplit at 1. rewrite app_assoc. f_equal.
        rewrite take_take, skipn_firstn_comm, take_take, drop_drop.
        replace (pos + (a - pos))%nat with a by lia.
        replace ((a - pos) `min` (m - pos))%nat with (a - pos)%nat by lia.
        replace (length mid `min` (m - pos - (a - pos)))%nat with (length mid) by lia. by rewrite Hmid.
      * rewrite length_take, length_drop. unfold injected_before. rewrite filter_cons_False by (cbn; lia).
        fold (injected_before a inj). rewrite (injected_before_later a inj m H2) by lia. lia.
Qed.
End upload.

(* ------------------------------------------------------------------ *)
(** ** Properties *)

Section properties.
Context {S : Type} `{PayloadSource S} (I : S -> Prop) (good : node -> Prop) (cont : node -> bytes -> Prop).
Context (Hsrc : source_copies I good cont).
Context (store : bytes -> bytes) (P : bytes) (prev : Previous) (Hprev : prev_wf store P prev).

(** What a reference of the new archive resolves to in the uploaded stream:
    the file's record of the previous stream, byte for byte, if it is
    unchanged; a fresh record of its content otherwise. *)
Definition resolved (U : bytes) (reads : list node) (x : node * bytes) (ref : Z * Z) : Prop :=
  (exists f pre post, p_files prev !! x.2 = Some f /\ metadataBytes [] x.1 = pf_meta f /\
     pf_size f = u64 (st_Size (n_Stat x.1)) /\ ref = (u64 (zlen pre), pf_size f) /\
     U = pre ++ old_record P f ++ post) \/
  (exists content pre post, x.1 ∈ reads /\ cont x.1 content /\ ref = (u64 (zlen pre), zlen content) /\
     U = pre ++ AppendPayloadHeader [] (zlen content) ++ content ++ post).

Lemma elem_of_with_runs cur plan p : p ∈ plan -> exists c, (p, c) ∈ with_runs cur plan.
Proof.
  revert cur. induction plan as [|q plan IH]; intros cur Hp; cbn [with_runs]; [by apply elem_of_nil in Hp|].
  apply elem_of_cons in Hp as [->|Hp]; destruct (pp_reuse q).
  - eexists. left.
  - eexists. left.
  - destruct (IH (if pp_runEnd q then [] else if decide (pp_inject q = []) then cur else pp_inject q) Hp) as [c Hc].
    exists c. by right.
  - destruct (IH [] Hp) as [c Hc]. exists c. by right.
Qed.
Lemma with_runs_elem cur plan y : y ∈ with_runs cur plan -> y.1 ∈ plan.
Proof.
  revert cur. induction plan as [|p plan IH]; intros cur Hy; cbn [with_runs] in Hy; [by apply elem_of_nil in Hy|].
  destruct (pp_reuse p); apply elem_of_cons in Hy as [->|Hy]; first [left|right; by eapply IH].
Qed.
End properties.

(** A loaded index is laid out from offset zero. *)
Lemma LoadPrevious_layout meta chunks p : LoadPrevious meta chunks = Ok p ->
  Forall (fun c => is_u64 (pc_EndOffset c)) chunks -> p_chunks p = chunks /\ layout 0 chunks.
Proof.
  unfold LoadPrevious. destruct (DecodeMetadata meta) as [fs [v|e]]; [|done].
  destruct (v =? 2); [|done]. cbn [negb]. destruct chunks as [|c chunks]; [intros; by simplify_eq|].
  destruct (check_ascending 1 (pc_EndOffset c) chunks) as [[]|] eqn:E; [|done].
  intros Hp Hu. cbn in Hp. simplify_eq. split; [done|]. apply Forall_cons_1 in Hu as [Hc Hu]. unfold is_u64 in Hc.
  split; [lia|]. by eapply check_ascending_layout.
Qed.

(** C8: Change detection is sound: whatever run of unchanged files it finds in a
    previous snapshot whose index describes its payload stream, every reference
    of the new metadata stream resolves in the uploaded stream, to the very
    record the previous stream holds for a reused file and to a fresh record
    of its content for a read one. *)
Theorem reuse_resolves {S : Type} `{PayloadSource S} (I : S -> Prop) good cont store P prev
    xs threshold get (pe pe' : payloadEmitter S) :
  source_copies I good cont -> prev_wf store P prev ->
  Forall (fun x => good x.1 /\ is_payload (n_Kind x.1) = true) xs ->
  pe_w pe = cw_open 0 [] -> pe_injected pe = [] -> pe_ledger pe = newRefLedger ->
  pe_publish pe = true -> I (pe_src pe) ->
  let g := planReuse xs (Some prev) threshold in
  pe_run (pg_plan g) pe = (Ok (), pe') ->
  (forall i s, l_sizes (pe_ledger pe') !! i = Some s -> get i = Ok s) ->
  exists refs r', rr_nexts (length (pg_plan g)) get (newRefReader (pg_plan g)) = (Ok refs, r') /\
    Forall2 (resolved cont P prev (uploaded store (cw_out (pe_w pe')) (pe_injected pe')) (pg_read g)) xs refs.
Proof.
  intros Hsrc Hprev Hgood Hw Hi Hl Hpub HI g Hrun Hget.
  assert (plan_ok store P prev xs g) as [G1 G2 G3 G4 G5 G6].
  { subst g. unfold planReuse. cbv zeta. rewrite <- (app_nil_l xs) at 1. apply plan_loop_ok; [done| |done].
    constructor; cbn; try done; constructor. }
  assert (Forall (plan_good good) (pg_plan g)) as Hpg.
  { apply Forall_forall. intros p Hp. destruct (elem_of_with_runs [] _ _ Hp) as [cur Hcur].
    apply list_elem_of_lookup in Hcur as [i Hi']. destruct (Forall2_lookup_r _ _ _ _ _ G4 Hi') as (x & Hx & [Hn _]).
    cbn in Hn. unfold plan_good. rewrite Hn. rewrite Forall_forall in Hgood. apply Hgood. by eapply list_elem_of_lookup_2. }
  destruct (pe_run_refs I good cont Hsrc (pg_plan g) get pe pe' Hw Hi Hl Hpub HI Hpg G1 G2 Hrun Hget)
    as (_ & refs & r' & Hrr & Hres).
  exists refs, r'. split; [exact Hrr|].
  assert (pe_ready I pe) as Hr by (unfold pe_ready; rewrite Hw, Hl; done).
  destruct (pe_run_injected I good cont Hsrc _ _ _ Hr Hi Hpg Hrun) as [Hord Hinj].
  assert (sized store (pe_injected pe')) as Hsz.
  { eapply Forall_impl; [exact Hinj|]. cbn. intros y (q & Hq & _ & ->). rewrite Forall_forall in G6. auto. }
  set (out := cw_out (pe_w pe')) in *. set (inj := pe_injected pe') in *.
  apply Forall2_same_length_lookup. split.
  { rewrite (Forall2_length _ _ _ G4). by eapply Forall2_length. }
  intros i x ref Hx Href. destruct (Forall2_lookup_l _ _ _ _ _ G4 Hx) as ([p cur] & Hy & Hpl).
  pose proof (Forall2_lookup_lr _ _ _ _ _ _ Hres Hy Href) as Hr1.
  assert (p ∈ pg_plan g) as Hin by (apply (with_runs_elem [] _ (p, cur)); by eapply list_elem_of_lookup_2).
  destruct Hpl as [Hn Hpl]. cbn [fst snd] in *. cbn [ref_resolves] in Hr1. destruct (pp_reuse p) eqn:Ere.
  - left. destruct (Hpl eq_refl) as (f & a & b & F1 & F2 & F3 & F4 & F5 & F6 & F7).
    destruct (Hr1 F5) as (j & n & Hj & ->). destruct (splice_at store out 0 inj j n cur Hord Hsz Hj) as (pre & post & HU & Hpre).
    exists f, (pre ++ a), (b ++ post). split; [done|]. split; [done|]. split; [done|]. split.
    + rewrite length_app, F4, F7. f_equal. f_equal. lia.
    + unfold uploaded. rewrite HU, F6. by rewrite <- !app_assoc.
  - right. destruct Hr1 as (pre & content & post & Ho & Hc & Hcont & Hoff & Hsep).
    set (mid := AppendPayloadHeader [] ref.2 ++ content).
    assert (length mid = 16 + length content)%nat as Hlm by (unfold mid; rewrite length_app, length_payload_header; lia).
    destruct (splice_read store out 0 inj (length pre) mid Hord Hsz) as (pre' & post' & HU & Hpre).
    + lia.
    + intros E. rewrite E in Hlm. done.
    + rewrite Hlm, Ho, !length_app, length_payload_header. lia.
    + rewrite Ho, drop_app_length. unfold mid. rewrite app_assoc. apply take_app_length.
    + rewrite Hlm. eapply Forall_impl; [exact Hsep|]. intros z Hz. cbv beta in Hz. lia.
    + exists content, pre', post'. split.
      { rewrite G5. rewrite <- Hn. apply list_elem_of_fmap. exists p. split; [done|]. by apply list_elem_of_filter. }
      split; [by rewrite <- Hn|]. rewrite Hc. split.
      * destruct ref as [r1 r2]. cbn [fst snd] in *. rewrite Hoff. f_equal. f_equal. lia.
      * unfold uploaded. rewrite HU. unfold mid. by rewrite <- !app_assoc.
Qed.

(* ------------------------------------------------------------------ *)
(** ** Witnesses *)

Definition stream_file (name content : bytes) (mtime : Z) : node :=
  mkNode name [] KindStream (mkStat 0x81a4 0 0 mtime 0 (zlen content) 1 0 0 zeroDevice) [] [] None [] 0 []
    (Some [(content, Some EOF)]).

Definition sample_files : list (node * bytes) :=
  [(stream_file (lit "a") (lit "aaaaa") 1, lit "a"); (stream_file (lit "b") (lit "bbbbbb") 2, lit "b");
   (stream_file (lit "c") (lit "cc") 3, lit "c")].

(** The previous payload stream held [a] and [b], and an older [c]. *)
Definition sample_payload : bytes :=
  AppendPayloadStartMarker [] ++ AppendPayloadHeader [] 5 ++ lit "aaaaa" ++ AppendPayloadHeader [] 6 ++ lit "bbbbbb" ++
  AppendPayloadHeader [] 2 ++ lit "xx" ++ AppendPayloadTailMarker [].

Definition sample_previous : Previous :=
  mkPrevious
    (<[lit "a" := mkPrevFile (metadataBytes [] (stream_file (lit "a") (lit "aaaaa") 1)) 5 16]>
     (<[lit "b" := mkPrevFile (metadataBytes [] (stream_file (lit "b") (lit "bbbbbb") 2)) 6 37]>
      {[lit "c" := mkPrevFile [] 2 59]}))
    [mkPayloadChunk 93 []].

(** 0.75 *)
Definition sample_threshold : float64 := S754_finite false 6755399441055744 (-53).
Definition sample_store : bytes -> bytes := fun _ => sample_payload.

Lemma sample_previous_wf : prev_wf sample_store sample_payload sample_previous.
Proof.
  assert (forall path f, p_files sample_previous !! path = Some f ->
    (pf_offset f, pf_size f) ∈ [(16, 5); (37, 6); (59, 2)]) as Hf.
  { intros path f. unfold sample_previous. cbn [p_files].
    destruct (decide (path = lit "a")) as [->|Ha]; [rewrite lookup_insert_eq; intros [= <-]; left|].
    rewrite lookup_insert_ne by done.
    destruct (decide (path = lit "b")) as [->|Hb]; [rewrite lookup_insert_eq; intros [= <-]; right; left|].
    rewrite lookup_insert_ne by done. intros [_ <-]%lookup_singleton_Some. right. right. left. }
  assert (zlen sample_payload = 93) as HP by (by vm_compute).
  constructor.
  - cbn. lia.
  - cbn [sample_previous p_chunks indexed pc_EndOffset pc_Digest]. rewrite HP. split; [|lia]. by vm_compute.
  - rewrite HP. lia.
  - intros path f H. apply Hf in H. rewrite HP. unfold HeaderSize.
    rewrite !elem_of_cons, elem_of_nil in H. destruct_or? H; try done; simplify_eq; lia.
  - intros path1 f path2 g H1 H2. apply Hf in H1, H2. unfold HeaderSize.
    rewrite !elem_of_cons, elem_of_nil in H1, H2. destruct_or? H1; destruct_or? H2; try done; simplify_eq; lia.
Qed.

Definition sample_planning : planning := planReuse sample_files (Some sample_previous) sample_threshold.
Definition sample_pe : payloadEmitter osfs := mkPE (cw_open 0 []) (fun _ => None) [] newRefLedger true true [].
Definition sample_run : payloadEmitter osfs := (pe_run (pg_plan sample_planning) sample_pe).2.

Lemma sample_files_good :
  Forall (fun x => unchanged (fun _ => None) x.1 /\ is_payload (n_Kind x.1) = true) sample_files.
Proof.
  assert (forall n c t, zlen c < 2 ^ 63 -> unchanged (fun _ => None) (stream_file n c t)) as Hu.
  { intros n c t Hc _. split; [cbn; lia|]. eexists. split; [reflexivity|]. cbn. done. }
  unfold sample_files. repeat constructor; apply Hu; cbn; lia.
Qed.

Lemma reuse_resolves_witness :
  exists refs r', rr_nexts 3 (fun _ => Ok 2) (newRefReader (pg_plan sample_planning)) = (Ok refs, r') /\
    Forall2 (resolved (sync_cont (fun _ => None)) sample_payload sample_previous
      (uploaded sample_store (cw_out (pe_w sample_run)) (pe_injected sample_run)) (pg_read sample_planning))
      sample_files refs.
Proof.
  refine (reuse_resolves (fun fs : osfs => fs = (fun _ => None)) (unchanged (fun _ => None))
    (sync_cont (fun _ => None)) sample_store sample_payload sample_previous sample_files sample_threshold (fun _ => Ok 2)
    sample_pe sample_run (sync_copies _) sample_previous_wf sample_files_good
    eq_refl eq_refl eq_refl eq_refl eq_refl _ _).
  - vm_compute. reflexivity.
  - intros [|i] s Hs; vm_compute in Hs; [injection Hs as <-; reflexivity|discriminate Hs].
Defined.
