(* ===== verification/ArchiveV2.v ===== *)
(** * The split archive, read back

    The two streams of a v2 archive together: the metadata stream written by
    the emitter of archive/emit.go with the references of archive/refs.go, the
    payload stream of archive/emitv2.go, and the reader of pxar/reader.go that
    is given both. *)

From S2P Require Import Prelude Format Io Tree Payload Reuse Refs Emit Reader ReaderSpec Previous.
Local Open Scope Z_scope.

(** What the metadata emitter gets from the ledger once the payload stream is
    complete. *)
Definition ledger_get (l : refLedger) (i : nat) : result gen_error Z := default (Err ErrPanic) (l_get i l).

(** A payload [io.ReaderAt] over the bytes [b], as far as they reach. *)
Definition reads_at (ra : readerAt) (b : bytes) : Prop :=
  forall off n, (off + n <= length b)%nat -> ra (Z.of_nat off) n = (take n (drop off b), None).
Definition bytes_at (b : bytes) : readerAt := fun off n =>
  let p := take n (drop (Z.to_nat off) b) in (p, if decide (length p < n)%nat then Some EOF else None).

Lemma bytes_reads_at b : reads_at (bytes_at b) b.
Proof.
  intros off n Hn. unfold bytes_at. rewrite Nat2Z.id, decide_False; [done|]. rewrite length_take, length_drop. lia.
Qed.

(** The content a reference names in a payload stream. *)
Definition content_at (out : bytes) (off size : Z) : bytes := take (Z.to_nat size) (drop (Z.to_nat off + 16) out).

(* ------------------------------------------------------------------ *)
(** ** Lemmas: a plan that reads every file *)

Lemma mark_read_plan ns : forall k, plan_wf 0 (mark_read k ns) /\ plan_numbered k (mark_read k ns) /\
  with_runs [] (mark_read k ns) = (fun p => (p, [])) <$> mark_read k ns /\
  pp_node <$> mark_read k ns = ns /\ Forall (fun p => pp_reuse p = false /\ pp_size p = 0) (mark_read k ns).
Proof.
  induction ns as [|n ns IH]; intros k; [by repeat constructor|]. destruct (IH (S k)) as (H1 & H2 & H3 & H4 & H5).
  cbn. split_and!; try done; [by rewrite H3|by rewrite H4|by repeat constructor].
Qed.

Lemma planReuse_none xs threshold : pg_plan (planReuse xs None threshold) = mark_read 0 xs.*1.
Proof. done. Qed.

(** The payloads are collected in archive order. *)
Lemma collect_flatten n : forall ap,
  (collectPayloadPaths n ap).*1 = filter (fun n => is_payload (n_Kind n)) (flatten n ap).*2.
Proof.
  induction n as [n IH] using node_ind'. intros ap. rewrite flatten_eq, fmap_cons, filter_cons. cbn [snd].
  assert (n_Kind n = KindDirectory ->
    (collectPayloadPaths n ap).*1 = filter (fun n => is_payload (n_Kind n)) (n_Children n ≫= fun c => flatten c (joinArchive ap (n_Name c))).*2) as Hdir.
  { intros Hk. destruct n as [? ? kd ? ? ? ? ? ? cs ?]. cbn in Hk. subst kd. cbn [collectPayloadPaths n_Kind n_Children] in *.
    induction IH as [|c cs Hc _ IHcs]; [done|]. cbn [mbind list_bind]. rewrite !fmap_app, filter_app, Hc. f_equal. exact IHcs. }
  destruct (decide (n_Kind n = KindDirectory)) as [Hk|Hk].
  - rewrite Hk in *. by rewrite Hdir.
  - destruct n as [? ? kd ? ? ? ? ? ? cs ?]. cbn in *. by destruct kd.
Qed.

(** The references an emitted stream holds, next to the nodes they belong to. *)
Lemma items_refs xs cont : Forall (item_ok true cont) xs ->
  Forall2 (fun it ref => it_data it = DRef ref.1 ref.2) (filter (fun it => is_payload (n_Kind (it_node it))) xs) (item_refs xs).
Proof.
  induction 1 as [|it xs Hit _ IH]; [constructor|]. change (it :: xs) with ([it] ++ xs). rewrite item_refs_app, filter_app.
  apply Forall2_app; [|exact IH]. unfold item_ok, item_refs in *. cbn [omap list_omap]. rewrite filter_cons, filter_nil.
  destruct (it_data it) as [|c|off size|t] eqn:Hd.
  - destruct Hit as [-> _]. constructor.
  - by destruct Hit.
  - destruct Hit as (_ & -> & _). by repeat constructor.
  - rewrite Hit. constructor.
Qed.

(** A reference of a stream without injected chunks, as the reader uses it. *)
Lemma ref_read (cont : node -> bytes -> Prop) out p ref : pp_reuse p = false -> zlen out <= 2 ^ 62 ->
  ref_resolves cont out [] (p, []) ref ->
  exists off, ref.1 = Z.of_nat off /\ 0 <= ref.2 /\ (off + 16 + Z.to_nat ref.2 <= length out)%nat /\
    take 16 (drop off out) = AppendPayloadHeader [] ref.2 /\
    zlen (content_at out ref.1 ref.2) = ref.2 /\ cont (pp_node p) (content_at out ref.1 ref.2).
Proof.
  intros Hr Hl Hres. unfold ref_resolves in Hres. rewrite Hr in Hres.
  destruct Hres as (pre & content & post & Ho & Hc & Hcont & Hoff & _).
  unfold injected_before in Hoff. rewrite filter_nil in Hoff. cbn [injected_total foldr] in Hoff.
  pose proof (length_payload_header ref.2) as Hh.
  assert (length out = length pre + (16 + (length content + length post)))%nat as Hlen by (rewrite Ho, !length_app; lia).
  assert (ref.1 = Z.of_nat (length pre)) as Hoff'.
  { rewrite Hoff. unfold injected_total. cbn. rewrite Z.add_0_r. apply u64_small. unfold is_u64. lia. }
  exists (length pre). rewrite Hoff'. unfold content_at. rewrite Nat2Z.id.
  assert (drop (length pre) out = AppendPayloadHeader [] ref.2 ++ content ++ post) as Hd by (rewrite Ho; apply drop_app_length).
  assert (drop (length pre + 16) out = content ++ post) as Hd2.
  { rewrite <- drop_drop, Hd. rewrite drop_app_le by lia. rewrite drop_ge by lia. done. }
  assert (take (Z.to_nat ref.2) (content ++ post) = content) as Ht by (rewrite <- Hc, Nat2Z.id; apply take_app_length).
  rewrite Hd2, Ht, Hd. split_and!; [done|lia|lia| |done|done]. rewrite take_app_le by lia. by rewrite take_ge by lia.
Qed.

(* ------------------------------------------------------------------ *)
(** ** Lemmas: both streams *)

Section roundtrip.
Context {T : Type} `{PayloadSource T} `{SipHash}.
Context (I : T -> Prop) (good : node -> Prop) (cont : node -> bytes -> Prop).
Context (Hsrc : source_copies I good cont).

(** The file [it] refers to its record in the payload stream [out]. *)
Definition placed (out : bytes) (it : item) : Prop :=
  is_payload (n_Kind (it_node it)) = true -> exists off size,
    it_data it = DRef (Z.of_nat off) size /\ 0 <= size /\ (off + 16 + Z.to_nat size <= length out)%nat /\
    take 16 (drop off out) = AppendPayloadHeader [] size /\
    zlen (content_at out (Z.of_nat off) size) = size /\ cont (it_node it) (content_at out (Z.of_nat off) size).

(** Both emissions of a v2 archive whose files are all read. *)
Lemma split_encoded root (em em' : emitter T) (pe pe' : payloadEmitter T) plan :
  plan = mark_read 0 (collectPayloadPaths root []).*1 ->
  tree_all good root -> pe_w pe = cw_open 0 [] -> pe_injected pe = [] -> pe_ledger pe = newRefLedger ->
  pe_publish pe = true -> I (pe_src pe) -> pe_run plan pe = (Ok (), pe') ->
  em_w em = cw_open 0 [] -> em_refs em = Some (newRefReader plan) -> em_get em = ledger_get (pe_ledger pe') ->
  I (em_src em) -> em_run root em = (Ok (), em') -> zlen (cw_out (pe_w pe')) <= 2 ^ 62 ->
  exists out extra xs ln rest,
    encodes true cont root true [] (u64 (zlen (stream_head true (em_prelude em)))) ∅ out extra xs ln /\
    cw_out (em_w em') = stream_head true (em_prelude em) ++ out /\
    cw_out (pe_w pe') = AppendPayloadStartMarker [] ++ rest /\
    Forall (placed (cw_out (pe_w pe'))) xs.
Proof.
  intros Hplan Hg Hpw Hpi Hpl Hpub HIp Hprun Hew Her Heg HIe Herun Hlen.
  destruct (mark_read_plan (collectPayloadPaths root []).*1 0) as (P1 & P2 & P3 & P4 & P5). rewrite <- Hplan in *.
  assert (em_ready I em) as Hready.
  { split; [by rewrite Hew|]. split; [done|]. rewrite Her. split; [done|]. cbn [rr_plan newRefReader].
    eapply Forall_impl; [exact P5|]. intros p [_ Hp]. cbn. by rewrite Hp. }
  destruct (em_run_ok I good cont Hsrc _ _ _ _ Hg Hready Herun) as (out & extra & xs & ln & Henc & Hst).
  assert (em_v2 em = true) as Ev by (unfold em_v2; by rewrite Her). rewrite Ev, Hew in *. cbn [cw_pos cw_open] in Henc.
  destruct Hst as [[Ho _] _ _ _ _ Hrefs]. rewrite Hew in Ho. rewrite Her, Heg in Hrefs. destruct Hrefs as (r1 & _ & Hrefs).
  destruct (encodes_layout true cont) as [Hlay _]. destruct (Hlay _ _ _ _ _ _ _ _ _ Henc (u64_range _)) as (Hx & _).
  destruct (encodes_items true cont) as [Hit _]. specialize (Hit _ _ _ _ _ _ _ _ _ Henc).
  assert (Forall (plan_good good) plan) as Hpg.
  { apply Forall_forall. intros p Hp. assert (pp_node p ∈ pp_node <$> plan) as Hn by (apply list_elem_of_fmap; eauto).
    rewrite P4, collect_flatten in Hn. apply list_elem_of_filter in Hn as [Hk Hn]. split; [|by apply Is_true_eq_true].
    pose proof (flatten_all good root [] Hg) as Hall. rewrite Forall_forall in Hall.
    apply list_elem_of_fmap in Hn as (y & E & Hy). rewrite E. by apply Hall. }
  destruct (pe_run_refs I good cont Hsrc plan (ledger_get (pe_ledger pe')) pe pe' Hpw Hpi Hpl Hpub HIp Hpg P1 P2 Hprun) as ((rest & Hrest) & refs & r2 & Hrr & Hres).
  { intros i s Hs. unfold ledger_get, l_get. by rewrite Hs. }
  assert (pe_injected pe' = []) as Hinj.
  { assert (pe_ready I pe) as Hr by (unfold pe_ready; rewrite Hpw, Hpl; done).
    destruct (pe_run_injected I good cont Hsrc _ _ _ Hr Hpi Hpg Hprun) as [_ Hall].
    destruct (pe_injected pe') as [|x l]; [done|]. apply Forall_cons in Hall as [(q & Hq & Hq' & _) _].
    rewrite Forall_forall in P5. destruct (P5 q Hq). congruence. }
  rewrite Hinj, P3 in Hres.
  pose proof (items_refs xs cont Hit) as Hdata.
  assert (pp_node <$> plan = it_node <$> filter (fun it => is_payload (n_Kind (it_node it))) xs) as Hnodes.
  { rewrite P4, collect_flatten, <- Hx, <- list_fmap_compose. clear.
    induction xs as [|it xs IH]; [done|]. rewrite fmap_cons, !filter_cons. cbn [compose snd].
    destruct (decide (is_payload (n_Kind (it_node it)))); [|exact IH]. rewrite fmap_cons. by f_equal. }
  assert (length (item_refs xs) = length plan) as Hlenr.
  { rewrite <- (Forall2_length _ _ _ Hdata), <- (length_fmap it_node), <- Hnodes. apply length_fmap. }
  assert (refs = item_refs xs) as -> by (rewrite Hlenr, Hrr in Hrefs; congruence).
  exists out, extra, xs, ln, rest. split; [exact Henc|]. split; [exact Ho|]. split; [done|].
  rewrite Forall_forall. intros it Hin Hk.
  assert (it ∈ filter (fun it => is_payload (n_Kind (it_node it))) xs) as Hin' by (apply list_elem_of_filter; split; [by rewrite Hk|done]).
  apply list_elem_of_lookup in Hin' as [i Hi]. destruct (Forall2_lookup_l _ _ _ _ _ Hdata Hi) as (ref & Hri & Hd).
  destruct (Forall2_lookup_r _ _ _ _ _ Hres Hri) as ([p cur] & Hp & Hpr).
  rewrite list_lookup_fmap_Some in Hp. destruct Hp as (p' & E' & Hp). injection E' as <- ->.
  assert (pp_reuse p = false) as Hrf by (rewrite Forall_forall in P5; by destruct (P5 p (list_elem_of_lookup_2 _ _ _ Hp))).
  destruct (ref_read cont _ p ref Hrf Hlen Hpr) as (off & E & H1 & H2 & H3 & H4 & H5).
  assert (pp_node p = it_node it) as Hn.
  { pose proof (list_lookup_fmap pp_node plan i) as F1. rewrite Hnodes, list_lookup_fmap, Hi, Hp in F1. by injection F1. }
  rewrite E, Hn in *. by exists off, ref.2.
Qed.

(** The payload stream resolves the reference of a placed file. *)
Lemma placed_served pout rest ra it : placed pout it -> item_ok true cont it ->
  pout = AppendPayloadStartMarker [] ++ rest -> reads_at ra pout -> zlen pout <= 2 ^ 62 ->
  served (Some ra) (content_at pout) it.
Proof.
  intros Hi Hok Hrest Hra Hlen. unfold served.
  destruct (it_data it) as [|c|off size|t] eqn:Hd; try done. unfold item_ok in Hok. rewrite Hd in Hok.
  destruct (Hi (proj1 (proj2 Hok))) as (o & sz & Hd' & Hsz & Hl & Hhd & Hz & _). rewrite ?Hd in Hd'. injection Hd' as -> ->.
  assert (length (AppendPayloadStartMarker []) = 16%nat) as Hmk by done.
  split_and!.
  - change 0 with (Z.of_nat 0). rewrite Hra by (rewrite Hrest, length_app; lia).
    rewrite drop_0, Hrest, take_app_le by lia. by rewrite take_ge by lia.
  - lia.
  - lia.
  - rewrite Hra by lia. by rewrite Hhd.
  - exact Hz.
  - intros i n Hin. replace (Z.of_nat o + 16 + Z.of_nat i) with (Z.of_nat (o + 16 + i)) by lia.
    assert (length (content_at pout (Z.of_nat o) sz) = Z.to_nat sz) as Hlc by lia. rewrite Hlc in Hin.
    rewrite Hra by lia. unfold content_at. rewrite Nat2Z.id, skipn_firstn_comm, drop_drop.
    rewrite take_take. by replace (n `min` (Z.to_nat sz - i))%nat with n by lia.
Qed.

(** Reading both streams back. *)
Lemma read_split root prelude pos out extra xs ln pout rest seg ra want :
  encodes true cont root true [] pos ∅ out extra xs ln -> n_Kind root = KindDirectory ->
  tree_all wf_node root -> (height root <= maxDepth)%nat -> Forall (placed pout) xs ->
  pout = AppendPayloadStartMarker [] ++ rest -> prelude_ok prelude ->
  contents seg = (stream_head true prelude ++ out, EOF) -> reads_at ra pout -> zlen pout <= 2 ^ 62 -> (0 < want)%nat ->
  Forall (fun it => is_payload (n_Kind (it_node it)) = true -> cont (it_node it) (item_content (content_at pout) it)) xs /\
  read_archive (S (length xs)) want (NewReaderV2 seg (Some ra)) =
    ((fun it => (decode_item false it, item_content (content_at pout) it)) <$> xs, RdEOF).
Proof.
  intros Henc Hk Hwf Hh Hall Hrest Hprel Hseg Hra Hlen Hwant.
  destruct (encodes_items true cont) as [Hit _]. specialize (Hit _ _ _ _ _ _ _ _ _ Henc). split.
  { eapply Forall_impl; [exact Hall|]. intros it Hi Hp. destruct (Hi Hp) as (off & size & Hd & _ & _ & _ & _ & Hc).
    unfold item_content. by rewrite Hd. }
  eapply (read_fresh 2 (Some ra) (content_at pout) true cont root _ _ prelude); try done; [by right| |].
  - eapply Forall_impl; [apply Forall_and; split; [exact Hall|exact Hit]|]. intros it [Hi Hok]. by eapply placed_served.
  - split_and!; try done. by left.
Qed.

(* ------------------------------------------------------------------ *)
(** ** Properties *)

(** The v2 round trip: when both streams of a split archive whose files are
    all read were written, the reader, fed the metadata stream in any
    segmentation and the payload stream as an [io.ReaderAt], and read with
    buffers of any size, returns exactly the tree's nodes in order, each with
    its metadata and each file with the content its source supplied, and then
    the end. *)
Theorem archive_roundtrip_v2 root (em em' : emitter T) (pe pe' : payloadEmitter T) plan seg ra want :
  plan = mark_read 0 (collectPayloadPaths root []).*1 ->
  tree_all good root -> tree_all wf_node root -> (height root <= maxDepth)%nat -> n_Kind root = KindDirectory ->
  pe_w pe = cw_open 0 [] -> pe_injected pe = [] -> pe_ledger pe = newRefLedger ->
  pe_publish pe = true -> I (pe_src pe) -> pe_run plan pe = (Ok (), pe') ->
  em_w em = cw_open 0 [] -> em_refs em = Some (newRefReader plan) -> em_get em = ledger_get (pe_ledger pe') ->
  I (em_src em) -> prelude_ok (em_prelude em) -> em_run root em = (Ok (), em') ->
  contents seg = (cw_out (em_w em'), EOF) -> reads_at ra (cw_out (pe_w pe')) -> zlen (cw_out (pe_w pe')) <= 2 ^ 62 ->
  (0 < want)%nat ->
  exists xs,
    (fun it => (it_path it, it_node it)) <$> xs = flatten root [] /\
    Forall (fun it => is_payload (n_Kind (it_node it)) = true ->
      cont (it_node it) (item_content (content_at (cw_out (pe_w pe'))) it)) xs /\
    read_archive (S (length xs)) want (NewReaderV2 seg (Some ra)) =
      ((fun it => (decode_item false it, item_content (content_at (cw_out (pe_w pe'))) it)) <$> xs, RdEOF).
Proof.
  intros Hplan Hg Hwf Hh Hk Hpw Hpi Hpl Hpub HIp Hprun Hew Her Heg HIe Hprel Herun Hseg Hra Hlen Hwant.
  destruct (split_encoded root em em' pe pe' plan) as (out & extra & xs & ln & rest & Henc & Ho & Hrest & Hall); try done.
  destruct (encodes_layout true cont) as [Hlay _]. destruct (Hlay _ _ _ _ _ _ _ _ _ Henc (u64_range _)) as (Hx & _).
  exists xs. split; [done|]. rewrite Ho in Hseg. by eapply read_split.
Qed.
End roundtrip.

(* ------------------------------------------------------------------ *)
(** ** Witnesses *)

Definition split_plan : list payloadPlan := mark_read 0 (collectPayloadPaths sample_tree []).*1.
Definition split_pe : payloadEmitter osfs := mkPE (cw_open 0 []) sample_fs [] newRefLedger true false [].
Definition split_pe' : payloadEmitter osfs := (pe_run split_plan split_pe).2.
Definition split_em : emitter osfs :=
  mkEm (cw_open 0 []) sample_fs (Some (newRefReader split_plan)) (ledger_get (pe_ledger split_pe')) (Some (lit "{}")) ∅ [].
Definition split_em' : emitter osfs := (@em_run _ _ toy_siphash sample_tree split_em).2.
Definition split_seg : reader :=
  [(take 9 (cw_out (em_w split_em')), None); (drop 9 (cw_out (em_w split_em')), Some EOF)].

Lemma archive_roundtrip_v2_witness :
  exists xs,
    (fun it => (it_path it, it_node it)) <$> xs = flatten sample_tree [] /\
    Forall (fun it => is_payload (n_Kind (it_node it)) = true ->
      sync_cont sample_fs (it_node it) (item_content (content_at (cw_out (pe_w split_pe'))) it)) xs /\
    read_archive (S (length xs)) 5 (NewReaderV2 split_seg (Some (bytes_at (cw_out (pe_w split_pe'))))) =
      ((fun it => (decode_item false it, item_content (content_at (cw_out (pe_w split_pe'))) it)) <$> xs, RdEOF).
Proof.
  refine (@archive_roundtrip_v2 _ _ toy_siphash (fun s => s = sample_fs) (unchanged sample_fs) (sync_cont sample_fs)
    (sync_copies sample_fs) sample_tree split_em split_em' split_pe split_pe' split_plan split_seg
    (bytes_at (cw_out (pe_w split_pe'))) 5 eq_refl sample_good sample_wf _ eq_refl eq_refl eq_refl eq_refl eq_refl eq_refl
    _ eq_refl eq_refl eq_refl eq_refl _ _ _ (bytes_reads_at _) _ _).
  - apply Nat.leb_le. vm_compute. reflexivity.
  - vm_compute. reflexivity.
  - vm_compute. discriminate.
  - vm_compute. reflexivity.
  - vm_compute. reflexivity.
  - vm_compute. discriminate.
  - lia.
Defined.
