(* ===== verification/FS.v ===== *)
(** * The archive as a file system

    Models pxar/fs.go: the random-access view of an archive.  Paths are
    looked up through the goodbye tables of the directories on the way, each
    entry being decoded by a Reader over its own section of the metadata
    stream; symbolic links are followed inside the archive and hardlinks
    resolve to the entry they link to. *)

From stdpp Require Import sorting.
From S2P Require Import Prelude Format BinTree Io Tree Reader Glob.
From Stdlib Require Import Strings.Byte.
Local Open Scope Z_scope.

(* ------------------------------------------------------------------ *)
(** ** Go's [path], [io/fs] and [io] as the file system uses them *)

Definition dot : bytes := ["."%byte].
Definition dotdot : bytes := ["."%byte; "."%byte].

Fixpoint drop_slashes (p : bytes) : bytes :=
  match p with
  | c :: p' => if decide (c = slash) then drop_slashes p' else p
  | [] => []
  end.

(** [path.Base]. *)
Definition path_Base (p : bytes) : bytes :=
  if decide (p = []) then dot else
  let p := rev (drop_slashes (rev p)) in
  let p := default [] (last (split_slash p)) in
  if decide (p = []) then [slash] else p.

Fixpoint join_slash (cs : list bytes) : bytes :=
  match cs with
  | [] => []
  | [c] => c
  | c :: cs => c ++ [slash] ++ join_slash cs
  end.

(** [path.Clean]: [done] holds the components kept so far, last first. *)
Definition clean_step (rooted : bool) (done : list bytes) (c : bytes) : list bytes :=
  if decide (c = [] \/ c = dot) then done
  else if decide (c = dotdot) then
    match done with
    | d :: done' => if decide (d = dotdot) then c :: done else done'
    | [] => if rooted then [] else [c]
    end
  else c :: done.
Definition path_IsAbs (p : bytes) : bool :=
  match p with c :: _ => bool_decide (c = slash) | [] => false end.
Definition path_Clean (p : bytes) : bytes :=
  let rooted := path_IsAbs p in
  let cs := rev (foldl (clean_step rooted) [] (split_slash p)) in
  if rooted then slash :: join_slash cs
  else if decide (cs = []) then dot else join_slash cs.

(** [path.Join] of two elements. *)
Definition path_Join (a b : bytes) : bytes :=
  if decide (a = []) then (if decide (b = []) then [] else path_Clean b)
  else path_Clean (a ++ [slash] ++ b).

Definition has_prefix (prefix p : bytes) : bool :=
  bool_decide (take (length prefix) p = prefix).

(** [strings.TrimPrefix(p, "/")]. *)
Definition trim_slash (p : bytes) : bytes :=
  match p with c :: p' => if decide (c = slash) then p' else p | [] => [] end.

(** [strings.Cut(s, "/")], without its third result. *)
Fixpoint cut_slash (s : bytes) : bytes * bytes :=
  match s with
  | [] => ([], [])
  | c :: s => if decide (c = slash) then ([], s)
              else let '(a, b) := cut_slash s in (c :: a, b)
  end.

(** [utf8.ValidString]; every round consumes a byte. *)
Fixpoint utf8_valid_loop (fuel : nat) (s : bytes) : bool :=
  match s, fuel with
  | [], _ => true
  | _, O => true
  | _, S fuel =>
      let '(r, n) := DecodeRuneInString s in
      if decide (r = RuneError /\ n = 1%nat) then false
      else utf8_valid_loop fuel (drop n s)
  end.
Definition utf8_ValidString (s : bytes) : bool := utf8_valid_loop (length s) s.

(** [fs.ValidPath]. *)
Definition valid_elem (e : bytes) : bool :=
  negb (bool_decide (e = [] \/ e = dot \/ e = dotdot)).
Definition fs_ValidPath (name : bytes) : bool :=
  utf8_ValidString name && (bool_decide (name = dot) || forallb valid_elem (split_slash name)).

(** [bufio.Reader] of 4096 bytes over [io.SectionReader] from [off] to
    [limit]: the results of the reads that fill the buffer.  A [ReadAt]
    without an error has filled its buffer, so every round makes progress. *)
Fixpoint section_loop (fuel : nat) (ra : readerAt) (off limit : Z) : reader :=
  if limit <=? off then [] else
  match fuel with
  | O => []
  | S fuel =>
      match ra off (Z.to_nat (Z.min 4096 (limit - off))) with
      | (b, Some e) => [(b, Some e)]
      | (b, None) => (b, None) :: section_loop fuel ra (off + zlen b) limit
      end
  end.
(** [io.NewSectionReader(ra, off, n)]. *)
Definition section (ra : readerAt) (off n : Z) : reader :=
  let limit := if off <=? (2 ^ 63 - 1) - n then off + n else 2 ^ 63 - 1 in
  section_loop (Z.to_nat (limit - off)) ra off limit.

(* ------------------------------------------------------------------ *)
(** ** Data *)

Inductive fsop := OpOpen | OpStat | OpLstat | OpReadlink | OpReaddir | OpRead.

Inductive fserror :=
  | FsReader (e : rerror) | FsRootNotDir | FsSpan (dir : bytes) | FsTail (dir : bytes) (e : ioerr)
  | FsMalformed (dir : bytes) | FsLimit (dir : bytes) (length : Z) | FsTable (dir : bytes) (e : ioerr)
  | FsItemRange (dir : bytes) | FsExceeds (path : bytes) | FsContentExceeds (path : bytes)
  | FsNotExist | FsHardlink (path target : bytes) (e : fserror) | FsHardlinkDir (path : bytes)
  | FsNested (path : bytes) | FsNOTDIR | FsTooManyLinks | FsInvalid | FsNoPayload | FsEOF
  | FsPath (op : fsop) (path : bytes) (e : fserror) | FsFuel.

(** [fsNode]. *)
Record fsNode := mkFsNode {
  fn_Node : rnode; fn_name : bytes; fn_start : Z; fn_end : Z; fn_content : Z }.

(** [FS]. *)
Record FS := mkFS {
  fs_meta : readerAt; fs_payload : option readerAt; fs_version : Z; fs_root : fsNode }.

(** An item of a goodbye table: hash, start and size. *)
Record gitem := mkGItem { g_hash : Z; g_start : Z; g_size : Z }.

Definition start_le (a b : gitem) : Prop := g_start a <= g_start b.
#[export] Instance start_le_dec a b : Decision (start_le a b).
Proof. unfold start_le. apply _. Defined.
#[export] Instance start_le_total : Total start_le.
Proof. intros a b. unfold start_le. lia. Qed.
#[export] Instance start_le_trans : Transitive start_le.
Proof. intros a b c. unfold start_le. lia. Qed.

Definition maxGoodbye : Z := Z.shiftl 64 20.

Definition mode_type (n : rnode) : Z := Z.land (e_Mode (r_Entry n)) modeTypeMask.

Definition rd_error {A} (m : result rerror A) : result fserror A :=
  match m with Ok a => Ok a | Err e => Err (FsReader e) end.

(* ------------------------------------------------------------------ *)
(** ** Opening *)

Definition open (meta : readerAt) (size : Z) (payload : option readerAt) (version : Z) :
    result fserror FS :=
  let r := mkR (section meta 0 size) None version false false false [] 0 None CNone 0 None in
  match Next r with
  | (Err e, _) => Err (FsReader e)
  | (Ok n, _) =>
      if negb (mode_type n =? modeDir) then Err FsRootNotDir else
      Ok (mkFS meta payload version (mkFsNode n dot 0 size 0))
  end.

Definition OpenV1 (r : readerAt) (size : Z) : result fserror FS := open r size None 1.

Definition OpenV2 (meta : readerAt) (metaSize : Z) (payload : option readerAt) : result fserror FS :=
  _ ← match payload with
      | Some ra => rd_error (checkPayloadStart ra)
      | None => Ok ()
      end;
  open meta metaSize payload 2.

(* ------------------------------------------------------------------ *)
(** ** Goodbye tables *)

(** The loop of [goodbye] over the items of a table. *)
Fixpoint goodbye_items (fuel : nat) (path : bytes) (dstart gbStart : Z) (table : bytes) :
    result fserror (list gitem) :=
  match fuel with
  | O => Ok []
  | S fuel =>
      let hash := get64 table in
      let off := get64 (drop 8 table) in
      let size := get64 (drop 16 table) in
      let start := u64 (u64 gbStart - off) in
      if (off =? 0) || (u64 (gbStart - dstart) <=? off) || (size =? 0) || (2 ^ 62 <? size)
      then Err (FsItemRange path) else
      items ← goodbye_items fuel path dstart gbStart (drop 24 table);
      Ok (mkGItem hash start size :: items)
  end.

(** [goodbye]: nothing below depends on how equal starts are ordered. *)
Definition goodbye (f : FS) (d : fsNode) : result fserror (list gitem * Z) :=
  let path := r_Path (fn_Node d) in
  if i64 (fn_end d - fn_start d) <? HeaderSize + 24 then Err (FsSpan path) else
  match fs_meta f (i64 (fn_end d - 24)) 24%nat with
  | (_, Some e) => Err (FsTail path e)
  | (tail, None) =>
      let len := get64 (drop 16 tail) in
      if negb (get64 tail =? GoodbyeTailMarker) || (len <? HeaderSize + 24) ||
         negb ((len - HeaderSize) mod 24 =? 0) || (u64 (fn_end d - fn_start d) <? len)
      then Err (FsMalformed path) else
      if maxGoodbye <? len then Err (FsLimit path len) else
      let gbStart := i64 (fn_end d - i64 len) in
      match fs_meta f gbStart (Z.to_nat len) with
      | (_, Some e) => Err (FsTable path e)
      | (table, None) =>
          if negb (get64 table =? TypeGoodbye) || negb (get64 (drop 8 table) =? len)
          then Err (FsMalformed path) else
          let n := Z.to_nat ((len - HeaderSize - 24) / 24) in
          items ← goodbye_items n path (fn_start d) gbStart (drop 16 table);
          Ok (merge_sort start_le items, gbStart)
      end
  end.

(** [child]. *)
Definition child (f : FS) (d : fsNode) (item : gitem) (gbStart : Z) : result fserror fsNode :=
  let start := i64 (g_start item) in
  let r := mkR (section (fs_meta f) start (i64 (gbStart - start))) None (fs_version f) false true false
             [r_Path (fn_Node d)] 0 None CNone 0 None in
  match next r with
  | (Err e, _) => Err (FsReader e)
  | (Ok n, r) =>
      let name := path_Base (r_Path n) in
      if r_Hardlink n then Ok (mkFsNode n name 0 0 0) else
      if mode_type n =? modeDir then
        let stop := i64 (start + i64 (g_size item)) in
        if gbStart <? stop then Err (FsExceeds (r_Path n)) else
        Ok (mkFsNode n name start stop 0)
      else if (mode_type n =? modeRegular) && (fs_version f =? 1) then
        let content := i64 (start + i64 (rd_pos r)) in
        if (gbStart <? i64 (content + i64 (r_Size n))) || (2 ^ 62 <? r_Size n)
        then Err (FsContentExceeds (r_Path n)) else
        Ok (mkFsNode n name 0 0 content)
      else Ok (mkFsNode n name 0 0 0)
  end.

(** The loop of [lookupChild] over the items whose hash matches. *)
Fixpoint lookupChild_loop (f : FS) (d : fsNode) (gbStart : Z) (h : Z) (name : bytes)
    (items : list gitem) : result fserror fsNode :=
  match items with
  | [] => Err FsNotExist
  | it :: items =>
      if negb (g_hash it =? h) then lookupChild_loop f d gbStart h name items else
      c ← child f d it gbStart;
      if decide (fn_name c = name) then Ok c else lookupChild_loop f d gbStart h name items
  end.

Definition lookupChild `{SipHash} (f : FS) (d : fsNode) (name : bytes) : result fserror fsNode :=
  '(items, gbStart) ← goodbye f d;
  lookupChild_loop f d gbStart (Hash name) name items.

(* ------------------------------------------------------------------ *)
(** ** Paths *)

(** What [resolve] needs of an entry. *)
Class Entries (N : Type) := {
  en_dir : N -> bool; en_symlink : N -> bool; en_hardlink : N -> bool;
  en_path : N -> bytes; en_target : N -> bytes }.

#[export] Instance fs_entries : Entries fsNode := {|
  en_dir c := mode_type (fn_Node c) =? modeDir;
  en_symlink c := mode_type (fn_Node c) =? modeSymlink;
  en_hardlink c := r_Hardlink (fn_Node c);
  en_path c := r_Path (fn_Node c);
  en_target c := r_LinkTarget (fn_Node c) |}.

(** The path a symbolic link in the directory [dir] leads to, [None] if it
    leaves the archive. *)
Definition link_path (dir target after : bytes) : option bytes :=
  let path := path_Join dir target in
  if path_IsAbs target || bool_decide (path = dotdot) || has_prefix (dotdot ++ [slash]) path then None else
  let path := if decide (path = dot) then [] else path in
  Some (if decide (after = []) then path else trim_slash (path ++ [slash] ++ after)).

Section resolve.
Context {N : Type} `{Entries N} (root : N).
(** [f.lookupChild], and what is done with a hardlink met on the way. *)
Context (lookupChild : N -> bytes -> result fserror N) (hard : N -> result fserror N).
Context (follow : bool).

(** The loop of [resolve]: [budget] symbolic links may still be followed; a
    step that follows none shortens [rest]. *)
Fixpoint resolve_loop (budget : nat) : nat -> N -> bytes -> result fserror N :=
  fix steps (fuel : nat) (cur : N) (rest : bytes) {struct fuel} : result fserror N :=
    if decide (rest = []) then Ok cur else
    match fuel with
    | O => Err FsFuel
    | S fuel =>
        let '(comp, after) := cut_slash rest in
        if negb (en_dir cur) then Err FsNOTDIR else
        c ← lookupChild cur comp;
        c ← (if en_hardlink c then hard c else Ok c);
        if en_symlink c && (negb (bool_decide (after = [])) || follow) then
          match budget with
          | O => Err FsTooManyLinks
          | S budget =>
              match link_path (en_path cur) (en_target c) after with
              | None => Err FsNotExist
              | Some rest => resolve_loop budget (length rest) root rest
              end
          end
        else steps fuel c after
    end.

Definition resolve_from (name : bytes) : result fserror N :=
  let rest := if decide (name = dot) then [] else name in
  resolve_loop 40 (length rest) root rest.
End resolve.

Section fs.
Context `{SipHash} (f : FS).

(** [resolve(name, follow, true)]: a hardlink is an error. *)
Definition resolve_nested (name : bytes) (follow : bool) : result fserror fsNode :=
  resolve_from (fs_root f) (lookupChild f) (fun c => Err (FsNested (r_Path (fn_Node c)))) follow name.

Definition resolveHardlink (c : fsNode) : result fserror fsNode :=
  if negb (r_Hardlink (fn_Node c)) then Ok c else
  match resolve_nested (r_LinkTarget (fn_Node c)) false with
  | Err e => Err (FsHardlink (r_Path (fn_Node c)) (r_LinkTarget (fn_Node c)) e)
  | Ok t =>
      if mode_type (fn_Node t) =? modeDir then Err (FsHardlinkDir (r_Path (fn_Node c))) else
      Ok (mkFsNode (fn_Node t) (fn_name c) 0 0 (fn_content t))
  end.

(** [resolve(name, follow, false)]. *)
Definition resolve (name : bytes) (follow : bool) : result fserror fsNode :=
  resolve_from (fs_root f) (lookupChild f) resolveHardlink follow name.

(** [lookup]. *)
Definition fs_lookup (op : fsop) (name : bytes) (follow : bool) : result fserror fsNode :=
  if negb (fs_ValidPath name) then Err (FsPath op name FsInvalid) else
  match resolve name follow with
  | Err e => Err (FsPath op name e)
  | Ok n =>
      if decide (name = dot) then Ok n else
      Ok (mkFsNode (fn_Node n) (path_Base name) (fn_start n) (fn_end n) (fn_content n))
  end.

(* ------------------------------------------------------------------ *)
(** ** Files *)

(** [io.SectionReader]: the range is [sr_base] to [sr_limit]. *)
Record sectionReader := mkSection {
  sr_at : readerAt; sr_base : Z; sr_off : Z; sr_limit : Z }.

Definition NewSectionReader (ra : readerAt) (off n : Z) : sectionReader :=
  mkSection ra off off (if off <=? (2 ^ 63 - 1) - n then off + n else 2 ^ 63 - 1).

Definition section_Read (want : nat) (s : sectionReader) : bytes * option ioerr * sectionReader :=
  if sr_limit s <=? sr_off s then ([], Some EOF, s) else
  let '(b, e) := sr_at s (sr_off s) (Nat.min want (Z.to_nat (sr_limit s - sr_off s))) in
  (b, e, mkSection (sr_at s) (sr_base s) (sr_off s + zlen b) (sr_limit s)).

Definition section_Size (s : sectionReader) : Z := sr_limit s - sr_base s.

Definition section_ReadAt (want : nat) (off : Z) (s : sectionReader) : bytes * option ioerr :=
  if (off <? 0) || (section_Size s <=? off) then ([], Some EOF) else
  let off := off + sr_base s in
  let max := sr_limit s - off in
  if max <? Z.of_nat want then
    let '(b, e) := sr_at s off (Z.to_nat max) in
    (b, match e with None => Some EOF | e => e end)
  else sr_at s off want.

(** An open file: a directory, or a [file] (the nil [io.ReaderAt] of entries
    without content is never called, its section being empty). *)
Inductive fsFile :=
  | DirFile (n : fsNode)
  | File (n : fsNode) (s : sectionReader).

Definition empty_section : sectionReader := NewSectionReader (fun _ _ => ([], Some EOF)) 0 0.

Definition Open (name : bytes) : result fserror fsFile :=
  n ← fs_lookup OpOpen name true;
  let mode := mode_type (fn_Node n) in
  if mode =? modeDir then Ok (DirFile n) else
  if mode =? modeRegular then
    if fs_version f =? 2 then
      match fs_payload f with
      | None => Err (FsPath OpOpen name FsNoPayload)
      | Some ra =>
          match checkPayloadRecord ra (fn_Node n) with
          | Err e => Err (FsPath OpOpen name (FsReader e))
          | Ok _ =>
              Ok (File n (NewSectionReader ra (i64 (i64 (r_PayloadOffset (fn_Node n)) + HeaderSize))
                            (i64 (r_Size (fn_Node n)))))
          end
      end
    else Ok (File n (NewSectionReader (fs_meta f) (fn_content n) (i64 (r_Size (fn_Node n)))))
  else Ok (File n empty_section).

(** [short]: content cut short by the source is an error, not [io.EOF]. *)
Definition short (err : option ioerr) (reached want : Z) : option ioerr :=
  match err with
  | Some EOF => if reached <? want then Some ErrUnexpectedEOF else err
  | _ => err
  end.

(** [file.Read] and [file.ReadAt]. *)
Definition file_Read (want : nat) (s : sectionReader) : bytes * option ioerr * sectionReader :=
  let pos := sr_off s - sr_base s in
  let '(b, e, s') := section_Read want s in
  (b, short e (pos + zlen b) (section_Size s), s').
Definition file_ReadAt (want : nat) (off : Z) (s : sectionReader) : bytes * option ioerr :=
  let '(b, e) := section_ReadAt want off s in
  (b, short e (off + zlen b) (Z.min (i64 (off + Z.of_nat want)) (section_Size s))).

Definition FsStat (name : bytes) : result fserror fsNode := fs_lookup OpStat name true.
Definition FsLstat (name : bytes) : result fserror fsNode := fs_lookup OpLstat name false.

Definition ReadLink (name : bytes) : result fserror bytes :=
  n ← fs_lookup OpReadlink name false;
  if negb (mode_type (fn_Node n) =? modeSymlink) then Err (FsPath OpReadlink name FsInvalid) else
  Ok (r_LinkTarget (fn_Node n)).

(* ------------------------------------------------------------------ *)
(** ** Directories *)

(** [dirFile]. *)
Record dirFile := mkDirFile { df_n : fsNode; df_entries : list fsNode; df_loaded : bool }.

Definition entry_le (a b : fsNode) : Prop := bytes_leb (fn_name a) (fn_name b) = true.
#[export] Instance entry_le_dec a b : Decision (entry_le a b).
Proof. unfold entry_le. apply _. Defined.

(** The loop of [dirFile.ReadDir] over the items: an error leaves the
    entries appended before it in the slice. *)
Fixpoint dir_append (d : fsNode) (gbStart : Z) (items : list gitem) (entries : list fsNode) :
    result fserror unit * list fsNode :=
  match items with
  | [] => (Ok (), entries)
  | it :: items =>
      match (c ← child f d it gbStart; resolveHardlink c) with
      | Err e => (Err e, entries)
      | Ok c => dir_append d gbStart items (entries ++ [c])
      end
  end.

Definition dir_load (d : dirFile) : result fserror unit * dirFile :=
  if df_loaded d then (Ok (), d) else
  match goodbye f (df_n d) with
  | Err e => (Err e, d)
  | Ok (items, gbStart) =>
      match dir_append (df_n d) gbStart items (df_entries d) with
      | (Err e, entries) => (Err e, mkDirFile (df_n d) entries false)
      | (Ok _, entries) => (Ok (), mkDirFile (df_n d) (merge_sort entry_le entries) true)
      end
  end.

(** [dirFile.ReadDir]. *)
Definition dir_ReadDir (n : Z) (d : dirFile) : (list fsNode * option fserror) * dirFile :=
  match dir_load d with
  | (Err e, d) => (([], Some e), d)
  | (Ok _, d) =>
      if n <=? 0 then ((df_entries d, None), mkDirFile (df_n d) [] true) else
      if decide (df_entries d = []) then (([], Some FsEOF), d) else
      let k := Z.to_nat (Z.min n (zlen (df_entries d))) in
      ((take k (df_entries d), None), mkDirFile (df_n d) (drop k (df_entries d)) true)
  end.

Definition ReadDir (name : bytes) : list fsNode * option fserror :=
  match fs_lookup OpReaddir name true with
  | Err e => ([], Some e)
  | Ok n => (dir_ReadDir (-1) (mkDirFile n [] false)).1
  end.

(** [dirFile.Read]. *)
Definition dir_Read (d : dirFile) : fserror := FsPath OpRead (r_Path (fn_Node (df_n d))) FsInvalid.
End fs.

(** [FileMode] ([fs.FileMode] bits). *)
Definition FileMode (mode : Z) : Z :=
  let m := Z.land mode 0x1ff in
  let m := if negb (Z.land mode 0x800 =? 0) then Z.lor m (2 ^ 23) else m in
  let m := if negb (Z.land mode 0x400 =? 0) then Z.lor m (2 ^ 22) else m in
  let m := if negb (Z.land mode 0x200 =? 0) then Z.lor m (2 ^ 20) else m in
  let t := Z.land mode modeTypeMask in
  if t =? modeDir then Z.lor m (2 ^ 31)
  else if t =? modeSymlink then Z.lor m (2 ^ 27)
  else if t =? modeBlockDev then Z.lor m (2 ^ 26)
  else if t =? modeCharDev then Z.lor m (Z.lor (2 ^ 26) (2 ^ 21))
  else if t =? modeFifo then Z.lor m (2 ^ 25)
  else if t =? modeSocket then Z.lor m (2 ^ 24)
  else m.

(** The [fs.FileInfo] of an entry. *)
Record fileInfo := mkInfo {
  fi_Name : bytes; fi_Size : Z; fi_Mode : Z; fi_ModTime : Z * Z; fi_IsDir : bool; fi_Sys : rnode }.
Definition info (c : fsNode) : fileInfo :=
  let n := fn_Node c in
  mkInfo (fn_name c) (i64 (r_Size n)) (FileMode (e_Mode (r_Entry n)))
    (e_MtimeSecs (r_Entry n), e_MtimeNanos (r_Entry n)) (mode_type n =? modeDir) n.
