(* ===== verification/FsSpec.v ===== *)
(** * The archive file system, specified

    What FS.v (pxar/fs.go) promises: a lookup always ends; over an emitted
    archive (the [encodes] grammar of Emit.v) walking the goodbye tables is
    walking the node tree, symbolic links, hardlinks and errors included, and
    opening a regular file gives its content. *)

From stdpp Require Import sorting.
From S2P Require Import Prelude Format BinTree Io Tree Payload Reuse Refs Emit Reader ReaderSpec ReaderSafe Previous ArchiveV2 FS.
From Stdlib Require Import Strings.Byte.
Local Open Scope Z_scope.

(* ------------------------------------------------------------------ *)
(** ** Lemmas: the walk of [resolve] *)

Lemma cut_slash_length s : s <> [] -> (length (cut_slash s).2 < length s)%nat.
Proof.
  induction s as [|c s IH]; intros Hs; [done|]. cbn [cut_slash]. case_decide; [cbn; lia|].
  destruct s as [|d s]; [cbn; lia|]. specialize (IH ltac:(done)). destruct (cut_slash (d :: s)) as [a b]. cbn in *. lia.
Qed.

(** Two walks over related entries. *)
Definition res_rel {A B E} (R : A -> B -> Prop) (m : result E A) (m' : result E B) : Prop :=
  match m, m' with
  | Ok a, Ok b => R a b
  | Err e, Err e' => e = e'
  | _, _ => False
  end.

Lemma res_rel_bind {A B A' B' E} (R : A -> B -> Prop) (Q : A' -> B' -> Prop) (m : result E A) (m' : result E B) f f' :
  res_rel R m m' -> (forall a b, R a b -> res_rel Q (f a) (f' b)) -> res_rel Q (m ≫= f) (m' ≫= f').
Proof. destruct m, m'; cbn; intros Hm Hf; try done. by apply Hf. Qed.

Section simulation.
Context {N M : Type} `{Entries N, Entries M} (R : N -> M -> Prop).

(** Related entries look the same to [resolve]. *)
Definition alike : Prop := forall a b, R a b ->
  en_dir a = en_dir b /\ en_symlink a = en_symlink b /\ en_hardlink a = en_hardlink b /\ en_path a = en_path b /\
  (en_symlink b = true -> en_target a = en_target b).

Context (Halike : alike) (root : N) (root' : M) (Hroot : R root root').
Context (look : N -> bytes -> result fserror N) (look' : M -> bytes -> result fserror M).
Context (hard : N -> result fserror N) (hard' : M -> result fserror M).
Context (Hlook : forall a b name, R a b -> en_dir b = true -> res_rel R (look a name) (look' b name)).
Context (Hhard : forall a b, R a b -> en_hardlink b = true -> res_rel R (hard a) (hard' b)).

Lemma resolve_loop_sim follow budget : forall fuel a b rest, R a b ->
  res_rel R (resolve_loop root look hard follow budget fuel a rest)
            (resolve_loop root' look' hard' follow budget fuel b rest).
Proof.
  induction budget as [|budget IHb]; intros fuel; induction fuel as [|fuel IHf]; intros a b rest HR;
    cbn [resolve_loop]; (case_decide; [done|]); try done.
  all: destruct (cut_slash rest) as [comp after]; destruct (Halike a b HR) as (-> & _ & _ & Hpath & _).
  all: destruct (en_dir b) eqn:Hd; cbn [negb]; [|done].
  all: eapply res_rel_bind; [by apply Hlook|]; intros c d Hcd.
  all: destruct (Halike c d Hcd) as (_ & _ & -> & _).
  all: eapply res_rel_bind; [destruct (en_hardlink d) eqn:Hh; [by apply Hhard|exact Hcd]|]; intros c' d' Hcd'.
  all: destruct (Halike c' d' Hcd') as (_ & -> & _ & _ & Ht).
  all: destruct (en_symlink d') eqn:Hs; cbn [andb]; [|by apply IHf].
  all: destruct (negb (bool_decide (after = [])) || follow); [|by apply IHf].
  { done. }
  rewrite Hpath, Ht by done. destruct (link_path _ _ _); [|done]. by apply IHb.
Qed.

Lemma resolve_from_sim follow name :
  res_rel R (resolve_from root look hard follow name) (resolve_from root' look' hard' follow name).
Proof. by apply resolve_loop_sim. Qed.
End simulation.

(** What a result may be. *)
Definition outcome {A E} (P : E -> Prop) (Q : A -> Prop) (m : result E A) : Prop :=
  match m with Ok a => Q a | Err e => P e end.

Lemma outcome_bind {A B E} (P : E -> Prop) (Q : A -> Prop) (Q' : B -> Prop) (m : result E A) f :
  outcome P Q m -> (forall a, Q a -> outcome P Q' (f a)) -> outcome P Q' (m ≫= f).
Proof. destruct m; cbn; auto. Qed.

Section invariant.
Context {N : Type} `{Entries N} (root : N) (P : fserror -> Prop) (Q : N -> Prop).
Context (look : N -> bytes -> result fserror N) (hard : N -> result fserror N).
Context (HP : P FsNOTDIR /\ P FsTooManyLinks /\ P FsNotExist) (Hroot : Q root).
Context (Hlook : forall a name, Q a -> en_dir a = true -> outcome P Q (look a name)).
Context (Hhard : forall a, Q a -> en_hardlink a = true -> outcome P Q (hard a)).

(** The walk ends with enough fuel for [rest], whatever it meets. *)
Lemma resolve_loop_inv follow budget : forall fuel a rest, Q a -> (length rest <= fuel)%nat ->
  outcome P Q (resolve_loop root look hard follow budget fuel a rest).
Proof.
  induction budget as [|budget IHb]; intros fuel; induction fuel as [|fuel IHf]; intros a rest Ha Hf;
    cbn [resolve_loop]; (case_decide as Hr; [done|]);
    try (by destruct rest; [done|cbn in Hf; lia]).
  all: pose proof (cut_slash_length rest Hr) as Hc; destruct (cut_slash rest) as [comp after]; cbn [snd] in Hc.
  all: destruct (en_dir a) eqn:Hd; cbn [negb]; [|apply HP].
  all: eapply outcome_bind; [by apply Hlook|]; intros c Hq.
  all: eapply outcome_bind; [destruct (en_hardlink c) eqn:Hh; [by apply Hhard|exact Hq]|]; intros c' Hq'.
  all: destruct (en_symlink c' && _); [|apply IHf; [done|lia]].
  { apply HP. }
  destruct (link_path _ _ _); [|apply HP]. by apply IHb.
Qed.

Lemma resolve_from_inv follow name : outcome P Q (resolve_from root look hard follow name).
Proof. by apply resolve_loop_inv. Qed.
End invariant.

(* ------------------------------------------------------------------ *)
(** ** Lemmas: the position of a Reader counts the bytes it consumed *)

Definition total (r : rstate) : Z := u64 (rd_pos r + Z.of_nat (bytes_left r)).

(** From [r] to [r'] bytes were consumed and counted. *)
Definition spent (r r' : rstate) : Prop :=
  total r' = total r /\ (bytes_left r' <= bytes_left r)%nat /\ (is_u64 (rd_pos r) -> is_u64 (rd_pos r')).

Lemma spent_refl r : spent r r.
Proof. done. Qed.
Lemma spent_trans r1 r2 r3 : spent r1 r2 -> spent r2 r3 -> spent r1 r3.
Proof. unfold spent. intros (H1 & H2 & H3) (H4 & H5 & H6). split; [congruence|]. split; [lia|auto]. Qed.

Definition have_ok (o : option (Z * Z)) : Prop := match o with Some (_, l) => 16 <= l | None => True end.
Definition have_is (t l : Z) (o : option (Z * Z)) : Prop := o = Some (t, l) /\ 16 <= l.

(** A successful [m] from a lookahead in [h] consumes as many bytes as it adds
    to the position and leaves a lookahead in [h']. *)
Definition counts {A} (h : option (Z * Z) -> Prop) (m : R A) (h' : A -> option (Z * Z) -> Prop) : Prop :=
  forall r a r', h (rd_have r) -> m r = (Ok a, r') -> spent r r' /\ h' a (rd_have r').

Lemma counts_bind {A B} h (m : R A) h1 (f : A -> R B) h2 :
  counts h m h1 -> (forall a, counts (h1 a) (f a) h2) -> counts h (m ≫= f) h2.
Proof.
  intros Hm Hf r b r' Hr E. unfold mbind, R_bind in E. destruct (m r) as [[a|e] r1] eqn:Em; [|done].
  destruct (Hm _ _ _ Hr Em) as [Hs H1]. destruct (Hf a _ _ _ H1 E) as [Hs' H2].
  split; [by eapply spent_trans|done].
Qed.
Lemma counts_pre {A} (h h0 : option (Z * Z) -> Prop) (m : R A) h' :
  (forall o, h0 o -> h o) -> counts h m h' -> counts h0 m h'.
Proof. intros Hi Hm r a r' Hr E. eapply Hm; eauto. Qed.
Lemma counts_fail {A} h e (h' : A -> _) : counts h (rfail e) h'.
Proof. by intros r a r' _ [=]. Qed.
Lemma counts_ret {A} (h : option (Z * Z) -> Prop) (a : A) (h' : A -> option (Z * Z) -> Prop) :
  (forall o, h o -> h' a o) -> counts h (mret a) h'.
Proof. intros Hi r b r' Hr E. unfold mret, R_ret in E. simplify_eq. split; [apply spent_refl|auto]. Qed.
Lemma counts_get {A} (h : option (Z * Z) -> Prop) (f : rstate -> A) : counts h (rget f) (fun _ => h).
Proof. intros r b r' Hr E. unfold rget in E. simplify_eq. split; [apply spent_refl|done]. Qed.
Lemma counts_lift {A} (h : option (Z * Z) -> Prop) (x : result rerror A) : counts h (lift x) (fun _ => h).
Proof. intros r b r' Hr E. unfold lift in E. simplify_eq. split; [apply spent_refl|done]. Qed.
Lemma counts_mod (h : option (Z * Z) -> Prop) f : (forall r, spent r (f r) /\ rd_have (f r) = rd_have r) ->
  counts h (rmod f) (fun _ => h).
Proof. intros Hf r b r' Hr E. unfold rmod in E. simplify_eq. destruct (Hf r) as [? ->]. done. Qed.

Lemma counts_peek : counts have_ok peek (fun x => have_is x.1 x.2).
Proof.
  intros r x r' Hr E. destruct (peek_left _ _ _ E) as [Hl Hh]. unfold have_is. rewrite Hh.
  unfold peek in E. destruct (rd_have r) as [h|] eqn:Eh.
  - injection E as <- <-. split; [done|]. split; [by destruct h|]. by destruct h.
  - destruct (ReadFull 16 (rd_br r)) as [[hdr [e|]] br]; [done|]. cbv beta iota zeta in E.
    destruct (Z.ltb_spec (get64 (drop 8 hdr)) HeaderSize) as [|Hge]; simplify_eq.
    unfold spent, total. rewrite Hl. split; [done|]. split; [done|exact Hge].
Qed.

Lemma take_bytes n (r : rstate) b br : ReadFull n (rd_br r) = ((b, None), br) ->
  (length (contents br).1 = length (contents (rd_br r)).1 - n)%nat /\ (n <= length (contents (rd_br r)).1)%nat.
Proof.
  intros E. destruct (ReadFull_spec n (rd_br r)) as [br' H]. cbv zeta in H. case_decide; [|by rewrite H in E].
  destruct H as [H Hc]. rewrite H in E. simplify_eq. rewrite Hc. cbn. rewrite length_drop. lia.
Qed.

(** A record is consumed whole. *)
Lemma consumed_total r br t l n : rd_have r = Some (t, l) -> 16 <= l -> n = Z.to_nat (l - HeaderSize) ->
  (length (contents br).1 = length (contents (rd_br r)).1 - n)%nat -> (n <= length (contents (rd_br r)).1)%nat ->
  spent r (set_have None (set_pos (u64 (rd_pos r + l)) (set_br br r))).
Proof.
  intros Hh Hl -> Hc Hle. unfold spent, total, bytes_left. rewrite Hh. cbn. rewrite Hc. unfold HeaderSize in *.
  rewrite u64_add_l. split; [f_equal; lia|]. split; [lia|intros _; apply u64_range].
Qed.

Lemma counts_rbody t l : counts (have_is t l) (rbody t l) (fun _ o => o = None).
Proof.
  intros r b r' [Hr Hl] E. unfold rbody in E. case_match; [done|].
  destruct (ReadFull _ _) as [[b' [e|]] br] eqn:Er; [done|]. simplify_eq.
  apply take_bytes in Er as [Hc Hle]. split; [|done]. by eapply consumed_total.
Qed.
Lemma counts_rskip t l : counts (have_is t l) (rskip t l) (fun _ o => o = None).
Proof.
  intros r b r' [Hr Hl] E. unfold rskip in E. case_match; [done|].
  destruct (ReadFull _ _) as [[b' [e|]] br] eqn:Er; [done|]. simplify_eq.
  apply take_bytes in Er as [Hc Hle]. split; [|done]. by eapply consumed_total.
Qed.

Lemma apply_meta_size n t b n' : apply_meta n t b = Ok n' -> r_Size n' = r_Size n /\ r_Hardlink n' = r_Hardlink n.
Proof. unfold apply_meta. intros E. by repeat case_match; simplify_eq. Qed.
Lemma keep_size k n t b : r_Size (keep k n t b) = r_Size n /\ r_Hardlink (keep k n t b) = r_Hardlink n.
Proof. by destruct k. Qed.

Lemma counts_metadata_loop fuel : forall n,
  counts have_ok (metadata_loop fuel n) (fun x o => have_is x.1.2 x.2 o /\ r_Size x.1.1 = r_Size n /\ r_Hardlink x.1.1 = r_Hardlink n).
Proof.
  induction fuel as [|fuel IH]; intros n; cbn [metadata_loop]; [apply counts_fail|].
  eapply counts_bind; [apply counts_peek|]. intros [t l]. cbn [fst snd].
  destruct (metadataRecord t); [|by apply counts_ret].
  case_match; [apply counts_fail|]. eapply counts_bind; [apply counts_rbody|]. intros b.
  eapply counts_bind; [apply counts_get|]. intros km.
  destruct (apply_meta (keep km n t b) t b) as [n'|e] eqn:Ea; [|by intros r a r' _ [=]].
  destruct (apply_meta_size _ _ _ _ Ea) as [E1 E2]. destruct (keep_size km n t b) as [E3 E4].
  rewrite E3 in E1. rewrite E4 in E2. rewrite <- E1, <- E2.
  intros r a r' Hr E. apply (IH n' r a r'); [by rewrite Hr|exact E].
Qed.

(** A decoded entry with its size and lookahead. *)
Definition sized (n : rnode) (o : option (Z * Z)) : Prop :=
  have_ok o /\ 0 <= r_Size n /\ (r_Hardlink n = true -> mode_type n = 0).

Lemma counts_payloadRecord n t l : r_Hardlink n = false -> counts (have_is t l) (payloadRecord n t l) sized.
Proof.
  intros Hnl r a r' Hr E. unfold payloadRecord in E. case_decide as Hv.
  - simplify_eq. destruct Hr as [Hr Hl]. split; [|split; [done|cbn; unfold HeaderSize; split; [lia|congruence]]].
    unfold spent, total, bytes_left. rewrite Hr. cbn.
    rewrite u64_add_l. split; [f_equal; unfold HeaderSize; lia|]. split; [lia|intros _; apply u64_range].
  - case_decide; [|done]. destruct (negb _); [done|].
    unfold mbind at 1, R_bind in E. destruct (rbody t l r) as [[b|e] r1] eqn:Eb; [|done].
    destruct (counts_rbody t l r b r1 Hr Eb) as [Hs Hh].
    assert (spent r1 r' /\ rd_have r' = rd_have r1 /\ 0 <= r_Size a /\ r_Hardlink a = false) as (Hs' & Hh' & Hz & Hnl').
    { pose proof (get64_range (drop 8 b)) as [Hg _]. clear - E Hg Hnl.
      unfold mbind, R_bind, rget, rmod, lift, mret, R_ret in E.
      repeat case_match; simplify_eq; cbn in *; try done. }
    split; [by eapply spent_trans|]. split; [by rewrite Hh', Hh|]. split; [done|congruence].
Qed.

Lemma counts_node_special path n t l : 0 <= r_Size n -> r_Hardlink n = false ->
  counts (have_is t l) (node_special path n t l) sized.
Proof.
  intros Hn Hnl. assert (forall o, have_is t l o -> sized n o) as Hi by (intros o [-> ?]; split_and!; [done..|congruence]).
  unfold node_special. case_decide; [|case_decide; [by apply counts_payloadRecord|case_decide; [|case_decide]]].
  - eapply counts_bind; [apply counts_get|]. intros ds. case_decide; [apply counts_fail|].
    eapply counts_bind; [by apply counts_mod|]. intros ?. by apply counts_ret.
  - case_match; [eapply counts_bind; [apply counts_get|]; intros; apply counts_fail|].
    eapply counts_bind; [apply counts_rbody|]. intros b. eapply counts_bind; [apply counts_lift|]. intros tg.
    destruct (decide (tg = [])); [apply counts_fail|]. apply counts_ret. intros o ->. by split_and!.
  - case_match; [eapply counts_bind; [apply counts_get|]; intros; apply counts_fail|].
    eapply counts_bind; [apply counts_rbody|]. intros b. apply counts_ret. intros o ->. split_and!; [done..|cbn; congruence].
  - case_decide; [|apply counts_fail]. by apply counts_ret.
Qed.

Lemma counts_read_node path : counts have_ok (read_node path) sized.
Proof.
  unfold read_node. eapply counts_bind; [apply counts_peek|]. intros [t l]. cbn [fst snd].
  case_decide.
  { eapply counts_bind; [apply counts_rbody|]. intros b. case_decide; [apply counts_fail|].
    eapply counts_bind; [apply counts_lift|]. intros tg. eapply counts_bind; [apply counts_lift|]. intros ?.
    apply counts_ret. intros o ->. by split_and!. }
  case_decide; [apply counts_fail|].
  case_match; [eapply counts_bind; [apply counts_get|]; intros; apply counts_fail|].
  case_match; [apply counts_fail|].
  eapply counts_bind; [apply counts_rbody|]. intros b. eapply counts_bind; [apply counts_get|]. intros km.
  cbv zeta. intros r a r' Hr E. unfold mbind at 1, R_bind in E.
  destruct (metadata _ r) as [[[[n t'] l']|e] r1] eqn:Em; [|done].
  destruct (counts_metadata_loop _ _ r _ _ ltac:(by rewrite Hr) Em) as [Hs [Hh [Hz Hnl]]]. cbn [fst snd] in *.
  rewrite (proj1 (keep_size _ _ _ _)) in Hz. rewrite (proj2 (keep_size _ _ _ _)) in Hnl. cbn in Hz, Hnl.
  destruct (counts_node_special path n t' l' ltac:(lia) Hnl _ _ _ Hh E) as [Hs' Hq].
  split; [by eapply spent_trans|done].
Qed.

Lemma counts_next_loop dirs : counts have_ok (next_loop dirs) sized.
Proof.
  induction dirs as [|d dirs IH]; cbn [next_loop].
  { intros r a r' _ E. by repeat case_match. }
  eapply counts_bind; [apply counts_peek|]. intros [t l]. cbn [fst snd].
  assert (forall o : option (Z * Z), o = None -> have_ok o) as Hz by (by intros o ->).
  case_decide.
  { eapply counts_bind; [apply counts_rskip|]. intros ?. eapply counts_bind; [by apply counts_mod|]. intros ?.
    by eapply counts_pre. }
  case_decide; [|eapply counts_bind; [apply counts_get|]; intros; apply counts_fail].
  eapply counts_bind; [apply counts_rbody|]. intros b. eapply counts_bind; [apply counts_lift|]. intros nm.
  eapply counts_bind; [apply counts_lift|]. intros ?. eapply counts_pre; [exact Hz|apply counts_read_node].
Qed.

(* ------------------------------------------------------------------ *)
(** ** Lemmas: sections and tables of any archive *)

(** "ReadAt reads len(p) bytes": never more. *)
Definition lawful (ra : readerAt) : Prop := forall off n, (length (ra off n).1 <= n)%nat.

Lemma section_loop_length ra : lawful ra -> forall fuel off limit,
  Z.of_nat (length (contents (section_loop fuel ra off limit)).1) <= Z.max 0 (limit - off).
Proof.
  intros Hl fuel. induction fuel as [|fuel IH]; intros off limit; cbn [section_loop];
    destruct (Z.leb_spec limit off); cbn [contents fst length]; try lia.
  pose proof (Hl off (Z.to_nat (Z.min 4096 (limit - off)))) as Hb.
  destruct (ra off (Z.to_nat (Z.min 4096 (limit - off)))) as [b [e|]] eqn:E; cbn [fst] in Hb; cbn [contents]; [cbn; lia|].
  specialize (IH (off + zlen b) limit). destruct (contents _) as [c e]. cbn [fst] in *. rewrite length_app. lia.
Qed.

Lemma section_length ra off n : lawful ra -> Z.of_nat (length (contents (section ra off n)).1) <= Z.max 0 n.
Proof.
  intros Hl. unfold section. cbv zeta.
  destruct (Z.leb_spec off (2 ^ 63 - 1 - n)).
  - pose proof (section_loop_length ra Hl (Z.to_nat (off + n - off)) off (off + n)). lia.
  - pose proof (section_loop_length ra Hl (Z.to_nat (2 ^ 63 - 1 - off)) off (2 ^ 63 - 1)). lia.
Qed.

(** Items lie between the entry of the directory and its table. *)
Definition item_in (lo hi : Z) (it : gitem) : Prop := lo < g_start it < hi /\ 0 < g_size it <= 2 ^ 62.

Lemma goodbye_items_in path dstart gbStart : 0 <= dstart <= gbStart -> gbStart <= 2 ^ 62 -> forall fuel table,
  outcome (fun e => e = FsItemRange path) (Forall (item_in dstart gbStart))
    (goodbye_items fuel path dstart gbStart table).
Proof.
  intros Hd Hg fuel. induction fuel as [|fuel IH]; intros table; cbn [goodbye_items]; [constructor|].
  destruct (_ || _) eqn:Eb; [done|]. apply orb_false_iff in Eb as [Eb E4].
  apply orb_false_iff in Eb as [Eb E3]. apply orb_false_iff in Eb as [E1 E2].
  eapply outcome_bind; [apply IH|]. intros items Hi. constructor; [|exact Hi].
  pose proof (get64_range (drop 8 table)) as H8. pose proof (get64_range (drop 16 table)) as H16.
  unfold is_u64 in *. rewrite u64_small in E2 by (unfold is_u64; lia).
  unfold item_in. cbn [g_start g_size]. rewrite u64_sub_l, u64_small by (unfold is_u64; lia). lia.
Qed.

Lemma i64_id z : - 2 ^ 63 <= z < 2 ^ 63 -> i64 z = z.
Proof. intros Hz. apply i64_small. unfold is_i64. lia. Qed.

(** Errors of this package, as opposed to running out of fuel. *)
Fixpoint ends (e : fserror) : Prop :=
  match e with
  | FsFuel => False
  | FsReader e => e <> RdFuel
  | FsHardlink _ _ e | FsPath _ _ e => ends e
  | _ => True
  end.

(** An entry inside an archive of [size] bytes. *)
Record inside (v size : Z) (c : fsNode) : Prop := {
  in_safe : safe_node (fn_Node c);
  in_dir : mode_type (fn_Node c) = modeDir ->
    0 <= fn_start c <= fn_end c /\ fn_end c <= size;
  in_content : mode_type (fn_Node c) = modeRegular -> v = 1 ->
    0 <= fn_content c /\ 0 <= r_Size (fn_Node c) /\ fn_content c + r_Size (fn_Node c) <= size }.

(** A child lies strictly inside its directory. *)
Definition nested (d c : fsNode) : Prop :=
  r_Hardlink (fn_Node c) = false -> mode_type (fn_Node c) = modeDir ->
  fn_start d < fn_start c /\ fn_end c < fn_end d.

Section any.
Context `{SipHash} (f : FS) (size : Z) (Hsize : 0 <= size <= 2 ^ 62) (Hmeta : lawful (fs_meta f)).

Lemma goodbye_in d : 0 <= fn_start d <= fn_end d -> fn_end d <= size ->
  outcome ends (fun x => Forall (item_in (fn_start d) x.2) x.1 /\ fn_start d <= x.2 < fn_end d) (goodbye f d).
Proof.
  intros Hd He. unfold goodbye. rewrite !(i64_id (fn_end d - _)) by lia.
  destruct (Z.ltb_spec (fn_end d - fn_start d) (HeaderSize + 24)) as [|Hsp]; [done|].
  destruct (fs_meta f (fn_end d - 24) 24) as [tail [e|]]; [done|].
  pose proof (get64_range (drop 16 tail)) as Hlen. unfold is_u64 in Hlen. unfold HeaderSize in *.
  destruct (_ || _) eqn:Eb; [done|]. apply orb_false_iff in Eb as [Eb E4].
  apply orb_false_iff in Eb as [Eb E3]. apply orb_false_iff in Eb as [_ E2].
  rewrite u64_small in E4 by (unfold is_u64; lia).
  destruct (maxGoodbye <? _); [done|]. rewrite (i64_id (get64 _)), i64_id by lia.
  destruct (fs_meta f _ _) as [table [e|]]; [done|]. destruct (_ || _); [done|].
  eapply outcome_bind.
  - pose proof (goodbye_items_in (r_Path (fn_Node d)) (fn_start d) (fn_end d - get64 (drop 16 tail)) ltac:(lia) ltac:(lia)
      (Z.to_nat ((get64 (drop 16 tail) - 16 - 24) / 24)) (drop 16 table)) as Hi.
    destruct (goodbye_items _ _ _ _ _); [exact Hi|]. by rewrite Hi.
  - intros items Hi. cbn [outcome fst snd]. split; [|lia].
    by rewrite (merge_sort_Permutation start_le items).
Qed.

Lemma child_inside d it gbStart : inside (fs_version f) size d -> 0 <= fn_start d -> gbStart <= fn_end d -> fn_end d <= size ->
  item_in (fn_start d) gbStart it -> gbStart < fn_end d ->
  outcome ends (fun c => inside (fs_version f) size c /\ nested d c) (child f d it gbStart).
Proof.
  intros [[Hp Hl] _ _] Hd Hg He [Hst Hsz] Hlt. unfold child. rewrite (i64_id (g_start it)), i64_id by lia.
  set (sec := section (fs_meta f) (g_start it) (gbStart - g_start it)).
  pose proof (section_length (fs_meta f) (g_start it) (gbStart - g_start it) Hmeta) as Hsec. fold sec in Hsec.
  set (r := mkR _ _ _ _ _ _ _ _ _ _ _ _).
  assert (safe_state r) as Hsafe by (split; [by apply Forall_singleton|cbn; unfold maxDepth; lia]).
  destruct (next r) as [[n|e] r'] eqn:E; pose proof (next_safe r _ r' Hsafe E) as Hn; [|exact Hn].
  destruct Hn as [Hn _]. change (next r) with (next_loop (rd_dirs r) r) in E.
  destruct (counts_next_loop (rd_dirs r) r n r' Logic.I E) as [(Htot & Hleft & Hu) (_ & Hz & Hlink)].
  destruct (r_Hardlink n) eqn:Eh; [split; [split; cbn [fn_Node fn_start fn_end]; [done|lia|rewrite Hlink by done; discriminate]|by intros ?; cbn in *; congruence]|].
  destruct (Z.eqb_spec (mode_type n) modeDir) as [Ed|Ed].
  { rewrite (i64_id (g_size it)), i64_id by lia.
    destruct (Z.ltb_spec gbStart (g_start it + g_size it)); [done|]. split.
    - split; cbn [fn_Node fn_start fn_end]; [done|lia|]. intros Er. by rewrite Ed in Er.
    - intros _ _. cbn [fn_start fn_end]. lia. }
  assert (inside (fs_version f) size (mkFsNode n (path_Base (r_Path n)) 0 0 0) \/ mode_type n = modeRegular /\ fs_version f = 1) as Hin.
  { destruct (decide (mode_type n = modeRegular /\ fs_version f = 1)) as [|Hno]; [by right|left].
    split; cbn [fn_Node]; [done|congruence|]. intros Er Ev. by destruct Hno. }
  assert (forall k, nested d (mkFsNode n (path_Base (r_Path n)) 0 0 k)) as Hnest by (intros k _ Em; cbn in Em; congruence).
  destruct ((mode_type n =? modeRegular) && (fs_version f =? 1)) eqn:Er.
  2: { destruct Hin as [Hin|[Hr Hv]]; [by split|]. by rewrite Hr, Hv in Er. }
  apply andb_true_iff in Er as [Er Ev]. apply Z.eqb_eq in Er, Ev.
  assert (0 <= rd_pos r' <= gbStart - g_start it) as Hpos.
  { specialize (Hu ltac:(by vm_compute)). unfold is_u64 in Hu. unfold total in Htot. change (rd_pos r) with 0 in Htot.
    assert (bytes_left r = length (contents sec).1) as Hb by (unfold bytes_left; cbn; lia). rewrite Hb in Hleft, Htot.
    rewrite (u64_small (0 + _)) in Htot by (unfold is_u64; lia). unfold u64 in Htot.
    destruct (Z_lt_le_dec (rd_pos r' + Z.of_nat (bytes_left r')) (2 ^ 64)) as [Hlt'|Hge].
    - rewrite Z.mod_small in Htot by lia. lia.
    - assert (rd_pos r' + Z.of_nat (bytes_left r') = (rd_pos r' + Z.of_nat (bytes_left r') - 2 ^ 64) + 1 * 2 ^ 64) as Hw by lia.
      rewrite Hw, Z_mod_plus_full, Z.mod_small in Htot by lia. lia. }
  rewrite (i64_id (rd_pos r')), (i64_id (_ + rd_pos r')) by lia.
  destruct (_ || _) eqn:Ec; [done|]. apply orb_false_iff in Ec as [Ec1 Ec2].
  rewrite (i64_id (r_Size n)), i64_id in Ec1 by lia.
  split; [|by apply Hnest]. split; cbn [fn_Node fn_content]; [done|congruence|]. intros _ _. lia.
Qed.

Lemma lookupChild_loop_inside d gbStart h name items : inside (fs_version f) size d -> 0 <= fn_start d ->
  gbStart < fn_end d -> fn_end d <= size -> Forall (item_in (fn_start d) gbStart) items ->
  outcome ends (fun c => inside (fs_version f) size c /\ nested d c) (lookupChild_loop f d gbStart h name items).
Proof.
  intros Hd Hs Hg He Hit. induction Hit as [|it items Hi _ IH]; cbn [lookupChild_loop]; [done|].
  destruct (negb _); [exact IH|]. eapply outcome_bind; [apply child_inside; try done; lia|].
  intros c Hc. case_decide; [exact Hc|exact IH].
Qed.

Lemma lookupChild_inside d name : inside (fs_version f) size d -> mode_type (fn_Node d) = modeDir ->
  outcome ends (fun c => inside (fs_version f) size c /\ nested d c) (lookupChild f d name).
Proof.
  intros Hd Hm. destruct (in_dir _ _ _ Hd Hm) as [Hs He]. eapply outcome_bind; [by apply goodbye_in|].
  intros [items gbStart] [Hit Hg]. cbn [fst snd] in *. apply lookupChild_loop_inside; try done; lia.
Qed.

Lemma lookupChild_in a name : inside (fs_version f) size a -> en_dir a = true ->
  outcome ends (inside (fs_version f) size) (lookupChild f a name).
Proof.
  intros Ha Hd. apply Z.eqb_eq in Hd. pose proof (lookupChild_inside a name Ha Hd) as Hl.
  destruct (lookupChild f a name); [by destruct Hl|exact Hl].
Qed.

Context (Hroot : inside (fs_version f) size (fs_root f)).

Lemma resolve_nested_inside name follow : outcome ends (inside (fs_version f) size) (resolve_nested f name follow).
Proof.
  apply resolve_from_inv; try done.
  intros a nm Ha Hd. by apply lookupChild_in.
Qed.

Lemma resolveHardlink_inside c : inside (fs_version f) size c ->
  outcome ends (inside (fs_version f) size) (resolveHardlink f c).
Proof.
  intros Hc. unfold resolveHardlink. destruct (negb _); [done|].
  pose proof (resolve_nested_inside (r_LinkTarget (fn_Node c)) false) as Hr.
  destruct (resolve_nested f _ false) as [t|e]; [|exact Hr]. cbn [outcome] in Hr.
  destruct (Z.eqb_spec (mode_type (fn_Node t)) modeDir); [done|]. destruct Hr as [H1 _ H3]. by split.
Qed.

Lemma resolve_inside name follow : outcome ends (inside (fs_version f) size) (resolve f name follow).
Proof.
  apply resolve_from_inv; try done.
  - intros a nm Ha Hd. by apply lookupChild_in.
  - intros a Ha _. by apply resolveHardlink_inside.
Qed.

Lemma fs_lookup_inside op name follow : outcome ends (inside (fs_version f) size) (fs_lookup f op name follow).
Proof.
  unfold fs_lookup. destruct (negb _); [done|]. pose proof (resolve_inside name follow) as Hr.
  destruct (resolve f name follow) as [n|e]; [|exact Hr]. case_decide; [exact Hr|].
  destruct Hr as [H1 H2 H3]. by split.
Qed.
End any.

Lemma open_inside meta size payload v f : 0 <= size -> open meta size payload v = Ok f ->
  fs_meta f = meta /\ fs_version f = v /\ fs_payload f = payload /\ inside v size (fs_root f).
Proof.
  intros Hs E. unfold open in E. set (r := mkR _ _ _ _ _ _ _ _ _ _ _ _) in E.
  destruct (Next r) as [[n|e] r'] eqn:En; [|done].
  destruct (Z.eqb_spec (mode_type n) modeDir) as [Hd|]; cbn [negb] in E; [|done]. injection E as <-.
  split_and!; try done.
  assert (safe_state r) as Hsafe by (split; [constructor|cbn; unfold maxDepth; lia]).
  unfold Next in En. change (rd_err r) with (@None rerror) in En. cbv iota in En.
  destruct (next r) as [[n'|e'] r1] eqn:E1; [|done]. injection En as -> ->.
  destruct (next_safe _ _ _ Hsafe E1) as [Hn _]. split; cbn [fs_root fn_Node fn_start fn_end]; [done|lia|].
  intros Er. by rewrite Hd in Er.
Qed.

(* ------------------------------------------------------------------ *)
(** ** Properties *)

(** C20: Whatever the bytes of a v1 or v2 archive: every path ends in an entry or
    an error, never out of fuel, within the forty symbolic links the code
    allows; the entry has a safe path and lies inside the archive, its
    directory span and its v1 content too; a directory found in a directory
    lies strictly inside it; and a regular file of a v1 archive opens on a
    section within the archive. *)
Theorem fs_safe `{SipHash} meta size payload v f : lawful meta -> 0 <= size <= 2 ^ 62 ->
  open meta size payload v = Ok f ->
  (forall name follow, outcome ends (inside v size) (resolve f name follow)) /\
  (forall d name, inside v size d -> mode_type (fn_Node d) = modeDir ->
     outcome ends (fun c => inside v size c /\ nested d c) (lookupChild f d name)) /\
  (forall name n s, Open f name = Ok (File n s) -> v = 1 -> 0 <= sr_base s <= sr_limit s /\ sr_limit s <= size).
Proof.
  intros Hl Hs E. destruct (open_inside _ _ _ _ _ (proj1 Hs) E) as (<- & <- & _ & Hroot). split_and!.
  - intros name follow. by apply resolve_inside.
  - intros d name Hd Hm. by apply lookupChild_inside.
  - intros name n s Ho Hv. pose proof (fs_lookup_inside f size Hs Hl Hroot OpOpen name true) as Hn.
    unfold Open in Ho. destruct (fs_lookup f OpOpen name true) as [m|e]; [|done]. cbn [mbind result_bind outcome] in *.
    destruct (Z.eqb_spec (mode_type (fn_Node m)) modeDir); [done|].
    destruct (Z.eqb_spec (mode_type (fn_Node m)) modeRegular) as [Hr|Hr].
    + rewrite Hv in Ho. cbn [Z.eqb Pos.eqb] in Ho. injection Ho as <- <-.
      destruct (in_content _ _ _ Hn Hr Hv) as (H1 & H2 & H3). unfold NewSectionReader. cbn [sr_base sr_limit].
      rewrite i64_id by lia. rewrite (proj2 (Z.leb_le _ _)) by lia. lia.
    + injection Ho as <- <-. change (sr_base empty_section) with 0. change (sr_limit empty_section) with 0. lia.
Qed.

(* ------------------------------------------------------------------ *)
(** ** Witnesses *)

(** The sample archive cut short: its last goodbye table is gone. *)
Definition cut_out : bytes := take 700 sample_out.
Definition no_node : rnode := mkRNode [] (mkEntry 0 0 0 0 0 0) false [] [] None None 0 zeroDevice 0 0 [].
Definition cut_fs : FS :=
  match OpenV1 (bytes_at cut_out) (zlen cut_out) with
  | Ok f => f
  | Err _ => mkFS (bytes_at []) None 1 (mkFsNode no_node [] 0 0 0)
  end.

Lemma fs_safe_witness :
  outcome ends (inside 1 (zlen cut_out)) (@resolve toy_siphash cut_fs (lit "d/l") true).
Proof.
  refine (proj1 (@fs_safe toy_siphash (bytes_at cut_out) (zlen cut_out) None 1 cut_fs _ _ _) (lit "d/l") true).
  - intros off n. unfold bytes_at. cbn [fst]. rewrite length_take. lia.
  - split; [lia|]. apply Z.leb_le. vm_compute. reflexivity.
  - vm_compute. reflexivity.
Defined.
