(* ===== verification/FsTree.v ===== *)
(** * The archive file system over an emitted archive

    Over a stream of the [encodes] grammar (Emit.v), the file system of
    pxar/fs.go is the node tree: the goodbye table of a directory lists its
    children, a child decodes to the node it encodes, walking a path is walking
    the tree, and an opened file reads as its content.  A directory whose last
    child is a fifo or a socket is the exception: that child does not decode. *)

From stdpp Require Import sorting.
From S2P Require Import Prelude Format BinTree Io Tree Payload Reuse Refs Emit Reader ReaderSpec ReaderSafe Previous ArchiveV2 FS FsSpec.
From Stdlib Require Import Strings.Byte.
Local Open Scope Z_scope.

(* ------------------------------------------------------------------ *)
(** ** Lemmas: sections *)

Lemma section_loop_reads ra b : reads_at ra b -> forall fuel off limit, 0 <= off -> limit <= zlen b ->
  limit - off <= Z.of_nat fuel ->
  contents (section_loop fuel ra off limit) = (take (Z.to_nat (limit - off)) (drop (Z.to_nat off) b), EOF).
Proof.
  intros Hra fuel. induction fuel as [|fuel IH]; intros off limit Ho Hl Hf; cbn [section_loop];
    destruct (Z.leb_spec limit off).
  1,3: by replace (Z.to_nat (limit - off)) with 0%nat by lia.
  { lia. }
  set (n := Z.to_nat (Z.min 4096 (limit - off))).
  assert (ra off n = (take n (drop (Z.to_nat off) b), None)) as ->.
  { rewrite <- (Z2Nat.id off) at 1 by lia. apply Hra. lia. }
  cbn [contents]. rewrite length_take, length_drop, Nat.min_l by lia.
  rewrite IH by lia. f_equal. replace (Z.to_nat (off + Z.of_nat n)) with (Z.to_nat off + n)%nat by lia.
  rewrite <- drop_drop. replace (Z.to_nat (limit - off)) with (n + Z.to_nat (limit - (off + Z.of_nat n)))%nat by lia.
  set (m := Z.to_nat (limit - (off + Z.of_nat n))). set (s := drop (Z.to_nat off) b).
  apply take_take_drop.
Qed.

Lemma section_reads ra b off n : reads_at ra b -> 0 <= off -> 0 <= n -> off + n <= zlen b -> zlen b < 2 ^ 63 ->
  contents (section ra off n) = (take (Z.to_nat n) (drop (Z.to_nat off) b), EOF).
Proof.
  intros Hra Ho Hn Hl Hb. unfold section. cbv zeta. rewrite (proj2 (Z.leb_le _ _)) by lia.
  rewrite (section_loop_reads ra b Hra) by lia. do 2 f_equal. lia.
Qed.

(** Part of a concatenation. *)
Lemma take_drop_mid {A} (a b c : list A) n k : k = length a -> n = length b -> take n (drop k (a ++ b ++ c)) = b.
Proof. intros -> ->. by rewrite drop_app_length, take_app_length. Qed.

Lemma reads_mid ra b0 a b c off n : reads_at ra b0 -> b0 = a ++ b ++ c -> off = zlen a -> n = length b ->
  ra off n = (b, None).
Proof.
  intros Hra -> -> ->. rewrite Hra by (rewrite !length_app; lia). f_equal. by apply take_drop_mid.
Qed.

(* ------------------------------------------------------------------ *)
(** ** Lemmas: goodbye tables *)

Definition to_gitem (gi : GoodbyeItem) : gitem := mkGItem (gi_Hash gi) (gi_Start gi) (gi_Length gi).

(** An item as [goodbye] accepts it. *)
Definition item_fits (lo hi : Z) (gi : GoodbyeItem) : Prop :=
  is_u64 (gi_Hash gi) /\ lo < gi_Start gi < hi /\ 0 < gi_Length gi <= 2 ^ 62.

Lemma items_bytes_cons gs it tree : items_bytes gs (it :: tree) =
  le64 (gi_Hash it) ++ le64 (u64 (gs - gi_Start it)) ++ le64 (gi_Length it) ++ items_bytes gs tree.
Proof. unfold items_bytes. cbn [mbind list_bind]. by rewrite <- !app_assoc. Qed.

Lemma goodbye_items_bytes path lo hi rest : 0 <= lo -> hi <= 2 ^ 62 -> forall tree, Forall (item_fits lo hi) tree ->
  goodbye_items (length tree) path lo hi (items_bytes hi tree ++ rest) = Ok (to_gitem <$> tree).
Proof.
  intros Hl Hh. induction 1 as [|gi tree (Hu & Hst & Hsz) _ IH]; [done|].
  cbn [length goodbye_items]. rewrite items_bytes_cons, <- !app_assoc.
  assert (is_u64 (gi_Length gi)) as Hu2 by (unfold is_u64; lia).
  set (a := le64 (gi_Hash gi)). set (b := le64 (u64 _)). set (c := le64 (gi_Length gi)).
  assert (forall s, drop 8 (a ++ s) = s /\ drop 16 (a ++ b ++ s) = s /\ drop 24 (a ++ b ++ c ++ s) = s) as Hdr.
  { intros s. split_and!; rewrite ?(app_assoc a), ?(app_assoc (a ++ b)); apply drop_len_app;
      subst a b c; rewrite ?length_app, !length_le64; reflexivity. }
  rewrite (proj1 (Hdr _)), (proj1 (proj2 (Hdr _))), (proj2 (proj2 (Hdr _))). subst a b c.
  rewrite !get64_le64, (u64_small (gi_Hash gi)), (u64_small (gi_Length gi)) by done.
  rewrite !(u64_small (hi - _)), (u64_small hi) by (unfold is_u64; lia).
  rewrite u64_small by (unfold is_u64; lia).
  replace (hi - gi_Start gi =? 0) with false by lia. replace (hi - lo <=? hi - gi_Start gi) with false by lia.
  replace (gi_Length gi =? 0) with false by lia. replace (2 ^ 62 <? gi_Length gi) with false by lia. cbn [orb].
  rewrite IH. cbn [mbind result_bind]. by replace (hi - (hi - gi_Start gi)) with (gi_Start gi) by lia.
Qed.

(** Sorted by start, a table is in archive order. *)
Lemma table_order tree items : tree ≡ₚ items -> StronglySorted (fun a b => gi_Start a < gi_Start b) items ->
  merge_sort start_le (to_gitem <$> tree) = to_gitem <$> items.
Proof.
  intros Hp Hs. apply (StronglySorted_unique_strong start_le).
  - intros x1 x2 H1 H2 Hle Hge. rewrite merge_sort_Permutation, Hp in H1.
    apply list_elem_of_fmap in H1 as (a & -> & Ha). apply list_elem_of_fmap in H2 as (b & -> & Hb).
    f_equal. assert (gi_Start a = gi_Start b) as E by (unfold start_le in *; cbn in *; lia). clear - Hs Ha Hb E.
    induction Hs as [|x l Hs IH Hx]; [by apply not_elem_of_nil in Ha|]. rewrite Forall_forall in Hx.
    apply elem_of_cons in Ha as [->|Ha], Hb as [->|Hb]; [done| | |auto].
    + specialize (Hx b Hb). cbn in Hx. lia.
    + specialize (Hx a Ha). cbn in Hx. lia.
  - apply StronglySorted_merge_sort; apply _.
  - clear Hp. induction Hs as [|x l Hs IH Hx]; [constructor|]. cbn. constructor; [exact IH|].
    apply Forall_fmap. eapply Forall_impl; [exact Hx|]. intros y Hy. unfold start_le. cbn in *. lia.
  - by rewrite merge_sort_Permutation, Hp.
Qed.

(* ------------------------------------------------------------------ *)
(** ** Lemmas: the children of an encoded directory *)

Section grammar.
Context `{SipHash} (v2 : bool) (cont : node -> bytes -> Prop).

Definition data_extra (d : item_data) : Z := match d with DRef _ size => size | _ => 0 end.

(** An encoding begins with the node itself. *)
Lemma encodes_head n isRoot ap pos ln out extra xs ln' :
  encodes v2 cont n isRoot ap pos ln out extra xs ln' ->
  exists d xs' body, xs = mkItem pos ap n d :: xs' /\ extra = data_extra d /\
    out = frames (head_recs n isRoot) ++ body /\ body <> [].
Proof.
  assert (forall s, frames (REntry (metaEntry n) :: extra_recs n) ++ s <> []) as Hne
    by (intros s; rewrite frames_cons; unfold frame, le64; cbn; done).
  destruct 1; unfold node_prefix; rewrite ?frames_app, <- ?app_assoc.
  - eexists _, [], _. by split_and!.
  - eexists _, _, _. split_and!; try done.
  - eexists _, [], _. split_and!; try done.
  - eexists _, [], _. split_and!; try done.
  - eexists _, [], _. split_and!; try done.
  - eexists _, [], _. split_and!; try done.
  - eexists _, [], _. split_and!; try done.
Qed.

Lemma encodes_starts c ap pos ln out extra xs ln' s : zlen (n_Name c) < maxRecordBody ->
  encodes v2 cont c false ap pos ln out extra xs ln' -> starts (out ++ s).
Proof.
  intros Hn He. destruct (encodes_head _ _ _ _ _ _ _ _ _ He) as (d & xs' & body & _ & _ & -> & _).
  cbn [head_recs]. rewrite frames_cons, frames_nil, app_nil_r, <- app_assoc. cbn [rec_type rec_body].
  apply starts_frame; [|by vm_compute]. split; [by vm_compute|]. rewrite length_app. unfold maxRecordBody in *. cbn. lia.
Qed.

(** The child [ch] and its goodbye item in the bytes [outs] that hold all
    children from [pos] on; [final] says that nothing follows it there. *)
Definition child_enc (good : item -> Prop) (ap : bytes) (pos : Z) (outs : bytes) (final : Prop)
    (ch : node) (gi : GoodbyeItem) : Prop :=
  exists pre out rest d xs ln ln',
    outs = pre ++ out ++ rest /\
    gi = mkGoodbyeItem (Hash (n_Name ch)) (pos + zlen pre) (zlen out + data_extra d) /\
    encodes v2 cont ch false (joinArchive ap (n_Name ch)) (pos + zlen pre) ln out (data_extra d)
      (mkItem (pos + zlen pre) (joinArchive ap (n_Name ch)) ch d :: xs) ln' /\
    Forall good (mkItem (pos + zlen pre) (joinArchive ap (n_Name ch)) ch d :: xs) /\
    0 < zlen out + data_extra d <= 2 ^ 62 /\
    (final -> rest = []) /\ (~ final -> starts rest).

Lemma encodes_children good ap cs pos ln outs items xs ln' :
  (forall it, good it -> 0 <= data_extra (it_data it) <= 2 ^ 61) ->
  encodes_all v2 cont ap cs pos ln outs items xs ln' -> 0 <= pos -> pos + zlen outs <= 2 ^ 61 -> Forall good xs ->
  Forall (fun c => ValidateFilename (n_Name c) = Ok () /\ zlen (n_Name c) < maxRecordBody) cs ->
  length items = length cs /\
  StronglySorted (fun a b => gi_Start a < gi_Start b) items /\
  Forall (fun gi => pos <= gi_Start gi /\ gi_Start gi < pos + zlen outs) items /\
  forall i ch, cs !! i = Some ch -> exists gi, items !! i = Some gi /\
    child_enc good ap pos outs (S i = length cs) ch gi.
Proof.
  intros Hex. induction 1 as [ap pos ln|ap c cs pos ln out extra xs ln1 outs items xs' ln2 Henc Hencs IH];
    intros Hp Hl Hg Hn.
  { split_and!; [done|constructor|constructor|done]. }
  apply Forall_cons in Hn as [Hnc Hn]. apply Forall_app in Hg as [Hgx Hg]. rewrite length_app in Hl.
  assert (u64 (pos + zlen out) = pos + zlen out) as Hpos by (apply u64_small; unfold is_u64; lia).
  rewrite Hpos in *. destruct (IH ltac:(lia) ltac:(lia) Hg Hn) as (Hlen & Hsort & Hrange & Hch).
  destruct (encodes_head _ _ _ _ _ _ _ _ _ Henc) as (d & xs0 & body & -> & -> & Eo & Hbody).
  apply Forall_cons in Hgx as Hgd. destruct Hgd as [Hgd _]. apply Hex in Hgd. cbn [it_data] in Hgd.
  assert (0 < zlen out) as Ho by (rewrite Eo, length_app; destruct body; [done|cbn [length]; lia]).
  assert (u64 (zlen out + data_extra d) = zlen out + data_extra d) as -> by (apply u64_small; unfold is_u64; lia).
  split_and!.
  - cbn. lia.
  - constructor; [done|]. eapply Forall_impl; [exact Hrange|]. cbn. intros gi. lia.
  - constructor; [cbn; rewrite length_app; lia|]. eapply Forall_impl; [exact Hrange|]. cbn. intros gi. rewrite length_app. lia.
  - intros [|i] ch Hi; cbn in Hi.
    + injection Hi as <-. eexists. split; [reflexivity|].
      exists [], out, outs, d, xs0, ln, ln1. rewrite Z.add_0_r. split_and!; try done; try lia.
      * intros Hf. cbn in Hf. destruct cs; [|cbn in Hf; lia]. by inversion Hencs.
      * intros Hf. destruct cs as [|c' cs]; [by destruct Hf|]. inversion Hencs; subst.
        rewrite <- (app_nil_r (_ ++ _)), <- app_assoc. eapply encodes_starts; [|eassumption].
        apply Forall_cons in Hn as [[_ Hn] _]. done.
    + destruct (Hch i ch Hi) as (gi & Hgi & pre & o & rest & d' & xs1 & l1 & l2 & -> & -> & He & Hg' & Hs & Hf & Hnf).
      eexists. split; [exact Hgi|]. exists (out ++ pre), o, rest, d', xs1, l1, l2.
      assert (pos + zlen (out ++ pre) = pos + zlen out + zlen pre) as -> by (rewrite length_app; lia).
      rewrite <- !app_assoc. split_and!; try done; try apply Hs; cbn [length]; intros; [apply Hf|apply Hnf]; lia.
Qed.
End grammar.

(* ------------------------------------------------------------------ *)
(** ** Lemmas: names and kinds *)

Lemma path_Base_name p name : name <> [] -> slash ∉ name ->
  path_Base (joinArchive p name) = name.
Proof.
  intros Hne Hs. unfold path_Base.
  assert (exists x, joinArchive p name = x ++ name /\ default [] (last (split_slash (x ++ name))) = name) as (x & -> & Hl).
  { unfold joinArchive. case_decide; [exists []|exists (p ++ [slash])]; (split; [by rewrite <- ?app_assoc|]).
    - cbn [app]. by rewrite split_slash_name.
    - by rewrite <- app_assoc, split_slash_join, last_snoc. }
  rewrite decide_False by (destruct x, name; done).
  assert (drop_slashes (rev (x ++ name)) = rev (x ++ name)) as ->.
  { destruct name as [|c name _] using rev_ind; [done|]. rewrite app_assoc, rev_app_distr. cbn [rev app drop_slashes].
    rewrite decide_False; [done|]. intros ->. apply Hs. set_solver. }
  rewrite rev_involutive, Hl. by rewrite decide_False.
Qed.

Lemma valid_name name : ValidateFilename name = Ok () -> name <> [] /\ slash ∉ name.
Proof. intros Hv. apply ValidateFilename_ok in Hv. tauto. Qed.

(** The mode of an entry read back is that of its kind. *)
Lemma decode_mode k it : wf_node (it_node it) -> n_Kind (it_node it) <> KindHardlink ->
  (forall t, it_data it <> DLink t) -> r_Hardlink (decode_item k it) = false /\
  mode_type (decode_item k it) = kind_mode (n_Kind (it_node it)).
Proof.
  intros Hw Hk Hd. unfold decode_item, mode_type. rewrite <- (wf_mode _ Hw).
  destruct (it_data it); [done..|]. by destruct (Hd offset).
Qed.

(* ------------------------------------------------------------------ *)
(** ** The tree as a file system *)

(** A node with its archive path. *)
Abbreviation tentry := (list Byte.byte * node)%type.

#[export] Instance tree_entries : Entries tentry := {|
  en_dir e := bool_decide (n_Kind e.2 = KindDirectory);
  en_symlink e := bool_decide (n_Kind e.2 = KindSymlink);
  en_hardlink e := bool_decide (n_Kind e.2 = KindHardlink);
  en_path e := e.1;
  en_target e := n_LinkTarget e.2 |}.

Fixpoint find_child (cs : list node) (name : bytes) : option node :=
  match cs with
  | [] => None
  | c :: cs => if decide (n_Name c = name) then Some c else find_child cs name
  end.

Definition tree_child (e : tentry) (name : bytes) : result fserror tentry :=
  match find_child (n_Children e.2) name with
  | Some c => Ok (joinArchive e.1 (n_Name c), c)
  | None => Err FsNotExist
  end.

(** A hardlink leads to the node at its target's path. *)
Definition tree_hardlink (root e : tentry) : result fserror tentry :=
  match resolve_from root tree_child (fun e => Err (FsNested e.1)) false (n_LinkTarget e.2) with
  | Err err => Err (FsHardlink e.1 (n_LinkTarget e.2) err)
  | Ok t => if decide (n_Kind t.2 = KindDirectory) then Err (FsHardlinkDir e.1) else Ok t
  end.

(** The entry at the path [name] of a tree. *)
Definition tree_resolve (root : tentry) (name : bytes) (follow : bool) : result fserror tentry :=
  resolve_from root tree_child (tree_hardlink root) follow name.

(* ------------------------------------------------------------------ *)
(** ** Lemmas: directories and children of an emitted archive *)

(** A directory whose goodbye table is within the limit of pxar/fs.go. *)
Definition listable (n : node) : Prop := wf_node n /\ zlen (n_Children n) <= 2796200.

Section emitted.
Context `{SipHash} (v2 : bool) (cont : node -> bytes -> Prop) (good : item -> Prop) (B : bytes) (f : FS).
Context (Hmeta : reads_at (fs_meta f) B) (Hver : fs_version f = if v2 then 2 else 1) (Hsmall : zlen B <= 2 ^ 61).
Context (Hex : forall it, good it -> 0 <= data_extra (it_data it) <= 2 ^ 61).

(** [d] is the directory [n], encoded at the end of its span in [B]. *)
Definition dir_at (d : fsNode) (ap : bytes) (n : node) : Prop :=
  exists isRoot pre out post ln extra xs ln',
    B = pre ++ out ++ post /\ encodes v2 cont n isRoot ap (zlen pre) ln out extra xs ln' /\ Forall good xs /\
    n_Kind n = KindDirectory /\ 0 <= fn_start d <= zlen pre /\ fn_end d = zlen pre + zlen out.

(** The child [ch] of a directory [d] at [ap], as its goodbye item says. *)
Definition child_at (d : fsNode) (ap : bytes) (gs : Z) (final : Prop) (ch : node) (gi : GoodbyeItem) : Prop :=
  exists out rest dd xs ln ln',
    gi_Hash gi = Hash (n_Name ch) /\ fn_start d < gi_Start gi < gs /\ gs <= zlen B /\
    gi_Length gi = zlen out + data_extra dd /\ gi_Start gi + zlen out + zlen rest = gs /\
    (exists pre post, B = pre ++ (out ++ rest) ++ post /\ zlen pre = gi_Start gi) /\
    encodes v2 cont ch false (joinArchive ap (n_Name ch)) (gi_Start gi) ln out (data_extra dd)
      (mkItem (gi_Start gi) (joinArchive ap (n_Name ch)) ch dd :: xs) ln' /\
    Forall good (mkItem (gi_Start gi) (joinArchive ap (n_Name ch)) ch dd :: xs) /\
    (final -> rest = []) /\ (~ final -> starts rest).

(** The three words that end a table. *)
Definition table_tail (x n : Z) : bytes := le64 GoodbyeTailMarker ++ le64 x ++ le64 (SizeGoodbye n).
Definition table_frame (gs x : Z) (tree : list GoodbyeItem) : bytes :=
  frame TypeGoodbye (items_bytes gs tree ++ table_tail x (zlen tree)).

Lemma table_frame_length gs x tree : zlen (table_frame gs x tree) = SizeGoodbye (zlen tree).
Proof.
  unfold table_frame, table_tail. rewrite length_frame, !length_app, length_items_bytes, !length_le64.
  unfold SizeGoodbye, HeaderSize. lia.
Qed.

Lemma table_tail_fields x n : 0 <= n <= 2796200 ->
  get64 (table_tail x n) = GoodbyeTailMarker /\ get64 (drop 16 (table_tail x n)) = SizeGoodbye n.
Proof.
  intros Hn. unfold table_tail. rewrite get64_le64. split; [by vm_compute|].
  rewrite app_assoc, drop_len_app by (by rewrite length_app, !length_le64).
  rewrite <- (app_nil_r (le64 _)), get64_le64. apply u64_small. unfold is_u64, SizeGoodbye, HeaderSize. lia.
Qed.

Lemma goodbye_table d pre tree x post gs :
  B = pre ++ table_frame gs x tree ++ post -> gs = zlen pre -> zlen tree <= 2796200 ->
  Forall (item_fits (fn_start d) gs) tree -> 0 <= fn_start d <= gs -> fn_end d = gs + SizeGoodbye (zlen tree) ->
  goodbye f d = Ok (merge_sort start_le (to_gitem <$> tree), gs).
Proof.
  intros HB Hgs Hn Hit Hd He.
  assert (SizeGoodbye (zlen tree) = 16 + 24 * (zlen tree + 1)) as Hsz by reflexivity.
  assert (zlen (table_frame gs x tree) = SizeGoodbye (zlen tree)) as Hlen by apply table_frame_length.
  assert (fn_end d <= zlen B) as Hend by (rewrite HB, !length_app; lia).
  destruct (table_tail_fields x (zlen tree) ltac:(lia)) as [Hm Hs].
  unfold goodbye. rewrite !(i64_id (fn_end d - _)) by lia. unfold HeaderSize.
  rewrite (proj2 (Z.ltb_ge _ _)) by lia.
  assert (length (table_tail x (zlen tree)) = 24%nat) as Htl by (unfold table_tail; by rewrite !length_app, !length_le64).
  set (hd := le64 TypeGoodbye ++ le64 (HeaderSize + zlen (items_bytes gs tree ++ table_tail x (zlen tree)))).
  assert (length hd = 16%nat) as Hhd by (subst hd; by rewrite length_app, !length_le64).
  assert (table_frame gs x tree = hd ++ items_bytes gs tree ++ table_tail x (zlen tree)) as Ef
    by (subst hd; unfold table_frame, frame; by rewrite <- app_assoc).
  rewrite (reads_mid _ _ (pre ++ hd ++ items_bytes gs tree) (table_tail x (zlen tree)) post _ _ Hmeta).
  2: { rewrite HB, Ef, <- !app_assoc. done. }
  2: { rewrite !length_app, length_items_bytes, Hhd. lia. }
  2: { done. }
  rewrite Hm, Hs, Z.eqb_refl. cbn [negb orb]. rewrite u64_small by (unfold is_u64; lia).
  replace (SizeGoodbye (zlen tree) <? 16 + 24) with false by lia.
  replace (fn_end d - fn_start d <? SizeGoodbye (zlen tree)) with false by lia.
  replace ((SizeGoodbye (zlen tree) - 16) mod 24 =? 0) with true.
  2: { replace (SizeGoodbye (zlen tree) - 16) with ((zlen tree + 1) * 24) by lia. by rewrite Z_mod_mult. }
  cbn [negb orb]. replace (maxGoodbye <? SizeGoodbye (zlen tree)) with false by (unfold maxGoodbye; rewrite Z.shiftl_mul_pow2 by lia; lia).
  rewrite (i64_id (SizeGoodbye _)), i64_id by lia. replace (fn_end d - SizeGoodbye (zlen tree)) with gs by lia.
  rewrite (reads_mid _ _ pre (table_frame gs x tree) post _ _ Hmeta HB Hgs) by lia.
  assert (get64 (table_frame gs x tree) = TypeGoodbye /\ get64 (drop 8 (table_frame gs x tree)) = SizeGoodbye (zlen tree) /\
    drop 16 (table_frame gs x tree) = items_bytes gs tree ++ table_tail x (zlen tree)) as (-> & -> & ->).
  { rewrite Ef. split_and!; [subst hd; rewrite <- app_assoc, get64_le64; by vm_compute| |by apply drop_len_app].
    subst hd. rewrite <- app_assoc, drop_len_app by (by rewrite length_le64). rewrite get64_le64.
    rewrite length_app, length_items_bytes, Htl. unfold HeaderSize. rewrite u64_small; [lia|unfold is_u64; lia]. }
  rewrite !Z.eqb_refl. cbn [negb orb].
  replace (Z.to_nat ((SizeGoodbye (zlen tree) - 16 - 24) / 24)) with (length tree).
  2: { replace (SizeGoodbye (zlen tree) - 16 - 24) with (zlen tree * 24) by lia. rewrite Z_div_mult by lia. lia. }
  rewrite goodbye_items_bytes; [done|apply Hd|lia|exact Hit].
Qed.

Lemma AppendGoodbye_table items ds gs gb : zlen items < 2 ^ 61 -> AppendGoodbye [] items ds gs = Some gb ->
  exists tree, tree ≡ₚ items /\ gb = table_frame gs (u64 (gs - ds)) tree.
Proof.
  intros Hl E. destruct (AppendGoodbye_spec [] items ds gs Hl) as (tree & Hp & E'). rewrite E in E'.
  injection E' as ->. exists tree. split; [done|]. unfold table_frame, table_tail. by rewrite (Permutation_length Hp).
Qed.

(** The goodbye table lists the children in archive order. *)
Lemma goodbye_emitted d ap n : dir_at d ap n -> listable n ->
  exists items gs, goodbye f d = Ok (to_gitem <$> items, gs) /\ gs < fn_end d /\ length items = length (n_Children n) /\
    forall i ch, n_Children n !! i = Some ch -> exists gi, items !! i = Some gi /\
      child_at d ap gs (S i = length (n_Children n)) ch gi.
Proof.
  intros (isRoot & pre & out & post & ln & extra & xs & ln' & HB & Henc & Hg & Hk & Hd & He) [Hw Hn].
  inversion Henc as [|n0 ir ap0 pos0 ln0 outs items xs0 ln0' gb Hk0 Hch Hgb| | | | |]; subst; try congruence;
    try (by destruct (n_Kind n)); try (by intuition congruence).
  set (prefix := node_prefix n isRoot) in *. apply Forall_cons in Hg as [_ Hg].
  assert (0 < zlen prefix) as Hpre.
  { subst prefix. unfold node_prefix. rewrite frames_app, frames_cons, !length_app, length_frame. lia. }
  pose proof Hsmall as Hsm. rewrite HB, !length_app in Hsm. rewrite !length_app in He. rewrite length_app in Hgb.
  rewrite (u64_small (zlen pre + zlen prefix)) in Hch by (unfold is_u64; lia).
  rewrite (u64_small (zlen pre + Z.of_nat (length prefix + length outs))) in Hgb by (unfold is_u64; lia).
  destruct (encodes_children v2 cont good ap _ _ _ _ _ _ _ Hex Hch) as (Hlen & Hsort & Hrange & Hchild);
    [lia|lia|done|by apply wf_children|].
  destruct (AppendGoodbye_table items _ _ _ ltac:(lia) Hgb) as (tree & Hp & ->).
  set (gs := zlen pre + Z.of_nat (length prefix + length outs)) in *.
  pose proof (table_frame_length gs (u64 (gs - (if isRoot then 0 else u64 (zlen pre + zlen (frames (head_recs n isRoot)))))) tree) as Htl.
  pose proof (Permutation_length Hp) as Hzt.
  exists items, gs. split_and!; [|unfold SizeGoodbye, HeaderSize in *; lia|done|].
  - erewrite (goodbye_table d (pre ++ prefix ++ outs) tree).
    + by rewrite (table_order tree items).
    + rewrite HB, <- !app_assoc. reflexivity.
    + rewrite !length_app. lia.
    + lia.
    + rewrite Hp. apply Forall_forall. intros gi Hgi. rewrite Forall_forall in Hrange. specialize (Hrange gi Hgi).
      apply list_elem_of_lookup in Hgi as [i Hi]. assert (i < length (n_Children n))%nat as Hlt
        by (rewrite <- Hlen; by eapply lookup_lt_Some). apply lookup_lt_is_Some in Hlt as [ch Hc].
      destruct (Hchild i ch Hc) as (gi' & Hi' & p & o & r & dd & ys & l1 & l2 & _ & Egi & _ & _ & Hs & _).
      assert (gi = gi') as -> by congruence. rewrite Egi in *. split_and!; cbn [gi_Hash gi_Start gi_Length] in *; try lia.
      apply siphash_range.
    + lia.
    + lia.
  - intros i ch Hi. destruct (Hchild i ch Hi) as (gi & Hgi & p & o & r & dd & ys & l1 & l2 & -> & -> & Hce & Hcg & Hs & Hf & Hnf).
    eexists. split; [exact Hgi|]. exists o, r, dd, ys, l1, l2. cbn [gi_Hash gi_Start gi_Length].
    rewrite Forall_forall in Hrange. assert (mkGoodbyeItem (Hash (n_Name ch)) (zlen pre + zlen prefix + zlen p) (zlen o + data_extra dd) ∈ items) as Hin
      by (by eapply list_elem_of_lookup_2). specialize (Hrange _ Hin). cbn [gi_Start] in Hrange.
    assert (gs = zlen pre + (zlen prefix + zlen (p ++ o ++ r))) as Egs by (subst gs; lia).
    assert (gs <= zlen B) as HgB by (rewrite HB, Egs, !length_app; lia). rewrite !length_app in *.
    split_and!; try done; try lia.
    exists (pre ++ prefix ++ p), (table_frame gs (u64 (gs - (if isRoot then 0 else u64 (zlen pre + zlen (frames (head_recs n isRoot)))))) tree ++ post).
    split; [by rewrite HB, <- !app_assoc|rewrite !length_app; lia].
Qed.

(** An entry of the file system that stands for the node [n] at [ap]. *)
Definition node_at (c : fsNode) (ap : bytes) (n : node) : Prop :=
  exists it, fn_Node c = decode_item false it /\ it_path it = ap /\ it_node it = n /\ good it /\ item_ok v2 cont it /\
    (n_Kind n = KindDirectory -> dir_at c ap n) /\
    (forall content, it_data it = DContent content ->
       exists pre post, B = pre ++ content ++ post /\ zlen pre = fn_content c).

(** The Reader of [child], at a filename record. *)
Definition child_reader (d : fsNode) (start gs : Z) : rstate :=
  mkR (section (fs_meta f) start (gs - start)) None (fs_version f) false true false [r_Path (fn_Node d)] 0 None CNone 0 None.

Lemma child_reader_ready d start gs pre s post : B = pre ++ s ++ post -> zlen pre = start -> start + zlen s = gs ->
  contents (rd_br (child_reader d start gs)) = (s, EOF) /\
  ready (fs_version f) None false (child_reader d start gs) [r_Path (fn_Node d)] s.
Proof.
  intros HB Hpre Hsum. assert (contents (rd_br (child_reader d start gs)) = (s, EOF)) as Hc.
  { assert (gs <= zlen B) as Hgs by (rewrite HB, !length_app; lia).
    unfold child_reader. cbn [rd_br]. rewrite (section_reads (fs_meta f) B) by (done || lia). f_equal. rewrite HB.
    apply take_drop_mid; lia. }
  split; [done|]. split; [done|]. split; [done|]. split; [|done]. unfold streams, stream. rewrite Hc. done.
Qed.

Lemma Next_next r n r' : rd_err r = None -> Next r = (Ok n, r') -> next r = (Ok n, r').
Proof. unfold Next. intros -> E. destruct (next r) as [[n'|e] r1]; congruence. Qed.

(** Below the limits of the format, a child other than a fifo or socket at the
    end of its directory. *)
Definition decodes (final : Prop) (ch : node) : Prop :=
  tree_all wf_node ch /\ (height ch < maxDepth)%nat /\
  ValidateFilename (n_Name ch) = Ok () /\ zlen (n_Name ch) < maxRecordBody /\
  (n_Kind ch = KindFifo \/ n_Kind ch = KindSocket -> ~ final).

(** The Reader of [child] returns the node its bytes encode. *)
Lemma child_reads d ap gs final ch gi : child_at d ap gs final ch gi -> decodes final ch ->
  r_Path (fn_Node d) = ap -> exists out dd xs ln ln' r',
    let it := mkItem (gi_Start gi) (joinArchive ap (n_Name ch)) ch dd in
    next (child_reader d (gi_Start gi) gs) = (Ok (decode_item false it), r') /\
    encodes v2 cont ch false (joinArchive ap (n_Name ch)) (gi_Start gi) ln out (data_extra dd) (it :: xs) ln' /\
    Forall good (it :: xs) /\ gi_Length gi = zlen out + data_extra dd /\ gi_Start gi + zlen out <= gs /\
    (exists pre post, B = pre ++ out ++ post /\ zlen pre = gi_Start gi) /\
    (forall c, dd = DContent c -> rd_pos r' = zlen out - zlen c).
Proof.
  intros (out & rest & dd & xs & ln & ln' & _ & _ & Hgs & Hlen & Hsum & (pre & post & HB & Hpre) & He & Hg & Hf & Hnf)
    (Hw & Hh & Hv & Hnl & Hplain) Hp.
  destruct (encodes_head _ _ _ _ _ _ _ _ _ _ _ He) as (d' & xs' & body & [= -> ->] & _ & Eo & _).
  set (r := child_reader d (gi_Start gi) gs).
  destruct (child_reader_ready d (gi_Start gi) gs pre (out ++ rest) post HB Hpre ltac:(rewrite length_app; lia)) as [Hc Hr].
  rewrite Hp in Hr. fold r in Hr, Hc.
  assert (out ++ rest = frame TypeFilename (n_Name ch ++ [nul]) ++ body ++ rest) as Eor.
  { rewrite Eo. cbn [head_recs]. by rewrite frames_cons, frames_nil, app_nil_r, <- app_assoc. }
  pose proof Hr as Hr'. rewrite Eor in Hr'. apply ready_pend in Hr'.
  destruct (next_filename (fs_version f) None false ap [] (n_Name ch) (body ++ rest) r [] Hv Hnl Hr') as (r1 & En & Hr1).
  destruct (encodes_visits (fs_version f) None false (fun _ _ => []) v2 cont Hver) as [Hvis _].
  destruct (Hvis _ _ _ _ _ _ _ _ _ He [ap] rest body Hw) as (x0 & xs0 & D1 & s1 & Hx0 & Hread & _); try done.
  { cbn. lia. }
  { intros _. by apply joinArchive_not_nil. }
  { apply Forall_true. intros it. unfold served. by destruct (it_data it). }
  { intros Hk. by apply Hnf, Hplain. }
  injection Hx0 as <- <-. destruct (Hread r1 Hr1) as (r2 & E2 & _ & Hstr). rewrite E2 in En.
  exists out, d', xs', ln, ln', r2. cbv zeta. split; [by apply Next_next|]. split_and!; try done; try lia.
  { exists pre, (rest ++ post). by rewrite HB, <- app_assoc. }
  intros c ->. apply Next_next in En; [|done]. change (next r) with (next_loop (rd_dirs r) r) in En.
  destruct (counts_next_loop (rd_dirs r) r _ r2 Logic.I En) as [(Htot & Hleft & Hu) _].
  destruct (Hstr c eq_refl) as (_ & _ & Hs).
  assert (bytes_left r2 = (length c + length rest)%nat) as Hb2.
  { unfold bytes_left. rewrite <- length_app, <- Hs. unfold stream. rewrite length_app.
    destruct (rd_have r2) as [[t l]|]; rewrite ?length_app, ?length_le64; cbn; lia. }
  assert (bytes_left r = (length out + length rest)%nat) as Hb.
  { unfold bytes_left. rewrite Hc. cbn. rewrite length_app. lia. }
  specialize (Hu ltac:(by vm_compute)). unfold is_u64 in Hu. unfold total in Htot. rewrite Hb, Hb2 in Htot. rewrite Hb, Hb2 in Hleft.
  change (rd_pos r) with 0 in Htot.
  assert (zlen out + zlen rest <= 2 ^ 61) as Hob by (pose proof Hsmall as Hsm; rewrite HB, !length_app in Hsm; lia).
  rewrite (u64_small (0 + _)) in Htot by (unfold is_u64; lia). unfold u64 in Htot.
  destruct (Z_lt_le_dec (rd_pos r2 + Z.of_nat (length c + length rest)) (2 ^ 64)) as [Hlt|Hge].
  - rewrite Z.mod_small in Htot by lia. lia.
  - rewrite <- (Z_mod_plus_full _ (-1)), Z.mod_small in Htot by lia. lia.
Qed.

Lemma kind_modes k : (kind_mode k =? modeDir) = bool_decide (k = KindDirectory) /\
  (kind_mode k =? modeSymlink) = bool_decide (k = KindSymlink) /\
  (kind_mode k =? modeRegular) = is_payload k || bool_decide (k = KindHardlink).
Proof. by destruct k. Qed.

(** A child decodes to an entry that stands for it. *)
Lemma child_emitted d ap gs final ch gi : child_at d ap gs final ch gi -> decodes final ch -> 0 <= fn_start d ->
  r_Path (fn_Node d) = ap -> exists c, child f d (to_gitem gi) gs = Ok c /\
    fn_name c = n_Name ch /\ node_at c (joinArchive ap (n_Name ch)) ch.
Proof.
  intros Hat Hdec Hd Hp. destruct (child_reads _ _ _ _ _ _ Hat Hdec Hp) as
    (out & dd & xs & ln & ln' & r' & En & He & Hg & Hlen & Hend & (pre & post & HB & Hpre) & Hpos).
  destruct Hat as (_ & _ & _ & _ & _ & _ & _ & Hst & Hgs & _).
  destruct Hdec as ((Hw & _) & _ & Hv & _ & _). set (it := mkItem _ _ _ _) in *.
  destruct (encodes_items v2 cont) as [Hitems _]. specialize (Hitems _ _ _ _ _ _ _ _ _ He).
  apply Forall_cons in Hitems as [Hit _]. pose proof Hg as Hgs'. apply Forall_cons in Hgs' as [Hgit _].
  destruct (valid_name _ Hv) as [Hne Hsl].
  assert (path_Base (r_Path (decode_item false it)) = n_Name ch) as Hbase.
  { assert (r_Path (decode_item false it) = joinArchive ap (n_Name ch)) as -> by (subst it; unfold decode_item; by destruct dd).
    by apply path_Base_name. }
  pose proof (Hex it Hgit) as Hsz. cbn [it it_data] in Hsz.
  assert (zlen out <= 2 ^ 61) as Hout by (pose proof Hsmall as Hsm; rewrite HB, !length_app in Hsm; lia).
  unfold child, to_gitem. cbn [g_start g_size]. rewrite (i64_id (gi_Start gi)), (i64_id (gs - _)) by lia.
  fold (child_reader d (gi_Start gi) gs). rewrite En, Hbase.
  destruct (decide (n_Kind ch = KindHardlink)) as [Hk|Hk].
  { unfold item_ok in Hit. subst it. cbn [it_data it_node] in *. destruct dd as [|c|o sz|t];
      [by destruct Hit|by destruct Hit as (_ & Hpay & _); rewrite Hk in Hpay|by destruct Hit as (_ & Hpay & _); rewrite Hk in Hpay|].
    cbn [decode_item it_data r_Hardlink]. eexists. split; [reflexivity|]. split; [done|].
    exists (mkItem (gi_Start gi) (joinArchive ap (n_Name ch)) ch (DLink t)). split_and!; try done; congruence. }
  assert (forall t, it_data it <> DLink t) as Hnl.
  { intros t Et. unfold item_ok in Hit. by rewrite Et in Hit. }
  destruct (decode_mode false it Hw Hk Hnl) as [-> ->]. cbn [it it_node].
  destruct (kind_modes (n_Kind ch)) as (-> & _ & ->). rewrite Hlen.
  case_bool_decide as Hdir.
  { rewrite (i64_id (zlen out + _)), i64_id by lia.
    assert (data_extra dd = 0) as Hz.
    { unfold item_ok in Hit. subst it. cbn [it_data it_node] in *. rewrite Hdir in Hit.
      destruct dd; [done|done|by destruct Hit as (_ & ? & _)|done]. }
    rewrite Hz, (proj2 (Z.ltb_ge _ _)) by lia. eexists. split; [reflexivity|]. split; [done|].
    exists it. split_and!; try done.
    - intros _. exists false, pre, out, post, ln, (data_extra dd), (it :: xs), ln'. rewrite Hpre. cbn [fn_start fn_end].
      split_and!; try done; lia.
    - intros c Ec. unfold item_ok in Hit. rewrite Ec in Hit. cbn [it it_node] in Hit. rewrite Hdir in Hit. by destruct Hit as (_ & ? & _). }
  rewrite (bool_decide_false (n_Kind ch = KindHardlink)), orb_false_r by done. rewrite Hver.
  destruct (is_payload (n_Kind ch) && _) eqn:Epay.
  - apply andb_true_iff in Epay as [Epay E1]. destruct v2 eqn:Ev; [done|].
    pose proof Hit as Hit'. unfold item_ok in Hit'. subst it. cbn [it_data it_node] in *.
    destruct dd as [|c|o sz|t]; [destruct Hit'; congruence| |by destruct Hit'|done].
    cbn [data_extra] in *. cbn [decode_item it_data r_Size r_Path it_path]. specialize (Hpos c eq_refl).
    assert (exists hd, out = hd ++ c) as [hd Ehd] by (inversion He; subst; eexists; by rewrite app_assoc).
    assert (zlen out = zlen hd + zlen c) as Hoc by (rewrite Ehd, length_app; lia).
    rewrite (i64_id (rd_pos r')), (i64_id (_ + rd_pos r')), (i64_id (zlen c)), i64_id by lia.
    rewrite (proj2 (Z.ltb_ge _ _)), (proj2 (Z.ltb_ge (2 ^ 62) _)) by lia. cbn [orb].
    eexists. split; [reflexivity|]. split; [done|].
    exists (mkItem (gi_Start gi) (joinArchive ap (n_Name ch)) ch (DContent c)). split; [reflexivity|]. split; [done|]. split; [done|]. split; [exact Hgit|]. split; [rewrite Ev; exact Hit|].
    split; [intros Hkd; by rewrite Hkd in Epay|].
    cbn [it_data fn_content]. intros c' [= <-]. exists (pre ++ hd), post. rewrite length_app.
    split; [by rewrite HB, Ehd, <- !app_assoc|lia].
  - eexists. split; [reflexivity|]. split; [done|]. exists it. split_and!; try done.
    intros c Ec. unfold item_ok in Hit. rewrite Ec in Hit. destruct Hit as (Hv2 & Hpy & _). cbn [it it_node] in Hpy.
    rewrite Hpy, Hv2 in Epay. done.
Qed.

(** A fifo or socket that ends its directory does not decode: looking for more
    metadata records, its Reader meets the end of its section. *)
Lemma child_last_plain d ap gs ch gi : child_at d ap gs True ch gi -> wf_node ch ->
  ValidateFilename (n_Name ch) = Ok () -> zlen (n_Name ch) < maxRecordBody ->
  n_Kind ch = KindFifo \/ n_Kind ch = KindSocket -> 0 <= fn_start d -> r_Path (fn_Node d) = ap ->
  exists pos, child f d (to_gitem gi) gs = Err (FsReader (RdTruncated pos)).
Proof.
  intros (out & rest & dd & xs & ln & ln' & _ & Hst & Hgs & Hlen & Hsum & (pre & post & HB & Hpre) & He & Hg & Hf & _) Hw Hv Hnl Hk Hd Hp.
  rewrite (Hf Logic.I) in *. rewrite app_nil_r in HB. cbn [length] in Hsum.
  assert (out = frame TypeFilename (n_Name ch ++ [nul]) ++ frames (REntry (metaEntry ch) :: extra_recs ch)) as Eo.
  { inversion He; subst; try (destruct Hk; congruence); try (by destruct Hk as [Hk|Hk]; rewrite Hk in * ); exfalso; intuition congruence. }
  set (r := child_reader d (gi_Start gi) gs).
  destruct (child_reader_ready d (gi_Start gi) gs pre out post HB Hpre ltac:(lia)) as [Hc Hr].
  rewrite Hp, Eo in Hr. fold r in Hr. apply ready_pend in Hr.
  destruct (next_filename (fs_version f) None false ap [] (n_Name ch) _ r [] Hv Hnl Hr) as (r1 & En & Hr1).
  destruct (read_node_end (fs_version f) None false ch (joinArchive ap (n_Name ch)) r1 [ap] Hw Hr1) as (pos & r2 & E2).
  rewrite E2 in En. exists pos. unfold child, to_gitem. cbn [g_start g_size].
  assert (zlen out <= 2 ^ 61) as Hout by (pose proof Hsmall as Hsm; rewrite HB, !length_app in Hsm; lia).
  rewrite (i64_id (gi_Start gi)), (i64_id (gs - _)) by lia. fold (child_reader d (gi_Start gi) gs). fold r.
  unfold Next in En. change (rd_err r) with (@None rerror) in En. cbv iota in En.
  destruct (next r) as [[n|e] r3]; [done|]. by injection En as -> _.
Qed.

(** What the file system can show of a directory. *)
Definition browsable (n : node) : Prop :=
  listable n /\ forall c, last (n_Children n) = Some c -> n_Kind c <> KindFifo /\ n_Kind c <> KindSocket.

(** [c] stands for the entry [e] of a tree that can be browsed. *)
Definition shows (c : fsNode) (e : tentry) : Prop :=
  node_at c e.1 e.2 /\ tree_all browsable e.2 /\ (height e.2 <= maxDepth)%nat.

Lemma browsable_wf n : tree_all browsable n -> tree_all wf_node n.
Proof.
  induction n as [n IH] using node_ind'. intros [[[Hw _] _] Hc]. constructor; [done|].
  rewrite Forall_forall in *. auto.
Qed.

Lemma browsable_child n i ch : tree_all browsable n -> (height n <= maxDepth)%nat -> n_Kind n = KindDirectory ->
  n_Children n !! i = Some ch -> decodes (S i = length (n_Children n)) ch /\ tree_all browsable ch /\ (height ch <= maxDepth)%nat.
Proof.
  intros [[[Hw Hn] Hlast] Hc] Hh Hk Hi. pose proof (height_children n Hk) as Hhc. pose proof (wf_children n Hw) as Hnm.
  rewrite Forall_forall in Hc, Hhc, Hnm. apply list_elem_of_lookup_2 in Hi as Hin.
  specialize (Hc _ Hin). specialize (Hhc _ Hin). destruct (Hnm _ Hin) as [Hv Hl]. cbn beta in Hhc.
  split; [|split; [done|lia]]. split; [by apply browsable_wf|]. split_and!; try done; try lia.
  intros Hp E. assert (last (n_Children n) = Some ch) as Hlc.
  { rewrite last_lookup, <- E. done. }
  destruct (Hlast ch Hlc). by destruct Hp.
Qed.

(** The children of a shown directory, by its goodbye items. *)
Lemma shown_children d ap n : shows d (ap, n) -> n_Kind n = KindDirectory ->
  exists items gs, goodbye f d = Ok (to_gitem <$> items, gs) /\
    Forall2 (fun gi ch => gi_Hash gi = Hash (n_Name ch) /\ exists c, child f d (to_gitem gi) gs = Ok c /\
      fn_name c = n_Name ch /\ shows c (joinArchive ap (n_Name ch), ch)) items (n_Children n).
Proof.
  intros [(it & En & Ep & Ei & _ & Hit & Hdir & _) [Hb Hh]] Hk. cbn [fst snd] in *. specialize (Hdir Hk).
  assert (r_Path (fn_Node d) = ap) as Hpath.
  { rewrite En. unfold decode_item. rewrite <- Ep. by destruct (it_data it). }
  pose proof Hb as [[Hl _] _]. destruct (goodbye_emitted d ap n Hdir Hl) as (items & gs & E & _ & Hlen & Hch).
  exists items, gs. split; [done|]. apply Forall2_same_length_lookup_2; [done|]. intros i gi ch Hgi Hi.
  destruct (Hch i ch Hi) as (gi' & Hgi' & Hat). assert (gi' = gi) as -> by congruence.
  destruct (browsable_child n i ch Hb Hh Hk Hi) as (Hdec & Hb' & Hh').
  assert (0 <= fn_start d) as Hst by (destruct Hdir as (? & ? & ? & ? & ? & ? & ? & ? & ?); tauto).
  destruct (child_emitted d ap gs _ ch gi Hat Hdec Hst Hpath) as (c & Ec & Hn & Hna).
  split; [by destruct Hat as (? & ? & ? & ? & ? & ? & ? & _)|]. exists c. by split_and!.
Qed.

(** A directory that ends with a fifo or socket: its last item is broken. *)
Lemma special_children d ap n cs ch : dir_at d ap n -> listable n -> tree_all wf_node n -> (height n <= maxDepth)%nat ->
  r_Path (fn_Node d) = ap -> n_Children n = cs ++ [ch] -> n_Kind ch = KindFifo \/ n_Kind ch = KindSocket ->
  exists items gi gs pos, goodbye f d = Ok ((to_gitem <$> items) ++ [to_gitem gi], gs) /\ gi_Hash gi = Hash (n_Name ch) /\
    child f d (to_gitem gi) gs = Err (FsReader (RdTruncated pos)) /\
    Forall2 (fun gi c => gi_Hash gi = Hash (n_Name c) /\
      exists x, child f d (to_gitem gi) gs = Ok x /\ fn_name x = n_Name c) items cs.
Proof.
  intros Hdir Hl Hwf Hh Hp Hcs Hch. destruct (goodbye_emitted d ap n Hdir Hl) as (items & gs & E & _ & Hlen & Hall).
  assert (n_Kind n = KindDirectory /\ 0 <= fn_start d) as [Hk Hst] by (destruct Hdir as (? & ? & ? & ? & ? & ? & ? & ? & ?); tauto).
  pose proof (height_children n Hk) as Hhc. destruct Hwf as [Hw Hwc]. pose proof (wf_children n Hw) as Hnm.
  rewrite Hcs in *. rewrite length_app in *. cbn [length] in *.
  destruct items as [|gi items _] using rev_ind; [cbn in Hlen; lia|]. rewrite length_app in Hlen. cbn [length] in Hlen.
  rewrite Forall_forall in Hwc, Hhc, Hnm.
  destruct (Hall (length cs) ch) as (gi' & Hgi & Hat); [by rewrite lookup_app_r, Nat.sub_diag by done|].
  rewrite lookup_app_r, (ltac:(lia) : length cs - length items = 0)%nat in Hgi by lia. injection Hgi as <-.
  assert (child_at d ap gs True ch gi) as Hat'.
  { destruct Hat as (o & r & dd & ys & l1 & l2 & H1 & H2 & H3 & H4 & H5 & H6 & H7 & H8 & H9 & _).
    exists o, r, dd, ys, l1, l2. split_and!; try done; try apply H2; try (intros _; apply H9; lia). }
  assert (ch ∈ cs ++ [ch]) as Hin by set_solver. destruct (Hnm ch Hin) as [Hv Hnl]. destruct (Hwc ch Hin) as [Hwch _].
  destruct (child_last_plain d ap gs ch gi Hat' Hwch Hv Hnl Hch Hst Hp) as [pos Ec].
  exists items, gi, gs, pos. split_and!; [by rewrite E, fmap_app|by destruct Hat as (? & ? & ? & ? & ? & ? & ? & _)|done|].
  apply Forall2_same_length_lookup_2; [lia|]. intros i g c Hg Hc. pose proof (lookup_lt_Some _ _ _ Hc) as Hlt.
  destruct (Hall i c) as (g' & Hg' & Hati); [by rewrite lookup_app_l|].
  rewrite lookup_app_l in Hg' by lia. assert (g' = g) as -> by congruence.
  assert (c ∈ cs ++ [ch]) as Hinc by (apply list_elem_of_lookup_2 in Hc; set_solver). destruct (Hnm c Hinc) as [Hvc Hnlc].
  specialize (Hhc c Hinc). cbn beta in Hhc.
  destruct (child_emitted d ap gs _ c g Hati) as (x & Ex & Hx & _); [|done|done|].
  { split; [by apply Hwc|]. split_and!; try done; try lia. }
  split; [by destruct Hati as (? & ? & ? & ? & ? & ? & ? & _)|by exists x].
Qed.

Lemma lookupChild_shown d ap n name : shows d (ap, n) -> n_Kind n = KindDirectory ->
  res_rel shows (lookupChild f d name) (tree_child (ap, n) name).
Proof.
  intros Hs Hk. destruct (shown_children d ap n Hs Hk) as (items & gs & E & Hall).
  unfold lookupChild, tree_child. rewrite E. cbn [mbind result_bind fst snd]. clear E Hs Hk.
  induction Hall as [|gi ch items cs (Hh & c & Ec & Hn & Hc) _ IH]; [done|].
  cbn [fmap list_fmap lookupChild_loop find_child to_gitem g_hash]. rewrite Hh.
  destruct (decide (n_Name ch = name)) as [Heq|Hne].
  - rewrite Heq, Z.eqb_refl. cbn [negb]. change (mkGItem _ _ _) with (to_gitem gi). rewrite Ec. cbn [mbind result_bind].
    rewrite decide_True by congruence. rewrite <- Heq. exact Hc.
  - destruct (negb _); [exact IH|]. change (mkGItem _ _ _) with (to_gitem gi). rewrite Ec. cbn [mbind result_bind].
    rewrite decide_False by congruence. exact IH.
Qed.
End emitted.

(* ------------------------------------------------------------------ *)
(** ** Lemmas: walking and reading *)

(** A node whose content the payload stream, if any, resolves. *)
Definition file_ok (cont : node -> bytes -> Prop) (pc : Z -> Z -> bytes) (payload : option readerAt) (it : item) : Prop :=
  served payload pc it /\ 0 <= data_extra (it_data it) <= 2 ^ 61 /\
  (is_payload (n_Kind (it_node it)) = true -> cont (it_node it) (item_content pc it)).

Lemma file_ok_extra cont pc payload it : file_ok cont pc payload it -> 0 <= data_extra (it_data it) <= 2 ^ 61.
Proof. by intros (_ & ? & _). Qed.

Section browse.
Context `{SipHash} (v2 : bool) (cont : node -> bytes -> Prop) (pc : Z -> Z -> bytes) (B : bytes) (f : FS).
Context (Hmeta : reads_at (fs_meta f) B) (Hver : fs_version f = if v2 then 2 else 1) (Hsmall : zlen B <= 2 ^ 61).

Local Abbreviation shown := (shows v2 cont (file_ok cont pc (fs_payload f)) B).

Lemma shows_alike : alike shown.
Proof.
  intros c [ap n] [(it & En & Ep & Ei & _ & Hit & _ & _) [Hb _]]. cbn [fst snd] in *.
  destruct Hb as [[[Hw _] _] _]. rewrite <- Ei in *.
  cbn [en_dir en_symlink en_hardlink en_path en_target fs_entries tree_entries fst snd]. rewrite En.
  assert (r_Path (decode_item false it) = it_path it) as -> by (unfold decode_item; by destruct (it_data it)).
  destruct (decide (n_Kind (it_node it) = KindHardlink)) as [Hk|Hk].
  - rewrite Hk. unfold item_ok in Hit. rewrite Hk in Hit. unfold decode_item.
    destruct (it_data it); try (by destruct Hit); try (by destruct Hit as (_ & ? & _)).
  - destruct (decode_mode false it Hw Hk) as [-> ->].
    { intros t Et. unfold item_ok in Hit. by rewrite Et in Hit. }
    destruct (kind_modes (n_Kind (it_node it))) as (-> & -> & _). rewrite (bool_decide_false (n_Kind (it_node it) = KindHardlink)) by done.
    split_and!; try done. intros Hs. apply bool_decide_eq_true in Hs. unfold decode_item, item_ok in *.
    destruct (it_data it); try done; by rewrite decide_True.
Qed.

Lemma look_shown c e name : shown c e -> en_dir e = true -> res_rel shown (lookupChild f c name) (tree_child e name).
Proof.
  intros Hs Hd. destruct e as [ap n]. apply bool_decide_eq_true in Hd.
  by apply (lookupChild_shown v2 cont _ B f Hmeta Hver Hsmall (file_ok_extra cont pc (fs_payload f))).
Qed.

Context (root : node) (Hroot : shown (fs_root f) ([], root)).

Lemma hardlink_shown c e : shown c e -> en_hardlink e = true ->
  res_rel shown (resolveHardlink f c) (tree_hardlink ([], root) e).
Proof.
  intros Hs Hl. destruct (shows_alike c e Hs) as (_ & _ & Hh & Hp & _).
  assert (r_LinkTarget (fn_Node c) = n_LinkTarget e.2) as Ht.
  { destruct Hs as [(it & En & _ & Ei & _ & Hit & _) _]. apply bool_decide_eq_true in Hl.
    unfold item_ok in Hit. rewrite Ei, Hl in Hit. rewrite En, <- Ei. unfold decode_item.
    destruct (it_data it); try (by destruct Hit); try (by destruct Hit as (_ & ? & _)). }
  unfold resolveHardlink, tree_hardlink. change (r_Hardlink (fn_Node c)) with (en_hardlink c).
  change (r_Path (fn_Node c)) with (en_path c). rewrite Hh, Hl, Hp, Ht. cbn [negb].
  assert (res_rel shown (resolve_nested f (n_LinkTarget e.2) false)
    (resolve_from ([], root) tree_child (fun e => Err (FsNested e.1)) false (n_LinkTarget e.2))) as Hn.
  { apply resolve_from_sim; [exact shows_alike|exact Hroot|by intros; apply look_shown|].
    intros a b Hab _. destruct (shows_alike a b Hab) as (_ & _ & _ & Hpa & _). cbn in *. by f_equal. }
  destruct (resolve_nested _ _ _) as [t|err], (resolve_from _ _ _ _ _) as [t'|err']; cbn [res_rel] in Hn; try done; [|by subst].
  destruct (shows_alike t t' Hn) as (Hd & _). cbn [en_dir fs_entries tree_entries] in Hd. rewrite Hd.
  destruct (decide (n_Kind t'.2 = KindDirectory)) as [Hk|Hk]; [by rewrite bool_decide_true|rewrite bool_decide_false by done].
  destruct Hn as [(it & ? & ? & ? & ? & ? & _ & Hc) Hb]. split; [|exact Hb]. exists it. by split_and!.
Qed.

(** Walking the archive is walking the tree. *)
Lemma resolve_shown name follow : res_rel shown (resolve f name follow) (tree_resolve ([], root) name follow).
Proof.
  apply resolve_from_sim; [exact shows_alike|exact Hroot|by intros; apply look_shown|by intros; apply hardlink_shown].
Qed.

(** What reading an open file at an offset returns. *)
Definition reads_as (s : sectionReader) (content : bytes) : Prop :=
  forall want off, 0 <= off -> off + Z.of_nat want < 2 ^ 63 ->
  file_ReadAt want off s =
    if decide (zlen content <= off) then ([], Some EOF)
    else (take want (drop (Z.to_nat off) content), if zlen content <? off + Z.of_nat want then Some EOF else None).

Lemma section_serves ra base content : serves ra base content -> 0 <= base -> base + zlen content < 2 ^ 63 ->
  reads_as (NewSectionReader ra base (zlen content)) content.
Proof.
  intros Hs Hb Hl want off Ho Hw. unfold file_ReadAt, section_ReadAt, section_Size, NewSectionReader.
  cbn [sr_at sr_base sr_limit]. rewrite (proj2 (Z.leb_le base _)) by lia.
  replace (base + zlen content - base) with (zlen content) by lia. rewrite (proj2 (Z.ltb_ge off 0)) by lia. cbn [orb].
  rewrite (i64_id (off + _)) by lia.
  case_decide as Hd.
  { rewrite (proj2 (Z.leb_le _ _)) by lia. unfold short. cbn [length]. by rewrite (proj2 (Z.ltb_ge _ _)) by lia. }
  rewrite (proj2 (Z.leb_gt _ _)) by lia.
  replace (base + zlen content - (off + base)) with (zlen content - off) by lia.
  replace (off + base) with (base + Z.of_nat (Z.to_nat off)) by lia.
  destruct (Z.ltb_spec (zlen content - off) (Z.of_nat want)).
  - rewrite Hs by lia. rewrite (proj2 (Z.ltb_lt _ _)) by lia.
    rewrite (take_ge _ (Z.to_nat _)) by (rewrite length_drop; lia). rewrite (take_ge _ want) by (rewrite length_drop; lia).
    unfold short. rewrite length_drop, (proj2 (Z.ltb_ge _ _)) by lia. done.
  - rewrite Hs by lia. rewrite (proj2 (Z.ltb_ge _ _)) by lia. done.
Qed.

Lemma decode_size it : is_payload (n_Kind (it_node it)) = true -> item_ok v2 cont it -> served (fs_payload f) pc it ->
  fs_payload f <> None \/ v2 = false -> r_Size (decode_item false it) = zlen (item_content pc it).
Proof.
  intros Hp Hit Hs Hpay. unfold item_ok, served, decode_item, item_content in *.
  destruct (it_data it); [by destruct Hit as [? _]; congruence|done| |by rewrite Hit in Hp].
  destruct (fs_payload f); [by destruct Hs as (_ & _ & _ & _ & -> & _)|]. destruct Hpay as [|]; [done|].
  destruct Hit as [? _]. congruence.
Qed.

(** A regular file opens on its content. *)
Lemma Open_shown name ap n : fs_ValidPath name = true -> tree_resolve ([], root) name true = Ok (ap, n) ->
  is_payload (n_Kind n) = true -> fs_payload f <> None \/ v2 = false ->
  exists c s content, Open f name = Ok (File c s) /\ cont n content /\ reads_as s content.
Proof.
  intros Hvp Htr Hk Hpay. pose proof (resolve_shown name true) as Hr. rewrite Htr in Hr.
  destruct (resolve f name true) as [c|e] eqn:Er; [|done]. cbn [res_rel] in Hr.
  destruct Hr as [(it & En & Ep & Ei & (Hsv & Hsz & Hcont) & Hit & _ & Hc) [Hb _]]. cbn [fst snd] in *. rewrite <- Ei in Hk.
  assert (exists c', fs_lookup f OpOpen name true = Ok c' /\ fn_Node c' = fn_Node c /\ fn_content c' = fn_content c) as (c' & El & En' & Ec').
  { unfold fs_lookup. rewrite Hvp, Er. cbn [negb]. case_decide; eexists; split_and!; reflexivity. }
  pose proof (decode_size it Hk Hit Hsv Hpay) as Hsize.
  assert (mode_type (fn_Node c') = modeRegular) as Hm.
  { rewrite En', En. destruct Hb as [[[Hw _] _] _]. rewrite <- Ei in Hw.
    destruct (decode_mode false it Hw) as [_ ->]; [by intros E; rewrite E in Hk| |by destruct (n_Kind (it_node it))].
    intros t Et. unfold item_ok in Hit. rewrite Et in Hit. by rewrite Hit in Hk. }
  assert (forall s, Open f name = Ok (File c' s) -> reads_as s (item_content pc it) ->
    exists c s content, Open f name = Ok (File c s) /\ cont n content /\ reads_as s content) as Hdone.
  { intros s Ho Hs. exists c', s, (item_content pc it). split; [done|]. split; [|done]. rewrite <- Ei. by apply Hcont. }
  unfold Open in *. rewrite El in *. cbn [mbind result_bind] in *. rewrite Hm in *. cbn [Z.eqb Pos.eqb] in *.
  change (modeRegular =? modeDir) with false in *. change (modeRegular =? modeRegular) with true in *. cbv iota in *.
  rewrite Hver in *. destruct v2 eqn:Ev.
  - unfold item_ok in Hit. destruct (it_data it) as [|ct|off size|t] eqn:Ed;
      [by destruct Hit as [? _]; congruence|by destruct Hit|  |by rewrite Hit in Hk].
    cbn [Z.eqb Pos.eqb] in *. destruct Hpay as [Hpay|]; [|done].
    unfold served in Hsv. rewrite Ed in Hsv. destruct (fs_payload f) as [ra|]; [|done].
    destruct Hsv as (_ & Ho & Hs2 & Hhd & Hz & Hserv). destruct Hit as (_ & _ & Huo & Hus).
    destruct (header_payload_fields size Hus Hs2) as [Hf1 Hf2]. unfold item_content in *. rewrite Ed in *.
    assert (r_PayloadOffset (fn_Node c') = off /\ r_Size (fn_Node c') = size) as [Eo Es]
      by (rewrite En', En; unfold decode_item; by rewrite Ed).
    assert (checkPayloadRecord ra (fn_Node c') = Ok ()) as Hcheck.
    { unfold checkPayloadRecord. rewrite Eo, Es, (proj2 (Z.ltb_ge _ _)), (proj2 (Z.ltb_ge (2 ^ 62) _)) by lia. cbn [orb].
      by rewrite Hhd, Hf1, Hf2, decide_True. }
    rewrite Hcheck, Eo, Es in *. cbn [data_extra] in Hsz. unfold is_u64 in Huo. unfold HeaderSize in *.
    rewrite (i64_id off), (i64_id size), i64_id in * by lia.
    eapply Hdone; [reflexivity|]. rewrite <- Hz at 1. apply section_serves; [exact Hserv|lia|lia].
  - unfold item_ok in Hit. destruct (it_data it) as [|ct|off size|t] eqn:Ed;
      [by destruct Hit as [? _]; congruence| |by destruct Hit|by rewrite Hit in Hk].
    cbn [Z.eqb Pos.eqb] in *. destruct (Hc ct eq_refl) as (pre & post & HB & Hpre).
    assert (zlen pre + zlen ct <= 2 ^ 61) as Hlen by (pose proof Hsmall as Hsm; rewrite HB, !length_app in Hsm; lia).
    rewrite En', En, Hsize in *. unfold item_content in *. rewrite Ed in *. rewrite i64_id in * by lia.
    eapply Hdone; [reflexivity|]. rewrite Ec', <- Hpre. apply section_serves; [|lia|lia].
    intros i k Hik. rewrite <- Nat2Z.inj_add, Hmeta by (rewrite HB, !length_app; lia). f_equal.
    rewrite HB, <- drop_drop, drop_app_length, drop_app_le, take_app_le by (rewrite ?length_drop; lia). done.
Qed.

(** ** Listing *)

Lemma shows_same c c' e : fn_Node c' = fn_Node c -> fn_start c' = fn_start c -> fn_end c' = fn_end c ->
  fn_content c' = fn_content c -> shown c e -> shown c' e.
Proof.
  intros E1 E2 E3 E4 [(it & H1 & H2 & H3 & H4 & H5 & H6 & H7) Hb]. split; [|exact Hb].
  exists it. rewrite E1, E4. unfold dir_at in *. rewrite E2, E3. done.
Qed.

Lemma resolveHardlink_name c c' : resolveHardlink f c = Ok c' -> fn_name c' = fn_name c.
Proof. unfold resolveHardlink. intros E. by repeat case_match; simplify_eq. Qed.

(** Every hardlink of a directory leads somewhere. *)
Definition links_resolve (ap : bytes) (n : node) : Prop :=
  forall ch, ch ∈ n_Children n -> n_Kind ch = KindHardlink ->
  is_ok (tree_hardlink ([], root) (joinArchive ap (n_Name ch), ch)) = true.

Lemma dir_append_shown d ap n : shown d (ap, n) -> n_Kind n = KindDirectory -> links_resolve ap n ->
  exists items gs, goodbye f d = Ok (items, gs) /\ exists cs, dir_append f d gs items [] = (Ok (), cs) /\
    fn_name <$> cs = n_Name <$> n_Children n.
Proof.
  intros Hs Hk Hlk. destruct (shown_children v2 cont _ B f Hmeta Hver Hsmall (file_ok_extra cont pc (fs_payload f)) d ap n Hs Hk)
    as (items & gs & E & Hall). exists (to_gitem <$> items), gs. split; [done|].
  assert (forall cs0, exists cs, dir_append f d gs (to_gitem <$> items) cs0 = (Ok (), cs0 ++ cs) /\
    fn_name <$> cs = n_Name <$> n_Children n) as Hgen; [|by destruct (Hgen []) as (cs & ? & ?); exists cs].
  unfold links_resolve in Hlk. clear E Hs Hk.
  induction Hall as [|gi ch items cs (_ & c & Ec & Hn & Hc) _ IH]; intros cs0; [exists []; by rewrite app_nil_r|].
  cbn [fmap list_fmap dir_append]. rewrite Ec. cbn [mbind result_bind].
  assert (exists c', resolveHardlink f c = Ok c') as [c' Ec'].
  { destruct (shows_alike c _ Hc) as (_ & _ & Hh & _). cbn [en_hardlink fs_entries tree_entries snd] in Hh.
    destruct (decide (n_Kind ch = KindHardlink)) as [Hl|Hl].
    - pose proof (hardlink_shown c _ Hc) as Hr. cbn [en_hardlink tree_entries snd] in Hr. rewrite bool_decide_true in Hr by done.
      specialize (Hr eq_refl). specialize (Hlk ch (list_elem_of_here _ _) Hl).
      destruct (tree_hardlink _ _); [|done]. destruct (resolveHardlink f c); [by eexists|done].
    - unfold resolveHardlink. rewrite Hh, bool_decide_false by done. by eexists. }
  rewrite Ec'. destruct (IH (fun ch' Hin => Hlk ch' (list_elem_of_further _ _ _ Hin)) (cs0 ++ [c'])) as (cs1 & -> & E1).
  exists (c' :: cs1). rewrite <- app_assoc. split; [done|]. cbn. by rewrite E1, (resolveHardlink_name _ _ Ec'), Hn.
Qed.

(** A directory lists its children by name. *)
Lemma ReadDir_shown name ap n : fs_ValidPath name = true -> tree_resolve ([], root) name true = Ok (ap, n) ->
  n_Kind n = KindDirectory -> links_resolve ap n ->
  exists entries, ReadDir f name = (entries, None) /\ fn_name <$> entries ≡ₚ n_Name <$> n_Children n /\
    StronglySorted entry_le entries.
Proof.
  intros Hvp Htr Hk Hl. pose proof (resolve_shown name true) as Hr. rewrite Htr in Hr.
  destruct (resolve f name true) as [c|e] eqn:Er; [|done]. cbn [res_rel] in Hr.
  assert (exists c', fs_lookup f OpReaddir name true = Ok c' /\ shown c' (ap, n)) as (c' & El & Hs).
  { unfold fs_lookup. rewrite Hvp, Er. cbn [negb]. case_decide; [by eexists|]. eexists. split; [reflexivity|].
    by eapply shows_same. }
  destruct (dir_append_shown c' ap n Hs Hk Hl) as (items & gs & Eg & cs & Ea & En).
  exists (merge_sort entry_le cs). split_and!.
  - unfold ReadDir. rewrite El. unfold dir_ReadDir, dir_load. cbn [df_loaded df_n df_entries]. rewrite Eg, Ea. done.
  - by rewrite merge_sort_Permutation, En.
  - apply StronglySorted_merge_sort.
    + intros a b d Hab Hbd. unfold entry_le in *. by eapply bytes_leb_trans.
    + intros a b. apply bytes_leb_total.
Qed.
End browse.


(** Opening an emitted archive finds its root. *)
Lemma open_root `{SipHash} (v2 : bool) cont pc meta payload root prelude out extra xs ln v :
  v = (if v2 then 2 else 1) ->
  let B := stream_head v2 prelude ++ out in
  encodes v2 cont root true [] (u64 (zlen (stream_head v2 prelude))) ∅ out extra xs ln -> n_Kind root = KindDirectory ->
  tree_all wf_node root -> (height root <= maxDepth)%nat -> Forall (file_ok cont pc payload) xs -> prelude_ok prelude ->
  reads_at meta B -> zlen B <= 2 ^ 61 ->
  exists f, open meta (zlen B) payload v = Ok f /\ fs_meta f = meta /\ fs_payload f = payload /\ fs_version f = v /\
    node_at v2 cont (file_ok cont pc payload) B (fs_root f) [] root.
Proof.
  intros Hv B Henc Hk Hwf Hh Hok Hpr Hmeta Hsmall.
  set (r := mkR (section meta 0 (zlen B)) None v false false false [] 0 None CNone 0 None).
  assert (contents (rd_br r) = (B, EOF)) as Hc.
  { subst r. cbn [rd_br]. rewrite (section_reads meta B) by (done || lia). rewrite drop_0, take_ge; [done|lia]. }
  destruct (archive_visits v None false pc v2 cont Hv root _ _ prelude out extra xs ln r Henc Hk Hwf Hh) as
    (x0 & xs' & r1 & D1 & s1 & Hxs & En & _); [by apply Forall_true; intros it; unfold served; destruct (it_data it)|done| |].
  { split_and!; try done. by left. }
  destruct (encodes_head v2 cont _ _ _ _ _ _ _ _ _ Henc) as (d & xs2 & body & Hxs' & Hex & _ & _).
  rewrite Hxs in Hxs'. injection Hxs' as Hx0 <-. subst x0.
  destruct (encodes_items v2 cont) as [Hitems _]. specialize (Hitems _ _ _ _ _ _ _ _ _ Henc). rewrite Hxs in Hitems, Hok.
  apply Forall_cons in Hitems as [Hit _]. pose proof Hok as Hok'. apply Forall_cons in Hok' as [Hok0 _].
  assert (n_Kind root <> KindHardlink) as Hnl by congruence.
  assert (forall t, it_data (mkItem (u64 (zlen (stream_head v2 prelude))) [] root d) <> DLink t) as Hnt.
  { intros t Et. unfold item_ok in Hit. by rewrite Et in Hit. }
  pose proof Hwf as [Hwr _]. destruct (decode_mode false (mkItem (u64 (zlen (stream_head v2 prelude))) [] root d) Hwr Hnl Hnt) as [_ Hmode].
  unfold open. fold r. rewrite En, Hmode. cbn [it_node]. rewrite Hk. cbn [kind_mode]. rewrite Z.eqb_refl. cbn [negb].
  eexists. split; [reflexivity|]. split_and!; try done. cbn [fs_root].
  eexists. split; [reflexivity|]. split; [done|]. split; [done|]. split; [exact Hok0|]. split; [exact Hit|]. split.
  - intros _. exists true, (stream_head v2 prelude), out, [], ∅, extra, xs, ln. rewrite app_nil_r. subst B. rewrite length_app in Hsmall |- *.
    rewrite u64_small in Henc by (unfold is_u64; lia). rewrite Hxs. split_and!; try done; cbn [fn_start fn_end]; try lia. by rewrite Hxs in Henc.
  - cbn [it_data]. intros c ->. unfold item_ok in Hit. cbn [it_data it_node] in Hit. rewrite Hk in Hit. by destruct Hit as (_ & ? & _).
Qed.
