(* ===== verification/FsArchive.v ===== *)
(** * Browsing an archive

    The contract of the file system of pxar/fs.go over an archive that was
    emitted, [browses]: paths resolve as in the tree that was archived, files
    open on their content, directories list their children.  It is proved for
    v1 archives and for the two streams of a v2 archive; the directory whose
    last child is a fifo or a socket is shown to break it. *)

From stdpp Require Import sorting.
From S2P Require Import Prelude Format BinTree Io Tree Payload Reuse Refs Emit Reader ReaderSpec ReaderSafe Previous ArchiveV2 FS FsSpec FsTree.
From Stdlib Require Import Strings.Byte.
Local Open Scope Z_scope.

(** The entry [c] carries the metadata of the node at its archive path. *)
Definition stands_for (c : fsNode) (e : bytes * node) : Prop :=
  exists it, fn_Node c = decode_item false it /\ it_path it = e.1 /\ it_node it = e.2.

(** The file system [f] is the tree of [root], whose files have the contents
    [cont]. *)
Record browses `{SipHash} (cont : node -> bytes -> Prop) (f : FS) (root : node) : Prop := {
  br_resolve name follow : res_rel stands_for (resolve f name follow) (tree_resolve ([], root) name follow);
  br_open name ap n : fs_ValidPath name = true -> tree_resolve ([], root) name true = Ok (ap, n) ->
    is_payload (n_Kind n) = true -> exists c s content, Open f name = Ok (File c s) /\ cont n content /\ reads_as s content;
  br_list name ap n : fs_ValidPath name = true -> tree_resolve ([], root) name true = Ok (ap, n) ->
    n_Kind n = KindDirectory -> links_resolve root ap n ->
    exists entries, ReadDir f name = (entries, None) /\ fn_name <$> entries ≡ₚ n_Name <$> n_Children n /\
      StronglySorted entry_le entries }.

Lemma res_rel_mono {A B E} (R R' : A -> B -> Prop) (m : result E A) (m' : result E B) :
  (forall a b, R a b -> R' a b) -> res_rel R m m' -> res_rel R' m m'.
Proof. destruct m, m'; cbn; auto. Qed.

Lemma shown_browses `{SipHash} (v2 : bool) (cont : node -> bytes -> Prop) (pc : Z -> Z -> bytes) (B : bytes) (f : FS) root : reads_at (fs_meta f) B -> fs_version f = (if v2 then 2 else 1) ->
  zlen B <= 2 ^ 61 -> fs_payload f <> None \/ v2 = false ->
  shows v2 cont (file_ok cont pc (fs_payload f)) B (fs_root f) ([], root) -> browses cont f root.
Proof.
  intros Hm Hv Hs Hp Hr. split.
  - intros name follow. eapply res_rel_mono; [|by apply (resolve_shown v2 cont pc B f Hm Hv Hs root Hr)].
    intros c e [(it & H1 & H2 & H3 & _) _]. by exists it.
  - intros name ap n Hvp Htr Hk. by apply (Open_shown v2 cont pc B f Hm Hv Hs root Hr name ap n).
  - intros name ap n Hvp Htr Hk Hl. by apply (ReadDir_shown v2 cont pc B f Hm Hv Hs root Hr name ap n).
Qed.

(** What a successful v1 emission wrote. *)
Lemma v1_encoded {T : Type} `{PayloadSource T} `{SipHash} (I : T -> Prop) (good : node -> Prop) (cont : node -> bytes -> Prop)
    root (em em' : emitter T) : source_copies I good cont ->
  tree_all good root -> em_ready I em -> em_refs em = None -> em_w em = cw_open 0 [] -> em_run root em = (Ok (), em') ->
  exists extra xs ln, encodes false cont root true [] (u64 0) ∅ (cw_out (em_w em')) extra xs ln /\
    Forall (file_ok cont (fun _ _ => []) None) xs.
Proof.
  intros Hsrc Hg Hr Hrefs Hw He.
  destruct (em_run_ok I good cont Hsrc _ _ _ _ Hg Hr He) as (out & extra & xs & ln & Henc & [[Ho _] _ _ _ _ _]).
  assert (em_v2 em = false) as Ev by (unfold em_v2; by rewrite Hrefs).
  rewrite Ev in *. cbn [stream_head app length] in *. rewrite Hw in *. cbn [cw_out cw_open app cw_pos] in *. rewrite Ho.
  destruct (encodes_items false cont) as [Hit _]. specialize (Hit _ _ _ _ _ _ _ _ _ Henc).
  exists extra, xs, ln. split; [exact Henc|].
  eapply Forall_impl; [exact Hit|]. intros it Hi. unfold item_ok, file_ok, served, item_content, data_extra in *.
  destruct (it_data it); (split; [done|]; split; [lia || by destruct Hi|]); intros Hp.
  - by destruct Hi; congruence.
  - by destruct Hi as (_ & _ & ?).
  - by destruct Hi.
  - by rewrite Hi in Hp.
Qed.

Lemma tree_all_impl (P Q : node -> Prop) n : (forall x, P x -> Q x) -> tree_all P n -> tree_all Q n.
Proof.
  intros Hi. induction n as [n IH] using node_ind'. intros [Hn Hc]. constructor; [auto|].
  rewrite Forall_forall in *. auto.
Qed.

(** A name that is not in a table but for its last item. *)
Lemma lookup_last `{SipHash} f d gs name items cs gi e :
  Forall2 (fun gi c => gi_Hash gi = Hash (n_Name c) /\
    exists x, child f d (to_gitem gi) gs = Ok x /\ fn_name x = n_Name c) items cs ->
  name ∉ n_Name <$> cs -> gi_Hash gi = Hash name -> child f d (to_gitem gi) gs = Err e ->
  lookupChild_loop f d gs (Hash name) name ((to_gitem <$> items) ++ [to_gitem gi]) = Err e.
Proof.
  intros Hall Hn Hh Ec. induction Hall as [|g c items cs (Hg & x & Ex & Hx) _ IH].
  - cbn [fmap list_fmap app lookupChild_loop to_gitem g_hash]. rewrite Hh, Z.eqb_refl. cbn [negb].
    change (mkGItem _ _ _) with (to_gitem gi). by rewrite Ec.
  - cbn in Hn. apply not_elem_of_cons in Hn as [Hne Hn]. specialize (IH Hn).
    cbn [fmap list_fmap app lookupChild_loop]. destruct (negb _); [exact IH|]. rewrite Ex. cbn [mbind result_bind].
    rewrite decide_False by congruence. exact IH.
Qed.

(** A broken item breaks the listing. *)
Lemma append_broken `{SipHash} f d gs items gi e cs0 : child f d (to_gitem gi) gs = Err e ->
  exists e' cs, dir_append f d gs ((to_gitem <$> items) ++ [to_gitem gi]) cs0 = (Err e', cs).
Proof.
  intros Ec. revert cs0. induction items as [|g items IH]; intros cs0.
  - cbn [fmap list_fmap app dir_append]. rewrite Ec. by eexists _, _.
  - cbn [fmap list_fmap app dir_append]. destruct (_ ≫= _); [apply IH|by eexists _, _].
Qed.

(* ------------------------------------------------------------------ *)
(** ** Properties *)

Section properties.
Context {T : Type} `{PayloadSource T} `{SipHash}.
Context (I : T -> Prop) (good : node -> Prop) (cont : node -> bytes -> Prop).
Context (Hsrc : source_copies I good cont).

(** C10: A v1 archive as a file system: over the bytes a successful emission
    wrote, [OpenV1] succeeds and the file system is the tree: every path
    resolves to the entry, with the metadata, that the same walk finds in the
    tree, or fails with the same error, symbolic links, hardlinks and their
    limits included; a regular file opens on exactly the content its source
    supplied; a directory lists its children in name order. *)
Theorem fs_browses_v1 root (em em' : emitter T) meta :
  tree_all good root -> tree_all browsable root -> (height root <= maxDepth)%nat -> n_Kind root = KindDirectory ->
  em_ready I em -> em_refs em = None -> em_w em = cw_open 0 [] -> em_run root em = (Ok (), em') ->
  reads_at meta (cw_out (em_w em')) -> zlen (cw_out (em_w em')) <= 2 ^ 61 ->
  exists f, OpenV1 meta (zlen (cw_out (em_w em'))) = Ok f /\ browses cont f root.
Proof.
  intros Hg Hb Hh Hk Hr Hrefs Hw He Hmeta Hsmall.
  destruct (v1_encoded I good cont root em em') as (extra & xs & ln & Henc & Hok); try done.
  destruct (open_root false cont (fun _ _ => []) meta None root None (cw_out (em_w em')) extra xs ln 1) as (f & Eo & Hm & Hp & Hv & Hroot);
    try done; [by apply browsable_wf|].
  exists f. split; [exact Eo|]. rewrite <- Hp in Hroot. by eapply (shown_browses false); [rewrite Hm| | |right|split].
Qed.

(** C28: A split archive as a file system: over the metadata stream and the
    payload stream of a v2 archive whose files are all read, [OpenV2] succeeds
    and the file system is the tree; a regular file opens on the content its
    payload reference names. *)
Theorem fs_browses_v2 root (em em' : emitter T) (pe pe' : payloadEmitter T) plan meta ra :
  plan = mark_read 0 (collectPayloadPaths root []).*1 ->
  tree_all good root -> tree_all browsable root -> (height root <= maxDepth)%nat -> n_Kind root = KindDirectory ->
  pe_w pe = cw_open 0 [] -> pe_injected pe = [] -> pe_ledger pe = newRefLedger ->
  pe_publish pe = true -> I (pe_src pe) -> pe_run plan pe = (Ok (), pe') ->
  em_w em = cw_open 0 [] -> em_refs em = Some (newRefReader plan) -> em_get em = ledger_get (pe_ledger pe') ->
  I (em_src em) -> prelude_ok (em_prelude em) -> em_run root em = (Ok (), em') ->
  reads_at meta (cw_out (em_w em')) -> zlen (cw_out (em_w em')) <= 2 ^ 61 ->
  reads_at ra (cw_out (pe_w pe')) -> zlen (cw_out (pe_w pe')) <= 2 ^ 61 ->
  exists f, OpenV2 meta (zlen (cw_out (em_w em'))) (Some ra) = Ok f /\ browses cont f root.
Proof.
  intros Hplan Hg Hb Hh Hk Hpw Hpi Hpl Hpub HIp Hprun Hew Her Heg HIe Hprel Herun Hmeta Hsmall Hra Hlen.
  destruct (split_encoded I good cont Hsrc root em em' pe pe' plan) as (out & extra & xs & ln & rest & Henc & Ho & Hrest & Hall);
    try done; [lia|].
  set (pout := cw_out (pe_w pe')) in *. rewrite Ho in *.
  destruct (encodes_items true cont) as [Hit _]. specialize (Hit _ _ _ _ _ _ _ _ _ Henc).
  assert (Forall (file_ok cont (content_at pout) (Some ra)) xs) as Hok.
  { eapply Forall_impl; [apply Forall_and; split; [exact Hall|exact Hit]|]. intros it [Hpl' Hi].
    split; [eapply placed_served; try done; lia|].
    destruct (it_data it) as [|c|off size|t] eqn:Ed; unfold item_ok in Hi; rewrite Ed in Hi; cbn [data_extra].
    - split; [lia|]. intros Hp. destruct Hi; congruence.
    - by destruct Hi.
    - destruct (Hpl' (proj1 (proj2 Hi))) as (o & sz & Ed' & Hsz & Hl & _ & _ & Hc). rewrite Ed in Ed'. injection Ed' as -> ->.
      split; [lia|]. intros _. unfold item_content. by rewrite Ed.
    - split; [lia|]. intros Hp. by rewrite Hi in Hp. }
  destruct (open_root true cont (content_at pout) meta (Some ra) root (em_prelude em) out extra xs ln 2) as
    (f & Eo & Hm & Hp & Hv & Hroot);
    try done; [by apply browsable_wf|].
  exists f. split.
  - unfold OpenV2. assert (checkPayloadStart ra = Ok ()) as ->; [|exact Eo].
    unfold checkPayloadStart. change 0 with (Z.of_nat 0). rewrite Hra by (rewrite Hrest, length_app; change (length (AppendPayloadStartMarker [])) with 16%nat; lia).
    rewrite drop_0, Hrest. by vm_compute.
  - rewrite <- Hp in Hroot. by eapply (shown_browses true); [rewrite Hm| |exact Hsmall|left; rewrite Hp|split].
Qed.

(** C37: The exception: when the last child of the root is a fifo or a socket,
    the archive is still written and opens, but that child cannot be looked up
    and the root cannot be listed, because looking for further metadata records
    the Reader of the entry runs into the end of its section. *)
Theorem fs_last_special root cs ch (em em' : emitter T) meta :
  tree_all good root -> tree_all listable root -> (height root <= maxDepth)%nat -> n_Kind root = KindDirectory ->
  n_Children root = cs ++ [ch] -> n_Kind ch = KindFifo \/ n_Kind ch = KindSocket -> NoDup (n_Name <$> cs ++ [ch]) ->
  em_ready I em -> em_refs em = None -> em_w em = cw_open 0 [] -> em_run root em = (Ok (), em') ->
  reads_at meta (cw_out (em_w em')) -> zlen (cw_out (em_w em')) <= 2 ^ 61 ->
  exists f, OpenV1 meta (zlen (cw_out (em_w em'))) = Ok f /\
    (exists pos, resolve f (n_Name ch) true = Err (FsReader (RdTruncated pos))) /\
    exists e, ReadDir f dot = ([], Some e).
Proof.
  intros Hg Hb Hh Hk Hcs Hch Hnd Hr Hrefs Hw He Hmeta Hsmall.
  destruct (v1_encoded I good cont root em em') as (extra & xs & ln & Henc & Hok); try done.
  set (out := cw_out (em_w em')) in *.
  assert (tree_all wf_node root) as Hwf by (eapply tree_all_impl; [|exact Hb]; by intros n [? _]).
  destruct (open_root false cont (fun _ _ => []) meta None root None out extra xs ln 1) as (f & Eo & Hm & Hp & Hv & Hroot); try done.
  exists f. split; [exact Eo|]. pose proof Hroot as (it & En & Ep & Ei & _ & Hit & Hdir & _). specialize (Hdir Hk).
  assert (r_Path (fn_Node (fs_root f)) = []) as Hpath by (rewrite En, <- Ep; unfold decode_item; by destruct (it_data it)).
  assert (mode_type (fn_Node (fs_root f)) = modeDir) as Hmode.
  { rewrite En. pose proof Hwf as [Hwr _]. rewrite <- Ei in Hwr, Hk.
    destruct (decode_mode false it Hwr) as [_ ->]; [congruence| |by rewrite Hk].
    intros t Et. unfold item_ok in Hit. rewrite Et in Hit. congruence. }
  assert (reads_at (fs_meta f) out) as Hmf by (by rewrite Hm). pose proof Hb as [Hl _].
  destruct (special_children false cont _ out f Hmf Hv Hsmall (file_ok_extra cont (fun _ _ => []) None) (fs_root f) [] root cs ch
    Hdir Hl Hwf Hh Hpath Hcs Hch) as (items & gi & gs & pos & Eg & Hhash & Ec & Hall).
  assert (ValidateFilename (n_Name ch) = Ok ()) as Hvn.
  { pose proof Hwf as [Hwr _]. pose proof (wf_children root Hwr) as Hnm. rewrite Forall_forall in Hnm. apply Hnm. rewrite Hcs. set_solver. }
  apply ValidateFilename_ok in Hvn as (Hne & Hnd1 & _ & Hsl & _).
  assert (n_Name ch ∉ n_Name <$> cs) as Hfresh.
  { rewrite fmap_app in Hnd. apply NoDup_app in Hnd as (_ & Hnd & _). intros Hin. apply (Hnd _ Hin). set_solver. }
  split.
  - exists pos. unfold resolve, resolve_from. rewrite decide_False by done.
    assert (cut_slash (n_Name ch) = (n_Name ch, [])) as Hcut.
    { clear - Hsl. induction (n_Name ch) as [|c s IH]; [done|]. cbn. rewrite decide_False by set_solver. rewrite IH by set_solver. done. }
    destruct (n_Name ch) as [|c0 s0] eqn:Enm; [done|]. cbn [length resolve_loop]. rewrite decide_False by done.
    rewrite Hcut. cbn [en_dir fs_entries]. rewrite Hmode, Z.eqb_refl. cbn [negb].
    unfold lookupChild. rewrite Eg. cbn [mbind result_bind]. by erewrite lookup_last.
  - destruct (append_broken f (fs_root f) gs items gi _ [] Ec) as (e & cs' & Ea).
    exists e. unfold ReadDir, fs_lookup. change (fs_ValidPath dot) with true. cbn [negb].
    unfold resolve, resolve_from. rewrite decide_True by done. cbn [length resolve_loop]. rewrite decide_True by done.
    rewrite decide_True by done. unfold dir_ReadDir, dir_load. cbn [df_loaded df_n df_entries]. by rewrite Eg, Ea.
Qed.
End properties.

(* ------------------------------------------------------------------ *)
(** ** Witnesses *)

Lemma sample_browsable : tree_all browsable sample_tree.
Proof.
  pose proof sample_wf as Hwf. unfold sample_tree in *.
  assert (forall n, wf_node n -> zlen (n_Children n) <= 2796200 ->
    (forall c, last (n_Children n) = Some c -> n_Kind c <> KindFifo /\ n_Kind c <> KindSocket) -> browsable n) as Hb
    by (intros n; by split; [split|]).
  destruct Hwf as [Hw Hc]. cbn [n_Children meta_node] in Hc.
  apply Forall_cons in Hc as [[Ha _] Hc]. apply Forall_cons in Hc as [[Hb' _] Hc].
  apply Forall_cons in Hc as [[Hd Hdc] Hc]. apply Forall_cons in Hc as [[Hs _] _].
  cbn [n_Children meta_node] in Hdc. apply Forall_cons in Hdc as [[Hl _] _].
  each_node; (apply Hb; [done|cbn; lia|by intros c [= <-]]).
Qed.

#[local] Abbreviation sample_bytes := (cw_out (em_w (@em_run _ _ toy_siphash sample_tree sample_em).2)).

Lemma fs_browses_v1_witness :
  exists f, OpenV1 (bytes_at sample_bytes) (zlen sample_bytes) = Ok f /\
    @browses toy_siphash (sync_cont sample_fs) f sample_tree.
Proof.
  refine (@fs_browses_v1 _ _ toy_siphash (fun s => s = sample_fs) (unchanged sample_fs)
    (sync_cont sample_fs) (sync_copies sample_fs) sample_tree sample_em
    (@em_run _ _ toy_siphash sample_tree sample_em).2 (bytes_at sample_bytes)
    sample_good sample_browsable _ eq_refl _ eq_refl eq_refl _ (bytes_reads_at _) _).
  - apply Nat.leb_le. vm_compute. reflexivity.
  - split; [done|]. by split.
  - vm_compute. reflexivity.
  - apply Z.leb_le. vm_compute. reflexivity.
Defined.

#[local] Abbreviation split_meta := (cw_out (em_w split_em')).
#[local] Abbreviation split_payload := (cw_out (pe_w split_pe')).

Lemma fs_browses_v2_witness :
  exists f, OpenV2 (bytes_at split_meta) (zlen split_meta) (Some (bytes_at split_payload)) = Ok f /\
    @browses toy_siphash (sync_cont sample_fs) f sample_tree.
Proof.
  refine (@fs_browses_v2 _ _ toy_siphash (fun s => s = sample_fs) (unchanged sample_fs) (sync_cont sample_fs)
    (sync_copies sample_fs) sample_tree split_em split_em' split_pe split_pe' split_plan (bytes_at split_meta)
    (bytes_at split_payload) eq_refl sample_good sample_browsable _ eq_refl eq_refl eq_refl eq_refl eq_refl eq_refl
    _ eq_refl eq_refl eq_refl eq_refl _ _ (bytes_reads_at _) _ (bytes_reads_at _) _).
  - apply Nat.leb_le. vm_compute. reflexivity.
  - vm_compute. reflexivity.
  - vm_compute. discriminate.
  - vm_compute. reflexivity.
  - apply Z.leb_le. vm_compute. reflexivity.
  - apply Z.leb_le. vm_compute. reflexivity.
Defined.

(** A root that ends with a fifo. *)
Definition fifo_tree : node :=
  meta_node (lit "r") (lit "/r") KindDirectory 0x41ed 0 1 []
    [meta_node (lit "a") (lit "/r/a") KindFile 0x81a4 3 1 [] [] None;
     meta_node (lit "p") (lit "/r/p") KindFifo 0x11b6 0 1 [] [] None] None.

#[local] Abbreviation fifo_em' := ((@em_run _ _ toy_siphash fifo_tree sample_em).2).
#[local] Abbreviation fifo_bytes := (cw_out (em_w fifo_em')).

Lemma fifo_good : tree_all (unchanged sample_fs) fifo_tree.
Proof.
  unfold fifo_tree. each_node; unfold unchanged; cbn -[sample_fs]; try done; intros _; (split; [lia|]); eauto.
  eexists _, _. split_and!; reflexivity.
Qed.

Lemma fifo_listable : tree_all listable fifo_tree.
Proof.
  unfold fifo_tree. each_node; (split; [split;
    [cbn; unfold wf_entry; cbn; split_and!; try reflexivity; small
    |cbn; repeat constructor; try (cbn; unfold maxRecordBody; lia); try done; vm_compute; set_solver
    |reflexivity
    |cbn; repeat constructor; vm_compute; done
    |cbn; lia
    |try done
    |try done
    |split; small]|cbn; lia]).
Qed.

Lemma fs_last_special_witness :
  exists f, OpenV1 (bytes_at fifo_bytes) (zlen fifo_bytes) = Ok f /\
    (exists pos, @resolve toy_siphash f (lit "p") true = Err (FsReader (RdTruncated pos))) /\
    exists e, @ReadDir toy_siphash f dot = ([], Some e).
Proof.
  refine (@fs_last_special _ _ toy_siphash (fun s => s = sample_fs) (unchanged sample_fs) (sync_cont sample_fs)
    (sync_copies sample_fs) fifo_tree
    [meta_node (lit "a") (lit "/r/a") KindFile 0x81a4 3 1 [] [] None]
    (meta_node (lit "p") (lit "/r/p") KindFifo 0x11b6 0 1 [] [] None) sample_em fifo_em' (bytes_at fifo_bytes)
    fifo_good fifo_listable _ eq_refl eq_refl (or_introl eq_refl) _ _ eq_refl eq_refl _ (bytes_reads_at _) _).
  - apply Nat.leb_le. vm_compute. reflexivity.
  - cbn. repeat constructor; set_solver.
  - split; [done|]. by split.
  - vm_compute. reflexivity.
  - apply Z.leb_le. vm_compute. reflexivity.
Defined.

(** A failed listing keeps what it had appended: after a read error at the
    second child, a retry on the same open directory lists the first twice. *)
Definition sample_at : readerAt := bytes_at sample_out.
Definition faulty_at (bad : Z) : readerAt := fun off n => if off =? bad then ([], Some (IOError 5)) else sample_at off n.
Definition sample_size : Z := zlen sample_out.

Definition retry (bad : Z) : option (option fserror * list bytes) :=
  match OpenV1 sample_at sample_size, OpenV1 (faulty_at bad) sample_size with
  | Ok f, Ok f' =>
      let d := mkDirFile (fs_root f) [] false in
      let '((_, e), d) := @dir_ReadDir toy_siphash f' (-1) d in
      Some (e, fn_name <$> (@dir_ReadDir toy_siphash f (-1) d).1.1)
  | _, _ => None
  end.
Definition second_start : Z :=
  match OpenV1 sample_at sample_size with
  | Ok f => match goodbye f (fs_root f) with Ok (_ :: it :: _, _) => g_start it | _ => 0 end
  | Err _ => 0
  end.

Example readdir_retry :
  retry second_start = Some (Some (FsReader (RdIO (IOError 5))), [lit "a"; lit "a"; lit "b"; lit "d"; lit "s"]).
Proof. vm_compute. reflexivity. Qed.
