(* ===== verification/Acl.v ===== *)
(** * POSIX ACL attributes

    Models the codec of the [system.posix_acl_*] extended attributes:
    restore/linux.go encodes the ACL of an archive entry, scan/linux.go parses
    what the kernel returns.  The two are inverse to each other on the ACLs a
    scan produces. *)

From stdpp Require Import sorting.
From S2P Require Import Prelude Format Tree Reader.
Local Open Scope Z_scope.

(** Header version, entry tags, and the id of entries that have none. *)
Definition aclVersion := 2.
Definition aclTagUserObj := 0x01.
Definition aclTagUser := 0x02.
Definition aclTagGroupObj := 0x04.
Definition aclTagGroup := 0x08.
Definition aclTagMask := 0x10.
Definition aclTagOther := 0x20.
Definition aclUndefinedID := 0xffffffff.

(* ------------------------------------------------------------------ *)
(** ** Encoding (restore/linux.go) *)

(** [AppendUint16] of [binary.LittleEndian]; [uint16(v)] drops higher bits. *)
Definition AppendUint16 (dst : bytes) (v : Z) : bytes := dst ++ Prelude.le 2 v.

Definition appendACLEntry (b : bytes) (tag perm id : Z) : bytes :=
  let b := AppendUint16 b tag in
  let b := AppendUint16 b perm in
  AppendUint32 b id.

(** The loops over named users and groups. *)
Fixpoint append_users (b : bytes) (us : list ACLUser) : bytes :=
  match us with
  | [] => b
  | u :: us => append_users (appendACLEntry b aclTagUser (au_Permissions u) (u32 (au_UID u))) us
  end.
Fixpoint append_groups (b : bytes) (gs : list ACLGroup) : bytes :=
  match gs with
  | [] => b
  | g :: gs => append_groups (appendACLEntry b aclTagGroup (ag_Permissions g) (u32 (ag_GID g))) gs
  end.

(** The permission bits of a class of users in [st_mode]. *)
Definition class_bits (mode shift : Z) : Z := Z.land (Z.shiftr mode shift) 7.

Definition accessACL (mode : Z) (acl : ACLs) : bytes :=
  let b := AppendUint32 [] aclVersion in
  let b := appendACLEntry b aclTagUserObj (class_bits mode 6) aclUndefinedID in
  let b := append_users b (Users acl) in
  let groupObj := match GroupObj acl with Some p => p | None => class_bits mode 3 end in
  let b := appendACLEntry b aclTagGroupObj groupObj aclUndefinedID in
  let b := append_groups b (Groups acl) in
  let b := match GroupObj acl with
           | Some _ => appendACLEntry b aclTagMask (class_bits mode 3) aclUndefinedID
           | None => b
           end in
  appendACLEntry b aclTagOther (class_bits mode 0) aclUndefinedID.

(** [defaultACL], [d] being [acl.Default]. *)
Definition defaultACL (d : ACLDefault) (acl : ACLs) : bytes :=
  let b := AppendUint32 [] aclVersion in
  let b := appendACLEntry b aclTagUserObj (UserObjPermissions d) aclUndefinedID in
  let b := append_users b (DefaultUsers acl) in
  let b := appendACLEntry b aclTagGroupObj (GroupObjPermissions d) aclUndefinedID in
  let b := append_groups b (DefaultGroups acl) in
  let b := if decide (MaskPermissions d = ACLNoMask) then b
           else appendACLEntry b aclTagMask (MaskPermissions d) aclUndefinedID in
  appendACLEntry b aclTagOther (OtherPermissions d) aclUndefinedID.

(* ------------------------------------------------------------------ *)
(** ** Parsing (scan/linux.go) *)

Inductive acl_error := AclLength (n : Z) | AclVersion (v : Z) | AclTag (tag : Z).

(** The variables of the loop; [haveMask] is [Some] of the mask. *)
Record aclEntries := mkEntries {
  ae_users : list ACLUser; ae_groups : list ACLGroup;
  ae_userObj : Z; ae_groupObj : Z; ae_other : Z; ae_mask : option Z }.
Definition no_entries : aclEntries := mkEntries [] [] 0 0 0 None.

(** The switch on the tag of one entry. *)
Definition parse_entry (a : aclEntries) (tag perm id : Z) : result acl_error aclEntries :=
  let 'mkEntries us gs uo go ot ma := a in
  if decide (tag = aclTagUserObj) then Ok (mkEntries us gs perm go ot ma)
  else if decide (tag = aclTagUser) then Ok (mkEntries (us ++ [mkACLUser id perm]) gs uo go ot ma)
  else if decide (tag = aclTagGroupObj) then Ok (mkEntries us gs uo perm ot ma)
  else if decide (tag = aclTagGroup) then Ok (mkEntries us (gs ++ [mkACLGroup id perm]) uo go ot ma)
  else if decide (tag = aclTagMask) then Ok (mkEntries us gs uo go ot (Some perm))
  else if decide (tag = aclTagOther) then Ok (mkEntries us gs uo go perm ma)
  else Err (AclTag tag).

(** The loop over eight-byte entries. *)
Fixpoint parse_entries (a : aclEntries) (rest : bytes) : result acl_error aclEntries :=
  match rest with
  | t0 :: t1 :: p0 :: p1 :: i0 :: i1 :: i2 :: i3 :: rest =>
      a ← parse_entry a (get16 [t0; t1]) (get16 [p0; p1]) (get32 [i0; i1; i2; i3]);
      parse_entries a rest
  | _ => Ok a
  end.

(** [sort.Slice] by id; the ids of one ACL are distinct. *)
Definition user_le (a b : ACLUser) : Prop := au_UID a <= au_UID b.
Definition group_le (a b : ACLGroup) : Prop := ag_GID a <= ag_GID b.
#[export] Instance user_le_dec a b : Decision (user_le a b).
Proof. unfold user_le. apply _. Defined.
#[export] Instance group_le_dec a b : Decision (group_le a b).
Proof. unfold group_le. apply _. Defined.

Definition parseACLXattr (data : bytes) (out : ACLs) (isDefault : bool) : result acl_error ACLs :=
  if decide (zlen data < 4 \/ (zlen data - 4) mod 8 <> 0) then Err (AclLength (zlen data)) else
  if decide (get32 data <> aclVersion) then Err (AclVersion (get32 data)) else
  a ← parse_entries no_entries (drop 4 data);
  let users := merge_sort user_le (ae_users a) in
  let groups := merge_sort group_le (ae_groups a) in
  if isDefault then
    let mask := match ae_mask a with Some m => m | None => ACLNoMask end in
    Ok (mkACLs (Users out) (Groups out) (GroupObj out)
          (Some (mkACLDefault (ae_userObj a) (ae_groupObj a) (ae_other a) mask)) users groups)
  else
    Ok (mkACLs users groups (match ae_mask a with Some _ => Some (ae_groupObj a) | None => GroupObj out end)
          (Default out) (DefaultUsers out) (DefaultGroups out)).

(* ------------------------------------------------------------------ *)
(** ** Lemmas *)

Definition is_u16 (z : Z) : Prop := 0 <= z < 2 ^ 16.

(** An entry's eight bytes. *)
Definition acl_entry (tag perm id : Z) : bytes := Prelude.le 2 tag ++ Prelude.le 2 perm ++ le32 id.
Definition user_entries (us : list ACLUser) : bytes :=
  concat ((fun u => acl_entry aclTagUser (au_Permissions u) (u32 (au_UID u))) <$> us).
Definition group_entries (gs : list ACLGroup) : bytes :=
  concat ((fun g => acl_entry aclTagGroup (ag_Permissions g) (u32 (ag_GID g))) <$> gs).
#[global] Arguments acl_entry : simpl never.
#[global] Arguments user_entries : simpl never.
#[global] Arguments group_entries : simpl never.
Definition mask_entry (m : option Z) : bytes :=
  match m with Some m => acl_entry aclTagMask m aclUndefinedID | None => [] end.

Lemma user_entries_cons u us :
  user_entries (u :: us) = acl_entry aclTagUser (au_Permissions u) (u32 (au_UID u)) ++ user_entries us.
Proof. done. Qed.
Lemma group_entries_cons g gs :
  group_entries (g :: gs) = acl_entry aclTagGroup (ag_Permissions g) (u32 (ag_GID g)) ++ group_entries gs.
Proof. done. Qed.
Lemma appendACLEntry_app b tag perm id : appendACLEntry b tag perm id = b ++ acl_entry tag perm id.
Proof. unfold appendACLEntry, AppendUint32, AppendUint16, acl_entry. by rewrite <- !app_assoc. Qed.
Lemma append_users_app us : forall b, append_users b us = b ++ user_entries us.
Proof.
  induction us as [|u us IH]; intros b; cbn [append_users]; [by rewrite app_nil_r|].
  rewrite IH, appendACLEntry_app. unfold user_entries. cbn. by rewrite <- !app_assoc.
Qed.
Lemma append_groups_app gs : forall b, append_groups b gs = b ++ group_entries gs.
Proof.
  induction gs as [|g gs IH]; intros b; cbn [append_groups]; [by rewrite app_nil_r|].
  rewrite IH, appendACLEntry_app. unfold group_entries. cbn. by rewrite <- !app_assoc.
Qed.

(** A complete attribute value. *)
Definition acl_value (uo : Z) (us : list ACLUser) (go : Z) (gs : list ACLGroup) (ma : option Z) (ot : Z) : bytes :=
  le32 aclVersion ++ acl_entry aclTagUserObj uo aclUndefinedID ++ user_entries us ++
  acl_entry aclTagGroupObj go aclUndefinedID ++ group_entries gs ++ mask_entry ma ++
  acl_entry aclTagOther ot aclUndefinedID.

Lemma accessACL_value mode acl :
  accessACL mode acl =
    acl_value (class_bits mode 6) (Users acl) (default (class_bits mode 3) (GroupObj acl)) (Groups acl)
      ((fun _ => class_bits mode 3) <$> GroupObj acl) (class_bits mode 0).
Proof.
  unfold accessACL, acl_value. rewrite !appendACLEntry_app, append_users_app, append_groups_app.
  destruct (GroupObj acl) as [p|]; cbn [default fmap mask_entry]; rewrite ?appendACLEntry_app;
    unfold AppendUint32; rewrite ?appendACLEntry_app, <- ?app_assoc; done.
Qed.
Lemma defaultACL_value d acl :
  defaultACL d acl =
    acl_value (UserObjPermissions d) (DefaultUsers acl) (GroupObjPermissions d) (DefaultGroups acl)
      (if decide (MaskPermissions d = ACLNoMask) then None else Some (MaskPermissions d)) (OtherPermissions d).
Proof.
  unfold defaultACL, acl_value. rewrite !appendACLEntry_app, append_users_app, append_groups_app.
  case_decide; cbn [mask_entry]; unfold AppendUint32; by rewrite ?appendACLEntry_app, <- ?app_assoc.
Qed.

(** Parsing takes the entries one by one. *)
Lemma parse_entries_entry a tag perm id rest : is_u16 tag -> is_u16 perm -> is_u32 id ->
  parse_entries a (acl_entry tag perm id ++ rest) =
    (a ← parse_entry a tag perm id; parse_entries a rest).
Proof.
  intros Ht Hp Hi. pose proof (le_dec_le 2 tag) as Et. pose proof (le_dec_le 2 perm) as Ep. pose proof (le_dec_le 4 id) as Ei.
  unfold is_u16, is_u32 in *. change (256 ^ Z.of_nat 2) with (2 ^ 16) in *. change (256 ^ Z.of_nat 4) with (2 ^ 32) in Ei.
  rewrite Z.mod_small in Et, Ep, Ei by lia. unfold acl_entry, le32.
  destruct (Prelude.le 2 tag) as [|t0 [|t1 []]] eqn:E1; try (pose proof (length_le 2 tag) as L; rewrite E1 in L; discriminate L).
  destruct (Prelude.le 2 perm) as [|p0 [|p1 []]] eqn:E2; try (pose proof (length_le 2 perm) as L; rewrite E2 in L; discriminate L).
  destruct (Prelude.le 4 id) as [|i0 [|i1 [|i2 [|i3 []]]]] eqn:E3; try (pose proof (length_le 4 id) as L; rewrite E3 in L; discriminate L).
  cbn [app parse_entries]. unfold get16, get32. cbn [take]. by rewrite Et, Ep, Ei.
Qed.

(** One entry parsed, its tag known. *)
Ltac acl_step :=
  rewrite parse_entries_entry by auto; unfold parse_entry;
  repeat first [rewrite decide_False by done | rewrite decide_True by done]; cbn [mbind result_bind].

Definition user_ok (u : ACLUser) : Prop := is_u32 (au_UID u) /\ is_u16 (au_Permissions u).
Definition group_ok (g : ACLGroup) : Prop := is_u32 (ag_GID g) /\ is_u16 (ag_Permissions g).

Lemma parse_users us : Forall user_ok us -> forall us0 gs uo go ot ma rest,
  parse_entries (mkEntries us0 gs uo go ot ma) (user_entries us ++ rest) =
  parse_entries (mkEntries (us0 ++ us) gs uo go ot ma) rest.
Proof.
  induction 1 as [|[i p] us [Hi Hp] Hus IH]; intros; [by rewrite app_nil_r|].
  assert (is_u16 aclTagUser) by done.
  rewrite user_entries_cons. cbn [au_UID au_Permissions] in *. rewrite <- app_assoc, u32_small by done. acl_step. rewrite IH. by rewrite <- app_assoc.
Qed.
Lemma parse_groups gs : Forall group_ok gs -> forall us gs0 uo go ot ma rest,
  parse_entries (mkEntries us gs0 uo go ot ma) (group_entries gs ++ rest) =
  parse_entries (mkEntries us (gs0 ++ gs) uo go ot ma) rest.
Proof.
  induction 1 as [|[i p] gs [Hi Hp] Hgs IH]; intros; [by rewrite app_nil_r|].
  assert (is_u16 aclTagGroup) by done.
  rewrite group_entries_cons. cbn [ag_GID ag_Permissions] in *. rewrite <- app_assoc, u32_small by done. acl_step. rewrite IH. by rewrite <- app_assoc.
Qed.

Lemma parse_value uo us go gs ma ot :
  is_u16 uo -> Forall user_ok us -> is_u16 go -> Forall group_ok gs -> (forall m, ma = Some m -> is_u16 m) -> is_u16 ot ->
  parse_entries no_entries (drop 4 (acl_value uo us go gs ma ot)) = Ok (mkEntries us gs uo go ot ma).
Proof.
  intros Huo Hus Hgo Hgs Hma Hot. unfold acl_value. change 4%nat with (length (le32 aclVersion)) at 1. rewrite drop_app_length.
  assert (is_u16 aclTagUserObj /\ is_u16 aclTagGroupObj /\ is_u16 aclTagMask /\ is_u16 aclTagOther) as (? & ? & ? & ?) by done.
  assert (is_u32 aclUndefinedID) as Hid by done. unfold no_entries.
  acl_step. rewrite parse_users by done. acl_step. rewrite parse_groups by done.
  rewrite <- (app_nil_r (acl_entry aclTagOther _ _)). destruct ma as [m|]; cbn [mask_entry app]; repeat acl_step; done.
Qed.

Lemma length_acl_entry tag perm id : length (acl_entry tag perm id) = 8%nat.
Proof. unfold acl_entry. by rewrite !length_app, !length_le, length_le32. Qed.
Lemma length_concat_8 {A} (f : A -> bytes) l : (forall x, length (f x) = 8%nat) -> length (concat (f <$> l)) = (8 * length l)%nat.
Proof. intros Hf. induction l as [|x l IH]; cbn; [done|]. rewrite length_app, Hf, IH. lia. Qed.

Lemma acl_value_length uo us go gs ma ot : exists k : nat, length (acl_value uo us go gs ma ot) = (4 + 8 * k)%nat.
Proof.
  unfold acl_value, user_entries, group_entries. rewrite !length_app, length_le32, !length_acl_entry.
  rewrite !length_concat_8 by (intros; apply length_acl_entry).
  destruct ma; cbn [mask_entry]; rewrite ?length_acl_entry;
    [exists (4 + length us + length gs)%nat|exists (3 + length us + length gs)%nat]; cbn; lia.
Qed.

(** Sorting keeps a list that is in strict order. *)
Lemma merge_sort_strict {A} (f : A -> Z) (R : relation A) `{!forall a b, Decision (R a b)} l :
  (forall a b, R a b <-> f a <= f b) -> StronglySorted (fun a b => f a < f b) l -> merge_sort R l = l.
Proof.
  intros HR Hl.
  assert (Total R) by (intros a b; rewrite !HR; lia).
  assert (Transitive R) by (intros a b c; rewrite !HR; lia).
  assert (NoDup (f <$> l)) as Hnd.
  { clear -Hl. induction Hl as [|x l _ IH Hx]; cbn; constructor; [|done]. rewrite Forall_forall in Hx.
    intros (y & He & Hy)%list_elem_of_fmap. specialize (Hx y Hy). lia. }
  apply (StronglySorted_unique_strong R).
  - intros a b Ha Hb Hab Hba. rewrite merge_sort_Permutation in Ha. rewrite HR in Hab, Hba.
    apply list_elem_of_lookup in Ha as [i Hi], Hb as [j Hj].
    assert (i = j) as ->.
    { apply (NoDup_lookup (f <$> l) i j (f a)); [done|..]; rewrite list_lookup_fmap, ?Hi, ?Hj; cbn; [done|f_equal; lia]. }
    congruence.
  - by apply StronglySorted_merge_sort.
  - clear -Hl HR. induction Hl as [|x l _ IH Hx]; constructor; [done|]. eapply Forall_impl; [exact Hx|].
    cbn. intros y ?. rewrite HR. lia.
  - apply merge_sort_Permutation.
Qed.

Definition user_ids (us : list ACLUser) : Prop := StronglySorted (fun a b => au_UID a < au_UID b) us.
Definition group_ids (gs : list ACLGroup) : Prop := StronglySorted (fun a b => ag_GID a < ag_GID b) gs.

(** What parsing gives on a complete value whose names are in id order. *)
Lemma parseACLXattr_value uo us go gs ma ot out isDefault :
  is_u16 uo -> Forall user_ok us -> is_u16 go -> Forall group_ok gs -> (forall m, ma = Some m -> is_u16 m) -> is_u16 ot ->
  user_ids us -> group_ids gs ->
  parseACLXattr (acl_value uo us go gs ma ot) out isDefault =
  Ok (if isDefault : bool then mkACLs (Users out) (Groups out) (GroupObj out)
         (Some (mkACLDefault uo go ot (default ACLNoMask ma))) us gs
      else mkACLs us gs (match ma with Some _ => Some go | None => GroupObj out end)
             (Default out) (DefaultUsers out) (DefaultGroups out)).
Proof.
  intros Huo Hus Hgo Hgs Hma Hot Sus Sgs. unfold parseACLXattr.
  destruct (acl_value_length uo us go gs ma ot) as [k Hk].
  rewrite decide_False.
  2: { rewrite Hk. intros [|Hm]; [lia|]. apply Hm. replace (Z.of_nat _ - 4) with (Z.of_nat k * 8) by lia. apply Z.mod_mul. lia. }
  rewrite decide_False.
  2: { unfold acl_value. rewrite get32_le32. intros []. reflexivity. }
  rewrite parse_value by done. cbn [mbind result_bind ae_users ae_groups ae_userObj ae_groupObj ae_other ae_mask].
  rewrite (merge_sort_strict au_UID user_le us), (merge_sort_strict ag_GID group_le gs) by done. by destruct isDefault, ma.
Qed.

(* ------------------------------------------------------------------ *)
(** ** The ACLs of a scan *)

(** What a scan reads: named entries in id order and under a mask, default
    entries only with a default ACL, permissions of at most 16 bits. *)
Record acl_scanned (acl : ACLs) : Prop := {
  as_users : Forall user_ok (Users acl) /\ user_ids (Users acl);
  as_groups : Forall group_ok (Groups acl) /\ group_ids (Groups acl);
  as_mask : match GroupObj acl with Some p => is_u16 p | None => Users acl = [] /\ Groups acl = [] end;
  as_default : match Default acl with
    | Some d => is_u16 (UserObjPermissions d) /\ is_u16 (GroupObjPermissions d) /\ is_u16 (OtherPermissions d) /\
                (MaskPermissions d = ACLNoMask \/ is_u16 (MaskPermissions d))
    | None => DefaultUsers acl = [] /\ DefaultGroups acl = []
    end;
  as_dusers : Forall user_ok (DefaultUsers acl) /\ user_ids (DefaultUsers acl);
  as_dgroups : Forall group_ok (DefaultGroups acl) /\ group_ids (DefaultGroups acl) }.

Lemma class_bits_mod mode s : 0 <= s -> class_bits mode s = (mode / 2 ^ s) mod 8.
Proof. intros Hs. unfold class_bits. rewrite (Z.land_ones _ 3), Z.shiftr_div_pow2 by lia. done. Qed.
Lemma class_bits_u16 mode s : 0 <= s -> is_u16 (class_bits mode s).
Proof. intros Hs. rewrite class_bits_mod by done. unfold is_u16. pose proof (Z.mod_pos_bound (mode / 2 ^ s) 8). lia. Qed.

(** The access ACL is read back. *)
Lemma parse_accessACL mode acl out : acl_scanned acl -> GroupObj out = None ->
  parseACLXattr (accessACL mode acl) out false =
  Ok (mkACLs (Users acl) (Groups acl) (GroupObj acl) (Default out) (DefaultUsers out) (DefaultGroups out)).
Proof.
  intros [[? ?] [? ?] Hm _ _ _] Ho. rewrite accessACL_value, parseACLXattr_value; try done; try by apply class_bits_u16.
  - destruct (GroupObj acl); cbn; by rewrite ?Ho.
  - destruct (GroupObj acl); cbn; [done|by apply class_bits_u16].
  - intros m. destruct (GroupObj acl); cbn; [|done]. intros [= <-]. by apply class_bits_u16.
Qed.

(** So is the default ACL, on top of what was read before. *)
Lemma parse_defaultACL d acl out : acl_scanned acl -> Default acl = Some d ->
  parseACLXattr (defaultACL d acl) out true =
  Ok (mkACLs (Users out) (Groups out) (GroupObj out) (Some d) (DefaultUsers acl) (DefaultGroups acl)).
Proof.
  intros [_ _ _ Hd [? ?] [? ?]] Hd'. rewrite Hd' in Hd. destruct Hd as (? & ? & ? & Hm).
  rewrite defaultACL_value, parseACLXattr_value; try done.
  - do 3 f_equal. destruct d as [uo go ot m]. cbn in *. f_equal. by case_decide.
  - intros m. case_decide; [done|]. intros [= <-]. by destruct Hm.
Qed.

(** The permission bits an access ACL stands for (acl(5)): those of the
    owner, of the mask or else the group, and of others. *)
Definition acl_mode (v : bytes) : option Z :=
  match parse_entries no_entries (drop 4 v) with
  | Ok a => Some (64 * ae_userObj a + 8 * default (ae_groupObj a) (ae_mask a) + ae_other a)
  | Err _ => None
  end.

Lemma mode_bits m : m mod 2 ^ 9 = 64 * ((m / 2 ^ 6) mod 8) + 8 * ((m / 2 ^ 3) mod 8) + (m / 2 ^ 0) mod 8.
Proof.
  change (2 ^ 9) with (8 * (8 * 8)). rewrite (Z.rem_mul_r m 8), (Z.rem_mul_r (m / 8) 8), Z.div_div by lia.
  change (2 ^ 6) with (8 * 8). change (2 ^ 3) with 8. change (2 ^ 0) with 1. rewrite Z.div_1_r. lia.
Qed.
Lemma acl_mode_access mode acl : acl_scanned acl -> acl_mode (accessACL mode acl) = Some (Z.land mode 0x1ff).
Proof.
  intros [[? ?] [? ?] Hm _ _ _]. unfold acl_mode. rewrite accessACL_value, parse_value; try done; try by apply class_bits_u16.
  - cbn. f_equal. change 511 with (Z.ones 9). rewrite Z.land_ones, !class_bits_mod by lia.
    rewrite mode_bits. by destruct (GroupObj acl); cbn [default fmap option_fmap option_map]; rewrite ?class_bits_mod by lia.
  - destruct (GroupObj acl); cbn; [done|by apply class_bits_u16].
  - intros m. destruct (GroupObj acl); cbn; [|done]. intros [= <-]. by apply class_bits_u16.
Qed.
