(* ===== verification/Scan.v ===== *)
(** * The filesystem scanner

    Models scan/scan.go: the walk that turns a filesystem, seen through a
    [MetadataReader], into the node tree the archive generators encode, with
    exclude patterns, .pxarexclude files, hardlink identity across roots and
    the skip-on-error policy.  The filesystem may change at every call; the
    reader's laws are stated where they are used. *)

From S2P Require Import Prelude Format Io Tree Payload Emit Reader ReaderSpec ReaderSafe Glob.
From stdpp Require Import sorting.
From Stdlib Require Import Strings.Byte.
Local Open Scope Z_scope.

(* ------------------------------------------------------------------ *)
(** ** The platform seam *)

Inductive os_error := ErrNotExist | ErrOS (code : Z).

(** [MetadataReader], over a world that every call may change; [r_Stat] is the
    [Follower] interface, if the reader has it. *)
Class MetadataReader (W : Type) := {
  r_Lstat : bytes -> W -> result os_error Stat * W;
  r_ReadDirNames : bytes -> W -> result os_error (list bytes) * W;
  r_Readlink : bytes -> W -> result os_error bytes * W;
  r_ReadXattrs : bytes -> W -> result os_error (list Xattr) * W;
  r_ReadACLs : bytes -> W -> result os_error (option ACLs) * W;
  r_ReadFCaps : bytes -> W -> result os_error bytes * W;
  r_ReadQuotaProjID : bytes -> W -> result os_error (option Z) * W;
  r_ReadFile : bytes -> W -> result os_error bytes * W;
  r_Stat : option (bytes -> W -> result os_error Stat * W) }.

Inductive scan_error :=
  | SeOS (path : bytes) (e : os_error) | SeName (path : bytes) (e : name_error)
  | SeNotDir (path : bytes) | SeIsDir (path : bytes) | SeType (path : bytes) (type : Z)
  | SeTooBig (path : bytes) (size : Z) | SePattern (e : PatternError).

(** [scan.Options]; what [OnWarn] and [OnExclude] hear is kept in the scanner. *)
Record Options := mkOptions {
  SkipOnError : bool; SkipQuotaProjIDs : bool; Exclude : list bytes; PxarExcludeFiles : bool;
  Filter : option (bytes -> bytes -> Stat -> bool) }.

(** [Scanner], with the world it reads and the calls of [OnWarn] and
    [OnExclude] so far. *)
Record scanner (W : Type) := mkScanner {
  s_hardlinks : gmap (Z * Z) bytes; s_patterns : list Pattern; s_followedRoot : bytes;
  s_warned : list (bytes * scan_error); s_excluded : list (bytes * bytes); s_world : W }.
Arguments mkScanner {W}. Arguments s_hardlinks {W}. Arguments s_patterns {W}. Arguments s_followedRoot {W}.
Arguments s_warned {W}. Arguments s_excluded {W}. Arguments s_world {W}.

(** [filepath.Join] of a clean path and a name without a slash, [filepath.Base]
    of a clean path. *)
Definition Join (dir name : bytes) : bytes :=
  if decide (last dir = Some slash) then dir ++ name else dir ++ [slash] ++ name.
Definition Base (path : bytes) : bytes :=
  if decide (path = [slash]) then path else List.last (split_slash path) [].

Definition pxarExcludeName : bytes := lit ".pxarexclude".
Definition maxPxarExcludeSize : Z := 16 * 2 ^ 20.

(** [bytes.Split] on newlines and [bytes.Trim]. *)
Fixpoint split_lines (cur s : bytes) : list bytes :=
  match s with
  | [] => [cur]
  | b :: s => if decide (b = newline) then cur :: split_lines [] s else split_lines (cur ++ [b]) s
  end.
Definition blanks : bytes := [x20; x09; x0d; x0b; x0c].
Fixpoint trim_left (s : bytes) : bytes :=
  match s with b :: s' => if decide (b ∈ blanks) then trim_left s' else s | [] => [] end.
Definition Trim (s : bytes) : bytes := rev (trim_left (rev (trim_left s))).

(** [parseExcludeLine] *)
Definition parseExcludeLine (line dirArchivePath : bytes) : result PatternError Pattern :=
  let '(include, text) := cutPrefix bang line in
  let text := if decide (HasPrefix text [slash] = true /\ dirArchivePath <> []) then [slash] ++ dirArchivePath ++ text else text in
  let text := if include then [bang] ++ text else text in
  match ParsePattern text with
  | Ok p => Ok p
  | Err (mkPatternError _ e) => Err (mkPatternError line e)
  end.

Section scan.
Context {W : Type} `{MetadataReader W}.
Variable opts : Options.

(* ------------------------------------------------------------------ *)
(** ** Scanner actions; [None] is an index panic or the end of the fuel *)

Definition M (A : Type) : Type := scanner W -> option (result scan_error A * scanner W).
#[local] Instance M_ret : MRet M := fun A x s => Some (Ok x, s).
#[local] Instance M_bind : MBind M := fun A B k m s =>
  match m s with
  | Some (Ok x, s) => k x s
  | Some (Err e, s) => Some (Err e, s)
  | None => None
  end.
Definition fail {A} (e : scan_error) : M A := fun s => Some (Err e, s).

Definition set_hardlinks (h : gmap (Z * Z) bytes) (s : scanner W) : scanner W :=
  mkScanner h (s_patterns s) (s_followedRoot s) (s_warned s) (s_excluded s) (s_world s).
Definition set_patterns (p : list Pattern) (s : scanner W) : scanner W :=
  mkScanner (s_hardlinks s) p (s_followedRoot s) (s_warned s) (s_excluded s) (s_world s).
Definition set_followedRoot (r : bytes) (s : scanner W) : scanner W :=
  mkScanner (s_hardlinks s) (s_patterns s) r (s_warned s) (s_excluded s) (s_world s).
Definition add_warned (w : bytes * scan_error) (s : scanner W) : scanner W :=
  mkScanner (s_hardlinks s) (s_patterns s) (s_followedRoot s) (s_warned s ++ [w]) (s_excluded s) (s_world s).
Definition add_excluded (x : bytes * bytes) (s : scanner W) : scanner W :=
  mkScanner (s_hardlinks s) (s_patterns s) (s_followedRoot s) (s_warned s) (s_excluded s ++ [x]) (s_world s).
Definition set_world (w : W) (s : scanner W) : scanner W :=
  mkScanner (s_hardlinks s) (s_patterns s) (s_followedRoot s) (s_warned s) (s_excluded s) w.

Definition modify (f : scanner W -> scanner W) : M unit := fun s => Some (Ok (), f s).
Definition gets {A} (f : scanner W -> A) : M A := fun s => Some (Ok (f s), s).

(** A call of the reader, its outcome as a value or as the scan's error. *)
Definition try {A} (f : W -> result os_error A * W) : M (result os_error A) := fun s =>
  let '(r, w) := f (s_world s) in Some (Ok r, set_world w s).
Definition ask {A} (path : bytes) (f : W -> result os_error A * W) : M A :=
  r ← try f; match r with Ok x => mret x | Err e => fail (SeOS path e) end.

Definition warn (path : bytes) (e : scan_error) : M unit := modify (add_warned (path, e)).

(** [Scanner.excluded]: the patterns, then the filter. *)
Definition excluded (abs archivePath : bytes) (st : Stat) : M bool := fun s =>
  let isDir := Z.land (st_Mode st) modeTypeMask =? modeDir in
  match PatternList_Match (s_patterns s) archivePath isDir with
  | None => None
  | Some (MatchExclude, true) => Some (Ok true, add_excluded (abs, archivePath) s)
  | Some _ =>
      match Filter opts with
      | Some f => if f abs archivePath st then Some (Ok false, s) else Some (Ok true, add_excluded (abs, archivePath) s)
      | None => Some (Ok false, s)
      end
  end.

(** The lines of a .pxarexclude file. *)
Fixpoint push_lines (path dirArchivePath : bytes) (lines : list bytes) : M unit :=
  match lines with
  | [] => mret ()
  | line :: lines =>
      let line := Trim line in
      _ ← match line with
          | [] => mret ()
          | b :: _ =>
              if decide (b = x23) then mret () else
              match parseExcludeLine line dirArchivePath with
              | Err e => warn path (SePattern e)
              | Ok p => modify (fun s => set_patterns (s_patterns s ++ [p]) s)
              end
          end;
      push_lines path dirArchivePath lines
  end.

Definition readPxarExclude (dirAbs dirArchivePath : bytes) : M unit :=
  let path := Join dirAbs pxarExcludeName in
  r ← try (r_Lstat path);
  match r with
  | Err ErrNotExist => mret ()
  | Err e => fail (SeOS path e)
  | Ok st =>
      if negb (Z.land (st_Mode st) modeTypeMask =? modeRegular) then mret () else
      if maxPxarExcludeSize <? st_Size st then fail (SeTooBig path (st_Size st)) else
      d ← try (r_ReadFile path);
      match d with
      | Err ErrNotExist => mret ()
      | Err e => fail (SeOS path e)
      | Ok data => push_lines path dirArchivePath (split_lines [] data)
      end
  end.

(* ------------------------------------------------------------------ *)
(** ** Nodes *)

Definition new_node (name abs : bytes) (kind : Kind) (st : Stat) : node :=
  mkNode name abs kind st [] [] None [] 0 [] None.
Definition set_target (target : bytes) (n : node) : node :=
  mkNode (n_Name n) (n_Path n) (n_Kind n) (n_Stat n) target (n_Xattrs n) (n_ACL n) (n_FCaps n) (n_QuotaProjID n) (n_Children n) (n_Stream n).
Definition set_extras (xs : list Xattr) (acl : option ACLs) (fcaps : bytes) (quota : Z) (n : node) : node :=
  mkNode (n_Name n) (n_Path n) (n_Kind n) (n_Stat n) (n_LinkTarget n) xs acl fcaps quota (n_Children n) (n_Stream n).
Definition set_children (cs : list node) (n : node) : node :=
  mkNode (n_Name n) (n_Path n) (n_Kind n) (n_Stat n) (n_LinkTarget n) (n_Xattrs n) (n_ACL n) (n_FCaps n) (n_QuotaProjID n) cs (n_Stream n).

(** [Scanner.readExtras]; [None] of [r_ReadQuotaProjID] is an unset id. *)
Definition readExtras (n : node) (fidelity : bool) : M node :=
  xs ← ask (n_Path n) (r_ReadXattrs (n_Path n));
  acl ← ask (n_Path n) (r_ReadACLs (n_Path n));
  if negb fidelity then mret (set_extras xs acl (n_FCaps n) (n_QuotaProjID n) n) else
  fcaps ← (if decide (n_Kind n = KindFile) then ask (n_Path n) (r_ReadFCaps (n_Path n)) else mret (n_FCaps n));
  quota ← (if SkipQuotaProjIDs opts then mret (n_QuotaProjID n) else
           q ← ask (n_Path n) (r_ReadQuotaProjID (n_Path n)); mret (default (n_QuotaProjID n) q));
  mret (set_extras xs acl fcaps quota n).

(** The patterns pushed by [m] are popped on every return path. *)
Definition popping {A} (m : M A) : M A := fun s =>
  match m s with
  | Some (r, s') => Some (r, set_patterns (take (length (s_patterns s)) (s_patterns s')) s')
  | None => None
  end.

(** [Scanner.scanChild] with the recursive call; [None] is an entry left out. *)
Definition scanChild (scanNode : bytes -> bytes -> bytes -> Stat -> M node) (abs name archivePath : bytes) : M (option node) :=
  match ValidateFilename name with
  | Err e => fail (SeName abs e)
  | Ok _ =>
      st ← ask abs (r_Lstat abs);
      out ← excluded abs archivePath st;
      if out : bool then mret None else
      n ← scanNode abs name archivePath st; mret (Some n)
  end.

(** The loop over the names of a directory. *)
Fixpoint scan_names (scanNode : bytes -> bytes -> bytes -> Stat -> M node) (abs archivePath : bytes) (names : list bytes) : M (list node) :=
  match names with
  | [] => mret []
  | name :: names => fun s =>
      let childAbs := Join abs name in
      match scanChild scanNode childAbs name (joinArchive archivePath name) s with
      | None => None
      | Some (Err e, s) =>
          if SkipOnError opts then (_ ← warn childAbs e; scan_names scanNode abs archivePath names) s else Some (Err e, s)
      | Some (Ok None, s) => scan_names scanNode abs archivePath names s
      | Some (Ok (Some child), s) => (cs ← scan_names scanNode abs archivePath names; mret (child :: cs)) s
      end
  end.

(** [Scanner.scanNode]; a call deeper by one directory takes one unit of
    fuel. *)
Fixpoint scanNode (fuel : nat) (abs name archivePath : bytes) (st : Stat) {struct fuel} : M node :=
  match fuel with
  | O => fun _ => None
  | S fuel =>
      let type := Z.land (st_Mode st) modeTypeMask in
      if type =? modeDir then
        let n := new_node name abs KindDirectory st in
        root ← gets s_followedRoot;
        n ← (if decide (abs = root) then mret n else readExtras n true);
        popping (
          _ ← (if PxarExcludeFiles opts then
                 fun s =>
                   match readPxarExclude abs archivePath s with
                   | Some (Err e, s) => if SkipOnError opts then warn (Join abs pxarExcludeName) e s else Some (Err e, s)
                   | r => r
                   end
               else mret ());
          names ← ask abs (r_ReadDirNames abs);
          cs ← scan_names (scanNode fuel) abs archivePath names;
          mret (set_children cs n))
      else if type =? modeRegular then
        let file := readExtras (new_node name abs KindFile st) true in
        if 1 <? st_Nlink st then
          let key := (st_Dev st, st_Ino st) in
          links ← gets s_hardlinks;
          match links !! key with
          | Some target => mret (set_target target (new_node name abs KindHardlink st))
          | None => _ ← modify (set_hardlinks (<[key := archivePath]> links)); file
          end
        else file
      else if type =? modeSymlink then
        target ← ask abs (r_Readlink abs);
        mret (set_target target (new_node name abs KindSymlink st))
      else if type =? modeBlockDev then readExtras (new_node name abs KindBlockDevice st) false
      else if type =? modeCharDev then readExtras (new_node name abs KindCharDevice st) false
      else if type =? modeFifo then readExtras (new_node name abs KindFifo st) false
      else if type =? modeSocket then readExtras (new_node name abs KindSocket st) false
      else fail (SeType abs type)
  end.

(** [filepath.Abs] depends on the process: a parameter. *)
Definition ScanDirectory (Abs : bytes -> result os_error bytes) (fuel : nat) (path archivePath : bytes) : M node :=
  match Abs path with
  | Err e => fail (SeOS path e)
  | Ok abs =>
      st ← ask abs (r_Lstat abs);
      st ← (if Z.land (st_Mode st) modeTypeMask =? modeSymlink then
              match r_Stat with
              | Some follow =>
                  r ← try (follow abs);
                  match r with
                  | Ok target =>
                      if Z.land (st_Mode target) modeTypeMask =? modeDir
                      then _ ← modify (set_followedRoot abs); mret target
                      else mret st
                  | Err _ => mret st
                  end
              | None => mret st
              end
            else mret st);
      if negb (Z.land (st_Mode st) modeTypeMask =? modeDir) then fail (SeNotDir abs) else
      scanNode fuel abs (Base abs) archivePath st
  end.

Definition ScanFile (Abs : bytes -> result os_error bytes) (fuel : nat) (path archivePath : bytes) : M node :=
  match Abs path with
  | Err e => fail (SeOS path e)
  | Ok abs =>
      st ← ask abs (r_Lstat abs);
      if Z.land (st_Mode st) modeTypeMask =? modeDir then fail (SeIsDir abs) else
      scanNode fuel abs (Base abs) archivePath st
  end.

(** [NewScanner], with a reader at hand. *)
Definition NewScanner (w : W) : result PatternError (scanner W) :=
  patterns ← ParsePatterns (Exclude opts);
  Ok (mkScanner ∅ patterns [] [] [] w).

(* ------------------------------------------------------------------ *)
(** ** Lemmas: what an action does *)

Lemma bind_inv {A B} (m : M A) (k : A -> M B) s r s' :
  (m ≫= k) s = Some (r, s') ->
  (exists x s1, m s = Some (Ok x, s1) /\ k x s1 = Some (r, s')) \/ (exists e, m s = Some (Err e, s') /\ r = Err e).
Proof.
  unfold mbind, M_bind. destruct (m s) as [[[x|e] s1]|]; [|intros [= <- <-]; right; eauto|done]. intros Hk. left. eauto.
Qed.

(** One call of the reader, whatever it returns; [during w0 w1 w w'] places a
    call that went from [w] to [w'] between [w0] and [w1]. *)
Inductive reader_call : W -> W -> Prop :=
  | rc_Lstat p w : reader_call w (r_Lstat p w).2
  | rc_ReadDirNames p w : reader_call w (r_ReadDirNames p w).2
  | rc_Readlink p w : reader_call w (r_Readlink p w).2
  | rc_ReadXattrs p w : reader_call w (r_ReadXattrs p w).2
  | rc_ReadACLs p w : reader_call w (r_ReadACLs p w).2
  | rc_ReadFCaps p w : reader_call w (r_ReadFCaps p w).2
  | rc_ReadQuotaProjID p w : reader_call w (r_ReadQuotaProjID p w).2
  | rc_ReadFile p w : reader_call w (r_ReadFile p w).2
  | rc_Stat follow p w : r_Stat = Some follow -> reader_call w (follow p w).2.
Definition during (w0 w1 w w' : W) : Prop := rtc reader_call w0 w /\ rtc reader_call w' w1.

Class IsCall {A} (f : W -> result os_error A * W) : Prop := is_call w : reader_call w (f w).2.
#[local] Instance is_Lstat p : IsCall (r_Lstat p).
Proof. constructor. Qed.
#[local] Instance is_ReadDirNames p : IsCall (r_ReadDirNames p).
Proof. constructor. Qed.
#[local] Instance is_Readlink p : IsCall (r_Readlink p).
Proof. constructor. Qed.
#[local] Instance is_ReadXattrs p : IsCall (r_ReadXattrs p).
Proof. constructor. Qed.
#[local] Instance is_ReadACLs p : IsCall (r_ReadACLs p).
Proof. constructor. Qed.
#[local] Instance is_ReadFCaps p : IsCall (r_ReadFCaps p).
Proof. constructor. Qed.
#[local] Instance is_ReadQuotaProjID p : IsCall (r_ReadQuotaProjID p).
Proof. constructor. Qed.
#[local] Instance is_ReadFile p : IsCall (r_ReadFile p).
Proof. constructor. Qed.

Lemma call_steps {A} (f : W -> result os_error A * W) `{!IsCall f} w r w' : f w = (r, w') -> rtc reader_call w w'.
Proof. intros Hf. apply rtc_once. pose proof (is_call w) as Hc. by rewrite Hf in Hc. Qed.

(** Everything but the world is as before, and it moved by calls. *)
Definition same_but_world (s s' : scanner W) : Prop := s' = set_world (s_world s') s /\ rtc reader_call (s_world s) (s_world s').

Lemma same_world_refl s : same_but_world s s.
Proof. by destruct s. Qed.
Lemma same_world_set w s : rtc reader_call (s_world s) w -> same_but_world s (set_world w s).
Proof. by destruct s. Qed.
Lemma same_world_trans s1 s2 s3 : same_but_world s1 s2 -> same_but_world s2 s3 -> same_but_world s1 s3.
Proof. intros [-> H1] [-> H2]. split; [by destruct s1|]. by etrans. Qed.
#[local] Hint Resolve same_world_refl same_world_set : core.

Lemma ask_world {A} path (f : W -> result os_error A * W) s x s' :
  ask path f s = Some (Ok x, s') -> f (s_world s) = (Ok x, s_world s').
Proof.
  unfold ask. intros Ha. apply bind_inv in Ha as [(y & s1 & Ht & Hr)|(e & Ht & ?)]; [|done]. unfold try in Ht.
  destruct (f (s_world s)) as [z w]. injection Ht as -> <-. destruct y; [by injection Hr as -> <-|done].
Qed.

Lemma ask_inv {A} path (f : W -> result os_error A * W) `{!IsCall f} s r s' :
  ask path f s = Some (r, s') -> same_but_world s s' /\
  match r with Ok x => exists w w', f w = (Ok x, w') | Err e => exists e', e = SeOS path e' end.
Proof.
  unfold ask. intros Ha. apply bind_inv in Ha as [(x & s1 & Ht & Hr)|(e & Ht & ->)]; unfold try in Ht;
    destruct (f (s_world s)) as [y w] eqn:Hf; [|done]. injection Ht as -> <-.
  pose proof (call_steps f _ _ _ Hf). destruct x as [x|e]; injection Hr as <- <-; split; auto; [by exists (s_world s), w|by eexists].
Qed.

(** Where the extras of a node came from. *)
Record extras_of (n : node) (fidelity : bool) (n' : node) : Prop := {
  ex_shape : n' = set_extras (n_Xattrs n') (n_ACL n') (n_FCaps n') (n_QuotaProjID n') n;
  ex_xattrs : exists w w', r_ReadXattrs (n_Path n) w = (Ok (n_Xattrs n'), w');
  ex_acl : exists w w', r_ReadACLs (n_Path n) w = (Ok (n_ACL n'), w');
  ex_fcaps : n_FCaps n' = n_FCaps n \/ exists w w', r_ReadFCaps (n_Path n) w = (Ok (n_FCaps n'), w');
  ex_quota : n_QuotaProjID n' = n_QuotaProjID n \/ exists w w', r_ReadQuotaProjID (n_Path n) w = (Ok (Some (n_QuotaProjID n')), w') }.

Lemma readExtras_inv n fid s r s' :
  readExtras n fid s = Some (r, s') -> same_but_world s s' /\ (forall n', r = Ok n' -> extras_of n fid n').
Proof.
  unfold readExtras. intros Hr.
  apply bind_inv in Hr as [(xs & s1 & H1 & Hr)|(e & H1 & ->)]; pose proof (ask_inv _ _ _ _ _ H1) as [S1 X1]; [|by split].
  apply bind_inv in Hr as [(acl & s2 & H2 & Hr)|(e & H2 & ->)]; pose proof (ask_inv _ _ _ _ _ H2) as [S2 X2];
    pose proof (same_world_trans _ _ _ S1 S2) as S12; [|by split].
  destruct fid; cbn [negb] in Hr.
  2: { injection Hr as <- <-. split; [done|]. intros n' [= <-]. by constructor; auto. }
  assert ((exists fc s3, same_but_world s s3 /\ (fc = n_FCaps n \/ exists w w', r_ReadFCaps (n_Path n) w = (Ok fc, w')) /\
    (((quota ← (if SkipQuotaProjIDs opts then mret (n_QuotaProjID n) else
           q ← ask (n_Path n) (r_ReadQuotaProjID (n_Path n)); mret (default (n_QuotaProjID n) q));
       mret (set_extras xs acl fc quota n)) : M node) s3 = Some (r, s'))) \/ (same_but_world s s' /\ exists e, r = Err e)) as [(fc & s3 & S3 & Hfc & Hq)|[S3 [e ->]]].
  { apply bind_inv in Hr as [(fc & s3 & H3 & Hr)|(e & H3 & ->)].
    - left. exists fc, s3. destruct (decide (n_Kind n = KindFile)).
      + pose proof (ask_inv _ _ _ _ _ H3) as [S3 X3]. split; [by eapply same_world_trans|]. auto.
      + injection H3 as <- <-. auto.
    - right. split; [|by eexists]. destruct (decide (n_Kind n = KindFile)); [|done]. pose proof (ask_inv _ _ _ _ _ H3) as [S3 _].
      by eapply same_world_trans. }
  2: { by split. }
  destruct (SkipQuotaProjIDs opts).
  - injection Hq as <- <-. split; [done|]. intros n' [= <-]. constructor; auto.
  - apply bind_inv in Hq as [(q & s4 & H4 & Hq)|(e & H4 & ->)].
    + apply bind_inv in H4 as [(q0 & s5 & H5 & H4)|(e & H5 & He)]; [|done]. pose proof (ask_inv _ _ _ _ _ H5) as [S5 X5].
      injection H4 as <- <-. injection Hq as <- <-. split; [by eapply same_world_trans|]. intros n' [= <-].
      constructor; auto. cbn. destruct q0 as [q|]; cbn; auto.
    + apply bind_inv in H4 as [(q0 & s5 & H5 & H4)|(e' & H5 & He)]; [done|]. pose proof (ask_inv _ _ _ _ _ H5) as [S5 _].
      split; [by eapply same_world_trans|done].
Qed.

(** Kept by the patterns [ps] and the filter. *)
Definition kept (ps : list Pattern) (abs ap : bytes) (st : Stat) : Prop :=
  PatternList_Match ps ap (Z.land (st_Mode st) modeTypeMask =? modeDir) <> Some (MatchExclude, true) /\
  match Filter opts with Some f => f abs ap st = true | None => True end.

Lemma excluded_inv abs ap st s r s' :
  excluded abs ap st s = Some (r, s') ->
  exists b, r = Ok b /\ s_hardlinks s' = s_hardlinks s /\ s_patterns s' = s_patterns s /\ s_followedRoot s' = s_followedRoot s /\
    s_warned s' = s_warned s /\ s_world s' = s_world s /\
    (if b : bool then s_excluded s' = s_excluded s ++ [(abs, ap)] /\ ~ kept (s_patterns s) abs ap st
     else s' = s /\ kept (s_patterns s) abs ap st).
Proof.
  unfold excluded, kept. destruct (PatternList_Match _ _ _) as [[[] []]|] eqn:Hm; [|destruct (Filter opts) as [f|] eqn:Hf..|done].
  all: try (intros [= <- <-]; eexists; split_and!; try done; cbn; split_and!; tauto).
  all: destruct (f abs ap st) eqn:Hfs; intros [= <- <-]; eexists; split_and!; try done; cbn; split_and!; intuition congruence.
Qed.

(** Patterns of a list that was parsed match without a panic. *)
Definition parsed (p : Pattern) : Prop := exists t, ParsePattern t = Ok p.

(* ------------------------------------------------------------------ *)
(** ** The patterns of a directory, independent of how they are read *)

(** A line without the blanks around it. *)
Definition core_of (line core : bytes) : Prop :=
  exists pre post, line = pre ++ core ++ post /\ Forall (.∈ blanks) pre /\ Forall (.∈ blanks) post /\
    (forall b, head core = Some b \/ last core = Some b -> ~ b ∈ blanks).

(** An anchored pattern is anchored at the directory of its list. *)
Definition rooted (dap text : bytes) : bytes :=
  match text with
  | b :: _ => if decide (b = slash /\ dap <> []) then slash :: dap ++ text else text
  | [] => []
  end.
Definition pattern_text (dap core : bytes) : bytes :=
  match core with
  | b :: text => if decide (b = bang) then bang :: rooted dap text else rooted dap core
  | [] => []
  end.

(** The pattern a line stands for: none for an empty line, a comment, or one
    that does not parse, which is reported. *)
Definition line_patterns (log : scanner W) (path dap line : bytes) (ps : list Pattern) : Prop :=
  exists core, core_of line core /\
    match core with
    | [] => ps = []
    | b :: _ =>
        if decide (b = x23) then ps = [] else
        match ParsePattern (pattern_text dap core) with
        | Ok p => ps = [p]
        | Err _ => ps = [] /\ exists e, (path, SePattern e) ∈ s_warned log
        end
    end.

Fixpoint unlines (lines : list bytes) : bytes :=
  match lines with
  | [] => []
  | [l] => l
  | l :: lines => l ++ newline :: unlines lines
  end.

(** [own] are the patterns of a list that holds [data]. *)
Definition file_patterns (log : scanner W) (path dap data : bytes) (own : list Pattern) : Prop :=
  exists lines pss, lines <> [] /\ data = unlines lines /\ Forall (fun l => ~ newline ∈ l) lines /\
    Forall2 (line_patterns log path dap) lines pss /\ own = mjoin pss.

(** [own] are the patterns the directory [abs] adds: those of its list, if lists
    are honoured and it has one that is a regular file; if it cannot be read,
    errors are skipped and it is reported.  What the list holds is what a call
    returned between [w0] and the end of the scan. *)
Definition own_patterns (log : scanner W) (w0 : W) (abs ap : bytes) (own : list Pattern) : Prop :=
  if PxarExcludeFiles opts then
    let path := Join abs pxarExcludeName in
    let at_ w w' := during w0 (s_world log) w w' in
    (own = [] /\ exists w w', at_ w w' /\ r_Lstat path w = (Err ErrNotExist, w')) \/
    (exists w w' st, at_ w w' /\ r_Lstat path w = (Ok st, w') /\
      ((own = [] /\ Z.land (st_Mode st) modeTypeMask <> modeRegular) \/
       (Z.land (st_Mode st) modeTypeMask = modeRegular /\ st_Size st <= maxPxarExcludeSize /\ exists w2, at_ w' w2 /\
         ((own = [] /\ r_ReadFile path w' = (Err ErrNotExist, w2)) \/
          exists data, r_ReadFile path w' = (Ok data, w2) /\ file_patterns log path ap data own)))) \/
    (own = [] /\ SkipOnError opts = true /\ exists e, (path, e) ∈ s_warned log /\ exists w w', at_ w w' /\
      ((exists c, e = SeOS path (ErrOS c) /\
         (r_Lstat path w = (Err (ErrOS c), w') \/ r_ReadFile path w = (Err (ErrOS c), w'))) \/
       exists st, e = SeTooBig path (st_Size st) /\ r_Lstat path w = (Ok st, w') /\ maxPxarExcludeSize < st_Size st))
  else own = [].

Lemma trim_left_spec s : exists pre, s = pre ++ trim_left s /\ Forall (.∈ blanks) pre /\
  (forall b, head (trim_left s) = Some b -> ~ b ∈ blanks).
Proof.
  induction s as [|b s (pre & He & Hp & Hh)]; [by exists []|]. cbn [trim_left]. case_decide as Hb.
  - exists (b :: pre). split_and!; [cbn; by f_equal|by constructor|done].
  - exists []. split_and!; [done|constructor|]. by intros ? [= <-].
Qed.

Lemma last_rev {A} (l : list A) : last (rev l) = head l.
Proof. destruct l as [|x l]; [done|]. cbn. by rewrite last_snoc. Qed.

Lemma Trim_spec line : core_of line (Trim line).
Proof.
  unfold Trim, core_of. destruct (trim_left_spec line) as (pre & He & Hp & Hh).
  destruct (trim_left_spec (rev (trim_left line))) as (pre2 & He2 & Hp2 & Hh2).
  set (t := trim_left line) in *. set (u := trim_left (rev t)) in *.
  assert (t = rev u ++ rev pre2) as Ht by (rewrite <- (rev_involutive t), He2; apply rev_app_distr).
  exists pre, (rev pre2). split_and!; [by rewrite <- Ht|done| |].
  - apply Forall_forall. intros b Hb. rewrite Forall_forall in Hp2. apply Hp2. by apply list_elem_of_In, in_rev, list_elem_of_In.
  - intros b [Hb|Hb].
    + apply Hh. rewrite Ht. destruct (rev u); [done|]. by cbn in *.
    + apply Hh2. by rewrite last_rev in Hb.
Qed.

Lemma rooted_spec dap text :
  (if decide (HasPrefix text [slash] = true /\ dap <> []) then [slash] ++ dap ++ text else text) = rooted dap text.
Proof.
  assert (HasPrefix text [slash] = true <-> exists t, text = slash :: t) as Hp.
  { unfold HasPrefix. rewrite bool_decide_eq_true. destruct text as [|x t]; cbn; [naive_solver|]. rewrite take_0. naive_solver. }
  destruct text as [|b text]; cbn [rooted].
  - rewrite decide_False; [done|]. rewrite Hp. naive_solver.
  - destruct (decide (b = slash /\ dap <> [])) as [[-> Hd]|Hn].
    + rewrite decide_True; [done|]. rewrite Hp. naive_solver.
    + rewrite decide_False; [done|]. rewrite Hp. naive_solver.
Qed.

Lemma parseExcludeLine_spec line dap :
  match ParsePattern (pattern_text dap line) with
  | Ok p => parseExcludeLine line dap = Ok p
  | Err _ => exists e, parseExcludeLine line dap = Err e
  end.
Proof.
  unfold parseExcludeLine. destruct (cutPrefix bang line) as [include text] eqn:Hc. cbv zeta. rewrite rooted_spec.
  assert ((if include then [bang] ++ rooted dap text else rooted dap text) = pattern_text dap line) as ->.
  { destruct line as [|b line]; cbn in Hc; [by injection Hc as <- <-|]. cbn [pattern_text].
    destruct (decide (b = bang)); by injection Hc as <- <-. }
  destruct (ParsePattern _) as [p|[q e]]; [done|by eexists].
Qed.

(** What no part of a scan undoes. *)
Record frame (s s' : scanner W) : Prop := {
  fr_links : s_hardlinks s ⊆ s_hardlinks s';
  fr_patterns : s_patterns s `prefix_of` s_patterns s';
  fr_root : s_followedRoot s' = s_followedRoot s;
  fr_warned : s_warned s `prefix_of` s_warned s';
  fr_excluded : s_excluded s `prefix_of` s_excluded s';
  fr_world : rtc reader_call (s_world s) (s_world s') }.

#[local] Instance frame_refl : Reflexive frame.
Proof. intros s. by constructor. Qed.
#[local] Instance frame_trans : Transitive frame.
Proof. intros s1 s2 s3 [] []. constructor; by etrans. Qed.

Lemma same_world_frame s s' : same_but_world s s' -> frame s s' /\ s_patterns s' = s_patterns s /\ s_hardlinks s' = s_hardlinks s.
Proof. intros [-> Hw]. split; [|done]. by constructor. Qed.

Lemma push_lines_frame path dap lines s r s' :
  push_lines path dap lines s = Some (r, s') ->
  frame s s' /\ s_hardlinks s' = s_hardlinks s /\ s_world s' = s_world s /\ r = Ok ().
Proof.
  revert s. induction lines as [|line lines IH]; intros s; cbn [push_lines]; [intros [= <- <-]; by split|].
  intros Hr. apply bind_inv in Hr as [(x & s1 & H1 & Hr)|(e & H1 & ->)].
  - assert (frame s s1 /\ s_hardlinks s1 = s_hardlinks s /\ s_world s1 = s_world s) as (F1 & L1 & W1).
    { destruct (Trim line) as [|b l]; [by injection H1 as _ <-|]. destruct (decide (b = x23)); [by injection H1 as _ <-|].
      destruct (parseExcludeLine _ dap) as [p|e]; injection H1 as _ <-; (split; [|done]); constructor; cbn; try done; by apply prefix_app_r. }
    destruct (IH _ Hr) as (F2 & L2 & W2 & ->). split_and!; [by etrans|congruence|congruence|done].
  - destruct (Trim line) as [|b l]; [done|]. destruct (decide (b = x23)); [done|]. by destruct (parseExcludeLine _ dap).
Qed.

Lemma readPxarExclude_frame abs ap s r s' :
  readPxarExclude abs ap s = Some (r, s') -> frame s s' /\ s_hardlinks s' = s_hardlinks s.
Proof.
  unfold readPxarExclude. intros Hr. apply bind_inv in Hr as [(x & s1 & H1 & Hr)|(e & H1 & ->)];
    unfold try in H1; destruct (r_Lstat _ _) as [y w] eqn:C1; [|done].
  injection H1 as -> <-. destruct (same_world_frame s _ (same_world_set w s (call_steps _ _ _ _ C1))) as (F1 & P1 & L1).
  destruct x as [st|[|c]]; [|by injection Hr as <- <-..].
  destruct (negb _); [by injection Hr as <- <-|]. destruct (_ <? _); [by injection Hr as <- <-|].
  apply bind_inv in Hr as [(d & s2 & H2 & Hr)|(e & H2 & ->)]; unfold try in H2; destruct (r_ReadFile _ _) as [z w2] eqn:C2; [|done].
  injection H2 as -> <-. destruct (same_world_frame _ _ (same_world_set w2 (set_world w s) (call_steps _ _ _ _ C2))) as (F2 & P2 & L2).
  assert (frame s (set_world w2 (set_world w s))) as F by by etrans.
  destruct d as [data|[|c]]; [|by injection Hr as <- <-..].
  apply push_lines_frame in Hr as (F3 & L3 & _). split; [by etrans|congruence].
Qed.

Lemma warn_frame path e s : frame s (add_warned (path, e) s).
Proof. constructor; cbn; try done. by apply prefix_app_r. Qed.

(** A scan as its callers see it: nothing undone, the patterns as before. *)
Definition keeps {A} (m : M A) : Prop := forall s r s', m s = Some (r, s') -> frame s s' /\ s_patterns s' = s_patterns s.

Lemma scanChild_keeps rec abs name ap :
  (forall abs name ap st, keeps (rec abs name ap st)) -> keeps (scanChild rec abs name ap).
Proof.
  intros Hrec s r s' Hr. unfold scanChild in Hr. destruct (ValidateFilename name) as [[]|e]; [|by injection Hr as <- <-].
  apply bind_inv in Hr as [(st & s1 & H1 & Hr)|(e & H1 & ->)]; pose proof (ask_inv _ _ _ _ _ H1) as [S1 _];
    apply same_world_frame in S1 as (F1 & P1 & _); [|done].
  apply bind_inv in Hr as [(out & s2 & H2 & Hr)|(e & H2 & ->)]; apply excluded_inv in H2 as (b & Hb & L2 & P2 & R2 & W2 & V2 & H2); [|done].
  injection Hb as ->. assert (frame s1 s2) as F2.
  { destruct b; [destruct H2 as [H2 _]|destruct H2 as [-> _]; reflexivity]. constructor; rewrite ?L2, ?P2, ?W2, ?V2, ?H2; try done. by apply prefix_app_r. }
  destruct b; [injection Hr as <- <-; split; [by etrans|congruence]|].
  apply bind_inv in Hr as [(n & s3 & H3 & Hr)|(e & H3 & ->)]; apply Hrec in H3 as [F3 P3].
  - injection Hr as <- <-. split; [by do 2 (etrans; [eassumption|])|congruence].
  - split; [by do 2 (etrans; [eassumption|])|congruence].
Qed.

Lemma scan_names_keeps rec abs ap names :
  (forall abs name ap st, keeps (rec abs name ap st)) -> keeps (scan_names rec abs ap names).
Proof.
  intros Hrec. induction names as [|name names IH]; intros s r s' Hr; cbn [scan_names] in Hr; [by injection Hr as <- <-|].
  destruct (scanChild rec (Join abs name) name (joinArchive ap name) s) as [[[[child|]|e] s1]|] eqn:Hc; [..|done];
    apply (scanChild_keeps rec _ _ _ Hrec) in Hc as [F1 P1].
  - apply bind_inv in Hr as [(cs & s2 & H2 & Hr)|(e & H2 & ->)]; apply IH in H2 as [F2 P2].
    + injection Hr as <- <-. split; [by etrans|congruence].
    + split; [by etrans|congruence].
  - apply IH in Hr as [F2 P2]. split; [by etrans|congruence].
  - destruct (SkipOnError opts); [|by injection Hr as <- <-].
    apply bind_inv in Hr as [(x & s2 & H2 & Hr)|(e' & H2 & ->)]; [|done]. injection H2 as _ <-.
    apply IH in Hr as [F2 P2]. split; [|by rewrite P2]. etrans; [exact F1|]. etrans; [apply warn_frame|exact F2].
Qed.

Definition special (k : Kind) : bool :=
  match k with KindBlockDevice | KindCharDevice | KindFifo | KindSocket => true | _ => false end.

(** What [scanNode] did when it returned a node. *)
Inductive shape (fuel : nat) (abs name ap : bytes) (st : Stat) (s s' : scanner W) : node -> Prop :=
  | sh_dir n0 s1 s2 names cs w w' :
      Z.land (st_Mode st) modeTypeMask = modeDir ->
      n0 = new_node name abs KindDirectory st \/ extras_of (new_node name abs KindDirectory st) true n0 ->
      frame s s1 -> s_hardlinks s1 = s_hardlinks s ->
      (exists own, s_patterns s1 = s_patterns s ++ own /\ own_patterns s1 (s_world s) abs ap own) ->
      r_ReadDirNames abs w = (Ok names, w') -> during (s_world s) (s_world s1) w w' ->
      scan_names (scanNode fuel) abs ap names s1 = Some (Ok cs, s2) ->
      s' = set_patterns (s_patterns s) s2 ->
      shape fuel abs name ap st s s' (set_children cs n0)
  | sh_file n :
      Z.land (st_Mode st) modeTypeMask = modeRegular -> extras_of (new_node name abs KindFile st) true n ->
      (if 1 <? st_Nlink st
       then s_hardlinks s !! (st_Dev st, st_Ino st) = None /\ s_hardlinks s' = <[(st_Dev st, st_Ino st) := ap]> (s_hardlinks s)
       else s_hardlinks s' = s_hardlinks s) ->
      shape fuel abs name ap st s s' n
  | sh_hardlink target :
      Z.land (st_Mode st) modeTypeMask = modeRegular -> 1 < st_Nlink st ->
      s_hardlinks s !! (st_Dev st, st_Ino st) = Some target -> s_hardlinks s' = s_hardlinks s ->
      shape fuel abs name ap st s s' (set_target target (new_node name abs KindHardlink st))
  | sh_symlink target w w' :
      Z.land (st_Mode st) modeTypeMask = modeSymlink -> r_Readlink abs w = (Ok target, w') -> s_hardlinks s' = s_hardlinks s ->
      shape fuel abs name ap st s s' (set_target target (new_node name abs KindSymlink st))
  | sh_special k n :
      special k = true ->
      Z.land (st_Mode st) modeTypeMask = kind_mode k -> extras_of (new_node name abs k st) false n -> s_hardlinks s' = s_hardlinks s ->
      shape fuel abs name ap st s s' n.

Lemma same_world_links s s' : same_but_world s s' -> s_hardlinks s' = s_hardlinks s.
Proof. by intros [-> _]. Qed.

Lemma popping_inv {A} (m : M A) s r s' :
  popping m s = Some (r, s') -> keeps m \/ True ->
  exists s2, m s = Some (r, s2) /\ s' = set_patterns (take (length (s_patterns s)) (s_patterns s2)) s2.
Proof. unfold popping. intros Hp _. destruct (m s) as [[r0 s2]|]; [|done]. injection Hp as <- <-. by exists s2. Qed.

Lemma take_prefix {A} (l k : list A) : l `prefix_of` k -> take (length l) k = l.
Proof. intros [m ->]. apply take_app_length. Qed.

Lemma set_patterns_frame s s2 : frame s s2 -> frame s (set_patterns (s_patterns s) s2).
Proof. intros [? ? ? ? ? ?]. by constructor. Qed.

Lemma extras_frame n fid s r s' : readExtras n fid s = Some (r, s') -> frame s s' /\ s_patterns s' = s_patterns s.
Proof. intros Hr. apply readExtras_inv in Hr as [Hs _]. apply same_world_frame in Hs as (? & ? & _). by split. Qed.

(** The .pxarexclude part of a directory. *)
Definition dir_patterns (abs archivePath : bytes) : M unit :=
  if PxarExcludeFiles opts then
    fun s =>
      match readPxarExclude abs archivePath s with
      | Some (Err e, s) => if SkipOnError opts then warn (Join abs pxarExcludeName) e s else Some (Err e, s)
      | r => r
      end
  else mret ().
Lemma dir_patterns_frame abs ap s r s' :
  dir_patterns abs ap s = Some (r, s') ->
  frame s s' /\ s_hardlinks s' = s_hardlinks s /\ (PxarExcludeFiles opts = false -> s_patterns s' = s_patterns s).
Proof.
  unfold dir_patterns. destruct (PxarExcludeFiles opts); [|by intros [= <- <-]].
  destruct (readPxarExclude abs ap s) as [[[x|e] s1]|] eqn:Hp; [..|done]; apply readPxarExclude_frame in Hp as [F L].
  - by intros [= <- <-].
  - destruct (SkipOnError opts); [|by intros [= <- <-]]. intros [= <- <-]. split_and!; [|done|done].
    etrans; [exact F|apply warn_frame].
Qed.

Lemma split_lines_spec s : forall cur, ~ newline ∈ cur ->
  split_lines cur s <> [] /\ unlines (split_lines cur s) = cur ++ s /\ Forall (fun l => ~ newline ∈ l) (split_lines cur s).
Proof.
  induction s as [|b s IH]; intros cur Hc; cbn [split_lines].
  - split_and!; [done|by rewrite app_nil_r|by repeat constructor].
  - case_decide as Hb.
    + destruct (IH []) as (Hn & Hu & Hf); [apply not_elem_of_nil|]. split_and!; [done| |by constructor].
      destruct (split_lines [] s) as [|l ls]; [done|]. cbn [app] in Hu. rewrite Hb, <- Hu. done.
    + destruct (IH (cur ++ [b])) as (Hn & Hu & Hf); [rewrite elem_of_app, list_elem_of_singleton; naive_solver|].
      split_and!; [done|by rewrite Hu, <- (assoc_L (++))|done].
Qed.

Lemma line_patterns_mono (s s' : scanner W) path dap line ps :
  s_warned s `prefix_of` s_warned s' -> line_patterns s path dap line ps -> line_patterns s' path dap line ps.
Proof.
  intros [l Hl] (core & Hc & Hp). exists core. split; [done|]. destruct core as [|b core]; [done|]. case_decide; [done|].
  destruct (ParsePattern _) as [q|x]; [done|]. destruct Hp as (-> & y & He). split; [done|]. exists y. rewrite Hl. by apply elem_of_app; left.
Qed.

(** The report has grown, and the world moved on. *)
Definition log_grows (s s' : scanner W) : Prop :=
  s_warned s `prefix_of` s_warned s' /\ s_excluded s `prefix_of` s_excluded s' /\ rtc reader_call (s_world s) (s_world s').
Lemma frame_log s s' : frame s s' -> log_grows s s'.
Proof. by intros []. Qed.

Lemma during_mono s s' w0 w1 w w' : log_grows s s' -> rtc reader_call w1 w0 ->
  during w0 (s_world s) w w' -> during w1 (s_world s') w w'.
Proof. intros (_ & _ & Hw) H0 [H1 H2]. split; by etrans. Qed.

Lemma own_patterns_mono (s s' : scanner W) w0 w1 abs ap own :
  log_grows s s' -> rtc reader_call w1 w0 -> own_patterns s w0 abs ap own -> own_patterns s' w1 abs ap own.
Proof.
  intros Hg H0. pose proof (during_mono s s' w0 w1) as Hd. pose proof Hg as ([l Hl] & _).
  unfold own_patterns. destruct (PxarExcludeFiles opts); [|done]. cbv zeta.
  intros [(? & w & w' & ? & ?)|[(w & w' & st & ? & ? & Hc)|(? & ? & e & He & w & w' & ? & ?)]].
  - left. split; [done|]. exists w, w'. auto.
  - right; left. exists w, w', st. split_and!; [auto|done|]. destruct Hc as [?|(? & ? & w2 & ? & Hc)]; [by left|]. right.
    split_and!; [done..|]. exists w2. split; [auto|]. destruct Hc as [?|(data & ? & lines & pss & ? & ? & ? & Hf & ?)]; [by left|].
    right. exists data. split; [done|]. exists lines, pss. split_and!; try done. eapply Forall2_impl; [exact Hf|].
    intros line ps. apply line_patterns_mono. by exists l.
  - right; right. split_and!; [done..|]. exists e. split; [rewrite Hl; by apply elem_of_app; left|]. exists w, w'. split; [auto|done].
Qed.

Lemma push_lines_own path dap lines : forall s r s', push_lines path dap lines s = Some (r, s') ->
  exists pss, Forall2 (line_patterns s' path dap) lines pss /\ s_patterns s' = s_patterns s ++ mjoin pss.
Proof.
  induction lines as [|line lines IH]; intros s r s' Hr; cbn [push_lines] in Hr.
  { injection Hr as <- <-. exists []. split; [constructor|by rewrite app_nil_r]. }
  assert (exists s1 ps, push_lines path dap lines s1 = Some (r, s') /\ line_patterns s1 path dap line ps /\
    s_patterns s1 = s_patterns s ++ ps) as (s1 & ps & Hr1 & Hl & Hp).
  { pose proof (Trim_spec line) as Hc. unfold line_patterns. destruct (Trim line) as [|b l] eqn:Ht.
    { exists s, []. split_and!; [done|by exists []|by rewrite app_nil_r]. }
    destruct (decide (b = x23)) as [Hb|Hb].
    { exists s, []. split_and!; [done| |by rewrite app_nil_r]. exists (b :: l). split; [done|]. by rewrite decide_True. }
    pose proof (parseExcludeLine_spec (b :: l) dap) as Hpe. destruct (ParsePattern _) as [q|x] eqn:Hq.
    - rewrite Hpe in Hr. eexists _, [q]. split_and!; [exact Hr| |done]. exists (b :: l). split; [done|].
      rewrite decide_False by done. by rewrite Hq.
    - destruct Hpe as [e Hpe]. rewrite Hpe in Hr. eexists _, []. split_and!; [exact Hr| |by rewrite app_nil_r].
      exists (b :: l). split; [done|]. rewrite decide_False, Hq by done. split; [done|]. exists e. cbn.
      apply elem_of_app; right. by left. }
  destruct (IH _ _ _ Hr1) as (pss & Hf & Hp'). exists (ps :: pss). split.
  - constructor; [|done]. eapply line_patterns_mono; [|exact Hl]. by apply push_lines_frame in Hr1 as [[] _].
  - rewrite Hp', Hp. by rewrite <- (assoc_L (++)).
Qed.

Lemma dir_patterns_own abs ap s u s' : dir_patterns abs ap s = Some (Ok u, s') ->
  exists own, s_patterns s' = s_patterns s ++ own /\ own_patterns s' (s_world s) abs ap own.
Proof.
  unfold dir_patterns, own_patterns. destruct (PxarExcludeFiles opts); [|by intros [= _ <-]; exists []; rewrite app_nil_r].
  cbv zeta. set (path := Join abs pxarExcludeName). intros Hr.
  assert (forall e t, (if SkipOnError opts then warn path e t else Some (Err e, t)) = Some (Ok u, s') ->
    SkipOnError opts = true /\ (path, e) ∈ s_warned s' /\ s_patterns s' = s_patterns t /\ s_world s' = s_world t) as Herr.
  { intros e t He. destruct (SkipOnError opts); [|done]. injection He as _ <-. split_and!; try done. cbn. apply elem_of_app; right. by left. }
  unfold readPxarExclude in Hr. fold path in Hr. unfold mbind, M_bind, try in Hr.
  destruct (r_Lstat path (s_world s)) as [x w1] eqn:E1. pose proof (call_steps _ _ _ _ E1) as C1.
  destruct x as [st|[|c]]; cbn [fail] in Hr.
  2: { injection Hr as _ <-. exists []. split; [by rewrite app_nil_r|]. left. split; [done|]. exists (s_world s), w1. by split; [split|]. }
  2: { destruct (Herr _ _ Hr) as (? & ? & -> & ->). exists []. split; [by rewrite app_nil_r|]. right; right.
       split_and!; [done..|]. eexists. split; [done|]. exists (s_world s), w1. split; [by split|]. left. exists c. split; [done|by left]. }
  destruct (Z.eqb_spec (Z.land (st_Mode st) modeTypeMask) modeRegular) as [Hreg|Hreg]; cbn [negb] in Hr.
  2: { injection Hr as _ <-. exists []. split; [by rewrite app_nil_r|]. right; left. exists (s_world s), w1, st. split_and!; [by split|done|by left]. }
  destruct (Z.ltb_spec maxPxarExcludeSize (st_Size st)) as [Hbig|Hbig].
  { destruct (Herr _ _ Hr) as (? & ? & -> & ->). exists []. split; [by rewrite app_nil_r|]. right; right.
    split_and!; [done..|]. eexists. split; [done|]. exists (s_world s), w1. split; [by split|]. right. by exists st. }
  cbn [s_world set_world] in Hr. destruct (r_ReadFile path w1) as [y w2] eqn:E2. pose proof (call_steps _ _ _ _ E2) as C2.
  match goal with |- ?goal => assert (forall own, s_world s' = w2 -> s_patterns s' = s_patterns s ++ own ->
    (own = [] /\ y = Err ErrNotExist \/ exists data, y = Ok data /\ file_patterns s' path ap data own) -> goal) as Hread end.
  { intros own Hw Hp Hy. exists own. split; [done|]. rewrite Hw. right; left. exists (s_world s), w1, st. split_and!; [by split|done|].
    right. split_and!; [done..|]. exists w2. split; [by split|]. destruct Hy as [[-> ->]|(data & -> & ?)]; [by left|]. right. by exists data. }
  destruct y as [data|[|c]].
  - destruct (push_lines path ap (split_lines [] data) _) as [[[x|x] t]|] eqn:Hpl; [..|done].
    + injection Hr as _ <-. pose proof Hpl as (_ & _ & Hw & _)%push_lines_frame. apply push_lines_own in Hpl as (pss & Hf & Hp).
      apply (Hread (mjoin pss)); [done..|]. right. exists data. split; [done|].
      destruct (split_lines_spec data []) as (Hn & Hu & Hnl); [apply not_elem_of_nil|]. by exists (split_lines [] data), pss.
    + by apply push_lines_frame in Hpl as (_ & _ & _ & ?).
  - injection Hr as _ <-. apply (Hread []); [done|by rewrite app_nil_r|by left].
  - destruct (Herr _ _ Hr) as (? & ? & -> & ->). exists []. split; [by rewrite app_nil_r|]. right; right.
    split_and!; [done..|]. eexists. split; [done|]. exists w1, w2. split; [by split|]. left. exists c. split; [done|by right].
Qed.

Lemma scanNode_spec fuel : forall abs name ap st s r s',
  scanNode fuel abs name ap st s = Some (r, s') ->
  (frame s s' /\ s_patterns s' = s_patterns s) /\
  exists fuel', fuel = S fuel' /\ forall n, r = Ok n -> shape fuel' abs name ap st s s' n.
Proof.
  induction fuel as [|fuel IH]; intros abs name ap st s r s'; cbn [scanNode]; [done|].
  assert (forall abs name ap st, keeps (scanNode fuel abs name ap st)) as Hk by (intros a b c d s1 r1 s1' H1; by apply IH in H1 as [? _]).
  fold (dir_patterns abs ap).
  destruct (Z.eqb_spec (Z.land (st_Mode st) modeTypeMask) modeDir) as [Hty|Hty].
  { intros Hr. apply bind_inv in Hr as [(root & s0 & H0 & Hr)|(e & H0 & ->)]; [|done]. injection H0 as <- <-.
    apply bind_inv in Hr as [(n0 & s1 & H1 & Hr)|(e & H1 & ->)].
    2: { destruct (decide _); [done|]. apply extras_frame in H1. split; [done|]. eexists. by split. }
    assert (same_but_world s s1 /\ (n0 = new_node name abs KindDirectory st \/ extras_of (new_node name abs KindDirectory st) true n0)) as [S1 X1].
    { destruct (decide _); [injection H1 as <- <-; by auto|]. apply readExtras_inv in H1 as [? Hx]. split; [done|]. right. by apply Hx. }
    apply same_world_frame in S1 as (F1 & P1 & L1).
    apply popping_inv in Hr as (s2 & Hr & ->); [|by right].
    apply bind_inv in Hr as [(u & s3 & H3 & Hr)|(e & H3 & ->)]; pose proof H3 as O3; apply dir_patterns_frame in H3 as (F3 & L3 & P3).
    2: { rewrite (take_prefix _ _ (fr_patterns _ _ F3)), P1. split; [split; [apply set_patterns_frame; by etrans|done]|].
         eexists. by split. }
    assert (forall t, frame s1 t -> frame s (set_patterns (take (length (s_patterns s1)) (s_patterns t)) t) /\
      s_patterns (set_patterns (take (length (s_patterns s1)) (s_patterns t)) t) = s_patterns s) as Hpop.
    { intros t Ht. rewrite (take_prefix _ _ (fr_patterns _ _ Ht)), P1. split; [apply set_patterns_frame; by etrans|done]. }
    apply bind_inv in Hr as [(names & s4 & H4 & Hr)|(e & H4 & ->)]; pose proof (ask_inv _ _ _ _ _ H4) as [S4 _];
      pose proof (same_world_frame _ _ S4) as (F4 & P4 & L4).
    2: { split; [apply Hpop; by etrans|]. eexists. by split. }
    assert (frame s1 s4) as F14 by by etrans. pose proof (ask_world _ _ _ _ _ H4) as X4.
    apply bind_inv in Hr as [(cs & s5 & H5 & Hr)|(e & H5 & ->)]; pose proof (scan_names_keeps _ _ _ _ Hk _ _ _ H5) as [F5 P5].
    2: { split; [apply Hpop; by etrans|]. eexists. by split. }
    assert (frame s1 s5) as F15 by by etrans.
    injection Hr as <- <-. rewrite (take_prefix _ _ (fr_patterns _ _ F15)), P1.
    split; [split; [apply set_patterns_frame; by etrans|done]|]. eexists. split; [done|]. intros n [= <-].
    eapply (sh_dir _ _ _ _ _ _ _ n0 s4 s5 names cs _ _); try done; [by etrans|congruence| |].
    - apply dir_patterns_own in O3 as (own & Ho & Hown). exists own. split; [congruence|].
      eapply own_patterns_mono; [apply frame_log, F4|apply (fr_world _ _ F1)|exact Hown].
    - split; [|done]. etrans; [apply (fr_world _ _ F1)|apply (fr_world _ _ F3)]. }
  destruct (Z.eqb_spec (Z.land (st_Mode st) modeTypeMask) modeRegular) as [Hreg|Hreg].
  { destruct (Z.ltb_spec 1 (st_Nlink st)) as [Hl|Hl].
    - intros Hr. apply bind_inv in Hr as [(links & s0 & H0 & Hr)|(e & H0 & ->)]; [|done]. injection H0 as <- <-.
      destruct (s_hardlinks s !! (st_Dev st, st_Ino st)) as [target|] eqn:Hkey.
      + injection Hr as <- <-. split; [by split|]. eexists. split; [done|]. intros n [= <-]. by apply sh_hardlink.
      + apply bind_inv in Hr as [(u & s1 & H1 & Hr)|(e & H1 & ->)]; [|done]. injection H1 as _ <-.
        assert (frame s (set_hardlinks (<[(st_Dev st, st_Ino st):=ap]> (s_hardlinks s)) s)) as F1
          by (constructor; cbn; try done; by apply insert_subseteq).
        pose proof (extras_frame _ _ _ _ _ Hr) as [F2 P2]. apply readExtras_inv in Hr as [S2 X2]. split; [split; [by etrans|done]|].
        eexists. split; [done|]. intros n ->. apply sh_file; [done|by apply X2|]. rewrite (proj2 (Z.ltb_lt _ _)) by done.
        split; [done|]. by rewrite (same_world_links _ _ S2).
    - intros Hr. pose proof (extras_frame _ _ _ _ _ Hr) as F2. apply readExtras_inv in Hr as [S2 X2]. split; [done|].
      eexists. split; [done|]. intros n ->. apply sh_file; [done|by apply X2|]. rewrite (proj2 (Z.ltb_ge _ _)) by done.
      by apply same_world_links. }
  destruct (Z.eqb_spec (Z.land (st_Mode st) modeTypeMask) modeSymlink) as [Hsy|Hsy].
  { intros Hr. apply bind_inv in Hr as [(target & s1 & H1 & Hr)|(e & H1 & ->)]; pose proof (ask_inv _ _ _ _ _ H1) as [S1 X1];
      pose proof (same_world_frame _ _ S1) as (F1 & P1 & L1).
    - injection Hr as <- <-. split; [by split|]. eexists. split; [done|]. intros n [= <-]. destruct X1 as (w & w' & X1).
      by eapply sh_symlink.
    - split; [by split|]. eexists. by split. }
  assert (forall k, special k = true -> Z.land (st_Mode st) modeTypeMask = kind_mode k ->
    readExtras (new_node name abs k st) false s = Some (r, s') ->
    (frame s s' /\ s_patterns s' = s_patterns s) /\
    exists fuel', S fuel = S fuel' /\ forall n, r = Ok n -> shape fuel' abs name ap st s s' n) as Hspecial.
  { intros k Hin Hm Hr. pose proof (extras_frame _ _ _ _ _ Hr) as F2. apply readExtras_inv in Hr as [S2 X2]. split; [done|].
    eexists. split; [done|]. intros n ->. eapply sh_special; [exact Hin|done|by apply X2|by apply same_world_links]. }
  destruct (Z.eqb_spec (Z.land (st_Mode st) modeTypeMask) modeBlockDev); [by apply Hspecial|].
  destruct (Z.eqb_spec (Z.land (st_Mode st) modeTypeMask) modeCharDev); [by apply Hspecial|].
  destruct (Z.eqb_spec (Z.land (st_Mode st) modeTypeMask) modeFifo); [by apply Hspecial|].
  destruct (Z.eqb_spec (Z.land (st_Mode st) modeTypeMask) modeSocket); [by apply Hspecial|].
  intros [= <- <-]. split; [by split|]. eexists. by split.
Qed.

Lemma scanNode_keeps fuel abs name ap st : keeps (scanNode fuel abs name ap st).
Proof. intros s r s' Hr. by apply scanNode_spec in Hr as [? _]. Qed.

Lemma shape_fields fuel abs name ap st s s' n :
  shape fuel abs name ap st s s' n ->
  n_Name n = name /\ n_Path n = abs /\ n_Stat n = st /\ n_Stream n = None /\
  Z.land (st_Mode (n_Stat n)) modeTypeMask = kind_mode (n_Kind n).
Proof.
  destruct 1 as [n0 s1 s2 names cs w w' Hty Hx _ _ _ _ _ _ _|n Hty [Hx _ _ _ _] _|target Hty _ _ _|target w w' Hty _ _|k n Hk Hty [Hx _ _ _ _] _].
  - destruct Hx as [->|[-> _ _ _ _]]; cbn; by split_and!.
  - rewrite Hx. cbn. by split_and!.
  - cbn. by split_and!.
  - cbn. by split_and!.
  - rewrite Hx. cbn. by split_and!.
Qed.

(** One name of a directory, scanned. *)
Lemma scanChild_inv rec abs name ap s r s' :
  (forall abs name ap st, keeps (rec abs name ap st)) ->
  scanChild rec abs name ap s = Some (r, s') -> forall c, r = Ok (Some c) ->
  ValidateFilename name = Ok () /\ exists st s1,
    r_Lstat abs (s_world s) = (Ok st, s_world s1) /\ same_but_world s s1 /\
    kept (s_patterns s) abs ap st /\ rec abs name ap st s1 = Some (Ok c, s').
Proof.
  intros Hrec Hr c ->. unfold scanChild in Hr. destruct (ValidateFilename name) as [[]|e]; [|done]. split; [done|].
  apply bind_inv in Hr as [(st & s1 & H1 & Hr)|(e & H1 & ?)]; [|done]. pose proof (ask_inv _ _ _ _ _ H1) as [S1 _]. pose proof (ask_world _ _ _ _ _ H1) as X1.
  apply bind_inv in Hr as [(out & s2 & H2 & Hr)|(e & H2 & ?)]; [|done]. apply excluded_inv in H2 as (b & Hb & _ & _ & _ & _ & _ & H2).
  injection Hb as ->. destruct b; [done|]. destruct H2 as (-> & Hm).
  apply bind_inv in Hr as [(n & s3 & H3 & Hr)|(e & H3 & ?)]; [|done]. injection Hr as <- <-.
  exists st, s1. split_and!; try done. by rewrite <- (proj1 (proj2 (same_world_frame _ _ S1))).
Qed.

(** What is returned for the names of a directory, one by one. *)
Lemma scan_names_inv rec abs ap names s r s' :
  (forall abs name ap st, keeps (rec abs name ap st)) ->
  scan_names rec abs ap names s = Some (r, s') -> forall cs, r = Ok cs ->
  match names with
  | [] => cs = [] /\ s' = s
  | name :: names =>
      exists s1, frame s s1 /\ s_patterns s1 = s_patterns s /\
      ((exists c cs', scanChild rec (Join abs name) name (joinArchive ap name) s = Some (Ok (Some c), s1) /\
          cs = c :: cs' /\ scan_names rec abs ap names s1 = Some (Ok cs', s')) \/
       (scanChild rec (Join abs name) name (joinArchive ap name) s = Some (Ok None, s1) /\
          scan_names rec abs ap names s1 = Some (Ok cs, s')) \/
       (SkipOnError opts = true /\ exists e s0, scanChild rec (Join abs name) name (joinArchive ap name) s = Some (Err e, s0) /\
          s1 = add_warned (Join abs name, e) s0 /\ scan_names rec abs ap names s1 = Some (Ok cs, s')))
  end.
Proof.
  intros Hrec Hr cs ->. destruct names as [|name names]; cbn [scan_names] in Hr; [by injection Hr as <- <-|].
  destruct (scanChild rec (Join abs name) name (joinArchive ap name) s) as [[[[child|]|e] s1]|] eqn:Hc; [..|done];
    pose proof (scanChild_keeps rec _ _ _ Hrec _ _ _ Hc) as [F1 P1].
  - apply bind_inv in Hr as [(cs' & s2 & H2 & Hr)|(e & H2 & ?)]; [|done]. injection Hr as <- <-. exists s1. split_and!; try done.
    left. by exists child, cs'.
  - exists s1. split_and!; try done. right; left. by split.
  - destruct (SkipOnError opts) eqn:Hs; [|done].
    apply bind_inv in Hr as [(x & s2 & H2 & Hr)|(e' & H2 & ?)]; [|done]. injection H2 as _ <-.
    exists (add_warned (Join abs name, e) s1). split_and!; [etrans; [exact F1|apply warn_frame]|done|].
    right; right. split; [done|]. by exists e, s1.
Qed.

(* ------------------------------------------------------------------ *)
(** ** Hardlinks *)

Definition targets (h : gmap (Z * Z) bytes) (seen : gset bytes) : Prop := forall k t, h !! k = Some t -> t ∈ seen.

Lemma targets_mono h seen seen' : seen ⊆ seen' -> targets h seen -> targets h seen'.
Proof. unfold targets. set_solver. Qed.

Definition links_ok (n : node) (ap : bytes) (s s' : scanner W) : Prop :=
  forall seen, targets (s_hardlinks s) seen ->
  exists seen', link_walk n ap seen = Some seen' /\ targets (s_hardlinks s') seen' /\ seen ⊆ seen'.

Lemma same_links_ok n ap s1 s s' :
  s_hardlinks s1 = s_hardlinks s -> links_ok n ap s1 s' -> links_ok n ap s s'.
Proof. intros He Hl seen. rewrite <- He. apply Hl. Qed.

Lemma scan_names_links rec abs ap names :
  (forall abs name ap st, keeps (rec abs name ap st)) -> SkipOnError opts = false ->
  (forall abs name ap st s n s', rec abs name ap st s = Some (Ok n, s') -> n_Name n = name /\ links_ok n ap s s') ->
  forall s cs s' seen, scan_names rec abs ap names s = Some (Ok cs, s') -> targets (s_hardlinks s) seen ->
  exists seen', link_walks ap cs seen = Some seen' /\ targets (s_hardlinks s') seen' /\ seen ⊆ seen'.
Proof.
  intros Hk Hskip Hrec. induction names as [|name names IH]; intros s cs s' seen Hr Ht.
  - destruct (scan_names_inv _ _ _ _ _ _ _ Hk Hr cs eq_refl) as [-> ->]. by exists seen.
  - destruct (scan_names_inv _ _ _ _ _ _ _ Hk Hr cs eq_refl) as (s1 & F1 & P1 & [(c & cs' & Hc & -> & H2)|[(Hc & H2)|(Hs & _)]]); [..|congruence].
    + destruct (scanChild_inv _ _ _ _ _ _ _ Hk Hc c eq_refl) as (_ & st & s0 & _ & S0 & _ & Hn).
      destruct (Hrec _ _ _ _ _ _ _ Hn) as [Hname Hl].
      destruct (Hl seen) as (seen1 & H1 & T1 & I1); [by rewrite (same_world_links _ _ S0)|].
      destruct (IH s1 cs' s' seen1 H2 T1) as (seen2 & H3 & T3 & I3). exists seen2. split_and!; [|done|by etrans].
      cbn. rewrite Hname, H1. exact H3.
    + assert (s_hardlinks s1 = s_hardlinks s) as L1; [|apply (IH s1 cs s' seen H2); by rewrite L1].
      unfold scanChild in Hc. destruct (ValidateFilename name) as [[]|e]; [|done].
      apply bind_inv in Hc as [(st & s2 & H1 & Hc)|(e & H1 & ?)]; [|done]. pose proof (ask_inv _ _ _ _ _ H1) as [S2 _].
      apply bind_inv in Hc as [(out & s3 & H3 & Hc)|(e & H3 & ?)]; [|done]. apply excluded_inv in H3 as (b & Hb & L3 & _).
      injection Hb as ->. destruct b.
      * injection Hc as <-. by rewrite L3, (same_world_links _ _ S2).
      * apply bind_inv in Hc as [(n & s4 & H4 & Hc)|(e & H4 & ?)]; done.
Qed.

Lemma scanNode_links fuel : SkipOnError opts = false -> forall abs name ap st s n s',
  scanNode fuel abs name ap st s = Some (Ok n, s') -> n_Name n = name /\ links_ok n ap s s'.
Proof.
  intros Hskip. induction fuel as [|fuel IH]; intros abs name ap st s n s' Hr; [done|].
  apply scanNode_spec in Hr as [_ (fuel' & [= <-] & Hsh)]. specialize (Hsh n eq_refl).
  split; [by apply shape_fields in Hsh as [? _]|]. intros seen Ht. rewrite link_walk_eq.
  destruct (shape_fields _ _ _ _ _ _ _ _ Hsh) as (_ & _ & Hst & _).
  destruct Hsh as [n0 s1 s2 names cs w w' Hty Hx F1 L1 _ _ _ Hcs Hs'|n Hty [Hx _ _ _ _] Hlk|target Hty Hnl Hkey Hlk|target w w' Hty _ Hlk|k n Hk Hty [Hx _ _ _ _] Hlk].
  - assert (n_Kind (set_children cs n0) = KindDirectory) as -> by (destruct Hx as [->|[-> _ _ _ _]]; done). cbn [n_Children set_children].
    rewrite Hs'. change (s_hardlinks (set_patterns (s_patterns s) s2)) with (s_hardlinks s2). eapply (scan_names_links (scanNode fuel)); [apply scanNode_keeps|done|exact IH|exact Hcs|]. by rewrite L1.
  - rewrite Hst. rewrite Hx. cbn. destruct (1 <? st_Nlink st).
    + destruct Hlk as [_ ->]. exists ({[ap]} ∪ seen). split_and!; [done| |set_solver].
      intros k t Hk. apply lookup_insert_Some in Hk as [[_ <-]|[_ Hk]]; [set_solver|]. specialize (Ht k t Hk). set_solver.
    + exists seen. by rewrite Hlk.
  - cbn. rewrite decide_True by (by eapply Ht). exists seen. by rewrite Hlk.
  - cbn. exists seen. by rewrite Hlk.
  - rewrite Hx. cbn. exists seen. rewrite Hlk. by destruct k.
Qed.

(** Every hardlink target on record is a good path. *)
Definition all_targets (Q : bytes -> Prop) (s : scanner W) : Prop := map_Forall (fun _ t => Q t) (s_hardlinks s).
Lemma all_targets_eq Q s s' : s_hardlinks s' = s_hardlinks s -> all_targets Q s -> all_targets Q s'.
Proof. unfold all_targets. by intros ->. Qed.

(** [P fuel ap]: the directory at [ap] may be entered with the fuel. *)
Section paths.
Variable P : nat -> bytes -> Prop.
Definition good_target (t : bytes) : Prop := t <> [] /\ exists fuel, P fuel t.
Hypothesis P_step : forall fuel ap abs names w w' name,
  r_ReadDirNames abs w = (Ok names, w') -> name ∈ names -> ValidateFilename name = Ok () ->
  P (S fuel) ap -> P fuel (joinArchive ap name).

Lemma join_nonempty ap name : ValidateFilename name = Ok () -> joinArchive ap name <> [].
Proof.
  intros Hv. unfold joinArchive. apply ValidateFilename_ok in Hv as (Hn & _). destruct (decide (ap = [])); [done|].
  by destruct ap.
Qed.

Definition keeps_targets (fuel : nat) (rec : bytes -> bytes -> bytes -> Stat -> M node) : Prop :=
  forall abs name ap st s r s', rec abs name ap st s = Some (r, s') -> P fuel ap -> ap <> [] ->
  all_targets good_target s -> all_targets good_target s'.

Lemma scanChild_targets rec fuel abs ap all name childAbs w w' s r s' :
  r_ReadDirNames abs w = (Ok all, w') -> name ∈ all -> P (S fuel) ap -> keeps_targets fuel rec ->
  scanChild rec childAbs name (joinArchive ap name) s = Some (r, s') ->
  all_targets good_target s -> all_targets good_target s'.
Proof.
  intros Hall Hin HP Hrec Hc Ht. unfold scanChild in Hc. destruct (ValidateFilename name) as [[]|e] eqn:Hv; [|by injection Hc as _ <-].
  apply bind_inv in Hc as [(st & s2 & H1 & Hc)|(e & H1 & ?)]; pose proof (ask_inv _ _ _ _ _ H1) as [S2 _]; apply same_world_links in S2;
    [|by eapply all_targets_eq].
  apply bind_inv in Hc as [(out & s3 & H3 & Hc)|(e & H3 & ?)]; apply excluded_inv in H3 as (b & Hb & L3 & _); [|done].
  assert (all_targets good_target s3) as T3 by (eapply all_targets_eq; [exact L3|by eapply all_targets_eq]).
  destruct out; [by injection Hc as _ <-|].
  pose proof (P_step _ _ _ _ _ _ _ Hall Hin Hv HP) as HP'. pose proof (join_nonempty ap name Hv) as Hne.
  apply bind_inv in Hc as [(n & s4 & H4 & Hc)|(e & H4 & ?)]; [injection Hc as _ <-|]; by eapply Hrec.
Qed.

Lemma scan_names_targets rec fuel abs ap all names w w' :
  r_ReadDirNames abs w = (Ok all, w') -> P (S fuel) ap -> keeps_targets fuel rec ->
  names ⊆ all -> forall s r s', scan_names rec abs ap names s = Some (r, s') ->
  all_targets good_target s -> all_targets good_target s'.
Proof.
  intros Hall HP Hrec. induction names as [|name names IH]; intros Hsub s r s' Hr Ht; cbn [scan_names] in Hr; [by injection Hr as _ <-|].
  assert (names ⊆ all) as Hsub' by (intros x Hx; apply Hsub; by right).
  assert (name ∈ all) as Hin by (apply Hsub; by left).
  destruct (scanChild rec (Join abs name) name (joinArchive ap name) s) as [[[[child|]|e] s1]|] eqn:Hc; [..|done];
    pose proof (scanChild_targets _ _ _ _ _ _ _ _ _ _ _ _ Hall Hin HP Hrec Hc Ht) as Hchild.
  - apply bind_inv in Hr as [(cs & s2 & H2 & Hr)|(e & H2 & ->)]; [injection Hr as _ <-|]; by eapply IH.
  - by eapply IH.
  - destruct (SkipOnError opts); [|by injection Hr as _ <-].
    apply bind_inv in Hr as [(x & s2 & H2 & Hr)|(e' & H2 & ?)]; [|done]. injection H2 as _ <-. by eapply IH.
Qed.

Lemma extras_targets Q n fid s r s' : readExtras n fid s = Some (r, s') -> all_targets Q s -> all_targets Q s'.
Proof. intros Hr. apply readExtras_inv in Hr as [Hs _]. apply same_world_links in Hs. by apply all_targets_eq. Qed.

Lemma scanNode_targets fuel : forall abs name ap st s r s',
  scanNode fuel abs name ap st s = Some (r, s') -> P fuel ap ->
  Z.land (st_Mode st) modeTypeMask = modeDir \/ ap <> [] ->
  all_targets good_target s -> all_targets good_target s'.
Proof.
  induction fuel as [|fuel IH]; intros abs name ap st s r s'; cbn [scanNode]; [done|]. fold (dir_patterns abs ap).
  intros Hr HP Hap Ht.
  destruct (Z.eqb_spec (Z.land (st_Mode st) modeTypeMask) modeDir) as [Hty|Hty].
  { apply bind_inv in Hr as [(root & s0 & H0 & Hr)|(e & H0 & ->)]; [|done]. injection H0 as <- <-.
    apply bind_inv in Hr as [(n0 & s1 & H1 & Hr)|(e & H1 & ->)].
    2: { destruct (decide _); [done|]. by eapply extras_targets. }
    assert (all_targets good_target s1) as T1 by (destruct (decide _); [by injection H1 as _ <-|by eapply extras_targets]).
    apply popping_inv in Hr as (s2 & Hr & ->); [|by right]. eapply (all_targets_eq _ s2); [done|].
    apply bind_inv in Hr as [(u & s3 & H3 & Hr)|(e & H3 & ->)]; apply dir_patterns_frame in H3 as (_ & L3 & _);
      apply (all_targets_eq good_target) in L3; [|done..].
    apply bind_inv in Hr as [(names & s4 & H4 & Hr)|(e & H4 & ->)]; pose proof (ask_inv _ _ _ _ _ H4) as [S4 X4];
      apply same_world_links, (all_targets_eq good_target) in S4; [|done..].
    destruct X4 as (w & w' & X4). apply bind_inv in Hr as [(cs & s5 & H5 & Hr)|(e & H5 & ->)]; [injection Hr as _ <-|];
      (eapply (scan_names_targets _ fuel); [exact X4|exact HP| |reflexivity|exact H5|exact S4]); intros ?; intros; eapply IH; eauto. }
  destruct Hap as [|Hap]; [done|].
  destruct (Z.eqb_spec (Z.land (st_Mode st) modeTypeMask) modeRegular).
  { destruct (1 <? st_Nlink st); [|by eapply extras_targets].
    apply bind_inv in Hr as [(links & s0 & H0 & Hr)|(e' & H0 & ->)]; [|done]. injection H0 as <- <-.
    destruct (s_hardlinks s !! _) as [target|]; [by injection Hr as _ <-|].
    apply bind_inv in Hr as [(u & s1 & H1 & Hr)|(e' & H1 & ->)]; [|done]. injection H1 as _ <-.
    eapply extras_targets; [exact Hr|]. intros k t Hk. cbn in Hk.
    apply lookup_insert_Some in Hk as [[_ <-]|[_ Hk]]; [by split; [|eexists]|by apply (Ht k t)]. }
  destruct (Z.eqb_spec (Z.land (st_Mode st) modeTypeMask) modeSymlink).
  { apply bind_inv in Hr as [(target & s1 & H1 & Hr)|(e' & H1 & ->)]; pose proof (ask_inv _ _ _ _ _ H1) as [S1 _];
      apply same_world_links, (all_targets_eq good_target) in S1; try done. by injection Hr as _ <-. }
  repeat (match type of Hr with context [if ?b then _ else _] => destruct b; [by eapply extras_targets|] end).
  by injection Hr as _ <-.
Qed.
End paths.

(* ------------------------------------------------------------------ *)
(** ** Well-formed trees *)

(** Field widths of [Stat]. *)
Definition wf_stat (st : Stat) : Prop :=
  is_u64 (st_Mode st) /\ is_u32 (st_UID st) /\ is_u32 (st_GID st) /\ is_i64 (st_MtimeSecs st) /\ is_u32 (st_MtimeNanos st) /\
  is_u64 (Major (st_Rdev st)) /\ is_u64 (Minor (st_Rdev st)).

(** What [MetadataReader] documents and the platform guarantees. *)
Class ReaderLaws : Prop := {
  law_Lstat p w st w' : r_Lstat p w = (Ok st, w') -> wf_stat st;
  law_Stat f p w st w' : r_Stat = Some f -> f p w = (Ok st, w') -> wf_stat st;
  (** "sorted in byte order"; a name has at most 255 bytes *)
  law_names p w names w' : r_ReadDirNames p w = (Ok names, w') ->
    StronglySorted (fun a b => bytes_leb a b = true /\ a <> b) names /\ Forall (fun n => zlen n < 256) names /\ zlen names < 2 ^ 56;
  law_Readlink p w t w' : r_Readlink p w = (Ok t, w') -> t <> [] /\ zlen t < maxRecordBody;
  law_Xattrs p w xs w' : r_ReadXattrs p w = (Ok xs, w') -> Forall (fun x => wf_meta (RXAttr (xa_Name x) (xa_Value x))) xs;
  law_ACLs p w acl w' : r_ReadACLs p w = (Ok (Some acl), w') -> Forall wf_meta (acl_recs acl);
  law_FCaps p w c w' : r_ReadFCaps p w = (Ok c, w') -> wf_meta (RFCaps c);
  law_QuotaProjID p w q w' : r_ReadQuotaProjID p w = (Ok (Some q), w') -> wf_meta (RQuotaProjID q) }.

(** A node of a scanned tree: what the emitter and the reader ask for, and
    children in strictly ascending name order. *)
Definition scanned_node (n : node) : Prop :=
  wf_node n /\ n_Stream n = None /\ (n_Kind n <> KindDirectory -> n_Children n = []) /\
  StronglySorted (fun a b => name_le a b /\ n_Name a <> n_Name b) (n_Children n) /\ zlen (n_Children n) < 2 ^ 56.

Section wf.
Context `{!ReaderLaws}.

(** Paths a reader accepts, with room for what is below. *)
Definition room (fuel : nat) (ap : bytes) : Prop :=
  safe_path ap /\ zlen ap + 256 * Z.of_nat fuel < maxRecordBody - 8.

Lemma join_safe ap name : safe_path ap -> ValidateFilename name = Ok () -> validatePath (joinArchive ap name) = Ok ().
Proof. intros Ha Hv. apply safe_join; [done|]. unfold validate_name. by rewrite Hv. Qed.

Lemma join_length ap name : zlen (joinArchive ap name) <= zlen ap + 1 + zlen name.
Proof. unfold joinArchive. destruct (decide (ap = [])) as [->|]; rewrite ?length_app; cbn; rewrite ?length_app; cbn; lia. Qed.

Lemma room_step fuel ap abs names w w' name :
  r_ReadDirNames abs w = (Ok names, w') -> name ∈ names -> ValidateFilename name = Ok () ->
  room (S fuel) ap -> room fuel (joinArchive ap name).
Proof.
  intros Hn Hin Hv [Hs Hl]. destruct (law_names _ _ _ _ Hn) as (_ & Hlen & _). rewrite Forall_forall in Hlen. specialize (Hlen _ Hin).
  split; [right; by apply join_safe|]. pose proof (join_length ap name). lia.
Qed.

Lemma wf_meta_extras n0 fid n :
  extras_of n0 fid n -> n_FCaps n0 = [] -> n_QuotaProjID n0 = 0 -> Forall wf_meta (extra_recs n).
Proof.
  intros [_ (w1 & w1' & X1) (w2 & w2' & X2) X3 X4] Hf Hq. unfold extra_recs. apply Forall_app. split.
  { apply Forall_fmap. exact (law_Xattrs _ _ _ _ X1). }
  apply Forall_app. split. { destruct (n_ACL n) as [acl|]; [exact (law_ACLs _ _ _ _ X2)|constructor]. }
  apply Forall_app. split.
  - destruct (Z.ltb_spec 0 (zlen (n_FCaps n))) as [Hlt|]; [|constructor]. constructor; [|constructor].
    destruct X3 as [X3|(w3 & w3' & X3)]; [|exact (law_FCaps _ _ _ _ X3)]. rewrite X3, Hf in Hlt. cbn in Hlt. lia.
  - destruct (Z.eqb_spec (n_QuotaProjID n) 0) as [|Hne]; cbn [negb]; [constructor|]. constructor; [|constructor].
    destruct X4 as [X4|(w4 & w4' & X4)]; [congruence|exact (law_QuotaProjID _ _ _ _ X4)].
Qed.

Lemma wf_stat_entry n : wf_stat (n_Stat n) -> wf_entry (metaEntry n).
Proof. intros (H1 & H2 & H3 & H4 & H5 & _). by split_and!. Qed.

Lemma leaf_scanned n :
  wf_stat (n_Stat n) -> Forall wf_meta (extra_recs n) -> Z.land (st_Mode (n_Stat n)) modeTypeMask = kind_mode (n_Kind n) ->
  n_Children n = [] -> n_Stream n = None ->
  (n_Kind n = KindSymlink -> n_LinkTarget n <> [] /\ zlen (n_LinkTarget n) < maxRecordBody) ->
  (n_Kind n = KindHardlink -> validatePath (n_LinkTarget n) = Ok () /\ zlen (n_LinkTarget n) < maxRecordBody - 8) ->
  tree_all scanned_node n.
Proof.
  intros Hst Hx Hm Hc Hs Hsl Hhl. constructor; [|rewrite Hc; constructor]. split_and!; [|done|done|rewrite Hc; constructor|by rewrite Hc].
  constructor; rewrite ?Hc; try done; [by apply wf_stat_entry|].
  destruct Hst as (_ & _ & _ & _ & _ & H1 & H2). by split.
Qed.

Lemma height_leaf n : n_Kind n <> KindDirectory -> height n = 0%nat.
Proof. destruct n as [? ? kd ? ? ? ? ? ? ? ?]. cbn. by destruct kd. Qed.

Lemma scanned_names rec fuel abs ap names all w w' :
  (forall abs name ap st, keeps (rec abs name ap st)) ->
  r_ReadDirNames abs w = (Ok all, w') -> room (S fuel) ap -> keeps_targets room fuel rec ->
  (forall abs name ap st s n s', rec abs name ap st s = Some (Ok n, s') -> room fuel ap -> ap <> [] -> wf_stat st ->
    all_targets (good_target room) s -> n_Name n = name /\ tree_all scanned_node n /\ (height n <= fuel)%nat) ->
  names ⊆ all -> forall s cs s', scan_names rec abs ap names s = Some (Ok cs, s') -> all_targets (good_target room) s ->
  Forall (fun c => ValidateFilename (n_Name c) = Ok () /\ tree_all scanned_node c /\ (height c <= fuel)%nat) cs /\
  n_Name <$> cs `sublist_of` names.
Proof.
  intros Hk Hall Hroom Hrt Hrec. induction names as [|name names IH]; intros Hsub s cs s' Hr Ht.
  { destruct (scan_names_inv _ _ _ _ _ _ _ Hk Hr cs eq_refl) as [-> _]. split; [constructor|reflexivity]. }
  assert (names ⊆ all) as Hsub' by (intros x Hx; apply Hsub; by right).
  assert (name ∈ all) as Hin by (apply Hsub; by left).
  destruct (scan_names_inv _ _ _ _ _ _ _ Hk Hr cs eq_refl) as (s1 & F1 & P1 & [(c & cs' & Hc & -> & H2)|[(Hc & H2)|(Hs & e & s0 & Hc & -> & H2)]]);
    pose proof (scanChild_targets room room_step _ _ _ _ _ _ _ _ _ _ _ _ Hall Hin Hroom Hrt Hc Ht) as T1.
  - destruct (scanChild_inv _ _ _ _ _ _ _ Hk Hc c eq_refl) as (Hv & st & s0 & Hst & S0 & _ & Hn).
    destruct (Hrec _ _ _ _ _ _ _ Hn) as (Hname & Htree & Hh); [by eapply room_step|by apply join_nonempty|by eapply law_Lstat|
      by eapply all_targets_eq; [apply same_world_links|]|].
    destruct (IH Hsub' _ _ _ H2 T1) as [I1 I2]. split.
    + constructor; [|done]. by rewrite Hname.
    + rewrite fmap_cons, Hname. by apply sublist_skip.
  - destruct (IH Hsub' _ _ _ H2 T1) as [I1 I2]. split; [done|]. by apply sublist_cons.
  - destruct (IH Hsub' _ _ _ H2) as [I1 I2]; [by eapply all_targets_eq|]. split; [done|]. by apply sublist_cons.
Qed.

Lemma sublist_sorted {A} (R : A -> A -> Prop) l k : l `sublist_of` k -> StronglySorted R k -> StronglySorted R l.
Proof.
  induction 1 as [|x l k Hs IH|x l k Hs IH]; intros Hk; [constructor|..]; apply StronglySorted_inv in Hk as [Hk Hx].
  - constructor; [by apply IH|]. rewrite Forall_forall in *. intros y Hy. apply Hx. by eapply elem_of_submseteq; [|apply sublist_submseteq].
  - by apply IH.
Qed.

Lemma sorted_names cs names :
  n_Name <$> cs `sublist_of` names -> StronglySorted (fun a b => bytes_leb a b = true /\ a <> b) names ->
  StronglySorted (fun a b => name_le a b /\ n_Name a <> n_Name b) cs.
Proof.
  intros Hs Hn. pose proof (sublist_sorted _ _ _ Hs Hn) as H1. clear Hs Hn. induction cs as [|c cs IH]; [constructor|].
  rewrite fmap_cons in H1. apply StronglySorted_inv in H1 as [H1 Hx]. constructor; [by apply IH|]. by rewrite Forall_fmap in Hx.
Qed.

Lemma scanNode_wf fuel : forall abs name ap st s n s',
  scanNode fuel abs name ap st s = Some (Ok n, s') -> room fuel ap ->
  Z.land (st_Mode st) modeTypeMask = modeDir \/ ap <> [] -> wf_stat st -> all_targets (good_target room) s ->
  n_Name n = name /\ tree_all scanned_node n /\ (height n <= fuel)%nat.
Proof.
  induction fuel as [|fuel IH]; intros abs name ap st s n s' Hr Hroom Hap Hst Ht; [done|].
  apply scanNode_spec in Hr as [_ (fuel' & [= <-] & Hsh)]. specialize (Hsh n eq_refl).
  destruct (shape_fields _ _ _ _ _ _ _ _ Hsh) as (Hname & _ & Hnst & Hnstr & Hmode). split; [done|].
  destruct Hsh as [n0 s1 s2 names cs w w' Hty Hx F1 L1 _ Hnames _ Hcs Hs'|n Hty Hx Hlk|target Hty Hnl Hkey Hlk|target w w' Hty Hrl Hlk|k n Hk Hty Hx Hlk].
  - assert (all_targets (good_target room) s1) as T1 by by eapply all_targets_eq.
    destruct (scanned_names (scanNode fuel) fuel abs ap names names w w' (scanNode_keeps fuel) Hnames Hroom) with (s := s1) (cs := cs) (s' := s2)
      as [Hall Hsub]; [| |reflexivity|done|done|].
    { intros ?. intros. eapply (scanNode_targets room room_step); eauto. }
    { intros. eapply IH; eauto. }
    destruct (law_names _ _ _ _ Hnames) as (Hsorted & Hlen & Hcount).
    assert (n_Kind (set_children cs n0) = KindDirectory) as Hkd by (destruct Hx as [->|[-> _ _ _ _]]; done).
    assert (zlen cs <= zlen names) as Hle by (apply sublist_length in Hsub; rewrite length_fmap in Hsub; lia).
    split.
    + constructor; [|cbn [n_Children set_children]; eapply Forall_impl; [exact Hall|]; by intros c (_ & ? & _)].
      split_and!; [|done|by rewrite Hkd|by eapply sorted_names|cbn [n_Children set_children]; lia]. constructor; rewrite ?Hkd; try done.
      * apply wf_stat_entry. by rewrite Hnst.
      * destruct Hx as [-> |Hx]; [constructor|]. by apply (wf_meta_extras _ _ _ Hx).
      * by rewrite <- Hkd.
      * cbn [n_Children set_children]. apply Forall_forall. intros c Hc. rewrite Forall_forall in Hall.
        destruct (Hall c Hc) as (Hv & _). split; [done|]. rewrite Forall_forall in Hlen.
        assert (n_Name c ∈ names) as Hin by (eapply elem_of_submseteq; [|by apply sublist_submseteq]; apply list_elem_of_fmap; by exists c).
        specialize (Hlen _ Hin). unfold maxRecordBody. cbn in Hlen |- *. lia.
      * cbn [n_Children set_children]. lia.
      * destruct Hst as (_ & _ & _ & _ & _ & H1 & H2). rewrite Hnst. by split.
    + destruct (set_children cs n0) as [nm pa kd sts lt xs ac fc qp ch strm] eqn:E. cbn in Hkd. subst kd.
      assert (ch = cs) as -> by (by apply (f_equal n_Children) in E). cbn [height n_Kind n_Children].
      assert (foldr (fun c h => Nat.max (height c) h) 0%nat cs <= fuel)%nat; [|lia].
      clear -Hall. induction Hall as [|c cs (_ & _ & Hc) _ IH]; cbn; lia.
  - assert (n_Kind n = KindFile) as Hkn by (destruct Hx as [-> _ _ _ _]; done). split; [|rewrite height_leaf; [lia|by rewrite Hkn]].
    apply leaf_scanned; rewrite ?Hnst, ?Hkn; try done; [by apply (wf_meta_extras _ _ _ Hx)|].
    by destruct Hx as [-> _ _ _ _].
  - split; [|rewrite height_leaf; [lia|done]]. apply leaf_scanned; try done. intros _. cbn.
    destruct (Ht _ _ Hkey) as [Hne [f [[?|Hsafe] Hl]]]; [done|]. split; [done|]. lia.
  - split; [|rewrite height_leaf; [lia|done]]. apply leaf_scanned; try done. intros _. cbn. by eapply law_Readlink.
  - assert (n_Kind n = k) as Hkn by (destruct Hx as [-> _ _ _ _]; done).
    split; [|rewrite height_leaf; [lia|rewrite Hkn; by intros ->]].
    apply leaf_scanned; rewrite ?Hnst, ?Hkn; try done; [by apply (wf_meta_extras _ _ _ Hx)| |by intros ->|by intros ->].
    by destruct Hx as [-> _ _ _ _].
Qed.
End wf.

(* ------------------------------------------------------------------ *)
(** ** Every entry accounted for *)

(** Every name of a directory is one of its nodes, or was left out for a
    reason: the patterns or the filter rejected what [Lstat] said of it, or it
    failed and errors are skipped.  [log] is the scanner after the scan, with
    its report, and [w0] the world before. *)
Definition accounts (log : scanner W) (w0 : W) (ps : list Pattern) (abs ap : bytes) (names : list bytes) (cs : list node) : Prop :=
  forall name, name ∈ names ->
    name ∈ n_Name <$> cs \/
    ((Join abs name, joinArchive ap name) ∈ s_excluded log /\ exists st w w',
      during w0 (s_world log) w w' /\ r_Lstat (Join abs name) w = (Ok st, w') /\
      ~ kept ps (Join abs name) (joinArchive ap name) st) \/
    (SkipOnError opts = true /\ exists e, (Join abs name, e) ∈ s_warned log).

(** A child is what [Lstat] said of its path, kept by the patterns. *)
Definition child_kept (log : scanner W) (w0 : W) (ps : list Pattern) (abs ap : bytes) (c : node) : Prop :=
  n_Path c = Join abs (n_Name c) /\ kept ps (n_Path c) (joinArchive ap (n_Name c)) (n_Stat c) /\
  exists w w', during w0 (s_world log) w w' /\ r_Lstat (n_Path c) w = (Ok (n_Stat c), w').

(** [ps] are the patterns active where the node was found.  Below a directory
    they are followed by its own, and by nothing else; its children are among
    the names it was read to have. *)
Inductive accounted (log : scanner W) (w0 : W) : list Pattern -> bytes -> node -> Prop :=
  | ac_dir ps own ap n w names w' :
      n_Kind n = KindDirectory -> own_patterns log w0 (n_Path n) ap own ->
      during w0 (s_world log) w w' -> r_ReadDirNames (n_Path n) w = (Ok names, w') ->
      accounts log w0 (ps ++ own) (n_Path n) ap names (n_Children n) ->
      n_Name <$> n_Children n `sublist_of` names ->
      Forall (child_kept log w0 (ps ++ own) (n_Path n) ap) (n_Children n) ->
      Forall (fun c => accounted log w0 (ps ++ own) (joinArchive ap (n_Name c)) c) (n_Children n) ->
      accounted log w0 ps ap n
  | ac_leaf ps ap n : n_Kind n <> KindDirectory -> n_Children n = [] -> accounted log w0 ps ap n.

Lemma log_grows_trans s1 s2 s3 : log_grows s1 s2 -> log_grows s2 s3 -> log_grows s1 s3.
Proof. intros (? & ? & ?) (? & ? & ?). split_and!; by etrans. Qed.

Lemma accounts_mono s s' w0 w1 ps abs ap names cs : log_grows s s' -> rtc reader_call w1 w0 ->
  accounts s w0 ps abs ap names cs -> accounts s' w1 ps abs ap names cs.
Proof.
  intros Hg H0 Hacc name Hn. pose proof (during_mono s s' w0 w1) as Hd. pose proof Hg as ([l1 Hw] & [l2 He] & _).
  destruct (Hacc name Hn) as [?|[(? & st & w & w' & ? & ? & ?)|(? & e & ?)]]; [by left|right; left|right; right].
  - split; [rewrite He; by apply elem_of_app; left|]. exists st, w, w'. auto.
  - split; [done|]. exists e. rewrite Hw. by apply elem_of_app; left.
Qed.

Lemma child_kept_mono s s' w0 w1 ps abs ap c : log_grows s s' -> rtc reader_call w1 w0 ->
  child_kept s w0 ps abs ap c -> child_kept s' w1 ps abs ap c.
Proof. intros Hg H0 (? & ? & w & w' & ? & ?). split_and!; [done..|]. exists w, w'. split; [|done]. by eapply during_mono. Qed.

Lemma accounted_mono s s' w0 w1 n : log_grows s s' -> rtc reader_call w1 w0 ->
  forall ps ap, accounted s w0 ps ap n -> accounted s' w1 ps ap n.
Proof.
  intros Hl H0. induction n as [n IH] using node_ind'. intros ps ap Ha.
  inversion Ha as [? own ? ? w names w' Hk Ho Hdu Hn Hacc Hsub Hkept Hcs|]; subst; [|by apply ac_leaf].
  eapply (ac_dir _ _ _ own _ _ w names w'); try done; [by eapply own_patterns_mono|by eapply during_mono|by eapply accounts_mono| |].
  - eapply Forall_impl; [exact Hkept|]. intros c. by apply child_kept_mono.
  - rewrite Forall_forall in *. intros c Hc. apply IH; [done|]. by apply Hcs.
Qed.

Lemma scan_names_accounts rec abs ap names :
  (forall abs name ap st, keeps (rec abs name ap st)) ->
  (forall abs name ap st s n s', rec abs name ap st s = Some (Ok n, s') ->
    n_Name n = name /\ n_Path n = abs /\ n_Stat n = st /\ accounted s' (s_world s) (s_patterns s) ap n) ->
  forall s cs s', scan_names rec abs ap names s = Some (Ok cs, s') ->
  accounts s' (s_world s) (s_patterns s) abs ap names cs /\ n_Name <$> cs `sublist_of` names /\
  Forall (child_kept s' (s_world s) (s_patterns s) abs ap) cs /\
  Forall (fun c => accounted s' (s_world s) (s_patterns s) (joinArchive ap (n_Name c)) c) cs.
Proof.
  intros Hk Hrec. induction names as [|name names IH]; intros s cs s' Hr.
  { destruct (scan_names_inv _ _ _ _ _ _ _ Hk Hr cs eq_refl) as [-> _]. split_and!; [|done..]. intros x Hx. by apply elem_of_nil in Hx. }
  destruct (scan_names_inv _ _ _ _ _ _ _ Hk Hr cs eq_refl) as (s1 & F1 & P1 & Hcase).
  assert (forall cs', scan_names rec abs ap names s1 = Some (Ok cs', s') -> log_grows s1 s' /\
    accounts s' (s_world s) (s_patterns s) abs ap names cs' /\ n_Name <$> cs' `sublist_of` names /\
    Forall (child_kept s' (s_world s) (s_patterns s) abs ap) cs' /\
    Forall (fun c => accounted s' (s_world s) (s_patterns s) (joinArchive ap (n_Name c)) c) cs') as Hrest.
  { intros cs' H2. destruct (IH _ _ _ H2) as (I1 & In & I2 & I3). rewrite P1 in I1, I2, I3. apply fr_world in F1.
    pose proof (scan_names_keeps _ _ _ _ Hk _ _ _ H2) as [F2%frame_log _]. assert (log_grows s' s') as R by by split_and!.
    split_and!; [done|eapply accounts_mono; [exact R|exact F1|exact I1]|done| |].
    - eapply Forall_impl; [exact I2|]. intros c Hc. eapply child_kept_mono; [exact R|exact F1|exact Hc].
    - eapply Forall_impl; [exact I3|]. intros c Hc. eapply accounted_mono; [exact R|exact F1|exact Hc]. }
  destruct Hcase as [(c & cs' & Hc & -> & H2)|[(Hc & H2)|(Hs & e & s0 & Hc & -> & H2)]];
    destruct (Hrest _ H2) as (F2 & I1 & In & I2 & I3).
  - destruct (scanChild_inv _ _ _ _ _ _ _ Hk Hc c eq_refl) as (Hv & st & s0 & Hst & S0 & Hm & Hn).
    destruct (Hrec _ _ _ _ _ _ _ Hn) as (Hname & Hpath & Hstat & Hacc). pose proof S0 as [_ W0].
    rewrite (proj1 (proj2 (same_world_frame _ _ S0))) in Hacc. pose proof (Hk _ _ _ _ _ _ _ Hn) as [F0%frame_log _].
    pose proof (log_grows_trans _ _ _ F0 F2) as (_ & _ & W2). split_and!.
    + intros x [->|Hx]%elem_of_cons; [left; rewrite fmap_cons, Hname; by left|].
      destruct (I1 x Hx) as [?|?]; [|by right]. left. rewrite fmap_cons. by right.
    + rewrite fmap_cons, Hname. by apply sublist_skip.
    + constructor; [|done]. unfold child_kept. rewrite Hname, Hstat, Hpath. split_and!; [done..|]. by exists (s_world s), (s_world s0).
    + constructor; [|done]. rewrite Hname. by eapply accounted_mono; [exact F2|exact W0|].
  - split_and!; [|by apply sublist_cons|done..]. intros x [->|Hx]%elem_of_cons; [|by apply I1]. right; left.
    unfold scanChild in Hc. destruct (ValidateFilename name) as [[]|e]; [|done].
    apply bind_inv in Hc as [(st & s3 & H3 & Hc)|(e & H3 & ?)]; [|done]. pose proof (ask_inv _ _ _ _ _ H3) as [S3 _]. apply ask_world in H3.
    apply bind_inv in Hc as [(out & s4 & H4 & Hc)|(e & H4 & ?)]; [|done].
    apply excluded_inv in H4 as (b & Hb & _ & _ & _ & _ & V4 & H4). injection Hb as ->. destruct b.
    + injection Hc as <-. destruct H4 as [H4 Hout]. rewrite (proj1 (proj2 (same_world_frame _ _ S3))) in Hout.
      destruct F2 as (_ & [l Hl] & W2). rewrite V4 in W2. split.
      * rewrite Hl, H4. apply elem_of_app; left. apply elem_of_app; right. by left.
      * exists st, (s_world s), (s_world s3). split_and!; [by split|done|done].
    + apply bind_inv in Hc as [(n & s5 & H5 & Hc)|(e & H5 & ?)]; done.
  - split_and!; [|by apply sublist_cons|done..]. intros x [->|Hx]%elem_of_cons; [|by apply I1]. right; right. split; [done|]. exists e.
    destruct F2 as ([l Hl] & _). rewrite Hl. cbn. apply elem_of_app; left. apply elem_of_app; right. by left.
Qed.

Lemma scanNode_accounted fuel : forall abs name ap st s n s',
  scanNode fuel abs name ap st s = Some (Ok n, s') ->
  n_Name n = name /\ n_Path n = abs /\ n_Stat n = st /\ accounted s' (s_world s) (s_patterns s) ap n.
Proof.
  induction fuel as [|fuel IH]; intros abs name ap st s n s' Hr; [done|].
  apply scanNode_spec in Hr as [_ (fuel' & [= <-] & Hsh)]. specialize (Hsh n eq_refl).
  destruct (shape_fields _ _ _ _ _ _ _ _ Hsh) as (Hname & Hpath & Hst & _). split_and!; try done.
  assert (n_Kind n <> KindDirectory -> n_Children n = [] -> accounted s' (s_world s) (s_patterns s) ap n) as Hleaf.
  { apply ac_leaf. }
  destruct Hsh as [n0 s1 s2 names cs w w' Hty Hx F1 L1 P1 Hnames Hdu Hcs Hs'|n Hty [Hx _ _ _ _] Hlk|target Hty Hnl Hkey Hlk|target w w' Hty Hrl Hlk|k n Hk Hty [Hx _ _ _ _] Hlk].
  - destruct (scan_names_accounts (scanNode fuel) abs ap names (scanNode_keeps fuel) IH _ _ _ Hcs) as (A1 & A2 & A3 & A4).
    assert (log_grows s2 s') as Hlog by (by rewrite Hs'). destruct P1 as (own & P1 & Hown). rewrite P1 in A1, A3, A4.
    assert (log_grows s1 s') as Hlog1.
    { eapply log_grows_trans; [|exact Hlog]. by apply (scan_names_keeps _ _ _ _ (scanNode_keeps fuel)) in Hcs as [?%frame_log _]. }
    apply fr_world in F1. assert (n_Path (set_children cs n0) = abs) as Habs by done.
    eapply (ac_dir _ _ _ own _ _ w names w'); cbn [n_Children set_children]; rewrite ?Habs; try done.
    + by destruct Hx as [->|[-> _ _ _ _]].
    + eapply own_patterns_mono; [exact Hlog1|reflexivity|exact Hown].
    + eapply during_mono; [exact Hlog1|reflexivity|exact Hdu].
    + eapply accounts_mono; [exact Hlog|exact F1|exact A1].
    + eapply Forall_impl; [exact A3|]. intros c Hc. eapply child_kept_mono; [exact Hlog|exact F1|exact Hc].
    + eapply Forall_impl; [exact A4|]. intros c Hc. eapply accounted_mono; [exact Hlog|exact F1|exact Hc].
  - apply Hleaf; by rewrite Hx.
  - by apply Hleaf.
  - by apply Hleaf.
  - apply Hleaf; rewrite Hx; [|done]. cbn. by intros ->.
Qed.

(* ------------------------------------------------------------------ *)
(** ** A scan ends *)

(** PATH_MAX: directories are read by absolute path, and the kernel refuses
    longer ones. *)
Definition maxPath : Z := 4096.
Class PathLimit : Prop :=
  law_path : forall p w names w', r_ReadDirNames p w = (Ok names, w') -> zlen p < maxPath.

(** A path with its separator. *)
Definition span (abs : bytes) : Z := zlen (Join abs []).

Lemma span_le abs : zlen abs <= span abs <= zlen abs + 1.
Proof. unfold span, Join. case_decide; rewrite !length_app; cbn [length app]; lia. Qed.

Lemma span_join abs name : ValidateFilename name = Ok () -> span abs + 2 <= span (Join abs name).
Proof.
  intros Hv. apply ValidateFilename_ok in Hv as (Hn & _ & _ & Hc & _). destruct name as [|b name _] using rev_ind; [done|].
  assert (b <> slash) as Hb by (intros ->; apply Hc; apply elem_of_app; right; by left).
  assert (exists pre, Join abs (name ++ [b]) = pre ++ [b] /\ zlen pre = zlen (Join abs []) + zlen name) as (pre & -> & Hl).
  { unfold Join. case_decide; [exists (abs ++ name)|exists (abs ++ [slash] ++ name)]; rewrite ?app_nil_r, <- ?app_assoc;
      (split; [done|]); rewrite !length_app; cbn; lia. }
  unfold span at 2, Join. rewrite last_snoc, decide_False by congruence. unfold span. rewrite !length_app. cbn. lia.
Qed.

Definition pats_ok (s : scanner W) : Prop := Forall parsed (s_patterns s).
Lemma pats_ok_eq s s' : s_patterns s' = s_patterns s -> pats_ok s -> pats_ok s'.
Proof. unfold pats_ok. by intros ->. Qed.

Lemma runs_bind {A B} (m : M A) (k : A -> M B) s :
  m s <> None -> (forall x s1, m s = Some (Ok x, s1) -> k x s1 <> None) -> (m ≫= k) s <> None.
Proof. unfold mbind, M_bind. destruct (m s) as [[[x|e] s1]|]; [|done..]. intros _ Hk. by apply Hk. Qed.

Lemma ask_runs {A} path (f : W -> result os_error A * W) s : ask path f s <> None.
Proof. unfold ask. apply runs_bind; [unfold try; by destruct (f _)|]. intros [x|e] s1 _; done. Qed.

Lemma readExtras_runs n fid s : readExtras n fid s <> None.
Proof.
  unfold readExtras. repeat (apply runs_bind; [apply ask_runs|intros ? ? _]). destruct (negb fid); [done|].
  apply runs_bind; [destruct (decide _); [apply ask_runs|done]|intros ? ? _]. apply runs_bind; [|done].
  destruct (SkipQuotaProjIDs opts); [done|]. apply runs_bind; [apply ask_runs|done].
Qed.

Lemma list_match_runs l path isDir : Forall parsed l -> PatternList_Match l path isDir <> None.
Proof.
  unfold PatternList_Match. intros Hl. assert (Forall parsed (rev l)) as Hr by (rewrite Forall_forall in *; intros p; rewrite list_elem_of_In, <- in_rev, <- list_elem_of_In; apply Hl).
  clear Hl. revert Hr. generalize (rev l). intros k Hr.
  induction Hr as [|p k [t Ht] _ IH]; [done|]. cbn [match_rev].
  pose proof (pattern_answers t p path isDir Ht) as Ha. destruct (Pattern_Match p path isDir) as [[]|]; [done|exact IH|].
  exfalso. by destruct Ha as (b & Hb & _).
Qed.

Lemma excluded_runs abs ap st s : pats_ok s -> excluded abs ap st s <> None.
Proof.
  intros Hp. unfold excluded. pose proof (list_match_runs (s_patterns s) ap (Z.land (st_Mode st) modeTypeMask =? modeDir) Hp).
  repeat (case_match; try done).
Qed.

Lemma push_lines_pats path dap lines s r s' : push_lines path dap lines s = Some (r, s') -> pats_ok s -> pats_ok s'.
Proof.
  revert s. induction lines as [|line lines IH]; intros s; cbn [push_lines]; [by intros [= _ <-]|].
  intros Hr Hp. apply bind_inv in Hr as [(x & s1 & H1 & Hr)|(e & H1 & ->)].
  - apply (IH _ Hr). destruct (Trim line) as [|b l]; [by injection H1 as _ <-|].
    destruct (decide (b = x23)); [by injection H1 as _ <-|].
    destruct (parseExcludeLine _ dap) as [p|e] eqn:Hpl; injection H1 as _ <-; [|done].
    apply Forall_app. split; [done|]. constructor; [|constructor].
    unfold parseExcludeLine in Hpl. destruct (cutPrefix bang _). destruct (ParsePattern _) as [q|[? ?]] eqn:Hq; [|done].
    injection Hpl as <-. by eexists.
  - destruct (Trim line) as [|b l]; [done|]. destruct (decide (b = x23)); [done|]. by destruct (parseExcludeLine _ dap).
Qed.
Lemma push_lines_runs path dap lines s : push_lines path dap lines s <> None.
Proof.
  revert s. induction lines as [|line lines IH]; intros s; [done|]. apply runs_bind; [|intros; apply IH].
  destruct (Trim line); [done|]. destruct (decide _); [done|]. by destruct (parseExcludeLine _ _).
Qed.

Lemma dir_patterns_pats abs ap s r s' : dir_patterns abs ap s = Some (r, s') -> pats_ok s -> pats_ok s'.
Proof.
  unfold dir_patterns. destruct (PxarExcludeFiles opts); [|by intros [= <- <-]]. intros Hr Hp.
  assert (forall q t, readPxarExclude abs ap s = Some (q, t) -> pats_ok t) as Hread.
  { clear Hr. intros q t Hr. unfold readPxarExclude in Hr.
    apply bind_inv in Hr as [(x & s1 & H1 & Hr)|(e & H1 & ->)]; unfold try in H1; destruct (r_Lstat _ _) as [y w]; [|done].
    injection H1 as -> <-. destruct x as [st|[|c]]; [|by injection Hr as _ <-..].
    destruct (negb _); [by injection Hr as _ <-|]. destruct (_ <? _); [by injection Hr as _ <-|].
    apply bind_inv in Hr as [(d & s2 & H2 & Hr)|(e & H2 & ->)]; unfold try in H2; destruct (r_ReadFile _ _) as [z w2]; [|done].
    injection H2 as -> <-. destruct d as [data|[|c]]; [|by injection Hr as _ <-..]. by eapply push_lines_pats. }
  destruct (readPxarExclude abs ap s) as [[[x|e] s1]|]; [..|done]; specialize (Hread _ _ eq_refl).
  - by injection Hr as _ <-.
  - destruct (SkipOnError opts); by injection Hr as _ <-.
Qed.
Lemma dir_patterns_runs abs ap s : dir_patterns abs ap s <> None.
Proof.
  unfold dir_patterns. destruct (PxarExcludeFiles opts); [|done].
  assert (readPxarExclude abs ap s <> None) as Hread.
  { unfold readPxarExclude. apply runs_bind; [unfold try; by destruct (r_Lstat _ _)|]. intros [st|[|c]] s1 _; [|done..].
    destruct (negb _); [done|]. destruct (_ <? _); [done|].
    apply runs_bind; [unfold try; by destruct (r_ReadFile _ _)|]. intros [data|[|c]] s2 _; [|done..]. apply push_lines_runs. }
  destruct (readPxarExclude abs ap s) as [[[x|e] s1]|]; [done| |done]. by destruct (SkipOnError opts).
Qed.

Lemma scan_names_runs rec abs ap names :
  (forall abs name ap st, keeps (rec abs name ap st)) ->
  (forall name ap st s, ValidateFilename name = Ok () -> pats_ok s -> rec (Join abs name) name ap st s <> None) ->
  forall s, pats_ok s -> scan_names rec abs ap names s <> None.
Proof.
  intros Hk Hrec. induction names as [|name names IH]; intros s Hp; [done|]. cbn [scan_names].
  assert (scanChild rec (Join abs name) name (joinArchive ap name) s <> None) as Hc.
  { unfold scanChild. destruct (ValidateFilename name) as [[]|] eqn:Hv; [|done].
    apply runs_bind; [apply ask_runs|]. intros st s1 Hask. pose proof (ask_inv _ _ _ _ _ Hask) as [H1 _]. apply same_world_frame in H1 as (_ & P1 & _).
    apply (pats_ok_eq _ _ P1) in Hp. apply runs_bind; [by apply excluded_runs|].
    intros out s2 (b & _ & _ & P2 & _)%excluded_inv. apply (pats_ok_eq _ _ P2) in Hp.
    destruct out; [done|]. apply runs_bind; [by apply Hrec|done]. }
  destruct (scanChild rec (Join abs name) name (joinArchive ap name) s) as [[[[c|]|e] s1]|] eqn:Hs; [..|done];
    apply (scanChild_keeps rec _ _ _ Hk) in Hs as [_ P1]; apply (pats_ok_eq _ _ P1) in Hp.
  - apply runs_bind; [by apply IH|done].
  - by apply IH.
  - destruct (SkipOnError opts); [|done]. apply runs_bind; [done|]. intros x s2 [= _ <-]. by apply IH.
Qed.

Lemma scanNode_runs `{!PathLimit} fuel : forall abs name ap st s,
  (0 < fuel)%nat -> maxPath + 2 < span abs + 2 * Z.of_nat fuel -> pats_ok s -> scanNode fuel abs name ap st s <> None.
Proof.
  induction fuel as [|fuel IH]; intros abs name ap st s Hpos Hf Hp; [lia|]. cbn [scanNode]. fold (dir_patterns abs ap).
  destruct (Z.eqb _ modeDir).
  { apply runs_bind; [done|]. intros root s0 [= <- <-]. apply runs_bind; [destruct (decide _); [done|apply readExtras_runs]|].
    intros n0 s1 H1. assert (pats_ok s1) as Hp1.
    { destruct (decide _); [by injection H1 as _ <-|]. apply extras_frame in H1 as [_ P1]. by eapply pats_ok_eq. }
    unfold popping. match goal with |- match ?m with _ => _ end <> None => assert (m <> None) as Hm; [|by destruct m as [[? ?]|]] end.
    apply runs_bind; [apply dir_patterns_runs|]. intros u s2 H2. apply dir_patterns_pats in H2; [|done].
    apply runs_bind; [apply ask_runs|]. intros names s3 Hask. pose proof (ask_inv _ _ _ _ _ Hask) as [S3 (w & w' & X3)].
    apply same_world_frame in S3 as (_ & P3 & _). apply (pats_ok_eq _ _ P3) in H2.
    apply runs_bind; [|done]. apply scan_names_runs; [apply scanNode_keeps| |done].
    intros child cap cst t Hv Ht. pose proof (law_path _ _ _ _ X3) as Hlen. pose proof (span_join abs child Hv).
    pose proof (span_le abs).
    apply IH; [unfold maxPath in *; lia|lia|done]. }
  destruct (Z.eqb _ modeRegular).
  { destruct (1 <? st_Nlink st); [|apply readExtras_runs]. apply runs_bind; [done|]. intros links s0 [= <- <-].
    destruct (s_hardlinks s !! _); [done|]. apply runs_bind; [done|]. intros ? ? _. apply readExtras_runs. }
  destruct (Z.eqb _ modeSymlink); [apply runs_bind; [apply ask_runs|done]|].
  repeat (match goal with |- (if ?b then _ else _) _ <> _ => destruct b; [apply readExtras_runs|] end). done.
Qed.

(** Directories nest no deeper than the path limit allows. *)
Lemma scanNode_height `{!PathLimit} fuel : forall abs name ap st s n s',
  scanNode fuel abs name ap st s = Some (Ok n, s') -> height n = 0%nat \/ span abs + 2 * Z.of_nat (height n) <= maxPath + 2.
Proof.
  induction fuel as [|fuel IH]; intros abs name ap st s n s' Hr; [done|].
  apply scanNode_spec in Hr as [_ (fuel' & [= <-] & Hsh)]. specialize (Hsh n eq_refl).
  destruct (decide (n_Kind n = KindDirectory)) as [Hkd|Hkd]; [|left; by apply height_leaf]. right.
  destruct Hsh as [n0 s1 s2 names cs w w' Hty Hx F1 L1 P1 Hnames _ Hcs Hs'|n Hty [Hx _ _ _ _] Hlk|target Hty Hnl Hkey Hlk|target w w' Hty Hrl Hlk|k n Hk Hty [Hx _ _ _ _] Hlk];
    [|by rewrite Hx in Hkd|done|done|rewrite Hx in Hkd; cbn in Hkd; by rewrite Hkd in Hk].
  assert (Forall (fun c => height c = 0%nat \/ span abs + 2 + 2 * Z.of_nat (height c) <= maxPath + 2) cs) as Hall.
  { clear Hx Hkd Hs' L1 F1 P1. revert s1 cs Hcs. clear Hnames. induction names as [|nm names IHn]; intros s1 cs Hcs.
    - by destruct (scan_names_inv _ _ _ _ _ _ _ (scanNode_keeps fuel) Hcs cs eq_refl) as [-> _].
    - destruct (scan_names_inv _ _ _ _ _ _ _ (scanNode_keeps fuel) Hcs cs eq_refl) as (t & _ & _ & [(c & cs' & Hc & -> & H2)|[(Hc & H2)|(_ & e & s0 & Hc & _ & H2)]]);
        [|by eapply IHn..]. constructor; [|by eapply IHn].
      destruct (scanChild_inv _ _ _ _ _ _ _ (scanNode_keeps fuel) Hc c eq_refl) as (Hv & cst & t0 & _ & _ & _ & Hn).
      pose proof (span_join abs nm Hv). destruct (IH _ _ _ _ _ _ _ Hn); [by left|right; lia]. }
  pose proof (law_path _ _ _ _ Hnames) as Hlen.
  pose proof (span_le abs).
  destruct (set_children cs n0) as [nm pa kd sts lt xs ac fc qp ch strm] eqn:E. cbn in Hkd. subst kd.
  assert (ch = cs) as -> by (by apply (f_equal n_Children) in E). cbn [height n_Kind n_Children].
  assert (foldr (fun c h => Nat.max (height c) h) 0%nat cs = 0%nat \/
    span abs + 2 + 2 * Z.of_nat (foldr (fun c h => Nat.max (height c) h) 0%nat cs) <= maxPath + 2) as [Hz|Hz]; [| unfold maxPath in *; lia | unfold maxPath in *; lia].
  clear -Hall. induction Hall as [|c cs Hc _ IH]; cbn; [by left|]. destruct Hc, IH; lia.
Qed.
End scan.
