(* ===== verification/Linux.v ===== *)
(** * Linux metadata

    Models scan/linux.go and restore/linux.go: what the scanner reads of an
    entry and what a restore sets on it, over the system calls of one process.
    The calls are an interface; [LinuxSpec] states their documented
    behaviour. *)

From stdpp Require Import sorting.
From S2P Require Import Prelude Format Tree Reader Glob FS Acl Scan.
From Stdlib Require Import Strings.Byte.
Local Open Scope Z_scope.

(* ------------------------------------------------------------------ *)
(** ** System calls *)

(** Error numbers the source names. *)
Definition ENOENT := 2.
Definition EINVAL := 22.
Definition ENOTTY := 25.
Definition ERANGE := 34.
Definition ENOSYS := 38.
Definition ENODATA := 61.
Definition EOPNOTSUPP := 95.

(** [unix.Stat_t], the fields the source reads. *)
Record Stat_t := mkStat_t {
  t_Mode : Z; t_Uid : Z; t_Gid : Z; t_Sec : Z; t_Nsec : Z;
  t_Size : Z; t_Nlink : Z; t_Dev : Z; t_Ino : Z; t_Rdev : Z }.

(** The calls of the reader on absolute paths.  A buffer is its length; what
    a call wrote to it comes with the size it returned.  [sys_changes] bounds
    the calls other processes still make that change an attribute. *)
Class ScanSys (W : Type) := {
  sys_Lstat : bytes -> W -> result Z Stat_t * W;
  sys_Stat : bytes -> W -> result Z Stat_t * W;
  os_ReadDir : bytes -> W -> result Z (list bytes) * W;
  os_Readlink : bytes -> W -> result Z bytes * W;
  os_ReadFile : bytes -> W -> result Z bytes * W;
  sys_Llistxattr : bytes -> Z -> W -> result Z (Z * bytes) * W;
  sys_Lgetxattr : bytes -> bytes -> Z -> W -> result Z (Z * bytes) * W;
  sys_Open : bytes -> W -> result Z Z * W;
  sys_FsGetXattr : Z -> W -> result Z Z * W;
  sys_Close : Z -> W -> W;
  unix_Major : Z -> Z;
  unix_Minor : Z -> Z;
  sys_changes : W -> nat }.

(** How a method returns: a value or an error; a panic; or not within the
    rounds its loop was given. *)
Inductive run (A : Type) := Ret (a : A) | Panic | Spin.
Arguments Ret {A}. Arguments Panic {A}. Arguments Spin {A}.

(** Errors of the reader: an error number, or an attribute it cannot parse. *)
Inductive meta_error := MeErrno (e : Z) | MeACL (attr : bytes) (e : acl_error).

Definition xattrACLAccess : bytes := lit "system.posix_acl_access".
Definition xattrACLDefault : bytes := lit "system.posix_acl_default".
Definition xattrFCaps : bytes := lit "security.capability".
Definition systemPrefix : bytes := lit "system.".

Definition isNoData (e : Z) : bool := e =? ENODATA.
Definition isNotSupported (e : Z) : bool := e =? EOPNOTSUPP.

(** [buf[:size]] of a buffer of [len] bytes that starts with [data]; out of
    its capacity is a panic. *)
Definition slice_buf (len size : Z) (data : bytes) : option bytes :=
  if (0 <=? size) && (size <=? len)
  then Some (take (Z.to_nat size) (data ++ replicate (Z.to_nat len - length data) nul)) else None.

(** [strings.Split] on NUL, without empty names. *)
Fixpoint split_nul (cur s : bytes) : list bytes :=
  match s with
  | [] => match cur with [] => [] | _ => [cur] end
  | b :: s =>
      if decide (b = nul) then match cur with [] => split_nul [] s | _ => cur :: split_nul [] s end
      else split_nul (cur ++ [b]) s
  end.

Definition xattr_le (a b : Xattr) : Prop := bytes_leb (xa_Name a) (xa_Name b) = true.
#[export] Instance xattr_le_dec a b : Decision (xattr_le a b).
Proof. unfold xattr_le. apply _. Defined.

Section reader.
Context {W : Type} `{ScanSys W}.

(** Methods: a world in, an outcome and a world out. *)
Definition P (A : Type) : Type := W -> run (result meta_error A) * W.
#[local] Instance P_ret : MRet P := fun A a w => (Ret (Ok a), w).
#[local] Instance P_bind : MBind P := fun A B f m w =>
  match m w with
  | (Ret (Ok a), w) => f a w
  | (Ret (Err e), w) => (Ret (Err e), w)
  | (Panic, w) => (Panic, w)
  | (Spin, w) => (Spin, w)
  end.
Definition pfail {A} (e : Z) : P A := fun w => (Ret (Err (MeErrno e)), w).
Definition sys {A} (f : W -> result Z A * W) : P A := fun w =>
  match f w with (Ok a, w) => (Ret (Ok a), w) | (Err e, w) => (Ret (Err (MeErrno e)), w) end.
(** The error of a method, looked at by its caller. *)
Definition catch {A} (m : P A) (h : Z -> P A) : P A := fun w =>
  match m w with (Ret (Err (MeErrno e)), w) => h e w | r => r end.

Definition stat_of (st : Stat_t) : Stat :=
  mkStat (t_Mode st) (t_Uid st) (t_Gid st) (t_Sec st) (t_Nsec st) (t_Size st) (t_Nlink st) (t_Dev st)
    (t_Ino st) (mkDevice (unix_Major (t_Rdev st)) (unix_Minor (t_Rdev st))).
(** The follower leaves the device numbers out. *)
Definition stat_followed (st : Stat_t) : Stat :=
  mkStat (t_Mode st) (t_Uid st) (t_Gid st) (t_Sec st) (t_Nsec st) (t_Size st) (t_Nlink st) (t_Dev st)
    (t_Ino st) zeroDevice.

Definition linux_Lstat (path : bytes) : P Stat := st ← sys (sys_Lstat path); mret (stat_of st).
Definition linux_Stat (path : bytes) : P Stat := st ← sys (sys_Stat path); mret (stat_followed st).
Definition linux_ReadDirNames (path : bytes) : P (list bytes) := sys (os_ReadDir path).
Definition linux_Readlink (path : bytes) : P bytes := sys (os_Readlink path).
Definition linux_ReadFile (path : bytes) : P bytes := sys (os_ReadFile path).

(** The second call of [getXattr] and [listXattrNames], into a buffer of the
    size the first returned; [None] is a value that no longer fits. *)
Definition fill (size : Z) (f : Z -> W -> result Z (Z * bytes) * W) : P (option bytes) := fun w =>
  match f size w with
  | (Err e, w) => if e =? ERANGE then (Ret (Ok None), w) else (Ret (Err (MeErrno e)), w)
  | (Ok (n, data), w) =>
      match slice_buf size n data with Some b => (Ret (Ok (Some b)), w) | None => (Panic, w) end
  end.

(** [getXattr]; a round that is repeated met a change by another process. *)
Fixpoint getXattr_loop (fuel : nat) (path name : bytes) : P bytes :=
  match fuel with
  | O => fun w => (Spin, w)
  | S fuel =>
      s ← sys (sys_Lgetxattr path name 0);
      r ← fill s.1 (sys_Lgetxattr path name);
      match r with Some value => mret value | None => getXattr_loop fuel path name end
  end.
Definition getXattr (path name : bytes) : P bytes := fun w => getXattr_loop (S (sys_changes w)) path name w.

Fixpoint listXattrNames_loop (fuel : nat) (path : bytes) : P (list bytes) :=
  match fuel with
  | O => fun w => (Spin, w)
  | S fuel =>
      s ← catch (s ← sys (sys_Llistxattr path 0); mret s.1) (fun e => if isNotSupported e then mret 0 else pfail e);
      if s =? 0 then mret [] else
      r ← fill s (sys_Llistxattr path);
      match r with Some buf => mret (split_nul [] buf) | None => listXattrNames_loop fuel path end
  end.
Definition listXattrNames (path : bytes) : P (list bytes) :=
  fun w => listXattrNames_loop (S (sys_changes w)) path w.

(** The loop of [Xattrs] over the names. *)
Fixpoint read_values (path : bytes) (names : list bytes) : P (list Xattr) :=
  match names with
  | [] => mret []
  | name :: names =>
      if HasPrefix name systemPrefix || bool_decide (name = xattrFCaps) then read_values path names else
      v ← catch (v ← getXattr path name; mret (Some v)) (fun e => if isNoData e then mret None else pfail e);
      rest ← read_values path names;
      mret (match v with Some v => mkXattr name v :: rest | None => rest end)
  end.

Definition linux_Xattrs (path : bytes) : P (list Xattr) :=
  names ← listXattrNames path;
  out ← read_values path names;
  mret (merge_sort xattr_le out).

(** A value that may be missing, or not supported by the file system. *)
Definition optional (path name : bytes) : P (option bytes) :=
  catch (v ← getXattr path name; mret (Some v))
    (fun e => if isNoData e || isNotSupported e then mret None else pfail e).

Definition linux_FCaps (path : bytes) : P (option bytes) := optional path xattrFCaps.

(** A value parsed into [out], if there is one. *)
Definition parse_into (attr : bytes) (v : option bytes) (out : ACLs) (isDefault : bool) : P ACLs :=
  match v with
  | None => mret out
  | Some data => fun w =>
      match parseACLXattr data out isDefault with
      | Ok out => (Ret (Ok out), w)
      | Err e => (Ret (Err (MeACL attr e)), w)
      end
  end.

Definition linux_ACLs (path : bytes) : P (option ACLs) :=
  access ← optional path xattrACLAccess;
  out ← parse_into xattrACLAccess access emptyACLs false;
  deflt ← optional path xattrACLDefault;
  out ← parse_into xattrACLDefault deflt out true;
  mret (if decide (Users out = [] /\ Groups out = [] /\ GroupObj out = None /\ Default out = None /\
                   DefaultUsers out = [] /\ DefaultGroups out = []) then None else Some out).

(** [QuotaProjID]: the id, and whether it is set. *)
Definition fd_projid (fd : Z) : P (Z * bool) := fun w =>
  let '(r, w) := sys_FsGetXattr fd w in
  let w := sys_Close fd w in
  match r with
  | Err e =>
      if (e =? ENOTTY) || (e =? EOPNOTSUPP) || (e =? EINVAL) || (e =? ENOSYS) then (Ret (Ok (0, false)), w)
      else (Ret (Err (MeErrno e)), w)
  | Ok projid => (Ret (Ok (projid, negb (projid =? 0))), w)
  end.
Definition linux_QuotaProjID (path : bytes) : P (Z * bool) := fd ← sys (sys_Open path); fd_projid fd.
End reader.

(* ------------------------------------------------------------------ *)
(** ** The writer (restore/linux.go) *)

(** The calls of the writer.  [Dir] is an open [*os.File] of a directory, [Fd]
    a descriptor of an entry; [root_Open] is [os.Root.Open] of the target. *)
Class WriterSys (W Dir Fd : Type) := {
  root_Open : bytes -> W -> result Z Dir * W;
  dir_Close : Dir -> W -> W;
  sys_Fchownat : Dir -> bytes -> Z -> Z -> W -> result Z unit * W;
  sys_Openat : Dir -> bytes -> W -> result Z Fd * W;
  fd_Close : Fd -> W -> W;
  sys_Fsetxattr : Fd -> bytes -> bytes -> W -> result Z unit * W;
  sys_Fchmodat : Dir -> bytes -> Z -> W -> result Z unit * W;
  sys_UtimesNanoAt : Dir -> bytes -> Z * Z -> W -> result Z unit * W;
  sys_Mknodat : Dir -> bytes -> Z -> Z -> W -> result Z unit * W;
  unix_Mkdev : Z -> Z -> Z;
  unix_NsecToTimespec : Z -> Z * Z }.

(** What [Apply] passes to [warn]. *)
Inductive apply_warning :=
  | AwParent (e : Z) | AwChown (uid gid e : Z) | AwFileType | AwQuota | AwChmod (e : Z) | AwMtime (e : Z)
  | AwOpenXattrs (e : Z) | AwXattr (name : bytes) (e : Z).

(** [path.Dir]: the path up to its last slash, cleaned. *)
Fixpoint from_slash (r : bytes) : bytes :=
  match r with [] => [] | c :: r' => if decide (c = slash) then r else from_slash r' end.
Definition path_Dir (p : bytes) : bytes := path_Clean (rev (from_slash (rev p))).

Section writer.
Context {W Dir Fd : Type} `{WriterSys W Dir Fd}.

(** An action that only warns: the warnings in order, and the world. *)
Definition act : Type := W -> list apply_warning * W.
Definition skip : act := fun w => ([], w).
Definition say (a : apply_warning) : act := fun w => ([a], w).
Definition andthen (a b : act) : act := fun w =>
  let '(l1, w) := a w in let '(l2, w) := b w in (l1 ++ l2, w).
Definition reporting (f : W -> result Z unit * W) (warning : Z -> apply_warning) : act := fun w =>
  match f w with (Ok _, w) => ([], w) | (Err e, w) => ([warning e], w) end.
Definition when (b : bool) (a : act) : act := if b then a else skip.
#[local] Infix "⨾" := andthen (at level 60, right associativity).

(** [openParent] *)
Definition openParent (name : bytes) (w : W) : result Z Dir * bytes * W :=
  let parent := if decide (name = dot) then dot else path_Dir name in
  let '(d, w) := root_Open parent w in (d, path_Base name, w).

(** [linuxWriter.Mknod]; major and minor are cut to 32 bits. *)
Definition linux_Mknod (name : bytes) (n : rnode) (w : W) : result Z unit * W :=
  match openParent name w with
  | (Err e, _, w) => (Err e, w)
  | (Ok dir, base, w) =>
      let dev := unix_Mkdev (u32 (Major (r_Device n))) (u32 (Minor (r_Device n))) in
      let '(r, w) := sys_Mknodat dir base (u32 (Z.land (e_Mode (r_Entry n)) (Z.lor modeTypeMask 0x1ff))) (i64 dev) w in
      (r, dir_Close dir w)
  end.

Definition set_xattr (fd : Fd) (name value : bytes) : act :=
  reporting (sys_Fsetxattr fd name value) (AwXattr name).

Fixpoint set_each (fd : Fd) (xs : list Xattr) : act :=
  match xs with
  | [] => skip
  | x :: xs => set_xattr fd (xa_Name x) (xa_Value x) ⨾ set_each fd xs
  end.

Definition has_access (acl : ACLs) : bool :=
  negb (bool_decide (Users acl = [] /\ Groups acl = [] /\ GroupObj acl = None)).

(** The part of [setXattrs] over an ACL. *)
Definition set_acl (fd : Fd) (mode : Z) (acl : option ACLs) : act :=
  match acl with
  | None => skip
  | Some acl =>
      when (has_access acl) (set_xattr fd xattrACLAccess (accessACL mode acl)) ⨾
      match Default acl with
      | None => skip
      | Some d => set_xattr fd xattrACLDefault (defaultACL d acl)
      end
  end.

Definition setXattrs (dir : Dir) (base : bytes) (n : rnode) : act := fun w =>
  match sys_Openat dir base w with
  | (Err e, w) => ([AwOpenXattrs e], w)
  | (Ok fd, w) =>
      let '(l, w) :=
        (set_each fd (r_Xattrs n) ⨾
         set_acl fd (e_Mode (r_Entry n)) (r_ACL n) ⨾
         match r_FCaps n with None => skip | Some c => set_xattr fd xattrFCaps c end) w in
      (l, fd_Close fd w)
  end.

(** The nanoseconds since the epoch, in an [int64] as the source has them. *)
Definition mtime_ns (e : Entry) : Z := i64 (i64 (e_MtimeSecs e * 1000000000) + e_MtimeNanos e).

(** [linuxWriter.Apply] *)
Definition linux_Apply (name : bytes) (n : rnode) : act := fun w =>
  match openParent name w with
  | (Err e, _, w) => ([AwParent e], w)
  | (Ok dir, base, w) =>
      let e := r_Entry n in
      let typ := Z.land (e_Mode e) modeTypeMask in
      let '(l, w) :=
        (reporting (sys_Fchownat dir base (e_UID e) (e_GID e)) (AwChown (e_UID e) (e_GID e)) ⨾
         when (negb (bool_decide (r_Xattrs n = [] /\ r_ACL n = None /\ r_FCaps n = None)))
           (if bool_decide (typ = modeRegular \/ typ = modeDir) then setXattrs dir base n else say AwFileType) ⨾
         when (negb (r_QuotaProjID n =? 0)) (say AwQuota) ⨾
         when (negb (typ =? modeSymlink))
           (reporting (sys_Fchmodat dir base (u32 (Z.land (e_Mode e) 0xfff))) AwChmod) ⨾
         reporting (sys_UtimesNanoAt dir base (unix_NsecToTimespec (mtime_ns e))) AwMtime) w in
      (l, dir_Close dir w)
  end.
End writer.
