(* ===== verification/LinuxSpec.v ===== *)
(** * Linux metadata: what is set is what is read

    The file system both sides of [Linux] see, the documented behaviour of the
    system calls on it, and the theorems: the loops of the reader end, and the
    metadata a restore applies to an entry is the metadata a scan of it
    reads. *)

From stdpp Require Import sorting.
From S2P Require Import Prelude Format Tree Reader ReaderSafe Glob FS FsTree Acl Scan Linux.
From Stdlib Require Import Strings.Byte.
Local Open Scope Z_scope.

(* ------------------------------------------------------------------ *)
(** ** Paths *)

(** The entry [base] of the directory [d] of a target; both may be ["."]. *)
Definition entry_at (d base : bytes) : bytes :=
  if decide (base = dot) then d else if decide (d = dot) then base else d ++ [slash] ++ base.

(** The paths the writer is called with. *)
Definition target_path (p : bytes) : Prop := p = dot \/ validatePath p = Ok ().

Lemma join_slash_cons c cs : cs <> [] -> join_slash (c :: cs) = c ++ [slash] ++ join_slash cs.
Proof. by destruct cs. Qed.
Lemma join_split p : join_slash (split_slash p) = p.
Proof.
  induction p as [|c p IH]; [done|]. pose proof (split_slash_not_nil p) as Hne. cbn [split_slash]. case_decide as Hc.
  - rewrite join_slash_cons, IH by done. by subst.
  - destruct (split_slash p) as [|s ss] eqn:E; [done|]. rewrite <- IH. by destruct ss.
Qed.
Lemma join_slash_snoc cs c : cs <> [] -> join_slash (cs ++ [c]) = join_slash cs ++ [slash] ++ c.
Proof.
  induction cs as [|a cs IH]; intros Hn; [done|]. destruct (decide (cs = [])) as [->|Hcs]; [done|].
  cbn [app]. rewrite !join_slash_cons, IH, <- !app_assoc by (done || by destruct cs). done.
Qed.

(** A valid path is one name, or a name below a valid path. *)
Lemma valid_path_cases p : validatePath p = Ok () ->
  exists name, ValidateFilename name = Ok () /\ (slash ∉ name) /\
    (p = name \/ exists d, validatePath d = Ok () /\ p = d ++ [slash] ++ name).
Proof.
  unfold validatePath. rewrite validate_all_ok. intros Hall. rewrite <- (join_split p).
  destruct (split_slash p) as [|c cs _] eqn:E using rev_ind; [by destruct (split_slash_not_nil p)|].
  apply Forall_app in Hall as [Hcs [Hc _]%Forall_cons]. exists c. pose proof (proj1 (ValidateFilename_ok c) Hc) as (_ & _ & _ & Hs & _).
  split_and!; [done..|]. destruct (decide (cs = [])) as [->|Hne]; [by left|]. right. exists (join_slash cs).
  split; [|by apply join_slash_snoc]. unfold validatePath. rewrite validate_all_ok.
  assert (split_slash (join_slash cs) = cs) as ->; [|done].
  assert (Forall (fun c => slash ∉ c) cs) as Hns.
  { eapply Forall_impl; [exact Hcs|]. intros x Hx. by apply ValidateFilename_ok in Hx as (_ & _ & _ & ? & _). }
  clear -Hne Hns. induction cs as [|x cs IH] using rev_ind; [done|]. apply Forall_app in Hns as [Hns [Hx _]%Forall_cons].
  destruct (decide (cs = [])) as [->|Hn]; [by apply split_slash_name|].
  rewrite join_slash_snoc, split_slash_join, IH by done. done.
Qed.

(** [path.Dir] and [path.Base] of a valid path. *)
Lemma from_slash_rev name d : slash ∉ name -> from_slash (rev (d ++ [slash] ++ name)) = slash :: rev d.
Proof.
  intros Hs. rewrite !rev_app_distr, <- app_assoc. cbn [rev app].
  assert (slash ∉ rev name) as Hr by (by rewrite list_elem_of_In, <- in_rev, <- list_elem_of_In).
  induction (rev name) as [|c l IH]; cbn [app from_slash]; [by rewrite decide_True|].
  rewrite decide_False by set_solver. apply IH. set_solver.
Qed.
Lemma from_slash_none name : slash ∉ name -> from_slash (rev name) = [].
Proof.
  intros Hs. assert (slash ∉ rev name) as Hr by (by rewrite list_elem_of_In, <- in_rev, <- list_elem_of_In).
  induction (rev name) as [|c l IH]; cbn [from_slash]; [done|].
  rewrite decide_False by set_solver. apply IH. set_solver.
Qed.

Lemma clean_valid d : validatePath d = Ok () -> path_Clean (d ++ [slash]) = d.
Proof.
  unfold validatePath. rewrite validate_all_ok. intros Hall. unfold path_Clean.
  pose proof (split_slash_join d [] ltac:(set_solver)) as E. rewrite app_nil_r in E. rewrite E.
  assert (path_IsAbs (d ++ [slash]) = false) as ->.
  { destruct d as [|c d]; [by apply Forall_cons in Hall as [(? & _)%ValidateFilename_ok _]|]. cbn. apply bool_decide_eq_false_2. intros ->.
    cbn [split_slash] in Hall. rewrite decide_True in Hall by done. by apply Forall_cons in Hall as [(? & _)%ValidateFilename_ok _]. }
  assert (forall cs acc, Forall (fun n => ValidateFilename n = Ok ()) cs -> foldl (clean_step false) acc cs = rev cs ++ acc) as Hf.
  { induction cs as [|c cs IH]; intros acc Hcs; [done|]. apply Forall_cons in Hcs as [Hc Hcs]. cbn [foldl rev].
    apply ValidateFilename_ok in Hc as (H1 & H2 & H3 & _). rewrite <- app_assoc. cbn [app]. rewrite <- IH by done. f_equal.
    unfold clean_step. rewrite decide_False by (intros [?|?]; [by apply H1|by apply H2]). by rewrite decide_False by exact H3. }
  rewrite foldl_app, (Hf (split_slash d)) by done. cbn [foldl].
  assert (forall l, clean_step false l [] = l) as -> by (intros l; unfold clean_step; by rewrite decide_True by auto).
  rewrite app_nil_r, rev_involutive, decide_False by apply split_slash_not_nil. apply join_split.
Qed.

Lemma entry_of_path name : target_path name ->
  let d := if decide (name = dot) then dot else path_Dir name in
  target_path d /\ entry_at d (path_Base name) = name /\
  (d = dot \/ exists base, name = d ++ [slash] ++ base).
Proof.
  intros [->|Hv]; [by repeat split; left|].
  destruct (valid_path_cases _ Hv) as (base & Hb & Hs & Hc). apply ValidateFilename_ok in Hb as (Hne & Hd1 & _).
  assert (base <> dot) as Hbd by exact Hd1.
  destruct Hc as [->|(d & Hd & ->)].
  - rewrite (path_Base_name [] base Hne Hs : path_Base base = base). rewrite decide_False by done.
    unfold path_Dir. rewrite from_slash_none by done. cbv zeta. split; [by left|]. split; [|by left].
    unfold entry_at. by rewrite decide_False.
  - assert (d <> []) as Hdn by (intros ->; apply validate_all_ok, Forall_cons in Hd as [(? & _)%ValidateFilename_ok _]; done).
    assert (d <> dot) as Hdd by (intros ->; apply validate_all_ok, Forall_cons in Hd as [(_ & ? & _)%ValidateFilename_ok _]; done).
    assert (path_Base (d ++ [slash] ++ base) = base) as ->.
    { pose proof (path_Base_name d base Hne Hs) as E. unfold joinArchive in E. by rewrite decide_False in E. }
    rewrite decide_False by (destruct d as [|? []]; done). cbv zeta.
    unfold path_Dir. rewrite from_slash_rev by done. cbn [rev]. rewrite rev_involutive, clean_valid by done.
    split; [by right|]. split; [|by right; eexists]. unfold entry_at. by rewrite !decide_False.
Qed.

(* ------------------------------------------------------------------ *)
(** ** The file system below a target *)

(** An inode: type and permission bits of its mode, owner, mtime in seconds
    and nanoseconds, device numbers, content or link target, attributes. *)
Record inode := mkInode {
  i_kind : Z; i_perm : Z; i_uid : Z; i_gid : Z; i_mtime : Z * Z; i_rdev : Device;
  i_data : bytes; i_xattrs : gmap bytes bytes }.

(** Names, as paths relative to the target (["."] itself), and inodes. *)
Record fsys := mkFsys { f_names : gmap bytes nat; f_inodes : gmap nat inode }.

Definition f_at (F : fsys) (p : bytes) : option (nat * inode) :=
  k ← f_names F !! p; i ← f_inodes F !! k; Some (k, i).
Definition f_set (F : fsys) (k : nat) (i : inode) : fsys := mkFsys (f_names F) (<[k := i]> (f_inodes F)).
Definition f_dir (F : fsys) (p : bytes) : Prop := exists k i, f_at F p = Some (k, i) /\ i_kind i = modeDir.

Lemma f_at_set F p k i i' : f_at F p = Some (k, i) -> f_at (f_set F k i') p = Some (k, i').
Proof.
  unfold f_at. destruct (f_names F !! p) as [k0|] eqn:E; [|done]. cbn. destruct (f_inodes F !! k0); [|done].
  cbn. intros [= -> ->]. cbn. rewrite E. cbn. by rewrite lookup_insert_eq.
Qed.
Lemma f_set_set F k i i' : f_set (f_set F k i) k i' = f_set F k i'.
Proof. unfold f_set. cbn. by rewrite insert_insert_eq. Qed.
Lemma f_set_inode F k i : f_inodes (f_set F k i) !! k = Some i.
Proof. unfold f_set. cbn. apply lookup_insert_eq. Qed.
Lemma f_at_inode F p k i : f_at F p = Some (k, i) -> f_inodes F !! k = Some i.
Proof. unfold f_at. destruct (f_names F !! p); [|done]. cbn. destruct (f_inodes F !! _) eqn:E; [|done]. cbn. by intros [= <- <-]. Qed.

(** What a call may change of an inode. *)
Definition same_object (i i' : inode) : Prop :=
  i_kind i' = i_kind i /\ i_data i' = i_data i /\ i_rdev i' = i_rdev i.

(** chown(2): capabilities and set-id bits may go. *)
Definition chowned (uid gid : Z) (i i' : inode) : Prop :=
  same_object i i' /\ i_uid i' = uid /\ i_gid i' = gid /\ i_mtime i' = i_mtime i /\
  (i_perm i' = i_perm i \/ i_kind i <> modeSymlink) /\
  (i_xattrs i' = i_xattrs i \/ i_xattrs i' = delete xattrFCaps (i_xattrs i)).
(** setxattr(2): an access ACL also sets permission bits. *)
Definition xattr_set (name value : bytes) (i i' : inode) : Prop :=
  same_object i i' /\ i_uid i' = i_uid i /\ i_gid i' = i_gid i /\ i_mtime i' = i_mtime i /\
  i_xattrs i' = <[name := value]> (i_xattrs i).
(** chmod(2); acl(5): the bits of an access ACL that already has them stay. *)
Definition chmodded (perm : Z) (i i' : inode) : Prop :=
  same_object i i' /\ i_uid i' = i_uid i /\ i_gid i' = i_gid i /\ i_mtime i' = i_mtime i /\ i_perm i' = perm /\
  ((forall v, i_xattrs i !! xattrACLAccess = Some v -> acl_mode v = Some (Z.land perm 0x1ff)) -> i_xattrs i' = i_xattrs i).
(** utimensat(2) *)
Definition retimed (t : Z * Z) (i i' : inode) : Prop :=
  same_object i i' /\ i_uid i' = i_uid i /\ i_gid i' = i_gid i /\ i_mtime i' = t /\ i_perm i' = i_perm i /\
  i_xattrs i' = i_xattrs i.

(** Device numbers a [dev_t] of the kernel holds. *)
Definition dev_ok (d : Device) : Prop := 0 <= Major d < 2 ^ 12 /\ 0 <= Minor d < 2 ^ 20.

(** An inode just made: default attributes are inherited from a default ACL
    only, which no directory of a restore has before it is finished. *)
Definition new_inode (i : inode) (kind : Z) (data : bytes) (rdev : Device) : Prop :=
  i_kind i = kind /\ i_data i = data /\ i_rdev i = rdev /\ i_xattrs i = ∅.

(** A new name changes the times of directories. *)
Definition touched (i i' : inode) : Prop :=
  same_object i i' /\ i_xattrs i' = i_xattrs i /\ (i_kind i <> modeDir -> i' = i).

(** [p] is new in [F'], and names the new inode [i], number [k]. *)
Definition creates (F : fsys) (p : bytes) (k : nat) (i : inode) (F' : fsys) : Prop :=
  f_names F' = <[p := k]> (f_names F) /\ f_inodes F !! k = None /\ f_inodes F' !! k = Some i /\
  forall k', k' <> k -> option_Forall2 touched (f_inodes F !! k') (f_inodes F' !! k').

(** The directory of [p] is there, and [p] is not. *)
Definition can_create (F : fsys) (p : bytes) : Prop :=
  validatePath p = Ok () /\ f_names F !! p = None /\
  exists k i, f_at F (path_Dir p) = Some (k, i) /\ i_kind i = modeDir /\ i_xattrs i = ∅.

(** A call at a path, on the inode it names. *)
Definition does_at {W} (view : W -> fsys) (call : W -> result Z unit * W) (p : bytes) (pre : inode -> Prop)
    (change : inode -> inode -> Prop) : Prop :=
  forall w k i, f_at (view w) p = Some (k, i) -> pre i ->
  exists w' i', call w = (Ok (), w') /\ view w' = f_set (view w) k i' /\ change i i'.

(** The documented behaviour of the calls for a privileged process, while no
    other process changes the target: [view] is the file system below it,
    [accepts] the attribute values the kernel and the file system take for a
    type of entry, and [accepts_time] the seconds it can store. *)
Record writer_laws {W Dir Fd : Type} `{WriterSys W Dir Fd} (view : W -> fsys) (dir_path : Dir -> bytes) (fd_ino : Fd -> nat)
    (accepts : Z -> bytes -> bytes -> Prop) (accepts_time : Z -> Prop) : Prop := {
  wl_Open p w : f_dir (view w) p ->
    exists d w', root_Open p w = (Ok d, w') /\ dir_path d = p /\ view w' = view w;
  wl_dir_Close d w : view (dir_Close d w) = view w;
  wl_fd_Close fd w : view (fd_Close fd w) = view w;
  wl_Fchownat d base uid gid : is_u32 uid -> is_u32 gid ->
    does_at view (sys_Fchownat d base uid gid) (entry_at (dir_path d) base) (fun _ => True) (chowned uid gid);
  wl_Openat d base w k i : f_at (view w) (entry_at (dir_path d) base) = Some (k, i) ->
    i_kind i = modeRegular \/ i_kind i = modeDir ->
    exists fd w', sys_Openat d base w = (Ok fd, w') /\ fd_ino fd = k /\ view w' = view w;
  wl_Fsetxattr fd name value w i : f_inodes (view w) !! fd_ino fd = Some i -> accepts (i_kind i) name value ->
    exists w' i', sys_Fsetxattr fd name value w = (Ok (), w') /\ view w' = f_set (view w) (fd_ino fd) i' /\ xattr_set name value i i';
  wl_Fchmodat d base perm : 0 <= perm < 2 ^ 12 ->
    does_at view (sys_Fchmodat d base perm) (entry_at (dir_path d) base) (fun i => i_kind i <> modeSymlink) (chmodded perm);
  wl_UtimesNanoAt d base s ns : accepts_time s -> 0 <= ns < 1000000000 ->
    does_at view (sys_UtimesNanoAt d base (s, ns)) (entry_at (dir_path d) base) (fun _ => True) (retimed (s, ns));
  wl_Mknodat d base mode a b w : can_create (view w) (entry_at (dir_path d) base) ->
    Z.land mode modeTypeMask ∈ [modeBlockDev; modeCharDev; modeFifo; modeSocket] -> dev_ok (mkDevice a b) ->
    exists w' k i, sys_Mknodat d base mode (i64 (unix_Mkdev a b)) w = (Ok (), w') /\
      creates (view w) (entry_at (dir_path d) base) k i (view w') /\
      new_inode i (Z.land mode modeTypeMask) [] (mkDevice a b);
  wl_NsecToTimespec ns : is_i64 ns -> unix_NsecToTimespec ns = (ns / 1000000000, ns mod 1000000000) }.

(* ------------------------------------------------------------------ *)
(** ** What a restored entry carries *)

Definition node_type (n : rnode) : Z := Z.land (e_Mode (r_Entry n)) modeTypeMask.
Definition node_perm (n : rnode) : Z := Z.land (e_Mode (r_Entry n)) 0xfff.

(** The attributes of a node, in the order they are set. *)
Definition acl_attrs (mode : Z) (acl : option ACLs) : list (bytes * bytes) :=
  match acl with
  | None => []
  | Some acl =>
      (if has_access acl then [(xattrACLAccess, accessACL mode acl)] else []) ++
      match Default acl with Some d => [(xattrACLDefault, defaultACL d acl)] | None => [] end
  end.
Definition node_attrs (n : rnode) : list (bytes * bytes) :=
  ((fun x => (xa_Name x, xa_Value x)) <$> r_Xattrs n) ++ acl_attrs (e_Mode (r_Entry n)) (r_ACL n) ++
  match r_FCaps n with Some c => [(xattrFCaps, c)] | None => [] end.
Definition set_all (l : list (bytes * bytes)) (m : gmap bytes bytes) : gmap bytes bytes :=
  foldl (fun m x => <[x.1 := x.2]> m) m l.

(** The inode [i] with the metadata of [n]. *)
Definition with_metadata (n : rnode) (i : inode) : inode :=
  let e := r_Entry n in
  mkInode (i_kind i) (node_perm n) (e_UID e) (e_GID e) (e_MtimeSecs e, e_MtimeNanos e) (i_rdev i) (i_data i)
    (set_all (node_attrs n) ∅).

Lemma set_all_app l1 l2 m : set_all (l1 ++ l2) m = set_all l2 (set_all l1 m).
Proof. apply foldl_app. Qed.

(** Names that the reader keeps as plain attributes. *)
Definition plain_name (name : bytes) : Prop :=
  HasPrefix name systemPrefix = false /\ name <> xattrFCaps /\ name <> [] /\ (nul ∉ name).

(** Nodes a file system restores without a warning: their values fit, no
    quota id, attributes only where the writer sets them. *)
Record restorable (accepts : Z -> bytes -> bytes -> Prop) (accepts_time : Z -> Prop) (n : rnode) : Prop := {
  rs_mode : 0 <= e_Mode (r_Entry n) < 2 ^ 16;
  rs_ids : is_u32 (e_UID (r_Entry n)) /\ is_u32 (e_GID (r_Entry n));
  rs_secs : is_i64 (e_MtimeSecs (r_Entry n) * 1000000000) /\ is_i64 (e_MtimeSecs (r_Entry n) * 1000000000 + e_MtimeNanos (r_Entry n));
  rs_time : accepts_time (e_MtimeSecs (r_Entry n)) /\ 0 <= e_MtimeNanos (r_Entry n) < 1000000000;
  rs_names : Forall (fun x => plain_name (xa_Name x)) (r_Xattrs n) /\
    StronglySorted (fun a b => bytes_leb (xa_Name a) (xa_Name b) = true /\ xa_Name a <> xa_Name b) (r_Xattrs n);
  rs_values : Forall (fun x => accepts (node_type n) x.1 x.2) (node_attrs n);
  rs_acl : forall acl, r_ACL n = Some acl -> acl_scanned acl /\ (has_access acl = true \/ Default acl <> None);
  rs_attrs : node_attrs n <> [] \/ r_ACL n <> None -> node_type n = modeRegular \/ node_type n = modeDir;
  rs_quota : r_QuotaProjID n = 0 }.

Section apply.
Context {W Dir Fd : Type} `{WriterSys W Dir Fd}.
Variables (view : W -> fsys) (dir_path : Dir -> bytes) (fd_ino : Fd -> nat).
Variables (accepts : Z -> bytes -> bytes -> Prop) (accepts_time : Z -> Prop).
Hypothesis laws : writer_laws view dir_path fd_ino accepts accepts_time.

(** [a] sets the attributes [l] of the entry [fd] is open on, silently. *)
Definition attrs_set (l : list (bytes * bytes)) (i i' : inode) : Prop :=
  same_object i i' /\ i_uid i' = i_uid i /\ i_gid i' = i_gid i /\ i_mtime i' = i_mtime i /\
  i_xattrs i' = set_all l (i_xattrs i).
Definition sets (fd : Fd) (a : act) (l : list (bytes * bytes)) : Prop :=
  forall w i, f_inodes (view w) !! fd_ino fd = Some i -> Forall (fun x => accepts (i_kind i) x.1 x.2) l ->
  exists w' i', a w = ([], w') /\ view w' = f_set (view w) (fd_ino fd) i' /\ attrs_set l i i'.

Lemma f_set_id F k i : f_inodes F !! k = Some i -> f_set F k i = F.
Proof. intros Hi. unfold f_set. destruct F. cbn in *. by rewrite insert_id. Qed.

Lemma sets_skip fd : sets fd skip [].
Proof. intros w i Hi _. exists w, i. rewrite f_set_id by done. repeat split. Qed.
Lemma sets_one fd name value : sets fd (set_xattr fd name value) [(name, value)].
Proof.
  intros w i Hi [Ha _]%Forall_cons. destruct (wl_Fsetxattr _ _ _ _ _ laws fd name value w i Hi Ha) as (w' & i' & E & Hv & ? & ? & ? & ? & Hx).
  exists w', i'. unfold set_xattr, reporting. rewrite E. unfold attrs_set. by split_and!.
Qed.
Lemma sets_then fd a b l1 l2 : sets fd a l1 -> sets fd b l2 -> sets fd (andthen a b) (l1 ++ l2).
Proof.
  intros Ha Hb w i Hi [H1 H2]%Forall_app. destruct (Ha w i Hi H1) as (w1 & i1 & E1 & V1 & (K1 & D1 & R1) & U1 & G1 & T1 & X1).
  destruct (Hb w1 i1) as (w2 & i2 & E2 & V2 & (K2 & D2 & R2) & U2 & G2 & T2 & X2); [by rewrite V1, f_set_inode|by rewrite K1|].
  exists w2, i2. unfold andthen. rewrite E1, E2. repeat split; try congruence.
  - by rewrite V2, V1, f_set_set.
  - by rewrite X2, X1, set_all_app.
Qed.

Lemma sets_each fd xs : sets fd (set_each fd xs) ((fun x => (xa_Name x, xa_Value x)) <$> xs).
Proof. induction xs as [|x xs IH]; [apply sets_skip|]. apply (sets_then _ _ _ [_]); [apply sets_one|done]. Qed.
Lemma sets_acl fd mode acl : sets fd (set_acl fd mode acl) (acl_attrs mode acl).
Proof.
  destruct acl as [acl|]; [|apply sets_skip]. apply sets_then.
  - unfold when. destruct (has_access acl); [apply sets_one|apply sets_skip].
  - destruct (Default acl); [apply sets_one|apply sets_skip].
Qed.
Lemma sets_node fd n :
  sets fd (andthen (set_each fd (r_Xattrs n)) (andthen (set_acl fd (e_Mode (r_Entry n)) (r_ACL n))
    match r_FCaps n with None => skip | Some c => set_xattr fd xattrFCaps c end)) (node_attrs n).
Proof.
  apply sets_then; [apply sets_each|]. apply sets_then; [apply sets_acl|]. destruct (r_FCaps n); [apply sets_one|apply sets_skip].
Qed.

Lemma setXattrs_sets d base n w k i :
  f_at (view w) (entry_at (dir_path d) base) = Some (k, i) -> i_kind i = modeRegular \/ i_kind i = modeDir ->
  Forall (fun x => accepts (i_kind i) x.1 x.2) (node_attrs n) ->
  exists w' i', setXattrs d base n w = ([], w') /\ view w' = f_set (view w) k i' /\ attrs_set (node_attrs n) i i'.
Proof.
  intros Hat Hk Hacc. destruct (wl_Openat _ _ _ _ _ laws d base w k i Hat Hk) as (fd & w1 & E1 & <- & V1).
  destruct (sets_node fd n w1 i) as (w2 & i2 & E2 & V2 & H2); [rewrite V1; by eapply f_at_inode|done|].
  exists (fd_Close fd w2), i2. unfold setXattrs. rewrite E1, E2. split_and!; [done| |done].
  by rewrite (wl_fd_Close _ _ _ _ _ laws), V2, V1.
Qed.

(** A call at the entry of [d] and [base] that changes it silently. *)
Definition changes_at (d : Dir) (base : bytes) (k : nat) (a : act) (i : inode) (change : inode -> inode -> Prop) : Prop :=
  forall w, f_at (view w) (entry_at (dir_path d) base) = Some (k, i) ->
  exists w' i', a w = ([], w') /\ view w' = f_set (view w) k i' /\ change i i'.

Lemma changes_skip d base k i : changes_at d base k skip i eq.
Proof. intros w Hat. exists w, i. split_and!; [done| |done]. by rewrite f_set_id by (by eapply f_at_inode). Qed.
Lemma changes_call d base k i call warning (pre : inode -> Prop) change :
  does_at view call (entry_at (dir_path d) base) pre change -> pre i ->
  changes_at d base k (reporting call warning) i change.
Proof.
  intros Hd Hp w Hat. destruct (Hd w k i Hat Hp) as (w' & i' & E & V & C). exists w', i'. unfold reporting. by rewrite E.
Qed.
Lemma changes_then d base k a b i ch (Q : inode -> Prop) :
  changes_at d base k a i ch -> (forall i1, ch i i1 -> changes_at d base k b i1 (fun _ => Q)) ->
  changes_at d base k (andthen a b) i (fun _ => Q).
Proof.
  intros Ha Hb w Hat. destruct (Ha w Hat) as (w1 & i1 & E1 & V1 & C1).
  destruct (Hb i1 C1 w1) as (w2 & i2 & E2 & V2 & C2); [rewrite V1; by eapply f_at_set|].
  exists w2, i2. unfold andthen. rewrite E1, E2. split_and!; [done| |done]. by rewrite V2, V1, f_set_set.
Qed.

(** The nanoseconds the source computes are those of the entry. *)
Lemma mtime_ns_exact e : is_i64 (e_MtimeSecs e * 1000000000) -> is_i64 (e_MtimeSecs e * 1000000000 + e_MtimeNanos e) ->
  0 <= e_MtimeNanos e < 1000000000 -> unix_NsecToTimespec (mtime_ns e) = (e_MtimeSecs e, e_MtimeNanos e).
Proof.
  intros H1 H2 H3. assert (forall z, is_i64 z -> i64 z = z) as Hi.
  { intros z [? ?]. unfold i64. rewrite Z.mod_small by lia. lia. }
  unfold mtime_ns. rewrite !Hi, (wl_NsecToTimespec _ _ _ _ _ laws) by (rewrite ?Hi; done).
  f_equal; [rewrite Z.div_add_l by lia; rewrite Z.div_small by done; lia|].
  rewrite Z.add_comm, Z.mod_add, Z.mod_small by lia. done.
Qed.

(** The access ACL among the attributes has the bits of the mode. *)
Lemma set_all_lookup l m name v : set_all l m !! name = Some v -> m !! name = Some v \/ (name, v) ∈ l.
Proof.
  revert m. induction l as [|[n0 v0] l IH]; intros m Hl; [by left|]. destruct (IH _ Hl) as [Hm|Hin]; [|right; by right].
  cbn in Hm. apply lookup_insert_Some in Hm as [[<- <-]|[_ Hm]]; [right; by left|by left].
Qed.
Lemma access_attr n v : restorable accepts accepts_time n -> (xattrACLAccess, v) ∈ node_attrs n ->
  acl_mode v = Some (Z.land (node_perm n) 0x1ff).
Proof.
  intros Hr Hin. unfold node_attrs in Hin. rewrite !elem_of_app in Hin. destruct Hin as [Hin|[Hin|Hin]].
  - apply list_elem_of_fmap in Hin as (x & [= Hx _] & Hin). destruct (rs_names _ _ _ Hr) as [Hf _]. rewrite Forall_forall in Hf.
    destruct (Hf x Hin) as (Hp & _). rewrite <- Hx in Hp. discriminate Hp.
  - unfold acl_attrs in Hin. destruct (r_ACL n) as [acl|] eqn:Ea; [|by apply elem_of_nil in Hin].
    destruct (rs_acl _ _ _ Hr acl Ea) as [Hs _]. apply elem_of_app in Hin as [Hin|Hin].
    + destruct (has_access acl); [|by apply elem_of_nil in Hin]. apply list_elem_of_singleton in Hin as [= ->].
      rewrite acl_mode_access by done. unfold node_perm. by rewrite <- Z.land_assoc.
    + destruct (Default acl); [|by apply elem_of_nil in Hin]. apply list_elem_of_singleton in Hin as [=].
  - destruct (r_FCaps n); [|by apply elem_of_nil in Hin]. apply list_elem_of_singleton in Hin as [=].
Qed.

Lemma perm_range n : 0 <= node_perm n < 2 ^ 12.
Proof. unfold node_perm. change 4095 with (Z.ones 12). rewrite Z.land_ones by lia. apply Z.mod_pos_bound. lia. Qed.

(** The attributes, where the writer sets them. *)
Lemma changes_attrs d base k n i : restorable accepts accepts_time n -> i_kind i = node_type n -> i_xattrs i = ∅ ->
  changes_at d base k
    (when (negb (bool_decide (r_Xattrs n = [] /\ r_ACL n = None /\ r_FCaps n = None)))
       (if bool_decide (node_type n = modeRegular \/ node_type n = modeDir) then setXattrs d base n else say AwFileType)) i
    (fun i i' => attrs_set (node_attrs n) i i' /\ (node_type n = modeSymlink -> i' = i)).
Proof.
  intros Hr Hk Hx w Hat. assert (Hn : node_attrs n <> [] \/ r_ACL n <> None -> node_type n = modeRegular \/ node_type n = modeDir) by apply Hr.
  destruct (bool_decide_reflect (r_Xattrs n = [] /\ r_ACL n = None /\ r_FCaps n = None)) as [(E1 & E2 & E3)|Hne]; cbn [negb when].
  - exists w, i. rewrite f_set_id by (by eapply f_at_inode). split_and!; try done. unfold attrs_set, node_attrs. rewrite E1, E2, E3. repeat split.
  - assert (node_type n = modeRegular \/ node_type n = modeDir) as Ht.
    { apply Hn. unfold node_attrs. destruct (r_Xattrs n), (r_ACL n), (r_FCaps n); try (by right); try (by left); by destruct Hne. }
    rewrite bool_decide_eq_true_2 by done.
    destruct (setXattrs_sets d base n w k i) as (w' & i' & E & V & C); [done|by rewrite Hk|rewrite Hk; apply Hr|].
    exists w', i'. split_and!; try done. intros Hs. rewrite Hs in Ht. by destruct Ht.
Qed.

(** [Mknod] makes a special file with the type and the device of the node. *)
Lemma linux_Mknod_creates name n w :
  can_create (view w) name -> node_type n ∈ [modeBlockDev; modeCharDev; modeFifo; modeSocket] ->
  0 <= e_Mode (r_Entry n) < 2 ^ 16 -> dev_ok (r_Device n) ->
  exists w' k i, linux_Mknod name n w = (Ok (), w') /\ creates (view w) name k i (view w') /\
    new_inode i (node_type n) [] (r_Device n).
Proof.
  intros Hc Ht Hm Hd. pose proof Hc as (Hv & _ & kp & ip & Hp & Hk & _). destruct (entry_of_path name (or_intror Hv)) as (_ & He & _).
  assert (name <> dot) as Hnd by (intros ->; apply validate_all_ok, Forall_cons in Hv as [(_ & ? & _)%ValidateFilename_ok _]; done).
  rewrite decide_False in He by done. cbn zeta in He.
  destruct (wl_Open _ _ _ _ _ laws (path_Dir name) w) as (d & w1 & E1 & D1 & V1); [by exists kp, ip|].
  rewrite <- D1 in He. destruct (r_Device n) as [a b] eqn:Ed. pose proof Hd as [Ha Hb]. cbn [Major Minor] in *.
  set (mode := u32 (Z.land (e_Mode (r_Entry n)) (Z.lor modeTypeMask 0x1ff))).
  assert (Z.land mode modeTypeMask = node_type n) as Hmode.
  { unfold mode, node_type. rewrite u32_small, <- Z.land_assoc; [done|].
    assert (forall m, Z.land m (Z.lor modeTypeMask 0x1ff) = Z.land (Z.land m (Z.lor modeTypeMask 0x1ff)) (Z.ones 16)) as ->
      by (intros m; by rewrite <- Z.land_assoc).
    rewrite Z.land_ones by lia. pose proof (Z.mod_pos_bound (Z.land (e_Mode (r_Entry n)) (Z.lor modeTypeMask 0x1ff)) (2 ^ 16)).
    unfold is_u32. lia. }
  destruct (wl_Mknodat _ _ _ _ _ laws d (path_Base name) mode a b w1) as (w2 & k & i & E2 & C2 & N2);
    [by rewrite V1, He|by rewrite Hmode|done|].
  exists (dir_Close d w2), k, i. unfold linux_Mknod, openParent. rewrite decide_False by done. rewrite E1, Ed. cbn [Major Minor].
  fold mode. rewrite !u32_small by (unfold is_u32; lia). rewrite E2, (wl_dir_Close _ _ _ _ _ laws).
  rewrite V1, He, Hmode in *. done.
Qed.

(** [Apply] sets all the metadata of a fresh entry, and nothing else. *)
Lemma linux_Apply_sets name n w k i :
  target_path name -> f_dir (view w) (if decide (name = dot) then dot else path_Dir name) ->
  f_at (view w) name = Some (k, i) -> i_kind i = node_type n -> i_xattrs i = ∅ ->
  (node_type n = modeSymlink -> i_perm i = node_perm n) -> restorable accepts accepts_time n ->
  exists w', linux_Apply name n w = ([], w') /\ view w' = f_set (view w) k (with_metadata n i).
Proof.
  intros Hp Hdir Hat Hk Hx Hsym Hr. destruct (entry_of_path name Hp) as (_ & He & _).
  destruct (wl_Open _ _ _ _ _ laws _ w Hdir) as (d & w1 & E1 & D1 & V1). rewrite <- D1 in He.
  pose proof Hr as [Hmode [Hu Hg] [Hs1 Hs2] [Hta Hns] _ Hvals _ _ Hq].
  pose (e := r_Entry n). pose (base := path_Base name).
  assert (changes_at d base k
    (andthen (reporting (sys_Fchownat d base (e_UID e) (e_GID e)) (AwChown (e_UID e) (e_GID e)))
    (andthen (when (negb (bool_decide (r_Xattrs n = [] /\ r_ACL n = None /\ r_FCaps n = None)))
       (if bool_decide (node_type n = modeRegular \/ node_type n = modeDir) then setXattrs d base n else say AwFileType))
    (andthen (when (negb (r_QuotaProjID n =? 0)) (say AwQuota))
    (andthen (when (negb (node_type n =? modeSymlink)) (reporting (sys_Fchmodat d base (u32 (Z.land (e_Mode e) 0xfff))) AwChmod))
      (reporting (sys_UtimesNanoAt d base (unix_NsecToTimespec (mtime_ns e))) AwMtime))))) i
    (fun _ i' => i' = with_metadata n i)) as Hall.
  2: { destruct (Hall w1) as (w2 & i2 & E2 & V2 & ->); [unfold base; by rewrite V1, He|].
       exists (dir_Close d w2). unfold linux_Apply, openParent. rewrite E1. fold e base. unfold node_type, e in E2. unfold e. rewrite E2.
       split; [done|]. by rewrite (wl_dir_Close _ _ _ _ _ laws), V2, V1. }
  eapply changes_then; [exact (changes_call d base k i _ _ _ _ (wl_Fchownat _ _ _ _ _ laws d base _ _ Hu Hg) I)|].
  intros i1 (S1 & U1 & G1 & T1 & P1 & X1).
  assert (i_xattrs i1 = ∅) as X1' by (rewrite Hx in X1; destruct X1 as [->| ->]; [done|apply delete_empty]).
  eapply changes_then; [apply changes_attrs; [done|destruct S1 as (-> & _); done|done]|].
  intros i2 ((S2 & U2 & G2 & T2 & X2) & P2). rewrite X1' in X2.
  rewrite Hq. cbn [Z.eqb negb when]. eapply changes_then; [apply changes_skip|]. intros i2' <-.
  assert (i_kind i2 = node_type n) as K2 by (destruct S1 as (K1 & _), S2 as (K2 & _); congruence).
  eapply (changes_then _ _ _ _ _ _ (fun _ i3 => same_object i2 i3 /\ i_uid i3 = i_uid i2 /\ i_gid i3 = i_gid i2 /\
    i_perm i3 = node_perm n /\ i_xattrs i3 = i_xattrs i2)).
  { destruct (Z.eqb_spec (node_type n) modeSymlink) as [Hs|Hs]; cbn [negb when].
    - intros w0 Hat0. exists w0, i2. rewrite f_set_id by (by eapply f_at_inode). rewrite P2 by done. split_and!; try done.
      destruct P1 as [->|P1]; [by apply Hsym|]. congruence.
    - pose proof (perm_range n) as Hpr. assert (u32 (Z.land (e_Mode e) 4095) = node_perm n) as ->.
      { apply u32_small. fold (node_perm n). unfold is_u32. unfold e. lia. }
      intros w0 Hat0. destruct (wl_Fchmodat _ _ _ _ _ laws d base (node_perm n) Hpr w0 k i2 Hat0) as (w3 & i3 & E3 & V3 & S3 & U3 & G3 & T3 & P3 & X3); [congruence|].
      exists w3, i3. unfold reporting. rewrite E3. split_and!; try done; [apply S3..|]. apply X3. rewrite X2. intros v Hv.
      apply set_all_lookup in Hv as [Hv|Hv]; [by rewrite lookup_empty in Hv|]. by apply access_attr. }
  intros i3 (S3 & U3 & G3 & P3 & X3). unfold e. rewrite mtime_ns_exact by done.
  intros w0 Hat0. destruct (wl_UtimesNanoAt _ _ _ _ _ laws d base _ _ Hta Hns w0 k i3 Hat0 I) as (w4 & i4 & E4 & V4 & S4 & U4 & G4 & T4 & P4 & X4).
  exists w4, i4. unfold reporting. rewrite E4. split_and!; [done..|].
  destruct S1 as (?&?&?), S2 as (?&?&?), S3 as (?&?&?), S4 as (?&?&?). destruct i4. unfold with_metadata. cbn in *. f_equal; congruence.
Qed.
End apply.

(* ------------------------------------------------------------------ *)
(** ** What a scan reads *)

(** getxattr(2) and listxattr(2) of a value into a buffer of [size] bytes. *)
Definition xattr_call (size : Z) (v : bytes) : result Z (Z * bytes) :=
  if size =? 0 then Ok (zlen v, []) else if size <? zlen v then Err ERANGE else Ok (zlen v, v).
Definition listing (names : list bytes) : bytes := concat ((fun n => n ++ [nul]) <$> names).

(** The documented behaviour of the calls of the reader below a target whose
    entry [p] has the absolute path [abs p], while nothing changes it. *)
Record reader_laws {W : Type} `{ScanSys W} (view : W -> fsys) (abs : bytes -> bytes) : Prop := {
  rl_Lstat p w k i : f_at (view w) p = Some (k, i) ->
    exists st w', sys_Lstat (abs p) w = (Ok st, w') /\ view w' = view w /\
      t_Mode st = i_kind i + i_perm i /\ t_Uid st = i_uid i /\ t_Gid st = i_gid i /\
      (t_Sec st, t_Nsec st) = i_mtime i /\
      (dev_ok (i_rdev i) -> mkDevice (unix_Major (t_Rdev st)) (unix_Minor (t_Rdev st)) = i_rdev i);
  rl_Llistxattr p size w k i : f_at (view w) p = Some (k, i) ->
    exists names w', names ≡ₚ (map_to_list (i_xattrs i)).*1 /\ view w' = view w /\
      sys_Llistxattr (abs p) size w = (xattr_call size (listing names), w');
  rl_Lgetxattr p name size w k i : f_at (view w) p = Some (k, i) ->
    exists w', view w' = view w /\
      sys_Lgetxattr (abs p) name size w =
        (match i_xattrs i !! name with Some v => xattr_call size v | None => Err ENODATA end, w') }.

Lemma slice_buf_full v : slice_buf (zlen v) (zlen v) v = Some v.
Proof.
  unfold slice_buf. rewrite (proj2 (Z.leb_le 0 _)), Z.leb_refl, Nat2Z.id, Nat.sub_diag by lia. cbn. by rewrite app_nil_r, firstn_all.
Qed.
Lemma slice_buf_zero : slice_buf 0 0 [] = Some [].
Proof. done. Qed.

Lemma split_nul_listing names : Forall (fun n => n <> [] /\ nul ∉ n) names -> split_nul [] (listing names) = names.
Proof.
  induction 1 as [|n names [Hne Hn] _ IH]; [done|]. unfold listing in *. cbn [fmap list_fmap concat].
  assert (forall cur s, nul ∉ n -> split_nul cur (n ++ [nul] ++ s) = match cur ++ n with [] => split_nul [] s | c => c :: split_nul [] s end) as Hs.
  { clear. induction n as [|b n IH]; intros cur s Hn; cbn [app split_nul].
    - rewrite decide_True, app_nil_r by done. by destruct cur.
    - rewrite decide_False by set_solver. cbn [app] in IH. rewrite IH by set_solver. by rewrite <- app_assoc. }
  rewrite <- app_assoc, Hs by done. cbn [app]. rewrite IH. by destruct n.
Qed.

Section read.
Context {W : Type} `{ScanSys W}.
Variables (view : W -> fsys) (abs : bytes -> bytes).
Hypothesis laws : reader_laws view abs.

(** [m] ends as [r] in every world that shows the file system [F], which it
    leaves. *)
Definition yields {A} (F : fsys) (m : P A) (r : result meta_error A) : Prop :=
  forall w, view w = F -> exists w', m w = (Ret r, w') /\ view w' = F.

#[local] Existing Instances P_ret P_bind.
Lemma yields_ret {A} F (a : A) : yields F (mret a) (Ok a).
Proof. intros w Hw. by exists w. Qed.
Lemma yields_bind {A B} F (m : P A) (f : A -> P B) a r : yields F m (Ok a) -> yields F (f a) r -> yields F (m ≫= f) r.
Proof.
  intros Hm Hf w Hw. destruct (Hm w Hw) as (w1 & E1 & V1). destruct (Hf w1 V1) as (w2 & E2 & V2). exists w2.
  unfold mbind, P_bind. by rewrite E1, E2.
Qed.
Lemma yields_bind_err {A B} F (m : P A) (f : A -> P B) e : yields F m (Err e) -> yields F (m ≫= f) (Err e).
Proof. intros Hm w Hw. destruct (Hm w Hw) as (w1 & E1 & V1). exists w1. unfold mbind, P_bind. by rewrite E1. Qed.
Lemma yields_catch {A} F (m : P A) h a : yields F m (Ok a) -> yields F (catch m h) (Ok a).
Proof. intros Hm w Hw. destruct (Hm w Hw) as (w1 & E1 & V1). exists w1. unfold catch. by rewrite E1. Qed.
Lemma yields_caught {A} F (m : P A) h e r : yields F m (Err (MeErrno e)) -> yields F (h e) r -> yields F (catch m h) r.
Proof.
  intros Hm Hh w Hw. destruct (Hm w Hw) as (w1 & E1 & V1). destruct (Hh w1 V1) as (w2 & E2 & V2).
  exists w2. unfold catch. by rewrite E1, E2.
Qed.

Lemma fill_value F (f : Z -> W -> result Z (Z * bytes) * W) v :
  (forall w, view w = F -> exists w', f (zlen v) w = (xattr_call (zlen v) v, w') /\ view w' = F) ->
  yields F (fill (zlen v) f) (Ok (Some v)).
Proof.
  intros Hf w Hw. destruct (Hf w Hw) as (w' & E & V). exists w'. unfold fill. rewrite E. unfold xattr_call.
  destruct (Z.eqb_spec (zlen v) 0) as [Hz|Hz].
  - destruct v; [|cbn in Hz; lia]. cbn. done.
  - rewrite Z.ltb_irrefl, slice_buf_full. done.
Qed.

Lemma getXattr_yields F p k i name : f_at F p = Some (k, i) ->
  yields F (getXattr (abs p) name) (match i_xattrs i !! name with Some v => Ok v | None => Err (MeErrno ENODATA) end).
Proof.
  intros Hat w Hw. unfold getXattr. cbn [getXattr_loop].
  assert (forall size, forall w, view w = F -> exists w', sys_Lgetxattr (abs p) name size w =
        (match i_xattrs i !! name with Some v => xattr_call size v | None => Err ENODATA end, w') /\ view w' = F) as Hc.
  { intros size w0 Hw0. destruct (rl_Lgetxattr _ _ laws p name size w0 k i) as (w' & V & E); [by rewrite Hw0|]. exists w'. rewrite V, Hw0. done. }
  destruct (i_xattrs i !! name) as [v|].
  - eapply yields_bind; [|eapply yields_bind|exact Hw].
    + intros w0 Hw0. destruct (Hc 0 w0 Hw0) as (w1 & E1 & V1). exists w1. unfold sys. rewrite E1. unfold xattr_call. cbn. by split.
    + cbn [fst]. apply fill_value. intros w0 Hw0. by apply Hc.
    + apply yields_ret.
  - eapply yields_bind_err; [|exact Hw]. intros w0 Hw0. destruct (Hc 0 w0 Hw0) as (w1 & E1 & V1). exists w1. unfold sys. by rewrite E1.
Qed.

Lemma optional_yields F p k i name : f_at F p = Some (k, i) ->
  yields F (optional (abs p) name) (Ok (i_xattrs i !! name)).
Proof.
  intros Hat. pose proof (getXattr_yields F p k i name Hat) as Hg. unfold optional.
  destruct (i_xattrs i !! name) as [v|].
  - apply yields_catch. eapply yields_bind; [exact Hg|]. apply yields_ret.
  - eapply yields_caught; [by eapply yields_bind_err|]. cbn. apply yields_ret.
Qed.

Lemma listing_length names1 names2 : names1 ≡ₚ names2 -> zlen (listing names1) = zlen (listing names2).
Proof. intros Hp. unfold listing. by rewrite Hp. Qed.

Definition attr_names (i : inode) : list bytes := (map_to_list (i_xattrs i)).*1.

Lemma listXattrNames_yields F p k i : f_at F p = Some (k, i) ->
  Forall (fun n => n <> [] /\ nul ∉ n) (attr_names i) ->
  forall w, view w = F -> exists names w', listXattrNames (abs p) w = (Ret (Ok names), w') /\ view w' = F /\ names ≡ₚ attr_names i.
Proof.
  intros Hat Hn w Hw. unfold listXattrNames. cbn [listXattrNames_loop].
  destruct (rl_Llistxattr _ _ laws p 0 w k i) as (n1 & w1 & P1 & V1 & E1); [by rewrite Hw|].
  unfold catch, mbind, P_bind, mret, P_ret. unfold sys at 1. rewrite E1. unfold xattr_call at 1. cbn [Z.eqb fst].
  destruct (Z.eqb_spec (zlen (listing n1)) 0) as [Hz|Hz].
  - exists [], w1. rewrite V1, Hw. split_and!; [done..|]. fold (attr_names i) in P1. rewrite <- P1.
    destruct n1 as [|n n1]; [done|]. unfold listing in Hz. cbn in Hz. rewrite !length_app in Hz. cbn in Hz. lia.
  - destruct (rl_Llistxattr _ _ laws p (zlen (listing n1)) w1 k i) as (n2 & w2 & P2 & V2 & E2); [by rewrite V1, Hw|].
    rewrite (listing_length n1 n2) in * by (by rewrite P1, P2). unfold fill. rewrite E2. unfold xattr_call.
    destruct (Z.eqb_spec (zlen (listing n2)) 0); [done|]. rewrite Z.ltb_irrefl, slice_buf_full.
    exists n2, w2. rewrite V2, V1, Hw. split_and!; [|done..]. rewrite split_nul_listing; [done|].
    fold (attr_names i) in P2. by rewrite P2.
Qed.

(** The attributes kept of those listed. *)
Definition kept_attr (name : bytes) : bool := negb (HasPrefix name systemPrefix || bool_decide (name = xattrFCaps)).
Lemma read_values_yields F p k i names : f_at F p = Some (k, i) -> Forall (fun n => is_Some (i_xattrs i !! n)) names ->
  yields F (read_values (abs p) names)
    (Ok ((fun n => mkXattr n (default [] (i_xattrs i !! n))) <$> filter (fun n => kept_attr n = true) names)).
Proof.
  intros Hat. induction 1 as [|n names [v Hv] Hns IH]; [apply yields_ret|]. cbn [read_values]. rewrite filter_cons.
  destruct (decide (kept_attr n = true)) as [Hk|Hk]; unfold kept_attr in Hk; [apply negb_true_iff in Hk|apply not_true_iff_false, negb_false_iff in Hk];
    rewrite Hk; [|exact IH]. cbn [fmap list_fmap]. rewrite Hv. cbn [default].
  pose proof (getXattr_yields F p k i n Hat) as Hg. rewrite Hv in Hg.
  eapply yields_bind; [apply yields_catch; eapply yields_bind; [exact Hg|apply yields_ret]|].
  eapply yields_bind; [exact IH|]. apply yields_ret.
Qed.

Lemma linux_Xattrs_yields F p k i : f_at F p = Some (k, i) -> Forall (fun n => n <> [] /\ nul ∉ n) (attr_names i) ->
  forall w, view w = F -> exists names w', names ≡ₚ attr_names i /\ view w' = F /\
    linux_Xattrs (abs p) w = (Ret (Ok (merge_sort xattr_le
      ((fun n => mkXattr n (default [] (i_xattrs i !! n))) <$> filter (fun n => kept_attr n = true) names))), w').
Proof.
  intros Hat Hn w Hw. destruct (listXattrNames_yields F p k i Hat Hn w Hw) as (names & w1 & E1 & V1 & Hp).
  assert (Forall (fun n => is_Some (i_xattrs i !! n)) names) as Hs.
  { rewrite Hp. apply Forall_forall. intros n Hin. unfold attr_names in Hin. apply list_elem_of_fmap in Hin as ([? v] & -> & Hin%elem_of_map_to_list).
    by exists v. }
  destruct (read_values_yields F p k i names Hat Hs w1 V1) as (w2 & E2 & V2). exists names, w2. split_and!; [done..|].
  unfold linux_Xattrs, mbind, P_bind. rewrite E1, E2. done.
Qed.
End read.

(* ------------------------------------------------------------------ *)
(** ** The attributes of a restored node *)

Lemma set_all_other l m name : name ∉ l.*1 -> set_all l m !! name = m !! name.
Proof.
  revert m. induction l as [|[n v] l IH]; intros m Hn; [done|]. change (set_all ((n, v) :: l) m) with (set_all l (<[n := v]> m)).
  cbn in Hn. rewrite IH by set_solver.
  apply lookup_insert_ne. set_solver.
Qed.
Lemma set_all_in l m name v : NoDup l.*1 -> (name, v) ∈ l -> set_all l m !! name = Some v.
Proof.
  revert m. induction l as [|[n v0] l IH]; intros m Hnd Hin; [by apply elem_of_nil in Hin|].
  change (set_all ((n, v0) :: l) m) with (set_all l (<[n := v0]> m)). cbn in Hnd.
  apply NoDup_cons in Hnd as [Hn Hnd]. apply elem_of_cons in Hin as [[= -> ->]|Hin]; [|by apply IH].
  rewrite set_all_other by done. apply lookup_insert_eq.
Qed.

Section node.
Context (accepts : Z -> bytes -> bytes -> Prop) (accepts_time : Z -> Prop) (n : rnode).
Hypothesis Hr : restorable accepts accepts_time n.

(** The attributes that are not plain. *)
Definition special_attrs : list (bytes * bytes) :=
  acl_attrs (e_Mode (r_Entry n)) (r_ACL n) ++ match r_FCaps n with Some c => [(xattrFCaps, c)] | None => [] end.

Lemma special_sublist : special_attrs.*1 `sublist_of` [xattrACLAccess; xattrACLDefault; xattrFCaps].
Proof.
  unfold special_attrs, acl_attrs. rewrite fmap_app.
  change [xattrACLAccess; xattrACLDefault; xattrFCaps] with ([xattrACLAccess; xattrACLDefault] ++ [xattrFCaps]). apply sublist_app.
  - destruct (r_ACL n) as [acl|]; [|by apply sublist_nil_l]. rewrite fmap_app.
    change [xattrACLAccess; xattrACLDefault] with ([xattrACLAccess] ++ [xattrACLDefault]).
    apply sublist_app; [destruct (has_access acl)|destruct (Default acl)]; cbn; try done; by apply sublist_nil_l.
  - destruct (r_FCaps n); [done|by apply sublist_nil_l].
Qed.
Lemma special_not_plain name : name ∈ special_attrs.*1 -> ~ plain_name name.
Proof.
  intros Hin Hp. eapply elem_of_submseteq in Hin; [|apply sublist_submseteq, special_sublist].
  destruct Hp as (Hp & Hf & _). rewrite !elem_of_cons, elem_of_nil in Hin. destruct Hin as [->|[->|[->|[]]]]; try discriminate Hp. done.
Qed.

Lemma xattr_names_nodup : NoDup (xa_Name <$> r_Xattrs n).
Proof.
  destruct (rs_names _ _ _ Hr) as [_ Hs]. induction Hs as [|x l _ IH Hx]; cbn; constructor; [|done].
  intros (y & He & Hy)%list_elem_of_fmap. rewrite Forall_forall in Hx. by destruct (Hx y Hy).
Qed.
Lemma node_attrs_nodup : NoDup (node_attrs n).*1.
Proof.
  unfold node_attrs. fold special_attrs. rewrite fmap_app, NoDup_app, <- list_fmap_compose. split_and!.
  - apply xattr_names_nodup.
  - intros name (x & -> & Hin)%list_elem_of_fmap Hs. apply special_not_plain in Hs. apply Hs.
    destruct (rs_names _ _ _ Hr) as [Hf _]. rewrite Forall_forall in Hf. by apply Hf.
  - eapply sublist_NoDup; [|apply special_sublist]. apply (bool_decide_unpack _). by vm_compute.
Qed.

(** The attributes of the inode are those of the node. *)
Lemma attrs_lookup name v : set_all (node_attrs n) ∅ !! name = Some v <-> (name, v) ∈ node_attrs n.
Proof.
  split; [|apply set_all_in, node_attrs_nodup]. intros [Hl|Hl]%set_all_lookup; [by rewrite lookup_empty in Hl|done].
Qed.

Lemma node_attr_names name : name ∈ (map_to_list (set_all (node_attrs n) ∅)).*1 -> name <> [] /\ nul ∉ name.
Proof.
  intros ([nm v] & -> & Hin%elem_of_map_to_list%attrs_lookup)%list_elem_of_fmap. unfold node_attrs in Hin. fold special_attrs in Hin.
  apply elem_of_app in Hin as [Hin|Hin].
  - apply list_elem_of_fmap in Hin as (x & [= -> ->] & Hin). destruct (rs_names _ _ _ Hr) as [Hf _].
    rewrite Forall_forall in Hf. by destruct (Hf x Hin) as (_ & _ & ? & ?).
  - assert (nm ∈ [xattrACLAccess; xattrACLDefault; xattrFCaps]) as Hm.
    { eapply elem_of_submseteq; [|apply sublist_submseteq, special_sublist]. apply list_elem_of_fmap. by exists (nm, v). }
    cbn [fst]. clear Hin. revert nm Hm. apply Forall_forall. repeat constructor; try done; apply (bool_decide_unpack _); by vm_compute.
Qed.

(** Sorted, the plain attributes are those of the node. *)
Lemma kept_attrs names : names ≡ₚ (map_to_list (set_all (node_attrs n) ∅)).*1 ->
  merge_sort xattr_le ((fun a => mkXattr a (default [] (set_all (node_attrs n) ∅ !! a))) <$>
    filter (fun a => kept_attr a = true) names) = r_Xattrs n.
Proof.
  intros Hp. set (M := set_all (node_attrs n) ∅) in *. set (f := fun a => mkXattr a (default [] (M !! a))).
  destruct (rs_names _ _ _ Hr) as [Hpl Hs]. rewrite Forall_forall in Hpl.
  assert (Transitive xattr_le) as Htr by (intros a b c; apply bytes_leb_trans).
  assert (Total xattr_le) as Hto by (intros a b; apply bytes_leb_total).
  assert (NoDup names) as Hnd by (rewrite Hp; apply NoDup_fst_map_to_list).
  assert (f <$> filter (fun a => kept_attr a = true) names ≡ₚ r_Xattrs n) as Hperm.
  { apply NoDup_Permutation.
    - apply NoDup_fmap_2_strong; [by intros x y _ _ [= -> _]|by apply NoDup_filter].
    - eapply NoDup_fmap_1. apply xattr_names_nodup.
    - intros x. rewrite list_elem_of_fmap. setoid_rewrite list_elem_of_filter. setoid_rewrite Hp. split.
      + intros (a & -> & Hk & ([a' v] & -> & Hin%elem_of_map_to_list)%list_elem_of_fmap). unfold f. cbn [fst] in *.
        unfold M in *. rewrite Hin. cbn [default]. apply attrs_lookup in Hin. unfold node_attrs in Hin. fold special_attrs in Hin.
        apply elem_of_app in Hin as [Hin|Hin]; [by apply list_elem_of_fmap in Hin as ([] & [= -> ->] & Hin)|].
        exfalso. assert (a' ∈ special_attrs.*1) as Hm by (apply list_elem_of_fmap; by exists (a', v)).
        eapply elem_of_submseteq in Hm; [|apply sublist_submseteq, special_sublist].
        rewrite !elem_of_cons, elem_of_nil in Hm. by destruct Hm as [->|[->|[->|[]]]].
      + intros Hin. assert (M !! xa_Name x = Some (xa_Value x)) as Hl.
        { apply attrs_lookup. apply elem_of_app. left. apply list_elem_of_fmap. by exists x. }
        exists (xa_Name x). unfold f. rewrite Hl. split_and!; [by destruct x| |].
        * destruct (Hpl x Hin) as (H1 & H2 & _). unfold kept_attr. by rewrite H1, bool_decide_eq_false_2.
        * apply list_elem_of_fmap. exists (xa_Name x, xa_Value x). split; [done|]. by apply elem_of_map_to_list. }
  apply (StronglySorted_unique_strong xattr_le).
  - intros a b Ha Hb Hab Hba. rewrite merge_sort_Permutation, Hperm in Ha.
    assert (xa_Name a = xa_Name b) as He by by apply bytes_leb_antisym.
    apply list_elem_of_lookup in Ha as [i Hi], Hb as [j Hj].
    assert (i = j) as ->; [|congruence].
    apply (NoDup_lookup (xa_Name <$> r_Xattrs n) i j (xa_Name a)); [apply xattr_names_nodup|..]; rewrite list_lookup_fmap, ?Hi, ?Hj; cbn; congruence.
  - by apply StronglySorted_merge_sort.
  - clear -Hs. induction Hs as [|x l _ IH Hx]; constructor; [done|]. eapply Forall_impl; [exact Hx|]. by intros y [? _].
  - by rewrite merge_sort_Permutation.
Qed.

(** The ACL and the capabilities found among the attributes. *)
Lemma lookup_special name v : ~ plain_name name -> (forall v', (name, v') ∈ special_attrs <-> v = Some v') ->
  set_all (node_attrs n) ∅ !! name = v.
Proof.
  intros Hpl Hv. apply option_eq. intros v'. rewrite attrs_lookup, <- Hv. unfold node_attrs. fold special_attrs. rewrite elem_of_app.
  split; [|by right]. intros [Hin|Hin]; [|done]. destruct Hpl. apply list_elem_of_fmap in Hin as (x & [= -> ->] & Hin).
  destruct (rs_names _ _ _ Hr) as [Hf _]. rewrite Forall_forall in Hf. by apply Hf.
Qed.

Ltac special_iff :=
  intros v'; unfold special_attrs, acl_attrs; destruct (r_ACL n) as [acl|]; cbn [mbind option_bind];
  [destruct (has_access acl), (Default acl); cbn [mbind option_bind]|]; destruct (r_FCaps n);
  rewrite ?app_nil_r, ?elem_of_app, ?list_elem_of_singleton, ?elem_of_nil; split; intros Hx; destruct_or?; try discriminate Hx; simplify_eq; auto.

Lemma lookup_access : set_all (node_attrs n) ∅ !! xattrACLAccess =
  acl ← r_ACL n; if has_access acl then Some (accessACL (e_Mode (r_Entry n)) acl) else None.
Proof. apply lookup_special; [by intros [? _]|]. special_iff. Qed.
Lemma lookup_default : set_all (node_attrs n) ∅ !! xattrACLDefault =
  acl ← r_ACL n; d ← Default acl; Some (defaultACL d acl).
Proof. apply lookup_special; [by intros [? _]|]. special_iff. Qed.
Lemma lookup_fcaps : set_all (node_attrs n) ∅ !! xattrFCaps = r_FCaps n.
Proof. apply lookup_special; [by intros (_ & ? & _)|]. special_iff. Qed.
End node.

(* ------------------------------------------------------------------ *)
(** ** Restored and scanned *)

Section roundtrip.
Context {W Dir Fd : Type} `{WriterSys W Dir Fd} `{ScanSys W}.
Variables (view : W -> fsys) (dir_path : Dir -> bytes) (fd_ino : Fd -> nat) (abs : bytes -> bytes).
Variables (accepts : Z -> bytes -> bytes -> Prop) (accepts_time : Z -> Prop).
Hypothesis wlaws : writer_laws view dir_path fd_ino accepts accepts_time.
Hypothesis rlaws : reader_laws view abs.

Lemma parse_into_yields F attr data out out' isDefault : parseACLXattr data out isDefault = Ok out' ->
  yields view F (parse_into attr (Some data) out isDefault) (Ok out').
Proof. intros E w Hw. exists w. cbn. by rewrite E. Qed.

(** The ACL found is the node's. *)
Lemma linux_ACLs_yields F p k n i : restorable accepts accepts_time n -> f_at F p = Some (k, with_metadata n i) ->
  yields view F (linux_ACLs (abs p)) (Ok (r_ACL n)).
Proof.
  intros Hr Hat. unfold linux_ACLs.
  eapply yields_bind; [by eapply optional_yields|]. cbn [i_xattrs with_metadata]. rewrite (lookup_access _ _ _ Hr).
  destruct (r_ACL n) as [acl|] eqn:Ea; cbn [mbind option_bind].
  2: { eapply yields_bind; [apply yields_ret|]. eapply yields_bind; [by eapply optional_yields|]. cbn [i_xattrs with_metadata].
       rewrite (lookup_default _ _ _ Hr), Ea. cbn [mbind option_bind]. eapply yields_bind; [apply yields_ret|].
       rewrite decide_True by done. apply yields_ret. }
  destruct (rs_acl _ _ _ Hr acl Ea) as [Hs Hne].
  eapply (yields_bind _ _ _ _ (mkACLs (Users acl) (Groups acl) (GroupObj acl) None [] [])).
  { destruct (has_access acl) eqn:Eacc; [apply parse_into_yields; by rewrite parse_accessACL|].
    assert (mkACLs (Users acl) (Groups acl) (GroupObj acl) None [] [] = emptyACLs) as ->; [|apply yields_ret].
    unfold has_access in Eacc. apply negb_false_iff, bool_decide_eq_true in Eacc as (-> & -> & ->). done. }
  eapply yields_bind; [by eapply optional_yields|]. cbn [i_xattrs with_metadata]. rewrite (lookup_default _ _ _ Hr), Ea. cbn [mbind option_bind].
  eapply (yields_bind _ _ _ _ acl).
  { destruct (Default acl) as [d|] eqn:Ed; cbn [mbind option_bind].
    - apply parse_into_yields. rewrite (parse_defaultACL d) by done. cbn. rewrite <- Ed. by destruct acl.
    - pose proof (as_default _ Hs) as Hd. rewrite Ed in Hd. destruct Hd as [Hd1 Hd2].
      assert (mkACLs (Users acl) (Groups acl) (GroupObj acl) None [] [] = acl) as ->; [|apply yields_ret].
      destruct acl. cbn in *. congruence. }
  rewrite decide_False; [apply yields_ret|]. intros (E1 & E2 & E3 & E4 & _). destruct Hne as [Hne|Hne]; [|done].
  unfold has_access in Hne. rewrite bool_decide_eq_true_2 in Hne by done. done.
Qed.

Lemma mode_split n : 0 <= e_Mode (r_Entry n) < 2 ^ 16 -> node_type n + node_perm n = e_Mode (r_Entry n).
Proof.
  intros Hm. unfold node_type, node_perm. set (m := e_Mode (r_Entry n)) in *.
  rewrite Z.add_nocarry_lxor.
  2: { apply Z.bits_inj'. intros j Hj. rewrite !Z.land_spec, Z.bits_0.
       assert (Z.testbit modeTypeMask j && Z.testbit 4095 j = false) as Hb by (by rewrite <- Z.land_spec, Z.bits_0).
       destruct (Z.testbit m j); [|done]. cbn. exact Hb. }
  transitivity (Z.land m (Z.ones 16)); [|rewrite Z.land_ones, Z.mod_small; done].
  apply Z.bits_inj'. intros j Hj. change (Z.ones 16) with (Z.lxor modeTypeMask 4095). rewrite Z.lxor_spec, !Z.land_spec, Z.lxor_spec.
  by destruct (Z.testbit m j).
Qed.

(** C16: Applying the metadata of an archive entry to the fresh entry a restore made for
    it sets exactly that metadata, without a warning and without touching
    anything else of the file system; a scan of the entry then reads back its
    mode, owner and mtime, its extended attributes in order, its ACL and its
    file capabilities. *)
Theorem metadata_restored name n w k i :
  target_path name -> f_dir (view w) (if decide (name = dot) then dot else path_Dir name) ->
  f_at (view w) name = Some (k, i) -> i_kind i = node_type n -> i_xattrs i = ∅ -> dev_ok (i_rdev i) ->
  (node_type n = modeSymlink -> i_perm i = node_perm n) -> restorable accepts accepts_time n ->
  exists w', linux_Apply name n w = ([], w') /\ view w' = f_set (view w) k (with_metadata n i) /\
    (exists st w1, linux_Lstat (abs name) w' = (Ret (Ok st), w1) /\
       st_Mode st = e_Mode (r_Entry n) /\ st_UID st = e_UID (r_Entry n) /\ st_GID st = e_GID (r_Entry n) /\
       st_MtimeSecs st = e_MtimeSecs (r_Entry n) /\ st_MtimeNanos st = e_MtimeNanos (r_Entry n) /\ st_Rdev st = i_rdev i) /\
    (exists w1, linux_Xattrs (abs name) w' = (Ret (Ok (r_Xattrs n)), w1)) /\
    (exists w1, linux_ACLs (abs name) w' = (Ret (Ok (r_ACL n)), w1)) /\
    (exists w1, linux_FCaps (abs name) w' = (Ret (Ok (r_FCaps n)), w1)).
Proof.
  intros Hp Hd Hat Hk Hx Hdev Hs Hr.
  destruct (linux_Apply_sets view dir_path fd_ino accepts accepts_time wlaws name n w k i) as (w' & E & V); try done.
  exists w'. split; [done|]. split; [done|].
  assert (f_at (view w') name = Some (k, with_metadata n i)) as Hat' by (rewrite V; by eapply f_at_set). split_and!.
  - destruct (rl_Lstat _ _ rlaws name w' _ _ Hat') as (st & w1 & E1 & _ & M1 & U1 & G1 & T1 & R1). injection T1 as T1 T2.
    exists (stat_of st), w1. unfold linux_Lstat, mbind, P_bind, sys. rewrite E1. split; [done|]. cbn. split_and!; [|done..|by apply R1].
    rewrite M1. cbn. rewrite Hk. apply mode_split, Hr.
  - destruct (linux_Xattrs_yields view abs rlaws (view w') name k _ Hat') with (w := w') as (names & w1 & Hn & _ & E1); [|done|].
    { apply Forall_forall. intros a Ha. by eapply node_attr_names. }
    exists w1. rewrite E1. do 3 f_equal. by eapply kept_attrs.
  - destruct (linux_ACLs_yields (view w') name k n i Hr Hat' w' eq_refl) as (w1 & E1 & _). by exists w1.
  - destruct (optional_yields view abs rlaws (view w') name k _ xattrFCaps Hat' w' eq_refl) as (w1 & E1 & _). exists w1.
    unfold linux_FCaps. rewrite E1. cbn [i_xattrs with_metadata]. by rewrite (lookup_fcaps _ _ _ Hr).
Qed.
End roundtrip.

(* ------------------------------------------------------------------ *)
(** ** The loops end *)

(** While other processes change attributes, finitely often: a value that did
    not fit has grown since its size was asked for. *)
Record fair_laws {W : Type} `{ScanSys W} : Prop := {
  fl_Lgetxattr p name size w r w' : sys_Lgetxattr p name size w = (r, w') -> (sys_changes w' <= sys_changes w)%nat;
  fl_Llistxattr p size w r w' : sys_Llistxattr p size w = (r, w') -> (sys_changes w' <= sys_changes w)%nat;
  fl_value p name w s w1 w2 : sys_Lgetxattr p name 0 w = (Ok s, w1) -> sys_Lgetxattr p name s.1 w1 = (Err ERANGE, w2) ->
    (sys_changes w2 < sys_changes w)%nat;
  fl_names p w s w1 w2 : sys_Llistxattr p 0 w = (Ok s, w1) -> sys_Llistxattr p s.1 w1 = (Err ERANGE, w2) ->
    (sys_changes w2 < sys_changes w)%nat;
  (** A buffer that is not empty is never overrun. *)
  fl_fits p name size w n data w' : 0 < size -> sys_Lgetxattr p name size w = (Ok (n, data), w') -> 0 <= n <= size;
  fl_names_fit p size w n data w' : 0 < size -> sys_Llistxattr p size w = (Ok (n, data), w') -> 0 <= n <= size;
  fl_size p name w n data w' : sys_Lgetxattr p name 0 w = (Ok (n, data), w') -> 0 <= n;
  fl_names_size p w n data w' : sys_Llistxattr p 0 w = (Ok (n, data), w') -> 0 <= n }.
Arguments fair_laws W {_}.

(** [getXattr] sees an attribute [name] that was empty grow. *)
Definition grown {W} `{ScanSys W} (path name : bytes) : Prop :=
  exists w w1 w2 d n d', sys_Lgetxattr path name 0 w = (Ok (0, d), w1) /\ sys_Lgetxattr path name 0 w1 = (Ok (n, d'), w2) /\ 0 <> n.

Section ends.
Context {W : Type} `{ScanSys W} (laws : fair_laws W).
#[local] Existing Instances P_ret P_bind.

(** [m] comes to an end, panics only if [bad], and sees changes go by. *)
Definition ends (bad : Prop) {A} (m : P A) : Prop :=
  forall w, (m w).1 <> Spin /\ ((m w).1 = Panic -> bad) /\ (sys_changes (m w).2 <= sys_changes w)%nat.

Lemma ends_ret bad {A} (r : result meta_error A) : ends bad (fun w => (Ret r, w)).
Proof. intros w. cbn. by split_and!. Qed.
Lemma ends_bind bad {A B} (m : P A) (f : A -> P B) : ends bad m -> (forall a, ends bad (f a)) -> ends bad (m ≫= f).
Proof.
  intros Hm Hf w. destruct (Hm w) as (H1 & H2 & H3). unfold mbind, P_bind. destruct (m w) as [[[a|e]| |] w1]; cbn in *; try (split_and!; by auto).
  destruct (Hf a w1) as (H4 & H5 & H6). split_and!; [done..|lia].
Qed.
Lemma ends_catch bad {A} (m : P A) h : ends bad m -> (forall e, ends bad (h e)) -> ends bad (catch m h).
Proof.
  intros Hm Hh w. destruct (Hm w) as (H1 & H2 & H3). unfold catch. destruct (m w) as [[[a|[e|]]| |] w1]; cbn in *; try (split_and!; by auto).
  destruct (Hh e w1) as (H4 & H5 & H6). split_and!; [done..|lia].
Qed.
Lemma slice_buf_fits size n data : 0 <= n <= size -> is_Some (slice_buf size n data).
Proof. intros Hn. unfold slice_buf. rewrite (proj2 (Z.leb_le 0 n)), (proj2 (Z.leb_le n size)) by lia. by eexists. Qed.


(** One round: a size, then a buffer of that size. *)
Lemma fill_ends bad size (f : Z -> W -> result Z (Z * bytes) * W) w :
  (forall n d w', f size w = (Ok (n, d), w') -> size <> 0 -> 0 <= n <= size) ->
  (forall n d w', f size w = (Ok (n, d), w') -> size = 0 -> n <> 0 -> bad) ->
  (forall n d w', f size w = (Ok (n, d), w') -> 0 <= n) ->
  (forall r w', f size w = (r, w') -> sys_changes w' <= sys_changes w)%nat ->
  (fill size f w).1 <> Spin /\ ((fill size f w).1 = Panic -> bad) /\ (sys_changes (fill size f w).2 <= sys_changes w)%nat.
Proof.
  intros Hfit Hbad Hpos Hch. unfold fill. destruct (f size w) as [[[n d]|e] w'] eqn:E; pose proof (Hch _ _ eq_refl).
  - destruct (slice_buf size n d) eqn:Es; cbn; split_and!; try done. intros _. destruct (decide (size = 0)) as [->|Hs].
    + apply (Hbad n d w'); [done..|]. intros ->. by destruct (slice_buf_fits 0 0 d ltac:(lia)) as [x Hx]; congruence.
    + destruct (slice_buf_fits size n d (Hfit _ _ _ eq_refl Hs)) as [x Hx]. congruence.
  - destruct (e =? ERANGE); cbn; by split_and!.
Qed.

Lemma getXattr_ends path name : ends (grown path name) (getXattr path name).
Proof.
  intros w. unfold getXattr. assert (forall fuel w, sys_changes w < fuel ->
    (getXattr_loop fuel path name w).1 <> Spin /\ ((getXattr_loop fuel path name w).1 = Panic -> grown path name) /\
    sys_changes (getXattr_loop fuel path name w).2 <= sys_changes w)%nat as Hl; [|apply Hl; lia].
  clear w. intros fuel. induction fuel as [|fuel IH]; intros w Hf; [lia|].
  cbn [getXattr_loop]. unfold mbind, P_bind, sys. destruct (sys_Lgetxattr path name 0 w) as [[[s d]|e] w1] eqn:E1;
    pose proof (fl_Lgetxattr laws _ _ _ _ _ _ E1) as L1; [|by cbn; split_and!].
  cbn [fst]. pose proof (fl_size laws _ _ _ _ _ _ E1) as Hs0.
  destruct (fill_ends (grown path name) s (sys_Lgetxattr path name) w1) as (F1 & F2 & F3).
  { intros n d' w' E Hs. apply (fl_fits laws path name s w1 n d' w' ltac:(lia) E). }
  { intros n d' w' E -> Hn. exists w, w1, w', d, n, d'. split_and!; done. }
  { intros n d' w' E. destruct (decide (s = 0)) as [->|Hs]; [by eapply (fl_size laws)|].
    by destruct (fl_fits laws path name s w1 n d' w' ltac:(lia) E). }
  { intros r w'. apply (fl_Lgetxattr laws). }
  destruct (fill s (sys_Lgetxattr path name) w1) as [[[[v|]|e]| |] w2] eqn:E2; unfold mret, P_ret; cbn [fst snd] in *; try (split_and!; [done|by auto|lia]).
  assert (sys_changes w2 < sys_changes w)%nat as Hlt.
  { unfold fill in E2. destruct (sys_Lgetxattr path name s w1) as [[[n d']|e] w3] eqn:E3.
    - revert E2. destruct (slice_buf s n d'); intros E2; discriminate E2.
    - destruct (Z.eqb_spec e ERANGE) as [->|]; [|done]. injection E2 as <-. by apply (fl_value laws _ _ _ _ _ _ E1). }
  destruct (IH w2 ltac:(lia)) as (G1 & G2 & G3). split_and!; [done..|lia].
Qed.

Lemma optional_ends path name : ends (grown path name) (optional path name).
Proof.
  apply ends_catch; [apply ends_bind; [apply getXattr_ends|intros; apply ends_ret]|].
  intros e. destruct (_ || _); apply ends_ret.
Qed.
Lemma parse_into_ends bad attr v out isDefault : ends bad (parse_into attr v out isDefault).
Proof. destruct v as [data|]; [|apply ends_ret]. intros w. cbn. destruct (parseACLXattr _ _ _); by cbn; split_and!. Qed.
Lemma ends_weaken (bad bad' : Prop) {A} (m : P A) : (bad -> bad') -> ends bad m -> ends bad' m.
Proof. intros Hb Hm w. destruct (Hm w) as (? & ? & ?). split_and!; auto. Qed.

Lemma listXattrNames_ends path : ends False (listXattrNames path).
Proof.
  intros w. unfold listXattrNames. assert (forall fuel w, sys_changes w < fuel ->
    (listXattrNames_loop fuel path w).1 <> Spin /\ ((listXattrNames_loop fuel path w).1 = Panic -> False) /\
    sys_changes (listXattrNames_loop fuel path w).2 <= sys_changes w)%nat as Hl; [|apply Hl; lia].
  clear w. intros fuel. induction fuel as [|fuel IH]; intros w Hf; [lia|].
  cbn [listXattrNames_loop]. unfold mbind, P_bind, catch, sys.
  destruct (sys_Llistxattr path 0 w) as [[[s d]|e] w1] eqn:E1; pose proof (fl_Llistxattr laws _ _ _ _ _ E1) as L1; cbn.
  2: { destruct (isNotSupported e); cbn; by split_and!. }
  destruct (Z.eqb_spec s 0) as [|Hs]; [by cbn; split_and!|]. pose proof (fl_names_size laws _ _ _ _ _ E1) as Hs0.
  destruct (fill_ends False s (sys_Llistxattr path) w1) as (F1 & F2 & F3).
  { intros n d' w' E _. apply (fl_names_fit laws path s w1 n d' w' ltac:(lia) E). }
  { done. }
  { intros n d' w' E. by destruct (fl_names_fit laws path s w1 n d' w' ltac:(lia) E). }
  { intros r w'. apply (fl_Llistxattr laws). }
  destruct (fill s (sys_Llistxattr path) w1) as [[[[v|]|e]| |] w2] eqn:E2; unfold mret, P_ret; cbn [fst snd] in *; try (split_and!; [done|by auto|lia]).
  assert (sys_changes w2 < sys_changes w)%nat as Hlt.
  { unfold fill in E2. destruct (sys_Llistxattr path s w1) as [[[n d']|e] w3] eqn:E3.
    - revert E2. destruct (slice_buf s n d'); intros E2; discriminate E2.
    - destruct (Z.eqb_spec e ERANGE) as [->|]; [|done]. injection E2 as <-. by apply (fl_names laws _ _ _ _ _ E1). }
  destruct (IH w2 ltac:(lia)) as (G1 & G2 & G3). split_and!; [done..|lia].
Qed.

Lemma read_values_ends path names : ends (exists name, grown path name) (read_values path names).
Proof.
  induction names as [|name names IH]; [apply ends_ret|]. cbn [read_values]. destruct (_ || _); [done|].
  apply ends_bind; [|intros v; apply ends_bind; [done|intros; apply ends_ret]]. apply ends_catch.
  - apply ends_bind; [|intros; apply ends_ret]. eapply ends_weaken; [|apply getXattr_ends]. eauto.
  - intros e. destruct (isNoData e); apply ends_ret.
Qed.

(** C39: However other processes change attributes, finitely often, while the
    scanner reads them: reading the extended attributes, the ACLs and the
    capabilities of an entry comes to an end, and it panics only if an
    attribute was empty when its size was asked for and has grown when its
    value is read. *)
Theorem readers_end path :
  ends (exists name, grown path name) (linux_Xattrs path) /\
  ends (exists name, grown path name) (linux_ACLs path) /\
  ends (exists name, grown path name) (linux_FCaps path).
Proof.
  assert (forall name, ends (exists name, grown path name) (optional path name)) as Ho.
  { intros name. eapply ends_weaken; [|apply optional_ends]. eauto. }
  split_and!.
  - apply ends_bind; [eapply ends_weaken; [|apply listXattrNames_ends]; done|]. intros names.
    apply ends_bind; [apply read_values_ends|]. intros. apply ends_ret.
  - apply ends_bind; [apply Ho|]. intros access. apply ends_bind; [apply parse_into_ends|]. intros out.
    apply ends_bind; [apply Ho|]. intros deflt. apply ends_bind; [apply parse_into_ends|]. intros. apply ends_ret.
  - apply Ho.
Qed.
End ends.
