(* ===== verification/Disk.v ===== *)
(** * A file system in memory

    Instances of the system calls of [Linux] on which the laws of [LinuxSpec]
    hold, so that its theorems apply to something that runs: a disk only the
    restore changes, and an attribute that another process rewrites between
    any two calls. *)

From stdpp Require Import sorting.
From S2P Require Import Prelude Format Tree Reader ReaderSafe Glob FS Acl Scan Linux LinuxSpec.
From Stdlib Require Import Strings.Byte.
Local Open Scope Z_scope.

(* ------------------------------------------------------------------ *)
(** ** A quiet disk *)

Definition set_owner (uid gid : Z) (i : inode) : inode :=
  mkInode (i_kind i) (i_perm i) uid gid (i_mtime i) (i_rdev i) (i_data i) (delete xattrFCaps (i_xattrs i)).
Definition set_attr (name value : bytes) (i : inode) : inode :=
  mkInode (i_kind i) (i_perm i) (i_uid i) (i_gid i) (i_mtime i) (i_rdev i) (i_data i) (<[name := value]> (i_xattrs i)).
Definition set_perm (perm : Z) (i : inode) : inode :=
  mkInode (i_kind i) perm (i_uid i) (i_gid i) (i_mtime i) (i_rdev i) (i_data i) (i_xattrs i).
Definition set_time (t : Z * Z) (i : inode) : inode :=
  mkInode (i_kind i) (i_perm i) (i_uid i) (i_gid i) t (i_rdev i) (i_data i) (i_xattrs i).

(** Change the inode at a path. *)
Definition on_path (p : bytes) (f : inode -> inode) (F : fsys) : result Z unit * fsys :=
  match f_at F p with Some (k, i) => (Ok (), f_set F k (f i)) | None => (Err ENOENT, F) end.
Definition on_inode (k : nat) (f : inode -> inode) (F : fsys) : result Z unit * fsys :=
  match f_inodes F !! k with Some i => (Ok (), f_set F k (f i)) | None => (Err ENOENT, F) end.

Definition two32 := 2 ^ 32.

#[export] Instance disk_writer : WriterSys fsys bytes nat := {
  root_Open p F := match f_at F p with Some _ => (Ok p, F) | None => (Err ENOENT, F) end;
  dir_Close _ F := F;
  sys_Fchownat d base uid gid := on_path (entry_at d base) (set_owner uid gid);
  sys_Openat d base F := match f_at F (entry_at d base) with Some (k, _) => (Ok k, F) | None => (Err ENOENT, F) end;
  fd_Close _ F := F;
  sys_Fsetxattr k name value := on_inode k (set_attr name value);
  sys_Fchmodat d base perm := on_path (entry_at d base) (set_perm perm);
  sys_UtimesNanoAt d base t := on_path (entry_at d base) (set_time t);
  sys_Mknodat d base mode dev F :=
    let k := fresh (dom (f_inodes F)) in
    (Ok (), mkFsys (<[entry_at d base := k]> (f_names F))
       (<[k := mkInode (Z.land mode modeTypeMask) (Z.land mode 0xfff) 0 0 (0, 0) (mkDevice (dev / two32) (dev mod two32)) [] ∅]> (f_inodes F)));
  unix_Mkdev a b := a * two32 + b;
  unix_NsecToTimespec ns := (ns / 1000000000, ns mod 1000000000) }.

#[export] Instance disk_reader : ScanSys fsys := {
  sys_Lstat p F := match f_at F p with
    | Some (k, i) => (Ok (mkStat_t (i_kind i + i_perm i) (i_uid i) (i_gid i) (i_mtime i).1 (i_mtime i).2 (zlen (i_data i)) 1 1 (Z.of_nat k)
                        (Major (i_rdev i) * two32 + Minor (i_rdev i))), F)
    | None => (Err ENOENT, F) end;
  sys_Stat p F := (Err ENOENT, F);
  os_ReadDir p F := (Err ENOENT, F);
  os_Readlink p F := match f_at F p with Some (k, i) => (Ok (i_data i), F) | None => (Err ENOENT, F) end;
  os_ReadFile p F := match f_at F p with Some (k, i) => (Ok (i_data i), F) | None => (Err ENOENT, F) end;
  sys_Llistxattr p size F := match f_at F p with
    | Some (k, i) => (xattr_call size (listing (map_to_list (i_xattrs i)).*1), F) | None => (Err ENOENT, F) end;
  sys_Lgetxattr p name size F := match f_at F p with
    | Some (k, i) => (match i_xattrs i !! name with Some v => xattr_call size v | None => Err ENODATA end, F)
    | None => (Err ENOENT, F) end;
  sys_Open p F := (Ok 3, F);
  sys_FsGetXattr _ F := (Ok 0, F);
  sys_Close _ F := F;
  unix_Major d := d / two32;
  unix_Minor d := d mod two32;
  sys_changes _ := O }.

Lemma touched_refl i : touched i i.
Proof. by repeat split. Qed.
Lemma creates_fresh F p i :
  creates F p (fresh (dom (f_inodes F))) i
    (mkFsys (<[p := fresh (dom (f_inodes F))]> (f_names F)) (<[fresh (dom (f_inodes F)) := i]> (f_inodes F))).
Proof.
  split_and!; cbn; [done|apply not_elem_of_dom, is_fresh|apply lookup_insert_eq|].
  intros k Hk. rewrite lookup_insert_ne by done. destruct (f_inodes F !! k); constructor. apply touched_refl.
Qed.

Lemma disk_writer_laws : writer_laws (fun F : fsys => F) (fun d => d) (fun k : nat => k) (fun _ _ _ => True) (fun _ => True).
Proof.
  assert (forall p f pre (change : inode -> inode -> Prop), (forall i, pre i -> change i (f i)) ->
    does_at (fun F : fsys => F) (on_path p f) p pre change) as Hp.
  { intros p f pre change Hc F k i Hat Hpre. exists (f_set F k (f i)), (f i). unfold on_path. rewrite Hat. auto. }
  constructor; try done.
  - intros p F (k & i & Hat & _). exists p, F. cbn. by rewrite Hat.
  - intros d base uid gid _ _. apply Hp. intros i _. repeat split; [by left|by right].
  - intros d base F k i Hat _. exists k, F. cbn. by rewrite Hat.
  - intros k name value F i Hi _. exists (f_set F k (set_attr name value i)), (set_attr name value i). cbn. unfold on_inode. by rewrite Hi.
  - intros d base perm _. apply Hp. intros i _. by repeat split.
  - intros d base s ns _ _. apply Hp. intros i _. by repeat split.
  - intros d base mode a b F Hc _ [Ha Hb]. cbn in *.
    set (dev := i64 (a * two32 + b)).
    exists (mkFsys (<[entry_at d base := fresh (dom (f_inodes F))]> (f_names F))
       (<[fresh (dom (f_inodes F)) := mkInode (Z.land mode modeTypeMask) (Z.land mode 0xfff) 0 0 (0, 0) (mkDevice (dev / two32) (dev mod two32)) [] ∅]> (f_inodes F))).
    eexists _, _. split; [reflexivity|]. split; [apply creates_fresh|]. repeat split. cbn.
    assert (dev = a * two32 + b) as ->.
    { unfold dev, i64, two32. rewrite Z.mod_small by lia. lia. }
    unfold two32. rewrite Z.div_add_l, (Z.div_small b), (Z.add_comm (a * _) b), Z.mod_add, Z.mod_small by lia. f_equal. lia.
Qed.

Lemma xattr_call_ok size (v : bytes) : size = 0 \/ size = zlen v -> exists d, xattr_call size v = Ok (zlen v, d).
Proof.
  intros Hs. unfold xattr_call. destruct (Z.eqb_spec size 0); [eauto|]. destruct Hs as [Hs|Hs]; [done|]. rewrite Hs, Z.ltb_irrefl. eauto.
Qed.

Lemma disk_reader_laws : reader_laws (fun F : fsys => F) (fun p => p).
Proof.
  constructor.
  - intros p F k i Hat. cbn. rewrite Hat. eexists _, F. split_and!; try done; [by destruct (i_mtime i)|].
    intros [Ha Hb]. cbn. unfold two32 in *. destruct (i_rdev i) as [a b]. cbn in *.
    rewrite Z.div_add_l, (Z.div_small b), (Z.add_comm (a * _) b), Z.mod_add, Z.mod_small by lia. f_equal. lia.
  - intros p size F k i Hat. exists (map_to_list (i_xattrs i)).*1, F. cbn. by rewrite Hat.
  - intros p name size F k i Hat. exists F. cbn. by rewrite Hat.
Qed.

(* ------------------------------------------------------------------ *)
(** ** An attribute that changes between calls *)

(** The values one attribute has at each call; the last one stays. *)
Definition racy := list bytes.
Definition racy_now (w : racy) : bytes := hd [] w.
Definition racy_next (w : racy) : racy := match w with _ :: (_ :: _) as w' => w' | _ => w end.

#[export] Instance racy_reader : ScanSys racy := {
  sys_Lstat p w := (Err ENOENT, w); sys_Stat p w := (Err ENOENT, w); os_ReadDir p w := (Err ENOENT, w);
  os_Readlink p w := (Err ENOENT, w); os_ReadFile p w := (Err ENOENT, w);
  sys_Llistxattr p size w := (xattr_call size (lit "user.a" ++ [nul]), w);
  sys_Lgetxattr p name size w := (xattr_call size (racy_now w), racy_next w);
  sys_Open p w := (Err ENOENT, w); sys_FsGetXattr _ w := (Err ENOTTY, w); sys_Close _ w := w;
  unix_Major d := d; unix_Minor d := d; sys_changes w := length w }.

Lemma xattr_call_fits v : xattr_call (zlen v) v <> Err ERANGE.
Proof. unfold xattr_call. rewrite Z.ltb_irrefl. by case_match. Qed.

Lemma racy_fair : fair_laws racy.
Proof.
  assert (forall w, length (racy_next w) <= length w)%nat as Hn by (intros [|a [|b w]]; cbn; lia).
  assert (forall size v n d, 0 < size -> xattr_call size v = Ok (n, d) -> 0 <= n <= size) as Hfit.
  { intros size v n d Hs. unfold xattr_call. destruct (Z.eqb_spec size 0); [lia|]. destruct (Z.ltb_spec size (zlen v)); [done|].
    intros [= <- _]. lia. }
  constructor; cbn.
  - intros p name size w r w' [= _ <-]. apply Hn.
  - intros p size w r w' [= _ <-]. lia.
  - intros p name w s w1 w2 [= <- <-] [= E <-]. destruct w as [|a [|b w]].
    + by destruct (xattr_call_fits []).
    + by destruct (xattr_call_fits a).
    + pose proof (Hn (b :: w)). cbn in *. lia.
  - by intros p w s w1 w2 [= <- <-] [=].
  - intros p name size w n d w' Hs [= E _]. by eapply Hfit.
  - intros p size w n d w' Hs [= E _]. by eapply Hfit.
  - intros p name w n d w' [= <- _ _]. lia.
  - intros p w n d w' [= <- _ _]. lia.
Qed.

(** A value that keeps growing is read in the end. *)
Example getXattr_grows : (getXattr (lit "/f") (lit "user.a") [lit "v"; lit "vv"; lit "vv"; lit "vvv"] : run (result meta_error bytes) * racy) =
  (Ret (Ok (lit "vvv")), [lit "vvv"]).
Proof. reflexivity. Qed.

(** One that was empty when its size was asked for is not: the scan panics. *)
Example getXattr_panics : (linux_Xattrs (lit "/f") [[]; lit "v"] : run (result meta_error (list Xattr)) * racy) = (Panic, [lit "v"]).
Proof. reflexivity. Qed.

(* ------------------------------------------------------------------ *)
(** ** Witnesses *)

Definition sample_ACL : ACLs :=
  mkACLs [mkACLUser 7 6; mkACLUser 12 4] [mkACLGroup 9 5] (Some 4) None [] [].
Definition sample_rnode : rnode :=
  mkRNode (lit "f") (mkEntry 0x81b4 0 1000 1001 1600000000 5) false []
    [mkXattr (lit "user.a") (lit "v"); mkXattr (lit "user.b") []] (Some sample_ACL) (Some (lit "caps")) 0 zeroDevice 0 0 [].
(** The root, and a file just created. *)
Definition sample_file : inode := mkInode modeRegular 0x180 0 0 (0, 0) zeroDevice (lit "data") ∅.
Definition sample_root : inode := mkInode modeDir 0x1c0 0 0 (0, 0) zeroDevice [] ∅.
Definition sample_disk : fsys :=
  mkFsys (list_to_map [(dot, O); (lit "f", 1%nat)]) (list_to_map [(O, sample_root); (1%nat, sample_file)]).

Lemma sample_restorable : restorable (fun _ _ _ => True) (fun _ => True) sample_rnode.
Proof.
  constructor; cbn -[lit]; try done.
  - split; [|repeat constructor; by vm_compute]. repeat constructor; try done; apply (bool_decide_unpack _); by vm_compute.
  - by apply Forall_true.
  - intros acl [= <-]. split; [|by left]. constructor; cbn; repeat split; repeat constructor; done.
  - by left.
Qed.

Lemma metadata_restored_witness :
  exists F', linux_Apply (lit "f") sample_rnode sample_disk = ([], F') /\
    (exists F1, linux_Xattrs (lit "f") F' = (Ret (Ok (r_Xattrs sample_rnode)), F1)) /\
    (exists F1, linux_ACLs (lit "f") F' = (Ret (Ok (Some sample_ACL)), F1)).
Proof.
  destruct (metadata_restored _ _ _ _ _ _ disk_writer_laws disk_reader_laws (lit "f") sample_rnode sample_disk 1%nat sample_file)
    as (F' & E & _ & _ & Ex & Ea & _).
  - right. reflexivity.
  - exists O, sample_root. split; reflexivity.
  - reflexivity.
  - reflexivity.
  - reflexivity.
  - repeat split; done.
  - discriminate.
  - apply sample_restorable.
  - exists F'. split; [exact E|]. split; [exact Ex|exact Ea].
Defined.

Lemma readers_end_witness :
  fair_laws racy /\ ends (exists name, grown (W := racy) (lit "/f") name) (linux_Xattrs (W := racy) (lit "/f")).
Proof. split; [apply racy_fair|]. exact (proj1 (readers_end racy_fair (lit "/f"))). Defined.

(** The nanoseconds of an mtime after April 2262 wrap: on a disk that can
    hold any time, such an entry gets one in 1677. *)
Example mtime_wraps :
  mtime_ns (mkEntry 0x81b4 0 0 0 9223372037 0) = - 9223372036709551616 /\
  (unix_NsecToTimespec (mtime_ns (mkEntry 0x81b4 0 0 0 9223372037 0)) : Z * Z) = (- 9223372037, 290448384).
Proof. split; reflexivity. Qed.
