(* ===== verification/Restore.v ===== *)
(** * Restore

    Models restore/restore.go and restore/portable.go: extracting an archive,
    whole and in one pass or by paths of its file system view, below a target
    directory.  The target, an [os.Root], is an interface, and so are the
    metadata writers; [LinuxSpec] says what the Linux one does. *)

From S2P Require Import Prelude Format Io Tree Reader Glob FS Linux.
From Stdlib Require Import Strings.Byte.
Local Open Scope Z_scope.

(* ------------------------------------------------------------------ *)
(** ** The target *)

(** What the restore calls of the operating system: making and opening the
    target directory, then the methods of its [os.Root], whose names are
    relative to it, and those of a file it created.  [root_Lstat] answers
    whether the entry is a directory. *)
Class RootSys (W File : Type) := {
  os_MkdirAll : bytes -> Z -> W -> result Z unit * W;
  os_ReadDirNames : bytes -> W -> result Z (list bytes) * W;
  os_OpenRoot : bytes -> W -> result Z unit * W;
  root_MkdirAll : bytes -> Z -> W -> result Z unit * W;
  root_Lstat : bytes -> W -> result Z bool * W;
  root_Remove : bytes -> W -> result Z unit * W;
  root_Link : bytes -> bytes -> W -> result Z unit * W;
  root_Mkdir : bytes -> Z -> W -> result Z unit * W;
  root_Create : bytes -> Z -> W -> result Z File * W;
  root_Symlink : bytes -> bytes -> W -> result Z unit * W;
  root_Chmod : bytes -> Z -> W -> result Z unit * W;
  root_Chtimes : bytes -> Z * Z -> W -> result Z unit * W;
  root_Close : W -> W;
  file_Write : File -> bytes -> W -> Z * option Z * W;
  file_Close : File -> W -> option Z * W }.

(** [MetadataWriter]; [Apply] answers what it passes to its [warn]. *)
Class MetadataWriter (W E : Type) := {
  w_Mknod : bytes -> rnode -> W -> result E unit * W;
  w_Apply : bytes -> rnode -> W -> list E * W }.

(** Errors that are [fs.ErrExist]. *)
Definition EEXIST := 17.
Definition ENOTEMPTY := 39.
Definition is_exist (e : Z) : bool := (e =? EEXIST) || (e =? ENOTEMPTY).

(* ------------------------------------------------------------------ *)
(** ** Errors and warnings *)

Inductive name_problem := NotValidName | ReservedName.

Inductive warning (E : Type) :=
  | WName (e : name_problem) | WHardlink (target : bytes) (e : Z) | WSymlink (e : Z) | WMknod (e : E) | WApply (e : E).
Arguments WName {E}. Arguments WHardlink {E}. Arguments WSymlink {E}. Arguments WMknod {E}. Arguments WApply {E}.

(** Errors of the content of a file: of the Reader, or of an open file of
    the archive's file system. *)
Inductive read_error := RrReader (e : rerror) | RrFile (e : ioerr) | RrDir (e : fserror).

Inductive copy_error :=
  | CeContext | CeRead (e : read_error) | CeWrite (e : Z) | CeInvalidWrite | CeShortWrite | CeClose (e : Z) | CeFuel.

Inductive restore_error :=
  | ReContext | ReOS (e : Z) | ReTargetNotEmpty | ReInTheWay (name : bytes) | ReCopy (name : bytes) (e : copy_error)
  | ReReader (e : rerror) | ReFs (e : fserror) | ReInvalidPath (p : bytes) | ReFuel.

(** Where the content of the current file comes from; [c_rounds] bounds the
    reads up to its end. *)
Class ContentSource (C : Type) := {
  c_Read : nat -> C -> bytes * option read_error * C;
  c_rounds : C -> nat }.

#[export] Instance reader_content : ContentSource rstate := {
  c_Read want r := let '(b, e, r) := RRead want r in (b, RrReader <$> e, r);
  c_rounds r := S (rsize (rd_br r) + Z.to_nat (rd_left r)) }.

(** An open file of the file system; none for an entry without content, whose
    [io.Reader] is nil and never read. *)
#[export] Instance file_content : ContentSource (option fsFile) := {
  c_Read want s :=
    match s with
    | None => ([], Some (RrFile EOF), None)
    | Some (DirFile d) => ([], Some (RrDir (dir_Read (mkDirFile d [] false))), s)
    | Some (File c s) => let '(b, e, s) := file_Read want s in (b, RrFile <$> e, Some (File c s))
    end;
  c_rounds s := match s with Some (File _ s) => S (Z.to_nat (sr_limit s - sr_off s)) | _ => 1%nat end }.

Definition is_eof (e : read_error) : bool :=
  match e with RrReader RdEOF | RrFile EOF => true | _ => false end.

(* ------------------------------------------------------------------ *)
(** ** The extractor *)

(** [extractor], with the world, the source of the content, the checks of the
    context left before it is canceled, and the calls of [OnWarn] and
    [OnProgress] so far. *)
Record extractor (W E C : Type) := mkX {
  x_world : W; x_src : C; x_ctx : option nat; x_dirs : list (bytes * rnode); x_skip : bytes;
  x_warned : list (bytes * warning E); x_progress : list (bytes * nat) }.
Arguments mkX {W E C}. Arguments x_world {W E C}. Arguments x_src {W E C}. Arguments x_ctx {W E C}.
Arguments x_dirs {W E C}. Arguments x_skip {W E C}. Arguments x_warned {W E C}. Arguments x_progress {W E C}.

(** The buffer of [io.Copy]. *)
Definition copyBuffer : nat := Z.to_nat 32768.

Section restore.
Context {W File E C : Type} `{RootSys W File} `{MetadataWriter W E} `{ContentSource C}.
(** [Options.Overwrite], and [validName] of the platform. *)
Variables (Overwrite : bool) (validName : bytes -> option name_problem).

#[local] Abbreviation ext := (extractor W E C).

Definition X (A : Type) : Type := ext -> result restore_error A * ext.
#[local] Instance X_ret : MRet X := fun A a x => (Ok a, x).
#[local] Instance X_bind : MBind X := fun A B f m x =>
  match m x with (Ok a, x) => f a x | (Err e, x) => (Err e, x) end.
Definition xfail {A} (e : restore_error) : X A := fun x => (Err e, x).
Definition xget {A} (f : ext -> A) : X A := fun x => (Ok (f x), x).

Definition set_world (w : W) (x : ext) : ext :=
  mkX w (x_src x) (x_ctx x) (x_dirs x) (x_skip x) (x_warned x) (x_progress x).
Definition set_src (c : C) (x : ext) : ext :=
  mkX (x_world x) c (x_ctx x) (x_dirs x) (x_skip x) (x_warned x) (x_progress x).
Definition set_ctx (k : option nat) (x : ext) : ext :=
  mkX (x_world x) (x_src x) k (x_dirs x) (x_skip x) (x_warned x) (x_progress x).
Definition add_dir (name : bytes) (n : rnode) (x : ext) : ext :=
  mkX (x_world x) (x_src x) (x_ctx x) (x_dirs x ++ [(name, n)]) (x_skip x) (x_warned x) (x_progress x).
Definition set_skip (name : bytes) (x : ext) : ext :=
  mkX (x_world x) (x_src x) (x_ctx x) (x_dirs x) name (x_warned x) (x_progress x).
Definition add_warnings (name : bytes) (l : list (warning E)) (x : ext) : ext :=
  mkX (x_world x) (x_src x) (x_ctx x) (x_dirs x) (x_skip x) (x_warned x ++ (pair name <$> l)) (x_progress x).
Definition add_progress (name : bytes) (n : nat) (x : ext) : ext :=
  mkX (x_world x) (x_src x) (x_ctx x) (x_dirs x) (x_skip x) (x_warned x) (x_progress x ++ [(name, n)]).
Definition xmod (f : ext -> ext) : X unit := fun x => (Ok (), f x).

(** [ctx.Err() != nil]; a canceled context stays canceled. *)
Definition canceled (x : ext) : bool * ext :=
  match x_ctx x with
  | None => (false, x)
  | Some O => (true, x)
  | Some (S k) => (false, set_ctx (Some k) x)
  end.
Definition check_ctx : X unit := fun x =>
  let '(c, x) := canceled x in if c : bool then (Err ReContext, x) else (Ok (), x).

(** A call of the operating system, its error looked at or returned. *)
Definition attempt {A} (f : W -> result Z A * W) : X (result Z A) := fun x =>
  let '(r, w) := f (x_world x) in (Ok r, set_world w x).
Definition os {A} (f : W -> result Z A * W) : X A :=
  r ← attempt f; match r with Ok a => mret a | Err e => xfail (ReOS e) end.

Definition warn (name : bytes) (e : warning E) : X unit := xmod (add_warnings name [e]).

(** [w.Apply], its errors passed to [warn]. *)
Definition apply_meta_to (name : bytes) (n : rnode) : X unit := fun x =>
  let '(l, w) := w_Apply name n (x_world x) in (Ok (), add_warnings name (WApply <$> l) (set_world w x)).

(** [clear] *)
Definition clear (name : bytes) (isDir : bool) : X unit :=
  if negb Overwrite then mret () else
  r ← attempt (root_Lstat name);
  match r with
  | Err _ => mret ()
  | Ok true => if isDir then mret () else xfail (ReInTheWay name)
  | Ok false => os (root_Remove name)
  end.

(** [io.Copy] to a file, from a [ctxReader]. *)
Fixpoint copy_loop (fuel : nat) (name : bytes) (f : File) (x : ext) : option copy_error * ext :=
  match fuel with
  | O => (Some CeFuel, x)
  | S fuel =>
      let '(c, x) := canceled x in
      if c : bool then (Some CeContext, x) else
      let '(b, e, src) := c_Read copyBuffer (x_src x) in
      let x := set_src src x in
      let x := if decide (b = []) then x else add_progress name (length b) x in
      let '(werr, x) :=
        if decide (b = []) then (None, x) else
        let '(n, ew, w) := file_Write f b (x_world x) in
        let x := set_world w x in
        if (n <? 0) || (zlen b <? n) then (Some (match ew with Some e => CeWrite e | None => CeInvalidWrite end), x)
        else match ew with
             | Some e => (Some (CeWrite e), x)
             | None => (if n =? zlen b then None else Some CeShortWrite, x)
             end in
      match werr, e with
      | Some we, _ => (Some we, x)
      | None, Some e => (if is_eof e then None else Some (CeRead e), x)
      | None, None => copy_loop fuel name f x
      end
  end.

(** Copy the current content to a file, and close it. *)
Definition copy_close (name : bytes) (f : File) : X unit := fun x =>
  let '(err, x) := copy_loop (c_rounds (x_src x)) name f x in
  let '(cerr, w) := file_Close f (x_world x) in
  let x := set_world w x in
  match err, cerr with
  | Some e, _ => (Err (ReCopy name e), x)
  | None, Some e => (Err (ReCopy name (CeClose e)), x)
  | None, None => (Ok (), x)
  end.

(** [w.Mknod], then the metadata. *)
Definition make_node (name : bytes) (n : rnode) : X unit := fun x =>
  match w_Mknod name n (x_world x) with
  | (Err e, w) => warn name (WMknod e) (set_world w x)
  | (Ok _, w) => apply_meta_to name n (set_world w x)
  end.

(** [entry] *)
Definition restore_entry (n : rnode) (rel : bytes) : X unit :=
  _ ← check_ctx;
  let name := if decide (rel = []) then dot else rel in
  skip ← xget x_skip;
  if negb (bool_decide (skip = [])) && HasPrefix name (skip ++ [slash]) then mret () else
  let typ := Z.land (e_Mode (r_Entry n)) modeTypeMask in
  match (if decide (name = dot) then None else validName (path_Base name)) with
  | Some problem =>
      _ ← warn name (WName problem);
      if typ =? modeDir then xmod (set_skip name) else mret ()
  | None =>
      if r_Hardlink n then
        _ ← clear name false;
        r ← attempt (root_Link (r_LinkTarget n) name);
        match r with Err e => warn name (WHardlink (r_LinkTarget n) e) | Ok _ => mret () end
      else if typ =? modeDir then
        _ ← (if decide (name = dot) then mret () else
             _ ← clear name true;
             r ← attempt (root_Mkdir name 0x1c0);
             match r with Err e => if is_exist e then mret () else xfail (ReOS e) | Ok _ => mret () end);
        xmod (add_dir name n)
      else if typ =? modeRegular then
        _ ← clear name false;
        f ← os (root_Create name 0x180);
        _ ← copy_close name f;
        apply_meta_to name n
      else if typ =? modeSymlink then
        _ ← clear name false;
        r ← attempt (root_Symlink (r_LinkTarget n) name);
        match r with Err e => warn name (WSymlink e) | Ok _ => apply_meta_to name n end
      else
        _ ← clear name false;
        make_node name n
  end.

(** [finish], over the directories from the last to the first. *)
Fixpoint finish_dirs (dirs : list (bytes * rnode)) : X unit :=
  match dirs with
  | [] => mret ()
  | (name, n) :: dirs => _ ← check_ctx; _ ← apply_meta_to name n; finish_dirs dirs
  end.
Definition finish : X unit := fun x => finish_dirs (rev (x_dirs x)) x.

(** [newExtractor] over a world and a source. *)
Definition newExtractor (ctx : option nat) (dir : bytes) (w : W) (src : C) : result restore_error unit * ext :=
  (_ ← os (os_MkdirAll dir 0x1ed);
   _ ← (if Overwrite then mret () : X unit else
        entries ← os (os_ReadDirNames dir);
        match entries with [] => mret () | _ :: _ => xfail ReTargetNotEmpty end);
   os (os_OpenRoot dir)) (mkX w src ctx [] [] [] []).

(** [defer x.root.Close()] *)
Definition closing (r : result restore_error unit * ext) : result restore_error unit * ext :=
  let '(r, x) := r in (r, set_world (root_Close (x_world x)) x).
End restore.

(* ------------------------------------------------------------------ *)
(** ** Extract *)

Section extract.
Context {W File E : Type} `{RootSys W File} `{MetadataWriter W E}.
Variables (Overwrite : bool) (validName : bytes -> option name_problem).

(** The loop over the entries; every [Next] that returns one consumes a
    record, so the length of the stream is fuel. *)
Fixpoint extract_loop (fuel : nat) (x : extractor W E rstate) : result restore_error unit * extractor W E rstate :=
  match fuel with
  | O => (Err ReFuel, x)
  | S fuel =>
      match Next (x_src x) with
      | (Err RdEOF, r) => finish (set_src r x)
      | (Err e, r) => (Err (ReReader e), set_src r x)
      | (Ok n, r) =>
          match restore_entry Overwrite validName n (r_Path n) (set_src r x) with
          | (Err e, x) => (Err e, x)
          | (Ok _, x) => extract_loop fuel x
          end
      end
  end.

Definition Extract (ctx : option nat) (dir : bytes) (w : W) (r : rstate) : result restore_error unit * extractor W E rstate :=
  match newExtractor Overwrite ctx dir w r with
  | (Err e, x) => (Err e, x)
  | (Ok _, x) => closing (extract_loop (S (length (contents (rd_br r)).1)) x)
  end.
End extract.

(* ------------------------------------------------------------------ *)
(** ** ExtractPaths *)

(** [covered] *)
Definition covered (p : bytes) (paths : list bytes) : bool :=
  existsb (fun q => negb (bool_decide (q = p)) && (bool_decide (q = dot) || HasPrefix p (q ++ [slash]))) paths.

(** [Mode().IsRegular()]: no type bit of [fs.ModeType] is set. *)
Definition fs_ModeType : Z := 2 ^ 31 + 2 ^ 27 + 2 ^ 26 + 2 ^ 25 + 2 ^ 24 + 2 ^ 21 + 2 ^ 19.
Definition is_regular (mode : Z) : bool := Z.land mode fs_ModeType =? 0.

Section paths.
Context {W File E : Type} `{RootSys W File} `{MetadataWriter W E} `{SipHash}.
Variables (Overwrite : bool) (validName : bytes -> option name_problem) (fsys : FS).

#[local] Abbreviation XP := (@X W E (option fsFile)).
#[local] Existing Instances X_ret X_bind.

(** The function given to [fs.WalkDir], called without an error. *)
Definition visit (name : bytes) : XP unit :=
  match FsLstat fsys name with
  | Err e => xfail (ReFs e)
  | Ok c =>
      let i := info c in
      content ← (if is_regular (fi_Mode i) then
                   match Open fsys name with Err e => xfail (ReFs e) | Ok f => mret (Some f) end
                 else mret None : XP (option fsFile));
      _ ← xmod (set_src content);
      restore_entry Overwrite validName (fi_Sys i) (if decide (name = dot) then [] else name)
  end.

(** [fs.WalkDir]: the entry, then, in order, the entries of a directory. *)
Fixpoint walk_each (walk : bytes -> bool -> XP unit) (name : bytes) (entries : list fsNode) : XP unit :=
  match entries with
  | [] => mret ()
  | c :: entries => _ ← walk (path_Join name (fn_name c)) (fi_IsDir (info c)); walk_each walk name entries
  end.
Fixpoint walk_dir (fuel : nat) (name : bytes) (isDir : bool) : XP unit :=
  match fuel with
  | O => xfail ReFuel
  | S fuel =>
      _ ← visit name;
      if negb isDir then mret () else
      match ReadDir fsys name with
      | (_, Some e) => xfail (ReFs e)
      | (entries, None) => walk_each (walk_dir fuel) name entries
      end
  end.
(** Directories lie inside each other in the archive, whose size is fuel. *)
Definition WalkDir (root : bytes) : XP unit :=
  match FsStat fsys root with
  | Err e => xfail (ReFs e)
  | Ok c => walk_dir (S (Z.to_nat (fn_end (fs_root fsys)))) root (fi_IsDir (info c))
  end.

(** The loop over the requested paths. *)
Fixpoint extract_each (all paths : list bytes) : XP unit :=
  match paths with
  | [] => mret ()
  | p :: paths =>
      _ ← (if covered p all then mret () else
           let parent := path_Dir p in
           _ ← (if decide (p <> dot /\ parent <> dot) then os (root_MkdirAll parent 0x1ed) else mret ());
           WalkDir p);
      extract_each all paths
  end.

Definition ExtractPaths (ctx : option nat) (paths : list bytes) (dir : bytes) (w : W) :
    result restore_error unit * option (extractor W E (option fsFile)) :=
  match List.find (fun p => negb (fs_ValidPath p)) paths with
  | Some p => (Err (ReInvalidPath p), None)
  | None =>
      match newExtractor Overwrite ctx dir w None with
      | (Err e, x) => (Err e, Some x)
      | (Ok _, x) =>
          let '(r, x) := closing ((_ ← extract_each paths paths; finish) x) in (r, Some x)
      end
  end.
End paths.

(* ------------------------------------------------------------------ *)
(** ** Other platforms (restore/portable.go) *)

Inductive portable_error := PeUnsupportedNode | PeUnsupportedMetadata | PeChmod (e : Z) | PeMtime (e : Z).

Section portable.
Context {W File : Type} `{RootSys W File}.

(** [portableWriter.Mknod] and [portableWriter.Apply] *)
Definition portable_Mknod (name : bytes) (n : rnode) (w : W) : result portable_error unit * W := (Err PeUnsupportedNode, w).
Definition portable_Apply (name : bytes) (n : rnode) (w : W) : list portable_error * W :=
  let l0 := if bool_decide (r_Xattrs n = [] /\ r_ACL n = None /\ r_FCaps n = None) then [] else [PeUnsupportedMetadata] in
  let e := r_Entry n in
  if Z.land (e_Mode e) modeTypeMask =? modeSymlink then (l0, w) else
  let '(r1, w) := root_Chmod name (Z.land (e_Mode e) 0x1ff) w in
  let '(r2, w) := root_Chtimes name (e_MtimeSecs e, e_MtimeNanos e) w in
  (l0 ++ match r1 with Ok _ => [] | Err e => [PeChmod e] end ++ match r2 with Ok _ => [] | Err e => [PeMtime e] end, w).

#[export] Instance portableWriter : MetadataWriter W portable_error := {
  w_Mknod := portable_Mknod; w_Apply := portable_Apply }.
End portable.

(** [validName]: what Windows cannot create.  Only bytes below 0x80 matter,
    so runes and their case mapping can be looked at byte by byte. *)
Definition windows_bad : bytes := [x3c; x3e; x3a; x22; x5c; x7c; x3f; x2a].
Definition to_upper (b : byte) : byte :=
  if (0x61 <=? Z_of_byte b) && (Z_of_byte b <=? 0x7a) then byte_of_Z (Z_of_byte b - 32) else b.
Fixpoint before_dot (s : bytes) : bytes :=
  match s with [] => [] | b :: s => if decide (b = "."%byte) then [] else b :: before_dot s end.
Definition reserved_names : list bytes :=
  lit <$> ["CON"; "PRN"; "AUX"; "NUL"; "COM1"; "COM2"; "COM3"; "COM4"; "COM5"; "COM6"; "COM7"; "COM8"; "COM9";
           "LPT1"; "LPT2"; "LPT3"; "LPT4"; "LPT5"; "LPT6"; "LPT7"; "LPT8"; "LPT9"]%string.
Definition portable_validName (windows : bool) (name : bytes) : option name_problem :=
  if negb windows then None else
  if existsb (fun b => (Z_of_byte b <? 32) || bool_decide (b ∈ windows_bad)) name ||
     bool_decide (last name = Some "."%byte \/ last name = Some " "%byte) then Some NotValidName else
  if bool_decide (before_dot (to_upper <$> name) ∈ reserved_names) then Some ReservedName else None.

(* ------------------------------------------------------------------ *)
(** ** Linux (restore/linux.go) *)

Inductive linux_error := LeMknod (e : Z) | LeApply (a : apply_warning).

#[export] Instance linuxWriter {W Dir Fd} `{WriterSys W Dir Fd} : MetadataWriter W linux_error := {
  w_Mknod name n w :=
    match linux_Mknod name n w with (Ok u, w) => (Ok u, w) | (Err e, w) => (Err (LeMknod e), w) end;
  w_Apply name n w := let '(l, w) := linux_Apply name n w in (LeApply <$> l, w) }.
Definition linux_validName (name : bytes) : option name_problem := None.

Example windows_names :
  portable_validName true (lit "nul.txt") = Some ReservedName /\ portable_validName true (lit "a:b") = Some NotValidName /\
  portable_validName true (lit "null.txt") = None.
Proof. by vm_compute. Qed.
