(* ===== verification/RestoreSpec.v ===== *)
(** * What a restore leaves on disk

    [Extract] over an archive that was emitted, into an empty directory: the
    directory then holds the tree that was archived, with all contents, links
    and metadata, and nothing else.  The behaviour of the target is stated in
    [root_laws], that of a metadata writer in [meta_laws]; [LinuxSpec] proves
    the latter of the Linux writer. *)

From S2P Require Import Prelude Format BinTree Io Tree Payload Reuse Refs Emit Reader ReaderSpec ReaderSafe Glob Previous ArchiveV2 FS FsTree Acl Scan Linux LinuxSpec Restore.
From Stdlib Require Import Strings.Byte.
Local Open Scope Z_scope.

(* ------------------------------------------------------------------ *)
(** ** The order of an archive *)

(** An entry of the tree: archive path and node. *)
Abbreviation entry := (list Byte.byte * node)%type.
Definition is_link (e : entry) : Prop := n_Kind e.2 = KindHardlink.
Definition is_dir (e : entry) : Prop := n_Kind e.2 = KindDirectory.
#[export] Instance is_link_dec e : Decision (is_link e).
Proof. unfold is_link. apply _. Defined.
#[export] Instance is_dir_dec e : Decision (is_dir e).
Proof. unfold is_dir. apply _. Defined.

(** The name an entry is restored under. *)
Definition tpath (ap : bytes) : bytes := if decide (ap = []) then dot else ap.

(** Each entry lies in a directory restored before, under a name of its own. *)
Definition has_parent (done : list entry) (e : entry) : Prop :=
  validatePath e.1 = Ok () /\
  exists d name, d ∈ done /\ is_dir d /\ e.1 = joinArchive d.1 name /\ ValidateFilename name = Ok ().
Definition next_ok (done : list entry) (e : entry) : Prop := ~ e.1 ∈ done.*1 /\ has_parent done e.
Fixpoint in_order (done es : list entry) : Prop :=
  match es with
  | [] => True
  | e :: es => next_ok done e /\ in_order (done ++ [e]) es
  end.

(** The names in a directory are distinct. *)
Definition distinct_names (n : node) : Prop := NoDup (n_Name <$> n_Children n).

Lemma joinArchive_inj p a b : slash ∉ a -> slash ∉ b -> joinArchive p a = joinArchive p b -> a = b.
Proof. intros _ _. unfold joinArchive. case_decide; [done|]. intros E. by simplify_list_eq. Qed.

(** A path below [ap]. *)
Definition below (ap p : bytes) : Prop := ap = [] \/ exists s, p = ap ++ slash :: s.

Lemma joinArchive_below ap name : below ap (joinArchive ap name).
Proof. unfold joinArchive. case_decide; [by left|right]. by exists name. Qed.
Lemma below_trans a b c : below a b -> b <> [] -> below b c -> below a c.
Proof.
  intros [->|[s ->]] Hb [E|[t ->]]; [by left|by left|by destruct a|]. right. exists (s ++ slash :: t). by rewrite <- app_assoc.
Qed.

Lemma flatten_below n : forall ap, tree_all wf_node n -> Forall (fun x => x.1 = ap \/ below ap x.1 /\ x.1 <> []) (flatten n ap).
Proof.
  induction n as [n IH] using node_ind'. intros ap [Hw Hc]. rewrite flatten_eq. constructor; [by left|].
  destruct (n_Kind n); try constructor. rewrite Forall_forall. intros x Hx. apply list_elem_of_bind in Hx as (c & Hx & Hin).
  rewrite Forall_forall in IH, Hc. pose proof (wf_children _ Hw) as Hn. rewrite Forall_forall in Hn. destruct (Hn c Hin) as [Hv _].
  specialize (IH c Hin (joinArchive ap (n_Name c)) (Hc c Hin)). rewrite Forall_forall in IH.
  pose proof (joinArchive_not_nil ap (n_Name c) Hv) as Hne. right.
  destruct (IH x Hx) as [->|[Hb Hx']]; [split; [apply joinArchive_below|done]|].
  split; [|done]. eapply below_trans; [apply joinArchive_below|done|done].
Qed.

(** Entries of different subtrees have different paths. *)
Lemma subtree_paths ap a b p : slash ∉ a -> slash ∉ b -> a <> [] -> b <> [] ->
  (p = joinArchive ap a \/ below (joinArchive ap a) p) -> (p = joinArchive ap b \/ below (joinArchive ap b) p) -> a = b.
Proof.
  intros Ha Hb Hna Hnb H1 H2.
  assert (forall x, x <> [] -> joinArchive ap x <> []) as Hj by (intros x Hx; unfold joinArchive; case_decide; [done|by destruct ap]).
  assert (forall x, (p = joinArchive ap x \/ below (joinArchive ap x) p) -> x <> [] -> exists s, p = joinArchive ap x ++ s /\ (s = [] \/ hd slash s = slash)) as Hs.
  { intros x [->|[E|[s ->]]] Hx; [exists []; by rewrite app_nil_r; auto|by destruct (Hj x Hx)|exists (slash :: s); by auto]. }
  destruct (Hs a H1 Hna) as (s & E1 & S1), (Hs b H2 Hnb) as (t & E2 & S2).
  assert (a ++ s = b ++ t) as E.
  { rewrite E1 in E2. unfold joinArchive in E2. case_decide; [done|]. rewrite <- !app_assoc in E2. by simplify_list_eq. }
  clear -E Ha Hb S1 S2. revert b E Hb. induction a as [|x a IH]; intros [|y b] E Hb; [done|..].
  - cbn in E. subst s. destruct S1 as [|S1]; [done|]. cbn in S1. subst. set_solver.
  - cbn in E. subst t. destruct S2 as [|S2]; [done|]. cbn in S2. subst. set_solver.
  - injection E as -> E. f_equal. apply IH; [set_solver|done|set_solver].
Qed.

Lemma in_order_app done xs ys : in_order done (xs ++ ys) <-> in_order done xs /\ in_order (done ++ xs) ys.
Proof.
  revert done. induction xs as [|x xs IH]; intros done; cbn [in_order app]; [rewrite app_nil_r; tauto|].
  rewrite IH, <- app_assoc. cbn [app]. tauto.
Qed.

(** Nothing of [done] is in the subtree at [ap]. *)
Definition outside (done : list entry) (ap : bytes) : Prop :=
  Forall (fun e => e.1 <> ap /\ ~ (below ap e.1 /\ e.1 <> [])) done.

Lemma below_longer ap name p : name <> [] -> p = joinArchive ap name \/ below (joinArchive ap name) p /\ p <> [] ->
  p <> ap /\ below ap p /\ p <> [].
Proof.
  intros Hn Hp. assert (joinArchive ap name <> []) as Hj by (unfold joinArchive; case_decide; [done|by destruct ap]).
  assert (below ap p /\ p <> []) as [Hb Hne].
  { destruct Hp as [->|[Hb Hp]]; [split; [apply joinArchive_below|done]|]. split; [|done].
    eapply below_trans; [apply joinArchive_below|done|done]. }
  split_and!; [|done|done]. intros ->.
  assert (length ap < length (joinArchive ap name))%nat as Hl.
  { unfold joinArchive. case_decide; [subst; destruct name; [done|cbn; lia]|rewrite !length_app; cbn; lia]. }
  destruct Hp as [E|[[E|[s E]] _]]; [rewrite <- E in Hl; lia|done|]. apply (f_equal length) in E. rewrite length_app in E. lia.
Qed.

Lemma flatten_in_order n : forall ap done, tree_all wf_node n -> tree_all distinct_names n -> outside done ap ->
  safe_path ap -> in_order (done ++ [(ap, n)]) (tail (flatten n ap)).
Proof.
  induction n as [n IH] using node_ind'. intros ap done [Hw Hc] [Hd Hdc] Hout Hsafe. rewrite flatten_eq. cbn [tail].
  destruct (n_Kind n) eqn:Hk; try done. rewrite Forall_forall in IH, Hc, Hdc.
  pose proof (wf_children _ Hw) as Hv. rewrite Forall_forall in Hv. unfold distinct_names in Hd.
  assert (forall cs1 cs2, n_Children n = cs1 ++ cs2 ->
    in_order ((done ++ [(ap, n)]) ++ (cs1 ≫= fun c => flatten c (joinArchive ap (n_Name c))))
      (cs2 ≫= fun c => flatten c (joinArchive ap (n_Name c)))) as Hall.
  2: { specialize (Hall [] (n_Children n) eq_refl). cbn in Hall. by rewrite app_nil_r in Hall. }
  intros cs1 cs2. revert cs1. induction cs2 as [|c cs2 IHc]; intros cs1 E; [done|].
  assert (c ∈ n_Children n) as Hin by (rewrite E; set_solver).
  destruct (Hv c Hin) as [Hvc _]. pose proof (proj1 (ValidateFilename_ok _) Hvc) as (Hne & _ & _ & Hsl & _).
  rewrite bind_cons, in_order_app. split.
  2: { specialize (IHc (cs1 ++ [c])). rewrite bind_app, bind_singleton, app_assoc in IHc. apply IHc. by rewrite <- app_assoc. }
  set (D := (done ++ [(ap, n)]) ++ _). assert (outside D (joinArchive ap (n_Name c))) as HD.
  { apply Forall_app. split; [apply Forall_app; split|].
    - eapply Forall_impl; [exact Hout|]. intros e [_ H2].
      split; intros He; apply H2; destruct (below_longer ap (n_Name c) e.1 Hne) as (_ & ?); auto.
    - constructor; [|done]. split; intros He; destruct (below_longer ap (n_Name c) ap Hne) as (Hx & _); auto.
    - rewrite Forall_forall. intros x (c1 & Hx & Hin1)%list_elem_of_bind.
      assert (c1 ∈ n_Children n) as Hin1' by (rewrite E; set_solver).
      destruct (Hv c1 Hin1') as [Hv1 _]. pose proof (proj1 (ValidateFilename_ok _) Hv1) as (Hne1 & _ & _ & Hsl1 & _).
      pose proof (flatten_below c1 (joinArchive ap (n_Name c1)) (Hc c1 Hin1')) as Hf. rewrite Forall_forall in Hf.
      assert (n_Name c1 <> n_Name c) as Hneq.
      { intros He. rewrite E, fmap_app, fmap_cons in Hd. apply NoDup_app in Hd as (_ & Hd & _).
        apply (Hd (n_Name c1)); [apply list_elem_of_fmap; eauto|rewrite He; set_solver]. }
      split; [intros He|intros [He _]]; apply Hneq, (subtree_paths ap _ _ x.1 Hsl1 Hsl Hne1 Hne); auto;
        destruct (Hf x Hx) as [|[]]; auto. }
  rewrite flatten_eq. cbn [in_order]. split.
  - unfold next_ok, has_parent. split_and!; cbn [fst].
    + intros (e & He & Hin')%list_elem_of_fmap. unfold outside in HD. rewrite Forall_forall in HD. by destruct (HD e Hin').
    + apply (safe_join ap (n_Name c)) in Hsafe; [|by unfold validate_name; rewrite Hvc].
      unfold joinArchive. exact Hsafe.
    + exists (ap, n), (n_Name c). split_and!; try done. unfold D. set_solver.
  - pose proof (IH c Hin (joinArchive ap (n_Name c)) D (Hc c Hin) (Hdc c Hin) HD) as Hc'. rewrite flatten_eq in Hc'. apply Hc'.
    apply (safe_join ap (n_Name c)) in Hsafe; [|by unfold validate_name; rewrite Hvc]. right. exact Hsafe.
Qed.

(* ------------------------------------------------------------------ *)
(** ** The behaviour of the target *)

(** An empty target: its root, with no attributes. *)
Definition empty_target (F : fsys) : Prop :=
  exists k i, f_names F = {[ dot := k ]} /\ f_inodes F = {[ k := i ]} /\ i_kind i = modeDir /\ i_data i = [] /\
    i_rdev i = zeroDevice /\ i_xattrs i = ∅.

(** The documented behaviour of [os.Root] below a target only the restore
    changes, on a system with room: [view] is the file system below it and
    [file_ino] the inode of a file it created. *)
Record root_laws {W File : Type} `{RootSys W File} (view : W -> fsys) (file_ino : File -> nat) : Prop := {
  ro_Mkdir p perm w : can_create (view w) p ->
    exists w' k i, root_Mkdir p perm w = (Ok (), w') /\ creates (view w) p k i (view w') /\ new_inode i modeDir [] zeroDevice;
  ro_Create p perm w : can_create (view w) p ->
    exists f w' i, root_Create p perm w = (Ok f, w') /\ creates (view w) p (file_ino f) i (view w') /\
      new_inode i modeRegular [] zeroDevice;
  ro_Write f b w i c : f_inodes (view w) !! file_ino f = Some i -> new_inode i modeRegular c zeroDevice ->
    exists w' i', file_Write f b w = (zlen b, None, w') /\ view w' = f_set (view w) (file_ino f) i' /\
      new_inode i' modeRegular (c ++ b) zeroDevice;
  ro_Close f w : exists w', file_Close f w = (None, w') /\ view w' = view w;
  ro_Symlink target p w : can_create (view w) p -> target <> [] ->
    exists w' k i, root_Symlink target p w = (Ok (), w') /\ creates (view w) p k i (view w') /\
      new_inode i modeSymlink target zeroDevice /\ i_perm i = 0x1ff;
  ro_Link old p w k i : can_create (view w) p -> f_at (view w) old = Some (k, i) -> i_kind i <> modeDir ->
    exists w', root_Link old p w = (Ok (), w') /\ f_names (view w') = <[p := k]> (f_names (view w)) /\
      forall k', option_Forall2 touched (f_inodes (view w) !! k') (f_inodes (view w') !! k');
  ro_Close_root w : view (root_Close w) = view w }.

(** What a [MetadataWriter] promises: it makes special files, and applies the
    metadata of the nodes it can restore ([ok], a matter of metadata alone)
    to a new entry, without a warning. *)
Record meta_laws {W E : Type} `{MetadataWriter W E} (view : W -> fsys) (ok : rnode -> Prop) : Prop := {
  ml_Mknod name n w : can_create (view w) name -> node_type n ∈ [modeBlockDev; modeCharDev; modeFifo; modeSocket] ->
    ok n -> dev_ok (r_Device n) ->
    exists w' k i, w_Mknod name n w = (Ok (), w') /\ creates (view w) name k i (view w') /\
      new_inode i (node_type n) [] (r_Device n);
  ml_Apply name n w k i : target_path name -> f_dir (view w) (if decide (name = dot) then dot else path_Dir name) ->
    f_at (view w) name = Some (k, i) -> i_kind i = node_type n -> i_xattrs i = ∅ ->
    (node_type n = modeSymlink -> i_perm i = node_perm n) -> ok n ->
    exists w', w_Apply name n w = ([], w') /\ view w' = f_set (view w) k (with_metadata n i) }.

(** The Linux writer keeps the promise. *)
Lemma linux_meta_laws {W Dir Fd : Type} `{WriterSys W Dir Fd} view dir_path fd_ino accepts accepts_time :
  writer_laws (W := W) view dir_path fd_ino accepts accepts_time ->
  meta_laws (W := W) (E := linux_error) view (restorable accepts accepts_time).
Proof.
  intros Hl. constructor.
  - intros name n w Hc Ht Hr Hd.
    destruct (linux_Mknod_creates view dir_path fd_ino accepts accepts_time Hl name n w Hc Ht (rs_mode _ _ _ Hr) Hd) as (w' & k & i & E & C & N).
    exists w', k, i. cbn. by rewrite E.
  - intros name n w k i Hp Hd Hat Hk Hx Hs Hr.
    destruct (linux_Apply_sets view dir_path fd_ino accepts accepts_time Hl name n w k i) as (w' & E & V); try done.
    exists w'. cbn. by rewrite E.
Qed.

Lemma in_order_nodup es : forall done, NoDup done.*1 -> in_order done es -> NoDup (done ++ es).*1.
Proof.
  induction es as [|e es IH]; intros done Hd Ho; [by rewrite app_nil_r|]. destruct Ho as [(Hn & _) Ho].
  rewrite (app_assoc done [e] es : done ++ e :: es = _). apply IH; [|done]. rewrite fmap_app. apply NoDup_app. split_and!; [done|set_solver|apply NoDup_singleton].
Qed.

(** What [in_order] says of every entry but the first ones. *)
Lemma in_order_parent es : forall done, in_order done es -> Forall (has_parent (done ++ es)) es.
Proof.
  induction es as [|e es IH]; intros done Ho; [by constructor|]. destruct Ho as [(_ & Hv & d & name & Hd & Hrest) Ho].
  constructor. { split; [done|]. exists d, name. split; [set_solver|done]. }
  specialize (IH _ Ho). by rewrite <- app_assoc in IH.
Qed.

(* ------------------------------------------------------------------ *)
(** ** The target while an archive is extracted *)

Definition pr (it : item) : entry := (it_path it, it_node it).
Definition linked (it : item) : bool := bool_decide (is_link (pr it)).

(** What a node can be restored with: metadata the writer applies, device
    numbers that fit, the permissions every symlink has. *)
Record fits (ok : rnode -> Prop) (n : node) : Prop := {
  ft_meta : forall it, it_node it = n -> (forall off, it_data it <> DLink off) -> ok (decode_item false it);
  ft_dev : dev_ok (st_Rdev (n_Stat n));
  ft_symlink : n_Kind n = KindSymlink -> Z.land (st_Mode (n_Stat n)) 0xfff = 0x1ff }.

(** The restored target: every entry of the archive under its path, with an
    inode of its own or, a hardlink, that of its file; nothing else. *)
Section target.
Variable pc : Z -> Z -> bytes.

(** The content, or link target, of an entry. *)
Definition object_data (it : item) : bytes :=
  if is_payload (n_Kind (it_node it)) then item_content pc it
  else if decide (n_Kind (it_node it) = KindSymlink) then n_LinkTarget (it_node it) else [].

(** The inode of a restored entry. *)
Definition restored (it : item) : inode :=
  let n := decode_item false it in
  with_metadata n (mkInode (node_type n) 0 0 0 (0, 0) (r_Device n) (object_data it) ∅).

(** The inode of an entry; a directory gets its metadata last. *)
Definition good (finished : list bytes) (it : item) (i : inode) : Prop :=
  if decide (is_dir (pr it) /\ it_path it ∉ finished) then new_inode i modeDir [] zeroDevice else i = restored it.

(** The entries [done] are in the target [F]: those that are not hardlinks
    with an inode each, as [P] lists them, and there is nothing else. *)
Record holds (finished : list bytes) (done : list item) (P : list (item * nat)) (F : fsys) : Prop := {
  hd_items : P.*1 = filter (fun it => linked it = false) done;
  hd_distinct : NoDup P.*2;
  hd_names : forall p, is_Some (f_names F !! p) <-> p ∈ (fun it => tpath (it_path it)) <$> done;
  hd_at : forall it k, (it, k) ∈ P -> f_names F !! tpath (it_path it) = Some k /\
    exists i, f_inodes F !! k = Some i /\ good finished it i;
  hd_inodes : forall k, is_Some (f_inodes F !! k) -> k ∈ P.*2;
  hd_links : forall it, it ∈ done -> linked it = true ->
    f_names F !! tpath (it_path it) = f_names F !! tpath (n_LinkTarget (it_node it)) }.

Lemma tpath_inj p q : validatePath p = Ok () \/ p = [] -> validatePath q = Ok () \/ q = [] -> tpath p = tpath q -> p = q.
Proof.
  assert (forall p, validatePath p = Ok () -> p <> dot) as Hd.
  { intros x Hx ->. apply validate_all_ok, Forall_cons in Hx as [(_ & ? & _)%ValidateFilename_ok _]. done. }
  unfold tpath. intros Hp Hq. repeat case_decide; subst; auto; intros; subst; exfalso;
    destruct Hp as [Hp|Hp], Hq as [Hq|Hq]; try done; by eapply Hd.
Qed.

Lemma good_touched finished it i i' : good finished it i -> touched i i' ->
  (is_dir (pr it) -> it_path it ∉ finished) -> (~ is_dir (pr it) -> i_kind i <> modeDir) -> good finished it i'.
Proof.
  unfold good. intros Hg ((Hk & Hd & Hr) & Hx & Hsame) Hfin Hnd. case_decide as Hdir.
  - destruct Hg as (? & ? & ? & ?). unfold new_inode. rewrite Hk, Hd, Hr, Hx. done.
  - rewrite Hsame; [done|]. apply Hnd. intros Hi. apply Hdir. auto.
Qed.

(** The kinds of the inodes are those of the nodes. *)
Definition kinds_ok (it : item) : Prop := linked it = false -> ~ is_dir (pr it) -> i_kind (restored it) <> modeDir.

(** A new entry, finished but for directories. *)
Lemma holds_create done P F it k i F1 i' :
  holds [] done P F -> Forall kinds_ok done -> f_names F !! tpath (it_path it) = None -> linked it = false ->
  creates F (tpath (it_path it)) k i F1 -> good [] it i' ->
  holds [] (done ++ [it]) (P ++ [(it, k)]) (f_set F1 k i').
Proof.
  intros [H1 H2 H3 H4 H5 H6] Hkinds Hnew Hl (Hn & Hk & Hk1 & Ht) Hg. set (p := tpath (it_path it)) in *.
  assert (k ∉ P.*2) as Hkn.
  { intros ([x k'] & -> & Hin)%list_elem_of_fmap. destruct (H4 x k' Hin) as (_ & i0 & Hi & _). cbn in Hk. congruence. }
  assert (forall q, is_Some (f_names F !! q) -> q <> p) as Hqp by (intros q [x Hq] ->; congruence).
  constructor; cbn [f_set f_names f_inodes].
  - by rewrite fmap_app, filter_app, H1, filter_cons_True.
  - rewrite fmap_app. apply NoDup_app. split_and!; [done|set_solver|apply NoDup_singleton].
  - intros q. rewrite Hn, fmap_app, elem_of_app, <- H3. cbn [fmap list_fmap]. rewrite list_elem_of_singleton.
    fold p. destruct (decide (q = p)) as [->|Hq]; [rewrite lookup_insert_eq; split; eauto|].
    rewrite lookup_insert_ne by done. split; [by left|]. by intros [?|?].
  - intros x kx [Hin|Hin]%elem_of_app.
    + destruct (H4 x kx Hin) as (Hx & i0 & Hi & Hgx).
      assert (kx <> k) as Hne by (intros ->; congruence). rewrite Hn, lookup_insert_ne by (apply not_eq_sym, Hqp; eauto).
      split; [done|]. rewrite lookup_insert_ne by done. specialize (Ht kx Hne). rewrite Hi in Ht. inversion Ht as [? i1 Htouch Ha Hb|]; subst.
      exists i1. split; [done|]. eapply good_touched; [exact Hgx|done|intros _; by apply not_elem_of_nil|].
      intros Hnd. assert (x ∈ P.*1) as Hxp by (apply list_elem_of_fmap; by exists (x, kx)).
      rewrite H1 in Hxp. apply list_elem_of_filter in Hxp as [Hlx Hxd].
      unfold good in Hgx. rewrite decide_False in Hgx by tauto. rewrite Hgx.
      rewrite Forall_forall in Hkinds. by apply Hkinds.
    + apply list_elem_of_singleton in Hin as [= -> ->]. rewrite Hn, lookup_insert_eq, lookup_insert_eq. split; [done|]. by exists i'.
  - intros q. rewrite fmap_app, elem_of_app. cbn [fmap list_fmap]. rewrite list_elem_of_singleton.
    destruct (decide (q = k)) as [->|Hq]; [by right|]. rewrite lookup_insert_ne by done. specialize (Ht q Hq).
    intros [x Hx]. left. apply H5. rewrite Hx in Ht. inversion Ht; subst. by eexists.
  - intros x [Hin|Hin]%elem_of_app Hlx; [|apply list_elem_of_singleton in Hin as ->; congruence].
    pose proof (H6 x Hin Hlx) as Hx. assert (is_Some (f_names F !! tpath (it_path x))) as Hsx.
    { apply H3, list_elem_of_fmap. by exists x. }
    rewrite Hn, !lookup_insert_ne; [done|apply not_eq_sym, Hqp; by rewrite <- Hx|by apply not_eq_sym, Hqp].
Qed.

(** A new name for the inode of an earlier file. *)
Lemma holds_link done P F it k F1 :
  holds [] done P F -> Forall kinds_ok done -> f_names F !! tpath (it_path it) = None -> linked it = true ->
  f_names F !! tpath (n_LinkTarget (it_node it)) = Some k ->
  f_names F1 = <[tpath (it_path it) := k]> (f_names F) ->
  (forall k', option_Forall2 touched (f_inodes F !! k') (f_inodes F1 !! k')) ->
  holds [] (done ++ [it]) P F1.
Proof.
  intros [H1 H2 H3 H4 H5 H6] Hkinds Hnew Hl Htg Hn Ht. set (p := tpath (it_path it)) in *.
  assert (forall q, is_Some (f_names F !! q) -> q <> p) as Hqp by (intros q [x Hq] ->; congruence).
  constructor.
  - rewrite filter_app, filter_cons_False by congruence. by rewrite app_nil_r.
  - done.
  - intros q. rewrite Hn, fmap_app, elem_of_app, <- H3. cbn [fmap list_fmap]. rewrite list_elem_of_singleton.
    fold p. destruct (decide (q = p)) as [->|Hq]; [rewrite lookup_insert_eq; split; eauto|].
    rewrite lookup_insert_ne by done. split; [by left|]. by intros [?|?].
  - intros x kx Hin. destruct (H4 x kx Hin) as (Hx & i0 & Hi & Hgx). rewrite Hn, lookup_insert_ne by (apply not_eq_sym, Hqp; eauto).
    split; [done|]. specialize (Ht kx). rewrite Hi in Ht. inversion Ht as [? i1 Htouch Ha Hb|]; subst.
    exists i1. split; [done|]. eapply good_touched; [exact Hgx|done|intros _; by apply not_elem_of_nil|].
    intros Hnd. assert (x ∈ P.*1) as Hxp by (apply list_elem_of_fmap; by exists (x, kx)).
    rewrite H1 in Hxp. apply list_elem_of_filter in Hxp as [Hlx Hxd].
    unfold good in Hgx. rewrite decide_False in Hgx by tauto. rewrite Hgx. rewrite Forall_forall in Hkinds. by apply Hkinds.
  - intros q [x Hx]. apply H5. specialize (Ht q). rewrite Hx in Ht. inversion Ht; subst. by eexists.
  - intros x [Hin|Hin]%elem_of_app Hlx.
    + pose proof (H6 x Hin Hlx) as Hx. assert (is_Some (f_names F !! tpath (it_path x))) as Hsx.
      { apply H3, list_elem_of_fmap. by exists x. }
      rewrite Hn, !lookup_insert_ne; [done|apply not_eq_sym, Hqp; by rewrite <- Hx|by apply not_eq_sym, Hqp].
    + apply list_elem_of_singleton in Hin as ->. rewrite Hn. fold p. rewrite lookup_insert_eq, lookup_insert_ne; [done|].
      apply not_eq_sym, Hqp. by eexists.
Qed.

(** A directory gets its metadata. *)
Lemma holds_finish fin done P F it k i :
  holds fin done P F -> (it, k) ∈ P -> is_dir (pr it) -> it_path it ∉ fin ->
  f_inodes F !! k = Some i -> new_inode i modeDir [] zeroDevice /\
  (node_type (decode_item false it) = modeDir -> r_Device (decode_item false it) = zeroDevice ->
   holds (it_path it :: fin) done P (f_set F k (with_metadata (decode_item false it) i))).
Proof.
  intros [H1 H2 H3 H4 H5 H6] Hin Hd Hf Hi. destruct (H4 it k Hin) as (Hat & i0 & Hi0 & Hg).
  assert (i0 = i) as -> by congruence. unfold good in Hg. rewrite decide_True in Hg by done.
  split; [done|]. intros Ht Hr. destruct Hg as (Hk1 & Hd1 & Hr1 & Hx1).
  assert (with_metadata (decode_item false it) i = restored it) as ->.
  { unfold restored, with_metadata. cbn [i_kind i_rdev i_data]. rewrite Hk1, Hd1, Hr1, Ht, Hr.
    assert (object_data it = []) as ->; [|done]. unfold object_data. unfold is_dir, pr in Hd. cbn in Hd. by rewrite Hd. }
  constructor; cbn [f_set f_names f_inodes]; try done.
  - intros x kx Hx. destruct (H4 x kx Hx) as (Hn & ix & Hix & Hgx). split; [done|].
    destruct (decide (kx = k)) as [->|Hne].
    + assert (x = it) as ->.
      { apply list_elem_of_lookup in Hin as [a Ha], Hx as [b Hb].
        assert (a = b) as ->; [|congruence]. apply (NoDup_lookup P.*2 a b k H2); rewrite list_lookup_fmap, ?Ha, ?Hb; done. }
      rewrite lookup_insert_eq. eexists. split; [done|]. unfold good. rewrite decide_False; [done|]. set_solver.
    + rewrite lookup_insert_ne by done. exists ix. split; [done|]. unfold good in *.
      assert (it_path x <> it_path it) as Hp by (intros He; apply Hne; rewrite He in Hn; congruence).
      rewrite (decide_ext (is_dir (pr x) /\ it_path x ∉ it_path it :: fin) (is_dir (pr x) /\ it_path x ∉ fin)); [done|].
      rewrite not_elem_of_cons. tauto.
  - intros q. destruct (decide (q = k)) as [->|Hne]; [|rewrite lookup_insert_ne by done; apply H5].
    intros _. apply list_elem_of_fmap. by exists (it, k).
Qed.
End target.

(* ------------------------------------------------------------------ *)
(** ** One entry *)

Section entries.
Context {W File E : Type} `{RootSys W File} `{MetadataWriter W E}.
Variables (view : W -> fsys) (file_ino : File -> nat) (ok : rnode -> Prop).
Hypothesis rlaws : root_laws view file_ino.
Hypothesis mlaws : meta_laws (W := W) (E := E) view ok.
Variables (v : Z) (pay : option readerAt) (pc : Z -> Z -> bytes).
Hypothesis Hpay : v = 1 \/ pay <> None.
Variable validName : bytes -> option name_problem.
Hypothesis Hnames : forall name, validName name = None.

#[local] Abbreviation ext := (extractor W E rstate).

(** All but the world, the source and the progress reported. *)
Definition same_rest (x x' : ext) : Prop :=
  x_ctx x' = x_ctx x /\ x_dirs x' = x_dirs x /\ x_skip x' = x_skip x /\ x_warned x' = x_warned x.
#[local] Instance same_rest_refl : Reflexive same_rest.
Proof. by intros x. Qed.
#[local] Instance same_rest_trans : Transitive same_rest.
Proof. intros x y z (?&?&?&?) (?&?&?&?). repeat split; congruence. Qed.

Lemma pend_no_err D s r c : pend v pay false D s r c -> rd_content r <> CErr.
Proof. intros (_ & Hl & _) Ec. unfold has_left in Hl. rewrite Ec in Hl. destruct Hl, Hpay; [lia|done]. Qed.

(** The content of a file is copied in full. *)
Lemma copy_ok name f : forall fuel x D s c c0 i, x_ctx x = None -> pend v pay false D s (x_src x) c ->
  (rsize (rd_br (x_src x)) + Z.to_nat (rd_left (x_src x)) < fuel)%nat ->
  f_inodes (view (x_world x)) !! file_ino f = Some i -> new_inode i modeRegular c0 zeroDevice ->
  exists x' i', copy_loop (E := E) fuel name f x = (None, x') /\ same_rest x x' /\ pend v pay false D s (x_src x') [] /\
    view (x_world x') = f_set (view (x_world x)) (file_ino f) i' /\ new_inode i' modeRegular (c0 ++ c) zeroDevice.
Proof.
  intros fuel. induction fuel as [|fuel IH]; intros x D s c c0 i Hctx Hp Hf Hi Hn; [lia|]. cbn [copy_loop].
  unfold canceled. rewrite Hctx. cbn [c_Read reader_content]. destruct (decide (c = [])) as [->|Hne].
  - assert (rd_left (x_src x) = 0) as Hl0.
    { pose proof (pend_no_err _ _ _ _ Hp) as Hce. destruct Hp as (_ & Hl & _). unfold has_left in Hl. by destruct (rd_content (x_src x)); try apply Hl. }
    unfold RRead. rewrite Hl0. rewrite !decide_True by done. cbn. eexists _, i. split; [reflexivity|]. split; [done|]. split; [done|].
    rewrite app_nil_r. split; [|done]. by rewrite f_set_id.
  - destruct (RRead_step v pay false D s (x_src x) c copyBuffer Hp) as (b & c' & r1 & -> & -> & Hp1 & _ & Hlt);
      [by eapply pend_no_err|unfold copyBuffer; lia|done|].
    destruct (decide (b = [])) as [->|Hb].
    + cbn [fmap option_fmap option_map]. destruct (IH (set_src r1 x) D s c' c0 i) as (x' & i' & -> & Hs & Hrest); try done; [cbn; lia|].
      exists x', i'. split; [done|]. split; [|done]. by etrans; [|exact Hs].
    + cbn [x_world set_src add_progress].
      destruct (ro_Write _ _ rlaws f b (x_world x) i c0 Hi Hn) as (w' & i1 & -> & V1 & N1).
      assert ((zlen b <? 0) || (zlen b <? zlen b) = false) as -> by (rewrite Z.ltb_irrefl; apply orb_false_iff; split; [apply Z.ltb_ge; lia|done]).
      rewrite Z.eqb_refl. cbn [fmap option_fmap option_map].
      destruct (IH (set_world w' (add_progress name (length b) (set_src r1 x))) D s c' (c0 ++ b) i1) as (x' & i' & -> & Hs & Hp' & V' & N');
        [done|done|cbn; lia|cbn; by rewrite V1, f_set_inode|done|].
      exists x', i'. split; [done|]. split; [by etrans; [|exact Hs]|]. split; [done|]. cbn [x_world set_world] in V'.
      split; [by rewrite V', V1, f_set_set|]. by rewrite <- app_assoc in N'.
Qed.

(** What a node carries in an archive. *)
Definition item_class (it : item) : Prop :=
  match it_data it with
  | DLink _ => n_Kind (it_node it) = KindHardlink
  | DContent _ | DRef _ _ => is_payload (n_Kind (it_node it)) = true
  | DNone => is_payload (n_Kind (it_node it)) = false /\ n_Kind (it_node it) <> KindHardlink
  end.
Record item_fits (it : item) : Prop := {
  if_wf : wf_node (it_node it); if_fits : fits ok (it_node it); if_class : item_class it }.

Lemma not_link_data it : item_class it -> linked it = false -> forall off, it_data it <> DLink off.
Proof.
  unfold item_class, linked, is_link, pr. cbn. intros Hc Hl%bool_decide_eq_false off Ed. by rewrite Ed in Hc.
Qed.
Lemma decode_nonlink it : item_class it -> linked it = false ->
  r_Hardlink (decode_item false it) = false /\ r_Entry (decode_item false it) = metaEntry (it_node it) /\
  r_LinkTarget (decode_item false it) = (if decide (n_Kind (it_node it) = KindSymlink) then n_LinkTarget (it_node it) else []) /\
  r_Device (decode_item false it) = (if decide (n_Kind (it_node it) = KindBlockDevice \/ n_Kind (it_node it) = KindCharDevice)
    then st_Rdev (n_Stat (it_node it)) else zeroDevice).
Proof.
  intros Hc Hl. pose proof (not_link_data it Hc Hl) as Hd. unfold decode_item.
  destruct (it_data it) as [| | |off]; try done. by destruct (Hd off).
Qed.
Lemma nonlink_type it : item_fits it -> linked it = false -> node_type (decode_item false it) = kind_mode (n_Kind (it_node it)).
Proof.
  intros [Hw _ Hc] Hl. destruct (decode_nonlink it Hc Hl) as (_ & He & _). unfold node_type. rewrite He. apply (wf_mode _ Hw).
Qed.
Lemma dir_not_linked it : is_dir (pr it) -> linked it = false.
Proof. unfold linked. intros Hd. apply bool_decide_eq_false. unfold is_link, is_dir in *. by rewrite Hd. Qed.
Lemma fits_kinds it : item_fits it -> kinds_ok pc it.
Proof.
  intros Hf Hl Hd. unfold restored. cbn [with_metadata i_kind]. rewrite (nonlink_type it Hf Hl).
  unfold is_dir, pr in Hd. cbn in Hd. by destruct (n_Kind (it_node it)).
Qed.

(** Extraction has come past the entries [done]. *)
Record extracted (done : list item) (P : list (item * nat)) (x : ext) : Prop := {
  ex_ctx : x_ctx x = None;
  ex_skip : x_skip x = [];
  ex_dirs : x_dirs x = (fun it => (tpath (it_path it), decode_item false it)) <$> filter (fun it => is_dir (pr it)) done;
  ex_warned : x_warned x = [];
  ex_items : Forall item_fits done;
  ex_paths : Forall (fun it => safe_path (it_path it)) done;
  ex_holds : holds pc [] done P (view (x_world x)) }.

Lemma path_Dir_join d name : safe_path d -> ValidateFilename name = Ok () -> path_Dir (joinArchive d name) = tpath d.
Proof.
  intros Hd Hv. pose proof (proj1 (ValidateFilename_ok _) Hv) as (_ & _ & _ & Hs & _).
  unfold path_Dir, joinArchive, tpath. case_decide as Hn.
  - by rewrite from_slash_none.
  - rewrite from_slash_rev by done. cbn [rev]. rewrite rev_involutive. apply clean_valid. by destruct Hd.
Qed.

Lemma tpath_valid p : validatePath p = Ok () -> tpath p = p /\ p <> dot.
Proof.
  intros Hv. split.
  - unfold tpath. rewrite decide_False; [done|]. intros ->. by apply validate_all_ok, Forall_cons in Hv as [(? & _)%ValidateFilename_ok _].
  - intros ->. by apply validate_all_ok, Forall_cons in Hv as [(_ & ? & _)%ValidateFilename_ok _].
Qed.

(** The name of the next entry is free, its directory is there. *)
Lemma next_can_create done P x it : extracted done P x -> next_ok (pr <$> done) (pr it) ->
  can_create (view (x_world x)) (tpath (it_path it)) /\ it_path it <> [] /\ tpath (it_path it) = it_path it /\ it_path it <> dot.
Proof.
  intros Hx (Hnew & Hv & d & name & Hd & Hdir & Hp & Hvn). cbn [pr fst] in *. destruct (tpath_valid _ Hv) as [Et Hdot].
  assert (it_path it <> []) as Hne by (rewrite Hp; by apply joinArchive_not_nil).
  split_and!; try done. apply list_elem_of_fmap in Hd as (di & -> & Hdi). cbn [pr fst snd] in *.
  pose proof (ex_paths _ _ _ Hx) as Hpaths. rewrite Forall_forall in Hpaths.
  pose proof (ex_holds _ _ _ Hx) as Hh. rewrite Et. split_and!; [done| |].
  - destruct (f_names (view (x_world x)) !! it_path it) as [k|] eqn:En; [|done]. exfalso.
    assert (it_path it ∈ (fun it => tpath (it_path it)) <$> done) as Hin by (apply (hd_names _ _ _ _ _ Hh); by exists k).
    apply list_elem_of_fmap in Hin as (y & Hy & Hyin). apply Hnew. apply list_elem_of_fmap. exists (pr y). split; [|apply list_elem_of_fmap; eauto].
    cbn. rewrite <- Et in Hy. apply tpath_inj in Hy; [done|by left|]. destruct (Hpaths y Hyin); auto.
  - rewrite Hp, path_Dir_join by auto.
    assert (di ∈ P.*1) as HP. { rewrite (hd_items _ _ _ _ _ Hh). apply list_elem_of_filter. split; [by apply dir_not_linked|done]. }
    apply list_elem_of_fmap in HP as ([di' k] & -> & HP). destruct (hd_at _ _ _ _ _ Hh _ _ HP) as (Hn & i & Hi & Hg). cbn [fst] in *.
    exists k, i. unfold f_at. rewrite Hn. cbn. rewrite Hi. cbn. split; [done|]. unfold good in Hg.
    rewrite decide_True in Hg by (split; [done|apply not_elem_of_nil]). by destruct Hg as (? & _ & _ & ?).
Qed.

Lemma creates_at F p k i F1 : creates F p k i F1 -> f_at F1 p = Some (k, i).
Proof. intros (Hn & _ & Hk & _). unfold f_at. rewrite Hn, lookup_insert_eq. cbn. by rewrite Hk. Qed.
Lemma creates_dir F p k i F1 q : creates F p k i F1 -> f_names F !! p = None -> f_dir F q -> f_dir F1 q.
Proof.
  intros (Hn & Hk & _ & Ht) Hp (kq & iq & Hat & Hd). pose proof (f_at_inode _ _ _ _ Hat) as Hi.
  assert (f_names F !! q = Some kq) as Hq.
  { unfold f_at in Hat. destruct (f_names F !! q) as [k0|] eqn:E0; [|done]. cbn in Hat. destruct (f_inodes F !! k0); [|done]. cbn in Hat. congruence. }
  assert (kq <> k) as Hne by congruence. specialize (Ht kq Hne). rewrite Hi in Ht. inversion Ht as [? i1 ((Hk1 & _) & _) Ha Hb|]; subst.
  exists kq, i1. split; [|congruence]. unfold f_at. rewrite Hn, lookup_insert_ne by congruence. rewrite Hq. cbn. by rewrite <- Hb.
Qed.
Lemma new_restored it i : new_inode i (node_type (decode_item false it)) (object_data pc it) (r_Device (decode_item false it)) ->
  with_metadata (decode_item false it) i = restored pc it.
Proof. intros (Hk & Hd & Hr & _). unfold restored, with_metadata. cbn. by rewrite Hk, Hd, Hr. Qed.
Lemma f_set_creates F p k i F1 i' : creates F p k i F1 -> creates F p k i' (f_set F1 k i').
Proof.
  intros (Hn & Hk & _ & Ht). split_and!; cbn [f_set f_names f_inodes]; [done|done|apply lookup_insert_eq|].
  intros k' Hk'. rewrite lookup_insert_ne by done. by apply Ht.
Qed.

(** The metadata of an entry just made is applied to it alone. *)
Lemma apply_new it k i F x : item_fits it -> linked it = false -> can_create F (it_path it) ->
  creates F (it_path it) k i (view (x_world x)) ->
  new_inode i (node_type (decode_item false it)) (object_data pc it) (r_Device (decode_item false it)) ->
  (n_Kind (it_node it) = KindSymlink -> i_perm i = 0x1ff) ->
  exists x' : ext, apply_meta_to (it_path it) (decode_item false it) x = (Ok (), x') /\ same_rest x x' /\ x_src x' = x_src x /\
    view (x_world x') = f_set (view (x_world x)) k (restored pc it).
Proof.
  intros Hf Hl Hcan Hcr Hn Hs. pose proof Hcan as (Hv & Hfree & kp & ip & Hat & Hk & _). destruct (tpath_valid _ Hv) as [_ Hdot].
  pose proof (nonlink_type it Hf Hl) as Ht. pose proof Hf as [Hw Hfit Hc].
  destruct (ml_Apply _ _ mlaws (it_path it) (decode_item false it) (x_world x) k i) as (w' & E1 & V1).
  - by right.
  - rewrite decide_False by done. eapply creates_dir; [exact Hcr|done|]. by exists kp, ip.
  - by eapply creates_at.
  - apply Hn.
  - apply Hn.
  - intros Hsym. rewrite Ht in Hsym. assert (n_Kind (it_node it) = KindSymlink) as Hks by (by destruct (n_Kind (it_node it))).
    rewrite Hs by done. destruct (decode_nonlink it Hc Hl) as (_ & He & _). unfold node_perm. rewrite He. symmetry. by apply (ft_symlink _ _ Hfit).
  - apply (ft_meta _ _ Hfit); [done|by apply not_link_data].
  - unfold apply_meta_to. rewrite E1. eexists. split; [reflexivity|]. cbn. split; [|split; [done|]].
    + repeat split. cbn. by rewrite app_nil_r.
    + by rewrite V1, new_restored.
Qed.

(** The state after an entry that is not a hardlink. *)
Lemma extracted_step done P x (x' : ext) it k i : extracted done P x -> next_ok (pr <$> done) (pr it) -> item_fits it -> linked it = false ->
  creates (view (x_world x)) (it_path it) k i (view (x_world x')) -> good pc [] it i ->
  x_ctx x' = x_ctx x -> x_skip x' = x_skip x -> x_warned x' = x_warned x ->
  x_dirs x' = x_dirs x ++ (if decide (is_dir (pr it)) then [(it_path it, decode_item false it)] else []) ->
  extracted (done ++ [it]) (P ++ [(it, k)]) x'.
Proof.
  intros Hx Hnext Hf Hl Hcr Hg Hctx Hskip Hwarn Hdirs. destruct (next_can_create done P x it Hx Hnext) as (Hcan & Hne & Et & _).
  destruct Hx as [X1 X2 X3 X4 X5 X6 X7]. constructor; try congruence.
  - rewrite Hdirs, X3, filter_app, fmap_app. f_equal. rewrite filter_cons, filter_nil. case_decide; [|done]. cbn. by rewrite Et.
  - apply Forall_app. split; [done|by constructor].
  - apply Forall_app. split; [done|]. constructor; [|done]. right. by apply Hnext.
  - rewrite <- (f_set_id (view (x_world x')) k i) by apply Hcr. eapply holds_create; try done.
    + eapply Forall_impl; [exact X5|]. apply fits_kinds.
    + by destruct Hcan as (_ & ? & _).
    + by rewrite Et.
Qed.

Lemma restore_entry_eq n rel (x : ext) : x_ctx x = None -> x_skip x = [] -> rel <> [] -> rel <> dot ->
  restore_entry false validName n rel x =
  (let typ := Z.land (e_Mode (r_Entry n)) modeTypeMask in
   if r_Hardlink n then
     match root_Link (r_LinkTarget n) rel (x_world x) with
     | (Err e, w) => (Ok (), add_warnings rel [WHardlink (r_LinkTarget n) e] (set_world w x))
     | (Ok _, w) => (Ok (), set_world w x)
     end
   else if typ =? modeDir then
     match root_Mkdir rel 0x1c0 (x_world x) with
     | (Err e, w) => if is_exist e then (Ok (), add_dir rel n (set_world w x)) else (Err (ReOS e), set_world w x)
     | (Ok _, w) => (Ok (), add_dir rel n (set_world w x))
     end
   else if typ =? modeRegular then
     match root_Create rel 0x180 (x_world x) with
     | (Err e, w) => (Err (ReOS e), set_world w x)
     | (Ok f, w) =>
         match copy_close rel f (set_world w x) with
         | (Err e, x) => (Err e, x)
         | (Ok _, x) => apply_meta_to rel n x
         end
     end
   else if typ =? modeSymlink then
     match root_Symlink (r_LinkTarget n) rel (x_world x) with
     | (Err e, w) => (Ok (), add_warnings rel [WSymlink e] (set_world w x))
     | (Ok _, w) => apply_meta_to rel n (set_world w x)
     end
   else make_node rel n x).
Proof.
  intros Hctx Hskip Hn Hd. unfold restore_entry, mbind, X_bind, check_ctx, canceled. rewrite Hctx.
  unfold xget. rewrite Hskip, bool_decide_eq_true_2 by done. cbn [negb andb].
  rewrite (decide_False (P := rel = [])), (decide_False (P := rel = dot)), Hnames by done.
  unfold clear, attempt, os, mret, X_ret, warn, xmod, xfail, mbind, X_bind. cbn [negb].
  destruct (r_Hardlink n); [by destruct (root_Link _ _ _) as [[[]|e] w]|].
  destruct (_ =? modeDir).
  { rewrite (decide_False (P := rel = dot)) by done. destruct (root_Mkdir _ _ _) as [[[]|e] w]; [done|]. by destruct (is_exist e). }
  destruct (_ =? modeRegular).
  { unfold attempt. destruct (root_Create _ _ _) as [[f|e] w]; [|done]. by destruct (copy_close _ _ _) as [[[]|e] x']. }
  destruct (_ =? modeSymlink); [|done]. by destruct (root_Symlink _ _ _) as [[[]|e] w].
Qed.

Lemma copy_close_ok name f D s c i (x : ext) : x_ctx x = None -> pend v pay false D s (x_src x) c ->
  f_inodes (view (x_world x)) !! file_ino f = Some i -> new_inode i modeRegular [] zeroDevice ->
  exists x' i', copy_close (E := E) name f x = (Ok (), x') /\ same_rest x x' /\ pend v pay false D s (x_src x') [] /\
    view (x_world x') = f_set (view (x_world x)) (file_ino f) i' /\ new_inode i' modeRegular c zeroDevice.
Proof.
  intros Hctx Hp Hi Hn. unfold copy_close. cbn [c_rounds reader_content].
  destruct (copy_ok name f (S (rsize (rd_br (x_src x)) + Z.to_nat (rd_left (x_src x)))) x D s c [] i Hctx Hp ltac:(lia) Hi Hn)
    as (x1 & i1 & -> & Hs & Hp1 & V1 & N1).
  destruct (ro_Close _ _ rlaws f (x_world x1)) as (w' & -> & V2). eexists _, i1. split; [reflexivity|].
  split; [by etrans; [exact Hs|]|]. split; [done|]. by rewrite <- V1, <- V2.
Qed.

(** What is left to read after an entry does not matter. *)
Definition past (D : list bytes) (s : bytes) (r : rstate) : Prop := exists c, pend v pay false D s r c.

(** A hardlink to a file restored before. *)
Lemma entry_link it t done P (x : ext) D s : extracted done P x -> next_ok (pr <$> done) (pr it) -> item_fits it -> linked it = true ->
  t ∈ done -> it_path t = n_LinkTarget (it_node it) -> is_payload (n_Kind (it_node t)) = true -> past D s (x_src x) ->
  exists x' : ext, restore_entry false validName (decode_item false it) (it_path it) x = (Ok (), x') /\
    extracted (done ++ [it]) P x' /\ past D s (x_src x').
Proof.
  intros Hx Hnext Hf Hl Ht Htp Hpl Hpast. destruct (next_can_create done P x it Hx Hnext) as (Hcan & Hne & Et & Hdot).
  rewrite Et in Hcan. pose proof Hx as [X1 X2 X3 X4 X5 X6 X7].
  assert (is_link (pr it)) as Hlk by (by apply bool_decide_eq_true in Hl).
  assert (exists off, it_data it = DLink off) as [off Ed].
  { pose proof (if_class _ Hf) as Hc. unfold item_class in Hc. unfold is_link in Hlk. cbn in Hlk. rewrite Hlk in Hc. destruct (it_data it); try done; [by destruct Hc|eauto]. }
  rewrite restore_entry_eq by done. unfold decode_item. rewrite Ed. cbn [r_Entry e_Mode r_Hardlink r_LinkTarget].
  assert (linked t = false) as Hlt.
  { apply bool_decide_eq_false. unfold is_link. cbn. intros Hk. by rewrite Hk in Hpl. }
  assert (t ∈ P.*1) as HP by (rewrite (hd_items _ _ _ _ _ X7); by apply list_elem_of_filter).
  apply list_elem_of_fmap in HP as ([t' k] & -> & HP). cbn [fst] in *. destruct (hd_at _ _ _ _ _ X7 _ _ HP) as (Hn & i & Hi & Hg).
  rewrite Forall_forall in X5, X6.
  assert (tpath (it_path t') = n_LinkTarget (it_node it)) as Etp.
  { rewrite <- Htp. destruct (X6 t' Ht) as [E0|Hv]; [|by apply tpath_valid]. exfalso.
    pose proof (wf_hardlink _ (if_wf _ Hf) Hlk) as [Hv _]. rewrite <- Htp, E0 in Hv.
    by apply validate_all_ok, Forall_cons in Hv as [(? & _)%ValidateFilename_ok _]. }
  assert (~ is_dir (pr t')) as Hnd by (unfold is_dir; cbn; intros Hk; by rewrite Hk in Hpl).
  destruct (ro_Link _ _ rlaws (n_LinkTarget (it_node it)) (it_path it) (x_world x) k i) as (w' & E1 & N1 & T1); [done| | |].
  { unfold f_at. rewrite <- Etp, Hn. cbn. by rewrite Hi. }
  { unfold good in Hg. rewrite decide_False in Hg by tauto. rewrite Hg. by apply (fits_kinds t' (X5 t' Ht)). }
  rewrite E1. eexists. split; [reflexivity|]. split; [|done]. constructor; cbn [x_ctx x_skip x_dirs x_warned x_world set_world]; try done.
  - rewrite X3, filter_app, filter_cons_False, filter_nil, app_nil_r; [done|]. unfold is_dir, is_link in *. congruence.
  - apply Forall_app. split; [by apply Forall_forall|by constructor].
  - apply Forall_app. split; [by apply Forall_forall|]. constructor; [|done]. right. by apply Hnext.
  - eapply (holds_link pc done P (view (x_world x)) it k); try done.
    + apply Forall_forall. intros y Hy. by apply fits_kinds, X5.
    + rewrite Et. apply Hcan.
    + unfold tpath at 1. rewrite decide_False; [by rewrite <- Etp|]. intros E0. rewrite E0 in Htp.
      pose proof (wf_hardlink _ (if_wf _ Hf) Hlk) as [Hv _]. rewrite E0 in Hv.
      by apply validate_all_ok, Forall_cons in Hv as [(? & _)%ValidateFilename_ok _].
    + by rewrite Et.
Qed.

(** The entry is restored, and nothing else has changed. *)
Definition gets_restored (done : list item) (P : list (item * nat)) (it : item) (D : list bytes) (s : bytes)
    (res : result restore_error unit * ext) : Prop :=
  exists x' k, res = (Ok (), x') /\ extracted (done ++ [it]) (P ++ [(it, k)]) x' /\ past D s (x_src x').

(** An entry whose inode has its content, but no metadata yet. *)
Lemma entry_made it done P (x x1 : ext) k i D s : extracted done P x -> next_ok (pr <$> done) (pr it) -> item_fits it -> linked it = false ->
  creates (view (x_world x)) (it_path it) k i (view (x_world x1)) ->
  new_inode i (node_type (decode_item false it)) (object_data pc it) (r_Device (decode_item false it)) ->
  (n_Kind (it_node it) = KindSymlink -> i_perm i = 0x1ff) -> ~ is_dir (pr it) -> same_rest x x1 -> past D s (x_src x1) ->
  gets_restored done P it D s (apply_meta_to (it_path it) (decode_item false it) x1).
Proof.
  intros Hx Hnext Hf Hl Hcr Hn Hs Hnd Hsame Hpast. destruct (next_can_create done P x it Hx Hnext) as (Hcan & _ & Et & _).
  rewrite Et in Hcan. destruct (apply_new it k i (view (x_world x)) x1 Hf Hl Hcan Hcr Hn Hs) as (x' & E' & Hsame' & Hsrc & V').
  exists x', k. split; [done|]. split; [|by rewrite Hsrc].
  destruct (same_rest_trans _ _ _ Hsame Hsame') as (S1 & S2 & S3 & S4).
  eapply (extracted_step done P x x' it k (restored pc it)); try done.
  - rewrite V'. by eapply f_set_creates.
  - unfold good. by rewrite decide_False by tauto.
  - rewrite S2, decide_False by done. by rewrite app_nil_r.
Qed.

Lemma object_data_eq it : object_data pc it =
  let k := n_Kind (it_node it) in
  if is_payload k then item_content pc it else if decide (k = KindSymlink) then n_LinkTarget (it_node it) else [].
Proof. done. Qed.

(** A special file. *)
Lemma entry_node it done P (x : ext) D s : extracted done P x -> next_ok (pr <$> done) (pr it) -> item_fits it -> linked it = false ->
  past D s (x_src x) -> node_type (decode_item false it) ∈ [modeBlockDev; modeCharDev; modeFifo; modeSocket] ->
  object_data pc it = [] -> n_Kind (it_node it) <> KindSymlink -> ~ is_dir (pr it) ->
  gets_restored done P it D s (make_node (it_path it) (decode_item false it) x).
Proof.
  intros Hx Hnext Hf Hl Hp Hs Ho Hnl Hnd. destruct (next_can_create done P x it Hx Hnext) as (Hcan & _ & Et & _).
  rewrite Et in Hcan. pose proof Hf as [_ Hfit Hc]. destruct (decode_nonlink it Hc Hl) as (_ & _ & _ & Ed).
  destruct (ml_Mknod _ _ mlaws (it_path it) (decode_item false it) (x_world x) Hcan Hs) as (w' & k & i & E1 & C1 & N1).
  - apply (ft_meta _ _ Hfit); [done|by apply not_link_data].
  - rewrite Ed. case_decide; [apply Hfit|done].
  - unfold make_node. rewrite E1. by eapply (entry_made it done P x (set_world w' x) k i); try done; rewrite ?Ho.
Qed.

(** A file with content. *)
Lemma entry_file it done P (x : ext) D s : extracted done P x -> next_ok (pr <$> done) (pr it) -> item_fits it -> linked it = false ->
  pend v pay false D s (x_src x) (item_content pc it) -> is_payload (n_Kind (it_node it)) = true ->
  gets_restored done P it D s
    match root_Create (it_path it) 0x180 (x_world x) with
    | (Err e, w) => (Err (ReOS e), set_world w x)
    | (Ok f, w) =>
        match copy_close (it_path it) f (set_world w x) with
        | (Err e, x) => (Err e, x)
        | (Ok _, x) => apply_meta_to (it_path it) (decode_item false it) x
        end
    end.
Proof.
  intros Hx Hnext Hf Hl Hp Hpl. destruct (next_can_create done P x it Hx Hnext) as (Hcan & _ & Et & _).
  rewrite Et in Hcan. pose proof (ex_ctx _ _ _ Hx) as Hctx. pose proof Hf as [_ _ Hc].
  destruct (decode_nonlink it Hc Hl) as (_ & _ & _ & Ed). pose proof (nonlink_type it Hf Hl) as Hty.
  destruct (ro_Create _ _ rlaws (it_path it) 0x180 (x_world x) Hcan) as (f & w' & i & -> & C1 & N1).
  destruct (copy_close_ok (it_path it) f D s (item_content pc it) i (set_world w' x)) as (x1 & i1 & -> & S1 & P1 & V1 & N2); try done;
    [by apply C1|]. eapply (entry_made it done P x x1 (file_ino f) i1); try done.
  - rewrite V1. cbn [x_world set_world]. by eapply f_set_creates.
  - rewrite Hty, Ed, object_data_eq. cbv zeta. rewrite Hpl. by destruct (n_Kind (it_node it)).
  - intros Hks. by rewrite Hks in Hpl.
  - unfold is_dir. cbn. intros Hks. by rewrite Hks in Hpl.
  - by exists [].
Qed.

(** Any other entry below the root. *)
Lemma entry_new it done P (x : ext) D s : extracted done P x -> next_ok (pr <$> done) (pr it) -> item_fits it -> linked it = false ->
  pend v pay false D s (x_src x) (item_content pc it) ->
  gets_restored done P it D s (restore_entry false validName (decode_item false it) (it_path it) x).
Proof.
  intros Hx Hnext Hf Hl Hp. destruct (next_can_create done P x it Hx Hnext) as (Hcan & Hne & Et & Hdot).
  rewrite Et in Hcan. pose proof Hf as [Hw Hfit Hc]. assert (past D s (x_src x)) as Hpast by (by exists (item_content pc it)).
  destruct (decode_nonlink it Hc Hl) as (Ehl & Ee & Elt & Ed). pose proof (nonlink_type it Hf Hl) as Hty.
  rewrite restore_entry_eq by (done || apply Hx). rewrite Ehl. cbv zeta. fold (node_type (decode_item false it)). rewrite Hty.
  pose proof (entry_node it done P x D s Hx Hnext Hf Hl Hpast) as Hnode.
  pose proof (entry_file it done P x D s Hx Hnext Hf Hl Hp) as Hfile.
  pose proof (fun x1 k i => entry_made it done P x x1 k i D s Hx Hnext Hf Hl) as Hmade.
  rewrite Hty, object_data_eq in Hnode. rewrite Hty, Ed, object_data_eq in Hmade.
  unfold is_dir, pr in Hmade, Hnode. cbn [snd] in Hmade, Hnode. cbv zeta in Hmade, Hnode.
  destruct (n_Kind (it_node it)) eqn:Hk; cbn [kind_mode is_payload] in Hmade, Hnode, Hfile |- *.
  all: try (apply Hnode; [set_solver|done|done|done]).
  - (* directory *)
    change (modeDir =? modeDir) with true. cbv iota.
    destruct (ro_Mkdir _ _ rlaws (it_path it) 0x1c0 (x_world x) Hcan) as (w' & k & i & -> & C1 & N1).
    eexists _, k. split; [reflexivity|]. split; [|done].
    eapply (extracted_step done P x _ it k i); try done.
    + unfold good. rewrite decide_True; [done|]. split; [done|apply not_elem_of_nil].
    + cbn. by rewrite decide_True.
  - by apply Hfile.
  - (* symlink *)
    change (modeSymlink =? modeDir) with false. change (modeSymlink =? modeRegular) with false. change (modeSymlink =? modeSymlink) with true.
    cbv iota. rewrite Elt, decide_True by done.
    destruct (ro_Symlink _ _ rlaws (n_LinkTarget (it_node it)) (it_path it) (x_world x) Hcan) as (w' & k & i & -> & C1 & N1 & M1);
      [by apply (wf_symlink _ Hw)|].
    by apply (Hmade (set_world w' x) k i).
  - exfalso. apply bool_decide_eq_false in Hl. by apply Hl.
  - by apply Hfile.
Qed.

(* ------------------------------------------------------------------ *)
(** ** A whole archive *)

Lemma extracted_src done P r (x : ext) : extracted done P x -> extracted done P (set_src r x).
Proof. by intros []. Qed.

Lemma extract_loop_ok xs : forall fuel D s (x : ext) done P, (length xs < fuel)%nat ->
  visits v pay false pc D s xs [] [] -> past D s (x_src x) -> extracted done P x ->
  in_order (pr <$> done) (pr <$> xs) -> links_back done xs -> Forall item_fits xs ->
  exists (x' : ext) P', extract_loop false validName fuel x = finish x' /\ extracted (done ++ xs) P' x'.
Proof.
  induction xs as [|it xs IH]; intros [|fuel] D s x done P Hf Hvis [c Hp] Hx Ho Hlk Hfits; cbn [length] in Hf; try lia; cbn [extract_loop].
  - cbn [visits] in Hvis. destruct (next_end _ _ _ _ c (Hvis _ _ Hp)) as (r1 & -> & _).
    eexists _, P. split; [reflexivity|]. rewrite app_nil_r. by apply extracted_src.
  - cbn [visits] in Hvis. destruct Hvis as (D1 & s1 & Hv & Hvis). destruct (Hv _ _ Hp) as (r1 & -> & Hp1).
    cbn [fmap list_fmap in_order links_back] in Ho, Hlk. destruct Ho as [Hnext Ho], Hlk as [Hl0 Hlk]. apply Forall_cons in Hfits as [Hfi Hfits].
    assert (r_Path (decode_item false it) = it_path it) as -> by (unfold decode_item; by destruct (it_data it)).
    assert (exists (x1 : ext) P1, restore_entry false validName (decode_item false it) (it_path it) (set_src r1 x) = (Ok (), x1) /\
      extracted (done ++ [it]) P1 x1 /\ past D1 s1 (x_src x1)) as (x1 & P1 & -> & Hx1 & Hpast).
    { pose proof (extracted_src done P r1 x Hx) as Hx'. destruct (linked it) eqn:Hl.
      - assert (exists off, it_data it = DLink off) as [off Ed].
        { pose proof (if_class _ Hfi) as Hc. apply bool_decide_eq_true in Hl. unfold is_link, item_class in *. cbn in Hl. rewrite Hl in Hc.
          destruct (it_data it); try done; [by destruct Hc|eauto]. }
        destruct (Hl0 off Ed) as (ts & (t & Ht & Htp & Htk & _) & _).
        destruct (entry_link it t done P (set_src r1 x) D1 s1) as (x1 & E1 & Hx1 & Hpast); try done; [by rewrite Htk|by eexists|].
        by exists x1, P.
      - destruct (entry_new it done P (set_src r1 x) D1 s1) as (x1 & k & E1 & Hx1 & Hpast); try done. by eexists x1, _. }
    destruct (IH fuel D1 s1 x1 (done ++ [it]) P1) as (x' & P' & -> & Hx'); try done; [lia|by rewrite fmap_app|].
    exists x', P'. split; [done|]. by rewrite <- app_assoc in Hx'.
Qed.

(** The directory of an entry, in a target that holds it. *)
Definition parents (done : list item) : Prop :=
  forall it, it ∈ done -> it_path it = [] \/ exists d, d ∈ done /\ is_dir (pr d) /\ path_Dir (it_path it) = tpath (it_path d) /\
    validatePath (it_path it) = Ok ().

Lemma holds_dir fin done P F d : holds pc fin done P F -> Forall item_fits done -> d ∈ done -> is_dir (pr d) -> f_dir F (tpath (it_path d)).
Proof.
  intros Hh Hfits Hd Hdir. rewrite Forall_forall in Hfits. pose proof (dir_not_linked d Hdir) as Hl.
  assert (d ∈ P.*1) as HP by (rewrite (hd_items _ _ _ _ _ Hh); by apply list_elem_of_filter).
  apply list_elem_of_fmap in HP as ([d' k] & -> & HP). destruct (hd_at _ _ _ _ _ Hh _ _ HP) as (Hn & i & Hi & Hg). cbn [fst] in *.
  exists k, i. split; [unfold f_at; rewrite Hn; cbn; by rewrite Hi|]. unfold good in Hg. case_decide; [apply Hg|].
  rewrite Hg. unfold restored. cbn. rewrite (nonlink_type d' (Hfits d' Hd) Hl). unfold is_dir, pr in Hdir. cbn in Hdir. by rewrite Hdir.
Qed.

(** [finish] gives every directory its metadata. *)
Lemma finish_dirs_ok done P l : forall fin (x : ext), x_ctx x = None -> holds pc fin done P (view (x_world x)) ->
  Forall item_fits done -> Forall (fun it => safe_path (it_path it)) done -> parents done ->
  Forall (fun it => it ∈ done /\ is_dir (pr it) /\ it_path it ∉ fin) l -> NoDup (it_path <$> l) ->
  exists x' : ext, finish_dirs ((fun it => (tpath (it_path it), decode_item false it)) <$> l) x = (Ok (), x') /\
    same_rest x x' /\ holds pc (rev (it_path <$> l) ++ fin) done P (view (x_world x')).
Proof.
  induction l as [|d l IH]; intros fin x Hctx Hh Hfits Hpaths Hpar Hl Hnd; [by exists x|].
  apply Forall_cons in Hl as [(Hd & Hdir & Hfin) Hl]. cbn [fmap list_fmap] in Hnd. apply NoDup_cons in Hnd as [Hdl Hnd].
  pose proof Hfits as Hfits'. pose proof Hpaths as Hpaths'. rewrite Forall_forall in Hfits', Hpaths'.
  pose proof (Hfits' d Hd) as Hfd. pose proof (dir_not_linked d Hdir) as Hlk. pose proof (nonlink_type d Hfd Hlk) as Hty.
  unfold is_dir, pr in Hdir. cbn in Hdir. rewrite Hdir in Hty. cbn [kind_mode] in Hty.
  destruct (decode_nonlink d (if_class _ Hfd) Hlk) as (_ & _ & _ & Ed). rewrite Hdir, decide_False in Ed by (by intros [|]).
  assert (d ∈ P.*1) as HP by (rewrite (hd_items _ _ _ _ _ Hh); by apply list_elem_of_filter).
  apply list_elem_of_fmap in HP as ([d' k] & -> & HP). cbn [fst] in *. destruct (hd_at _ _ _ _ _ Hh _ _ HP) as (Hn & i & Hi & _).
  destruct (holds_finish pc fin done P _ d' k i Hh HP Hdir Hfin Hi) as [Hni Hnext].
  destruct (ml_Apply _ _ mlaws (tpath (it_path d')) (decode_item false d') (x_world x) k i) as (w' & E1 & V1).
  - destruct (Hpaths' d' Hd) as [E0|Hv]; [left; unfold tpath; by rewrite decide_True|right]. by rewrite (proj1 (tpath_valid _ Hv)).
  - destruct (Hpar d' Hd) as [E0|(p & Hp & Hpd & Epp & Hv)].
    + unfold tpath. rewrite (decide_True (P := it_path d' = [])), decide_True by done.
      assert (tpath (it_path d') = dot) as <- by (unfold tpath; by rewrite decide_True). by eapply holds_dir.
    + destruct (tpath_valid _ Hv) as [-> Hdot]. rewrite decide_False by done. rewrite Epp. by eapply holds_dir.
  - unfold f_at. rewrite Hn. cbn. by rewrite Hi.
  - rewrite Hty. apply Hni.
  - apply Hni.
  - rewrite Hty. discriminate.
  - apply (ft_meta _ _ (if_fits _ Hfd)); [done|by apply not_link_data; [apply if_class|]].
  - cbn [fmap list_fmap finish_dirs]. unfold mbind, X_bind, check_ctx, canceled. rewrite Hctx. unfold apply_meta_to. rewrite E1.
    set (x1 := add_warnings _ _ _). assert (same_rest x x1) as S1 by (repeat split; cbn; by rewrite app_nil_r).
    destruct (IH (it_path d' :: fin) x1) as (x' & -> & S2 & Hh'); try done; [unfold x1; cbn; rewrite V1; by apply Hnext| |].
    + rewrite Forall_forall in Hl |- *. intros y Hy. destruct (Hl y Hy) as (? & ? & ?). split_and!; [done..|].
      apply not_elem_of_cons. split; [|done]. intros E0. apply Hdl. apply list_elem_of_fmap. by exists y.
    + exists x'. split; [done|]. split; [by etrans|]. cbn [fmap list_fmap rev]. by rewrite <- app_assoc.
Qed.

(** The root of the archive: the target itself. *)
Lemma restore_root it (x : ext) k i : x_ctx x = None -> x_skip x = [] -> x_dirs x = [] -> x_warned x = [] ->
  item_fits it -> is_dir (pr it) -> it_path it = [] ->
  f_names (view (x_world x)) = {[ dot := k ]} -> f_inodes (view (x_world x)) = {[ k := i ]} -> new_inode i modeDir [] zeroDevice ->
  exists x' : ext, restore_entry false validName (decode_item false it) (it_path it) x = (Ok (), x') /\
    extracted [it] [(it, k)] x' /\ x_src x' = x_src x.
Proof.
  intros Hctx Hskip Hdirs Hwarn Hf Hdir Hp Hn Hi Hnew. pose proof (dir_not_linked it Hdir) as Hl.
  destruct (decode_nonlink it (if_class _ Hf) Hl) as (Ehl & _). pose proof (nonlink_type it Hf Hl) as Hty.
  pose proof Hdir as Hdir'. unfold is_dir, pr in Hdir'. cbn in Hdir'. rewrite Hdir' in Hty. cbn [kind_mode] in Hty. unfold node_type in Hty.
  exists (add_dir dot (decode_item false it) x). split; [|split; [|done]].
  - unfold restore_entry, mbind, X_bind, check_ctx, canceled, xget. rewrite Hctx, Hskip, Hp.
    rewrite bool_decide_eq_true_2, decide_True by done. cbn [negb andb]. rewrite decide_True, Ehl, Hty by done.
    change (modeDir =? modeDir) with true. cbv iota. by rewrite decide_True.
  - constructor; cbn [x_ctx x_skip x_dirs x_warned x_world add_dir]; try done.
    + rewrite Hdirs, filter_cons_True, filter_nil by done. cbn. unfold tpath. by rewrite decide_True.
    + by constructor.
    + constructor; [by left|done].
    + assert (tpath (it_path it) = dot) as Et by (unfold tpath; by rewrite decide_True). constructor.
      * by rewrite filter_cons_True.
      * apply NoDup_singleton.
      * intros p. rewrite Hn. cbn [fmap list_fmap]. rewrite list_elem_of_singleton, Et, lookup_singleton_is_Some. done.
      * intros y ky [= -> ->]%list_elem_of_singleton. rewrite Hn, Et, lookup_singleton_eq. split; [done|]. exists i.
        rewrite Hi, lookup_singleton_eq. split; [done|]. unfold good. rewrite decide_True; [done|]. split; [done|apply not_elem_of_nil].
      * intros q. rewrite Hi, lookup_singleton_is_Some. intros <-. cbn. set_solver.
      * intros y ->%list_elem_of_singleton Hly. congruence.
Qed.

Lemma new_extractor_ok dir w r (x : ext) u : newExtractor (E := E) false None dir w r = (Ok u, x) ->
  x_ctx x = None /\ x_skip x = [] /\ x_dirs x = [] /\ x_warned x = [] /\ x_src x = r.
Proof.
  unfold newExtractor, mbind, X_bind, os, attempt, mbind, X_bind, mret, X_ret, xfail. cbn [x_world set_world].
  destruct (os_MkdirAll dir 0x1ed w) as [[?|?] w1]; [|done]. cbn [x_world set_world].
  destruct (os_ReadDirNames dir w1) as [[names|?] w2]; [|done]. cbn [x_world set_world].
  destruct names; [|done]. cbn [x_world set_world]. destruct (os_OpenRoot dir w2) as [[?|?] w3]; [|done]. by intros [= _ <-].
Qed.

(** The restored tree: every entry under its path with the inode of its
    metadata and content, hardlinks sharing that of their file, and nothing
    else. *)
Record on_disk (xs : list item) (F : fsys) : Prop := {
  od_names : forall p, is_Some (f_names F !! p) <-> p ∈ (fun it => tpath (it_path it)) <$> xs;
  od_entries : forall it, it ∈ xs -> linked it = false -> exists k, f_at F (tpath (it_path it)) = Some (k, restored pc it);
  od_links : forall it, it ∈ xs -> linked it = true ->
    f_names F !! tpath (it_path it) = f_names F !! tpath (n_LinkTarget (it_node it));
  od_distinct : forall it it', it ∈ xs -> it' ∈ xs -> linked it = false -> linked it' = false ->
    f_names F !! tpath (it_path it) = f_names F !! tpath (it_path it') -> it = it';
  od_inodes : forall k, is_Some (f_inodes F !! k) -> exists p, f_names F !! p = Some k }.

Lemma holds_on_disk fin xs P F : holds pc fin xs P F -> (forall it, it ∈ xs -> is_dir (pr it) -> it_path it ∈ fin) -> on_disk xs F.
Proof.
  intros Hh Hfin. assert (forall it, it ∈ xs -> linked it = false -> exists k, (it, k) ∈ P) as HP.
  { intros it Hin Hl. assert (it ∈ P.*1) as HP by (rewrite (hd_items _ _ _ _ _ Hh); by apply list_elem_of_filter).
    apply list_elem_of_fmap in HP as ([it' k] & -> & HP). by exists k. }
  constructor; try apply Hh.
  - intros it Hin Hl. destruct (HP it Hin Hl) as [k Hk]. destruct (hd_at _ _ _ _ _ Hh _ _ Hk) as (Hn & i & Hi & Hg).
    exists k. unfold f_at. rewrite Hn. cbn. rewrite Hi. cbn. unfold good in Hg. rewrite decide_False in Hg; [by rewrite Hg|].
    intros [Hd Hnf]. by apply Hnf, Hfin.
  - intros it it' Hin Hin' Hl Hl' Heq. destruct (HP it Hin Hl) as [k Hk], (HP it' Hin' Hl') as [k' Hk'].
    destruct (hd_at _ _ _ _ _ Hh _ _ Hk) as (Hn & _), (hd_at _ _ _ _ _ Hh _ _ Hk') as (Hn' & _).
    assert (k' = k) as -> by congruence. apply list_elem_of_lookup in Hk as [a Ha], Hk' as [b Hb].
    assert (a = b) as ->; [|congruence]. apply (NoDup_lookup P.*2 a b k (hd_distinct _ _ _ _ _ Hh)); rewrite list_lookup_fmap, ?Ha, ?Hb; done.
  - intros k Hk. apply (hd_inodes _ _ _ _ _ Hh) in Hk. apply list_elem_of_fmap in Hk as ([it k'] & -> & Hk).
    destruct (hd_at _ _ _ _ _ Hh _ _ Hk) as (Hn & _). by eexists.
Qed.

(** The directory of an entry below the root is an entry before it. *)
Lemma in_order_parents xs : forall it0, it_path it0 = [] -> is_dir (pr it0) -> in_order (pr <$> [it0]) (pr <$> xs) ->
  Forall (fun it => safe_path (it_path it)) (it0 :: xs) -> parents (it0 :: xs).
Proof.
  intros it0 Hp0 Hd0 Ho Hsafe it [->|Hin]%elem_of_cons; [by left|]. right. rewrite Forall_forall in Hsafe.
  pose proof (in_order_parent _ _ Ho) as Hall. rewrite Forall_fmap, Forall_forall in Hall.
  destruct (Hall it Hin) as (Hv & d & name & Hd & Hdir & Hp & Hvn).
  rewrite <- fmap_app in Hd. apply list_elem_of_fmap in Hd as (di & -> & Hd). exists di. split_and!; try done.
  change (it_path it) with (pr it).1. rewrite Hp. apply path_Dir_join; [|done]. by apply Hsafe.
Qed.

(** Every entry of an extracted archive is on disk. *)
Lemma finish_ok xs P (x : ext) : extracted xs P x -> parents xs -> NoDup (it_path <$> xs) ->
  exists x' : ext, finish x = (Ok (), x') /\ same_rest x x' /\ on_disk xs (view (x_world x')).
Proof.
  intros Hx Hpar Hnd. pose proof Hx as [X1 X2 X3 X4 X5 X6 X7]. unfold finish. rewrite X3, <- map_rev.
  set (ds := filter (fun it => is_dir (pr it)) xs).
  destruct (finish_dirs_ok xs P (rev ds) [] x) as (x' & E1 & S1 & Hh); try done.
  - apply Forall_forall. intros it Hin. rewrite <- Permutation_rev in Hin.
    apply list_elem_of_filter in Hin as [Hd Hin]. split_and!; [done..|apply not_elem_of_nil].
  - rewrite <- Permutation_rev. unfold ds. eapply sublist_NoDup; [exact Hnd|]. apply fmap_sublist, sublist_filter.
  - exists x'. split; [exact E1|]. split; [done|]. eapply holds_on_disk; [exact Hh|]. intros it Hin Hd.
    rewrite app_nil_r, <- Permutation_rev. apply list_elem_of_fmap. exists it. split; [done|].
    rewrite <- Permutation_rev. by apply list_elem_of_filter.
Qed.

(** Extracting the encoding of a tree. *)
Lemma extract_encoded `{SipHash} (v2 : bool) cont root prelude out extra xs ln dir w r (x : ext) u : v = (if v2 then 2 else 1) ->
  encodes v2 cont root true [] (u64 (zlen (stream_head v2 prelude))) ∅ out extra xs ln -> n_Kind root = KindDirectory ->
  tree_all wf_node root -> tree_all distinct_names root -> tree_all (fits ok) root -> (height root <= maxDepth)%nat ->
  Forall (served pay pc) xs -> prelude_ok prelude -> fresh v pay false r (stream_head v2 prelude ++ out) ->
  newExtractor false None dir w r = (Ok u, x) -> empty_target (view (x_world x)) ->
  exists x' : ext, Extract false validName None dir w r = (Ok (), x') /\ x_warned x' = [] /\ on_disk xs (view (x_world x')).
Proof.
  intros Hv Henc Hk Hwf Hdn Hfit Hh Hsv Hpr Hf Hnew (k & i & Hn & Hi & Hty & Hdat & Hrd & Hxa).
  destruct (new_extractor_ok _ _ _ _ _ Hnew) as (N1 & N2 & N3 & N4 & N5).
  destruct (encodes_items v2 cont) as [Hit _]. specialize (Hit _ _ _ _ _ _ _ _ _ Henc).
  destruct (encodes_layout v2 cont) as [Hlay _]. destruct (Hlay _ _ _ _ _ _ _ _ _ Henc (u64_range _)) as (Hx & _ & Hlk).
  destruct (Hlk []) as [Hlinks _]; [intros ? ? E0; by rewrite lookup_empty in E0|].
  destruct (encodes_length v2 cont) as [Hlen _]. specialize (Hlen _ _ _ _ _ _ _ _ _ Henc).
  assert (Forall item_fits xs) as Hfits.
  { pose proof (items_all _ xs root [] Hx Hwf) as Hw1. pose proof (items_all _ xs root [] Hx Hfit) as Hf1.
    rewrite Forall_forall in *. intros it Hin. constructor; [by apply Hw1|by apply Hf1|].
    specialize (Hit it Hin). unfold item_ok, item_class in *. by destruct (it_data it); try tauto. }
  destruct (archive_visits v pay false pc v2 cont Hv root _ _ prelude out extra xs ln r Henc Hk Hwf Hh Hsv Hpr Hf)
    as (x0 & xs' & r1 & D1 & s1 & -> & E1 & Hp & Hvis).
  pose proof (flatten_in_order root [] [] Hwf Hdn (Forall_nil_2 _) (or_introl eq_refl)) as Ho.
  rewrite <- Hx in Ho. cbn [fmap list_fmap tail app] in Ho. rewrite flatten_eq in Hx. cbn [fmap list_fmap] in Hx.
  injection Hx as Hp0 Hn0 _. destruct Hlinks as [_ Hlinks]. apply Forall_cons in Hfits as [Hf0 Hfits].
  unfold Extract. rewrite Hnew. remember (S (length (contents (rd_br r)).1)) as fuel eqn:Ef.
  destruct fuel as [|fuel]; [done|]. cbn [extract_loop]. rewrite N5, E1.
  assert (r_Path (decode_item false x0) = it_path x0) as -> by (unfold decode_item; by destruct (it_data x0)).
  assert (is_dir (pr x0)) as Hd0 by (unfold is_dir; cbn; by rewrite Hn0).
  destruct (restore_root x0 (set_src r1 x) k i) as (x1 & -> & Hx1 & Es1); try done.
  assert (NoDup (it_path <$> x0 :: xs')) as Hnd.
  { pose proof (in_order_nodup _ [([], root)] ltac:(apply NoDup_singleton) Ho) as Hnd. rewrite fmap_app, <- list_fmap_compose in Hnd. cbn in Hnd |- *.
    by rewrite Hp0. }
  destruct (extract_loop_ok xs' fuel D1 s1 x1 [x0] [(x0, k)]) as (x2 & P & -> & Hx2); try done.
  - destruct Hf as (_ & _ & _ & _ & _ & _ & _ & _ & _ & Hbr). rewrite Hbr in Ef. cbn [fst] in Ef. rewrite length_app in Ef. cbn [length] in Hlen. lia.
  - exists (item_content pc x0). rewrite Es1. exact Hp.
  - cbn. unfold pr at 1. by rewrite Hp0, Hn0.
  - destruct (finish_ok (x0 :: xs') P x2) as (x' & -> & (S1 & S2 & S3 & S4) & Hdisk); try done.
    + eapply in_order_parents; [done|done| |apply Hx2]. cbn. unfold pr at 1. by rewrite Hp0, Hn0.
    + cbn [closing]. eexists. split; [reflexivity|]. cbn [x_warned x_world set_world].
      split; [rewrite S4; apply Hx2|]. by rewrite (ro_Close_root _ _ rlaws).
Qed.
End entries.

(* ------------------------------------------------------------------ *)
(** ** Properties *)

Section properties.
Context {W File E : Type} `{RootSys W File} `{MetadataWriter W E} {T : Type} `{PayloadSource T} `{SipHash}.
Context (view : W -> fsys) (file_ino : File -> nat) (ok : rnode -> Prop).
Hypothesis rlaws : root_laws view file_ino.
Hypothesis mlaws : meta_laws (W := W) (E := E) view ok.
Context (I : T -> Prop) (node_good : node -> Prop) (cont : node -> bytes -> Prop).
Hypothesis Hsrc : source_copies I node_good cont.
Variable validName : bytes -> option name_problem.
Hypothesis Hnames : forall name, validName name = None.

(** A tree that is archived and can be restored in full. *)
Record restorable_tree (root : node) : Prop := {
  rt_good : tree_all node_good root; rt_wf : tree_all wf_node root; rt_names : tree_all distinct_names root;
  rt_fits : tree_all (fits ok) root; rt_height : (height root <= maxDepth)%nat; rt_dir : n_Kind root = KindDirectory }.

(** C3: Archiving and restoring: extracting, into an empty target, the v1 archive
    a successful emission wrote of a tree succeeds without a warning, whatever
    the segmentation of the bytes, and leaves on the target exactly the tree:
    every entry under its path, files with the content their source supplied,
    symlinks, devices and special files, all with their owner, permissions,
    mtime, attributes and ACLs, directories included, hardlinks the name of
    the inode of their file, distinct entries distinct inodes, nothing else. *)
Theorem extract_restores_v1 root (em em' : emitter T) seg dir w (x : extractor W E rstate) u :
  restorable_tree root -> em_ready I em -> em_refs em = None -> em_w em = cw_open 0 [] ->
  em_run root em = (Ok (), em') -> contents seg = (cw_out (em_w em'), EOF) ->
  newExtractor false None dir w (NewReaderV1 seg) = (Ok u, x) -> empty_target (view (x_world x)) ->
  exists xs (x' : extractor W E rstate),
    (fun it => (it_path it, it_node it)) <$> xs = flatten root [] /\ Forall (item_ok false cont) xs /\
    Extract false validName None dir w (NewReaderV1 seg) = (Ok (), x') /\ x_warned x' = [] /\
    on_disk (fun _ _ => []) xs (view (x_world x')).
Proof.
  intros [Hg Hwf Hdn Hfit Hh Hk] Hr Hrefs Hw He Hseg Hnew Hempty.
  destruct (em_run_ok I node_good cont Hsrc _ _ _ _ Hg Hr He) as (out & extra & xs & ln & Henc & [[Ho _] _ _ _ _ _]).
  assert (em_v2 em = false) as Ev by (unfold em_v2; by rewrite Hrefs).
  rewrite Ev in *. cbn [stream_head app length] in *. rewrite Hw in *. cbn [cw_out cw_open app cw_pos] in *.
  destruct (encodes_layout false cont) as [Hlay _]. destruct (Hlay _ _ _ _ _ _ _ _ _ Henc (u64_range _)) as (Hx & _).
  destruct (encodes_items false cont) as [Hit _]. specialize (Hit _ _ _ _ _ _ _ _ _ Henc).
  destruct (extract_encoded view file_ino ok rlaws mlaws 1 None (fun _ _ => []) (or_introl eq_refl) validName Hnames
    false cont root None out extra xs ln dir w (NewReaderV1 seg) x u) as (x' & E1 & E2 & E3); try done.
  - eapply Forall_impl; [exact Hit|]. intros it. unfold item_ok, served. by destruct (it_data it).
  - split_and!; try done; [by left|]. cbn. by rewrite Hseg, Ho.
  - by exists xs, x'.
Qed.

(** C5: The same of a v2 archive, whose two streams were written by separate
    emissions of one tree: extraction follows the references of the metadata
    stream into the payload stream. *)
Theorem extract_restores_v2 root (em em' : emitter T) (pe pe' : payloadEmitter T) plan seg ra dir w (x : extractor W E rstate) u :
  restorable_tree root -> plan = mark_read 0 (collectPayloadPaths root []).*1 ->
  pe_w pe = cw_open 0 [] -> pe_injected pe = [] -> pe_ledger pe = newRefLedger ->
  pe_publish pe = true -> I (pe_src pe) -> pe_run plan pe = (Ok (), pe') ->
  em_w em = cw_open 0 [] -> em_refs em = Some (newRefReader plan) -> em_get em = ledger_get (pe_ledger pe') ->
  I (em_src em) -> prelude_ok (em_prelude em) -> em_run root em = (Ok (), em') ->
  contents seg = (cw_out (em_w em'), EOF) -> reads_at ra (cw_out (pe_w pe')) -> zlen (cw_out (pe_w pe')) <= 2 ^ 62 ->
  newExtractor false None dir w (NewReaderV2 seg (Some ra)) = (Ok u, x) -> empty_target (view (x_world x)) ->
  exists xs (x' : extractor W E rstate),
    (fun it => (it_path it, it_node it)) <$> xs = flatten root [] /\
    Forall (fun it => is_payload (n_Kind (it_node it)) = true ->
      cont (it_node it) (item_content (content_at (cw_out (pe_w pe'))) it)) xs /\
    Extract false validName None dir w (NewReaderV2 seg (Some ra)) = (Ok (), x') /\ x_warned x' = [] /\
    on_disk (content_at (cw_out (pe_w pe'))) xs (view (x_world x')).
Proof.
  intros [Hg Hwf Hdn Hfit Hh Hk] Hplan Hpw Hpi Hpl Hpub HIp Hprun Hew Her Heg HIe Hprel Herun Hseg Hra Hlen Hnew Hempty.
  destruct (split_encoded I node_good cont Hsrc root em em' pe pe' plan) as (out & extra & xs & ln & rest & Henc & Ho & Hrest & Hall); try done.
  destruct (encodes_layout true cont) as [Hlay _]. destruct (Hlay _ _ _ _ _ _ _ _ _ Henc (u64_range _)) as (Hx & _).
  destruct (encodes_items true cont) as [Hit _]. specialize (Hit _ _ _ _ _ _ _ _ _ Henc).
  destruct (extract_encoded view file_ino ok rlaws mlaws 2 (Some ra) (content_at (cw_out (pe_w pe'))) (or_intror (Some_ne_None _)) validName Hnames
    true cont root (em_prelude em) out extra xs ln dir w (NewReaderV2 seg (Some ra)) x u) as (x' & E1 & E2 & E3); try done.
  - eapply Forall_impl; [apply Forall_and; split; [exact Hall|exact Hit]|]. intros it [Hi Hok]. by eapply placed_served.
  - split_and!; try done; [by left|]. cbn. by rewrite Hseg, Ho.
  - exists xs, x'. split_and!; try done. eapply Forall_impl; [exact Hall|]. intros it Hi Hp.
    destruct (Hi Hp) as (off & size & Hd & _ & _ & _ & _ & Hc). unfold item_content. by rewrite Hd.
Qed.
End properties.
