(* ===== verification/RestoreSafe.v ===== *)
(** * Restoring any archive at all

    [Extract] over bytes that need not be an archive: every name it gives to
    the system is a valid path below the target, and it ends. *)

From S2P Require Import Prelude Format Io Tree Reader ReaderSafe Glob FS FsSpec Linux LinuxSpec Restore.
From Stdlib Require Import Strings.Byte.
Local Open Scope Z_scope.

(* ------------------------------------------------------------------ *)
(** ** Lemmas: the reader consumes what it returns *)

Lemma rbody_less t l r b r' : have_is t l (rd_have r) -> rbody t l r = (Ok b, r') ->
  (bytes_left r' < bytes_left r)%nat /\ rd_have r' = None.
Proof.
  intros [Hh _] E. destruct (rbody_left _ _ _ _ _ E) as [Hl Hn]. unfold bytes_left. rewrite Hh, Hn. split; [lia|done].
Qed.

(** The payload stream and the sticky error. *)
Definition fixed (r : rstate) : option readerAt * option rerror := (rd_payload r, rd_err r).

(** [m] changes neither those nor what is left of the content. *)
Definition framed {A} (m : R A) : Prop := forall r a r', m r = (Ok a, r') -> rd_left r' = rd_left r /\ fixed r' = fixed r.
Lemma framed_bind {A B} (m : R A) (f : A -> R B) : framed m -> (forall a, framed (f a)) -> framed (m ≫= f).
Proof.
  intros Hm Hf r b r' E. unfold mbind, R_bind in E. destruct (m r) as [[a|e] r1] eqn:Em; [|done].
  destruct (Hm _ _ _ Em), (Hf a _ _ _ E). split; congruence.
Qed.
Lemma framed_mod f : (forall r, rd_left (f r) = rd_left r /\ fixed (f r) = fixed r) -> framed (rmod f).
Proof. intros Hf r a r' E. unfold rmod in E. simplify_eq. apply Hf. Qed.
Lemma framed_base : framed peek /\ (forall t l, framed (rbody t l)) /\ (forall t l, framed (rskip t l)) /\
  (forall A (f : rstate -> A), framed (rget f)) /\ (forall A (a : A), framed (mret a)) /\ (forall A e, framed (rfail e : R A)) /\
  (forall A (x : result rerror A), framed (lift x)).
Proof.
  split_and!; intros; intros r0 a0 r0' E0; unfold peek, rbody, rskip, rget, rfail, lift, mret, R_ret in E0; by repeat case_match; simplify_eq.
Qed.

Ltac framed := repeat match goal with
  | |- forall _, _ => intros ?
  | |- framed (mbind _ _) => apply framed_bind
  | |- framed (rmod _) => by apply framed_mod
  | |- framed (let '(_, _) := ?x in _) => destruct x
  | |- framed (if ?b then _ else _) => destruct b
  | |- framed (match ?o with Some _ => _ | None => _ end) => destruct o
  | |- framed _ => first [apply framed_base|assumption]
  end.

Lemma framed_metadata fuel : forall n, framed (metadata_loop fuel n).
Proof. induction fuel as [|fuel IH]; intros n; cbn [metadata_loop]; framed. apply IH. Qed.
Lemma framed_readHead : framed readHead.
Proof. unfold readHead. framed. Qed.

(** What a node leaves of its content is nothing or its size. *)
Definition sets_left (r : rstate) (n : rnode) (r' : rstate) : Prop :=
  (rd_left r' = rd_left r \/ rd_left r' = r_Size n) /\ fixed r' = fixed r.

Lemma node_special_left path n t l r n' r' : node_special path n t l r = (Ok n', r') -> sets_left r n' r'.
Proof.
  intros E. destruct (decide (Z.land (e_Mode (r_Entry n)) modeTypeMask = modeRegular)) as [Hm|Hm].
  - unfold node_special in E. rewrite decide_False, decide_True in E by (done || by rewrite Hm).
    unfold payloadRecord in E. case_decide; [simplify_eq; by split; [right|]|]. case_decide; [|done]. case_match; [done|].
    unfold mbind at 1, R_bind in E. destruct (rbody t l r) as [[b|e] r1] eqn:Eb; [|done].
    destruct (proj1 (proj2 framed_base) t l r b r1 Eb) as [_ Hpl]. unfold sets_left. rewrite <- Hpl.
    unfold mbind, R_bind, rget, rmod, lift, mret, R_ret in E. repeat case_match; simplify_eq; (split; [by right|done]).
  - assert (framed (node_special path n t l)) as Hall.
    { unfold node_special. rewrite (decide_False (P := _ = modeRegular)) by done. framed. }
    destruct (Hall _ _ _ E) as [H1 H2]. by split; [left|].
Qed.

Lemma counts_readHead : counts have_ok readHead (fun _ => have_ok).
Proof.
  assert (forall t l (o : option (Z * Z)), have_is t l o -> have_ok o) as Hi by (intros t l ? [-> ?]; done).
  unfold readHead. eapply counts_bind; [apply counts_peek|]. intros [t l]. cbn [fst snd].
  eapply counts_bind; [apply counts_get|]. intros v.
  destruct (negb _); [destruct (decide _); [apply counts_fail|eapply counts_pre; [apply (Hi t l)|by apply counts_mod]]|].
  destruct (decide _); [apply counts_fail|]. eapply counts_bind; [apply counts_rbody|]. intros b.
  destruct (negb _); [apply counts_fail|]. destruct (negb _); [apply counts_fail|].
  eapply counts_bind; [by apply counts_mod|]. intros ?. eapply counts_bind; [eapply counts_pre; [|apply counts_peek]; by intros o ->|].
  intros [t' l']. cbn [fst snd]. destruct (decide _).
  - eapply counts_bind; [apply counts_rbody|]. intros ?. apply counts_ret. by intros o ->.
  - apply counts_ret. apply Hi.
Qed.

(** The progress a successful call makes. *)
Record advances (r : rstate) (n : rnode) (r' : rstate) : Prop := {
  ad_bytes : (bytes_left r' < bytes_left r)%nat; ad_have : have_ok (rd_have r'); ad_left : sets_left r n r'; ad_size : 0 <= r_Size n }.

Lemma read_node_advances path r n r' : have_ok (rd_have r) -> read_node path r = (Ok n, r') -> advances r n r'.
Proof.
  intros Hh E. destruct (counts_read_node path r n r' Hh E) as [_ (H1 & H2 & _)].
  assert ((bytes_left r' < bytes_left r)%nat /\ sets_left r n r') as [H3 H4]; [|by constructor].
  unfold read_node in E. unfold mbind at 1, R_bind in E. destruct (peek r) as [[[t l]|e] r1] eqn:Ep; [|done].
  destruct (counts_peek r _ _ Hh Ep) as [(_ & Hle & _) Hi]. cbn [fst snd] in Hi. destruct (proj1 framed_base _ _ _ Ep) as [L1 P1].
  assert (forall b r2, rbody t l r1 = (Ok b, r2) -> (bytes_left r2 < bytes_left r)%nat /\ rd_have r2 = None /\ rd_left r2 = rd_left r /\ fixed r2 = fixed r) as Hb.
  { intros b r2 Eb. destruct (rbody_less _ _ _ _ _ Hi Eb) as [Hl Hn]. destruct (proj1 (proj2 framed_base) _ _ _ _ _ Eb) as [L2 P2].
    split_and!; [lia|done|congruence|congruence]. }
  case_decide.
  - unfold mbind at 1 in E. destruct (rbody t l r1) as [[b|e] r2] eqn:Eb; [|done]. destruct (Hb _ _ eq_refl) as (B1 & _ & B3 & B4).
    case_decide; [done|]. unfold mbind, lift, mret, R_ret in E. repeat (case_match; try done). injection E as <- <-. split; [done|]. by split; [left|].
  - case_decide; [done|]. case_match; [unfold mbind, rget, rfail in E; by simplify_eq|]. case_match; [done|].
    unfold mbind at 1 in E. destruct (rbody t l r1) as [[b|e] r2] eqn:Eb; [|done]. destruct (Hb _ _ eq_refl) as (B1 & B2 & B3 & B4).
    unfold mbind at 1, rget in E. cbv zeta in E. unfold mbind at 1 in E. destruct (metadata _ r2) as [[[[n1 t1] l1]|e] r3] eqn:Em; [|done].
    destruct (counts_metadata_loop _ _ r2 _ _ ltac:(by rewrite B2) Em) as [(_ & M1 & _) [Hh3 [Hz Hnl]]]. cbn [fst snd] in *.
    destruct (framed_metadata _ _ _ _ _ Em) as [L3 P3].
    rewrite (proj1 (keep_size _ _ _ _)) in Hz. rewrite (proj2 (keep_size _ _ _ _)) in Hnl. cbn in Hz, Hnl.
    destruct (counts_node_special path n1 t1 l1 ltac:(lia) Hnl _ _ _ Hh3 E) as [(_ & S1 & _) _].
    destruct (node_special_left _ _ _ _ _ _ _ E) as [S2 S3]. split; [lia|]. unfold sets_left. rewrite S3, P3, B4. split; [|done].
    destruct S2 as [->|]; [left; congruence|by right].
Qed.

Lemma next_loop_advances dirs : forall r n r', have_ok (rd_have r) -> next_loop dirs r = (Ok n, r') -> advances r n r'.
Proof.
  assert (forall r r1 n r', (bytes_left r1 <= bytes_left r)%nat -> rd_left r1 = rd_left r -> fixed r1 = fixed r ->
    advances r1 n r' -> advances r n r') as Hadv.
  { intros r r1 n r' Hb Hl Hp [A1 A2 [A3 A4] A5]. constructor; [lia|done| |done]. split; congruence. }
  induction dirs as [|d dirs IH]; intros r n r' Hh E; cbn [next_loop] in E; [by repeat case_match|].
  unfold mbind at 1, R_bind in E. destruct (peek r) as [[[t l]|e] r1] eqn:Ep; [|done].
  destruct (counts_peek r _ _ Hh Ep) as [(_ & Hle & _) Hi]. cbn [fst snd] in Hi. destruct (proj1 framed_base _ _ _ Ep) as [L1 P1].
  case_decide; [|case_decide].
  - unfold mbind at 1 in E. destruct (rskip t l r1) as [[b|e] r2] eqn:Eb; [|done].
    destruct (counts_rskip t l r1 b r2 Hi Eb) as [(_ & Hl2 & _) Hn]. destruct (proj1 (proj2 (proj2 framed_base)) _ _ _ _ _ Eb) as [L2 P2].
    unfold mbind, rmod in E. apply IH in E; [|cbn; by rewrite Hn].
    eapply Hadv; [| | |exact E]; [change (bytes_left (set_dirs dirs r2)) with (bytes_left r2); lia|cbn; congruence|etrans; [done|]; congruence].
  - unfold mbind at 1 in E. destruct (rbody t l r1) as [[b|e] r2] eqn:Eb; [|done].
    destruct (counts_rbody t l r1 b r2 Hi Eb) as [(_ & Hl2 & _) Hn]. destruct (proj1 (proj2 framed_base) _ _ _ _ _ Eb) as [L2 P2].
    unfold mbind, lift in E. destruct (cstring b) as [nm|e]; [|done]. destruct (validate_name nm) as [[]|e]; [|done].
    apply read_node_advances in E; [|by rewrite Hn]. eapply Hadv; [| | |exact E]; [lia|congruence..].
  - unfold mbind, rget, rfail in E. by simplify_eq.
Qed.

(** The reader between calls, on a payload stream that reads in full. *)
Definition full (pay : option readerAt) : Prop := forall ra off want b, pay = Some ra -> ra off want = (b, None) -> length b = want.
Record sound (r : rstate) : Prop := { so_have : have_ok (rd_have r); so_left : 0 <= rd_left r; so_full : full (rd_payload r) }.

Lemma skip_content_spends r u r' : skip_content r = (Ok u, r') ->
  (bytes_left r' <= bytes_left r)%nat /\ rd_have r' = rd_have r /\ fixed r' = fixed r.
Proof.
  unfold skip_content. intros E. case_match; [|by simplify_eq]. case_match; [by simplify_eq|].
  destruct (ReadFull _ _) as [[b [e|]] br] eqn:Er; [done|]. simplify_eq. apply take_bytes in Er as [Hc _].
  unfold bytes_left. cbn. split; [lia|done].
Qed.

Lemma Next_advances r n r' : sound r -> Next r = (Ok n, r') -> (bytes_left r' < bytes_left r)%nat /\ sound r' /\ rd_err r' = None.
Proof.
  intros [Hh Hl Hf] E. unfold Next in E. destruct (rd_err r) eqn:Ee; [done|]. destruct (next r) as [[n'|e] r1] eqn:En; [|done].
  simplify_eq. unfold next in En. unfold mbind at 1, R_bind in En. destruct (skip_content r) as [[[]|e] r1] eqn:Es; [|done].
  destruct (skip_content_spends _ _ _ Es) as (S1 & S2 & S3). unfold mbind at 1, rmod in En. unfold mbind at 1, rget in En.
  assert (forall r2, (bytes_left r2 <= bytes_left r)%nat -> rd_left r2 = 0 -> fixed r2 = fixed r -> advances r2 n r' ->
    (bytes_left r' < bytes_left r)%nat /\ sound r' /\ rd_err r' = None) as Hadv.
  { intros r2 H1 H2 H3 [A1 A2 [A3 A4] A5]. rewrite H3 in A4. injection A4 as A4 A6. split; [lia|].
    split; [|congruence]. constructor; [done|destruct A3; lia|by rewrite A4]. }
  case_match.
  - unfold mbind in En. set (r2 := set_started (set_content CNone 0 r1)) in En. destruct (readHead r2) as [[[]|e] r3] eqn:Eh; [|done].
    destruct (framed_readHead _ _ _ Eh) as [L3 P3].
    assert (spent r2 r3 /\ have_ok (rd_have r3)) as [(_ & B3 & _) Hh3].
    { apply (counts_readHead r2 () r3); [|done]. cbn. by rewrite S2. }
    eapply (Hadv r3); [etrans; [exact B3|exact S1]|by rewrite L3|by rewrite P3|]. by eapply read_node_advances.
  - unfold mbind, rget in En. eapply (Hadv (set_content CNone 0 r1)); try done. eapply next_loop_advances; [|exact En]. cbn. by rewrite S2.
Qed.

Lemma RRead_end want r b r' : RRead want r = (b, Some RdEOF, r') -> r' = r.
Proof.
  unfold RRead. case_decide; [by intros [= _ <-]|]. destruct (content_read _ r) as [[c [e|]] r1]; [|done].
  case_decide; [done|]. intros [=].
Qed.

Lemma RRead_state want r b e r' : RRead want r = (b, e, r') ->
  rd_dirs r' = rd_dirs r /\ (e = None -> rd_err r' = rd_err r).
Proof.
  unfold RRead. case_decide; [by intros [= <- <- <-]|]. destruct (content_read _ r) as [[c ce] r1] eqn:Ec.
  assert (rd_dirs r1 = rd_dirs r /\ rd_err r1 = rd_err r) as [<- <-].
  { unfold content_read in Ec. destruct (rd_content r); [by simplify_eq|..|by simplify_eq].
    - destruct (Read _ _) as [[? ?] ?]. by simplify_eq.
    - repeat case_match; by simplify_eq. }
  intros E. destruct ce; [case_decide|]; simplify_eq; cbn in *; destruct (inline _); done.
Qed.

Lemma Read_bytes want br b e br' : Read want br = (b, e, br') ->
  (length b <= want)%nat /\ (length (contents br').1 <= length (contents br).1)%nat.
Proof.
  unfold Read. destruct br as [|[c ce] br]; [by intros [= <- <- <-]; cbn; lia|]. case_decide; intros [= <- <- <-].
  - rewrite length_take. split; [lia|]. destruct ce; cbn; rewrite ?length_drop; [lia|]. destruct (contents br). cbn. rewrite !length_app, length_drop. lia.
  - split; [lia|]. destruct ce; cbn; [lia|]. destruct (contents br). cbn. rewrite length_app. lia.
Qed.

Lemma Read_rsize_le want br b e br' : Read want br = (b, e, br') -> (rsize br' <= rsize br)%nat.
Proof.
  unfold Read. destruct br as [|[c ce] br]; [by intros [= <- <- <-]|]. case_decide; intros [= <- <- <-]; rewrite !rsize_cons.
  - rewrite length_drop. lia.
  - destruct ce; rewrite ?rsize_cons; cbn; lia.
Qed.

(** One read of the content of the current file. *)
Lemma content_read_spends want r c e r1 : full (rd_payload r) -> (0 < want)%nat -> content_read want r = (c, e, r1) ->
  rd_left r1 = rd_left r /\ rd_have r1 = rd_have r /\ rd_payload r1 = rd_payload r /\
  (bytes_left r1 <= bytes_left r)%nat /\ (rsize (rd_br r1) <= rsize (rd_br r))%nat /\
  (e = None -> (length c <= want)%nat /\ ((rsize (rd_br r1) < rsize (rd_br r))%nat \/ (0 < length c)%nat)).
Proof.
  intros Hf Hw E. unfold content_read in E. destruct (rd_content r) as [| |off limit|];
    [by simplify_eq; split_and!; first [done|lia]| | |by simplify_eq; split_and!; first [done|lia]].
  - destruct (Read want (rd_br r)) as [[b' e'] br] eqn:Er. simplify_eq.
    destruct (Read_bytes _ _ _ _ _ Er) as [Hl Hc]. pose proof (Read_rsize_le _ _ _ _ _ Er) as Hs.
    split_and!; try done; [unfold bytes_left; cbn; lia|]. intros ->. split; [done|]. left. by eapply Read_rsize.
  - destruct (Z.leb_spec limit off); [by simplify_eq; split_and!; first [done|lia]|].
    destruct (rd_payload r) as [ra|] eqn:Ep; [|by simplify_eq; split_and!; first [done|lia]].
    destruct (ra off _) as [b' e'] eqn:Er. simplify_eq. split_and!; try done. intros ->. apply (Hf ra) in Er; [|done]. split; [lia|]. right. lia.
Qed.

Lemma RRead_advances want r b r' : sound r -> (0 < want)%nat -> RRead want r = (b, None, r') ->
  sound r' /\ (bytes_left r' <= bytes_left r)%nat /\
  (rsize (rd_br r') + Z.to_nat (rd_left r') < rsize (rd_br r) + Z.to_nat (rd_left r))%nat.
Proof.
  intros [Hh Hl Hf] Hw. unfold RRead. case_decide as H0; [done|].
  set (want' := if _ <? _ then _ else want).
  assert (0 < want')%nat as Hw' by (unfold want'; destruct (Z.ltb_spec (rd_left r) (Z.of_nat want)); lia).
  assert (Z.of_nat want' <= rd_left r) as Hwl by (unfold want'; destruct (Z.ltb_spec (rd_left r) (Z.of_nat want)); lia).
  destruct (content_read want' r) as [[c e] r1] eqn:Ec. cbv zeta.
  intros E. assert (b = c /\ r' = (let r2 := set_content (rd_content r1) (rd_left r1 - zlen c) r1 in
    if inline r2 then set_pos (u64 (rd_pos r2 + zlen c)) r2 else r2) /\ (e <> None -> rd_left r1 - zlen c = 0)) as (-> & -> & He).
  { clear -E. set (r2 := set_content _ _ r1) in *. cbv zeta. set (r3 := if inline r2 then _ else _) in *.
    assert (rd_left r3 = rd_left r1 - zlen c) as <- by (unfold r3; by destruct (inline r2)).
    destruct e; [destruct (decide (rd_left r3 = 0)); [|done]|]; by injection E as -> ->. }
  clear E. cbv zeta.
  destruct (content_read_spends want' r c e r1 Hf Hw' Ec) as (R1 & R2 & R3 & R4 & R5 & R6).
  assert (0 <= rd_left r - zlen c) as Hpos by (rewrite R1 in He; destruct e; [rewrite He by done|destruct (R6 eq_refl)]; lia).
  assert (rsize (rd_br r1) + Z.to_nat (rd_left r - zlen c) < rsize (rd_br r) + Z.to_nat (rd_left r))%nat as Hdec.
  { destruct e as [e|]; [rewrite R1 in He; rewrite He by done; lia|]. destruct R6 as [? [?|?]]; [done|lia|lia]. }
  set (r2 := set_content _ _ r1). assert (rd_br r2 = rd_br r1 /\ rd_have r2 = rd_have r1) as [Eb2 Eh2] by done.
  destruct (inline _); (split; [constructor; cbn; [by rewrite R2|by rewrite R1|by rewrite R3]|]); cbn; rewrite R1; (split; [exact R4|exact Hdec]).
Qed.

(* ------------------------------------------------------------------ *)
(** ** The extractor on any archive *)

(** Errors of the restore, as opposed to running out of fuel. *)
Definition no_fuel (e : restore_error) : Prop :=
  match e with ReFuel | ReCopy _ CeFuel | ReReader RdFuel => False | _ => True end.

Section inside.
Context {W File E : Type} `{RootSys W File} `{MetadataWriter W E}.

(** [inv] is kept by every call at a valid path below the target; [made] are
    the files the restore created.  Nothing else is called; the target of a
    symlink is content, not a path. *)
Record kept_inside (inv : W -> Prop) (made : File -> Prop) : Prop := {
  ki_Lstat p w : target_path p -> inv w -> inv (root_Lstat p w).2;
  ki_Remove p w : target_path p -> inv w -> inv (root_Remove p w).2;
  ki_Link old p w : validatePath old = Ok () -> target_path p -> inv w -> inv (root_Link old p w).2;
  ki_Mkdir p perm w : target_path p -> inv w -> inv (root_Mkdir p perm w).2;
  ki_Create p perm w : target_path p -> inv w ->
    inv (root_Create p perm w).2 /\ forall f, (root_Create p perm w).1 = Ok f -> made f;
  ki_Symlink target p w : target_path p -> inv w -> inv (root_Symlink target p w).2;
  ki_Write f b w : made f -> inv w -> inv (file_Write f b w).2;
  ki_Close f w : made f -> inv w -> inv (file_Close f w).2;
  ki_Close_root w : inv w -> inv (root_Close w);
  ki_Mknod p n w : target_path p -> inv w -> inv (w_Mknod p n w).2;
  ki_Apply p n w : target_path p -> inv w -> inv (w_Apply p n w).2 }.

Context (inv : W -> Prop) (made : File -> Prop) (laws : kept_inside inv made).
Variables (Overwrite : bool) (validName : bytes -> option name_problem).

#[local] Abbreviation ext := (extractor W E rstate).
#[local] Existing Instances X_ret X_bind.

(** The state between two steps. *)
Record steady (x : ext) : Prop := {
  sd_inv : inv (x_world x); sd_dirs : Forall (fun d => target_path d.1) (x_dirs x);
  sd_src : sound (x_src x); sd_state : rd_err (x_src x) = None -> safe_state (x_src x);
  sd_err : rd_err (x_src x) <> Some RdFuel }.

(** [m] keeps the invariant, consumes no more than it returns of the archive
    and, if it succeeds, returns a [Q]. *)
Definition stays {A} (m : X A) (Q : A -> Prop) : Prop :=
  forall x res x', steady x -> m x = (res, x') ->
  inv (x_world x') /\
  match res with
  | Ok a => Q a /\ steady x' /\ (bytes_left (x_src x') <= bytes_left (x_src x))%nat
  | Err e => no_fuel e
  end.

Lemma stays_bind {A B} (m : X A) (f : A -> X B) P Q : stays m P -> (forall a, P a -> stays (f a) Q) -> stays (m ≫= f) Q.
Proof.
  intros Hm Hf x res x' Hx E0. unfold mbind, X_bind in E0. destruct (m x) as [[a|e] x1] eqn:Em;
    destruct (Hm _ _ _ Hx Em) as [Hi H1]; [|by simplify_eq]. destruct H1 as (HP & Hs & Hl).
  destruct (Hf a HP _ _ _ Hs E0) as [Hi' H2]. split; [done|]. destruct res; [|done]. destruct H2 as (? & ? & ?). split_and!; [done..|lia].
Qed.
Lemma stays_ret {A} (a : A) (Q : A -> Prop) : Q a -> stays (mret a) Q.
Proof. intros HQ x res x' Hx E0. unfold mret, X_ret in E0. simplify_eq. split; [apply Hx|done]. Qed.
Lemma stays_fail {A} e (Q : A -> Prop) : no_fuel e -> stays (xfail e) Q.
Proof. intros He x res x' Hx E0. unfold xfail in E0. simplify_eq. split; [apply Hx|done]. Qed.
Lemma stays_get {A} (f : ext -> A) : stays (xget f) (fun _ => True).
Proof. intros x res x' Hx E0. unfold xget in E0. simplify_eq. split; [apply Hx|done]. Qed.

Lemma steady_world w x : steady x -> inv w -> steady (set_world w x).
Proof. intros [] Hi. by constructor. Qed.

(** A call of the system. *)
Lemma stays_attempt {A} (f : W -> result Z A * W) (P : A -> Prop) :
  (forall w, inv w -> inv (f w).2 /\ forall a, (f w).1 = Ok a -> P a) ->
  stays (attempt f) (fun r => match r with Ok a => P a | Err _ => True end).
Proof.
  intros Hf x res x' Hx E0. unfold attempt in E0. destruct (f (x_world x)) as [r w] eqn:Ef. simplify_eq.
  destruct (Hf (x_world x) (sd_inv _ Hx)) as [Hi HP]. rewrite Ef in Hi, HP. split; [done|]. split; [destruct r; auto|].
  split; [by apply steady_world|done].
Qed.
Lemma stays_call {A} (f : W -> result Z A * W) : (forall w, inv w -> inv (f w).2) -> stays (attempt f) (fun _ => True).
Proof.
  intros Hf x res x' Hx E0. destruct (stays_attempt f (fun _ => True) ltac:(auto) x res x' Hx E0) as [Hi Hr].
  split; [done|]. destruct res; [|done]. by destruct Hr.
Qed.
Lemma stays_os {A} (f : W -> result Z A * W) (P : A -> Prop) :
  (forall w, inv w -> inv (f w).2 /\ forall a, (f w).1 = Ok a -> P a) -> stays (os f) P.
Proof. intros Hf. eapply stays_bind; [by apply stays_attempt|]. intros [a|e] Ha; [by apply stays_ret|by apply stays_fail]. Qed.

Lemma stays_warn name e : stays (warn name e) (fun _ => True).
Proof. intros x res x' Hx [= <- <-]. split; [apply Hx|]. split; [done|]. split; [by destruct Hx|done]. Qed.
Lemma stays_check : stays check_ctx (fun _ => True).
Proof.
  intros x res x' Hx E0. unfold check_ctx, canceled in E0. destruct (x_ctx x) as [[|k]|]; simplify_eq; (split; [apply Hx|]); [done|..];
    (split; [done|]); (split; [by destruct Hx|done]).
Qed.
Lemma stays_skip name : stays (xmod (set_skip name)) (fun _ => True).
Proof. intros x res x' Hx [= <- <-]. split; [apply Hx|]. split; [done|]. split; [by destruct Hx|done]. Qed.
Lemma stays_dir name n : target_path name -> stays (xmod (add_dir name n)) (fun _ => True).
Proof.
  intros Hn x res x' Hx [= <- <-]. split; [apply Hx|]. split; [done|]. split; [|done]. destruct Hx. constructor; try done.
  cbn. apply Forall_app. split; [done|by constructor].
Qed.
Lemma stays_apply name n : target_path name -> stays (apply_meta_to name n) (fun _ => True).
Proof.
  intros Hn x res x' Hx E0. unfold apply_meta_to in E0. pose proof (ki_Apply _ _ laws name n (x_world x) Hn (sd_inv _ Hx)) as Hi.
  destruct (w_Apply name n (x_world x)) as [l w]. simplify_eq. split; [done|]. split; [done|]. split; [|done]. by destruct Hx.
Qed.
Lemma stays_node name n : target_path name -> stays (make_node name n) (fun _ => True).
Proof.
  intros Hn x res x' Hx E0. unfold make_node in E0. pose proof (ki_Mknod _ _ laws name n (x_world x) Hn (sd_inv _ Hx)) as Hi.
  destruct (w_Mknod name n (x_world x)) as [[u|e] w].
  - exact (stays_apply name n Hn (set_world w x) _ _ (steady_world _ _ Hx Hi) E0).
  - exact (stays_warn name (WMknod e) (set_world w x) _ _ (steady_world _ _ Hx Hi) E0).
Qed.

Lemma stays_clear name isDir : target_path name -> stays (clear Overwrite name isDir) (fun _ => True).
Proof.
  intros Hn. unfold clear. destruct (negb Overwrite); [by apply stays_ret|].
  eapply stays_bind; [apply stays_call; intros w Hw; by apply (ki_Lstat _ _ laws)|]. intros [[]|e] _; [destruct isDir; [by apply stays_ret|by apply stays_fail]| |by apply stays_ret].
  apply stays_os. intros w Hw. split; [by apply (ki_Remove _ _ laws)|done].
Qed.

(** The copy of a file's content ends. *)
Lemma copy_loop_stays name f : made f -> forall fuel x e x', steady x ->
  (rsize (rd_br (x_src x)) + Z.to_nat (rd_left (x_src x)) < fuel)%nat -> copy_loop fuel name f x = (e, x') ->
  inv (x_world x') /\ match e with
    | Some e => e <> CeFuel
    | None => steady x' /\ (bytes_left (x_src x') <= bytes_left (x_src x))%nat end.
Proof.
  intros Hf. induction fuel as [|fuel IH]; intros x e x' Hx Hlt E0; [lia|]. cbn [copy_loop] in E0.
  destruct (canceled x) as [c x1] eqn:Ec.
  assert (steady x1 /\ x_src x1 = x_src x) as [Hx1 Es1].
  { unfold canceled in Ec. destruct (x_ctx x) as [[|k]|]; simplify_eq; (split; [by destruct Hx|done]). }
  destruct c; [simplify_eq; split; [apply Hx1|done]|]. rewrite <- Es1 in *. clear Ec Es1 Hx.
  cbn [c_Read reader_content] in E0. destruct (RRead copyBuffer (x_src x1)) as [[b re] r1] eqn:Er.
  set (x2 := if decide (b = []) then set_src r1 x1 else _) in E0.
  assert (x_src x2 = r1 /\ x_world x2 = x_world x1 /\ x_dirs x2 = x_dirs x1) as (Es2 & Ew2 & Ed2) by (unfold x2; by case_decide).
  clearbody x2.
  set (wr := if decide (b = []) then (None, x2) else _) in E0.
  assert (inv (x_world wr.2) /\ x_src wr.2 = r1 /\ x_dirs wr.2 = x_dirs x1 /\ wr.1 <> Some CeFuel) as (Hi3 & Es3 & Ed3 & Hne).
  { unfold wr. case_decide; [cbn; rewrite Ew2, Es2, Ed2; split_and!; try done; apply Hx1|].
    pose proof (ki_Write _ _ laws f b (x_world x2) Hf ltac:(rewrite Ew2; apply Hx1)) as Hw.
    destruct (file_Write f b (x_world x2)) as [[n ew] w]. cbn [snd] in Hw.
    repeat (case_match; cbn; try (rewrite Es2, Ed2)); by split_and!. }
  destruct wr as [werr x3]. cbn [fst snd] in *. destruct werr as [we|]; [simplify_eq; split; [done|congruence]|].
  destruct re as [re|]; cbn [fmap option_fmap option_map] in E0.
  - destruct (is_eof (RrReader re)) eqn:Ee; injection E0 as <- <-; (split; [done|]); [|done].
    assert (re = RdEOF) as -> by (by destruct re). apply RRead_end in Er. rewrite Er in Es3. rewrite Es3. split; [|done].
    destruct Hx1. constructor; rewrite ?Es3, ?Ed3; done.
  - destruct (RRead_advances copyBuffer (x_src x1) b r1 (sd_src _ Hx1) ltac:(unfold copyBuffer; lia) Er) as (Hs & Hb & Hl).
    apply IH in E0 as [Hi He]; [| |rewrite Es3; lia].
    + split; [done|]. destruct e; [done|]. destruct He as [He Hle]. split; [done|]. rewrite Es3 in Hle. lia.
    + destruct (RRead_state _ _ _ _ _ Er) as [Hd He]. constructor; rewrite ?Es3, ?Ed3, ?He by done; try done; try apply Hx1.
      intros Hn. unfold safe_state. rewrite Hd. by apply Hx1.
Qed.

Lemma stays_copy name f : made f -> stays (copy_close name f) (fun _ => True).
Proof.
  intros Hf x res x' Hx E0. unfold copy_close in E0. destruct (copy_loop _ name f x) as [err x1] eqn:Ec.
  apply (copy_loop_stays name f Hf) in Ec as [Hi He]; [|done|cbn; lia].
  pose proof (ki_Close _ _ laws f (x_world x1) Hf Hi) as Hc. destruct (file_Close f (x_world x1)) as [cerr w]. cbn [snd] in Hc.
  destruct err as [e|]; [simplify_eq; split; [done|by destruct e]|]. destruct cerr as [e|]; simplify_eq; [done|].
  split; [done|]. split; [done|]. destruct He as [He Hle]. split; [by apply steady_world|done].
Qed.

(** One entry of the archive. *)
Lemma stays_entry n : safe_node n -> stays (restore_entry Overwrite validName n (r_Path n)) (fun _ => True).
Proof.
  intros [Hp Hlink]. unfold restore_entry. eapply stays_bind; [apply stays_check|]. intros _ _. cbv zeta.
  set (name := if decide (r_Path n = []) then dot else r_Path n).
  assert (target_path name) as Ht by (unfold name, target_path; case_decide; [by left|destruct Hp; [done|by right]]).
  eapply stays_bind; [apply stays_get|]. intros skip _. destruct (negb _ && _); [by apply stays_ret|].
  destruct (if decide (name = dot) then None else validName (path_Base name)).
  { eapply stays_bind; [apply stays_warn|]. intros _ _. destruct (_ =? modeDir); [apply stays_skip|by apply stays_ret]. }
  pose proof (fun isDir => stays_clear name isDir Ht) as Hclear.
  assert (forall (f : W -> result Z unit * W) (g : result Z unit -> X unit), (forall w, inv w -> inv (f w).2) ->
    (forall r, stays (g r) (fun _ => True)) -> stays (r ← attempt f; g r) (fun _ => True)) as Hcall.
  { intros f g Hf Hg. eapply stays_bind; [by apply stays_call|]. intros r _. apply Hg. }
  destruct (r_Hardlink n); [|destruct (_ =? modeDir); [|destruct (_ =? modeRegular); [|destruct (_ =? modeSymlink)]]].
  - eapply stays_bind; [apply Hclear|]. intros _ _. apply Hcall; [intros w Hw; by apply (ki_Link _ _ laws), Hw; auto|].
    intros [u|e]; [by apply stays_ret|apply stays_warn].
  - apply (stays_bind _ _ (fun _ => True)); [|intros _ _; by apply stays_dir]. case_decide; [by apply stays_ret|].
    eapply stays_bind; [apply Hclear|]. intros _ _. apply Hcall; [intros w Hw; by apply (ki_Mkdir _ _ laws)|].
    intros [u|e]; [by apply stays_ret|]. destruct (is_exist e); [by apply stays_ret|by apply stays_fail].
  - eapply stays_bind; [apply Hclear|]. intros _ _. eapply (stays_bind _ _ made).
    { apply stays_os. intros w Hw. by apply (ki_Create _ _ laws). }
    intros f Hf. eapply stays_bind; [by apply stays_copy|]. intros _ _. by apply stays_apply.
  - eapply stays_bind; [apply Hclear|]. intros _ _. apply Hcall; [intros w Hw; by apply (ki_Symlink _ _ laws)|].
    intros [u|e]; [by apply stays_apply|apply stays_warn].
  - eapply stays_bind; [apply Hclear|]. intros _ _. by apply stays_node.
Qed.

Lemma finish_stays dirs : Forall (fun d => target_path d.1) dirs -> forall (x : ext) res x', inv (x_world x) ->
  finish_dirs dirs x = (res, x') -> inv (x_world x') /\ match res with Ok _ => True | Err e => no_fuel e end.
Proof.
  induction 1 as [|[name n] dirs Hd _ IH]; intros x res x' Hi E0; cbn [finish_dirs] in E0; [by injection E0 as <- <-|].
  unfold mbind, X_bind, check_ctx in E0. destruct (canceled x) as [c x1] eqn:Ec.
  assert (x_world x1 = x_world x) as Ew by (unfold canceled in Ec; by repeat case_match; simplify_eq).
  destruct c; [injection E0 as <- <-; by rewrite Ew|]. unfold apply_meta_to in E0. rewrite Ew in E0.
  pose proof (ki_Apply _ _ laws name n (x_world x) Hd Hi) as Hi'. destruct (w_Apply name n (x_world x)) as [l w]. by apply IH in E0.
Qed.

Lemma extract_loop_stays : forall fuel x res x', steady x -> (bytes_left (x_src x) < fuel)%nat ->
  extract_loop Overwrite validName fuel x = (res, x') ->
  inv (x_world x') /\ match res with Ok _ => True | Err e => no_fuel e end.
Proof.
  induction fuel as [|fuel IH]; intros x res x' Hx Hf E0; [lia|]. cbn [extract_loop] in E0.
  destruct (Next (x_src x)) as [[n|e] r1] eqn:En.
  - destruct (Next_advances _ _ _ (sd_src _ Hx) En) as (Hlt & Hso & Ee1).
    assert (rd_err (x_src x) = None) as Ee by (unfold Next in En; by destruct (rd_err (x_src x))).
    pose proof (sd_state _ Hx Ee) as Hst.
    assert (safe_node n /\ safe_state r1) as [Hn Hs1].
    { unfold Next in En. rewrite Ee in En. destruct (next (x_src x)) as [[n'|e] r2] eqn:E1; [|done]. simplify_eq. exact (next_safe _ _ _ Hst E1). }
    assert (steady (set_src r1 x)) as Hx1 by (destruct Hx; constructor; cbn; rewrite ?Ee1; auto).
    destruct (restore_entry _ _ n _ _) as [[u|e] x1] eqn:E1; destruct (stays_entry n Hn _ _ _ Hx1 E1) as [Hi H1]; [|by simplify_eq].
    destruct H1 as (_ & Hs & Hl). cbn in Hl. by apply IH in E0; [|done|lia].
  - assert (e <> RdFuel) as Hne.
    { unfold Next in En. destruct (rd_err (x_src x)) eqn:Ee; [simplify_eq; intros ->; by apply (sd_err _ Hx)|].
      destruct (next (x_src x)) as [[n|e'] r2] eqn:E1; [done|]. simplify_eq. exact (next_safe _ _ _ (sd_state _ Hx Ee) E1). }
    assert (finish (set_src r1 x) = (res, x') \/ e <> RdEOF /\ res = Err (ReReader e) /\ x' = set_src r1 x) as [Ef|(_ & -> & ->)].
    { destruct e; (by left) || (right; by simplify_eq). }
    + unfold finish in Ef. cbn [x_dirs set_src] in Ef. eapply finish_stays; [| |exact Ef]; [apply Forall_rev, Hx|apply Hx].
    + split; [apply Hx|]. by destruct e.
Qed.

Lemma new_src ctx dir w r u (x : ext) : newExtractor Overwrite ctx dir w r = (Ok u, x) -> x_src x = r /\ x_dirs x = [].
Proof.
  unfold newExtractor, mbind, X_bind, os, attempt, mbind, X_bind, mret, X_ret, xfail. cbn [x_world set_world].
  destruct (os_MkdirAll dir 0x1ed w) as [[?|?] w1]; [|done]. cbn [x_world set_world].
  destruct Overwrite.
  - unfold mbind, mret; cbn. destruct (os_OpenRoot dir w1) as [[?|?] w3]; [|done]. by intros [= _ <-].
  - unfold mbind, mret; cbn. destruct (os_ReadDirNames dir w1) as [[names|?] w2]; [|done]. cbn [x_world set_world].
    destruct names; [|done]. cbn [x_world set_world]. destruct (os_OpenRoot dir w2) as [[?|?] w3]; [|done]. by intros [= _ <-].
Qed.

(** C11: Restoring any bytes at all, an archive or not, in any segmentation, with
    or without Overwrite, whatever calls fail and whenever the context is
    canceled: every name the restore gives to the system is ["."] or a valid
    path below the target (valid file names, no [".."]), the old name of a hard
    link too, every file it writes or closes is one it created, so whatever
    such calls preserve holds at the end; and the restore ends, no loop running
    out of its bound. *)
Theorem extract_stays_inside ctx dir w r u (x : ext) :
  newExtractor Overwrite ctx dir w r = (Ok u, x) -> inv (x_world x) ->
  unstarted r -> rd_have r = None -> rd_left r = 0 -> full (rd_payload r) ->
  let '(res, x') := Extract Overwrite validName ctx dir w r in
  inv (x_world x') /\ match res with Ok _ => True | Err e => no_fuel e end.
Proof.
  intros Hnew Hi [Hd He] Hh Hl Hf. unfold Extract. rewrite Hnew.
  assert (x_src x = r /\ x_dirs x = []) as [Es Ed] by (by eapply new_src).
  destruct (extract_loop _ _ _ x) as [res x1] eqn:E1. cbn [closing].
  assert (steady x) as Hx.
  { constructor; rewrite ?Es, ?Ed; try done; [| |rewrite He; discriminate].
    - constructor; [by rewrite Hh|lia|done].
    - intros _. unfold safe_state. rewrite Hd. split; [constructor|cbn; lia]. }
  apply extract_loop_stays in E1 as [Hi1 Hr]; [|done|].
  - split; [by apply (ki_Close_root _ _ laws)|done].
  - rewrite Es. unfold bytes_left. rewrite Hh. lia.
Qed.
End inside.

(* ------------------------------------------------------------------ *)
(** ** Witness: a target that records the names it is called with *)

Abbreviation log := (list (list Byte.byte)).
Definition logged {A} (p : bytes) (a : A) (l : log) : result Z A * log := (Ok a, p :: l).

#[export] Instance log_root : RootSys log unit := {
  os_MkdirAll _ _ l := (Ok (), l); os_ReadDirNames _ l := (Ok [], l); os_OpenRoot _ l := (Ok (), l);
  root_MkdirAll p _ := logged p (); root_Lstat p := logged p false; root_Remove p := logged p ();
  root_Link old p l := (Ok (), old :: p :: l); root_Mkdir p _ := logged p (); root_Create p _ := logged p ();
  root_Symlink _ p := logged p (); root_Chmod p _ := logged p (); root_Chtimes p _ := logged p (); root_Close l := l;
  file_Write _ b l := (zlen b, None, l); file_Close _ l := (None, l) }.

Lemma log_kept : kept_inside (W := log) (E := portable_error) (Forall target_path) (fun _ => True).
Proof.
  constructor; intros; cbn [snd fst root_Lstat root_Remove root_Link root_Mkdir root_Create root_Symlink root_Close file_Write file_Close
    log_root logged w_Mknod w_Apply portableWriter portable_Mknod portable_Apply root_Chmod root_Chtimes]; try done; try (by constructor).
  - constructor; [by right|by constructor].
  - split; [by constructor|done].
  - unfold portable_Apply. cbv zeta. case_match; [done|]. cbn. constructor; [done|by constructor].
Qed.

(** A directory with a subdirectory ["d"] in which an entry is called [".."]. *)
Definition climbing : reader := [(frames [REntry (mkEntry 0x41ed 0 0 0 0 0); RFilename (lit "d"); REntry (mkEntry 0x41ed 0 0 0 0 0);
  RFilename (lit ".."); REntry (mkEntry 0x41ed 0 0 0 0 0)], Some EOF)].
Definition climbing_x : extractor log portable_error rstate := mkX [] (NewReaderV1 climbing) None [] [] [] [].

Lemma extract_stays_inside_witness :
  let '(res, x') := Extract (E := portable_error) true linux_validName None (lit "/restore") ([] : log) (NewReaderV1 climbing) in
  Forall target_path (x_world x') /\ match res with Ok _ => True | Err e => no_fuel e end.
Proof.
  apply (extract_stays_inside (Forall target_path) (fun _ => True) log_kept true linux_validName None (lit "/restore") [] (NewReaderV1 climbing) ()
    climbing_x); try reflexivity.
  - constructor.
  - split; reflexivity.
  - intros ra off want b. discriminate.
Defined.

(** The subdirectory is made; the entry is refused. *)
Example climbing_names :
  let '(res, x') := Extract (E := portable_error) true linux_validName None (lit "/restore") ([] : log) (NewReaderV1 climbing) in
  x_world x' = [lit "d"; lit "d"; lit "d"] /\ exists e, res = Err (ReReader e).
Proof. vm_compute. by split; [|eexists]. Qed.
