(* ===== verification/RestoreDisk.v ===== *)
(** * Restores to a disk in memory

    [Disk]'s file system as the target of a restore: the laws of [RestoreSpec]
    hold on it, and archives of a small tree are extracted to it. *)

From S2P Require Import Prelude Format BinTree Io Tree Payload Reuse Refs Emit Reader ReaderSpec ReaderSafe Glob Previous ArchiveV2 FS Acl Scan Linux LinuxSpec Disk Restore RestoreSpec.
From Stdlib Require Import Strings.Byte.
Local Open Scope Z_scope.

(** A new inode under a name that is free. *)
Definition make_new (p : bytes) (i : inode) (F : fsys) : result Z nat * fsys :=
  match f_at F p with
  | Some _ => (Err EEXIST, F)
  | None =>
      let k := base.fresh (dom (f_inodes F)) in
      (Ok k, mkFsys (<[p := k]> (f_names F)) (<[k := i]> (f_inodes F)))
  end.
Definition done_with {A} (r : result Z A * fsys) : result Z unit * fsys :=
  let '(r, F) := r in (match r with Ok _ => Ok () | Err e => Err e end, F).
Definition new_of (kind perm : Z) (data : bytes) : inode := mkInode kind perm 0 0 (0, 0) zeroDevice data ∅.
Definition append_data (b : bytes) (i : inode) : inode :=
  mkInode (i_kind i) (i_perm i) (i_uid i) (i_gid i) (i_mtime i) (i_rdev i) (i_data i ++ b) (i_xattrs i).

#[export] Instance disk_root : RootSys fsys nat := {
  os_MkdirAll _ _ F := (Ok (), F);
  os_ReadDirNames _ F := (Ok (filter (fun p => p <> dot /\ slash ∉ p) (map_to_list (f_names F)).*1), F);
  os_OpenRoot _ F := (Ok (), F);
  root_MkdirAll p perm F := done_with (make_new p (new_of modeDir perm []) F);
  root_Lstat p F := (match f_at F p with Some (_, i) => Ok (i_kind i =? modeDir) | None => Err ENOENT end, F);
  root_Remove p F := (Ok (), mkFsys (delete p (f_names F)) (f_inodes F));
  root_Link old p F :=
    match f_at F old, f_at F p with
    | Some (k, _), None => (Ok (), mkFsys (<[p := k]> (f_names F)) (f_inodes F))
    | Some _, Some _ => (Err EEXIST, F)
    | None, _ => (Err ENOENT, F)
    end;
  root_Mkdir p perm F := done_with (make_new p (new_of modeDir perm []) F);
  root_Create p perm := make_new p (new_of modeRegular perm []);
  root_Symlink target p F := done_with (make_new p (new_of modeSymlink 0x1ff target) F);
  root_Chmod p perm := on_path p (set_perm perm);
  root_Chtimes p t := on_path p (set_time t);
  root_Close F := F;
  file_Write k b F := let '(r, F) := on_inode k (append_data b) F in
    match r with Ok _ => (zlen b, None, F) | Err e => (0, Some e, F) end;
  file_Close _ F := (None, F) }.

Lemma make_new_creates F p kind perm data : can_create F p ->
  exists k, make_new p (new_of kind perm data) F = (Ok k, (make_new p (new_of kind perm data) F).2) /\
    creates F p k (new_of kind perm data) (make_new p (new_of kind perm data) F).2 /\
    new_inode (new_of kind perm data) kind data zeroDevice.
Proof.
  intros (_ & Hf & _). unfold make_new, f_at. rewrite Hf. cbn [mbind option_bind]. eexists. split; [reflexivity|].
  split; [apply creates_fresh|done].
Qed.

Lemma disk_root_laws : root_laws (fun F : fsys => F) (fun k : nat => k).
Proof.
  assert (forall F p kind perm data, can_create F p -> exists w' k i,
    done_with (make_new p (new_of kind perm data) F) = (Ok (), w') /\ creates F p k i w' /\ new_inode i kind data zeroDevice /\ i_perm i = perm) as Hmk.
  { intros F p kind perm data Hc. destruct (make_new_creates F p kind perm data Hc) as (k & E & C & N).
    eexists _, k, _. rewrite E. done. }
  constructor; cbn.
  - intros p perm F Hc. destruct (Hmk F p modeDir perm [] Hc) as (w' & k & i & ? & ? & ? & _). by exists w', k, i.
  - intros p perm F Hc. destruct (make_new_creates F p modeRegular perm [] Hc) as (k & E & C & N). by eexists k, _, _.
  - intros k b F i c Hi (Hk & Hd & Hr & Hx). unfold on_inode. rewrite Hi. eexists _, (append_data b i). split; [done|].
    split; [done|]. unfold new_inode, append_data. cbn. by rewrite Hk, Hd, Hr, Hx.
  - intros k F. by exists F.
  - intros target p F Hc _. by apply (Hmk F p modeSymlink 0x1ff target).
  - intros old p F k i Hc Hat Hk. rewrite Hat. destruct Hc as (_ & Hf & _). unfold f_at at 1. rewrite Hf. cbn.
    eexists. split; [done|]. split; [done|]. intros k'. cbn. destruct (f_inodes F !! k'); constructor. apply touched_refl.
  - done.
Qed.

(* ------------------------------------------------------------------ *)
(** ** A tree that can be restored *)

(** An owned node, with an attribute or without. *)
Definition disk_node (name path : bytes) (kind : Kind) (mode size nlink : Z) (target : bytes) (xattrs : list Xattr)
    (children : list node) (stream : option reader) : node :=
  mkNode name path kind (mkStat mode 7 8 1700000000 5 size nlink 1 2 zeroDevice) target xattrs None [] 0 children stream.

(** A directory holding a linked file, its hardlink, a directory with a
    symlink, a fifo and a stream. *)
Definition disk_tree : node :=
  disk_node (lit "r") (lit "/r") KindDirectory 0x41ed 0 1 [] [mkXattr (lit "user.k") (lit "v")]
    [disk_node (lit "a") (lit "/r/a") KindFile 0x81a4 3 2 [] [mkXattr (lit "user.k") (lit "w")] [] None;
     disk_node (lit "b") (lit "/r/b") KindHardlink 0x81a4 3 2 (lit "a") [] [] None;
     disk_node (lit "d") (lit "/r/d") KindDirectory 0x416d 0 1 [] []
       [disk_node (lit "l") (lit "/r/d/l") KindSymlink 0xa1ff 0 1 (lit "../a") [] [] None] None;
     disk_node (lit "p") (lit "/r/p") KindFifo 0x11a4 0 1 [] [] [] None;
     disk_node (lit "s") [] KindStream 0x81a4 4 1 [] [] [] (Some sample_reader)] None.

#[local] Abbreviation disk_ok := (restorable (fun _ _ _ => True) (fun _ => True)).

Ltac disk_nodes := repeat match goal with
  | |- tree_all _ _ => apply tree_all_node
  | |- Forall _ (n_Children _) => cbn [n_Children disk_node]
  | |- Forall _ (_ :: _) => apply Forall_cons; split
  | |- Forall _ [] => apply Forall_nil; exact Logic.I
  end.

Lemma disk_good : tree_all (unchanged sample_fs) disk_tree.
Proof.
  unfold disk_tree. disk_nodes; unfold unchanged; cbn -[sample_fs]; try done; intros _; (split; [lia|]); eauto.
  - eexists _, _. split_and!; reflexivity.
  - eexists. split; reflexivity.
Qed.
Lemma disk_wf : tree_all wf_node disk_tree.
Proof.
  unfold disk_tree. disk_nodes; (split;
    [cbn; unfold wf_entry; cbn; split_and!; try reflexivity; small
    |cbn; repeat constructor; try (cbn; unfold maxRecordBody; lia); try done; vm_compute; set_solver
    |reflexivity
    |cbn; repeat constructor; vm_compute; done
    |cbn; lia
    |try done
    |try done
    |split; small]).
Qed.
Lemma disk_names : tree_all distinct_names disk_tree.
Proof. unfold disk_tree. disk_nodes; apply (bool_decide_unpack _); by vm_compute. Qed.

Lemma disk_node_restorable name path kind mode size nlink target xattrs children stream it :
  it_node it = disk_node name path kind mode size nlink target xattrs children stream -> (forall off, it_data it <> DLink off) ->
  0 <= mode < 2 ^ 16 -> (xattrs = [] \/ (Z.land mode modeTypeMask = modeRegular \/ Z.land mode modeTypeMask = modeDir) /\
    exists name value, xattrs = [mkXattr name value] /\ plain_name name) -> disk_ok (decode_item false it).
Proof.
  intros En Hd Hm Hx. unfold decode_item. rewrite En. destruct (it_data it) as [| | |off] eqn:Ed; [..|by destruct (Hd off)].
  all: constructor; cbn; try done; try (by apply Forall_true).
  all: try (destruct Hx as [->|(_ & xn & xv & -> & Hp)]; (split; [by repeat first [exact Hp|constructor]|by repeat constructor])).
  all: destruct Hx as [->|(Ht & _)]; [cbn; intros [Hc|Hc]; by destruct Hc|intros _; exact Ht].
Qed.

Lemma disk_fits : tree_all (fits disk_ok) disk_tree.
Proof.
  assert (plain_name (lit "user.k")) as Hp by (repeat split; try done; apply (bool_decide_unpack _); by vm_compute).
  unfold disk_tree. disk_nodes; (constructor;
    [intros it En Hd; eapply disk_node_restorable; [exact En|exact Hd|lia|]; (by left) || (right; split; [vm_compute; tauto|eauto])
    |by repeat split|cbn; intros; done || reflexivity]).
Qed.

(* ------------------------------------------------------------------ *)
(** ** Witnesses *)

Definition empty_disk : fsys := mkFsys {[ dot := O ]} {[ O := sample_root ]}.
Definition disk_x (r : rstate) : extractor fsys linux_error rstate := mkX empty_disk r None [] [] [] [].

Lemma disk_empty : empty_target empty_disk.
Proof. by exists O, sample_root. Qed.
Lemma disk_restorable : restorable_tree disk_ok (unchanged sample_fs) disk_tree.
Proof.
  constructor; [apply disk_good|apply disk_wf|apply disk_names|apply disk_fits| |reflexivity].
  apply Nat.leb_le. vm_compute. reflexivity.
Qed.
Lemma disk_opens r : newExtractor false None (lit "/restore") empty_disk r = (Ok (), disk_x r).
Proof. reflexivity. Qed.

(** The archive of the tree, arriving in two reads. *)
Definition disk_out : bytes := cw_out (em_w (@em_run _ _ toy_siphash disk_tree sample_em).2).
Definition disk_seg : reader := [(take 7 disk_out, None); (drop 7 disk_out, Some EOF)].

Lemma extract_restores_v1_witness :
  exists xs (x' : extractor fsys linux_error rstate),
    (fun it => (it_path it, it_node it)) <$> xs = flatten disk_tree [] /\ Forall (item_ok false (sync_cont sample_fs)) xs /\
    Extract false linux_validName None (lit "/restore") empty_disk (NewReaderV1 disk_seg) = (Ok (), x') /\ x_warned x' = [] /\
    on_disk (fun _ _ => []) xs (x_world x').
Proof.
  refine (@extract_restores_v1 _ _ _ _ _ _ _ toy_siphash _ _ disk_ok disk_root_laws
    (linux_meta_laws _ _ _ _ _ disk_writer_laws) (fun s => s = sample_fs) (unchanged sample_fs)
    (sync_cont sample_fs) (sync_copies sample_fs) linux_validName (fun _ => eq_refl) disk_tree sample_em
    (@em_run _ _ toy_siphash disk_tree sample_em).2 disk_seg (lit "/restore") empty_disk (disk_x _) ()
    disk_restorable _ eq_refl eq_refl _ _ (disk_opens _) disk_empty).
  - split; [done|]. by split.
  - vm_compute. reflexivity.
  - vm_compute. reflexivity.
Defined.

(** The same tree as a v2 archive. *)
Definition disk_plan : list payloadPlan := mark_read 0 (collectPayloadPaths disk_tree []).*1.
Definition disk_pe : payloadEmitter osfs := mkPE (cw_open 0 []) sample_fs [] newRefLedger true false [].
Definition disk_pe' : payloadEmitter osfs := (pe_run disk_plan disk_pe).2.
Definition disk_em : emitter osfs :=
  mkEm (cw_open 0 []) sample_fs (Some (newRefReader disk_plan)) (ledger_get (pe_ledger disk_pe')) (Some (lit "{}")) ∅ [].
Definition disk_em' : emitter osfs := (@em_run _ _ toy_siphash disk_tree disk_em).2.
Definition disk_seg_v2 : reader := [(cw_out (em_w disk_em'), Some EOF)].
Definition disk_payload : bytes := cw_out (pe_w disk_pe').

Lemma extract_restores_v2_witness :
  exists xs (x' : extractor fsys linux_error rstate),
    (fun it => (it_path it, it_node it)) <$> xs = flatten disk_tree [] /\
    Forall (fun it => is_payload (n_Kind (it_node it)) = true ->
      sync_cont sample_fs (it_node it) (item_content (content_at disk_payload) it)) xs /\
    Extract false linux_validName None (lit "/restore") empty_disk (NewReaderV2 disk_seg_v2 (Some (bytes_at disk_payload))) = (Ok (), x') /\
    x_warned x' = [] /\ on_disk (content_at disk_payload) xs (x_world x').
Proof.
  refine (@extract_restores_v2 _ _ _ _ _ _ _ toy_siphash _ _ disk_ok disk_root_laws
    (linux_meta_laws _ _ _ _ _ disk_writer_laws) (fun s => s = sample_fs) (unchanged sample_fs)
    (sync_cont sample_fs) (sync_copies sample_fs) linux_validName (fun _ => eq_refl) disk_tree disk_em disk_em'
    disk_pe disk_pe' disk_plan disk_seg_v2 (bytes_at disk_payload) (lit "/restore") empty_disk (disk_x _) ()
    disk_restorable eq_refl eq_refl eq_refl eq_refl eq_refl eq_refl _ eq_refl eq_refl eq_refl eq_refl _ _ _ (bytes_reads_at _) _
    (disk_opens _) disk_empty).
  - vm_compute. reflexivity.
  - vm_compute. discriminate.
  - vm_compute. reflexivity.
  - vm_compute. reflexivity.
  - vm_compute. discriminate.
Defined.

(* ------------------------------------------------------------------ *)
(** ** A directory where a file is *)

Definition dir_rnode : rnode :=
  mkRNode (lit "f") (mkEntry 0x41c0 0 0 0 0 0) false [] [] None None 0 zeroDevice 0 0 [].
Definition over_file : extractor fsys linux_error rstate := mkX sample_disk (NewReaderV1 []) None [] [] [] [].

(** With Overwrite the file is removed and the directory made. *)
Example overwrite_replaces_file :
  let '(res, x') := restore_entry true linux_validName dir_rnode (lit "f") over_file in
  res = Ok () /\ (i_kind ∘ snd <$> f_at (x_world x') (lit "f")) = Some modeDir.
Proof. by vm_compute. Qed.

(** Without it the file stays, no error is returned, and the directory's
    metadata is applied to the file. *)
Example duplicate_keeps_file :
  let '(res, x') := restore_entry false linux_validName dir_rnode (lit "f") over_file in
  let '(res', x'') := finish x' in
  res = Ok () /\ res' = Ok () /\ x_warned x'' = [] /\
  (fun ki => (i_kind ki.2, i_perm ki.2)) <$> f_at (x_world x'') (lit "f") = Some (modeRegular, 0x1c0).
Proof. by vm_compute. Qed.
