(* ===== verification/ScanSpec.v ===== *)
(** * What a scan guarantees

    Theorems on the entry points of scan/scan.go, [NewScanner],
    [ScanDirectory] and [ScanFile], over any filesystem: a scan ends, its tree
    is well formed, every entry is accounted for, and hardlinks follow their
    targets.  The end of the file is a small filesystem the theorems are
    applied to. *)

From S2P Require Import Prelude Format Io Tree Payload Emit Reader ReaderSpec ReaderSafe Glob Scan.
From stdpp Require Import sorting.
From Stdlib Require Import Strings.Byte.
Local Open Scope Z_scope.

(** Deeper than any directory the kernel reads by path: two bytes a level. *)
Definition scan_fuel : nat := 2050.

Lemma span_pos abs : 1 <= span abs.
Proof. pose proof (span_le abs). destruct abs as [|b abs]; [by vm_compute|]. cbn [length] in *. lia. Qed.

Section entry.
Context {W : Type} `{MetadataReader W} `{!ReaderLaws} `{!PathLimit}.
Variables (opts : Options) (Abs : bytes -> result os_error bytes).

(** The invariant of a scanner between scans: its patterns were parsed, and
    the paths it has for linked files are ones a reader accepts. *)
Record scanner_ok (s : scanner W) : Prop := {
  ok_patterns : pats_ok s;
  ok_targets : all_targets (good_target room) s }.

(** An entry point: [ScanDirectory] or [ScanFile]. *)
Definition scan_root (dir : bool) (path ap : bytes) : M node :=
  if dir then ScanDirectory opts Abs scan_fuel path ap else ScanFile opts Abs scan_fuel path ap.

Lemma same_world_ok s s' : same_but_world s s' -> scanner_ok s -> scanner_ok s'.
Proof. intros [-> _] [Hp Ht]. by constructor. Qed.

Lemma NewScanner_ok w s : NewScanner opts w = Ok s ->
  scanner_ok s /\ s_hardlinks s = ∅ /\ Forall2 (fun t p => ParsePattern t = Ok p) (Exclude opts) (s_patterns s).
Proof.
  unfold NewScanner, mbind, result_bind. destruct (ParsePatterns (Exclude opts)) as [ps|e] eqn:Hps; [|done]. intros [= <-].
  apply ParsePatterns_all in Hps. split; [|done]. constructor; cbn.
  - unfold pats_ok. cbn. clear -Hps. induction Hps as [|t p ts ps Ht _ IH]; constructor; [by exists t|done].
  - intros k t Hk. cbn in Hk. by apply lookup_empty_Some in Hk.
Qed.

(** Up to the walk, an entry point changes the world, by calls, and the followed
    root. *)
Lemma scan_root_cases dir path ap s :
  exists s1, s_patterns s1 = s_patterns s /\ s_hardlinks s1 = s_hardlinks s /\ rtc reader_call (s_world s) (s_world s1) /\
  ((exists e, scan_root dir path ap s = Some (Err e, s1)) \/
   exists abs st, Abs path = Ok abs /\ wf_stat st /\ (Z.land (st_Mode st) modeTypeMask = modeDir <-> dir = true) /\
     scan_root dir path ap s = scanNode opts scan_fuel abs (Base abs) ap st s1).
Proof.
  unfold scan_root. generalize scan_fuel. intros fuel. destruct dir.
  - unfold ScanDirectory. destruct (Abs path) as [abs|e]; [|exists s; split_and!; [done..|]; left; eauto].
    unfold ask, try, mbind, M_bind, mret, M_ret, fail, modify.
    destruct (r_Lstat abs (s_world s)) as [r w] eqn:Hst. pose proof (rc_Lstat abs (s_world s)) as W1. rewrite Hst in W1.
    apply rtc_once in W1. destruct r as [st|e]; [|eexists; split_and!; [..|left; eauto]; done].
    assert (forall s1 st', s_patterns s1 = s_patterns s -> s_hardlinks s1 = s_hardlinks s -> rtc reader_call (s_world s) (s_world s1) -> wf_stat st' ->
      exists s1', s_patterns s1' = s_patterns s /\ s_hardlinks s1' = s_hardlinks s /\ rtc reader_call (s_world s) (s_world s1') /\
      ((exists e, (if negb (Z.land (st_Mode st') modeTypeMask =? modeDir) then fun s => Some (Err (SeNotDir abs), s)
         else scanNode opts fuel abs (Base abs) ap st') s1 = Some (Err e, s1')) \/
       exists abs' st0, Ok (E := os_error) abs = Ok abs' /\ wf_stat st0 /\ (Z.land (st_Mode st0) modeTypeMask = modeDir <-> true = true) /\
         (if negb (Z.land (st_Mode st') modeTypeMask =? modeDir) then fun s => Some (Err (SeNotDir abs), s)
         else scanNode opts fuel abs (Base abs) ap st') s1 = scanNode opts fuel abs' (Base abs') ap st0 s1')) as Hwalk.
    { intros s1 st' E1 E2 E3 E4. exists s1. split_and!; try done. destruct (Z.eqb_spec (Z.land (st_Mode st') modeTypeMask) modeDir); cbn [negb].
      - right. by exists abs, st'.
      - left. by eexists. }
    apply law_Lstat in Hst as Hwf.
    destruct (_ =? modeSymlink); [|by apply Hwalk].
    destruct r_Stat as [follow|] eqn:Hf; [|by apply Hwalk]. cbn [s_world set_world].
    destruct (follow abs w) as [r w'] eqn:Ht. pose proof (rc_Stat follow abs w Hf) as W2. rewrite Ht in W2.
    assert (rtc reader_call (s_world s) w') as W3 by (etrans; [exact W1|by apply rtc_once]).
    destruct r as [target|e]; [|by apply Hwalk].
    destruct (_ =? modeDir); [|by apply Hwalk]. apply Hwalk; [done..|]. by eapply law_Stat.
  - unfold ScanFile. destruct (Abs path) as [abs|e]; [|exists s; split_and!; [done..|]; left; eauto].
    unfold ask, try, mbind, M_bind, mret, M_ret, fail.
    destruct (r_Lstat abs (s_world s)) as [r w] eqn:Hst. pose proof (rc_Lstat abs (s_world s)) as W1. rewrite Hst in W1.
    apply rtc_once in W1. destruct r as [st|e]; [|eexists; split_and!; [..|left; eauto]; done].
    apply law_Lstat in Hst. destruct (Z.eqb_spec (Z.land (st_Mode st) modeTypeMask) modeDir).
    + eexists; split_and!; [..|left; eauto]; done.
    + exists (set_world w s). split_and!; [done..|]. right. exists abs, st. split_and!; [done|done|by split|done].
Qed.

Lemma room_root ap : safe_path ap -> zlen ap < 256 -> room scan_fuel ap.
Proof. intros Hs Hl. split; [done|]. unfold scan_fuel, maxRecordBody. lia. Qed.

Lemma scan_root_runs dir path ap s : pats_ok s -> scan_root dir path ap s <> None.
Proof.
  intros Hp. destruct (scan_root_cases dir path ap s) as (s1 & P1 & _ & _ & [[e ->]|(abs & st & _ & _ & _ & ->)]); [done|].
  apply (scanNode_runs opts); [unfold scan_fuel; lia| |by eapply pats_ok_eq]. pose proof (span_pos abs).
  unfold maxPath, scan_fuel. lia.
Qed.

Lemma scan_root_ok dir path ap s r s' :
  scan_root dir path ap s = Some (r, s') -> safe_path ap -> zlen ap < 256 -> (dir = false -> ap <> []) -> scanner_ok s -> scanner_ok s'.
Proof.
  intros Hr Hs Hl Hap [Hp Ht].
  destruct (scan_root_cases dir path ap s) as (s1 & P1 & L1 & _ & [[e E]|(abs & st & _ & _ & Hd & E)]); rewrite E in Hr.
  - injection Hr as _ <-. constructor; [by eapply pats_ok_eq|by eapply all_targets_eq].
  - constructor; [eapply pats_ok_eq; [|exact Hp]; rewrite <- P1; by eapply scanNode_keeps|].
    eapply (scanNode_targets opts room room_step); [exact Hr|by apply room_root| |by eapply all_targets_eq].
    destruct dir; [left; by apply Hd|right; by apply Hap].
Qed.

Lemma scan_root_tree dir path ap s n s' :
  scan_root dir path ap s = Some (Ok n, s') -> safe_path ap -> zlen ap < 256 -> (dir = false -> ap <> []) -> scanner_ok s ->
  (n_Kind n = KindDirectory <-> dir = true) /\ tree_all scanned_node n /\ (height n <= maxDepth)%nat.
Proof.
  intros Hr Hs Hl Hap [Hp Ht].
  destruct (scan_root_cases dir path ap s) as (s1 & P1 & L1 & _ & [[e E]|(abs & st & _ & Hst & Hd & E)]); rewrite E in Hr; [done|].
  assert (Z.land (st_Mode st) modeTypeMask = modeDir \/ ap <> []) as Hap' by (destruct dir; [left; by apply Hd|right; by apply Hap]).
  destruct (scanNode_wf opts scan_fuel _ _ _ _ _ _ _ Hr) as (_ & Htree & _); [by apply room_root|done|done|by eapply all_targets_eq|].
  split; [|split; [done|]].
  - rewrite <- Hd. pose proof Hr as Hr'. apply scanNode_spec in Hr' as [_ (f & _ & Hsh)]. specialize (Hsh n eq_refl).
    apply shape_fields in Hsh as (_ & _ & Hnst & _ & Hm). rewrite Hnst in Hm. rewrite Hm. by destruct (n_Kind n).
  - destruct (scanNode_height opts scan_fuel _ _ _ _ _ _ _ Hr) as [->|Hh]; [lia|].
    pose proof (span_pos abs). unfold maxPath in Hh. unfold maxDepth. lia.
Qed.

Lemma scanned_wf n : tree_all scanned_node n -> tree_all wf_node n /\ tree_all fits n.
Proof.
  induction n as [n IH] using node_ind'. intros [(Hwf & _) Hc].
  assert (Forall (fun c => tree_all wf_node c /\ tree_all fits c) (n_Children n)) as Hall
    by (rewrite Forall_forall in *; intros c Hin; apply IH; auto).
  apply Forall_and in Hall as [A1 A2]. split; constructor; try done. unfold fits. destruct Hwf. lia.
Qed.

(** A scan that fails on errors links only to files it returned before. *)
Lemma scan_links w s0 path root s' :
  NewScanner opts w = Ok s0 -> SkipOnError opts = false ->
  ScanDirectory opts Abs scan_fuel path [] s0 = Some (Ok root, s') -> exists seen, link_walk root [] ∅ = Some seen.
Proof.
  intros Hnew Hskip Hscan. apply NewScanner_ok in Hnew as (_ & Hlinks & _).
  destruct (scan_root_cases true path [] s0) as (s1 & _ & L1 & _ & [[e E]|(abs & st & _ & _ & _ & E)]);
    cbn [scan_root] in E; rewrite E in Hscan; [done|].
  destruct (scanNode_links opts _ Hskip _ _ _ _ _ _ _ Hscan) as [_ Hl].
  destruct (Hl ∅) as (seen & Hs & _); [rewrite L1, Hlinks; by intros k t ?%lookup_empty_Some|by exists seen].
Qed.

(* ------------------------------------------------------------------ *)
(** ** Properties *)

(** C7: Every call of [ScanDirectory] or [ScanFile] ends, keeps the scanner's
    invariant, and the tree it returns is well typed: the root is a directory
    exactly for [ScanDirectory], every node's mode, stat fields, extras, link
    target and name fit the records they are encoded in, children are in
    strictly ascending name order and only directories have any, and
    directories nest no deeper than the archive reader accepts. *)
Theorem scan_typed dir path ap s :
  scanner_ok s -> safe_path ap -> zlen ap < 256 -> (dir = false -> ap <> []) ->
  exists r s', scan_root dir path ap s = Some (r, s') /\ scanner_ok s' /\
    forall n, r = Ok n ->
      (n_Kind n = KindDirectory <-> dir = true) /\ tree_all scanned_node n /\ (height n <= maxDepth)%nat.
Proof.
  intros Hok Hs Hl Hap. destruct (scan_root dir path ap s) as [[r s']|] eqn:Hr.
  - exists r, s'. split; [done|]. split; [by eapply scan_root_ok|]. intros n ->. by eapply scan_root_tree.
  - by destruct (scan_root_runs dir path ap s (ok_patterns _ Hok)).
Qed.

(** C24: Nothing is lost silently.  In a scanned tree every name of every
    directory is a node of the tree, or [OnExclude] heard of it and the active
    patterns or the filter reject it, or errors are skipped and [OnWarn] heard
    of it; the nodes are among the names, with the stat that was read of them,
    and the active patterns and the filter keep them.  The patterns active in a
    directory are those around it followed by exactly the patterns its
    .pxarexclude stands for, line by line ([own_patterns]): none of a sibling's,
    and none at all when lists are not honoured.  All that is said of the
    filesystem is what calls returned during the scan. *)
Theorem scan_accounts path ap s n s' :
  ScanDirectory opts Abs scan_fuel path ap s = Some (Ok n, s') ->
  Abs path = Ok (n_Path n) /\ accounted opts s' (s_world s) (s_patterns s) ap n.
Proof.
  intros Hr. destruct (scan_root_cases true path ap s) as (s1 & P1 & _ & W1 & [[e E]|(abs & st & Habs & _ & _ & E)]);
    cbn [scan_root] in E; rewrite E in Hr; [done|].
  apply scanNode_accounted in Hr as (_ & <- & _ & Ha). split; [done|]. rewrite P1 in Ha.
  eapply accounted_mono; [by split_and!|exact W1|exact Ha].
Qed.
End entry.


(* ------------------------------------------------------------------ *)
(** ** Witnesses: a small filesystem *)

Definition toy_stat (mode size nlink ino : Z) : Stat := mkStat mode 0 0 1700000000 5 size nlink 1 ino zeroDevice.

(** Entries by path, with the names of a directory or the target of a link. *)
Definition toy_entries : list (bytes * (Stat * list bytes * bytes)) :=
  [(lit "/r", (toy_stat 0x41ed 0 1 1, [lit ".pxarexclude"; lit "a"; lit "b"; lit "d"; lit "x.tmp"], []));
   (lit "/r/.pxarexclude", (toy_stat 0x81a4 12 1 2, [], []));
   (lit "/r/a", (toy_stat 0x81a4 3 2 3, [], []));
   (lit "/r/b", (toy_stat 0x81a4 3 2 3, [], []));
   (lit "/r/d", (toy_stat 0x41ed 0 1 4, [lit "l"; lit "y.tmp"], []));
   (lit "/r/d/l", (toy_stat 0xa1ff 4 1 5, [], lit "../a"));
   (lit "/r/d/y.tmp", (toy_stat 0x81a4 9 1 6, [], []));
   (lit "/r/x.tmp", (toy_stat 0x81a4 9 1 7, [], []))].

Definition toy_find (p : bytes) : option (Stat * list bytes * bytes) :=
  snd <$> head (filter (fun e => e.1 = p) toy_entries).
Definition toy_get {A} (p : bytes) (f : Stat * list bytes * bytes -> result os_error A) (w : unit) : result os_error A * unit :=
  (match toy_find p with Some e => f e | None => Err ErrNotExist end, w).

#[export] Instance toy_reader : MetadataReader unit := {
  r_Lstat p := toy_get p (fun e => Ok e.1.1);
  r_ReadDirNames p := toy_get p (fun e => if decide (e.1.2 = []) then Err (ErrOS 20) else Ok e.1.2);
  r_Readlink p := toy_get p (fun e => if decide (e.2 = []) then Err (ErrOS 22) else Ok e.2);
  r_ReadXattrs p := toy_get p (fun _ => Ok [mkXattr (lit "user.k") (lit "v")]);
  r_ReadACLs p := toy_get p (fun _ => Ok None);
  r_ReadFCaps p := toy_get p (fun _ => Ok []);
  r_ReadQuotaProjID p := toy_get p (fun _ => Ok None);
  r_ReadFile p := toy_get p (fun _ => Ok (lit "# old" ++ [newline] ++ lit "*.tmp" ++ [newline]));
  r_Stat := None }.

Lemma toy_find_in p e : toy_find p = Some e -> (p, e) ∈ toy_entries.
Proof.
  unfold toy_find. destruct (head _) as [[q x]|] eqn:Hh; [|done]. intros [= ->].
  apply head_Some_elem_of, list_elem_of_filter in Hh as [Hq Hin]. cbn in Hq. by subst q.
Qed.
Lemma toy_get_inv {A} p (f : _ -> result os_error A) w x w' : toy_get p f w = (Ok x, w') -> exists e, (p, e) ∈ toy_entries /\ f e = Ok x.
Proof. unfold toy_get. destruct (toy_find p) as [e|] eqn:Hf; [|done]. intros [= He _]. exists e. split; [by apply toy_find_in|done]. Qed.

(** What holds of every entry. *)
Definition toy_fine (x : bytes * (Stat * list bytes * bytes)) : Prop :=
  wf_stat x.2.1.1 /\ zlen x.1 < maxPath /\ zlen x.2.2 < maxRecordBody /\ zlen x.2.1.2 < 2 ^ 56 /\
  StronglySorted (fun a b => bytes_leb a b = true /\ a <> b) x.2.1.2 /\ Forall (fun n => zlen n < 256) x.2.1.2.
Lemma toy_all_fine : Forall toy_fine toy_entries.
Proof.
  assert (forall m s l i, 0 <= m < 2 ^ 32 -> wf_stat (toy_stat m s l i)) as Hst.
  { intros m s l i Hm. unfold wf_stat, toy_stat, is_u64, is_u32, is_i64. cbn. lia. }
  repeat constructor; cbn; unfold is_u64, is_u32, is_i64, maxPath, maxRecordBody; cbn; try lia; try done.
Qed.
Lemma toy_get_fine {A} p (f : _ -> result os_error A) w x w' :
  toy_get p f w = (Ok x, w') -> exists e, toy_fine (p, e) /\ f e = Ok x.
Proof.
  intros Hg. apply toy_get_inv in Hg as (e & Hin & Hf). exists e. split; [|done].
  pose proof toy_all_fine as Hall. rewrite Forall_forall in Hall. by apply Hall.
Qed.

#[export] Instance toy_laws : ReaderLaws.
Proof.
  constructor; cbn [r_Lstat r_Stat r_ReadDirNames r_Readlink r_ReadXattrs r_ReadACLs r_ReadFCaps r_ReadQuotaProjID toy_reader].
  - intros p w st w' ([[? ?] ?] & (Hf & _) & [= <-])%toy_get_fine. exact Hf.
  - done.
  - intros p w names w' ([[sta l] tgt] & (_ & _ & _ & F1 & F2 & F3) & He)%toy_get_fine. cbn in F1, F2, F3, He.
    case_decide; [done|]. by injection He as <-.
  - intros p w t w' ([[sta l] tgt] & (_ & _ & F1 & _) & He)%toy_get_fine. cbn in F1, He. case_decide; [done|]. by injection He as <-.
  - intros p w xs w' (e & _ & [= <-])%toy_get_fine. repeat constructor; cbn; unfold maxRecordBody; cbn; try lia; vm_compute; set_solver.
  - by intros p w acl w' (e & _ & ?)%toy_get_fine.
  - intros p w c w' (e & _ & [= <-])%toy_get_fine. by split; [vm_compute|].
  - by intros p w q w' (e & _ & ?)%toy_get_fine.
Qed.
#[export] Instance toy_limit : PathLimit.
Proof. intros p w names w' (e & (_ & ? & _) & _)%toy_get_fine. done. Qed.

Definition toy_opts : Options := mkOptions false false [] true None.
Definition toy_scanner : scanner unit := mkScanner ∅ [] [] [] [] ().
#[local] Abbreviation toy_scan := (ScanDirectory toy_opts Ok scan_fuel (lit "/r") [] toy_scanner).
Definition toy_root : node := match toy_scan with Some (Ok n, _) => n | _ => mkNode [] [] KindDirectory (toy_stat 0 0 0 0) [] [] None [] 0 [] None end.
Definition toy_log : scanner unit := match toy_scan with Some (_, s) => s | None => toy_scanner end.

Lemma toy_scanned : toy_scan = Some (Ok toy_root, toy_log).
Proof.
  assert (match toy_scan with Some (Ok _, _) => true | _ => false end = true) as Hs by (vm_compute; reflexivity).
  unfold toy_root, toy_log. revert Hs. generalize toy_scan. by intros [[[n|e] s]|].
Qed.

Lemma toy_scanner_ok : scanner_ok toy_scanner.
Proof. exact (proj1 (NewScanner_ok toy_opts () toy_scanner eq_refl)). Qed.
Lemma is_dir : true = false -> @nil byte <> [].
Proof. done. Qed.

Lemma scan_typed_witness :
  exists r s', scan_root toy_opts Ok true (lit "/r") [] toy_scanner = Some (r, s') /\ scanner_ok s' /\
    forall n, r = Ok n ->
      (n_Kind n = KindDirectory <-> true = true) /\ tree_all scanned_node n /\ (height n <= maxDepth)%nat.
Proof.
  exact (scan_typed toy_opts Ok true (lit "/r") [] toy_scanner toy_scanner_ok (or_introl eq_refl) eq_refl is_dir).
Defined.

(** The two .tmp files are the only names left out. *)
Lemma scan_accounts_witness :
  accounted toy_opts toy_log tt [] [] toy_root /\
  s_excluded toy_log = [(lit "/r/d/y.tmp", lit "d/y.tmp"); (lit "/r/x.tmp", lit "x.tmp")].
Proof.
  split; [|vm_compute; reflexivity].
  exact (proj2 (scan_accounts toy_opts Ok (lit "/r") [] toy_scanner toy_root toy_log toy_scanned)).
Defined.

Definition toy_fs : osfs := fun p =>
  if decide (p = lit "/r/a") then Some (mkFile [(lit "xyz", Some EOF)] (Some (3, 7)) (Some (3, 7)))
  else if decide (p = lit "/r/.pxarexclude")
  then Some (mkFile [(lit "# old" ++ [newline] ++ lit "*.tmp" ++ [newline], Some EOF)] (Some (12, 7)) (Some (12, 7))) else None.
Definition toy_em : emitter osfs := mkEm (cw_open 0 []) toy_fs None (fun _ => Err ErrLedger) None ∅ [].

Lemma toy_good : tree_all (unchanged toy_fs) toy_root.
Proof.
  assert (exists n, toy_root = n /\ tree_all (unchanged toy_fs) n) as (n & -> & Hn); [|done].
  eexists. split; [vm_compute; reflexivity|].
  each_node; unfold unchanged; cbn -[toy_fs]; try done; intros _; (split; [lia|]); eexists _, _; split_and!; reflexivity.
Qed.

(** With [SkipOnError] the first name of an inode is on record before its
    extras are read: when that fails, the file is skipped and a later name
    becomes a hardlink to a path the archive does not hold, so generating the
    archive fails. *)
Definition flaky_reader : MetadataReader unit := {|
  r_Lstat := @r_Lstat _ toy_reader; r_ReadDirNames := @r_ReadDirNames _ toy_reader; r_Readlink := @r_Readlink _ toy_reader;
  r_ReadXattrs := fun p w => if decide (p = lit "/r/a") then (Err (ErrOS 5), w) else @r_ReadXattrs _ toy_reader p w;
  r_ReadACLs := @r_ReadACLs _ toy_reader; r_ReadFCaps := @r_ReadFCaps _ toy_reader;
  r_ReadQuotaProjID := @r_ReadQuotaProjID _ toy_reader; r_ReadFile := @r_ReadFile _ toy_reader; r_Stat := None |}.
Definition skip_opts : Options := mkOptions true false [] true None.

Example skip_breaks_link :
  match @ScanDirectory _ flaky_reader skip_opts Ok scan_fuel (lit "/r") [] toy_scanner with
  | Some (Ok n, s) =>
      (s_warned s, (@em_run _ _ toy_siphash n toy_em).1) =
      ([(lit "/r/a", SeOS (lit "/r/a") (ErrOS 5))], Err (ErrHardlinkTarget (lit "b") (lit "a")))
  | _ => False
  end.
Proof. vm_compute. reflexivity. Qed.
