(* ===== verification/Archive.v ===== *)
(** * The archive builder

    Models archive/archive.go and archive/prelude.go: queueing directories,
    files, streams and virtual trees, building the single tree an archive
    encodes (one scanner over all roots, the virtual root, the reserved
    .pxarexclude-cli entry), and generating it as a v1 archive or as the two
    streams of a split v2 archive.

    Generation is the synchronous one (Workers: 1); AsyncSpec.v shows that
    the worker pool writes the same bytes and warnings.  The two v2 emitters
    run one after the other, the payload stream first: the metadata emitter
    reads nothing of it but the ledger, whose answers are final (Refs.v). *)

From S2P Require Import Prelude Format Io Tree Payload Reuse Refs Emit Reader ReaderSpec ReaderSafe Previous ArchiveV2 Glob Scan ScanSpec.
From stdpp Require Import sorting.
From Stdlib Require Import Strings.Byte.
Local Open Scope Z_scope.

(* ------------------------------------------------------------------ *)
(** ** Data *)

(** What [Warning.Err] holds for the warnings of a scan. *)
Inductive warning_cause := WcNone | WcScan (e : scan_error) | WcReserved.

Record ArchiveOptions := mkArchiveOptions {
  o_Name : bytes; o_Workers : Z; o_Buffer : Z; o_Scan : Scan.Options;
  o_Previous : option Previous; o_PaddingThreshold : float64 }.

Inductive rootKind := addDir | addFile.
Record addition := mkAddition { ad_kind : rootKind; ad_path : bytes; ad_as : bytes }.

Inductive virtual_error :=
  | VeName (e : name_error) | VeDuplicate (name path : bytes) | VeNoReader (path : bytes)
  | VeNegative (path : bytes) (size : Z) | VeKind (path : bytes).
Inductive archive_error :=
  | AeWorkers (n : Z) | AeBuffer (n : Z) | AePattern (e : PatternError) | AeOS (e : os_error)
  | AeNotDir (path : bytes) | AeIsDir (path : bytes) | AeName (e : name_error) | AeTop (e : tree_error)
  | AeTreeRoot | AeVirtual (e : virtual_error) | AeNothing | AeNoName | AeScan (e : scan_error).

(** [Archive], with the calls of [Options.OnWarn] so far and the world the
    scanner and [os.Stat] read. *)
Record Archive (W : Type) := mkArchive {
  a_opts : ArchiveOptions; a_adds : list addition; a_streams : list node; a_trees : list node;
  a_cliPatterns : option bytes; a_reuseStats : ReuseStats;
  a_warned : list (Warning * warning_cause); a_world : W }.
Arguments mkArchive {W}. Arguments a_opts {W}. Arguments a_adds {W}. Arguments a_streams {W}. Arguments a_trees {W}.
Arguments a_cliPatterns {W}. Arguments a_reuseStats {W}. Arguments a_warned {W}. Arguments a_world {W}.

Definition pxarExcludeCLIName : bytes := lit ".pxarexclude-cli".

(** [baseName] *)
Fixpoint strip_slashes (r : bytes) : bytes :=
  match r with
  | b :: (_ :: _) as r' => if decide (b = slash) then strip_slashes r' else r
  | _ => r
  end.
Fixpoint before_slash (r : bytes) : bytes :=
  match r with
  | [] => []
  | b :: r => if decide (b = slash) then [] else b :: before_slash r
  end.
Definition baseName (path : bytes) : bytes := rev (before_slash (strip_slashes (rev path))).

(* ------------------------------------------------------------------ *)
(** ** The prelude record *)

Definition hex_digit (n : Z) : byte := byte_of_Z (if n <? 10 then 48 + n else 87 + n).
Definition json_escape (c : byte) : bytes :=
  let esc (d : byte) := [backslash; d] in
  if decide (c = x22) then esc x22
  else if decide (c = backslash) then esc backslash
  else if decide (c = x08) then esc x62
  else if decide (c = x0c) then esc x66
  else if decide (c = newline) then esc x6e
  else if decide (c = x0d) then esc x72
  else if decide (c = x09) then esc x74
  else if Z_of_byte c <? 32 then
    esc x75 ++ [x30; x30; hex_digit (Z.shiftr (Z_of_byte c) 4); hex_digit (Z.land (Z_of_byte c) 15)]
  else [c].
Definition json_open : bytes := [x7b; x22] ++ lit "exclude-patterns" ++ [x22; x3a; x22].
Definition preludeJSON (patterns : bytes) : bytes := json_open ++ mjoin (json_escape <$> patterns) ++ [x22; x7d].

(* ------------------------------------------------------------------ *)
(** ** Virtual trees *)

Definition set_stat (st : Stat) (n : node) : node :=
  mkNode (n_Name n) (n_Path n) (n_Kind n) st (n_LinkTarget n) (n_Xattrs n) (n_ACL n) (n_FCaps n) (n_QuotaProjID n) (n_Children n) (n_Stream n).
Definition set_name (name : bytes) (n : node) : node :=
  mkNode name (n_Path n) (n_Kind n) (n_Stat n) (n_LinkTarget n) (n_Xattrs n) (n_ACL n) (n_FCaps n) (n_QuotaProjID n) (n_Children n) (n_Stream n).
Definition set_mode (m : Z) (st : Stat) : Stat :=
  mkStat m (st_UID st) (st_GID st) (st_MtimeSecs st) (st_MtimeNanos st) (st_Size st) (st_Nlink st) (st_Dev st) (st_Ino st) (st_Rdev st).
Definition set_nlink (l : Z) (st : Stat) : Stat :=
  mkStat (st_Mode st) (st_UID st) (st_GID st) (st_MtimeSecs st) (st_MtimeNanos st) (st_Size st) l (st_Dev st) (st_Ino st) (st_Rdev st).

(** The mode with its type bits set to [ty]. *)
Definition with_type (ty : Z) (st : Stat) : Stat :=
  if Z.land (st_Mode st) modeTypeMask =? ty then st
  else set_mode (Z.lor ty (Z.ldiff (st_Mode st) modeTypeMask)) st.

(** A child and what validating it gives at a path; the order is by name. *)
Abbreviation checked := (node * (bytes -> result virtual_error node))%type.
Definition checked_le (a b : checked) : Prop := name_le a.1 b.1.
#[export] Instance checked_le_dec a b : Decision (checked_le a b).
Proof. unfold checked_le. apply _. Defined.

(** The loop over the sorted children; [prev] is the name before. *)
Fixpoint validate_children (path : bytes) (prev : option bytes) (cs : list checked) : result virtual_error (list node) :=
  match cs with
  | [] => Ok []
  | (c, validate) :: cs =>
      match ValidateFilename (n_Name c) with
      | Err e => Err (VeName e)
      | Ok _ =>
          if decide (prev = Some (n_Name c)) then Err (VeDuplicate (n_Name c) path) else
          c' ← validate (path ++ [slash] ++ n_Name c);
          cs' ← validate_children path (Some (n_Name c)) cs;
          Ok (c' :: cs')
      end
  end.

(** [validateTree]: the node as it is left on success.  The calls on the
    children are delayed until the sorted loop makes them. *)
Fixpoint validateTree (n : node) : bytes -> result virtual_error node :=
  fun path =>
    match n_Kind n with
    | KindDirectory =>
        let checks := map (fun c => (c, validateTree c)) (n_Children n) in
        cs ← validate_children path None (merge_sort checked_le checks);
        Ok (Scan.set_children cs (set_stat (with_type modeDir (n_Stat n)) n))
    | KindStream =>
        match n_Stream n with
        | None => Err (VeNoReader path)
        | Some _ =>
            if st_Size (n_Stat n) <? 0 then Err (VeNegative path (st_Size (n_Stat n))) else
            let st := with_type modeRegular (n_Stat n) in
            Ok (set_stat (if st_Nlink st =? 0 then set_nlink 1 st else st) n)
        end
    | _ => Err (VeKind path)
    end.

(* ------------------------------------------------------------------ *)
(** ** Queueing roots *)

(** [os.Stat] and [os.Lstat] as [Archive] uses them, and what it asks of the
    process: the working directory ([filepath.Abs]), the clock at generation,
    the real uid and gid. *)
Class Platform (W : Type) := {
  os_Stat : bytes -> W -> result os_error bool * W;
  os_Lstat : bytes -> W -> result os_error bool * W;
  os_Abs : bytes -> result os_error bytes;
  os_Now : Z * Z;
  processIDs : Z * Z }.

Definition bytes_le (a b : bytes) : Prop := bytes_leb a b = true.
#[export] Instance bytes_le_dec a b : Decision (bytes_le a b).
Proof. unfold bytes_le. apply _. Defined.

Section archive.
Context {W : Type} `{MetadataReader W} `{Platform W}.

Definition New (opts : ArchiveOptions) (w : W) : result archive_error (Archive W) :=
  if o_Workers opts <? 0 then Err (AeWorkers (o_Workers opts)) else
  if o_Buffer opts <? 0 then Err (AeBuffer (o_Buffer opts)) else
  match ParsePatterns (Exclude (o_Scan opts)) with
  | Err e => Err (AePattern e)
  | Ok patterns =>
      Ok (mkArchive opts [] [] [] (match patterns with [] => None | _ => Some (PatternList_String patterns) end)
            (mkStats 0 0 0 0 0) [] w)
  end.

Definition set_adds (l : list addition) (a : Archive W) : Archive W :=
  mkArchive (a_opts a) l (a_streams a) (a_trees a) (a_cliPatterns a) (a_reuseStats a) (a_warned a) (a_world a).
Definition set_streams (l : list node) (a : Archive W) : Archive W :=
  mkArchive (a_opts a) (a_adds a) l (a_trees a) (a_cliPatterns a) (a_reuseStats a) (a_warned a) (a_world a).
Definition set_trees (l : list node) (a : Archive W) : Archive W :=
  mkArchive (a_opts a) (a_adds a) (a_streams a) l (a_cliPatterns a) (a_reuseStats a) (a_warned a) (a_world a).
Definition set_stats (s : ReuseStats) (a : Archive W) : Archive W :=
  mkArchive (a_opts a) (a_adds a) (a_streams a) (a_trees a) (a_cliPatterns a) s (a_warned a) (a_world a).
Definition a_warn (ws : list (Warning * warning_cause)) (a : Archive W) : Archive W :=
  mkArchive (a_opts a) (a_adds a) (a_streams a) (a_trees a) (a_cliPatterns a) (a_reuseStats a) (a_warned a ++ ws) (a_world a).
Definition set_aworld (w : W) (a : Archive W) : Archive W :=
  mkArchive (a_opts a) (a_adds a) (a_streams a) (a_trees a) (a_cliPatterns a) (a_reuseStats a) (a_warned a) w.

Definition queue (x : addition) (a : Archive W) : Archive W := set_adds (a_adds a ++ [x]) a.

Definition AddDirectoryAs (path name : bytes) (a : Archive W) : result archive_error unit * Archive W :=
  let '(info, w) := os_Stat path (a_world a) in
  let a := set_aworld w a in
  match info with
  | Err e => (Err (AeOS e), a)
  | Ok isDir =>
      if negb isDir then (Err (AeNotDir path), a) else
      match ValidateFilename name with
      | Err e => (Err (AeName e), a)
      | Ok _ => (Ok (), queue (mkAddition addDir path name) a)
      end
  end.

Definition AddDirectory (path : bytes) : Archive W -> result archive_error unit * Archive W :=
  AddDirectoryAs path (baseName path).

Definition AddFile (path : bytes) (a : Archive W) : result archive_error unit * Archive W :=
  let '(info, w) := os_Lstat path (a_world a) in
  let a := set_aworld w a in
  match info with
  | Err e => (Err (AeOS e), a)
  | Ok isDir => if isDir : bool then (Err (AeIsDir path), a) else (Ok (), queue (mkAddition addFile path (baseName path)) a)
  end.

(** The loops of [AddDirectories], [AddFiles] and [AddDirectoriesAs]. *)
Fixpoint add_each {A} (add : A -> Archive W -> result archive_error unit * Archive W) (l : list A) (a : Archive W) :
    result archive_error unit * Archive W :=
  match l with
  | [] => (Ok (), a)
  | x :: l => match add x a with (Ok _, a) => add_each add l a | r => r end
  end.
Definition AddDirectories : list bytes -> Archive W -> result archive_error unit * Archive W := add_each AddDirectory.
Definition AddFiles : list bytes -> Archive W -> result archive_error unit * Archive W := add_each AddFile.
Definition AddDirectoriesAs (paths : gmap bytes bytes) : Archive W -> result archive_error unit * Archive W :=
  add_each (fun p => AddDirectoryAs p (default [] (paths !! p))) (merge_sort bytes_le (map_to_list paths).*1).

Definition AddStream (name : bytes) (size : Z) (r : reader) (a : Archive W) : result archive_error unit * Archive W :=
  match StreamNode name size r with
  | Err e => (Err (AeTop e), a)
  | Ok n => (Ok (), set_streams (a_streams a ++ [n]) a)
  end.

(** [AddTree]; the tree queued is the caller's, as validating left it. *)
Definition AddTree (root : node) (a : Archive W) : result archive_error unit * Archive W :=
  if decide (n_Kind root = KindDirectory) then
    match validateTree root (n_Name root) with
    | Err e => (Err (AeVirtual e), a)
    | Ok root => (Ok (), set_trees (a_trees a ++ [root]) a)
    end
  else (Err AeTreeRoot, a).

(* ------------------------------------------------------------------ *)
(** ** Building the tree *)

(** The loop over [a.adds], with one scanner. *)
#[local] Existing Instance Scan.M_ret.
#[local] Existing Instance Scan.M_bind.
Fixpoint scan_adds (opts : Scan.Options) (adds : list addition) : Scan.M (W := W) (list node) :=
  match adds with
  | [] => mret []
  | x :: adds =>
      n ← (match ad_kind x with
           | addDir => ScanDirectory opts os_Abs scan_fuel (ad_path x) (ad_as x)
           | addFile => ScanFile opts os_Abs scan_fuel (ad_path x) (ad_as x)
           end);
      ns ← scan_adds opts adds;
      mret (set_name (ad_as x) n :: ns)
  end.

(** [scanOpts.OnWarn] *)
Definition scan_warning (w : bytes * scan_error) : Warning * warning_cause :=
  (match w.2 with SePattern _ => WarnBadPattern w.1 | _ => WarnSkipped w.1 end, WcScan w.2).

(** A scan on behalf of the archive: its warnings and its world.  [None] is a
    panic, or the end of [scan_fuel]. *)
Definition scanning {A} (m : Scan.M (W := W) A) (a : Archive W) : option (result archive_error A * Archive W) :=
  match NewScanner (o_Scan (a_opts a)) (a_world a) with
  | Err e => Some (Err (AePattern e), a)
  | Ok s =>
      match m s with
      | None => None
      | Some (r, s) =>
          Some (match r with Ok x => Ok x | Err e => Err (AeScan e) end,
                a_warn (scan_warning <$> s_warned s) (set_aworld (s_world s) a))
      end
  end.

(** The multi-root part of [scanRoots]. *)
Definition virtual_top (scanned : list node) (a : Archive W) : result archive_error node :=
  match VirtualRoot (o_Name (a_opts a)) (scanned ++ a_streams a ++ a_trees a) with
  | Err e => Err (AeTop e)
  | Ok root =>
      let st := n_Stat root in
      Ok (set_stat (mkStat (st_Mode st) (st_UID st) (st_GID st) os_Now.1 (u32 os_Now.2) (st_Size st) (st_Nlink st)
                      (st_Dev st) (st_Ino st) (st_Rdev st)) root)
  end.

Definition scanRoots (a : Archive W) : option (result archive_error node * Archive W) :=
  match a_adds a, a_streams a, a_trees a with
  | [], [], [] => Some (Err AeNothing, a)
  | [mkAddition addDir path _], [], [] => scanning (ScanDirectory (o_Scan (a_opts a)) os_Abs scan_fuel path []) a
  | [], [], [tree] => scanning (mret tree) a
  | _, _, _ =>
      if decide (o_Name (a_opts a) = []) then
        match scanning (mret ()) a with
        | None => None
        | Some (Err e, a) => Some (Err e, a)
        | Some (Ok _, a) => Some (Err AeNoName, a)
        end
      else
        match scanning (scan_adds (o_Scan (a_opts a)) (a_adds a)) a with
        | None => None
        | Some (Err e, a) => Some (Err e, a)
        | Some (Ok ns, a) => Some (virtual_top ns a, a)
        end
  end.

Definition reserved (n : node) : bool := bool_decide (n_Name n = pxarExcludeCLIName).
(** [dropReserved]: the children kept and the warnings. *)
Definition dropReserved (children : list node) : list node * list (Warning * warning_cause) :=
  (filter (fun c => negb (reserved c)) children,
   (fun c => (WarnSkipped (n_Path c), WcReserved)) <$> filter (fun c => reserved c) children).

(** [cliPatternNode]: a stream over its content. *)
Definition cliPatternNode (content : bytes) : node :=
  mkNode pxarExcludeCLIName [] KindStream
    (mkStat (Z.lor modeRegular 0x180) processIDs.1 processIDs.2 0 0 (zlen content) 1 0 0 zeroDevice)
    [] [] None [] 0 [] (Some [(content, None)]).

(** [buildTree].  A virtual tree that is the only root is changed in place. *)
Definition buildTree (v2 : bool) (a : Archive W) : option (result archive_error node * Archive W) :=
  match scanRoots a with
  | None => None
  | Some (Err e, a) => Some (Err e, a)
  | Some (Ok root, a) =>
      let '(kept, ws) := dropReserved (n_Children root) in
      let children :=
        match a_cliPatterns a with
        | Some p => if v2 then kept else kept ++ [cliPatternNode p]
        | None => kept
        end in
      let root := Scan.set_children children root in
      let a := a_warn ws a in
      let a := match a_adds a, a_streams a, a_trees a with [], [], [_] => set_trees [root] a | _, _, _ => a end in
      Some (Ok root, a)
  end.

(* ------------------------------------------------------------------ *)
(** ** Generating *)

Definition prelude (a : Archive W) : option bytes := preludeJSON <$> a_cliPatterns a.
Definition payload_warnings (ws : list Warning) : list (Warning * warning_cause) := (fun w => (w, WcNone)) <$> ws.

Context {T : Type} `{PayloadSource T} `{SipHash}.

(** A finished stream: how generation ended and what the consumer got. *)
Definition stream_result : Type := result gen_error unit * bytes.

(** [GenerateV1], the stream going to [w]. *)
Definition GenerateV1 (src : T) (w : countWriter) (a : Archive W) : option (result archive_error stream_result * Archive W) :=
  match buildTree false a with
  | None => None
  | Some (Err e, a) => Some (Err e, a)
  | Some (Ok root, a) =>
      let '(res, em) := em_run root (mkEm w src None (fun _ => Err ErrPanic) None ∅ []) in
      Some (Ok (res, cw_out (em_w em)), a_warn (payload_warnings (em_warns em)) a)
  end.

(** [GenerateV2]: the metadata stream and the payload stream, the latter with
    the chunks injected in it.  The metadata emitter opens nothing. *)
Definition GenerateV2 (src : T) (wm wp : countWriter) (a : Archive W) :
    option (result archive_error (stream_result * stream_result * list (nat * list Chunk)) * Archive W) :=
  match buildTree true a with
  | None => None
  | Some (Err e, a) => Some (Err e, a)
  | Some (Ok root, a) =>
      let g := planReuse (collectPayloadPaths root []) (o_Previous (a_opts a)) (o_PaddingThreshold (a_opts a)) in
      let a := set_stats (pg_stats g) a in
      let framed := match o_Previous (a_opts a) with Some _ => true | None => false end in
      let '(pres, pe) := pe_run (pg_plan g) (mkPE wp src [] newRefLedger true framed []) in
      let ledger := match pres with Err e => l_fail e (pe_ledger pe) | Ok _ => pe_ledger pe end in
      let '(mres, em) := em_run root (mkEm wm src (Some (newRefReader (pg_plan g))) (ledger_get ledger) (prelude a) ∅ []) in
      Some (Ok ((mres, cw_out (em_w em)), (pres, cw_out (pe_w pe)), pe_injected pe),
            a_warn (payload_warnings (pe_warns pe ++ em_warns em)) a)
  end.

Definition EstimatedSizeV1 (a : Archive W) : option (result archive_error Z * Archive W) :=
  match buildTree false a with
  | None => None
  | Some (Err e, a) => Some (Err e, a)
  | Some (Ok root, a) => Some (Ok (i64 (estimateV1 root true)), a)
  end.

Definition EstimatedSizeV2 (a : Archive W) : option (result archive_error (Z * Z) * Archive W) :=
  match buildTree true a with
  | None => None
  | Some (Err e, a) => Some (Err e, a)
  | Some (Ok root, a) =>
      let '(m, p) := estimateV2 root true in
      let m := match prelude a with Some pr => u64 (m + SizePrelude pr) | None => m end in
      Some (Ok (i64 m, i64 p), a)
  end.
End archive.
