(* ===== verification/ArchiveSpec.v ===== *)
(** * What the archive builder guarantees

    Theorems on Archive.v: a directory backed up, as a v1 archive or as a
    split v2 archive, reads back as the tree that was built, the two taken
    from [New] through scan, generation and reader; and what [AddTree] accepts
    and queues.  The examples at the end show where the code departs from what
    it documents. *)

From S2P Require Import Prelude Format Io Tree Payload Reuse Refs Emit Reader ReaderSpec ReaderSafe Previous ArchiveV2 Glob Scan ScanSpec Archive.
From stdpp Require Import sorting.
From Stdlib Require Import Strings.Byte.
Local Open Scope Z_scope.

(* ------------------------------------------------------------------ *)
(** ** Lemmas: a rebuilt root *)

Lemma wf_set_children cs n : wf_node n ->
  Forall (fun c => ValidateFilename (n_Name c) = Ok () /\ zlen (n_Name c) < maxRecordBody) cs -> zlen cs < 2 ^ 57 ->
  wf_node (Scan.set_children cs n).
Proof. intros [] Hcs Hn. by constructor. Qed.

Lemma height_le n h : n_Kind n = KindDirectory -> Forall (fun c => (height c <= h)%nat) (n_Children n) -> (height n <= S h)%nat.
Proof.
  intros Hk Hc. destruct n as [? ? kd ? ? ? ? ? ? cs ?]. cbn in *. subst kd. apply le_n_S.
  induction Hc as [|c cs Hc _ IH]; cbn; lia.
Qed.

Lemma filter_all {A} (f : A -> bool) l : Forall (fun x => f x = false) l -> filter (fun x => negb (f x)) l = l.
Proof. induction 1 as [|x l Hx _ IH]; [done|]. rewrite filter_cons, Hx, decide_True by done. by f_equal. Qed.

Lemma link_walks_app ap cs1 cs2 seen : link_walks ap (cs1 ++ cs2) seen = link_walks ap cs1 seen ≫= link_walks ap cs2.
Proof.
  revert seen. induction cs1 as [|c cs1 IH]; intros seen; [done|]. cbn [app link_walks].
  destruct (link_walk c _ seen) as [seen1|]; [|done]. apply IH.
Qed.

Lemma cli_valid : ValidateFilename pxarExcludeCLIName = Ok () /\ zlen pxarExcludeCLIName < maxRecordBody.
Proof. split; [by vm_compute|done]. Qed.

(** What [Platform] reports fits its Go types. *)
Class PlatformLaws (W : Type) `{Platform W} : Prop :=
  law_ids : is_u32 processIDs.1 /\ is_u32 processIDs.2.

Section laws.
Context {W : Type} `{MetadataReader W} `{Platform W} `{!ReaderLaws} `{!PathLimit} `{!PlatformLaws W}.

Lemma cli_wf p : tree_all wf_node (cliPatternNode p).
Proof.
  destruct law_ids as [Hu Hg]. constructor; [|constructor]. constructor; cbn; try done; try constructor.
Qed.

(** The tree of an archive with one directory, and what was scanned. *)
Lemma single_build o w a0 path name a1 v2 root a2 :
  New o w = Ok a0 -> AddDirectoryAs path name a0 = (Ok (), a1) -> buildTree v2 a1 = Some (Ok root, a2) ->
  a_opts a1 = o /\ exists w0 s0 s1 root0,
    NewScanner (o_Scan o) w0 = Ok s0 /\ ScanDirectory (o_Scan o) os_Abs scan_fuel path [] s0 = Some (Ok root0, s1) /\
    let kept := (dropReserved (n_Children root0)).1 in
    let cli := match a_cliPatterns a1 with Some p => if v2 then [] else [cliPatternNode p] | None => [] end in
    root = Scan.set_children (kept ++ cli) root0 /\
    (forall c, c ∈ n_Children root0 -> reserved c = true -> (WarnSkipped (n_Path c), WcReserved) ∈ a_warned a2) /\
    a_opts a2 = o /\ a_cliPatterns a2 = a_cliPatterns a1.
Proof.
  intros Hnew Hadd Hb. unfold New in Hnew. destruct (_ <? 0); [done|]. destruct (_ <? 0); [done|].
  destruct (ParsePatterns _) as [ps|e]; [|done]. injection Hnew as <-.
  unfold AddDirectoryAs in Hadd. destruct (os_Stat path _) as [[[]|e] w1]; cbn [negb] in Hadd; [|done..].
  destruct (ValidateFilename name) as [[]|e]; [|done]. injection Hadd as <-. split; [done|].
  set (cli := match ps with [] => None | _ => _ end) in *. clearbody cli.
  unfold buildTree, scanRoots, scanning in Hb. cbn [a_adds a_streams a_trees queue set_adds set_aworld a_opts app o_Scan a_world] in Hb.
  destruct (NewScanner (o_Scan o) w1) as [s0|e] eqn:Hs; [|done].
  destruct (ScanDirectory _ _ _ path [] s0) as [[[root0|e] s1]|] eqn:Hscan; [..|done]; [|done].
  exists w1, s0, s1, root0. split; [done|]. split; [done|].
  cbn [a_cliPatterns a_warn set_aworld queue set_adds dropReserved fst] in *. injection Hb as <- <-.
  split_and!; try done.
  - destruct cli as [p|]; [destruct v2|]; by rewrite ?app_nil_r.
  - intros c Hc Hr. cbn. apply elem_of_app. right. apply list_elem_of_fmap. exists c. split; [done|].
    apply list_elem_of_filter. by rewrite Hr.
Qed.

Lemma kept_sub cs c : c ∈ (dropReserved cs).1 -> c ∈ cs.
Proof. intros Hc. by apply list_elem_of_filter in Hc as [_ ?]. Qed.

Lemma rebuilt_wf root0 cli :
  tree_all scanned_node root0 -> n_Kind root0 = KindDirectory -> (height root0 <= maxDepth)%nat -> (length cli <= 1)%nat ->
  Forall (fun c => exists p, c = cliPatternNode p) cli ->
  let root := Scan.set_children ((dropReserved (n_Children root0)).1 ++ cli) root0 in
  n_Kind root = KindDirectory /\ tree_all wf_node root /\ tree_all fits root /\ (height root <= maxDepth)%nat.
Proof.
  intros Htree Hk Hh Hl Hcli root. assert (n_Kind root = KindDirectory) as Hkr by done.
  assert (length (dropReserved (n_Children root0)).1 <= length (n_Children root0))%nat as Hlen by apply length_filter.
  pose proof (kept_sub (n_Children root0)) as Hsub. subst root. revert Hlen Hsub Hkr. generalize (dropReserved (n_Children root0)).1.
  intros kept Hlen Hsub. set (root := Scan.set_children (kept ++ cli) root0). intros Hkr.
  assert (zlen (n_Children root0) < 2 ^ 56) as Hn by (by destruct Htree as [(_ & _ & _ & _ & ?) _]).
  apply scanned_wf in Htree as [[Hwf Hwc] [_ Hfc]]. rewrite Forall_forall in Hwc, Hfc, Hcli.
  pose proof (height_children root0 Hk) as Hhc. rewrite Forall_forall in Hhc.
  split; [done|]. split; [|split].
  - constructor.
    + apply wf_set_children; [done| |rewrite length_app; lia]. apply Forall_app. split.
      * pose proof (wf_children _ Hwf) as Hv. rewrite Forall_forall in Hv |- *. intros c Hc%Hsub. auto.
      * apply Forall_forall. intros c Hc. destruct (Hcli c Hc) as [p ->]. apply cli_valid.
    + cbn. apply Forall_app. split; apply Forall_forall; intros c Hc; [by apply Hwc, Hsub|].
      destruct (Hcli c Hc) as [p ->]. apply cli_wf.
  - constructor; [unfold fits; cbn; rewrite length_app; lia|].
    cbn. apply Forall_app. split; apply Forall_forall; intros c Hc; [by apply Hfc, Hsub|].
    destruct (Hcli c Hc) as [p ->]. by constructor.
  - etrans; [apply (height_le root (height root0 - 1) Hkr)|].
    + cbn. apply Forall_app. split; apply Forall_forall; intros c Hc; [apply Hsub, Hhc in Hc; lia|].
      destruct (Hcli c Hc) as [p ->]. cbn. lia.
    + assert (0 < height root0)%nat; [|lia]. clear -Hk. destruct root0 as [? ? kd ? ? ? ? ? ? cs ?]. cbn in *. subst. lia.
Qed.
End laws.

(* ------------------------------------------------------------------ *)
(** ** Lemmas: virtual trees *)

(** A tree [AddTree] takes: directories of streams, names valid and distinct. *)
Inductive virtual_ok : node -> Prop :=
  | vo_dir n : n_Kind n = KindDirectory -> NoDup (n_Name <$> n_Children n) ->
      Forall (fun c => ValidateFilename (n_Name c) = Ok ()) (n_Children n) -> Forall virtual_ok (n_Children n) -> virtual_ok n
  | vo_stream n r : n_Kind n = KindStream -> n_Stream n = Some r -> 0 <= st_Size (n_Stat n) -> virtual_ok n.

(** The tree it queues for [n]: children sorted, the type bits of the modes
    those of the kinds, streams with a link; all else as given. *)
Inductive virtual_done : node -> node -> Prop :=
  | vd_dir n cs cs' st' : n_Kind n = KindDirectory -> cs ≡ₚ n_Children n -> Forall2 virtual_done cs cs' ->
      StronglySorted (fun a b => name_le a b /\ n_Name a <> n_Name b) cs' ->
      Z.land (st_Mode st') modeTypeMask = modeDir -> Z.ldiff (st_Mode st') modeTypeMask = Z.ldiff (st_Mode (n_Stat n)) modeTypeMask ->
      st' = set_mode (st_Mode st') (n_Stat n) ->
      virtual_done n (Scan.set_children cs' (set_stat st' n))
  | vd_stream n st' : n_Kind n = KindStream -> n_Stream n <> None -> 0 <= st_Size st' ->
      Z.land (st_Mode st') modeTypeMask = modeRegular -> Z.ldiff (st_Mode st') modeTypeMask = Z.ldiff (st_Mode (n_Stat n)) modeTypeMask ->
      st_Nlink st' <> 0 -> (st_Nlink (n_Stat n) <> 0 -> st_Nlink st' = st_Nlink (n_Stat n)) ->
      st' = set_nlink (st_Nlink st') (set_mode (st_Mode st') (n_Stat n)) ->
      virtual_done n (set_stat st' n).

Lemma with_type_spec ty st : Z.land ty modeTypeMask = ty ->
  Z.land (st_Mode (with_type ty st)) modeTypeMask = ty /\
  Z.ldiff (st_Mode (with_type ty st)) modeTypeMask = Z.ldiff (st_Mode st) modeTypeMask /\
  with_type ty st = set_mode (st_Mode (with_type ty st)) st.
Proof.
  intros Hty. unfold with_type. destruct (Z.eqb_spec (Z.land (st_Mode st) modeTypeMask) ty) as [He|He].
  - split_and!; try done. by destruct st.
  - cbn. split_and!; [| |done]; apply Z.bits_inj'; intros k Hk; rewrite <- Hty, ?Z.land_spec, ?Z.ldiff_spec, ?Z.lor_spec, ?Z.ldiff_spec, ?Z.land_spec;
      destruct (Z.testbit ty k), (Z.testbit (st_Mode st) k), (Z.testbit modeTypeMask k); done.
Qed.

#[export] Instance checked_le_total : Total checked_le.
Proof. intros a b. apply bytes_leb_total. Qed.
#[export] Instance checked_le_trans : Transitive checked_le.
Proof. intros a b c. apply bytes_leb_trans. Qed.

Abbreviation names_of l := ((fun x : checked => n_Name x.1) <$> l).

Lemma validate_children_ok path l : StronglySorted checked_le l -> forall prev cs',
  (forall p, prev = Some p -> Forall (fun x : checked => bytes_leb p (n_Name x.1) = true) l) ->
  validate_children path prev l = Ok cs' ->
  Forall2 (fun x c' => ValidateFilename (n_Name x.1) = Ok () /\ x.2 (path ++ [slash] ++ n_Name x.1) = Ok c') l cs' /\
  NoDup (names_of l) /\ (forall p, prev = Some p -> p ∉ names_of l).
Proof.
  induction 1 as [|[c validate] l Hs IH Hc]; intros prev cs' Hp Hv; cbn [validate_children] in Hv.
  { injection Hv as <-. split_and!; [constructor|constructor|]. intros p _. apply not_elem_of_nil. }
  destruct (ValidateFilename (n_Name c)) as [[]|e] eqn:Hn; [|done]. case_decide as Hd; [done|].
  unfold mbind, result_bind in Hv. destruct (validate _) as [c'|e] eqn:Hc'; [|done].
  destruct (validate_children _ _ l) as [cs|e] eqn:Hl; [|done]. injection Hv as <-.
  destruct (IH (Some (n_Name c)) cs) as (H1 & H2 & H3); [intros p [= <-]; exact Hc|exact Hl|].
  specialize (H3 _ eq_refl). split_and!; [by constructor| |].
  - rewrite fmap_cons. by constructor.
  - intros p ->. rewrite fmap_cons. intros [->|Hin]%elem_of_cons; [done|].
    apply list_elem_of_fmap in Hin as (y & -> & Hy). specialize (Hp _ eq_refl). apply Forall_cons in Hp as [Hpc _].
    rewrite Forall_forall in Hc. apply Hd. f_equal. by apply bytes_leb_antisym, (Hc y Hy).
Qed.

Lemma validate_children_total path l : forall prev,
  Forall (fun x : checked => ValidateFilename (n_Name x.1) = Ok () /\ exists c', x.2 (path ++ [slash] ++ n_Name x.1) = Ok c') l ->
  NoDup (names_of l) -> (forall p, prev = Some p -> p ∉ names_of l) -> exists cs', validate_children path prev l = Ok cs'.
Proof.
  induction l as [|[c validate] l IH]; intros prev Hall Hn Hp; [by exists []|].
  apply Forall_cons in Hall as [[Hv (c' & Hc)] Hall]. cbn [fst snd] in *. cbn [validate_children]. rewrite Hv.
  rewrite fmap_cons in Hn, Hp. apply NoDup_cons in Hn as [Hni Hn]. rewrite decide_False; [|intros ->; apply (Hp _ eq_refl); by left].
  destruct (IH (Some (n_Name c))) as [cs' Hcs]; [done|done|by intros p [= <-]|].
  exists (c' :: cs'). unfold mbind, result_bind. by rewrite Hc, Hcs.
Qed.

(** The sorted children of [validateTree], with the call it makes on each. *)
Lemma sorted_checks n : let l := merge_sort checked_le (map (fun c => (c, validateTree c)) (n_Children n)) in
  StronglySorted checked_le l /\ l.*1 ≡ₚ n_Children n /\ Forall (fun x => x.2 = validateTree x.1) l.
Proof.
  intros l. assert (l ≡ₚ map (fun c => (c, validateTree c)) (n_Children n)) as Hp by apply merge_sort_Permutation.
  split; [apply StronglySorted_merge_sort; apply _|]. split.
  - rewrite Hp. clear. induction (n_Children n) as [|c cs IH]; [done|]. cbn. by f_equiv.
  - rewrite Hp. clear. induction (n_Children n) as [|c cs IH]; constructor; done.
Qed.

Lemma validateTree_dir n path : n_Kind n = KindDirectory ->
  validateTree n path = (cs ← validate_children path None (merge_sort checked_le (map (fun c => (c, validateTree c)) (n_Children n)));
                         Ok (Scan.set_children cs (set_stat (with_type modeDir (n_Stat n)) n))).
Proof. destruct n. cbn. by intros ->. Qed.
Lemma validateTree_stream n path : n_Kind n = KindStream ->
  validateTree n path =
    match n_Stream n with
    | None => Err (VeNoReader path)
    | Some _ =>
        if st_Size (n_Stat n) <? 0 then Err (VeNegative path (st_Size (n_Stat n))) else
        let st := with_type modeRegular (n_Stat n) in
        Ok (set_stat (if st_Nlink st =? 0 then set_nlink 1 st else st) n)
    end.
Proof. destruct n. cbn. by intros ->. Qed.
Lemma validateTree_kind n path n' : validateTree n path = Ok n' -> n_Kind n = KindDirectory \/ n_Kind n = KindStream.
Proof. destruct n as [? ? kd ? ? ? ? ? ? ? ?]. cbn. destruct kd; auto; done. Qed.
Lemma done_name n n' : virtual_done n n' -> n_Name n' = n_Name n.
Proof. by destruct 1. Qed.

Lemma validateTree_done n : forall path n', validateTree n path = Ok n' -> virtual_ok n /\ virtual_done n n'.
Proof.
  induction n as [n IH] using node_ind'. intros path n' Hv.
  destruct (validateTree_kind _ _ _ Hv) as [Hk|Hk].
  - rewrite (validateTree_dir n path Hk) in Hv. unfold mbind, result_bind in Hv.
    destruct (sorted_checks n) as (Hs & Hp & Hx). set (l := merge_sort _ _) in *. clearbody l.
    destruct (validate_children path None l) as [cs'|e] eqn:Hc; [|done]. injection Hv as <-.
    destruct (validate_children_ok path l Hs None cs' ltac:(done) Hc) as (H2 & Hnd & _).
    assert (Forall2 (fun c c' => ValidateFilename (n_Name c) = Ok () /\ virtual_ok c /\ virtual_done c c') l.*1 cs') as Hcs.
    { apply Forall2_fmap_l. assert (Forall (fun x => x.1 ∈ n_Children n) l) as Hin.
      { apply Forall_forall. intros x Hxl. rewrite <- Hp. apply list_elem_of_fmap. eauto. }
      rewrite Forall_forall in IH. clear Hs Hp Hnd Hc. induction H2 as [|x c' l cs' [Hv Hc] _ IHl]; [constructor|].
      apply Forall_cons in Hx as [Hx0 Hx]. apply Forall_cons in Hin as [Hin0 Hin]. constructor; [|auto].
      rewrite Hx0 in Hc. split; [done|]. by eapply IH. }
    split.
    + apply vo_dir; [done|rewrite <- Hp, <- list_fmap_compose; exact Hnd| |]; rewrite <- Hp; apply Forall_forall;
        intros c Hin; apply list_elem_of_lookup in Hin as [i Hi]; destruct (Forall2_lookup_l _ _ _ _ _ Hcs Hi) as (c' & _ & ? & ? & _); done.
    + destruct (with_type_spec modeDir (n_Stat n)) as (M1 & M2 & M3); [done|].
      apply (vd_dir n l.*1 cs'); try done.
      * eapply Forall2_impl; [exact Hcs|]. by intros c c' (_ & _ & ?).
      * assert (n_Name <$> cs' = names_of l) as Hnames.
        { clear -Hcs. revert cs' Hcs. induction l as [|x l IH]; intros cs' Hcs; inversion Hcs as [|? c' ? cs (_ & _ & Hd) Hr]; subst; [done|].
          rewrite !fmap_cons, (done_name _ _ Hd). f_equal. by apply IH. }
        assert (StronglySorted bytes_le (names_of l)) as Hsn by (clear -Hs; induction Hs as [|x l Hs IH Hx]; [constructor|]; rewrite fmap_cons; constructor; [done|]; by rewrite Forall_fmap).
        rewrite <- Hnames in Hsn, Hnd. clear -Hsn Hnd. induction cs' as [|c cs IH]; [constructor|]. rewrite fmap_cons in *.
        apply NoDup_cons in Hnd as [Hni Hnd]. apply StronglySorted_inv in Hsn as [Hsn Hc]. constructor; [by apply IH|].
        rewrite Forall_fmap, Forall_forall in Hc. apply Forall_forall. intros y Hy. split; [by apply (Hc y)|].
        intros He. apply Hni. rewrite He. apply list_elem_of_fmap. eauto.
  - rewrite (validateTree_stream n path Hk) in Hv. destruct (n_Stream n) as [r|] eqn:Hr; [|done].
    destruct (Z.ltb_spec (st_Size (n_Stat n)) 0) as [|Hsz]; [done|]. injection Hv as <-.
    split; [by eapply vo_stream|]. destruct (with_type_spec modeRegular (n_Stat n)) as (M1 & M2 & M3); [done|].
    assert (st_Nlink (with_type modeRegular (n_Stat n)) = st_Nlink (n_Stat n)) as Hl by by rewrite M3.
    assert (st_Size (with_type modeRegular (n_Stat n)) = st_Size (n_Stat n)) as Hz by by rewrite M3.
    cbv zeta. destruct (Z.eqb_spec (st_Nlink (with_type modeRegular (n_Stat n))) 0) as [He|He].
    + apply vd_stream; cbn; rewrite ?Hz, ?Hr; try done; [lia|]. rewrite M3 at 1. done.
    + apply vd_stream; rewrite ?Hz, ?Hr; try done. rewrite M3 at 1. rewrite Hl. by destruct (n_Stat n).
Qed.

Lemma validateTree_total n : virtual_ok n -> forall path, exists n', validateTree n path = Ok n'.
Proof.
  induction n as [n IH] using node_ind'. intros Hok path. inversion Hok as [? Hk Hnd Hv Hc|? r Hk Hr Hsz]; subst.
  - rewrite (validateTree_dir n path Hk). destruct (sorted_checks n) as (Hs & Hp & Hx). set (l := merge_sort _ _) in *. clearbody l.
    destruct (validate_children_total path l None) as [cs Hcs].
    + rewrite Forall_forall in IH; rewrite Forall_forall in Hv; rewrite Forall_forall in Hc; rewrite Forall_forall in Hx.
      apply Forall_forall. intros x Hxl.
      assert (x.1 ∈ n_Children n) as Hin by (rewrite <- Hp; apply list_elem_of_fmap; eauto).
      split; [by apply Hv|]. rewrite (Hx x Hxl). apply IH; [done|by apply Hc].
    + by rewrite <- Hp, <- list_fmap_compose in Hnd.
    + done.
    + unfold mbind, result_bind. rewrite Hcs. eauto.
  - rewrite (validateTree_stream n path Hk), Hr. destruct (Z.ltb_spec (st_Size (n_Stat n)) 0); [lia|]. eauto.
Qed.

(* ------------------------------------------------------------------ *)
(** ** Properties *)

Section directory.
Context {W : Type} `{MetadataReader W} `{Platform W} `{!ReaderLaws} `{!PathLimit} `{!PlatformLaws W} `{SipHash}.

(** C4: A directory backed up as a v1 archive.  From [New], [AddDirectoryAs] and
    a scan that fails on errors, when no root entry had the reserved name and
    the files open at generation: [GenerateV1] writes the archive without an
    error, hardlinks resolved, and a reader given its bytes in any segmentation
    returns the tree that was built, node by node with metadata and content,
    and then the end; the exclude patterns, if any, are its last root entry. *)
Theorem directory_archive_v1 o w a0 path name a1 root a2 (fs : osfs) :
  New o w = Ok a0 -> AddDirectoryAs path name a0 = (Ok (), a1) -> SkipOnError (o_Scan o) = false ->
  buildTree false a1 = Some (Ok root, a2) -> (forall x, (x, WcReserved) ∉ a_warned a2) ->
  tree_all (unchanged fs) root ->
  (forall p, a_cliPatterns a1 = Some p -> last (n_Children root) = Some (cliPatternNode p)) /\
  exists out a3, GenerateV1 fs (cw_open 0 []) a1 = Some (Ok (Ok (), out), a3) /\
  forall seg want, contents seg = (out, EOF) -> (0 < want)%nat ->
  exists xs,
    (fun it => (it_path it, it_node it)) <$> xs = flatten root [] /\
    Forall (item_ok false (sync_cont fs)) xs /\
    read_archive (S (length xs)) want (NewReaderV1 seg) =
      ((fun it => (decode_item false it, item_content (fun _ _ => []) it)) <$> xs, RdEOF).
Proof.
  intros Hnew Hadd Hskip Hb Hres Hgood.
  destruct (single_build _ _ _ _ _ _ _ _ _ Hnew Hadd Hb) as (Ho & w0 & s0 & s1 & root0 & Hs & Hscan & Hroot & Hrw & _ & _).
  destruct (NewScanner_ok _ _ _ Hs) as (Hok & _ & _).
  destruct (scan_root_tree (o_Scan o) os_Abs true path [] s0 root0 s1 Hscan) as (Hk & Htree & Hh); try done; [by left|].
  destruct (scan_links _ _ _ _ _ _ _ Hs Hskip Hscan) as [seen Hseen]. specialize (proj2 Hk eq_refl) as Hkd.
  assert ((dropReserved (n_Children root0)).1 = n_Children root0) as Hkept.
  { apply filter_all, Forall_forall. intros c Hc. destruct (reserved c) eqn:Hrc; [|done].
    destruct (Hres (WarnSkipped (n_Path c))). by apply Hrw. }
  set (cli := match a_cliPatterns a1 with Some p => _ | None => _ end) in Hroot.
  assert ((length cli <= 1)%nat /\ Forall (fun c => exists p, c = cliPatternNode p) cli) as [Hcl Hcf]
    by (subst cli; destruct (a_cliPatterns a1); split; cbn; try lia; repeat constructor; eauto).
  destruct (rebuilt_wf root0 cli Htree Hkd Hh Hcl Hcf) as (Hkr & Hwf & Hfits & Hhr).
  rewrite Hkept in *. rewrite <- Hroot in *. split.
  { intros p Hp. rewrite Hroot. cbn. subst cli. rewrite Hp. apply last_snoc. }
  assert (exists seen', link_walk root [] ∅ = Some seen') as [seen' Hwalk].
  { rewrite Hroot, link_walk_eq. cbn [n_Kind Scan.set_children n_Children]. rewrite Hkd, link_walks_app.
    rewrite link_walk_eq, Hkd in Hseen. rewrite Hseen. exists seen. cbn. subst cli. by destruct (a_cliPatterns a1). }
  set (em := mkEm (cw_open 0 []) fs None (fun _ => Err ErrPanic) None ∅ []).
  pose proof (em_run_decided (fun s => s = fs) (unchanged fs) (sync_live fs) root em Hgood Hfits) as Hrun.
  rewrite Hwalk in Hrun. destruct Hrun as [em' He]; [by split|].
  unfold GenerateV1. rewrite Hb. fold em. rewrite He. eexists _, _. split; [done|]. intros seg want Hseg Hwant.
  assert (em_ready (fun s => s = fs) em) as Hready by done.
  destruct (em_run_ok (fun s => s = fs) (unchanged fs) (sync_cont fs) (sync_copies fs) _ _ _ _ Hgood Hready He)
    as (out & extra & xs & ln & Henc & [[Hout _] _ _ _ _ _]).
  cbn [em em_v2 em_refs stream_head em_w cw_out cw_open app length cw_pos] in *.
  destruct (encodes_layout false (sync_cont fs)) as [Hlay _]. destruct (Hlay _ _ _ _ _ _ _ _ _ Henc (u64_range _)) as (Hx & _).
  destruct (encodes_items false (sync_cont fs)) as [Hit _]. specialize (Hit _ _ _ _ _ _ _ _ _ Henc).
  exists xs. split; [done|]. split; [done|]. rewrite Hout in Hseg. by eapply read_encoded.
Qed.

(** C6: A directory backed up as a split archive that reads every file.  When
    [GenerateV2] has written both streams, with any root entry of the reserved
    name dropped, a reader of the metadata stream, in any segmentation, with
    the payload stream behind it returns the tree that was built, node by
    node with metadata and content, and then the end. *)
Theorem directory_archive_v2 o w a0 path name a1 root a2 (fs : osfs) mout pout inj a3 seg ra want :
  New o w = Ok a0 -> AddDirectoryAs path name a0 = (Ok (), a1) -> o_Previous o = None ->
  buildTree true a1 = Some (Ok root, a2) -> tree_all (unchanged fs) root -> prelude_ok (prelude a1) ->
  GenerateV2 fs (cw_open 0 []) (cw_open 0 []) a1 = Some (Ok ((Ok (), mout), (Ok (), pout), inj), a3) ->
  contents seg = (mout, EOF) -> reads_at ra pout -> zlen pout <= 2 ^ 62 -> (0 < want)%nat ->
  Forall (fun c => reserved c = false) (n_Children root) /\
  exists xs,
    (fun it => (it_path it, it_node it)) <$> xs = flatten root [] /\
    Forall (fun it => is_payload (n_Kind (it_node it)) = true -> sync_cont fs (it_node it) (item_content (content_at pout) it)) xs /\
    read_archive (S (length xs)) want (NewReaderV2 seg (Some ra)) =
      ((fun it => (decode_item false it, item_content (content_at pout) it)) <$> xs, RdEOF).
Proof.
  intros Hnew Hadd Hprev Hb Hgood Hprel Hgen Hseg Hra Hlen Hwant.
  destruct (single_build _ _ _ _ _ _ _ _ _ Hnew Hadd Hb) as (Ho & w0 & s0 & s1 & root0 & Hs & Hscan & Hroot & _ & Ho2 & Hc2).
  destruct (NewScanner_ok _ _ _ Hs) as (Hok & _ & _).
  destruct (scan_root_tree (o_Scan o) os_Abs true path [] s0 root0 s1 Hscan) as (Hk & Htree & Hh); try done; [by left|].
  specialize (proj2 Hk eq_refl) as Hkd.
  assert (match a_cliPatterns a1 with Some p => if true then [] else [cliPatternNode p] | None => [] end = []) as Hcli by by destruct (a_cliPatterns a1).
  rewrite Hcli in Hroot.
  destruct (rebuilt_wf root0 [] Htree Hkd Hh) as (Hkr & Hwf & Hfits & Hhr); [cbn; lia|constructor|]. rewrite <- Hroot in *.
  split.
  { rewrite Hroot. cbn. rewrite app_nil_r. apply Forall_forall. intros c [Hc _]%list_elem_of_filter. by destruct (reserved c). }
  unfold GenerateV2 in Hgen. rewrite Hb, Ho2, Hprev in Hgen. rewrite planReuse_none in Hgen.
  set (plan := mark_read 0 _) in Hgen. set (pe := mkPE _ _ _ _ _ _ _) in Hgen.
  destruct (pe_run plan pe) as [pres pe'] eqn:Hpe. set (em := mkEm _ _ _ _ _ _ _) in Hgen.
  destruct (em_run root em) as [mres em'] eqn:Hem. injection Hgen as -> <- -> <- _ _.
  assert (prelude a2 = prelude a1) as Hpa by (unfold prelude; by rewrite Hc2).
  destruct (split_encoded (fun s => s = fs) (unchanged fs) (sync_cont fs) (sync_copies fs) root em em' pe pe' plan)
    as (out & extra & xs & ln & rest & Henc & Hout & Hrest & Hall); try done.
  destruct (encodes_layout true (sync_cont fs)) as [Hlay _]. destruct (Hlay _ _ _ _ _ _ _ _ _ Henc (u64_range _)) as (Hx & _).
  exists xs. split; [done|]. rewrite Hout in Hseg.
  eapply read_split; try done. rewrite <- Hpa. exact Hseg.
Qed.
End directory.

(** C38: [AddTree] takes exactly the directories whose tree holds directories and
    streams only, every stream with a reader and no negative size, the names
    of a directory valid and distinct; it then queues that tree with children
    in ascending order, the type bits of every mode set to the node's kind and
    a link for every stream, and otherwise leaves the archive alone. *)
Theorem AddTree_spec {W : Type} root (a : Archive W) :
  ((exists a', AddTree root a = (Ok (), a')) <-> n_Kind root = KindDirectory /\ virtual_ok root) /\
  (forall a', AddTree root a = (Ok (), a') -> exists root', a' = set_trees (a_trees a ++ [root']) a /\ virtual_done root root') /\
  (forall e a', AddTree root a = (Err e, a') -> a' = a).
Proof.
  unfold AddTree. split_and!.
  - case_decide as Hk; [|split; [by intros [a' ?]|by intros [? _]]]. split.
    + intros [a' Ha]. split; [done|]. destruct (validateTree root _) as [root'|e] eqn:Hv; [|done].
      by apply validateTree_done in Hv as [? _].
    + intros [_ Hok]. destruct (validateTree_total root Hok (n_Name root)) as [root' ->]. eauto.
  - intros a'. case_decide; [|done]. destruct (validateTree root _) as [root'|e] eqn:Hv; [|done].
    apply validateTree_done in Hv as [_ Hd]. intros [= <-]. by exists root'.
  - intros e a'. case_decide; [|by intros [= _ <-]]. by destruct (validateTree root _); intros [= _ <-].
Qed.

(* ------------------------------------------------------------------ *)
(** ** Witnesses *)

#[export] Instance toy_platform : Platform unit := {
  os_Stat p w := (if decide (p ∈ [lit "/"; lit "/r"; lit "/r/d"]) then Ok true
                  else match toy_find p with Some _ => Ok false | None => Err ErrNotExist end, w);
  os_Lstat p w := (if decide (p ∈ [lit "/"; lit "/r"; lit "/r/d"]) then Ok true
                   else match toy_find p with Some _ => Ok false | None => Err ErrNotExist end, w);
  os_Abs := Ok; os_Now := (1700000001, 7); processIDs := (1000, 1000) }.
#[export] Instance toy_platform_laws : PlatformLaws unit.
Proof. by split. Qed.

Definition toy_o : ArchiveOptions :=
  mkArchiveOptions (lit "host") 1 0 (mkOptions false false [lit "*.bak"] true None) None (SpecFloat.S754_zero false).
Definition empty_archive (o : ArchiveOptions) : Archive unit :=
  match New o () with Ok a => a | Err _ => mkArchive o [] [] [] None (mkStats 0 0 0 0 0) [] () end.
Definition toy_a0 : Archive unit := empty_archive toy_o.
Definition toy_a1 : Archive unit := (AddDirectoryAs (lit "/r") (lit "r") toy_a0).2.

(** What a build or a generation that succeeds returns. *)
Definition got {A} (d : A) (x : option (result archive_error A * Archive unit)) : A :=
  match x with Some (Ok r, _) => r | _ => d end.
Definition left_with (x : option (result archive_error node * Archive unit)) : Archive unit :=
  match x with Some (_, a) => a | None => toy_a0 end.
Definition succeeds {A} (x : option (result archive_error A * Archive unit)) : bool :=
  match x with Some (Ok _, _) => true | _ => false end.
Lemma got_it d x : succeeds x = true -> x = Some (Ok (got d x), left_with x).
Proof. by destruct x as [[[n|e] a]|]. Qed.

#[local] Abbreviation toy_build v2 := (buildTree v2 toy_a1).
Lemma toy_builds v2 : toy_build v2 = Some (Ok (got sample_tree (toy_build v2)), left_with (toy_build v2)).
Proof. apply got_it. by destruct v2; vm_compute. Qed.

Lemma toy_unchanged v2 : tree_all (unchanged toy_fs) (got sample_tree (toy_build v2)).
Proof.
  assert (exists n, got sample_tree (toy_build v2) = n /\ tree_all (unchanged toy_fs) n) as (n & -> & Hn); [|done].
  destruct v2; eexists; (split; [vm_compute; reflexivity|]);
  each_node; unfold unchanged; cbn -[toy_fs]; try done; intros _; (split; [lia|]);
    try (eexists _, _; split_and!; reflexivity); eexists; split; reflexivity.
Qed.

Lemma directory_archive_v1_witness :
  (forall p, a_cliPatterns toy_a1 = Some p ->
    last (n_Children (got sample_tree (toy_build false))) = Some (cliPatternNode p)) /\
  exists out a3, @GenerateV1 _ _ _ _ _ toy_siphash toy_fs (cw_open 0 []) toy_a1 = Some (Ok (Ok (), out), a3) /\
  forall seg want, contents seg = (out, EOF) -> (0 < want)%nat ->
  exists xs,
    (fun it => (it_path it, it_node it)) <$> xs = flatten (got sample_tree (toy_build false)) [] /\
    Forall (item_ok false (sync_cont toy_fs)) xs /\
    read_archive (S (length xs)) want (NewReaderV1 seg) =
      ((fun it => (decode_item false it, item_content (fun _ _ => []) it)) <$> xs, RdEOF).
Proof.
  refine (@directory_archive_v1 _ _ _ _ _ _ toy_siphash toy_o () toy_a0 (lit "/r") (lit "r") toy_a1 _ _ toy_fs
    eq_refl eq_refl eq_refl (toy_builds false) _ (toy_unchanged false)).
  intros x Hx. assert (a_warned (left_with (toy_build false)) = []) as E by (vm_compute; reflexivity).
  rewrite E in Hx. by apply elem_of_nil in Hx.
Defined.

#[local] Abbreviation toy_gen := (@GenerateV2 _ _ _ _ _ toy_siphash toy_fs (cw_open 0 []) (cw_open 0 []) toy_a1).
Definition toy_streams : stream_result * stream_result * list (nat * list Chunk) := got ((Err ErrPanic, []), (Err ErrPanic, []), []) toy_gen.
Definition toy_mout : bytes := toy_streams.1.1.2.
Definition toy_pout : bytes := toy_streams.1.2.2.

Lemma toy_generates : exists a3, toy_gen = Some (Ok ((Ok (), toy_mout), (Ok (), toy_pout), toy_streams.2), a3).
Proof.
  assert (match toy_gen with Some (Ok ((Ok _, _), (Ok _, _), _), _) => true | _ => false end = true) as Hs by (vm_compute; reflexivity).
  unfold toy_mout, toy_pout, toy_streams. revert Hs. generalize toy_gen.
  intros [[[[[[[[]|?] m] [[[]|?] p]] inj]|e] a]|]; try done. by exists a.
Qed.

Lemma directory_archive_v2_witness :
  Forall (fun c => reserved c = false) (n_Children (got sample_tree (toy_build true))) /\
  exists xs,
    (fun it => (it_path it, it_node it)) <$> xs = flatten (got sample_tree (toy_build true)) [] /\
    Forall (fun it => is_payload (n_Kind (it_node it)) = true ->
      sync_cont toy_fs (it_node it) (item_content (content_at toy_pout) it)) xs /\
    read_archive (S (length xs)) 3 (NewReaderV2 [(toy_mout, Some EOF)] (Some (bytes_at toy_pout))) =
      ((fun it => (decode_item false it, item_content (content_at toy_pout) it)) <$> xs, RdEOF).
Proof.
  destruct toy_generates as [a3 Hgen].
  refine (@directory_archive_v2 _ _ _ _ _ _ toy_siphash toy_o () toy_a0 (lit "/r") (lit "r") toy_a1 _ _ toy_fs
    toy_mout toy_pout toy_streams.2 a3 [(toy_mout, Some EOF)] (bytes_at toy_pout) 3 eq_refl eq_refl eq_refl (toy_builds true) (toy_unchanged true)
    _ Hgen eq_refl (bytes_reads_at _) _ _).
  - vm_compute. discriminate.
  - vm_compute. discriminate.
  - lia.
Defined.

(** [baseName] is not [filepath.Base] at the root of the filesystem, so the
    directory "/" cannot be added under its own name. *)
Example AddDirectory_root : (AddDirectory (lit "/") toy_a0).1 = Err (AeName EmptyName).
Proof. vm_compute. reflexivity. Qed.

(** Hardlinks across roots resolve in the order the roots were added, the
    virtual root is emitted in name order: with the roots added against it the
    archive cannot be generated. *)
Example roots_out_of_order :
  match @GenerateV1 _ _ _ _ _ toy_siphash toy_fs (cw_open 0 []) (AddFile (lit "/r/a") (AddFile (lit "/r/b") toy_a0).2).2 with
  | Some (Ok (res, _), _) => res = Err (ErrHardlinkTarget (lit "a") (lit "b"))
  | _ => False
  end.
Proof. vm_compute. reflexivity. Qed.

(** Estimating a v1 archive whose only root is a virtual tree leaves the
    pattern entry in the caller's tree; generating it then warns of it. *)
Definition toy_tree : node := Scan.set_children [] sample_tree.
Example estimate_then_generate :
  match EstimatedSizeV1 (AddTree toy_tree toy_a0).2 with
  | Some (Ok _, a) =>
      match @GenerateV1 _ _ _ _ _ toy_siphash toy_fs (cw_open 0 []) a with
      | Some (_, a) => a_warned a = [(WarnSkipped [], WcReserved)]
      | None => False
      end
  | _ => False
  end.
Proof. vm_compute. reflexivity. Qed.
