(* ===== verification/Async.v ===== *)
(** * The asynchronous payload source

    Models archive/async.go: a dispatcher binds the payloads in plan order, a
    pool of workers reads them into channels of two chunks under the shared
    [chunkBudget], and the emitter drains them in the same order.  [fire] runs
    one atomic step of one goroutine; a schedule is a list of steps.  A worker
    is either waiting for work or inside [read] of one payload, whose program
    point is kept beside that payload. *)

From S2P Require Import Prelude Format Io Tree Payload.
From stdpp Require Import sorting.
Local Open Scope Z_scope.

(** [chunkBudget]; [b_mu] is the worker inside [acquire]'s critical section,
    between its checks and [cond.Wait]. *)
Record chunkBudget := mkBudget { b_avail : Z; b_head : Z; b_mu : option nat }.

Definition newChunkBudget (chunks : Z) : chunkBudget := mkBudget chunks (-1) None.

Inductive acquire_result :=
  | AcqBlocked
  | AcqFail
  | AcqWait (b : chunkBudget)
  | AcqOk (b : chunkBudget).

(** One pass of [acquire] from the moment it gets the mutex. *)
Definition acquire (seq : nat) (done : bool) (b : chunkBudget) : acquire_result :=
  match b_mu b with
  | Some _ => AcqBlocked
  | None =>
      if (b_avail b <? 1) && negb (Z.of_nat seq =? b_head b)
      then if done then AcqFail else AcqWait (mkBudget (b_avail b) (b_head b) (Some seq))
      else if done then AcqFail else AcqOk (mkBudget (b_avail b - 1) (b_head b) None)
  end.

(** The end of [cond.Wait]'s registration: the mutex is given up. *)
Definition wait_unlock (b : chunkBudget) : chunkBudget := mkBudget (b_avail b) (b_head b) None.

Definition release (b : chunkBudget) : option chunkBudget :=
  match b_mu b with
  | Some _ => None
  | None => Some (mkBudget (b_avail b + 1) (b_head b) None)
  end.

Definition setHead (seq : nat) (b : chunkBudget) : option chunkBudget :=
  match b_mu b with
  | Some _ => None
  | None => Some (mkBudget (b_avail b) (Z.of_nat seq) None)
  end.

(** [asyncPayload]; its [seq] is its index.  A chunk is the [buf[:n]] sent.
    [p_fd]: the file is open. *)
Record asyncPayload := mkAP {
  p_node : node; p_size : Z; p_mtime : Z; p_f : option osfile;
  p_openErr : option gen_error;
  p_chunks : list bytes; p_closed : bool;
  p_err : option gen_error; p_warns : list Warning; p_fd : bool }.

Definition set_chunks (l : list bytes) (p : asyncPayload) : asyncPayload :=
  mkAP (p_node p) (p_size p) (p_mtime p) (p_f p) (p_openErr p) l (p_closed p)
    (p_err p) (p_warns p) (p_fd p).
Definition set_closed (p : asyncPayload) : asyncPayload :=
  mkAP (p_node p) (p_size p) (p_mtime p) (p_f p) (p_openErr p) (p_chunks p) true
    (p_err p) (p_warns p) (p_fd p).
Definition set_err (e : gen_error) (p : asyncPayload) : asyncPayload :=
  mkAP (p_node p) (p_size p) (p_mtime p) (p_f p) (p_openErr p) (p_chunks p) (p_closed p)
    (Some e) (p_warns p) (p_fd p).
Definition add_warns (l : list Warning) (p : asyncPayload) : asyncPayload :=
  mkAP (p_node p) (p_size p) (p_mtime p) (p_f p) (p_openErr p) (p_chunks p) (p_closed p)
    (p_err p) (p_warns p ++ l) (p_fd p).
Definition close_fd (p : asyncPayload) : asyncPayload :=
  mkAP (p_node p) (p_size p) (p_mtime p) (p_f p) (p_openErr p) (p_chunks p) (p_closed p)
    (p_err p) (p_warns p) false.

(** [asyncSource.bind]. *)
Definition bind (fs : osfs) (n : node) : asyncPayload :=
  let failed := mkAP n 0 0 None (Some (ErrOpen (n_Path n))) [] false None [] false in
  if decide (n_Kind n = KindStream)
  then mkAP n (int64_of (st_Size (n_Stat n))) 0 None None [] false None [] false
  else
    match fs (n_Path n) with
    | None => failed
    | Some f =>
        match f_stat f with
        | None => failed
        | Some (size, mtime) => mkAP n (int64_of size) mtime (Some f) None [] false None [] true
        end
    end.

(** What [read] calls [Read] on: [p.f], or [p.node.Stream]. *)
Definition payload_reader (p : asyncPayload) : option reader :=
  match p_f p with Some f => Some (f_reader f) | None => n_Stream (p_node p) end.

Definition warnPath (p : asyncPayload) : bytes :=
  if decide (n_Path (p_node p) = []) then n_Name (p_node p) else n_Path (p_node p).

(** Where a worker is in [read]: [acq] is its place in [take]. *)
Inductive acq := ATop | AArm | AWait | AHold.

Inductive read_pc :=
  | RNone
  | RLoop (pad : bool) (fromSource remaining : Z) (r : reader) (a : acq)
  | RSend (pad : bool) (fromSource remaining : Z) (r : reader) (b : bytes) (e : option ioerr)
  | RCheck (fromSource : Z) (r : reader)
  | RClose
  | RDone.

(** After the send: the error of the [Read], then the loop test. *)
Definition after_read (p : asyncPayload) (fromSource remaining : Z) (r : reader)
    (e : option ioerr) : asyncPayload * read_pc :=
  match e with
  | Some EOF =>
      if 0 <? remaining
      then (add_warns [WarnSizeChanged (warnPath p) (p_size p) fromSource] p,
            RLoop true fromSource remaining r ATop)
      else (p, RCheck fromSource r)
  | Some e => (set_err (ErrReading e) p, RClose)
  | None => (p, RLoop false fromSource remaining r ATop)
  end.

(** The torn-content check, or the probe past the end of a stream. *)
Definition final_warns (p : asyncPayload) (fromSource : Z) (r : reader) : list Warning :=
  match p_f p with
  | Some f =>
      match f_after f with
      | None => [WarnTornErr (n_Path (p_node p))]
      | Some (size', mtime') =>
          if negb (size' =? p_size p) || negb (mtime' =? p_mtime p)
          then [WarnTorn (n_Path (p_node p)) (p_size p) size'] else []
      end
  | None =>
      if fromSource =? p_size p then
        let '((probe, _), _) := ReadFull 1 r in
        if decide (probe = []) then []
        else [WarnSizeChanged (warnPath p) (p_size p) (p_size p + 1)]
      else []
  end.

(** One step of [asyncSource.read] on the payload [seq]; [alt] picks
    [ctx.Done()] in a select.  The boolean of the result: waiters are woken. *)
Definition read_step (seq : nat) (alt done : bool) (bud : chunkBudget) (p : asyncPayload)
    (pc : read_pc) : option (chunkBudget * bool * (asyncPayload * read_pc)) :=
  match pc with
  | RNone | RDone | RLoop _ _ _ _ AWait => None
  | RLoop pad fromSource remaining r ATop =>
      if negb (0 <? remaining) then Some (bud, false, (p, RCheck fromSource r)) else
      match acquire seq done bud with
      | AcqBlocked => None
      | AcqFail => Some (bud, false, (set_err ErrCanceled p, RClose))
      | AcqWait bud => Some (bud, false, (p, RLoop pad fromSource remaining r AArm))
      | AcqOk bud => Some (bud, false, (p, RLoop pad fromSource remaining r AHold))
      end
  | RLoop pad fromSource remaining r AArm =>
      Some (wait_unlock bud, false, (p, RLoop pad fromSource remaining r AWait))
  | RLoop false fromSource remaining r AHold =>
      let want := Z.min copyChunk remaining in
      let '(b, e, r) := Read (Z.to_nat want) r in
      if decide (b = []) then
        match release bud with
        | None => None
        | Some bud => Some (bud, true, after_read p fromSource remaining r e)
        end
      else Some (bud, false, (p, RSend false fromSource remaining r b e))
  | RLoop true fromSource remaining r AHold =>
      let n := Z.min copyChunk remaining in
      Some (bud, false, (p, RSend true fromSource remaining r (replicate (Z.to_nat n) nul) None))
  | RSend pad fromSource remaining r b e =>
      if alt then
        if done then
          match release bud with
          | None => None
          | Some bud => Some (bud, true, (set_err ErrCanceled p, RClose))
          end
        else None
      else if decide (length (p_chunks p) < 2)%nat then
        let p := set_chunks (p_chunks p ++ [b]) p in
        Some (bud, false,
          if pad then (p, RLoop true fromSource (remaining - zlen b) r ATop)
          else after_read p (fromSource + zlen b) (remaining - zlen b) r e)
      else None
  | RCheck fromSource r =>
      Some (bud, false, (add_warns (final_warns p fromSource r) p, RClose))
  | RClose => Some (bud, false, (set_closed (close_fd p), RDone))
  end.

(** Where the dispatcher is, for the payload [k]; [DExit k]: it returned,
    closing [work], after [k] deliveries. *)
Inductive dispatch_pc :=
  | DSelect (k : nat) | DBind (k : nat) | DDeliver (k : nat) | DWork (k : nat)
  | DExit (k : nat).

(** Where the emitter is: opening payload [k], rendering its header, in
    [Copy]'s receive and write, in [Close]; then [cancel], [wait], and over. *)
Inductive emit_pc :=
  | EmNext (k : nat) | EmOpened (k : nat) | EmCopy (k : nat) | EmWrite (k : nat) (b : bytes)
  | EmClose (k : nat) (res : result gen_error unit)
  | EmCancel (res : result gen_error unit) | EmWait (res : result gen_error unit)
  | EmEnd (res : result gen_error unit).

(** [asyncSource] with its goroutines and its emitter. [c_bcast]: the
    goroutine of [newChunkBudget] has broadcast; [c_binds]: [onBind]'s calls. *)
Record config := mkConfig {
  c_done : bool; c_bcast : bool; c_bud : chunkBudget;
  c_window : nat; c_delivery : list nat; c_work : list nat;
  c_idle : nat; c_exited : nat; c_pays : list (asyncPayload * read_pc);
  c_disp : dispatch_pc; c_em : emit_pc; c_w : countWriter; c_warns : list Warning;
  c_binds : list (Z * option gen_error) }.

Inductive event :=
  | Dispatch (alt : bool) | Pick | Work (k : nat) (alt : bool) | Emit (alt : bool)
  | Cancel | Broadcast.

Definition wake_pc (pc : read_pc) : read_pc :=
  match pc with
  | RLoop pad f m r AWait => RLoop pad f m r ATop
  | pc => pc
  end.

(** [cond.Broadcast]. *)
Definition wake (ps : list (asyncPayload * read_pc)) : list (asyncPayload * read_pc) :=
  (fun x => (x.1, wake_pc x.2)) <$> ps.

(** [close(s.work)] is deferred in [dispatch]. *)
Definition work_closed (c : config) : bool :=
  match c_disp c with DExit _ => true | _ => false end.

Definition budgetChunks (budgetBytes : Z) : Z :=
  let budgetBytes := if budgetBytes <=? 0 then Z.shiftl 64 20 else budgetBytes in
  let n := Z.quot budgetBytes copyChunk in
  if n <? 2 then 2 else n.

Definition windowSize (workers : nat) : nat :=
  let window := (2 * workers)%nat in if decide (window < 8)%nat then 8%nat else window.

Section async.
(** The filesystem, the payloads in plan order, the number of workers, and the
    records the emitter renders before each payload's content. *)
Context (fs : osfs) (nodes : list node) (workers : nat) (hdr : nat -> bytes).

Definition window : nat := windowSize workers.

Definition newAsyncSource (budgetBytes : Z) (w : countWriter) : config :=
  mkConfig false false (newChunkBudget (budgetChunks budgetBytes)) 0 [] [] workers 0 []
    (DSelect 0) (EmNext 0) w [] [].

Definition with_disp (d : dispatch_pc) (c : config) : config :=
  mkConfig (c_done c) (c_bcast c) (c_bud c) (c_window c) (c_delivery c) (c_work c)
    (c_idle c) (c_exited c) (c_pays c) d (c_em c) (c_w c) (c_warns c) (c_binds c).
Definition with_pays (ps : list (asyncPayload * read_pc)) (c : config) : config :=
  mkConfig (c_done c) (c_bcast c) (c_bud c) (c_window c) (c_delivery c) (c_work c)
    (c_idle c) (c_exited c) ps (c_disp c) (c_em c) (c_w c) (c_warns c) (c_binds c).
Definition with_em (e : emit_pc) (c : config) : config :=
  mkConfig (c_done c) (c_bcast c) (c_bud c) (c_window c) (c_delivery c) (c_work c)
    (c_idle c) (c_exited c) (c_pays c) (c_disp c) e (c_w c) (c_warns c) (c_binds c).
Definition with_bud (b : chunkBudget) (c : config) : config :=
  mkConfig (c_done c) (c_bcast c) b (c_window c) (c_delivery c) (c_work c)
    (c_idle c) (c_exited c) (c_pays c) (c_disp c) (c_em c) (c_w c) (c_warns c) (c_binds c).
Definition with_queues (win : nat) (del wrk : list nat) (c : config) : config :=
  mkConfig (c_done c) (c_bcast c) (c_bud c) win del wrk
    (c_idle c) (c_exited c) (c_pays c) (c_disp c) (c_em c) (c_w c) (c_warns c) (c_binds c).
Definition with_pool (idle exited : nat) (c : config) : config :=
  mkConfig (c_done c) (c_bcast c) (c_bud c) (c_window c) (c_delivery c) (c_work c)
    idle exited (c_pays c) (c_disp c) (c_em c) (c_w c) (c_warns c) (c_binds c).
Definition with_out (w : countWriter) (ws : list Warning) (c : config) : config :=
  mkConfig (c_done c) (c_bcast c) (c_bud c) (c_window c) (c_delivery c) (c_work c)
    (c_idle c) (c_exited c) (c_pays c) (c_disp c) (c_em c) w ws (c_binds c).
Definition with_ctx (done bcast : bool) (c : config) : config :=
  mkConfig done bcast (c_bud c) (c_window c) (c_delivery c) (c_work c)
    (c_idle c) (c_exited c) (c_pays c) (c_disp c) (c_em c) (c_w c) (c_warns c) (c_binds c).
Definition with_binds (l : list (Z * option gen_error)) (c : config) : config :=
  mkConfig (c_done c) (c_bcast c) (c_bud c) (c_window c) (c_delivery c) (c_work c)
    (c_idle c) (c_exited c) (c_pays c) (c_disp c) (c_em c) (c_w c) (c_warns c) l.

(** Change the payload [k], not its reader's program point. *)
Definition on_pay (k : nat) (f : asyncPayload -> asyncPayload) (c : config) : config :=
  with_pays (alter (fun x => (f x.1, x.2)) k (c_pays c)) c.

(** [asyncSource.dispatch]. *)
Definition dispatch (alt : bool) (c : config) : option config :=
  match c_disp c with
  | DSelect k =>
      match nodes !! k with
      | None => Some (with_disp (DExit k) c)
      | Some _ =>
          if alt then if c_done c then Some (with_disp (DExit k) c) else None
          else if decide (c_window c < window)%nat
               then Some (with_disp (DBind k)
                            (with_queues (S (c_window c)) (c_delivery c) (c_work c) c))
               else None
      end
  | DBind k =>
      match nodes !! k with
      | None => None
      | Some n =>
          let p := bind fs n in
          Some (with_disp (DDeliver k)
            (with_binds (c_binds c ++ [(p_size p, p_openErr p)])
              (with_pays (c_pays c ++ [(p, RNone)]) c)))
      end
  | DDeliver k =>
      if alt then
        if c_done c then Some (with_disp (DExit k) (on_pay k close_fd c)) else None
      else if decide (length (c_delivery c) < window)%nat then
        let c := with_queues (c_window c) (c_delivery c ++ [k]) (c_work c) c in
        match c_pays c !! k with
        | None => None
        | Some (p, _) =>
            match p_openErr p with
            | Some _ => Some (with_disp (DSelect (S k)) (on_pay k set_closed c))
            | None => Some (with_disp (DWork k) c)
            end
        end
      else None
  | DWork k =>
      if alt then
        if c_done c then Some (with_disp (DExit (S k)) (on_pay k close_fd c)) else None
      else if decide (length (c_work c) < window)%nat
           then Some (with_disp (DSelect (S k))
                        (with_queues (c_window c) (c_delivery c) (c_work c ++ [k]) c))
           else None
  | DExit _ => None
  end.

(** [asyncSource.worker]: an idle worker receives from [work], and starts
    [read] or returns when [work] is closed and empty.  A [nil] stream panics. *)
Definition pick (c : config) : option config :=
  match c_idle c with
  | O => None
  | S idle =>
      match c_work c with
      | k :: work =>
          match c_pays c !! k with
          | Some (p, RNone) =>
              match payload_reader p with
              | None => None
              | Some r =>
                  Some (with_pool idle (c_exited c)
                    (with_queues (c_window c) (c_delivery c) work
                      (with_pays (<[k := (p, RLoop false 0 (p_size p) r ATop)]> (c_pays c)) c)))
              end
          | _ => None
          end
      | [] => if work_closed c then Some (with_pool idle (S (c_exited c)) c) else None
      end
  end.

(** A step of the worker reading the payload [k]; it is idle again at the end. *)
Definition work (k : nat) (alt : bool) (c : config) : option config :=
  match c_pays c !! k with
  | None => None
  | Some (p, pc) =>
      match read_step k alt (c_done c) (c_bud c) p pc with
      | None => None
      | Some (bud, woken, (p, pc)) =>
          let ps := <[k := (p, pc)]> (c_pays c) in
          let idle := match pc with RDone => S (c_idle c) | _ => c_idle c end in
          Some (with_pool idle (c_exited c)
            (with_bud bud (with_pays (if woken then wake ps else ps) c)))
      end
  end.

(** [countWriter.write] checks the context first. *)
Definition emit_write (b : bytes) (c : config) : result gen_error unit * countWriter :=
  if c_done c then (Err ErrCanceled, c_w c) else cw_write b (c_w c).

(** The emitter: [open], header, [Copy], [Close] of each payload; then its
    caller's [cancel] and [wait]. *)
Definition emit (alt : bool) (c : config) : option config :=
  match c_em c with
  | EmNext k =>
      if decide (length nodes <= k)%nat then Some (with_em (EmCancel (Ok ())) c) else
      if alt then
        if c_done c then Some (with_em (EmCancel (Err ErrCanceled)) c) else None
      else
        match c_delivery c with
        | [] => None
        | j :: delivery =>
            match c_pays c !! j with
            | None => None
            | Some (p, _) =>
                let c := with_queues (c_window c) delivery (c_work c) c in
                if decide (j = k) then
                  match p_openErr p with
                  | Some e =>
                      match c_window c with
                      | O => None
                      | S win => Some (with_em (EmCancel (Err e)) (with_queues win delivery (c_work c) c))
                      end
                  | None =>
                      match setHead k (c_bud c) with
                      | None => None
                      | Some bud =>
                          Some (with_em (EmOpened k) (with_bud bud (with_pays (wake (c_pays c)) c)))
                      end
                  end
                else Some (with_em (EmCancel (Err ErrOrder)) c)
            end
        end
  | EmOpened k =>
      match emit_write (hdr k) c with
      | (Ok _, w) => Some (with_em (EmCopy k) (with_out w (c_warns c) c))
      | (Err e, w) => Some (with_em (EmClose k (Err e)) (with_out w (c_warns c) c))
      end
  | EmCopy k =>
      match c_pays c !! k with
      | None => None
      | Some (p, _) =>
          match p_chunks p with
          | b :: l => Some (with_em (EmWrite k b) (on_pay k (set_chunks l) c))
          | [] =>
              if p_closed p then
                match p_err p with
                | Some e => Some (with_em (EmClose k (Err e)) c)
                | None => Some (with_em (EmClose k (Ok ())) (with_out (c_w c) (c_warns c ++ p_warns p) c))
                end
              else None
          end
      end
  | EmWrite k b =>
      match release (c_bud c) with
      | None => None
      | Some bud =>
          let '(res, w) := emit_write b c in
          let em := match res with Ok _ => EmCopy k | Err e => EmClose k (Err e) end in
          Some (with_em em (with_out w (c_warns c) (with_bud bud (with_pays (wake (c_pays c)) c))))
      end
  | EmClose k res =>
      match c_window c with
      | O => None
      | S win =>
          let em := match res with Ok _ => EmNext (S k) | Err e => EmCancel (Err e) end in
          Some (with_em em (with_queues win (c_delivery c) (c_work c) c))
      end
  | EmCancel res => Some (with_em (EmWait res) (with_ctx true (c_bcast c) c))
  | EmWait res =>
      if decide (c_exited c = workers) then
        if work_closed c then Some (with_em (EmEnd res) c) else None
      else None
  | EmEnd _ => None
  end.

(** One step of the system. [Cancel] is the caller's context, [Broadcast] the
    goroutine [newChunkBudget] starts, which takes no lock. *)
Definition fire (ev : event) (c : config) : option config :=
  match ev with
  | Dispatch alt => dispatch alt c
  | Pick => pick c
  | Work k alt => work k alt c
  | Emit alt => emit alt c
  | Cancel => if c_done c then None else Some (with_ctx true (c_bcast c) c)
  | Broadcast =>
      if c_done c && negb (c_bcast c)
      then Some (with_ctx true true (with_pays (wake (c_pays c)) c)) else None
  end.

Fixpoint run (sched : list event) (c : config) : option config :=
  match sched with
  | [] => Some c
  | ev :: sched => match fire ev c with Some c => run sched c | None => None end
  end.

(** The same payloads through the synchronous source (Payload.v). *)
Fixpoint sync_emit (k : nat) (ns : list node) (ws : list Warning) (w : countWriter) :
    result gen_error unit * list Warning * countWriter :=
  match ns with
  | [] => (Ok (), ws, w)
  | n :: ns =>
      match sync_open n fs with
      | (Err e, _) => (Err e, ws, w)
      | (Ok p, _) =>
          match cw_write (hdr k) w with
          | (Err e, w) => (Err e, ws, w)
          | (Ok _, w) =>
              match pl_Copy p w with
              | (Err e, w) => (Err e, ws, w)
              | (Ok ws', w) => sync_emit (S k) ns (ws ++ ws') w
              end
          end
      end
  end.

End async.

(* ------------------------------------------------------------------ *)
(** ** Lemmas: one step of a reader *)

(** The rules of [read_step], one per line of [read]. *)
Inductive reading (k : nat) (done : bool) (bud : chunkBudget) (p : asyncPayload) :
    read_pc -> chunkBudget -> bool -> asyncPayload * read_pc -> Prop :=
  | rd_exit pad f m r : m <= 0 ->
      reading k done bud p (RLoop pad f m r ATop) bud false (p, RCheck f r)
  | rd_canceled pad f m r : 0 < m -> done = true -> b_mu bud = None ->
      reading k done bud p (RLoop pad f m r ATop) bud false (set_err ErrCanceled p, RClose)
  | rd_arm pad f m r : 0 < m -> done = false -> b_mu bud = None ->
      b_avail bud < 1 -> Z.of_nat k <> b_head bud ->
      reading k done bud p (RLoop pad f m r ATop)
        (mkBudget (b_avail bud) (b_head bud) (Some k)) false (p, RLoop pad f m r AArm)
  | rd_take pad f m r : 0 < m -> done = false -> b_mu bud = None ->
      1 <= b_avail bud \/ Z.of_nat k = b_head bud ->
      reading k done bud p (RLoop pad f m r ATop)
        (mkBudget (b_avail bud - 1) (b_head bud) None) false (p, RLoop pad f m r AHold)
  | rd_wait pad f m r :
      reading k done bud p (RLoop pad f m r AArm) (wait_unlock bud) false (p, RLoop pad f m r AWait)
  | rd_empty f m r e r' : Read (Z.to_nat (Z.min copyChunk m)) r = ([], e, r') -> b_mu bud = None ->
      reading k done bud p (RLoop false f m r AHold)
        (mkBudget (b_avail bud + 1) (b_head bud) None) true (after_read p f m r' e)
  | rd_read f m r b e r' : Read (Z.to_nat (Z.min copyChunk m)) r = (b, e, r') -> b <> [] ->
      reading k done bud p (RLoop false f m r AHold) bud false (p, RSend false f m r' b e)
  | rd_pad f m r :
      reading k done bud p (RLoop true f m r AHold) bud false
        (p, RSend true f m r (replicate (Z.to_nat (Z.min copyChunk m)) nul) None)
  | rd_drop pad f m r b e : done = true -> b_mu bud = None ->
      reading k done bud p (RSend pad f m r b e)
        (mkBudget (b_avail bud + 1) (b_head bud) None) true (set_err ErrCanceled p, RClose)
  | rd_send f m r b e : (length (p_chunks p) < 2)%nat ->
      reading k done bud p (RSend false f m r b e) bud false
        (after_read (set_chunks (p_chunks p ++ [b]) p) (f + zlen b) (m - zlen b) r e)
  | rd_send_pad f m r b e : (length (p_chunks p) < 2)%nat ->
      reading k done bud p (RSend true f m r b e) bud false
        (set_chunks (p_chunks p ++ [b]) p, RLoop true f (m - zlen b) r ATop)
  | rd_check f r :
      reading k done bud p (RCheck f r) bud false (add_warns (final_warns p f r) p, RClose)
  | rd_close : reading k done bud p RClose bud false (set_closed (close_fd p), RDone).

Lemma read_step_reading k alt done bud p pc bud' wk x :
  read_step k alt done bud p pc = Some (bud', wk, x) -> reading k done bud p pc bud' wk x.
Proof.
  unfold read_step, acquire, release. intros H.
  destruct pc as [|pad f m r []|pad f m r b e| | |]; try (by destruct pad); try done.
  - assert (forall A (x : A), (if pad then x else x) = x) as Hp by by destruct pad.
    rewrite Hp in H. destruct (Z.ltb_spec 0 m); cbn [negb] in H; [|simplify_eq; by constructor].
    destruct (b_mu bud) eqn:Hmu; [done|].
    destruct (Z.ltb_spec (b_avail bud) 1); destruct (Z.eqb_spec (Z.of_nat k) (b_head bud));
      cbn [negb andb] in H; destruct done; simplify_eq; constructor; auto.
  - destruct pad; simplify_eq; constructor.
  - destruct pad; [simplify_eq; constructor|].
    destruct (Read _ r) as [[b e] r'] eqn:HR. case_decide; [subst|simplify_eq; by constructor].
    destruct (b_mu bud) eqn:Hmu; simplify_eq. by econstructor.
  - destruct alt.
    + destruct done; [|done]. destruct (b_mu bud) eqn:Hmu; simplify_eq. by constructor.
    + case_decide; [|done]. destruct pad; simplify_eq; by constructor.
  - simplify_eq. constructor.
  - simplify_eq. constructor.
Qed.

(** What [bind] fixed, which no step changes. *)
Definition same_static (p q : asyncPayload) : Prop :=
  p_node p = p_node q /\ p_size p = p_size q /\ p_mtime p = p_mtime q /\ p_f p = p_f q /\
  p_openErr p = p_openErr q.

Lemma same_static_trans p q t : same_static p q -> same_static q t -> same_static p t.
Proof. unfold same_static. intuition congruence. Qed.

(** Credits a payload's reader and channel hold. *)
Definition held (pc : read_pc) : nat :=
  match pc with RLoop _ _ _ _ AHold | RSend _ _ _ _ _ _ => 1 | _ => 0 end.
Definition outst (x : asyncPayload * read_pc) : nat := (length (p_chunks x.1) + held x.2)%nat.

(** A worker is in [read]. *)
Definition running (pc : read_pc) : nat :=
  match pc with RNone | RDone => 0 | _ => 1 end.

Definition armed (pc : read_pc) : bool :=
  match pc with RLoop _ _ _ _ AArm => true | _ => false end.
Definition waiting (pc : read_pc) : bool :=
  match pc with RLoop _ _ _ _ AWait => true | _ => false end.

Lemma after_read_cases p f m r e :
  let x := after_read p f m r e in
  same_static x.1 p /\ p_chunks x.1 = p_chunks p /\ p_closed x.1 = p_closed p /\
  p_fd x.1 = p_fd p /\ held x.2 = 0%nat /\ running x.2 = 1%nat /\
  armed x.2 = false /\ waiting x.2 = false.
Proof. unfold after_read, same_static. repeat case_match; cbn; tauto. Qed.

(** What every step of a reader keeps. *)
Lemma reading_local k done bud p pc bud' wk p' pc' :
  reading k done bud p pc bud' wk (p', pc') ->
  same_static p' p /\ running pc = 1%nat /\ pc' <> RNone /\ waiting pc = false /\
  (length (p_chunks p') <= Nat.max 2 (length (p_chunks p)))%nat /\
  (pc' = RDone -> pc = RClose /\ p' = set_closed (close_fd p)) /\
  (pc' <> RDone -> p_closed p' = p_closed p /\ p_fd p' = p_fd p).
Proof.
  intros H. inversion H; subst; try (unfold same_static; cbn; split_and!; try done; lia);
    lazymatch goal with
    | Hx : after_read ?p ?f ?m ?r ?e = _ |- _ =>
        pose proof (after_read_cases p f m r e) as (A1 & A2 & A3 & A4 & A5 & A6 & A7 & A8);
        rewrite Hx in *; cbn in *
    | _ => idtac
    end.
  - rewrite A2. split_and!; try done; try lia; by destruct pc'.
  - rewrite A2, length_app. cbn. split_and!; try done; try lia; by destruct pc'.
  - split_and!; try done. cbn. rewrite length_app. cbn. lia.
Qed.

(** What a step of a reader does to the budget. *)
Lemma reading_budget k done bud p pc bud' wk p' pc' :
  reading k done bud p pc bud' wk (p', pc') ->
  b_avail bud' + Z.of_nat (outst (p', pc')) = b_avail bud + Z.of_nat (outst (p, pc)) /\
  b_head bud' = b_head bud /\
  (b_avail bud < b_avail bud' -> wk = true) /\
  (b_avail bud <> b_avail bud' -> b_mu bud = None) /\
  (b_avail bud' < b_avail bud -> 0 <= b_avail bud' \/ Z.of_nat k = b_head bud) /\
  (wk = true -> armed pc' = false /\ b_mu bud = None) /\
  (if armed pc' then b_mu bud = None /\ b_mu bud' = Some k /\ b_avail bud' < 1 /\ Z.of_nat k <> b_head bud
   else if armed pc then b_mu bud' = None else b_mu bud' = b_mu bud) /\
  (waiting pc' = true -> armed pc = true).
Proof.
  intros H. unfold outst. inversion H; subst; cbn; try (split_and!; done || lia || congruence);
    lazymatch goal with
    | Hx : after_read ?p ?f ?m ?r ?e = _ |- _ =>
        pose proof (after_read_cases p f m r e) as (A1 & A2 & A3 & A4 & A5 & A6 & A7 & A8);
        rewrite Hx in *; cbn in *
    | _ => rewrite ?length_app; cbn
    end; rewrite ?A2, ?A5, ?A7, ?A8, ?length_app; cbn;
    split_and!; done || lia || congruence.
Qed.

(* ------------------------------------------------------------------ *)
(** ** The invariant *)

Section invariant.
Context (fs : osfs) (nodes : list node) (workers : nat) (hdr : nat -> bytes) (budget : Z).

(** Payloads given to [delivery], and to [work]. *)
Definition delivered (d : dispatch_pc) : nat :=
  match d with DSelect k | DBind k | DDeliver k | DExit k => k | DWork k => S k end.
Definition pushed (d : dispatch_pc) : nat :=
  match d with DSelect k | DBind k | DDeliver k | DExit k | DWork k => k end.
(** Window slots taken. *)
Definition taken (d : dispatch_pc) : nat :=
  match d with DSelect k | DExit k => k | DBind k | DDeliver k | DWork k => S k end.
Definition exited (d : dispatch_pc) : bool := match d with DExit _ => true | _ => false end.

(** Payloads the emitter copied to their end. *)
Definition passed (e : emit_pc) : nat :=
  match e with
  | EmNext k | EmOpened k | EmCopy k | EmWrite k _ | EmClose k (Err _) => k
  | EmClose k (Ok _) => S k
  | EmCancel (Ok _) | EmWait (Ok _) | EmEnd (Ok _) => length nodes
  | _ => O
  end.

Definition em_held (e : emit_pc) : nat := match e with EmWrite _ _ => 1 | _ => 0 end.

Record pay_inv (bud : chunkBudget) (wrk : list nat) (done : bool) (d : dispatch_pc)
    (past j : nat) (p : asyncPayload) (pc : read_pc) : Prop := {
  pi_static : exists n, nodes !! j = Some n /\ same_static p (bind fs n);
  pi_cap : (length (p_chunks p) <= 2)%nat;
  pi_closed : p_openErr p = None -> (p_closed p = true <-> pc = RDone);
  pi_open : p_openErr p <> None -> pc = RNone;
  pi_queued : pc = RNone -> p_openErr p = None -> (j < pushed d)%nat ->
    j ∈ wrk \/ (done = true /\ exited d = true);
  pi_work : j ∈ wrk -> pc = RNone /\ p_openErr p = None;
  pi_fifo : pc <> RNone -> Forall (fun i => (j < i)%nat) wrk;
  pi_fresh : pc = RNone -> p_chunks p = [];
  pi_past : (j < past)%nat -> pc = RDone /\ p_chunks p = [];
  pi_armed : armed pc = true <-> b_mu bud = Some j;
  pi_wait : armed pc || waiting pc = true -> b_avail bud < 1 /\ Z.of_nat j <> b_head bud;
  pi_unpushed : (pushed d <= j)%nat -> pc = RNone;
  pi_fderr : p_openErr p <> None -> p_fd p = false;
  pi_fd : p_fd p = true -> pc <> RDone /\
    (pc = RNone -> j ∈ wrk \/ d = DDeliver j \/ d = DWork j) }.

Definition disp_inv (done : bool) (ps : list (asyncPayload * read_pc)) (d : dispatch_pc) : Prop :=
  match d with
  | DSelect k => length ps = k /\ (k <= length nodes)%nat
  | DBind k => length ps = k /\ (k < length nodes)%nat
  | DDeliver k => length ps = S k /\ (k < length nodes)%nat
  | DWork k => length ps = S k /\ (k < length nodes)%nat /\
      exists x, ps !! k = Some x /\ p_openErr x.1 = None
  | DExit k => (k <= length ps)%nat /\ (length ps <= length nodes)%nat /\
      (done = false -> k = length nodes)
  end.

(** [opened] payloads were received from [delivery], [released] closed. *)
Definition queue_inv (c : config) (opened released : nat) : Prop :=
  (opened <= delivered (c_disp c))%nat /\
  c_delivery c = seq opened (delivered (c_disp c) - opened) /\
  (delivered (c_disp c) <= c_window c + released)%nat /\
  (exited (c_disp c) = false -> (c_window c + released = taken (c_disp c))%nat).

Definition em_inv (c : config) : Prop :=
  match c_em c with
  | EmNext k => queue_inv c k k /\ (k <= length nodes)%nat /\ b_head (c_bud c) = Z.of_nat k - 1
  | EmOpened k | EmCopy k | EmWrite k _ | EmClose k _ =>
      queue_inv c (S k) k /\ (k < length nodes)%nat /\ b_head (c_bud c) = Z.of_nat k /\
      (exists x, c_pays c !! k = Some x /\ p_openErr x.1 = None)
  | EmCancel (Ok _) | EmWait (Ok _) | EmEnd (Ok _) => (length nodes <= delivered (c_disp c))%nat
  | _ => True
  end.

Definition head_out (bud : chunkBudget) (ps : list (asyncPayload * read_pc)) (e : emit_pc) : nat :=
  (match ps !! Z.to_nat (b_head bud) with Some x => outst x | None => 0 end + em_held e)%nat.

Record inv (c : config) : Prop := {
  inv_pay : forall j p pc, c_pays c !! j = Some (p, pc) ->
    pay_inv (c_bud c) (c_work c) (c_done c) (c_disp c) (passed (c_em c)) j p pc;
  inv_disp : disp_inv (c_done c) (c_pays c) (c_disp c);
  inv_em : em_inv c;
  inv_sorted : StronglySorted lt (c_work c);
  inv_work : Forall (fun j => (j < pushed (c_disp c))%nat) (c_work c);
  inv_pool : (c_idle c + c_exited c + sum_list_with (fun x => running x.2) (c_pays c) = workers)%nat;
  inv_exited : (0 < c_exited c)%nat -> work_closed c = true /\ c_work c = [];
  inv_mu : forall j, b_mu (c_bud c) = Some j -> (j < length (c_pays c))%nat;
  inv_credit : b_avail (c_bud c) + Z.of_nat (sum_list_with outst (c_pays c) + em_held (c_em c)) = budget;
  inv_head : 0 <= b_avail (c_bud c) + Z.of_nat (head_out (c_bud c) (c_pays c) (c_em c)) }.

(** Waking changes neither who runs nor what is held. *)
Lemma wake_pc_facts pc :
  armed (wake_pc pc) = armed pc /\ waiting (wake_pc pc) = false /\ held (wake_pc pc) = held pc /\
  running (wake_pc pc) = running pc /\ (wake_pc pc = RNone <-> pc = RNone) /\
  (wake_pc pc = RDone <-> pc = RDone).
Proof. destruct pc as [|pad f m r []|pad f m r b e| | |]; cbn; tauto || (split_and!; done). Qed.

Lemma wake_lookup ps j p pc :
  wake ps !! j = Some (p, pc) -> exists pc0, ps !! j = Some (p, pc0) /\ pc = wake_pc pc0.
Proof.
  unfold wake. rewrite list_lookup_fmap_Some. intros ([p0 pc0] & E & Hl). cbn in E.
  simplify_eq. eauto.
Qed.

Lemma wake_sum f ps : (forall p pc, f (p, wake_pc pc) = f (p, pc)) ->
  sum_list_with f (wake ps) = sum_list_with f ps.
Proof.
  intros Hf. unfold wake. induction ps as [|[p pc] ps IH]; cbn; [done|]. by rewrite Hf, IH.
Qed.

Lemma outst_wake p pc : outst (p, wake_pc pc) = outst (p, pc).
Proof. unfold outst. cbn. by destruct (wake_pc_facts pc) as (_ & _ & -> & _). Qed.
Lemma running_wake p pc :
  running (p : asyncPayload, wake_pc pc).2 = running (p, pc).2.
Proof. cbn. by destruct (wake_pc_facts pc) as (_ & _ & _ & -> & _). Qed.

Lemma length_wake ps : length (wake ps) = length ps.
Proof. apply length_fmap. Qed.

Lemma head_out_wake bud ps e : head_out bud (wake ps) e = head_out bud ps e.
Proof.
  unfold head_out, wake. rewrite list_lookup_fmap.
  destruct (ps !! _) as [[p pc]|]; cbn; [|done]. by rewrite outst_wake.
Qed.

Lemma sum_insert {A} (f : A -> nat) l i x y : l !! i = Some x ->
  (sum_list_with f (<[i := y]> l) + f x = sum_list_with f l + f y)%nat.
Proof.
  revert i. induction l as [|z l IH]; intros [|i] Hi; [done|done| |].
  - cbn in *. simplify_eq. lia.
  - change (<[S i:=y]> (z :: l)) with (z :: <[i:=y]> l). cbn [sum_list_with].
    specialize (IH i Hi). lia.
Qed.

Lemma on_pay_insert (ps : list (asyncPayload * read_pc)) (k : nat) f p (pc : read_pc) : ps !! k = Some (p, pc) ->
  alter (fun x : asyncPayload * read_pc => (f x.1, x.2)) k ps = <[k := (f p, pc)]> ps.
Proof.
  intros Hk. apply list_eq. intros j. destruct (decide (j = k)) as [->|Hne].
  - rewrite list_lookup_alter_eq, Hk, list_lookup_insert_eq by by eapply lookup_lt_Some. done.
  - by rewrite list_lookup_alter_ne, list_lookup_insert_ne.
Qed.

Lemma inv_init budgetBytes w :
  budget = budgetChunks budgetBytes -> inv (newAsyncSource workers budgetBytes w).
Proof.
  intros Hb. assert (2 <= budget).
  { subst. unfold budgetChunks. cbv zeta. destruct (Z.ltb_spec (Z.quot (if budgetBytes <=? 0 then Z.shiftl 64 20 else budgetBytes) copyChunk) 2); lia. }
  constructor; cbn; rewrite ?Nat2Z.inj_0; try done; try lia.
  - unfold em_inv, queue_inv. cbn. split_and!; done || lia.
  - constructor.
Qed.

(** A payload's part of the invariant when the budget changes. *)
Lemma pay_inv_bud bud bud' wrk done d past j p pc :
  pay_inv bud wrk done d past j p pc ->
  (armed pc = true <-> b_mu bud' = Some j) ->
  (armed pc || waiting pc = true -> b_avail bud' < 1 /\ Z.of_nat j <> b_head bud') ->
  pay_inv bud' wrk done d past j p pc.
Proof. by intros [] ? ?; constructor. Qed.

Lemma pay_inv_wake bud bud' wrk done d past j p pc :
  pay_inv bud wrk done d past j p pc -> b_mu bud = None -> b_mu bud' = None ->
  pay_inv bud' wrk done d past j p (wake_pc pc).
Proof.
  intros [] Hm Hm'. destruct (wake_pc_facts pc) as (Ha & Hw & Hh & Hr & Hn & Hd).
  assert (armed pc = false) as Har by (destruct (armed pc); [|done]; rewrite Hm in *; intuition congruence).
  constructor; rewrite ?Ha, ?Hw, ?Hn, ?Hd, ?Har, ?Hm'; cbn; done.
Qed.

(** The lockless broadcast. *)
Lemma pay_inv_broadcast bud wrk done d past j p pc :
  pay_inv bud wrk done d past j p pc -> pay_inv bud wrk done d past j p (wake_pc pc).
Proof.
  intros []. destruct (wake_pc_facts pc) as (Ha & Hw & Hh & Hr & Hn & Hd).
  constructor; rewrite ?Ha, ?Hw, ?Hn, ?Hd; try done.
  rewrite orb_false_r. intros Hx. apply pi_wait0. by rewrite Hx.
Qed.

(** When the emitter's progress changes. *)
Lemma pay_inv_past bud wrk done d past past' j p pc :
  pay_inv bud wrk done d past j p pc ->
  ((j < past')%nat -> (j < past)%nat \/ (pc = RDone /\ p_chunks p = [])) ->
  pay_inv bud wrk done d past' j p pc.
Proof. intros [] ?; constructor; try done. intuition. Qed.

(** The table keeps its payloads and what [bind] found. *)
Definition same_table (ps ps' : list (asyncPayload * read_pc)) : Prop :=
  length ps' = length ps /\
  forall k x, ps !! k = Some x -> exists y, ps' !! k = Some y /\ p_openErr y.1 = p_openErr x.1.

Lemma same_table_refl ps : same_table ps ps.
Proof. split; [done|]. intros k x Hx. by exists x. Qed.

Lemma same_table_wake ps ps' : same_table ps ps' -> same_table ps (wake ps').
Proof.
  intros [Hl H]. split; [by rewrite length_wake|]. intros k x Hx. destruct (H k x Hx) as (y & Hy & E).
  unfold wake. rewrite list_lookup_fmap, Hy. by eexists.
Qed.

Lemma same_table_insert ps k x y : ps !! k = Some x -> p_openErr y.1 = p_openErr x.1 ->
  same_table ps (<[k := y]> ps).
Proof.
  intros Hk E. split; [apply length_insert|]. intros j z Hz. destruct (decide (j = k)) as [->|Hne].
  - rewrite list_lookup_insert_eq by by eapply lookup_lt_Some. exists y. split; [done|]. congruence.
  - rewrite list_lookup_insert_ne by done. by exists z.
Qed.

Lemma disp_inv_table done ps ps' d : same_table ps ps' -> disp_inv done ps d -> disp_inv done ps' d.
Proof.
  intros [Hl H] Hd. unfold disp_inv in *. rewrite Hl. destruct d as [x|x|x|x|x]; try done.
  destruct Hd as (? & ? & y & Hy & E). destruct (H x y Hy) as (z & Hz & E').
  split_and!; try done. exists z. split; [done|]. congruence.
Qed.

(** The emitter's part, when its own state stays. *)
Lemma em_inv_table c c' : em_inv c -> c_em c' = c_em c -> same_table (c_pays c) (c_pays c') ->
  b_head (c_bud c') = b_head (c_bud c) -> c_disp c' = c_disp c ->
  c_window c' = c_window c -> c_delivery c' = c_delivery c -> em_inv c'.
Proof.
  intros Ie He [_ Ht] Hh Hd Hw Hq. unfold em_inv, queue_inv in *. rewrite He, Hh, Hd, Hw, Hq.
  destruct (c_em c) as [x|x|x|x b|x res|[]|[]|[]]; try done;
    (destruct Ie as (? & ? & ? & y & Hy & E); destruct (Ht x y Hy) as (z & Hz & E'); split_and!; try done;
     [tauto..|]; exists z; split; [done|]; congruence).
Qed.

Lemma head_out_insert bud ps e k x y : ps !! k = Some x ->
  (Z.to_nat (b_head bud) = k -> (outst x <= outst y)%nat) ->
  (head_out bud ps e <= head_out bud (<[k := y]> ps) e)%nat.
Proof.
  intros Hk Ho. unfold head_out. destruct (decide (Z.to_nat (b_head bud) = k)) as [E|Hne].
  - rewrite E, Hk, list_lookup_insert_eq by by eapply lookup_lt_Some. specialize (Ho E). lia.
  - rewrite list_lookup_insert_ne by done. lia.
Qed.

(** The payload a reader stepped on. *)
Lemma pay_inv_reading bud bud1 bud' wrk done d past k p pc wk p' pc' :
  pay_inv bud wrk done d past k p pc -> reading k done bud p pc bud' wk (p', pc') ->
  (armed pc' = true <-> b_mu bud1 = Some k) ->
  (armed pc' || waiting pc' = true -> b_avail bud1 < 1 /\ Z.of_nat k <> b_head bud1) ->
  pay_inv bud1 wrk done d past k p' pc'.
Proof.
  intros P Hs Ha Hw.
  destruct (reading_local _ _ _ _ _ _ _ _ _ Hs) as (Ls & Lr & Ln & Lw & Lc & Ld & Lo).
  destruct P. assert (pc <> RNone /\ pc <> RDone) as [N1 N2] by (by destruct pc).
  assert (p_openErr p' = p_openErr p) as Eo by apply Ls.
  constructor; rewrite ?Eo; try done.
  - destruct pi_static0 as (n & Hn & Hst). exists n. split; [done|]. by eapply same_static_trans.
  - lia.
  - intros Ho. assert (pc' = RDone \/ pc' <> RDone) as [E|Hne] by (destruct pc'; auto).
    + destruct (Ld E) as [_ ->]. done.
    + destruct (Lo Hne) as [-> _]. by rewrite pi_closed0.
  - intros Ho. by apply pi_open0 in Ho.
  - intros Hin. destruct (pi_work0 Hin). done.
  - by intros _; apply pi_fifo0.
  - intros Hp. by destruct (pi_past0 Hp).
  - intros Hp. by destruct N1; apply pi_unpushed0.
  - intros Ho. by apply pi_open0 in Ho.
  - intros Hf. split; [|done]. intros E. destruct (Ld E) as [_ ->]. done.
Qed.

(** The table after a step of a reader, [wk] waking the waiters. *)
Definition stepped (wk : bool) (ps : list (asyncPayload * read_pc)) : list (asyncPayload * read_pc) :=
  if wk then wake ps else ps.

Lemma stepped_facts wk ps bud e :
  length (stepped wk ps) = length ps /\
  sum_list_with outst (stepped wk ps) = sum_list_with outst ps /\
  sum_list_with (fun x => running x.2) (stepped wk ps) = sum_list_with (fun x => running x.2) ps /\
  head_out bud (stepped wk ps) e = head_out bud ps e.
Proof.
  destruct wk; cbn; [|done]. rewrite length_wake, head_out_wake.
  rewrite (wake_sum outst) by apply outst_wake.
  by rewrite (wake_sum (fun x => running x.2)) by apply running_wake.
Qed.

Lemma stepped_table wk ps k x y : ps !! k = Some x -> p_openErr y.1 = p_openErr x.1 ->
  same_table ps (stepped wk (<[k := y]> ps)).
Proof.
  intros Hk E. destruct wk; cbn; [apply same_table_wake|]; by eapply same_table_insert.
Qed.

(** The other payloads, when nobody is woken. *)
Lemma pay_inv_other bud bud' wrk done d past k p pc p' pc' wk j q qc :
  pay_inv bud wrk done d past k p pc -> reading k done bud p pc bud' wk (p', pc') ->
  wk = false -> k <> j -> pay_inv bud wrk done d past j q qc -> pay_inv bud' wrk done d past j q qc.
Proof.
  intros Pk Hs Hwk Hne Pj.
  pose proof (reading_budget _ _ _ _ _ _ _ _ _ Hs) as (Bo & Bh & Bw & Bm & Bn & Bk & Ba & Bx).
  apply (pay_inv_bud bud); [done| |].
  - rewrite (pi_armed _ _ _ _ _ _ _ _ Pj). destruct (armed pc') eqn:Ea.
    + destruct Ba as (-> & -> & _). split; [done|]. intros [= ?]. done.
    + destruct (armed pc) eqn:Ea2; [|by rewrite Ba]. rewrite Ba.
      apply (pi_armed _ _ _ _ _ _ _ _ Pk) in Ea2. rewrite Ea2. split; [|done]. intros [= ?]. done.
  - rewrite Bh. intros Hx. destruct (pi_wait _ _ _ _ _ _ _ _ Pj Hx). split; [|done].
    destruct (Z.lt_ge_cases (b_avail bud) (b_avail bud')) as [Hl|]; [|lia].
    specialize (Bw Hl). congruence.
Qed.

Lemma work_pays c k p pc bud' wk p' pc' j q qc :
  inv c -> c_pays c !! k = Some (p, pc) ->
  reading k (c_done c) (c_bud c) p pc bud' wk (p', pc') ->
  stepped wk (<[k := (p', pc')]> (c_pays c)) !! j = Some (q, qc) ->
  pay_inv bud' (c_work c) (c_done c) (c_disp c) (passed (c_em c)) j q qc.
Proof.
  intros I Hk Hs Hj. pose proof (inv_pay _ I k p pc Hk) as Pk.
  pose proof (reading_budget _ _ _ _ _ _ _ _ _ Hs) as (Bo & Bh & Bw & Bm & Bn & Bk & Ba & Bx).
  destruct wk; cbn [stepped] in Hj.
  - apply wake_lookup in Hj as (pc1 & Hj & ->). destruct (Bk eq_refl) as [Ea Hm].
    assert (armed pc = false) as Hpa.
    { destruct (armed pc) eqn:Hpa; [|done]. apply (pi_armed _ _ _ _ _ _ _ _ Pk) in Hpa. congruence. }
    rewrite Ea, Hpa, Hm in Ba. apply (pay_inv_wake (c_bud c)); [|done|done].
    apply list_lookup_insert_Some in Hj as [(<- & E & _)|[Hne Hj]]; [simplify_eq|by apply I].
    eapply pay_inv_reading; [done|done| |]; rewrite Ea, ?Hm; [done|].
    cbn. intros Hwt. rewrite Bx in Hpa by done. done.
  - apply list_lookup_insert_Some in Hj as [(<- & E & _)|[Hne Hj]];
      [|eapply pay_inv_other; eauto; by apply I].
    simplify_eq. eapply pay_inv_reading; [done|done| |].
    + destruct (armed qc) eqn:Ea; [naive_solver|]. split; [done|].
      destruct (armed pc) eqn:Ea2; [congruence|]. rewrite Ba. intros Hm.
      apply (pi_armed _ _ _ _ _ _ _ _ Pk) in Hm. congruence.
    + destruct (armed qc) eqn:Ea; [rewrite Bh; naive_solver|]. cbn. intros Hwt. specialize (Bx Hwt).
      destruct (pi_wait _ _ _ _ _ _ _ _ Pk) as [? ?]; [by rewrite Bx|].
      rewrite Bh. split; [|done]. destruct (decide (b_avail (c_bud c) = b_avail bud')) as [<-|Hn]; [done|].
      specialize (Bm Hn). apply (pi_armed _ _ _ _ _ _ _ _ Pk) in Bx. congruence.
Qed.

(** The bound of [avail] survives a step of a reader. *)
Lemma work_head c k p pc bud' wk p' pc' :
  inv c -> c_pays c !! k = Some (p, pc) ->
  reading k (c_done c) (c_bud c) p pc bud' wk (p', pc') ->
  0 <= b_avail bud' + Z.of_nat (head_out bud' (<[k := (p', pc')]> (c_pays c)) (c_em c)).
Proof.
  intros I Hk Hs. pose proof (inv_head _ I) as Ih.
  pose proof (reading_budget _ _ _ _ _ _ _ _ _ Hs) as (Bo & Bh & Bw & Bm & Bn & Bk & Ba & Bx).
  assert (k < length (c_pays c))%nat as Hlt by by eapply lookup_lt_Some.
  destruct (decide (Z.of_nat k = b_head (c_bud c))) as [Ek|Nk].
  { unfold head_out in *. rewrite Bh, <- Ek, Nat2Z.id in *.
    rewrite Hk in Ih. rewrite list_lookup_insert_eq by done. lia. }
  destruct (Z.lt_ge_cases (b_avail bud') (b_avail (c_bud c))) as [Hl|Hge].
  { destruct (Bn Hl); [lia|done]. }
  unfold head_out in *. rewrite Bh.
  destruct (decide (Z.to_nat (b_head (c_bud c)) = k)) as [E|Hne].
  - rewrite E in *. rewrite Hk in Ih. rewrite list_lookup_insert_eq by done. lia.
  - rewrite list_lookup_insert_ne by done. lia.
Qed.

(** Steps of a reader. *)
Lemma work_inv k alt c c' : inv c -> work k alt c = Some c' -> inv c'.
Proof.
  intros I H. unfold work in H. destruct (c_pays c !! k) as [[p pc]|] eqn:Hk; [|done].
  destruct (read_step _ _ _ _ p pc) as [[[bud' wk] [p' pc']]|] eqn:Hs; [|done]. simplify_eq.
  apply read_step_reading in Hs.
  pose proof (reading_local _ _ _ _ _ _ _ _ _ Hs) as (Ls & Lr & Ln & _).
  pose proof (reading_budget _ _ _ _ _ _ _ _ _ Hs) as (Bo & Bh & _ & _ & _ & _ & Ba & _).
  assert (k < length (c_pays c))%nat as Hlt by by eapply lookup_lt_Some.
  assert (Hsum := sum_insert outst _ _ _ (p', pc') Hk).
  assert (Hrun := sum_insert (fun x => running x.2) _ _ _ (p', pc') Hk). cbn [snd] in Hrun.
  assert (Hst := stepped_table wk _ k _ (p', pc') Hk (proj2 (proj2 (proj2 (proj2 Ls))))).
  fold (stepped wk (<[k := (p', pc')]> (c_pays c))).
  assert (forall j q qc, _) as Hp by (intros j q qc; exact (work_pays c k p pc bud' wk p' pc' j q qc I Hk Hs)).
  pose proof (work_head _ _ _ _ _ _ _ _ I Hk Hs) as Hh.
  destruct (stepped_facts wk (<[k := (p', pc')]> (c_pays c)) bud' (c_em c)) as (El & Eo & Er & Eh).
  rewrite length_insert in El. revert Hst Hp El Eo Er Eh.
  generalize (stepped wk (<[k := (p', pc')]> (c_pays c))). intros ps' Hst Hp El Eo Er Eh.
  constructor; cbn; rewrite ?El, ?Eo, ?Er, ?Eh; try apply I; try done.
  - eapply disp_inv_table; [done|apply I].
  - eapply em_inv_table; [apply I|done..].
  - pose proof (inv_pool _ I) as Ip. destruct pc'; [done|..]; cbn in *; lia.
  - intros j Hj. destruct (armed pc') eqn:Ea.
    + destruct Ba as (_ & Ba & _). rewrite Ba in Hj. by simplify_eq.
    + destruct (armed pc); [congruence|]. apply I. congruence.
  - pose proof (inv_credit _ I) as Ic. cbn in *. lia.
Qed.

(** Nothing the emitter copied is still to be delivered. *)
Lemma passed_delivered c : inv c -> (passed (c_em c) <= delivered (c_disp c))%nat.
Proof.
  intros I. pose proof (inv_em _ I) as Ie. unfold em_inv, queue_inv in Ie.
  destruct (c_em c) as [x|x|x|x b|x [?|?]|[]|[]|[]]; cbn; lia.
Qed.

Lemma pick_inv c c' : inv c -> pick c = Some c' -> inv c'.
Proof.
  intros I H. unfold pick in H. destruct (c_idle c) as [|idle] eqn:Ei; [done|].
  destruct (c_work c) as [|k wrk] eqn:Ew.
  { destruct (work_closed c) eqn:Ec; [|done]. simplify_eq.
    pose proof (inv_pool _ I). constructor; cbn; rewrite ?Ew; try apply I; try done.
    - rewrite <- Ew. apply I.
    - constructor.
    - lia. }
  destruct (c_pays c !! k) as [[p []]|] eqn:Hk; try done.
  destruct (payload_reader p) as [r|] eqn:Hr; [|done]. simplify_eq.
  pose proof (inv_sorted _ I) as Is. rewrite Ew in Is. apply StronglySorted_inv in Is as [Is Hlt].
  pose proof (inv_work _ I) as Iw. rewrite Ew in Iw. apply Forall_cons in Iw as [Hkp Iw].
  assert (k < length (c_pays c))%nat as Hln by by eapply lookup_lt_Some.
  assert (k ∉ wrk) as Hni.
  { intros Hin. rewrite Forall_forall in Hlt. specialize (Hlt k Hin). lia. }
  assert (Hsum := sum_insert outst _ _ _ (p, RLoop false 0 (p_size p) r ATop) Hk).
  assert (Hrun := sum_insert (fun x => running x.2) _ _ _ (p, RLoop false 0 (p_size p) r ATop) Hk).
  cbn [snd running] in Hrun. unfold outst at 2 4 in Hsum. cbn in Hsum.
  constructor; cbn; rewrite ?length_insert; try apply I; try done.
  - intros j q qc Hj. apply list_lookup_insert_Some in Hj as [(<- & E & _)|[Hne Hj]].
    + simplify_eq. pose proof (inv_pay _ I k q RNone Hk) as []. rewrite Ew in *.
      destruct pi_work0 as [_ Ho]; [left|]. constructor; cbn; try done; try tauto.
      * rewrite pi_closed0 by done. done.
      * intros Hx. by destruct (pi_past0 Hx).
      * intros Hx. lia.
    + pose proof (inv_pay _ I j q qc Hj) as []. rewrite Ew in *. constructor; try done.
      * intros Hx Ho Hp. destruct (pi_queued0 Hx Ho Hp) as [Hin|]; [|by right].
        apply elem_of_cons in Hin as [->|]; [done|by left].
      * intros Hin. apply pi_work0. by right.
      * intros Hx. by apply pi_fifo0, Forall_cons in Hx as [_ ?].
      * intros Hx. destruct (pi_fd0 Hx) as [? Hy]. split; [done|]. intros Hz.
        destruct (Hy Hz) as [Hin|]; [|by right]. apply elem_of_cons in Hin as [->|]; [done|by left].
  - eapply disp_inv_table; [by eapply same_table_insert|apply I].
  - eapply em_inv_table; [apply I|done| |done..]. by eapply same_table_insert.
  - pose proof (inv_pool _ I). lia.
  - intros He. destruct (inv_exited _ I He) as [? E]. by rewrite Ew in E.
  - pose proof (inv_credit _ I). lia.
  - pose proof (inv_head _ I).
    pose proof (head_out_insert (c_bud c) (c_pays c) (c_em c) k (p, RNone)
      (p, RLoop false 0 (p_size p) r ATop) Hk). unfold outst in *. cbn in *. lia.
Qed.

(** The end of the context, with or without a broadcast. *)
Lemma done_inv c bc : inv c -> inv (with_ctx true bc c).
Proof.
  intros I. constructor; cbn; try apply I.
  - intros j p pc Hj. pose proof (inv_pay _ I j p pc Hj) as []. constructor; try done.
    intros Hx Ho Hp. destruct (pi_queued0 Hx Ho Hp); tauto.
  - pose proof (inv_disp _ I) as Id. unfold disp_inv in *. destruct (c_disp c); try done. naive_solver.
Qed.

Lemma broadcast_inv c : inv c -> inv (with_pays (wake (c_pays c)) c).
Proof.
  intros I. constructor; cbn; rewrite ?length_wake, ?head_out_wake; try apply I.
  - intros j p pc Hj. apply wake_lookup in Hj as (pc0 & Hj & ->). by apply pay_inv_broadcast, I.
  - eapply disp_inv_table; [|apply I]. apply same_table_wake, same_table_refl.
  - eapply em_inv_table; [apply I|done| |done..]. apply same_table_wake, same_table_refl.
  - rewrite (wake_sum (fun x => running x.2)) by apply running_wake. apply I.
  - rewrite (wake_sum outst) by apply outst_wake. apply I.
Qed.

(** A payload's part when the dispatcher moves on. *)
Lemma pay_inv_disp bud wrk done d d' past j p pc :
  pay_inv bud wrk done d past j p pc -> 
  ((pushed d' <= j)%nat -> (pushed d <= j)%nat) ->
  ((pushed d <= j)%nat -> (j < pushed d')%nat -> p_openErr p = None -> done = true /\ exited d' = true) ->
  (exited d = true -> exited d' = true) ->
  (p_fd p = true -> d = DDeliver j \/ d = DWork j -> d' = DDeliver j \/ d' = DWork j) ->
  pay_inv bud wrk done d' past j p pc.
Proof.
  intros [] Hle Hnew Hex Hfd. constructor; try done.
  - intros Hn Ho Hj. destruct (decide (pushed d <= j)%nat) as [Hp|Hp].
    + right. by apply Hnew.
    + destruct pi_queued0 as [|[? ?]]; [done..|lia|by left|right]. auto.
  - auto.
  - intros Hf. destruct (pi_fd0 Hf) as [? Hd]. split; [done|]. intros Hn.
    destruct (Hd Hn) as [|Hx]; [by left|right]. auto.
Qed.

Lemma dispatch_select_inv k alt c c' :
  inv c -> c_disp c = DSelect k -> dispatch fs nodes workers alt c = Some c' -> inv c'.
Proof.
  intros I Ed H. unfold dispatch in H. rewrite Ed in H.
  pose proof (inv_disp _ I) as Id. rewrite Ed in Id. destruct Id as [Hl Hn].
  pose proof (inv_exited _ I) as Ix. unfold work_closed in Ix. rewrite Ed in Ix.
  pose proof (inv_work _ I) as Iw. rewrite Ed in Iw.
  assert (forall d' : dispatch_pc, pushed d' = k -> (d' = DBind k \/ d' = DExit k) ->
    forall j p pc, c_pays c !! j = Some (p, pc) ->
    pay_inv (c_bud c) (c_work c) (c_done c) d' (passed (c_em c)) j p pc) as Hp.
  { intros d' Hd Hd' j p pc Hj. apply (pay_inv_disp _ _ _ (DSelect k)); cbn; rewrite ?Hd; try done; try lia.
    - rewrite <- Ed. by apply I.
    - by intros _ [|]. }
  assert (c_disp c' = DExit k -> (c_done c = true \/ k = length nodes) ->
    c' = with_disp (DExit k) c -> inv c') as Hexit.
  { intros _ Hx ->. constructor; cbn; try apply I; try done.
    - by apply Hp; [|right].
    - split_and!; [lia|lia|]. intros Hd. destruct Hx; congruence.
    - pose proof (inv_em _ I) as Ie. unfold em_inv, queue_inv in *. cbn. rewrite Ed in Ie. cbn in Ie.
      destruct (c_em c) as [x|x|x|x b|x res|[]|[]|[]]; try done; intuition.
    - intros Hx'. by destruct (Ix Hx'). }
  destruct (nodes !! k) as [n|] eqn:Hk.
  2: { simplify_eq. apply lookup_ge_None in Hk. apply Hexit; [done|right; lia|done]. }
  apply lookup_lt_Some in Hk. destruct alt.
  { destruct (c_done c) eqn:Hd; [|done]. simplify_eq. apply Hexit; auto. }
  case_decide; [|done]. simplify_eq. constructor; cbn; try apply I; try done.
  - by apply Hp; [|left].
  - pose proof (inv_em _ I) as Ie. unfold em_inv, queue_inv in *. cbn. rewrite Ed in Ie. cbn in Ie.
    destruct (c_em c) as [x|x|x|x b|x res|[]|[]|[]]; try done; (split_and!; tauto || lia || intuition lia).
Qed.

Lemma dispatch_bind_inv k alt c c' :
  inv c -> c_disp c = DBind k -> dispatch fs nodes workers alt c = Some c' -> inv c'.
Proof.
  intros I Ed H. unfold dispatch in H. rewrite Ed in H.
  pose proof (inv_disp _ I) as Id. rewrite Ed in Id. destruct Id as [Hl Hn].
  destruct (nodes !! k) as [n|] eqn:Hk; [|done]. injection H as <-.
  pose proof (inv_work _ I) as Iw. rewrite Ed in Iw. cbn in Iw.
  pose proof (passed_delivered _ I) as Hpd. rewrite Ed in Hpd. cbn in Hpd.
  assert (forall i x, c_pays c !! i = Some x -> (c_pays c ++ [(bind fs n, RNone)]) !! i = Some x) as Hmono
    by (intros i x Hx; by apply lookup_app_l_Some).
  assert (p_chunks (bind fs n) = [] /\ p_closed (bind fs n) = false /\
    (p_openErr (bind fs n) <> None -> p_fd (bind fs n) = false)) as (B1 & B2 & B3)
    by (unfold bind; repeat case_match; cbn; done).
  constructor; cbn; try apply I.
  - intros j p pc Hj. apply lookup_app_Some in Hj as [Hj|[Hj Hx]].
    + apply (pay_inv_disp _ _ _ (DBind k)); cbn; try done; try lia.
      * rewrite <- Ed. by apply I.
      * by intros _ [|].
    + destruct (j - length (c_pays c))%nat eqn:Ej; [|done]. cbn in Hx. simplify_eq.
      assert (j = length (c_pays c)) as -> by lia. clear Ej Hj.
      constructor; cbn; rewrite ?B1, ?B2; cbn; try done; try lia.
      * exists n. done.
      * intros Hin. rewrite Forall_forall in Iw. specialize (Iw _ Hin). lia.
      * split; [done|]. intros Hm. apply (inv_mu _ I) in Hm. lia.
      * intros _. split; [done|]. intros _. by right; left.
  - rewrite length_app. cbn. lia.
  - pose proof (inv_em _ I) as Ie. unfold em_inv, queue_inv in *. cbn. rewrite Ed in Ie. cbn in Ie.
    destruct (c_em c) as [x|x|x|x b|x res|[]|[]|[]]; try done;
      destruct Ie as (? & ? & ? & y & Hy & ?); split_and!; try tauto; exists y; split; auto.
  - exact Iw.
  - rewrite sum_list_with_app. cbn. pose proof (inv_pool _ I). lia.
  - intros Hx. destruct (inv_exited _ I Hx) as [Hc _]. unfold work_closed in Hc. by rewrite Ed in Hc.
  - intros j Hj. apply (inv_mu _ I) in Hj. rewrite length_app. lia.
  - rewrite sum_list_with_app. unfold outst at 2. cbn. rewrite B1. cbn. pose proof (inv_credit _ I). lia.
  - pose proof (inv_head _ I) as Ih. unfold head_out in *.
    destruct (c_pays c !! _) as [x|] eqn:Hx; [by rewrite (Hmono _ _ Hx)|].
    destruct ((c_pays c ++ _) !! _) as [y|]; cbn in *; lia.
Qed.

(** A change to a payload no worker has taken: its file closed, or its
    channel when it could not be opened. *)
Lemma pay_inv_unread bud wrk done d past j p q :
  pay_inv bud wrk done d past j p RNone -> same_static q p -> p_chunks q = p_chunks p ->
  (p_openErr p = None -> p_closed q = p_closed p) ->
  (p_fd q = true -> p_fd p = true) ->
  pay_inv bud wrk done d past j q RNone.
Proof.
  intros [] Hs Hc Hcl Hf. assert (p_openErr q = p_openErr p) as Eo by apply Hs.
  constructor; rewrite ?Hc, ?Eo; try done.
  - destruct pi_static0 as (n & Hn & Hst). exists n. split; [done|]. by eapply same_static_trans.
  - intros Ho. rewrite Hcl by done. by apply pi_closed0.
  - intros Ho. specialize (pi_fderr0 Ho). destruct (p_fd q) eqn:E; [|done]. rewrite Hf in pi_fderr0; done.
  - auto.
Qed.

(** The tables sums do not see such a change. *)
Lemma unread_sums ps k p q bud e : ps !! k = Some (p, RNone) -> p_chunks q = p_chunks p ->
  let ps' := <[k := (q, RNone)]> ps in
  sum_list_with outst ps' = sum_list_with outst ps /\
  sum_list_with (fun x => running x.2) ps' = sum_list_with (fun x => running x.2) ps /\
  (head_out bud ps e <= head_out bud ps' e)%nat.
Proof.
  intros Hk Hc ps'. pose proof (sum_insert outst _ _ _ (q, RNone) Hk) as H1.
  pose proof (sum_insert (fun x => running x.2) _ _ _ (q, RNone) Hk) as H2.
  unfold outst at 2 4 in H1. cbn in H1, H2. rewrite Hc in H1. fold ps' in H1, H2.
  split_and!; [lia|lia|]. apply (head_out_insert _ _ _ _ _ _ Hk). intros _.
  unfold outst. cbn. rewrite Hc. lia.
Qed.

(** The payload the dispatcher holds has not been taken. *)
Lemma dispatch_holds c k : inv c -> (c_disp c = DDeliver k \/ c_disp c = DWork k) ->
  exists p, c_pays c !! k = Some (p, RNone) /\ length (c_pays c) = S k /\ (k < length nodes)%nat /\
    (c_disp c = DWork k -> p_openErr p = None) /\ c_exited c = 0%nat.
Proof.
  intros I Hd. pose proof (inv_disp _ I) as Id. pose proof (inv_exited _ I) as Ix.
  assert (exited (c_disp c) = false) as He by (by destruct Hd as [-> | ->]).
  assert (c_exited c = 0)%nat as Hx.
  { destruct (c_exited c); [done|]. destruct Ix as [Hc _]; [lia|]. unfold work_closed in Hc.
    destruct Hd as [E|E]; by rewrite E in Hc. }
  assert (length (c_pays c) = S k /\ (k < length nodes)%nat) as [Hl Hn].
  { destruct Hd as [E|E]; rewrite E in Id; unfold disp_inv in Id; tauto. }
  destruct (lookup_lt_is_Some_2 (c_pays c) k) as [[p pc] Hk]; [lia|].
  pose proof (inv_pay _ I _ _ _ Hk) as P.
  assert (pc = RNone) as ->.
  { apply (pi_unpushed _ _ _ _ _ _ _ _ P). by destruct Hd as [-> | ->]. }
  exists p. split_and!; try done. intros E. rewrite E in Id. destruct Id as (_ & _ & x & Hx' & Ho).
  rewrite Hk in Hx'. by simplify_eq.
Qed.

(** The dispatcher gives a payload up, or finds it could not be opened. *)
Lemma dispatch_drop_inv c k f d' : inv c -> (c_disp c = DDeliver k \/ c_disp c = DWork k) ->
  d' = DExit (delivered (c_disp c)) -> c_done c = true -> f = close_fd ->
  inv (with_disp d' (on_pay k f c)).
Proof.
  intros I Hd -> Hdone ->. destruct (dispatch_holds c k I Hd) as (p & Hk & Hl & Hn & Ho & Hx).
  unfold on_pay. rewrite (on_pay_insert _ _ _ p RNone Hk).
  destruct (unread_sums _ k p (close_fd p) (c_bud c) (c_em c) Hk eq_refl) as (S1 & S2 & S3).
  assert (delivered (c_disp c) = k \/ delivered (c_disp c) = S k) as Hdk by (destruct Hd as [-> | ->]; cbn; lia).
  assert (pushed (c_disp c) = k) as Hpk by (by destruct Hd as [-> | ->]).
  assert (same_table (c_pays c) (<[k := (close_fd p, RNone)]> (c_pays c))) as Ht
    by (by eapply same_table_insert).
  constructor; cbn; rewrite ?length_insert, ?S1, ?S2; try apply I.
  - intros j q qc Hj. apply (pay_inv_disp _ _ _ (c_disp c)); cbn; rewrite ?Hpk; try done; try lia.
    + apply list_lookup_insert_Some in Hj as [(<- & E & _)|[Hne Hj]]; [simplify_eq|by apply I].
      apply (pay_inv_unread _ _ _ _ _ _ p); try done. by apply I.
    + intros Hf Hdj. assert (j = k) as -> by (destruct Hd as [E|E]; rewrite E in Hdj; naive_solver).
      rewrite list_lookup_insert_eq in Hj by lia. by simplify_eq.
  - split_and!; [lia|lia|]. congruence.
  - assert (em_inv (with_pays (<[k := (close_fd p, RNone)]> (c_pays c)) c)) as Ie
      by (eapply em_inv_table; [apply I|done|done|done..]).
    unfold em_inv, queue_inv in *. cbn in *.
    destruct (c_em c) as [x|x|x|x b|x res|[]|[]|[]]; intuition congruence.
  - eapply Forall_impl; [apply I|]. intros i. cbn. rewrite Hpk. lia.
  - intros Hx'. lia.
  - pose proof (inv_head _ I). lia.
Qed.

Lemma dispatch_deliver_inv k alt c c' :
  inv c -> c_disp c = DDeliver k -> dispatch fs nodes workers alt c = Some c' -> inv c'.
Proof.
  intros I Ed H. unfold dispatch in H. rewrite Ed in H.
  destruct (dispatch_holds c k I (or_introl Ed)) as (p & Hk & Hl & Hn & Ho & Hx).
  destruct alt.
  { destruct (c_done c) eqn:Hd; [|done]. injection H as <-.
    apply dispatch_drop_inv; [done|by left|by rewrite Ed|done|done]. }
  case_decide; [|done]. cbn [with_queues c_pays] in H. rewrite Hk in H.
  pose proof (inv_work _ I) as Iw. rewrite Ed in Iw. cbn in Iw.
  assert (forall d' ps', same_table (c_pays c) ps' -> (d' = DSelect (S k) \/ d' = DWork k) ->
    em_inv (with_disp d' (with_pays ps' (with_queues (c_window c) (c_delivery c ++ [k]) (c_work c) c)))) as He.
  { intros d' ps' Ht Hd'. assert (em_inv (with_pays ps' c)) as Ie
      by (eapply em_inv_table; [apply I|done|done|done..]).
    unfold em_inv, queue_inv in *. cbn in *. rewrite Ed in Ie. cbn in Ie.
    assert (delivered d' = S k /\ taken d' = S k) as [-> ->] by (by destruct Hd' as [-> | ->]).
    assert (forall o, (o <= k)%nat -> seq o (S k - o) = seq o (k - o) ++ [k]) as Hseq.
    { intros o Hok. replace (S k - o)%nat with (S (k - o)) by lia. rewrite seq_S.
      by replace (o + (k - o))%nat with k by lia. }
    destruct (c_em c) as [x|x|x|x b|x res|[]|[]|[]]; try done; try (intuition lia);
      destruct Ie as ((? & -> & ? & ?) & Ie); (split; [|exact Ie]); rewrite Hseq by lia; 
      (split_and!; [lia|done|lia|intuition lia]). }
  destruct (p_openErr p) as [e|] eqn:Eo; injection H as <-.
  - unfold on_pay. cbn [with_queues c_pays]. rewrite (on_pay_insert _ _ _ p RNone Hk).
    destruct (unread_sums _ k p (set_closed p) (c_bud c) (c_em c) Hk eq_refl) as (S1 & S2 & S3).
    constructor; cbn; rewrite ?length_insert, ?S1, ?S2; try apply I.
    + intros j q qc Hj. pose proof (inv_pay _ I k p RNone Hk) as P.
      apply (pay_inv_disp _ _ _ (c_disp c)); rewrite ?Ed; cbn; try done; try lia.
      * apply list_lookup_insert_Some in Hj as [(<- & E & _)|[Hne Hj]];
          [simplify_eq|rewrite <- Ed; by apply I].
        apply (pay_inv_unread _ _ _ _ _ _ p); try done; [rewrite <- Ed; by apply I|congruence].
      * intros Hle Hj' Hno. assert (j = k) as -> by lia.
        rewrite list_lookup_insert_eq in Hj by lia. simplify_eq. cbn in Hno. congruence.
      * intros Hf [E|E]; [|done]. injection E as <-.
        rewrite list_lookup_insert_eq in Hj by lia. simplify_eq. cbn in Hf.
        rewrite (pi_fderr _ _ _ _ _ _ _ _ P) in Hf; congruence.
    + lia.
    + apply He; [|by left]. by eapply same_table_insert.
    + eapply Forall_impl; [exact Iw|]. cbn. lia.
    + lia.
    + pose proof (inv_head _ I). lia.
  - constructor; cbn; try apply I.
    + intros j q qc Hj. apply (pay_inv_disp _ _ _ (DDeliver k)); cbn; try done; try lia.
      * rewrite <- Ed. by apply I.
      * intros _ [E|E]; simplify_eq. by right.
    + split_and!; [done|done|]. by eexists.
    + apply (He (DWork k) (c_pays c)); [apply same_table_refl|by right].
    + exact Iw.
    + lia.
Qed.

Lemma dispatch_work_inv k alt c c' :
  inv c -> c_disp c = DWork k -> dispatch fs nodes workers alt c = Some c' -> inv c'.
Proof.
  intros I Ed H. unfold dispatch in H. rewrite Ed in H.
  destruct (dispatch_holds c k I (or_intror Ed)) as (p & Hk & Hl & Hn & Ho & Hx). specialize (Ho Ed).
  destruct alt.
  { destruct (c_done c) eqn:Hd; [|done]. injection H as <-.
    apply dispatch_drop_inv; [done|by right|by rewrite Ed|done|done]. }
  case_decide; [|done]. injection H as <-.
  pose proof (inv_work _ I) as Iw. rewrite Ed in Iw. cbn in Iw.
  constructor; cbn; try apply I.
  - intros j q qc Hj. pose proof (inv_pay _ I j q qc Hj) as []. rewrite Ed in *. cbn in *.
    constructor; cbn; try done.
    + intros Hq Hoq Hjk. destruct (decide (j = k)) as [->|Hne]; [left; set_solver|].
      destruct pi_queued0 as [|[? ?]]; try done; [lia|left; set_solver].
    + rewrite elem_of_app, list_elem_of_singleton. intros [Hin| ->]; [auto|].
      rewrite Hk in Hj. by simplify_eq.
    + intros Hq. apply Forall_app. split; [auto|]. apply Forall_singleton.
      destruct (decide (k <= j)%nat); [|lia]. destruct Hq. auto.
    + intros. apply pi_unpushed0. lia.
    + intros Hf. destruct (pi_fd0 Hf) as [? Hd]. split; [done|]. intros Hq.
      destruct (Hd Hq) as [|[?|E]]; [left; set_solver|done|]. injection E as ->. left. set_solver.
  - lia.
  - pose proof (inv_em _ I) as Ie. unfold em_inv, queue_inv in *. cbn. rewrite Ed in Ie. cbn in Ie.
    destruct (c_em c) as [x|x|x|x b|x res|[]|[]|[]]; intuition congruence.
  - pose proof (inv_sorted _ I) as Hs. clear -Hs Iw. induction Hs as [|i l Hs IH Hi]; cbn.
    + repeat constructor.
    + apply Forall_cons in Iw as [? ?]. constructor; [auto|]. apply Forall_app. split; [done|].
      by apply Forall_singleton.
  - apply Forall_app. split; [|apply Forall_singleton; lia]. eapply Forall_impl; [exact Iw|]. cbn. lia.
  - lia.
Qed.

Lemma dispatch_inv alt c c' : inv c -> dispatch fs nodes workers alt c = Some c' -> inv c'.
Proof.
  intros I H. destruct (c_disp c) eqn:Ed.
  - by eapply dispatch_select_inv.
  - by eapply dispatch_bind_inv.
  - by eapply dispatch_deliver_inv.
  - by eapply dispatch_work_inv.
  - unfold dispatch in H. by rewrite Ed in H.
Qed.

(** Moves of the emitter that touch neither payloads nor budget. *)
Lemma emit_frame c c' : inv c ->
  (c_done c', c_bud c', c_work c', c_idle c', c_exited c', c_pays c', c_disp c') =
    (c_done c, c_bud c, c_work c, c_idle c, c_exited c, c_pays c, c_disp c) ->
  em_held (c_em c') = em_held (c_em c) -> em_inv c' ->
  (forall j p pc, c_pays c !! j = Some (p, pc) -> (j < passed (c_em c'))%nat ->
    (j < passed (c_em c))%nat \/ pc = RDone /\ p_chunks p = []) ->
  inv c'.
Proof.
  intros I E He Hi Hp. injection E as E1 E2 E3 E4 E5 E6 E7.
  constructor; rewrite ?E1, ?E2, ?E3, ?E4, ?E5, ?E6, ?E7, ?He; try apply I; try done.
  - intros j p pc Hj. eapply pay_inv_past; [by apply I|]. by eapply Hp.
  - unfold work_closed. rewrite E7. apply I.
  - unfold head_out. rewrite He. apply I.
Qed.

(** Once copied, a payload is read to its end and its channel is empty. *)
Lemma passed_out c j x : inv c -> (j < passed (c_em c))%nat -> c_pays c !! j = Some x -> outst x = 0%nat.
Proof.
  intros I Hj Hx. destruct x as [p pc]. pose proof (inv_pay _ I _ _ _ Hx) as P.
  destruct (pi_past _ _ _ _ _ _ _ _ P Hj) as [-> Hc]. unfold outst. cbn. by rewrite Hc.
Qed.

(** [open] hands out the next payload. *)
Lemma emit_open_inv k p pc win del bud c :
  inv c -> c_em c = EmNext k -> c_delivery c = k :: del -> c_pays c !! k = Some (p, pc) ->
  p_openErr p = None -> setHead k (c_bud c) = Some bud ->
  win = c_window c ->
  inv (with_em (EmOpened k) (with_bud bud (with_pays (wake (c_pays c)) (with_queues win del (c_work c) c)))).
Proof.
  intros I Ee Hq Hk Ho Hb ->. unfold setHead in Hb. destruct (b_mu (c_bud c)) eqn:Hm; [done|].
  injection Hb as <-. pose proof (inv_em _ I) as Ie. unfold em_inv, queue_inv in Ie. rewrite Ee in Ie.
  rewrite Hq in Ie. destruct Ie as ((H1 & H2 & H3 & H4) & H5 & H6).
  destruct (delivered (c_disp c) - k)%nat as [|m] eqn:Em; [done|]. cbn in H2. injection H2 as H2.
  assert (k < length (c_pays c))%nat as Hlt by by eapply lookup_lt_Some.
  constructor; cbn; rewrite ?length_wake; try apply I.
  - intros j q qc Hj. apply wake_lookup in Hj as (qc0 & Hj & ->).
    eapply pay_inv_wake; [|done|done]. pose proof (inv_pay _ I _ _ _ Hj) as P. by rewrite Ee in P.
  - eapply disp_inv_table; [|apply I]. apply same_table_wake, same_table_refl.
  - unfold em_inv, queue_inv. cbn.
    pose proof (inv_pay _ I _ _ _ Hk) as P. destruct (pi_static _ _ _ _ _ _ _ _ P) as (n & Hn & _).
    apply lookup_lt_Some in Hn. split_and!; try lia.
    + by replace (delivered (c_disp c) - S k)%nat with m by lia.
    + intros Hx. specialize (H4 Hx). lia.
    + unfold wake. rewrite list_lookup_fmap, Hk. by eexists.
  - rewrite (wake_sum (fun x => running x.2)) by apply running_wake. apply I.
  - done.
  - rewrite (wake_sum outst) by apply outst_wake. pose proof (inv_credit _ I) as Ic. by rewrite Ee in Ic.
  - rewrite head_out_wake. pose proof (inv_head _ I) as Ih. unfold head_out in *. cbn in *.
    rewrite Nat2Z.id, Hk. rewrite H6, Ee in Ih. cbn in Ih.
    destruct (c_pays c !! Z.to_nat (Z.of_nat k - 1)) as [x|] eqn:Hx; [|lia].
    destruct (decide (k = 0%nat)) as [->|Hk0].
    + change (Z.to_nat (Z.of_nat 0 - 1)) with 0%nat in Hx. rewrite Hk in Hx. simplify_eq. lia.
    + rewrite (passed_out c (Z.to_nat (Z.of_nat k - 1)) x I) in Ih; [lia| |done]. rewrite Ee. cbn. lia.
Qed.

(** [Copy] receives a chunk, and gives its buffer back once it is written. *)
Lemma emit_receive_inv k p pc b l c :
  inv c -> c_em c = EmCopy k -> c_pays c !! k = Some (p, pc) -> p_chunks p = b :: l ->
  inv (with_em (EmWrite k b) (on_pay k (set_chunks l) c)).
Proof.
  intros I Ee Hk Hc. unfold on_pay. rewrite (on_pay_insert _ _ _ p pc Hk).
  pose proof (inv_em _ I) as Ie. unfold em_inv, queue_inv in Ie. rewrite Ee in Ie.
  destruct Ie as (Iq & Hn & Hh & Hx).
  assert (Hsum := sum_insert outst _ _ _ (set_chunks l p, pc) Hk).
  assert (Hrun := sum_insert (fun x => running x.2) _ _ _ (set_chunks l p, pc) Hk).
  unfold outst at 2 4 in Hsum. cbn in Hsum, Hrun. rewrite Hc in Hsum. cbn in Hsum.
  assert (k < length (c_pays c))%nat as Hlt by by eapply lookup_lt_Some.
  constructor; cbn; rewrite ?length_insert; try apply I; try done.
  - intros j q qc Hj. apply list_lookup_insert_Some in Hj as [(<- & E & _)|[Hne Hj]].
    + simplify_eq. pose proof (inv_pay _ I _ _ _ Hk) as []. rewrite Ee in *. cbn in *.
      constructor; cbn; try done.
      * rewrite Hc in pi_cap0. cbn in pi_cap0. lia.
      * intros Hr. rewrite (pi_fresh0 Hr) in Hc. done.
      * lia.
    + pose proof (inv_pay _ I _ _ _ Hj) as P. by rewrite Ee in P.
  - eapply disp_inv_table; [by eapply same_table_insert|apply I].
  - unfold em_inv, queue_inv. cbn. split_and!; [tauto..|]. rewrite list_lookup_insert_eq by done.
    eexists. split; [done|]. cbn. destruct Hx as (y & Hy & ?). rewrite Hk in Hy. by simplify_eq.
  - pose proof (inv_pool _ I). lia.
  - pose proof (inv_credit _ I) as Ic. rewrite Ee in Ic. cbn in Ic. lia.
  - pose proof (inv_head _ I) as Ih. unfold head_out in *. rewrite Hh, Nat2Z.id, Ee, Hk in Ih.
    rewrite Hh, Nat2Z.id, list_lookup_insert_eq by done. unfold outst in *. cbn in *.
    rewrite Hc in Ih. cbn in Ih. lia.
Qed.

Lemma emit_put_inv k b bud c e' w :
  inv c -> c_em c = EmWrite k b -> release (c_bud c) = Some bud ->
  (e' = EmCopy k \/ exists e, e' = EmClose k (Err e)) ->
  inv (with_em e' (with_out w (c_warns c) (with_bud bud (with_pays (wake (c_pays c)) c)))).
Proof.
  intros I Ee Hb He. unfold release in Hb. destruct (b_mu (c_bud c)) eqn:Hm; [done|]. injection Hb as <-.
  assert (passed e' = k /\ em_held e' = 0%nat) as [Ep Eh] by (by destruct He as [->|[? ->]]).
  constructor; cbn; rewrite ?length_wake, ?Ep, ?Eh; try apply I; try done.
  - intros j q qc Hj. apply wake_lookup in Hj as (qc0 & Hj & ->).
    eapply pay_inv_wake; [|done|done]. pose proof (inv_pay _ I _ _ _ Hj) as P. by rewrite Ee in P.
  - eapply disp_inv_table; [|apply I]. apply same_table_wake, same_table_refl.
  - pose proof (inv_em _ I) as Ie. unfold em_inv, queue_inv in *. cbn. rewrite Ee in Ie.
    destruct Ie as (? & ? & ? & y & Hy & Ho).
    assert (exists x, wake (c_pays c) !! k = Some x /\ p_openErr x.1 = None).
    { unfold wake. rewrite list_lookup_fmap, Hy. by eexists. }
    by destruct He as [->|[? ->]].
  - rewrite (wake_sum (fun x => running x.2)) by apply running_wake. apply I.
  - rewrite (wake_sum outst) by apply outst_wake. pose proof (inv_credit _ I) as Ic. rewrite Ee in Ic.
    cbn in Ic. lia.
  - rewrite head_out_wake. pose proof (inv_head _ I) as Ih. unfold head_out in *. rewrite Ee in Ih.
    cbn in *. rewrite Eh. lia.
Qed.

Lemma emit_inv alt c c' : inv c -> emit nodes workers hdr alt c = Some c' -> inv c'.
Proof.
  intros I H. pose proof (inv_em _ I) as Ie. unfold em_inv, queue_inv in Ie. unfold emit in H.
  destruct (c_em c) as [k|k|k|k b|k res|res|res|res] eqn:Ee.
  - case_decide as Hlen.
    { injection H as <-. apply (emit_frame c); rewrite ?Ee; cbn; try done; [lia|].
      intros j p pc _ Hj. left. lia. }
    destruct alt.
    { destruct (c_done c) eqn:Hd; [|done]. injection H as <-.
      apply (emit_frame c); rewrite ?Ee; cbn; try done; try lia. }
    destruct (c_delivery c) as [|j del] eqn:Hq; [done|].
    destruct (c_pays c !! j) as [[p pc]|] eqn:Hk; [|done]. case_decide as Hj.
    2: { injection H as <-. apply (emit_frame c); rewrite ?Ee; cbn; done || lia. }
    subst j. destruct (p_openErr p) as [e|] eqn:Ho.
    + cbn [with_queues c_bud c_pays c_window c_work] in H.
      destruct (c_window c) as [|win]; [done|]. injection H as <-.
      apply (emit_frame c); rewrite ?Ee; cbn; done || lia.
    + cbn [with_queues c_bud c_pays c_window c_work] in H.
      destruct (setHead k (c_bud c)) as [bud|] eqn:Hb; [|done]. injection H as <-.
      by eapply emit_open_inv.
  - destruct (emit_write (hdr k) c) as [[[]|e] w]; injection H as <-;
      (apply (emit_frame c); rewrite ?Ee; cbn; [done|done|done|done|tauto]).
  - destruct (c_pays c !! k) as [[p pc]|] eqn:Hk; [|done].
    destruct (p_chunks p) as [|b l] eqn:Hc; [|injection H as <-; by eapply emit_receive_inv].
    destruct (p_closed p) eqn:Hcl; [|done]. destruct Ie as (? & ? & ? & y & Hy & Ho).
    assert (pc = RDone) as ->.
    { pose proof (inv_pay _ I _ _ _ Hk) as P. simplify_eq.
      by apply (pi_closed _ _ _ _ _ _ _ _ P). }
    assert (forall res ws, em_inv (with_em (EmClose k res) (with_out (c_w c) ws c))) as Hcopy.
    { intros res ws. unfold em_inv, queue_inv. cbn. split_and!; [tauto..|]. exists y. by rewrite Hk. }
    destruct (p_err p) eqn:Hpe; injection H as <-; apply (emit_frame c); rewrite ?Ee; cbn; try done;
      try apply (Hcopy _ (c_warns c)); try apply Hcopy.
    + tauto.
    + intros j q qc Hj Hjk. destruct (decide (j = k)) as [->|]; [|left; lia].
      rewrite Hk in Hj. simplify_eq. auto.
  - destruct (release (c_bud c)) as [bud|] eqn:Hb; [|done].
    destruct (emit_write b c) as [[[]|e] w]; injection H as <-;
      (eapply emit_put_inv; [done|done|done|]); [by left|right; eauto].
  - destruct (c_window c) as [|win] eqn:Hw; [done|]. injection H as <-.
    destruct res as [[]|e]; apply (emit_frame c); rewrite ?Ee; cbn; try done; [| |lia].
    + unfold em_inv, queue_inv. cbn. destruct Ie as ((? & ? & ? & Ht) & ? & ? & _). split_and!; try done; try lia.
      intros Hx. specialize (Ht Hx). lia.
    + tauto.
  - injection H as <-. apply (done_inv c (c_bcast c)) in I.
    apply (emit_frame (with_ctx true (c_bcast c) c)); cbn; rewrite ?Ee; cbn; try done.
    by destruct res; tauto.
  - case_decide; [|done]. destruct (work_closed c); [|done]. injection H as <-.
    apply (emit_frame c); rewrite ?Ee; cbn; try done. destruct res; tauto.
  - done.
Qed.

Lemma fire_inv ev c c' : inv c -> fire fs nodes workers hdr ev c = Some c' -> inv c'.
Proof.
  intros I H. destruct ev as [alt| |k alt|alt| |]; cbn in H.
  - by eapply dispatch_inv.
  - by eapply pick_inv.
  - by eapply work_inv.
  - by eapply emit_inv.
  - destruct (c_done c); [done|]. injection H as <-. by apply done_inv.
  - destruct (c_done c && negb (c_bcast c)); [|done]. injection H as <-.
    by apply done_inv, broadcast_inv.
Qed.

Lemma run_inv sched c c' : inv c -> run fs nodes workers hdr sched c = Some c' -> inv c'.
Proof.
  revert c. induction sched as [|ev sched IH]; intros c I H; cbn in H; [by simplify_eq|].
  destruct (fire _ _ _ _ ev c) as [c1|] eqn:Hf; [|done]. eapply IH; [|done]. by eapply fire_inv.
Qed.

(* ------------------------------------------------------------------ *)
(** ** Progress *)

Definition can_step (c : config) : Prop :=
  exists ev c', ev <> Cancel /\ fire fs nodes workers hdr ev c = Some c'.

(** A reader can move unless it waits for credits, or for room in its channel. *)
Definition stalled (done : bool) (x : asyncPayload * read_pc) : Prop :=
  running x.2 = 0%nat \/ waiting x.2 = true \/
  (done = false /\ length (p_chunks x.1) = 2%nat /\ exists pad f m r b e, x.2 = RSend pad f m r b e).

Lemma read_step_total k (bud : chunkBudget) done p pc :
  (length (p_chunks p) <= 2)%nat -> (b_mu bud = None \/ armed pc = true) -> 
  stalled done (p, pc) \/ exists alt x, read_step k alt done bud p pc = Some x.
Proof.
  intros Hcap Hm. unfold stalled, read_step, acquire, release. cbn [fst snd].
  destruct pc as [|pad f m r []|pad f m r b e| | |]; try (by left; left);
    try (right; exists false; by destruct pad; eexists);
    try (by left; right; left); try (right; exists false; by eexists).
  - destruct Hm as [-> |]; [|done]. right. exists false.
    destruct pad, (negb (0 <? m)), ((b_avail bud <? 1) && negb (Z.of_nat k =? b_head bud)), done; eauto.
  - destruct Hm as [-> |]; [|done]. right. exists false.
    destruct pad; [eauto|]. destruct (Read _ r) as [[? ?] ?]. case_decide; eauto.
  - destruct Hm as [-> |]; [|done]. destruct done.
    + right. exists true. eauto.
    + destruct (decide (length (p_chunks p) < 2)%nat) as [Hl|Hl].
      * right. exists false. eauto.
      * left. right; right. split; [done|]. split; [lia|]. eauto 10.
Qed.

(** A held mutex is given back. *)
Lemma armed_step c : inv c -> b_mu (c_bud c) <> None -> can_step c.
Proof.
  intros I Hm. destruct (b_mu (c_bud c)) as [j|] eqn:Hj; [|done].
  pose proof (inv_mu _ I _ Hj) as Hl. apply lookup_lt_is_Some in Hl as [[p pc] Hk].
  pose proof (inv_pay _ I _ _ _ Hk) as P. apply (pi_armed _ _ _ _ _ _ _ _ P) in Hj.
  destruct pc as [|pad f m r []| | | |]; try done.
  exists (Work j false). cbn. unfold work. rewrite Hk. destruct pad; cbn; by eexists.
Qed.

(** With the mutex free, a reader that is not stalled moves. *)
Lemma reader_step c j x : inv c -> b_mu (c_bud c) = None -> c_pays c !! j = Some x ->
  stalled (c_done c) x \/ can_step c.
Proof.
  intros I Hm Hj. destruct x as [p pc]. pose proof (inv_pay _ I _ _ _ Hj) as P.
  destruct (read_step_total j (c_bud c) (c_done c) p pc) as [|(alt & [[bud wk] [p' pc']] & Hs)]; auto.
  { by apply P. }
  right. exists (Work j alt). cbn. unfold work. rewrite Hj, Hs. by eexists.
Qed.

(** Every reader is stalled, or something moves. *)
Lemma readers_step c : inv c ->
  can_step c \/ (b_mu (c_bud c) = None /\ forall j x, c_pays c !! j = Some x -> stalled (c_done c) x).
Proof.
  intros I. destruct (b_mu (c_bud c)) eqn:Hm; [left; apply armed_step; congruence|].
  assert (forall n, can_step c \/ forall j x, (j < n)%nat -> c_pays c !! j = Some x -> stalled (c_done c) x)
    as Hn.
  { induction n as [|n [IH|IH]]; [right; intros; lia|by left|].
    destruct (c_pays c !! n) as [x|] eqn:Hx.
    - destruct (reader_step c n x I Hm Hx); [|by left]. right. intros j y Hj Hy.
      destruct (decide (j = n)) as [->|]; [congruence|]. apply (IH j); [lia|done].
    - right. intros j y Hj Hy. destruct (decide (j = n)) as [->|]; [congruence|]. apply (IH j); [lia|done]. }
  destruct (Hn (length (c_pays c))) as [|Hs]; [by left|right]. split; [done|].
  intros j x Hx. eapply Hs; [by eapply lookup_lt_Some|done].
Qed.

(** With queued work and nobody reading, an idle worker takes it. *)
Lemma idle_step c : inv c -> (0 < workers)%nat ->
  (forall j p pc n, c_pays c !! j = Some (p, pc) -> nodes !! j = Some n ->
    n_Kind n = KindStream -> n_Stream n <> None) ->
  sum_list_with (fun x => running x.2) (c_pays c) = 0%nat -> c_work c <> [] -> can_step c.
Proof.
  intros I Hw Hst Hr Hq. pose proof (inv_pool _ I) as Ip.
  assert (c_exited c = 0%nat) as He.
  { destruct (c_exited c) as [|m] eqn:Em; [done|]. destruct (inv_exited _ I) as [_ E]; [lia|done]. }
  destruct (c_idle c) as [|idle] eqn:Ei; [lia|].
  destruct (c_work c) as [|k wrk] eqn:Ew; [done|].
  pose proof (inv_work _ I) as Iw. rewrite Ew in Iw. apply Forall_cons in Iw as [Hk _].
  pose proof (inv_disp _ I) as Id.
  assert (k < length (c_pays c))%nat as Hlt by (destruct (c_disp c); cbn in *; lia).
  apply lookup_lt_is_Some in Hlt as [[p pc] Hp].
  pose proof (inv_pay _ I _ _ _ Hp) as P. destruct (pi_work _ _ _ _ _ _ _ _ P) as [-> Ho].
  { rewrite Ew. left. }
  destruct (pi_static _ _ _ _ _ _ _ _ P) as (n & Hn & Hs & _ & _ & Hf & Hoe).
  assert (exists r, payload_reader p = Some r) as [r Hrd].
  { unfold payload_reader. rewrite Hf, Hs. rewrite Ho in Hoe. unfold bind in *.
    case_decide as Hkd; cbn in *.
    - specialize (Hst _ _ _ _ Hp Hn Hkd). destruct (n_Stream n); [eauto|done].
    - repeat case_match; cbn in *; try done. eauto. }
  exists Pick. cbn. unfold pick. rewrite Ei, Ew, Hp, Hrd. by eexists.
Qed.

Lemma sum_zero {A} (f : A -> nat) l : (forall j x, l !! j = Some x -> f x = 0%nat) ->
  sum_list_with f l = 0%nat.
Proof.
  induction l as [|y l IH]; intros Hf; cbn; [done|].
  rewrite (Hf 0%nat y eq_refl), IH; [done|]. intros j x Hx. by apply (Hf (S j)).
Qed.

(** Streams come with a reader: a nil one makes [read] panic. *)
Definition streams_ok : Prop :=
  forall j n, nodes !! j = Some n -> n_Kind n = KindStream -> n_Stream n <> None.

(** The emitter waits for the goroutines only after it canceled. *)
Definition over_inv (c : config) : Prop :=
  match c_em c with EmWait _ | EmEnd _ => c_done c = true | _ => True end.

(** Only the emitter touches its own state, and nothing revives a context. *)
Lemma fire_frame ev c c' : fire fs nodes workers hdr ev c = Some c' ->
  (forall alt, ev <> Emit alt) ->
  c_em c' = c_em c /\ c_w c' = c_w c /\ c_warns c' = c_warns c /\
  (ev <> Cancel -> c_done c' = c_done c) /\ (c_done c = true -> c_done c' = true).
Proof.
  intros H Hne. destruct ev as [alt| |k alt|alt| |]; cbn in H.
  - unfold dispatch, on_pay in H. repeat case_match; simplify_eq; done.
  - unfold pick in H. repeat case_match; simplify_eq; done.
  - unfold work in H. destruct (c_pays c !! k) as [[p pc]|]; [|done].
    destruct (read_step _ _ _ _ _ _) as [[[bud wk] [p' pc']]|]; [|done]. by injection H as <-.
  - by destruct (Hne alt).
  - destruct (c_done c) eqn:E; [done|]. by simplify_eq.
  - destruct (c_done c) eqn:E; cbn in H; [|done]. destruct (negb _); by simplify_eq.
Qed.

Lemma fire_over ev c c' : over_inv c -> fire fs nodes workers hdr ev c = Some c' -> over_inv c'.
Proof.
  intros I H. assert ((forall alt, ev <> Emit alt) \/ exists alt, ev = Emit alt) as [Hne|[alt ->]]
    by (destruct ev; naive_solver).
  - destruct (fire_frame _ _ _ H Hne) as (E & _ & _ & _ & Hd). unfold over_inv in *. rewrite E.
    destruct (c_em c); auto.
  - cbn in H. unfold over_inv in I. unfold emit in H. destruct (c_em c) eqn:Ee; [..|done].
    + repeat case_match; simplify_eq; done.
    + destruct (emit_write _ c) as [[] ?]; simplify_eq; done.
    + repeat case_match; simplify_eq; done.
    + destruct (release _); [|done]. destruct (emit_write _ c) as [[] ?]; simplify_eq; done.
    + repeat case_match; simplify_eq; done.
    + by simplify_eq.
    + repeat case_match; simplify_eq; done.
Qed.

Lemma delivered_bound c : inv c -> (delivered (c_disp c) <= length (c_pays c))%nat /\
  (length (c_pays c) <= length nodes)%nat.
Proof. intros I. pose proof (inv_disp _ I) as Id. destruct (c_disp c); cbn in *; lia. Qed.

Lemma window_pos : (0 < window workers)%nat.
Proof. unfold window, windowSize. case_decide; lia. Qed.

(** Waiting for the next payload, the emitter gets it or the dispatcher moves. *)
Lemma next_step k c : inv c -> b_mu (c_bud c) = None -> c_done c = false -> c_em c = EmNext k -> can_step c.
Proof.
  intros I Hm Hd Ee. pose proof (inv_em _ I) as Ie. unfold em_inv, queue_inv in Ie. rewrite Ee in Ie.
  destruct Ie as ((H1 & H2 & H3 & H4) & H5 & H6). pose proof (delivered_bound _ I) as [Hb Hb'].
  pose proof window_pos as Hw.
  destruct (decide (length nodes <= k)%nat) as [Hn|Hn].
  { exists (Emit false). cbn. unfold emit. rewrite Ee, decide_True by done. by eexists. }
  destruct (delivered (c_disp c) - k)%nat as [|m] eqn:Em; cbn in H2.
  - assert (delivered (c_disp c) = k) as Edk by lia. clear Em.
    destruct (nodes !! k) as [n|] eqn:Hnk; [|apply lookup_ge_None in Hnk; lia].
    exists (Dispatch false). pose proof (inv_disp _ I) as Id.
    destruct (c_disp c) as [x|x|x|x|x] eqn:Ed; cbn in Edk, H4, Id; unfold fire, dispatch; rewrite Ed;
      try (subst x; rewrite ?Hnk).
    + rewrite decide_True by (specialize (H4 eq_refl); lia). by eexists.
    + by eexists.
    + rewrite H2, decide_True by (cbn; lia). cbn [with_queues c_pays].
      destruct (lookup_lt_is_Some_2 (c_pays c) k) as [[p pc] ->]; [lia|]. destruct (p_openErr p); by eexists.
    + destruct (lookup_lt_is_Some_2 (c_pays c) x) as [[p pc] Hx]; [lia|].
      pose proof (inv_pay _ I _ _ _ Hx) as P. rewrite Ed, Ee in P.
      pose proof (pi_unpushed _ _ _ _ _ _ _ _ P) as U. cbn in U.
      destruct (pi_past _ _ _ _ _ _ _ _ P) as [-> _]; [cbn; lia|]. by specialize (U (le_n _)).
    + destruct Id as (_ & _ & Id). specialize (Id Hd). lia.
  - exists (Emit false). cbn. unfold emit. rewrite Ee, decide_False by done. rewrite H2.
    destruct (lookup_lt_is_Some_2 (c_pays c) k) as [[p pc] ->]; [lia|].
    rewrite decide_True by done. cbn [with_queues c_window c_bud].
    destruct (p_openErr p); [destruct (c_window c); [lia|]|unfold setHead; rewrite Hm]; by eexists.
Qed.

(** In [Copy], with nothing to receive, the payload's reader moves. *)
Lemma async_copy_step k c : inv c -> streams_ok -> (0 < workers)%nat -> b_mu (c_bud c) = None ->
  (forall j x, c_pays c !! j = Some x -> stalled (c_done c) x) ->
  c_done c = false -> c_em c = EmCopy k -> can_step c.
Proof.
  intros I Hst Hwk Hm Hall Hd Ee. pose proof (inv_em _ I) as Ie. unfold em_inv, queue_inv in Ie.
  rewrite Ee in Ie. destruct Ie as ((H1 & H2 & H3 & H4) & H5 & H6 & [p pc] & Hk & Ho). cbn in Ho.
  pose proof (inv_pay _ I _ _ _ Hk) as P.
  destruct (p_chunks p) as [|b l] eqn:Hc.
  2: { exists (Emit false). cbn. unfold emit. rewrite Ee, Hk, Hc. by eexists. }
  destruct (p_closed p) eqn:Hcl.
  { exists (Emit false). cbn. unfold emit. rewrite Ee, Hk, Hc, Hcl. destruct (p_err p); by eexists. }
  assert (pc = RNone) as ->.
  { assert (pc <> RDone) by (rewrite <- (pi_closed _ _ _ _ _ _ _ _ P Ho); congruence).
    destruct (Hall _ _ Hk) as [Hr|[Hr|(_ & Hr & _)]]; cbn in Hr.
    - by destruct pc.
    - destruct (pi_wait _ _ _ _ _ _ _ _ P) as [_ Hne]; [by rewrite Hr, orb_true_r|]. congruence.
    - by rewrite Hc in Hr. }
  assert (forall i q qc, c_pays c !! i = Some (q, qc) -> (i < k)%nat -> qc = RDone) as Hpast.
  { intros i q qc Hi Hik. pose proof (inv_pay _ I _ _ _ Hi) as Pi. rewrite Ee in Pi.
    by apply (pi_past _ _ _ _ _ _ _ _ Pi). }
  destruct (decide (k < pushed (c_disp c))%nat) as [Hp|Hp].
  - destruct (pi_queued _ _ _ _ _ _ _ _ P eq_refl Ho Hp) as [Hin|[E _]]; [|congruence].
    apply idle_step; try done.
    + intros j q qc n _ Hn. by apply (Hst j).
    + apply sum_zero. intros i [q qc] Hi. cbn.
      destruct (decide (i < k)%nat) as [Hik|Hik]; [by rewrite (Hpast _ _ _ Hi Hik)|].
      destruct (decide (i = k)) as [->|Hne]; [rewrite Hk in Hi; by simplify_eq|].
      pose proof (pi_fifo _ _ _ _ _ _ _ _ (inv_pay _ I _ _ _ Hi)) as Hf.
      destruct qc; try done; (rewrite Forall_forall in Hf; specialize (Hf ltac:(done) k Hin); lia).
    + intros E. rewrite E in Hin. by apply elem_of_nil in Hin.
  - assert (c_disp c = DWork k) as Ed.
    { destruct (c_disp c) as [x|x|x|x|x]; cbn in *; try lia. by replace x with k by lia. }
    assert (c_work c = []) as Ew.
    { destruct (c_work c) as [|i wrk] eqn:Ew; [done|]. pose proof (inv_work _ I) as Iw.
      rewrite Ew, Ed in Iw. apply Forall_cons in Iw as [Hi _]. cbn in Hi.
      destruct (lookup_lt_is_Some_2 (c_pays c) i) as [[q qc] Hq]; [apply lookup_lt_Some in Hk; lia|].
      pose proof (Hpast _ _ _ Hq Hi) as ->. pose proof (inv_pay _ I _ _ _ Hq) as Pi.
      destruct (pi_work _ _ _ _ _ _ _ _ Pi); [rewrite Ew; left|]. done. }
    exists (Dispatch false). cbn. unfold dispatch. rewrite Ed, Ew, decide_True by apply window_pos.
    by eexists.
Qed.

(** While the context lasts, something can always move. *)
Lemma progress_live c : inv c -> over_inv c -> streams_ok -> (0 < workers)%nat ->
  c_done c = false -> can_step c.
Proof.
  intros I Io Hst Hw Hd. destruct (readers_step c I) as [|[Hm Hall]]; [done|].
  pose proof (inv_em _ I) as Ie. unfold em_inv, queue_inv in Ie. unfold over_inv in Io.
  destruct (c_em c) as [k|k|k|k b|k res|res|res|res] eqn:Ee; try congruence.
  - by eapply next_step.
  - exists (Emit false). cbn. unfold emit. rewrite Ee. destruct (emit_write _ c) as [[] ?]; by eexists.
  - by eapply async_copy_step.
  - exists (Emit false). cbn. unfold emit, release. rewrite Ee, Hm.
    destruct (emit_write _ c) as [[] ?]; by eexists.
  - exists (Emit false). cbn. unfold emit. rewrite Ee. destruct (c_window c); [lia|]. by eexists.
  - exists (Emit false). cbn. unfold emit. rewrite Ee. by eexists.
Qed.

(** A waiter that registered after the only broadcast of a done context. *)
Definition lost_wakeup (c : config) : Prop :=
  c_bcast c = true /\ exists j p pc, c_pays c !! j = Some (p, pc) /\ waiting pc = true.

(** The emitter in [Copy] of a payload the dispatcher did not give to [work]. *)
Definition orphan (c : config) : Prop :=
  exists k p, c_em c = EmCopy k /\ c_pays c !! k = Some (p, RNone) /\ p_openErr p = None /\
    p_closed p = false /\ (k ∉ c_work c) /\ work_closed c = true.

Definition ended (c : config) : Prop := exists res, c_em c = EmEnd res.

Lemma dispatch_done c : inv c -> c_done c = true -> work_closed c = true \/ can_step c.
Proof.
  intros I Hd. pose proof (inv_disp _ I) as Id. unfold work_closed.
  destruct (c_disp c) as [x|x|x|x|x] eqn:Ed; [..|by left]; right; exists (Dispatch true); cbn in *;
    unfold dispatch; rewrite Ed, ?Hd; try by eexists.
  - destruct (nodes !! x); by eexists.
  - destruct (nodes !! x) eqn:Hn; [by eexists|]. apply lookup_ge_None in Hn. lia.
Qed.

(** Once the context is done, only the two lost signals can stop the system. *)
Lemma progress_done c : inv c -> over_inv c -> streams_ok -> (0 < workers)%nat ->
  c_done c = true -> ended c \/ can_step c \/ lost_wakeup c \/ orphan c.
Proof.
  intros I Io Hst Hw Hd.
  destruct (c_bcast c) eqn:Hb.
  2: { right; left. exists Broadcast. cbn. rewrite Hd, Hb. by eexists. }
  destruct (readers_step c I) as [|[Hm Hall]]; [by right; left|].
  destruct (decide (Exists (fun x => waiting x.2 = true) (c_pays c))) as [Hex|Hex].
  { right; right; left. split; [done|]. apply Exists_exists in Hex as ([p pc] & Hin & Hwt).
    apply list_elem_of_lookup in Hin as [j Hj]. eauto 10. }
  assert (sum_list_with (fun x => running x.2) (c_pays c) = 0%nat) as Hr.
  { apply sum_zero. intros j x Hx. destruct (Hall _ _ Hx) as [|[Hwt|(E & _)]]; [done| |congruence].
    destruct Hex. apply Exists_exists. exists x. split; [|done]. by eapply list_elem_of_lookup_2. }
  destruct (dispatch_done c I Hd) as [Hcl|]; [|by right; left].
  destruct (decide (c_work c = [])) as [Ew|Ew].
  2: { right; left. apply idle_step; try done. intros j p pc n _ Hn. by apply (Hst j). }
  pose proof (inv_pool _ I) as Ip. destruct (c_idle c) as [|idle] eqn:Ei.
  2: { right; left. exists Pick. cbn. unfold pick. rewrite Ei, Ew, Hcl. by eexists. }
  pose proof (inv_em _ I) as Ie. unfold em_inv, queue_inv in Ie.
  destruct (c_em c) as [k|k|k|k b|k res|res|res|res] eqn:Ee; [..|left; by exists res];
    lazymatch goal with
    | _ : _ = EmCopy _ |- _ => idtac
    | _ => right; left; exists (Emit true); cbn; unfold emit, release; rewrite Ee, ?Hd, ?Hm
    end.
  - case_decide; by eexists.
  - destruct (emit_write _ c) as [[] ?]; by eexists.
  - destruct Ie as (_ & _ & _ & [p pc] & Hk & Ho). cbn in Ho.
    destruct (p_chunks p) as [|b l] eqn:Hc.
    2: { right; left. exists (Emit true). cbn. unfold emit. rewrite Ee, Hk, Hc. by eexists. }
    destruct (p_closed p) eqn:Hpc.
    { right; left. exists (Emit true). cbn. unfold emit. rewrite Ee, Hk, Hc, Hpc.
      destruct (p_err p); by eexists. }
    right; right; right. exists k, p. pose proof (pi_closed _ _ _ _ _ _ _ _ (inv_pay _ I _ _ _ Hk) Ho) as Pc.
    assert (pc = RNone) as ->.
    { destruct (Hall _ _ Hk) as [Hx|[Hx|(E & _)]]; [|destruct Hex; apply Exists_exists; eexists; split;
        [by eapply list_elem_of_lookup_2|done]|congruence]. cbn in Hx.
      destruct pc; try done. destruct Pc as [_ Pc]. by rewrite Pc in Hpc. }
    rewrite Ew. split_and!; try done. by apply not_elem_of_nil.
  - destruct (emit_write _ c) as [[] ?]; by eexists.
  - destruct (c_window c); [lia|]. by eexists.
  - by eexists.
  - rewrite decide_True by lia. rewrite Hcl. by eexists.
Qed.

(* ------------------------------------------------------------------ *)
(** ** Termination *)

(** Zero chunks for [m] bytes of padding. *)
Definition pads (m : Z) : nat := Z.to_nat ((m + copyChunk - 1) / copyChunk).

Lemma pads_mono a b : a <= b -> (pads a <= pads b)%nat.
Proof.
  intros. unfold pads.
  assert ((a + copyChunk - 1) / copyChunk <= (b + copyChunk - 1) / copyChunk)
    by (apply Z.div_le_mono; unfold copyChunk; lia). lia.
Qed.

Lemma pads_step m : 0 < m -> pads m = S (pads (m - Z.min copyChunk m)).
Proof.
  intros Hm. unfold pads, copyChunk. destruct (Z.le_gt_cases m 1048576).
  - rewrite Z.min_r by done. rewrite Z.sub_diag.
    assert ((m + 1048576 - 1) / 1048576 = 1) as -> by (symmetry; apply (Z.div_unique _ _ _ (m - 1)); lia).
    by assert ((0 + 1048576 - 1) / 1048576 = 0) as -> by (by apply Z.div_small).
  - rewrite Z.min_l by lia. replace (m + 1048576 - 1) with (m - 1048576 + 1048576 - 1 + 1 * 1048576) by lia.
    rewrite Z.div_add by lia.
    assert (0 <= (m - 1048576 + 1048576 - 1) / 1048576) by (apply Z.div_pos; lia). lia.
Qed.

(** Steps a payload still needs; a chunk in its channel needs two. *)
Definition start_weight (p : asyncPayload) : nat :=
  (6 * rsize (default [] (payload_reader p)) + 5 * pads (p_size p) + 11)%nat.

Definition pc_weight (p : asyncPayload) (pc : read_pc) : nat :=
  match pc with
  | RNone => start_weight p
  | RLoop false _ m r a => (6 * rsize r + 5 * pads m + match a with AHold => 9 | _ => 10 end)%nat
  | RSend false _ m r _ None => (6 * rsize r + 5 * pads m + 13)%nat
  | RSend false _ m _ _ (Some _) => (5 * pads m + 6)%nat
  | RLoop true _ m _ AHold => (5 * pads (m - Z.max 0 (Z.min copyChunk m)) + 7)%nat
  | RLoop true _ m _ _ => (5 * pads m + 3)%nat
  | RSend true _ m _ b _ => (5 * pads (m - zlen b) + 6)%nat
  | RCheck _ _ => 2
  | RClose => 1
  | RDone => 0
  end.

Definition weight (x : asyncPayload * read_pc) : nat := (2 * length (p_chunks x.1) + pc_weight x.1 x.2)%nat.

(** Steps inside [acquire] before a wait. *)
Definition tries (x : asyncPayload * read_pc) : nat :=
  match x.2 with RLoop _ _ _ _ ATop => 2 | RLoop _ _ _ _ AArm => 1 | _ => 0 end.

(** Past its test, a loop has bytes to deliver. *)
Definition hold_ok (x : asyncPayload * read_pc) : Prop :=
  match x.2 with RLoop _ _ m _ AHold => 0 < m | _ => True end.

Lemma after_read_weight p f m r e : 
  (weight (after_read p f m r e) <=
    2 * length (p_chunks p) + match e with None => 6 * rsize r + 5 * pads m + 10 | _ => 5 * pads m + 3 end)%nat.
Proof. unfold weight, after_read. repeat case_match; cbn; lia. Qed.

Lemma reading_weight k done bud p pc bud' wk x :
  reading k done bud p pc bud' wk x -> hold_ok (p, pc) ->
  hold_ok x /\
  ((weight x < weight (p, pc))%nat \/
   (wk = false /\ weight x = weight (p, pc) /\ (tries x < tries (p, pc))%nat)).
Proof.
  intros H Hok. inversion H; subst; unfold hold_ok in *; cbn [fst snd] in Hok;
    try (split; [done|]).
  - left. unfold weight. cbn. destruct pad; lia.
  - left. unfold weight. cbn. destruct pad; lia.
  - right. split; [done|]. unfold weight, tries. cbn. destruct pad; lia.
  - left. unfold weight. cbn. destruct pad; [|lia]. rewrite (pads_step m), (Z.max_r 0) by (unfold copyChunk; lia). lia.
  - right. split; [done|]. unfold weight, tries. cbn. destruct pad; lia.
  - split. { unfold after_read. repeat case_match; done. }
    left. pose proof (after_read_weight p f m r' e) as Hw. revert Hw.
    generalize (weight (after_read p f m r' e)). intros w Hw. unfold weight. cbn.
    destruct e as [e|]; [lia|].
    apply Read_rsize in H0; [|unfold copyChunk; lia]. lia.
  - left. unfold weight. cbn. destruct e as [e|]; [lia|].
    apply Read_rsize in H0; [|unfold copyChunk; lia]. lia.
  - left. unfold weight. cbn. rewrite length_replicate.
    replace (Z.of_nat (Z.to_nat (Z.min copyChunk m))) with (Z.max 0 (Z.min copyChunk m)) by lia. lia.
  - left. unfold weight. cbn. destruct pad; [lia|]. destruct e; lia.
  - split. { unfold after_read. repeat case_match; done. }
    left. pose proof (after_read_weight (set_chunks (p_chunks p ++ [b]) p) (f + zlen b) (m - zlen b) r e) as Hw.
    revert Hw. generalize (weight (after_read (set_chunks (p_chunks p ++ [b]) p) (f + zlen b) (m - zlen b) r e)).
    intros w Hw. cbn in Hw. rewrite length_app in Hw. cbn in Hw.
    pose proof (pads_mono (m - zlen b) m ltac:(lia)). unfold weight. cbn. destruct e; lia.
  - left. unfold weight. cbn. rewrite length_app. cbn. lia.
  - left. unfold weight. cbn. lia.
  - left. unfold weight. cbn. lia.
Qed.

Definition unbound (k : nat) : nat := sum_list_with (fun n => start_weight (bind fs n)) (drop k nodes).

Definition disp_weight (d : dispatch_pc) : nat :=
  match d with
  | DSelect k => (4 * (length nodes - k) + 1 + unbound k)%nat
  | DBind k => (4 * (length nodes - k) + unbound k)%nat
  | DDeliver k => (4 * (length nodes - k) - 1 + unbound (S k))%nat
  | DWork k => (4 * (length nodes - k) - 2 + unbound (S k))%nat
  | DExit _ => 0
  end.

Definition em_weight (e : emit_pc) : nat :=
  match e with
  | EmNext k => (4 * (length nodes - k) + 4)%nat
  | EmOpened k | EmWrite k _ => (4 * (length nodes - k) + 3)%nat
  | EmCopy k => (4 * (length nodes - k) + 2)%nat
  | EmClose k _ => (4 * (length nodes - k) + 1)%nat
  | EmCancel _ => 3
  | EmWait _ => 2
  | EmEnd _ => 1
  end.

Definition base (c : config) : nat :=
  (sum_list_with weight (c_pays c) + disp_weight (c_disp c) + em_weight (c_em c) +
   (workers - c_exited c) + (if c_done c then 0 else 1) + (if c_bcast c then 0 else 1))%nat.

Definition total_tries (c : config) : nat := sum_list_with tries (c_pays c).

Definition measure (c : config) : nat := (base c * (2 * length nodes + 1) + total_tries c)%nat.

Lemma weight_wake p pc : weight (p, wake_pc pc) = weight (p, pc).
Proof. unfold weight. destruct pc as [|[] f m r []|pad f m r b e| | |]; done. Qed.

Lemma tries_bound ps : (sum_list_with tries ps <= 2 * length ps)%nat.
Proof.
  induction ps as [|[p pc] ps IH]; [done|]. cbn [sum_list_with length].
  assert (tries (p, pc) <= 2)%nat by (unfold tries; repeat case_match; lia). lia.
Qed.

Definition holds_ok (c : config) : Prop := Forall hold_ok (c_pays c).

Lemma holds_wake ps : Forall hold_ok ps -> Forall hold_ok (wake ps).
Proof.
  intros H. unfold wake. apply Forall_fmap. eapply Forall_impl; [exact H|].
  intros [p pc]. unfold hold_ok. cbn. destruct pc as [|pad f m r []| | | |]; done.
Qed.

Lemma measure_base c c' : inv c' -> (base c' < base c)%nat -> (measure c' < measure c)%nat.
Proof.
  intros I' Hb. unfold measure, total_tries. pose proof (tries_bound (c_pays c')).
  pose proof (delivered_bound _ I') as [_ ?]. nia.
Qed.

Lemma exited_le c : inv c -> (c_exited c <= workers)%nat.
Proof. intros I. pose proof (inv_pool _ I). lia. Qed.

(** A change to one payload's flags. *)
Lemma on_pay_weight f (c : config) k : (forall p pc, weight (f p, pc) = weight (p, pc)) ->
  (forall p pc, hold_ok (p, pc) -> hold_ok (f p, pc)) -> holds_ok c ->
  sum_list_with weight (c_pays (on_pay k f c)) = sum_list_with weight (c_pays c) /\
  holds_ok (on_pay k f c).
Proof.
  intros Hf Hh Hc. unfold holds_ok, on_pay in *. cbn.
  destruct (c_pays c !! k) as [[p pc]|] eqn:Hk.
  - rewrite (on_pay_insert _ _ _ p pc Hk). split.
    + pose proof (sum_insert weight _ _ _ (f p, pc) Hk). rewrite Hf in *. lia.
    + apply Forall_insert; [done|]. apply Hh. by eapply (Forall_lookup_1 _ _ k) in Hc.
  - assert (forall g : asyncPayload * read_pc -> asyncPayload * read_pc, alter g k (c_pays c) = c_pays c) as ->; [|done].
    intros g. apply list_eq. intros j. destruct (decide (j = k)) as [->|];
      [by rewrite list_lookup_alter_eq, Hk|by rewrite list_lookup_alter_ne].
Qed.

Lemma dispatch_weight alt c c' : inv c -> holds_ok c ->
  dispatch fs nodes workers alt c = Some c' -> holds_ok c' /\ (base c' < base c)%nat.
Proof.
  intros I Hh H. pose proof (inv_disp _ I) as Id.
  assert (forall k f, (f = close_fd \/ f = set_closed) ->
    sum_list_with weight (c_pays (on_pay k f c)) = sum_list_with weight (c_pays c) /\
    holds_ok (on_pay k f c)) as Hon.
  { intros k f Hf. apply on_pay_weight; [by destruct Hf as [-> | ->]|by destruct Hf as [-> | ->]|done]. }
  unfold dispatch in H. unfold base. destruct (c_disp c) as [k|k|k|k|k] eqn:Ed; cbn in Id.
  - destruct (nodes !! k) as [n|] eqn:Hn.
    + destruct alt; [destruct (c_done c) eqn:Hd; [|done]|case_decide; [|done]]; injection H as <-; cbn;
        rewrite ?Hd; (split; [done|]); lia.
    + injection H as <-. cbn. split; [done|]. lia.
  - destruct (nodes !! k) as [n|] eqn:Hn; [|done]. injection H as <-.
    cbn [with_disp with_binds with_pays c_pays c_disp c_em c_exited c_done c_bcast disp_weight]. split.
    + apply Forall_app. split; [done|]. by apply Forall_singleton.
    + assert (unbound k = (start_weight (bind fs n) + unbound (S k))%nat) as ->
        by (unfold unbound; by rewrite (drop_S _ _ _ Hn)).
      rewrite sum_list_with_app. cbn [sum_list_with].
      assert (weight (bind fs n, RNone) = start_weight (bind fs n)) as ->
        by (unfold weight, bind; repeat case_match; done).
      lia.
  - destruct alt.
    + destruct (c_done c) eqn:Hd; [|done]. injection H as <-.
      destruct (Hon k close_fd) as [E Hk]; [by left|]. split; [exact Hk|]. cbn in *. rewrite E, Hd. lia.
    + case_decide; [|done]. destruct (c_pays _ !! k) as [[p pc]|]; [|done].
      destruct (p_openErr p); injection H as <-.
      * destruct (Hon k set_closed) as [E Hk]; [by right|]. split; [exact Hk|]. cbn in *. rewrite E. lia.
      * split; [exact Hh|]. cbn. lia.
  - destruct alt.
    + destruct (c_done c) eqn:Hd; [|done]. injection H as <-.
      destruct (Hon k close_fd) as [E Hk]; [by left|]. split; [exact Hk|]. cbn in *. rewrite E, Hd. lia.
    + case_decide; [|done]. injection H as <-. split; [exact Hh|]. cbn. lia.
  - done.
Qed.

Lemma pick_weight c c' : inv c -> holds_ok c -> pick c = Some c' ->
  holds_ok c' /\ (base c' < base c)%nat.
Proof.
  intros I Hh H. pose proof (inv_pool _ I) as Ip. unfold pick in H.
  destruct (c_idle c) as [|idle] eqn:Ei; [done|]. destruct (c_work c) as [|k wrk].
  { destruct (work_closed c); [|done]. injection H as <-. split; [done|]. unfold base. cbn. lia. }
  destruct (c_pays c !! k) as [[p []]|] eqn:Hk; try done.
  destruct (payload_reader p) as [r|] eqn:Hr; [|done]. injection H as <-.
  pose proof (sum_insert weight _ _ _ (p, RLoop false 0 (p_size p) r ATop) Hk) as Hs. split.
  - apply Forall_insert; done.
  - unfold base. cbn [with_pool with_queues with_pays c_pays c_disp c_em c_exited c_done c_bcast].
    assert (weight (p, RLoop false 0 (p_size p) r ATop) < weight (p, RNone))%nat.
    { unfold weight, pc_weight, start_weight. cbn [fst snd]. rewrite Hr. change (default [] (Some r)) with r. lia. }
    lia.
Qed.

Lemma work_weight k alt c c' : inv c -> holds_ok c -> work k alt c = Some c' ->
  holds_ok c' /\ ((base c' < base c)%nat \/
    (base c' = base c /\ (total_tries c' < total_tries c)%nat)).
Proof.
  intros I Hh H. unfold work in H. destruct (c_pays c !! k) as [[p pc]|] eqn:Hk; [|done].
  destruct (read_step _ _ _ _ p pc) as [[[bud' wk] [p' pc']]|] eqn:Hs; [|done]. injection H as <-.
  apply read_step_reading in Hs.
  assert (hold_ok (p, pc)) as Hok by (by eapply (Forall_lookup_1 _ _ k) in Hh).
  destruct (reading_weight _ _ _ _ _ _ _ _ Hs Hok) as [Hok' Hw].
  pose proof (sum_insert weight _ _ _ (p', pc') Hk) as Sw.
  pose proof (sum_insert tries _ _ _ (p', pc') Hk) as St.
  fold (stepped wk (<[k := (p', pc')]> (c_pays c))).
  assert (Forall hold_ok (<[k := (p', pc')]> (c_pays c))) as Hh' by by apply Forall_insert.
  split; [destruct wk; [by apply holds_wake|done]|]. unfold base, total_tries.
  cbn [with_pool with_bud with_pays c_pays c_disp c_em c_exited c_done c_bcast].
  assert (sum_list_with weight (stepped wk (<[k := (p', pc')]> (c_pays c))) =
          sum_list_with weight (<[k := (p', pc')]> (c_pays c))) as ->
    by (destruct wk; [apply wake_sum, weight_wake|done]).
  destruct Hw as [Hw|(-> & Hw & Ht)]; [left; lia|]. right; cbn [stepped]; split; lia.
Qed.

Lemma emit_weight alt c c' : inv c -> holds_ok c ->
  emit nodes workers hdr alt c = Some c' -> holds_ok c' /\ (base c' < base c)%nat.
Proof.
  intros I Hh H. pose proof (inv_em _ I) as Ie. unfold em_inv in Ie. unfold emit in H. unfold base.
  assert (sum_list_with weight (wake (c_pays c)) = sum_list_with weight (c_pays c)) as Hw
    by apply wake_sum, weight_wake.
  assert (Forall hold_ok (wake (c_pays c))) as Hwk by by apply holds_wake.
  destruct (c_em c) as [k|k|k|k b|k res|res|res|res] eqn:Ee.
  - case_decide; [injection H as <-; cbn; split; [done|]; lia|].
    destruct alt; [destruct (c_done c) eqn:Hd; [|done]; injection H as <-; cbn; rewrite Hd; split; [done|]; lia|].
    destruct (c_delivery c) as [|j del]; [done|].
    destruct (c_pays c !! j) as [[p pc]|]; [|done].
    case_decide; [|injection H as <-; cbn; split; [done|]; lia].
    destruct (p_openErr p).
    + destruct (c_window _); [done|]. injection H as <-. cbn. split; [done|]. lia.
    + destruct (setHead _ _); [|done]. injection H as <-. cbn. rewrite Hw. split; [done|]. lia.
  - destruct (emit_write _ c) as [[] ?]; injection H as <-; cbn; (split; [done|]; lia).
  - destruct (c_pays c !! k) as [[p pc]|] eqn:Hk; [|done].
    destruct (p_chunks p) as [|b l] eqn:Hc.
    + destruct (p_closed p); [|done]. destruct (p_err p); injection H as <-; cbn; (split; [done|]; lia).
    + injection H as <-. unfold on_pay. cbn. rewrite (on_pay_insert _ _ _ p pc Hk).
      pose proof (sum_insert weight _ _ _ (set_chunks l p, pc) Hk) as Sw. split.
      * apply Forall_insert; [done|]. eapply (Forall_lookup_1 _ _ k) in Hh; [|done]. exact Hh.
      * assert (weight (p, pc) = weight (set_chunks l p, pc) + 2)%nat; [|lia].
        assert (pc_weight (set_chunks l p) pc = pc_weight p pc) as Ep by by destruct pc.
        unfold weight. cbn [fst snd set_chunks p_chunks]. change (pc_weight _ pc) with (pc_weight (set_chunks l p) pc) at 2.
        rewrite Hc, Ep. cbn [length]. lia.
  - destruct (release _); [|done].
    destruct (emit_write _ c) as [[] ?]; injection H as <-; cbn; rewrite Hw; (split; [done|]); lia.
  - destruct (c_window c); [done|]. injection H as <-. destruct res as [[]|e]; cbn; (split; [done|]); lia.
  - injection H as <-. cbn. split; [done|]. destruct (c_done c); lia.
  - case_decide; [|done]. destruct (work_closed c); [|done]. injection H as <-. cbn. split; [done|]. lia.
  - done.
Qed.

(** Every step brings the end nearer. *)
Lemma fire_measure ev c c' : inv c -> holds_ok c -> fire fs nodes workers hdr ev c = Some c' ->
  holds_ok c' /\ (measure c' < measure c)%nat.
Proof.
  intros I Hh H. pose proof (fire_inv _ _ _ I H) as I'.
  assert (holds_ok c' /\ (base c' < base c)%nat -> holds_ok c' /\ (measure c' < measure c)%nat) as Hb.
  { intros [? ?]. split; [done|]. by apply measure_base. }
  destruct ev as [alt| |k alt|alt| |]; cbn in H.
  - by eapply Hb, dispatch_weight.
  - by eapply Hb, pick_weight.
  - destruct (work_weight _ _ _ _ I Hh H) as [? [?|[E ?]]]; [by apply Hb|]. split; [done|].
    unfold measure. rewrite E. lia.
  - by eapply Hb, emit_weight.
  - destruct (c_done c) eqn:E; [done|]. injection H as <-. apply Hb. split; [done|].
    unfold base. cbn. rewrite E. lia.
  - destruct (c_done c) eqn:E; [|done]. destruct (c_bcast c) eqn:Eb; [done|]. injection H as <-.
    apply Hb. split; [by apply holds_wake|]. unfold base. cbn. rewrite E, Eb.
    rewrite wake_sum by apply weight_wake. lia.
Qed.

Lemma run_measure sched c c' : inv c -> holds_ok c -> run fs nodes workers hdr sched c = Some c' ->
  holds_ok c' /\ (length sched + measure c' <= measure c)%nat.
Proof.
  revert c. induction sched as [|ev sched IH]; intros c I Hh H; cbn in H; [by simplify_eq|].
  destruct (fire _ _ _ _ ev c) as [c1|] eqn:Hf; [|done].
  destruct (fire_measure _ _ _ I Hh Hf) as [Hh1 Hm].
  destruct (IH c1 (fire_inv _ _ _ I Hf) Hh1 H) as [? ?]. split; [done|]. cbn. lia.
Qed.

Lemma run_over sched c c' : over_inv c -> run fs nodes workers hdr sched c = Some c' -> over_inv c'.
Proof.
  revert c. induction sched as [|ev sched IH]; intros c I H; cbn in H; [by simplify_eq|].
  destruct (fire _ _ _ _ ev c) as [c1|] eqn:Hf; [|done]. eapply IH; [|done]. by eapply fire_over.
Qed.

End invariant.
