(* ===== verification/AsyncSpec.v ===== *)
(** * The asynchronous source against the synchronous one

    What a schedule of archive/async.go delivers is what archive/payload.go
    writes: each program point of [read] is related to the rest of the
    synchronous copy of the same payload, and the emitter to the rest of the
    sequential emission.  Then the properties of the system: equivalence,
    bounds, termination, progress, and the two schedules on which a canceled
    system does not come to its end. *)

From S2P Require Import Prelude Format Io Tree Payload Async.
Local Open Scope Z_scope.

(* ------------------------------------------------------------------ *)
(** ** A payload as the writes its copy makes *)

(** The first loop of [copyExactly]: the writes, and how it ends. *)
Fixpoint src_script (fuel : nat) (size from : Z) (r : reader) :
    list bytes * result gen_error (Z * reader) :=
  if negb (from <? size) then ([], Ok (from, r)) else
  match fuel with
  | O => ([], Ok (from, r))
  | S fuel =>
      let '(b, e, r) := Read (Z.to_nat (Z.min (size - from) copyChunk)) r in
      let out := if decide (b = []) then [] else [b] in
      let from := from + zlen b in
      match e with
      | Some EOF => (out, Ok (from, r))
      | Some e => (out, Err (ErrReading e))
      | None => let '(l, res) := src_script fuel size from r in (out ++ l, res)
      end
  end.

(** The padding loop. *)
Fixpoint pad_script (fuel : nat) (pad : Z) : list bytes :=
  if negb (0 <? pad) then [] else
  match fuel with
  | O => []
  | S fuel =>
      let n := Z.min pad copyChunk in
      replicate (Z.to_nat n) nul :: pad_script fuel (pad - n)
  end.

(** Writes in sequence, up to the first that fails. *)
Fixpoint cw_all (l : list bytes) (w : countWriter) : result gen_error unit * countWriter :=
  match l with
  | [] => (Ok (), w)
  | b :: l =>
      match cw_write b w with
      | (Err e, w) => (Err e, w)
      | (Ok _, w) => cw_all l w
      end
  end.

(** What a copy makes of a writer. *)
Definition run_script (s : list bytes * result gen_error (list Warning)) (w : countWriter) :
    result gen_error (list Warning) * countWriter :=
  match cw_all s.1 w with
  | (Err e, w) => (Err e, w)
  | (Ok _, w) => (s.2, w)
  end.

Definition prefixed (l : list bytes) (s : list bytes * result gen_error (list Warning)) :=
  (l ++ s.1, s.2).

Lemma prefixed_nil s : prefixed [] s = s.
Proof. by destruct s. Qed.
Lemma prefixed_app l k s : prefixed l (prefixed k s) = prefixed (l ++ k) s.
Proof. unfold prefixed. cbn. by rewrite app_assoc. Qed.

Lemma cw_all_app l k w : cw_all (l ++ k) w =
  match cw_all l w with (Ok _, w) => cw_all k w | (Err e, w) => (Err e, w) end.
Proof.
  revert w. induction l as [|b l IH]; intros w; cbn; [done|].
  destruct (cw_write b w) as [[[]|e] w1]; [apply IH|done].
Qed.

Lemma run_prefixed l s w : run_script (prefixed l s) w =
  match cw_all l w with (Ok _, w) => run_script s w | (Err e, w) => (Err e, w) end.
Proof.
  unfold run_script, prefixed. cbn. rewrite cw_all_app. by destruct (cw_all l w) as [[[]|e] w1].
Qed.

Lemma src_script_fuel fuel size from r : (rsize r < fuel)%nat ->
  src_script fuel size from r = src_script (S (rsize r)) size from r.
Proof.
  assert (forall n f1 f2 from r, (rsize r <= n)%nat -> (rsize r < f1)%nat -> (rsize r < f2)%nat ->
    src_script f1 size from r = src_script f2 size from r) as H.
  { clear. induction n as [|n IH]; intros [|f1] [|f2] from r Hn H1 H2; try lia; cbn [src_script];
      (destruct (Z.ltb_spec from size) as [Hlt|]; [|done]); cbn [negb];
      destruct (Read _ r) as [[b e] r'] eqn:HR; (destruct e as [[]|]; [done..|]);
      (apply Read_rsize in HR; [|unfold copyChunk; lia]); [lia|].
    by rewrite (IH f1 f2) by lia. }
  intros Hf. by apply (H (rsize r)); lia.
Qed.

Lemma pad_script_fuel fuel m : (pads m <= fuel)%nat -> pad_script fuel m = pad_script (pads m) m.
Proof.
  revert fuel m. assert (forall n fuel m, (pads m <= n)%nat -> (pads m <= fuel)%nat ->
    pad_script fuel m = pad_script n m) as H.
  { induction n as [|n IH]; intros fuel m Hn Hf.
    - assert (m <= 0) by (destruct (Z.le_gt_cases m 0); [done|]; rewrite pads_step in Hn by lia; lia).
      destruct fuel; cbn [pad_script]; destruct (Z.ltb_spec 0 m); cbn; done || lia.
    - destruct (Z.lt_ge_cases 0 m) as [Hm|Hm].
      + rewrite pads_step, Z.min_comm in Hn, Hf by done. destruct fuel as [|fuel]; [lia|]. cbn [pad_script].
        case_match; [done|]. f_equal. apply IH; lia.
      + destruct fuel; cbn [pad_script]; destruct (Z.ltb_spec 0 m); cbn; done || lia. }
  intros fuel m Hf. by apply H.
Qed.

(** [copyExactly] makes exactly the writes of its scripts. *)
Lemma copy_source_script fuel size from r w :
  let '(l, res) := src_script fuel size from r in
  match copy_source fuel size from r w, cw_all l w with
  | (res', r', w'), (Err e, w1) => res' = Err e /\ w' = w1
  | (res', r', w'), (Ok _, w1) => w' = w1 /\
      match res with Err e => res' = Err e | Ok (n, r1) => res' = Ok n /\ r' = r1 end
  end.
Proof.
  revert from r w. induction fuel as [|fuel IH]; intros from r w; cbn [src_script copy_source].
  { by destruct (negb _). }
  destruct (negb _); [done|]. destruct (Read _ r) as [[b e] r'].
  case_decide as Hb; cbn zeta.
  - destruct e as [[]|]; try done. specialize (IH (from + zlen b) r' w).
    destruct (src_script fuel size _ r') as [l res]. exact IH.
  - destruct (cw_write b w) as [[[]|e1] w1] eqn:Hw.
    + destruct e as [[]|]; cbn; rewrite ?Hw; try done. specialize (IH (from + zlen b) r' w1).
      destruct (src_script fuel size _ r') as [l res]. cbn. by rewrite Hw.
    + destruct e as [[]|]; cbn; rewrite ?Hw; try done.
      destruct (src_script fuel size _ r') as [l res]. cbn. by rewrite Hw.
Qed.

Lemma zero_fill_script fuel pad w : zero_fill fuel pad w = cw_all (pad_script fuel pad) w.
Proof.
  revert pad w. induction fuel as [|fuel IH]; intros pad w; cbn [zero_fill pad_script];
    (destruct (negb _); [done|]); [done|]. cbn [cw_all].
  destruct (cw_write _ w) as [[[]|e] w1]; [apply IH|done].
Qed.

Lemma pads_fuel m : (pads m <= S (Z.to_nat (m / copyChunk)))%nat.
Proof.
  unfold pads. assert ((m + copyChunk - 1) / copyChunk <= m / copyChunk + 1); [|lia].
  apply Z.lt_succ_r. apply Z.div_lt_upper_bound; [unfold copyChunk; lia|].
  pose proof (Z.mul_succ_div_gt m copyChunk). unfold copyChunk in *. lia.
Qed.

(* ------------------------------------------------------------------ *)
(** ** The rest of a copy at each point of [read] *)

Section scripts.
Context (p : asyncPayload).

(** After the first loop. *)
Definition tail_rest (from : Z) (r : reader) : list bytes * result gen_error (list Warning) :=
  let pad := p_size p - from in
  (pad_script (pads pad) pad,
   Ok ((if 0 <? pad then [WarnSizeChanged (warnPath p) (p_size p) from] else []) ++
       final_warns p from r)).

Definition loop_rest (from : Z) (r : reader) : list bytes * result gen_error (list Warning) :=
  let '(l, res) := src_script (S (rsize r)) (p_size p) from r in
  match res with
  | Err e => (l, Err e)
  | Ok (from, r) => prefixed l (tail_rest from r)
  end.

Definition read_rest (from : Z) (r : reader) (e : option ioerr) :
    list bytes * result gen_error (list Warning) :=
  match e with
  | Some EOF => tail_rest from r
  | Some e => ([], Err (ErrReading e))
  | None => loop_rest from r
  end.

Definition done_rest : list bytes * result gen_error (list Warning) :=
  ([], match p_err p with Some e => Err e | None => Ok (p_warns p) end).

(** What is still to be sent, and the end of the copy. *)
Definition rest (pc : read_pc) : list bytes * result gen_error (list Warning) :=
  match pc with
  | RNone => loop_rest 0 (default [] (payload_reader p))
  | RLoop false f _ r _ => loop_rest f r
  | RSend false f _ r b e => prefixed [b] (read_rest (f + zlen b) r e)
  | RLoop true f m r _ => (pad_script (pads m) m, Ok (p_warns p ++ final_warns p f r))
  | RSend true f m r b _ => prefixed [b] (pad_script (pads (m - zlen b)) (m - zlen b), Ok (p_warns p ++ final_warns p f r))
  | RCheck f r => ([], Ok (p_warns p ++ final_warns p f r))
  | RClose | RDone => done_rest
  end.

(** What a point of [read] knows. *)
Definition point_ok (pc : read_pc) : Prop :=
  match pc with
  | RNone => p_warns p = [] /\ p_err p = None
  | RLoop false f m _ _ => p_warns p = [] /\ p_err p = None /\ m = p_size p - f
  | RSend false f m _ _ _ => p_warns p = [] /\ p_err p = None /\ m = p_size p - f
  | RLoop true _ _ _ _ | RSend true _ _ _ _ _ | RCheck _ _ => p_err p = None
  | RClose | RDone => True
  end.

End scripts.

(** With what waits in the channel. *)
Definition pending (x : asyncPayload * read_pc) : list bytes * result gen_error (list Warning) :=
  prefixed (p_chunks x.1) (rest x.1 x.2).

(** The whole copy of a payload. *)
Definition payload_script (p : asyncPayload) : list bytes * result gen_error (list Warning) :=
  loop_rest p 0 (default [] (payload_reader p)).

Lemma pad_script_step m : 0 < m ->
  pad_script (pads m) m =
    replicate (Z.to_nat (Z.min copyChunk m)) nul ::
    pad_script (pads (m - Z.min copyChunk m)) (m - Z.min copyChunk m).
Proof.
  intros Hm. rewrite (pads_step m Hm). cbn [pad_script].
  destruct (Z.ltb_spec 0 m); [|lia]. cbn [negb]. by rewrite Z.min_comm.
Qed.

Lemma loop_rest_read p from r b e r' :
  0 < p_size p - from ->
  Read (Z.to_nat (Z.min copyChunk (p_size p - from))) r = (b, e, r') ->
  loop_rest p from r = prefixed (if decide (b = []) then [] else [b]) (read_rest p (from + zlen b) r' e).
Proof.
  intros Hlt HR. unfold loop_rest at 1. cbn [src_script].
  destruct (Z.ltb_spec from (p_size p)); [|lia]. cbn [negb]. rewrite Z.min_comm, HR.
  destruct e as [[]|]; cbn [read_rest].
  - done.
  - unfold prefixed. cbn. by rewrite app_nil_r.
  - unfold prefixed. cbn. by rewrite app_nil_r.
  - apply Read_rsize in HR; [|unfold copyChunk; lia].
    rewrite src_script_fuel by done. unfold loop_rest.
    destruct (src_script (S (rsize r')) (p_size p) (from + zlen b) r') as [l [[n r1]|e]]; cbn;
      unfold prefixed; cbn; [by rewrite app_assoc|done].
Qed.

(** Where a loop ends. *)
Lemma loop_rest_end p from r : p_size p - from <= 0 -> loop_rest p from r = tail_rest p from r.
Proof.
  intros Hle. unfold loop_rest. cbn [src_script]. destruct (Z.ltb_spec from (p_size p)); [lia|].
  cbn [negb]. apply prefixed_nil.
Qed.

Lemma tail_rest_end p from r : p_size p - from <= 0 -> tail_rest p from r = ([], Ok (final_warns p from r)).
Proof.
  intros Hle. unfold tail_rest. destruct (Z.ltb_spec 0 (p_size p - from)); [lia|].
  assert (forall n m, m <= 0 -> pad_script n m = []) as -> by
    (intros [|n] m Hm; cbn [pad_script]; destruct (Z.ltb_spec 0 m); done || lia); done.
Qed.

Lemma pending_after_read p f m r e : p_warns p = [] -> p_err p = None -> m = p_size p - f ->
  let x := after_read p f m r e in
  point_ok x.1 x.2 /\ pending x = prefixed (p_chunks p) (read_rest p f r e).
Proof.
  intros Hw He ->. unfold after_read, pending. destruct e as [[]|]; cbn [fst snd read_rest].
  - destruct (Z.ltb_spec 0 (p_size p - f)) as [Hlt|Hge]; cbn [fst snd]; (split; [done|]).
    + cbn. unfold tail_rest. rewrite (proj2 (Z.ltb_lt _ _) Hlt), Hw. done.
    + cbn. rewrite Hw. by rewrite tail_rest_end.
  - done.
  - done.
  - done.
Qed.

Lemma prefixed_eq l k s t : s = t -> l = k -> prefixed l s = prefixed k t.
Proof. congruence. Qed.

(** While the context lasts, a step of a reader changes nothing of what its
    payload delivers in the end. *)
Lemma reading_pending k bud p pc bud' wk x :
  reading k false bud p pc bud' wk x -> hold_ok (p, pc) -> point_ok p pc ->
  point_ok x.1 x.2 /\ pending x = pending (p, pc).
Proof.
  intros H Hok Hpt. inversion H; subst; unfold pending; cbn [fst snd]; try done.
  - destruct pad; cbn in Hpt; cbn [rest point_ok].
    + split; [done|]. assert (pad_script (pads m) m = []) as ->; [|done].
      unfold pads. destruct (Z.to_nat _); cbn [pad_script]; destruct (Z.ltb_spec 0 m); done || lia.
    + destruct Hpt as (Hw & He & ->). split; [done|]. rewrite Hw, loop_rest_end, tail_rest_end by lia. done.
  - cbn in Hpt. destruct Hpt as (Hw & He & ->).
    destruct (pending_after_read p f (p_size p - f) r' e Hw He eq_refl) as [Hp Hq]. split; [done|].
    unfold pending in Hq. rewrite Hq. cbn [rest]. f_equal.
    rewrite (loop_rest_read p f r [] e r' Hok H0). rewrite decide_True by done.
    by rewrite prefixed_nil, Z.add_0_r.
  - cbn in Hpt. destruct Hpt as (Hw & He & ->). split; [done|]. cbn [rest]. f_equal.
    rewrite (loop_rest_read p f r b e r' Hok H0). by rewrite decide_False.
  - cbn in Hpt. split; [done|]. cbn [rest]. f_equal. rewrite (pad_script_step m Hok).
    rewrite length_replicate, Z2Nat.id by (cbn in Hok; unfold copyChunk; lia). done.
  - cbn in Hpt. destruct Hpt as (Hw & He & ->).
    destruct (pending_after_read (set_chunks (p_chunks p ++ [b]) p) (f + zlen b) (p_size p - f - zlen b) r e)
      as [Hp Hq]; [done|done|cbn; lia|]. split; [done|]. unfold pending in Hq. rewrite Hq. cbn [rest].
    rewrite prefixed_app. done.
  - cbn in Hpt. split; [done|]. cbn [rest]. rewrite prefixed_app. done.
  - cbn in Hpt. split; [done|]. cbn. unfold done_rest. cbn. by rewrite Hpt.
Qed.

(** The synchronous source writes the same. *)
Definition node_ok (n : node) : Prop :=
  match n_Kind n with
  | KindStream => n_Path n = [] /\ n_Stream n <> None /\ 0 <= int64_of (st_Size (n_Stat n))
  | _ => n_Path n <> []
  end.

Lemma copyExactly_script size r w :
  let '(l, res) := src_script (S (rsize r)) size 0 r in
  match res with
  | Err e => match cw_all l w with
             | (Ok _, w1) => exists r', copyExactly size r w = (Err e, r', w1)
             | (Err e1, w1) => exists r', copyExactly size r w = (Err e1, r', w1) end
  | Ok (n, r1) =>
      match cw_all (l ++ pad_script (pads (size - n)) (size - n)) w with
      | (Ok _, w1) => copyExactly size r w = (Ok n, r1, w1)
      | (Err e1, w1) => exists r', copyExactly size r w = (Err e1, r', w1)
      end
  end.
Proof.
  pose proof (copy_source_script (S (rsize r)) size 0 r w) as H. unfold copyExactly.
  destruct (src_script (S (rsize r)) size 0 r) as [l res].
  destruct (copy_source (S (rsize r)) size 0 r w) as [[res' r'] w'].
  destruct (cw_all l w) as [[[]|e1] w1] eqn:Ew.
  - destruct H as [-> Hr]. destruct res as [[n r1]|e]; [|subst; eauto].
    destruct Hr as [-> ->]. rewrite cw_all_app, Ew, zero_fill_script,
      (pad_script_fuel (S (Z.to_nat ((size - n) / copyChunk)))) by apply pads_fuel.
    destruct (cw_all (pad_script _ _) w1) as [[[]|e] w2]; eauto.
  - destruct H as [-> ->]. destruct res as [[n r1]|e]; [|eauto]. rewrite cw_all_app, Ew. eauto.
Qed.

Lemma src_script_le fuel size from r l n r1 : from <= size ->
  src_script fuel size from r = (l, Ok (n, r1)) -> n <= size.
Proof.
  revert from r l. induction fuel as [|fuel IH]; intros from r l Hle H; cbn [src_script] in H.
  { destruct (negb _); by simplify_eq. }
  destruct (Z.ltb_spec from size) as [Hlt|]; cbn [negb] in H; [|by simplify_eq].
  pose proof (Read_length (Z.to_nat (Z.min (size - from) copyChunk)) r) as Hl.
  destruct (Read _ r) as [[b e] r'] eqn:HR. cbn in Hl.
  assert (from + zlen b <= size) by (unfold copyChunk in *; lia).
  destruct e as [[]|]; simplify_eq; [done|].
  destruct (src_script fuel size (from + zlen b) r') as [l' res] eqn:E. simplify_eq. by eapply IH.
Qed.

Lemma ltb_sub0 m size : (0 <? size - m) = (m <? size).
Proof. destruct (Z.ltb_spec 0 (size - m)), (Z.ltb_spec m size); lia. Qed.

Lemma sync_open_bind fs n : node_ok n ->
  match p_openErr (bind fs n) with
  | Some e => sync_open n fs = (Err e, fs)
  | None => exists pl, sync_open n fs = (Ok pl, fs) /\
      forall w, pl_Copy pl w = run_script (payload_script (bind fs n)) w
  end.
Proof.
  intros Hok. unfold node_ok in Hok. unfold sync_open, bind.
  destruct (decide (n_Kind n = KindStream)) as [Hk|Hk]; cbn [p_openErr].
  - rewrite Hk in Hok. destruct Hok as (Hp & Hs & Hsz). destruct (n_Stream n) as [r|] eqn:Er; [|done].
    eexists. split; [done|]. intros w. cbn [pl_Copy]. unfold streamPayload_Copy, payload_script, loop_rest.
    unfold payload_reader. cbn [p_f p_node]. rewrite Er. change (default [] (Some r)) with r.
    set (size := int64_of (st_Size (n_Stat n))) in *.
    pose proof (copyExactly_script size r w) as H. cbn [p_size].
    destruct (src_script (S (rsize r)) size 0 r) as [l [[m r1]|e]] eqn:Escr.
    + unfold tail_rest. cbn [p_size]. unfold run_script, prefixed. cbn [fst snd].
      destruct (cw_all (l ++ _) w) as [[[]|e1] w1]; [rewrite H|by destruct H as [r' ->]].
      rewrite ltb_sub0. unfold final_warns, warnPath. cbn [p_f p_node p_size].
      rewrite decide_True by done. apply src_script_le in Escr; [|done].
      destruct (Z.ltb_spec m size).
      * destruct (Z.eqb_spec m size); [lia|done].
      * destruct (Z.eqb_spec m size); [|lia]. by destruct (ReadFull 1 r1) as [[probe ?] ?].
    + unfold run_script. cbn [fst snd]. destruct (cw_all l w) as [[[]|e1] w1]; by destruct H as [r' ->].
  - assert (n_Path n <> []) as Hp by (by destruct (n_Kind n)).
    destruct (fs (n_Path n)) as [f|]; [|done]. destruct (f_stat f) as [[sz mt]|]; [|done]. cbn [p_openErr].
    eexists. split; [done|]. intros w. cbn [pl_Copy]. unfold filePayload_Copy, payload_script, loop_rest.
    unfold payload_reader. cbn [p_f p_node p_size]. change (default [] (Some (f_reader f))) with (f_reader f).
    set (size := int64_of sz) in *.
    pose proof (copyExactly_script size (f_reader f) w) as H.
    destruct (src_script (S (rsize (f_reader f))) size 0 (f_reader f)) as [l [[m r1]|e]] eqn:Escr.
    + unfold tail_rest. cbn [p_size]. unfold run_script, prefixed. cbn [fst snd].
      destruct (cw_all (l ++ _) w) as [[[]|e1] w1]; [rewrite H|by destruct H as [r' ->]].
      rewrite ltb_sub0. unfold final_warns, warnPath. cbn [p_f p_node p_size p_mtime].
      by rewrite decide_False.
    + unfold run_script. cbn [fst snd]. destruct (cw_all l w) as [[[]|e1] w1]; by destruct H as [r' ->].
Qed.

(* ------------------------------------------------------------------ *)
(** ** The emitter against the sequential one *)

Section simulation.
Context (fs : osfs) (nodes : list node) (workers : nat) (hdr : nat -> bytes) (budget : Z) (w0 : countWriter).
Hypothesis (nodes_ok : Forall node_ok nodes).

(** The sequential emitter from the content of payload [k] on. *)
Definition finish (k : nat) (s : list bytes * result gen_error (list Warning)) (ws : list Warning)
    (w : countWriter) : result gen_error unit * list Warning * countWriter :=
  match run_script s w with
  | (Err e, w) => (Err e, ws, w)
  | (Ok ws', w) => sync_emit fs hdr (S k) (drop (S k) nodes) (ws ++ ws') w
  end.

Definition pending_at (c : config) (k : nat) : list bytes * result gen_error (list Warning) :=
  match c_pays c !! k with Some x => pending x | None => ([], Ok []) end.

(** What the sequential emitter does from where the emitter is. *)
Definition cont (c : config) : result gen_error unit * list Warning * countWriter :=
  match c_em c with
  | EmNext k => sync_emit fs hdr k (drop k nodes) (c_warns c) (c_w c)
  | EmOpened k =>
      match cw_write (hdr k) (c_w c) with
      | (Err e, w) => (Err e, c_warns c, w)
      | (Ok _, w) => finish k (pending_at c k) (c_warns c) w
      end
  | EmCopy k => finish k (pending_at c k) (c_warns c) (c_w c)
  | EmWrite k b => finish k (prefixed [b] (pending_at c k)) (c_warns c) (c_w c)
  | EmClose k (Ok _) => sync_emit fs hdr (S k) (drop (S k) nodes) (c_warns c) (c_w c)
  | EmClose _ (Err e) => (Err e, c_warns c, c_w c)
  | EmCancel res | EmWait res | EmEnd res => (res, c_warns c, c_w c)
  end.

(** Payloads received from [delivery]. *)
Definition opened (e : emit_pc) : nat :=
  match e with
  | EmNext k => k
  | EmOpened k | EmCopy k | EmWrite k _ | EmClose k _ => S k
  | _ => length nodes
  end.

Definition over (e : emit_pc) : bool :=
  match e with EmWait _ | EmEnd _ => true | _ => false end.

Definition pay_data (o j : nat) (x : asyncPayload * read_pc) : Prop :=
  point_ok x.1 x.2 /\
  ((o <= j)%nat -> p_openErr x.1 = None ->
   exists n, nodes !! j = Some n /\ pending x = payload_script (bind fs n)).

Record data_inv (c : config) : Prop := {
  di_cont : cont c = sync_emit fs hdr 0 nodes [] w0;
  di_live : over (c_em c) = false -> c_done c = false;
  di_pay : c_done c = false -> forall j x, c_pays c !! j = Some x -> pay_data (opened (c_em c)) j x }.

Lemma pending_wake p pc : pending (p, wake_pc pc) = pending (p, pc) /\
  (point_ok p (wake_pc pc) <-> point_ok p pc).
Proof. destruct pc as [|[] f m r []|[] f m r b e| | |]; done. Qed.

(** Moves of the other goroutines, which keep what is pending. *)
Definition kept (c c' : config) : Prop :=
  forall j x, c_pays c !! j = Some x -> p_openErr x.1 = None ->
  exists y, c_pays c' !! j = Some y /\ pending y = pending x.

Lemma cont_kept c c' : inv fs nodes workers budget c -> kept c c' -> c_em c' = c_em c ->
  c_w c' = c_w c -> c_warns c' = c_warns c -> cont c' = cont c.
Proof.
  intros I Hk He Hw Hs. unfold cont. rewrite He, Hw, Hs.
  pose proof (inv_em _ _ _ _ _ I) as Ie. unfold em_inv in Ie. unfold pending_at.
  destruct (c_em c) as [k|k|k|k b|k res|res|res|res]; try done;
    (destruct Ie as (_ & _ & _ & x & Hx & Ho); destruct (Hk k x Hx Ho) as (y & -> & ->); by rewrite Hx).
Qed.

Lemma pay_data_eq o j x y : pay_data o j x -> p_openErr y.1 = p_openErr x.1 -> point_ok y.1 y.2 ->
  pending y = pending x -> pay_data o j y.
Proof. intros [Hp Hn] Ho Hpt Hy. split; [done|]. rewrite Ho, Hy. done. Qed.

(** Nothing to show once the emitter is over. *)
Lemma data_other c c' : inv fs nodes workers budget c -> over_inv c -> data_inv c ->
  c_em c' = c_em c -> c_w c' = c_w c -> c_warns c' = c_warns c -> c_done c' = c_done c ->
  (c_done c = false -> kept c c' /\
    forall j y, c_pays c' !! j = Some y -> pay_data (opened (c_em c)) j y) ->
  data_inv c'.
Proof.
  intros I Io [Hc Hl Hp] He Hw Hs Hd Hk. destruct (c_done c) eqn:E.
  - constructor; rewrite ?He, ?Hd; try done.
    rewrite <- Hc. unfold cont. rewrite He, Hw, Hs. destruct (c_em c); try done; by specialize (Hl eq_refl).
  - destruct (Hk eq_refl) as [Hk1 Hk2]. constructor; rewrite ?He, ?Hd; try done.
    by rewrite (cont_kept c c' I Hk1 He Hw Hs).
Qed.

(** One payload changes. *)
Lemma kept_insert c c' k x y : c_pays c !! k = Some x -> c_pays c' = <[k := y]> (c_pays c) ->
  (p_openErr x.1 = None -> pending y = pending x) -> kept c c'.
Proof.
  intros Hk E Hy j z Hj Ho. rewrite E. destruct (decide (j = k)) as [->|Hne].
  - rewrite list_lookup_insert_eq by by eapply lookup_lt_Some. simplify_eq. exists y. auto.
  - rewrite list_lookup_insert_ne by done. by exists z.
Qed.

Lemma data_insert c c' k x y : data_inv c -> c_done c = false -> c_pays c !! k = Some x ->
  c_pays c' = <[k := y]> (c_pays c) -> p_openErr y.1 = p_openErr x.1 -> point_ok y.1 y.2 ->
  (p_openErr x.1 = None -> pending y = pending x) ->
  forall j z, c_pays c' !! j = Some z -> pay_data (opened (c_em c)) j z.
Proof.
  intros D Hd Hk E Ho Hp Hy j z Hj. rewrite E in Hj.
  apply list_lookup_insert_Some in Hj as [(<- & <- & _)|[Hne Hj]]; [|by apply D].
  destruct (di_pay _ D Hd _ _ Hk) as [_ Hn]. split; [done|]. rewrite Ho. intros Hle Hno.
  rewrite Hy by done. by apply Hn.
Qed.

Lemma dispatch_data alt c c' : inv fs nodes workers budget c -> over_inv c -> data_inv c ->
  dispatch fs nodes workers alt c = Some c' -> data_inv c'.
Proof.
  intros I Io D H. pose proof (inv_disp _ _ _ _ _ I) as Id. unfold dispatch in H.
  assert (kept c c) as Hrefl by (intros j x Hj _; by exists x).
  assert (forall c1, c_pays c1 = c_pays c -> c_em c1 = c_em c -> c_w c1 = c_w c ->
    c_warns c1 = c_warns c -> c_done c1 = c_done c -> data_inv c1) as Hsame.
  { intros c1 E1 E2 E3 E4 E5. apply (data_other c); try done. intros Hd.
    split; [unfold kept; by rewrite E1|]. rewrite E1. by apply D. }
  assert (forall k f d, (f = close_fd \/ f = set_closed) -> (k < length (c_pays c))%nat ->
    data_inv (with_disp d (on_pay k f c))) as Hon.
  { intros k f d Hf Hl. apply lookup_lt_is_Some in Hl as [[p pc] Hk].
    assert (pending (f p, pc) = pending (p, pc) /\ p_openErr (f p) = p_openErr p /\
      (point_ok p pc -> point_ok (f p) pc)) as (F1 & F2 & F3)
      by (destruct Hf as [-> | ->]; destruct pc as [|[] ? ? ? ?|[] ? ? ? ? ?| | |]; done).
    assert (c_pays (with_disp d (on_pay k f c)) = <[k := (f p, pc)]> (c_pays c)) as E
      by (unfold on_pay; cbn; by apply on_pay_insert).
    apply (data_other c); try done. intros Hd. split; [by eapply kept_insert|].
    eapply data_insert; try done. by apply F3, (di_pay _ D Hd _ _ Hk). }
  destruct (c_disp c) as [k|k|k|k|k] eqn:Ed; cbn in Id.
  - destruct (nodes !! k); [|by simplify_eq; apply Hsame].
    destruct alt; [destruct (c_done c) eqn:Hd; [|done]|case_decide; [|done]]; injection H as <-;
      by apply Hsame.
  - destruct (nodes !! k) as [n|] eqn:Hn; [|done]. injection H as <-. apply (data_other c); try done.
    intros Hd. split.
    + intros j x Hj _. exists x. split; [|done]. by apply lookup_app_l_Some.
    + intros j y Hj. apply lookup_app_Some in Hj as [Hj|[Hl Hj]]; [by apply D|].
      destruct (j - length (c_pays c))%nat eqn:Ej; [|done]. injection Hj as <-.
      assert (j = k) as -> by lia. split; [unfold bind; repeat case_match; done|]. intros _ _.
      exists n. split; [done|]. unfold pending. cbn [fst snd].
      assert (p_chunks (bind fs n) = []) as -> by (unfold bind; repeat case_match; done). apply prefixed_nil.
  - destruct alt; [destruct (c_done c) eqn:Hd; [|done]; injection H as <-; apply Hon; [by left|lia]|].
    case_decide; [|done]. cbn [with_queues c_pays] in H.
    destruct (c_pays c !! k) as [[p pc]|] eqn:Hk; [|done].
    destruct (p_openErr p); injection H as <-; [|by apply Hsame].
    set (c1 := with_queues (c_window c) (c_delivery c ++ [k]) (c_work c) c).
    assert (data_inv (with_disp (DSelect (S k)) (on_pay k set_closed c))) as [Hc Hl Hp] by (apply Hon; [by right|lia]).
    constructor; cbn; [exact Hc|exact Hl|exact Hp].
  - destruct alt; [destruct (c_done c) eqn:Hd; [|done]; injection H as <-; apply Hon; [by left|lia]|].
    case_decide; [|done]. injection H as <-. by apply Hsame.
  - done.
Qed.

Lemma pick_data c c' : inv fs nodes workers budget c -> over_inv c -> data_inv c ->
  pick c = Some c' -> data_inv c'.
Proof.
  intros I Io D H. unfold pick in H. destruct (c_idle c) as [|idle]; [done|].
  destruct (c_work c) as [|k wrk].
  { destruct (work_closed c); [|done]. injection H as <-. destruct D as [Hc Hl Hp]. by constructor. }
  destruct (c_pays c !! k) as [[p []]|] eqn:Hk; try done.
  destruct (payload_reader p) as [r|] eqn:Hr; [|done]. injection H as <-.
  assert (pending (p, RLoop false 0 (p_size p) r ATop) = pending (p, RNone)) as Hp.
  { unfold pending. cbn. by rewrite Hr. }
  apply (data_other c); try done. intros Hd.
  destruct (di_pay _ D Hd _ _ Hk) as [[Hw He] _]. split; [by eapply kept_insert|].
  eapply data_insert; try done. cbn in *. split_and!; [done|done|lia].
Qed.

Lemma work_data k alt c c' : inv fs nodes workers budget c -> over_inv c -> holds_ok c -> data_inv c ->
  work k alt c = Some c' -> data_inv c'.
Proof.
  intros I Io Hh D H. unfold work in H. destruct (c_pays c !! k) as [[p pc]|] eqn:Hk; [|done].
  destruct (read_step _ _ _ _ p pc) as [[[bud' wk] x]|] eqn:Hs; [|done]. destruct x as [p' pc'].
  injection H as <-. apply read_step_reading in Hs.
  apply (data_other c); try done. intros Hd. rewrite Hd in Hs.
  destruct (reading_pending _ _ _ _ _ _ _ Hs) as [Hp He].
  { by eapply (Forall_lookup_1 _ _ k) in Hh. }
  { apply (di_pay _ D Hd _ _ Hk). }
  pose proof (reading_local _ _ _ _ _ _ _ _ _ Hs) as ((_ & _ & _ & _ & Ho) & _).
  set (c1 := with_pays (<[k := (p', pc')]> (c_pays c)) c).
  assert (kept c c1) as Hk1 by (by eapply kept_insert).
  assert (forall j y, c_pays c1 !! j = Some y -> pay_data (opened (c_em c)) j y) as Hp1
    by (eapply data_insert; done).
  destruct wk; [|done]. split.
  - intros j y Hj Hno. destruct (Hk1 j y Hj Hno) as ([q qc] & Hq & E).
    exists (q, wake_pc qc). split; [|by rewrite (proj1 (pending_wake q qc))].
    cbn [with_pool with_bud with_pays c_pays]. unfold wake. rewrite list_lookup_fmap.
    cbn [c1 with_pays c_pays] in Hq. by rewrite Hq.
  - intros j [q qc] Hj. apply wake_lookup in Hj as (qc0 & Hj & ->).
    eapply pay_data_eq; [by apply Hp1|done| |apply (pending_wake q qc0)].
    cbn. apply (pending_wake q qc0), (Hp1 _ _ Hj).
Qed.

(** The emitter's own moves that leave the payloads alone. *)
Lemma data_emit c c' : data_inv c -> cont c' = cont c -> c_done c' = c_done c ->
  (over (c_em c') = over (c_em c)) -> c_pays c' = c_pays c -> (opened (c_em c) <= opened (c_em c'))%nat ->
  data_inv c'.
Proof.
  intros [Hc Hl Hp] E1 E2 E3 E4 E5. constructor; rewrite ?E1, ?E2, ?E3, ?E4; try done.
  intros Hd j x Hj. destruct (Hp Hd j x Hj) as [Hpt Hn]. split; [done|]. intros Hle. apply Hn. lia.
Qed.

Lemma open_data k p pc bud del c : inv fs nodes workers budget c -> data_inv c -> c_em c = EmNext k ->
  c_pays c !! k = Some (p, pc) -> p_openErr p = None ->
  data_inv (with_em (EmOpened k) (with_bud bud (with_pays (wake (c_pays c))
    (with_queues (c_window c) del (c_work c) c)))).
Proof.
  intros I D Ee Hk Ho. assert (c_done c = false) as Hd by (apply D; by rewrite Ee).
  destruct (di_pay _ D Hd _ _ Hk) as [Hpt Hn]. rewrite Ee in Hn. cbn in Hn.
  destruct (Hn (le_n _) Ho) as (n & Hnk & Hpen).
  pose proof (inv_pay _ _ _ _ _ I _ _ _ Hk) as P. destruct (pi_static _ _ _ _ _ _ _ _ _ _ P) as (n' & Hn' & Hst).
  rewrite Hnk in Hn'. injection Hn' as <-.
  assert (node_ok n) as Hok by (by eapply (Forall_lookup_1 _ _ k) in nodes_ok).
  pose proof (sync_open_bind fs n Hok) as Hs. destruct Hst as (_ & _ & _ & _ & Hst).
  rewrite <- Hst, Ho in Hs. destruct Hs as (pl & Hs & Hcopy).
  constructor; cbn.
  - rewrite <- (di_cont _ D). unfold cont. cbn. rewrite Ee, (drop_S _ _ _ Hnk). cbn [sync_emit].
    rewrite Hs. destruct (cw_write (hdr k) (c_w c)) as [[[]|e] w]; [|done].
    unfold finish. rewrite Hcopy. unfold pending_at. cbn. unfold wake. rewrite list_lookup_fmap, Hk.
    cbn [fmap option_fmap option_map fst snd]. rewrite (proj1 (pending_wake p pc)), Hpen. done.
  - done.
  - intros _ j [q qc] Hj. apply wake_lookup in Hj as (qc0 & Hj & ->).
    apply (pay_data_eq _ _ (q, qc0)); [|done| |apply (pending_wake q qc0)].
    + destruct (di_pay _ D Hd _ _ Hj) as [Hq1 Hq2]. split; [exact Hq1|]. intros Hle. apply Hq2. rewrite Ee. cbn. lia.
    + cbn. apply (pending_wake q qc0). apply (di_pay _ D Hd _ _ Hj).
Qed.

(** [Copy]: a chunk is received, then written. *)
Lemma receive_data k p pc b l c : inv fs nodes workers budget c -> data_inv c -> c_em c = EmCopy k ->
  c_pays c !! k = Some (p, pc) -> p_chunks p = b :: l ->
  data_inv (with_em (EmWrite k b) (on_pay k (set_chunks l) c)).
Proof.
  intros I D Ee Hk Hc. assert (c_done c = false) as Hd by (apply D; by rewrite Ee).
  assert (k < length (c_pays c))%nat by by eapply lookup_lt_Some.
  unfold on_pay. rewrite (on_pay_insert _ _ _ p pc Hk).
  assert (forall q, rest (set_chunks q p) pc = rest p pc /\ (point_ok p pc -> point_ok (set_chunks q p) pc)) as Hr
    by (intros q; destruct pc as [|[] ? ? ? ?|[] ? ? ? ? ?| | |]; done).
  constructor; cbn.
  - rewrite <- (di_cont _ D). unfold cont. rewrite Ee. cbn. unfold pending_at. cbn.
    rewrite list_lookup_insert_eq, Hk by done. unfold pending. cbn [fst snd].
    rewrite (proj1 (Hr l)), prefixed_app. cbn. by rewrite Hc.
  - done.
  - intros _ j x Hj. apply list_lookup_insert_Some in Hj as [(<- & <- & _)|[Hne Hj]].
    + split; [apply Hr, (di_pay _ D Hd _ _ Hk)|]. intros Hle. lia.
    + pose proof (di_pay _ D Hd _ _ Hj) as Hx. by rewrite Ee in Hx.
Qed.

Lemma put_data k b bud c res w : inv fs nodes workers budget c -> data_inv c -> c_em c = EmWrite k b ->
  cw_write b (c_w c) = (res, w) ->
  data_inv (with_em (match res with Ok _ => EmCopy k | Err e => EmClose k (Err e) end)
    (with_out w (c_warns c) (with_bud bud (with_pays (wake (c_pays c)) c)))).
Proof.
  intros I D Ee Hw. assert (c_done c = false) as Hd by (apply D; by rewrite Ee).
  pose proof (inv_em _ _ _ _ _ I) as Ie. unfold em_inv in Ie. rewrite Ee in Ie.
  destruct Ie as (_ & _ & _ & [p pc] & Hk & _).
  constructor; cbn.
  - rewrite <- (di_cont _ D). unfold cont. cbn. rewrite Ee.
    assert (forall s ws w1, finish k (prefixed [b] s) ws w1 = match cw_write b w1 with
      | (Err e, w1) => (Err e, ws, w1) | (Ok _, w1) => finish k s ws w1 end) as ->.
    { intros s ws w1. unfold finish. rewrite run_prefixed. cbn [cw_all]. by destruct (cw_write b w1) as [[[]|] ?]. }
    rewrite Hw. destruct res as [[]|e]; [|done].
    unfold finish, pending_at. cbn. unfold wake. rewrite list_lookup_fmap, Hk.
    cbn [fmap option_fmap option_map fst snd]. by rewrite (proj1 (pending_wake p pc)).
  - by destruct res.
  - intros _ j [q qc] Hj. apply wake_lookup in Hj as (qc0 & Hj & ->).
    pose proof (di_pay _ D Hd _ _ Hj) as Hx. rewrite Ee in Hx.
    assert (opened (match res with Ok _ => EmCopy k | Err e => EmClose k (Err e) end) = S k) as -> by by destruct res.
    eapply pay_data_eq; [exact Hx|done|by apply (pending_wake q qc0), Hx|apply (pending_wake q qc0)].
Qed.

Lemma emit_data alt c c' : inv fs nodes workers budget c -> over_inv c -> data_inv c ->
  emit nodes workers hdr alt c = Some c' -> data_inv c'.
Proof.
  intros I Io D H. pose proof (inv_em _ _ _ _ _ I) as Ie. unfold em_inv in Ie. unfold emit in H.
  assert (over (c_em c) = false -> c_done c = false) as Hl by apply D.
  destruct (c_em c) as [k|k|k|k b|k res|res|res|res] eqn:Ee; cbn in Hl.
  - specialize (Hl eq_refl). destruct Ie as ((H1 & H2 & H3 & H4) & H5 & H6).
    case_decide as Hn.
    { injection H as <-. apply (data_emit c); rewrite ?Ee; try done.
      unfold cont. cbn. rewrite Ee, drop_ge by done. done. }
    rewrite Hl in H. destruct alt; [done|]. destruct (c_delivery c) as [|j del] eqn:Hq; [done|].
    destruct (delivered (c_disp c) - k)%nat as [|m]; [done|]. cbn in H2. injection H2 as -> ->.
    destruct (c_pays c !! k) as [[p pc]|] eqn:Hk; [|done]. rewrite decide_True in H by done.
    destruct (p_openErr p) as [e|] eqn:Ho.
    + cbn [with_queues c_window c_work] in H. destruct (c_window c) as [|win]; [done|]. injection H as <-.
      apply (data_emit c); rewrite ?Ee; try done.
      pose proof (inv_pay _ _ _ _ _ I _ _ _ Hk) as P.
      destruct (pi_static _ _ _ _ _ _ _ _ _ _ P) as (n & Hnk & _ & _ & _ & _ & Hst).
      pose proof (sync_open_bind fs n) as Hs. rewrite <- Hst, Ho in Hs.
      unfold cont. cbn. rewrite Ee, (drop_S _ _ _ Hnk). cbn [sync_emit].
      rewrite Hs; [done|]. by eapply (Forall_lookup_1 _ _ k) in nodes_ok.
    + cbn [with_queues c_bud c_pays] in H. destruct (setHead _ _); [|done]. injection H as <-.
      by eapply open_data.
  - specialize (Hl eq_refl). unfold emit_write in H. rewrite Hl in H.
    destruct (cw_write (hdr k) (c_w c)) as [[[]|e] w] eqn:Hw; injection H as <-;
      (apply (data_emit c); rewrite ?Ee; try done; unfold cont; cbn; rewrite Ee, Hw; done).
  - specialize (Hl eq_refl). destruct Ie as (_ & _ & _ & x & Hx & Ho).
    destruct (c_pays c !! k) as [[p pc]|] eqn:Hk; [|done]. injection Hx as <-. cbn in Ho.
    destruct (p_chunks p) as [|b l] eqn:Hc; [|injection H as <-; by apply (receive_data k p pc b l)].
    destruct (p_closed p) eqn:Hcl; [|done].
    assert (pc = RDone) as -> by (by apply (pi_closed _ _ _ _ _ _ _ _ _ _ (inv_pay _ _ _ _ _ I _ _ _ Hk))).
    assert (pending_at c k = done_rest p) as Hpen
      by (unfold pending_at; rewrite Hk; unfold pending; cbn; by rewrite Hc, prefixed_nil).
    destruct (p_err p) eqn:Hpe; injection H as <-; (apply (data_emit c); rewrite ?Ee; try done);
      unfold cont; cbn; rewrite Ee, Hpen; unfold finish, run_script, done_rest; cbn; by rewrite Hpe.
  - specialize (Hl eq_refl). destruct (release _); [|done]. unfold emit_write in H. rewrite Hl in H.
    destruct (cw_write b (c_w c)) as [res w] eqn:Hw. injection H as <-. by apply (put_data k b).
  - destruct (c_window c); [done|]. injection H as <-. destruct res as [[]|e];
      (apply (data_emit c); rewrite ?Ee; try done); try (unfold cont; cbn; by rewrite Ee).
    cbn. pose proof Ie as (_ & ? & _). lia.
  - injection H as <-. destruct D as [Hc _ _]. constructor; cbn; try done.
    rewrite <- Hc. unfold cont. cbn. by rewrite Ee.
  - case_decide; [|done]. destruct (work_closed c); [|done]. injection H as <-.
    apply (data_emit c); rewrite ?Ee; try done. unfold cont. cbn. by rewrite Ee.
  - done.
Qed.

Lemma run_data sched c c' : inv fs nodes workers budget c -> over_inv c -> holds_ok c -> data_inv c ->
  Cancel ∉ sched -> run fs nodes workers hdr sched c = Some c' -> data_inv c'.
Proof.
  revert c. induction sched as [|ev sched IH]; intros c I Io Hh D Hnc H; cbn in H; [by simplify_eq|].
  apply not_elem_of_cons in Hnc as [Hne Hnc].
  destruct (fire _ _ _ _ ev c) as [c1|] eqn:Hf; [|done].
  apply (IH c1); try done.
  - by eapply fire_inv.
  - by eapply fire_over.
  - by eapply fire_measure.
  - destruct ev as [alt| |k alt|alt| |]; cbn in Hf.
    + by eapply dispatch_data.
    + by eapply pick_data.
    + by eapply work_data.
    + by eapply emit_data.
    + done.
    + destruct (c_done c) eqn:Hd; [|done]. destruct (c_bcast c); [done|]. injection Hf as <-.
      destruct D as [Hc Hl Hp]. constructor; cbn; try done; [|intros Ho; rewrite <- Hd; by apply Hl].
      rewrite <- Hc. unfold cont. cbn. destruct (c_em c); try done; specialize (Hl eq_refl); congruence.
Qed.

Lemma data_init budgetBytes : data_inv (newAsyncSource workers budgetBytes w0).
Proof. by constructor. Qed.

End simulation.

(* ------------------------------------------------------------------ *)
(** ** Properties *)

Section properties.
Context (fs : osfs) (nodes : list node) (workers : nat) (hdr : nat -> bytes).
Context (budgetBytes : Z) (w : countWriter).

Definition start : config := newAsyncSource workers budgetBytes w.

(** Reached by some schedule; without the caller canceling. *)
Definition reached (sched : list event) (c : config) : Prop :=
  run fs nodes workers hdr sched start = Some c.

(** What the emitter reports, once it stopped. *)
Definition emitter_result (c : config) : option (result gen_error unit) :=
  match c_em c with EmCancel res | EmWait res | EmEnd res => Some res | _ => None end.

Lemma reached_inv sched c : reached sched c ->
  inv fs nodes workers (budgetChunks budgetBytes) c /\ over_inv c /\ holds_ok c.
Proof.
  intros H. assert (inv fs nodes workers (budgetChunks budgetBytes) start) as I by by apply inv_init.
  assert (holds_ok start) as Hh by apply Forall_nil_2.
  split_and!; [by eapply run_inv|by eapply run_over; [|exact H]|]. eapply run_measure in H; [|done..]. by destruct H.
Qed.

Lemma reached_data sched c : Forall node_ok nodes -> Cancel ∉ sched -> reached sched c ->
  data_inv fs nodes hdr w c.
Proof.
  intros Hn Hc H. eapply (run_data fs nodes workers hdr (budgetChunks budgetBytes)); [done|..|done|exact H].
  - by apply inv_init.
  - done.
  - apply Forall_nil_2.
  - apply data_init.
Qed.

Lemma node_ok_streams : Forall node_ok nodes -> streams_ok nodes.
Proof.
  intros Hn j n Hj Hk. eapply (Forall_lookup_1 _ _ j) in Hn; [|done]. unfold node_ok in Hn.
  rewrite Hk in Hn. tauto.
Qed.

(** C14: Whatever the interleaving of dispatcher, workers and emitter, an
    emission nobody cancels ends as the synchronous one: the same outcome,
    error or not, the same warnings in the same order, and the same writes. *)
Theorem async_equals_sync sched c res :
  Forall node_ok nodes -> Cancel ∉ sched -> reached sched c -> emitter_result c = Some res ->
  (res, c_warns c, c_w c) = sync_emit fs hdr 0 nodes [] w.
Proof.
  intros Hn Hc H Hr. destruct (reached_data _ _ Hn Hc H) as [Hcont _ _]. rewrite <- Hcont.
  unfold emitter_result in Hr. unfold cont. destruct (c_em c); by simplify_eq.
Qed.

(** C19: No deadlock in an emission that is not canceled and would succeed
    synchronously: a schedule that cannot be continued has brought the emitter
    to its end without an error, after the same writes and warnings.  (When a
    stream fails or the context is canceled it can hang, [lost_wakeup_hangs].) *)
Theorem async_completes sched c ws w' :
  Forall node_ok nodes -> (0 < workers)%nat -> Cancel ∉ sched -> reached sched c ->
  ~ can_step fs nodes workers hdr c ->
  sync_emit fs hdr 0 nodes [] w = (Ok (), ws, w') ->
  c_em c = EmEnd (Ok ()) /\ c_w c = w' /\ c_warns c = ws.
Proof.
  intros Hn Hw Hc H Hstuck Hsync. destruct (reached_inv _ _ H) as (I & Io & _).
  destruct (reached_data _ _ Hn Hc H) as [Hcont Hlive _].
  pose proof (node_ok_streams Hn) as Hs. rewrite Hsync in Hcont.
  destruct (c_done c) eqn:Hd; [|by destruct Hstuck; eapply progress_live].
  assert (over (c_em c) = true) as Hov by (destruct (over (c_em c)); [done|by specialize (Hlive eq_refl)]).
  assert (c_w c = w' /\ c_warns c = ws /\ (c_em c = EmWait (Ok ()) \/ c_em c = EmEnd (Ok ()))) as (<- & <- & Hem).
  { unfold cont in Hcont. destruct (c_em c) as [| | | | | |res|res]; try done;
      destruct res as [[]|]; simplify_eq; auto. }
  split; [|done]. destruct (progress_done _ _ _ hdr _ _ I Io Hs Hw Hd) as [[res E]|[Hst|[[_ Hlost]|Horph]]].
  - destruct Hem as [E'|E']; congruence.
  - done.
  - destruct Hlost as (j & p & pc & Hj & Hwt). pose proof (inv_pay _ _ _ _ _ I _ _ _ Hj) as P.
    assert (pc = RDone) as ->; [|done]. apply (pi_past _ _ _ _ _ _ _ _ _ _ P).
    pose proof (delivered_bound _ _ _ _ _ I) as [_ Hb]. apply lookup_lt_Some in Hj.
    destruct Hem as [-> | ->]; cbn; lia.
  - destruct Horph as (k & p & E & _). destruct Hem as [E'|E']; congruence.
Qed.

(** C32: Every schedule is finite: no goroutine spins, canceled or not. *)
Theorem async_terminates sched c : reached sched c ->
  (length sched <= measure fs nodes workers start)%nat.
Proof.
  intros H. eapply run_measure in H; [|by apply inv_init|apply Forall_nil_2]. lia.
Qed.

(** In every reachable state either everything is over, or a goroutine can
    move, or the context is done and one of two signals was lost: a worker
    waits for a broadcast that already happened, or the emitter for chunks of
    a payload the dispatcher dropped. *)
Theorem async_progress sched c :
  Forall node_ok nodes -> (0 < workers)%nat -> reached sched c ->
  ended c \/ can_step fs nodes workers hdr c \/ (c_done c = true /\ (lost_wakeup c \/ orphan c)).
Proof.
  intros Hn Hw H. destruct (reached_inv _ _ H) as (I & Io & _). pose proof (node_ok_streams Hn) as Hs.
  destruct (c_done c) eqn:Hd; [|right; left; by eapply progress_live].
  destruct (progress_done _ _ _ hdr _ _ I Io Hs Hw Hd) as [|[]]; tauto.
Qed.

(** The budget holds in every reachable state, canceled or not: it is overdrawn
    by at most four buffers, so at most four buffers beyond it are ever in use. *)
Theorem async_budget sched c : reached sched c ->
  -4 <= b_avail (c_bud c) <= budgetChunks budgetBytes /\
  Z.of_nat (sum_list_with outst (c_pays c) + em_held (c_em c)) <= budgetChunks budgetBytes + 4 /\
  Forall (fun x => length (p_chunks x.1) <= 2)%nat (c_pays c).
Proof.
  intros H. destruct (reached_inv _ _ H) as (I & _ & _).
  pose proof (inv_credit _ _ _ _ _ I) as Hc. pose proof (inv_head _ _ _ _ _ I) as Hh.
  assert (forall j x, c_pays c !! j = Some x -> (outst x <= 3)%nat) as Ho.
  { intros j [p pc] Hj. pose proof (pi_cap _ _ _ _ _ _ _ _ _ _ (inv_pay _ _ _ _ _ I _ _ _ Hj)).
    unfold outst. cbn. assert (held pc <= 1)%nat by (destruct pc as [|? ? ? ? []| | | |]; cbn; lia). lia. }
  assert (head_out (c_bud c) (c_pays c) (c_em c) <= 4)%nat.
  { unfold head_out. assert (em_held (c_em c) <= 1)%nat by (destruct (c_em c); cbn; lia).
    destruct (c_pays c !! _) as [x|] eqn:Hx; [specialize (Ho _ _ Hx)|]; lia. }
  split_and!; try lia. apply Forall_lookup. intros j [p pc] Hj.
  apply (inv_pay _ _ _ _ _ I _ _ _ Hj).
Qed.

(** What the end of the emitter says of the other goroutines. *)
Definition end_inv (c : config) : Prop := ended c -> c_exited c = workers /\ work_closed c = true.

Lemma fire_end ev c c' : inv fs nodes workers (budgetChunks budgetBytes) c -> end_inv c ->
  fire fs nodes workers hdr ev c = Some c' -> end_inv c'.
Proof.
  intros I He H [res E]. pose proof (inv_pool _ _ _ _ _ I) as Ip. unfold end_inv, ended in He.
  assert ((forall alt, ev <> Emit alt) \/ exists alt, ev = Emit alt) as [Hne|[alt ->]]
    by (destruct ev; naive_solver).
  - destruct (fire_frame _ _ _ _ _ _ _ H Hne) as (E' & _). rewrite E in E'.
    destruct He as [Hx Hcl]; [by exists res|]. unfold work_closed in Hcl.
    destruct (c_disp c) as [| | | |d] eqn:Ed; try done. destruct ev as [alt| |k alt|alt| |]; cbn in H.
    + unfold dispatch in H. by rewrite Ed in H.
    + unfold pick in H. destruct (c_idle c); [done|lia].
    + unfold work in H. destruct (c_pays c !! k) as [[p pc]|]; [|done].
      destruct (read_step _ _ _ _ _ _) as [[[bud wk] [p' pc']]|]; [|done]. injection H as <-.
      unfold work_closed. cbn. by rewrite Ed.
    + by destruct (Hne alt).
    + destruct (c_done c); [done|]. injection H as <-. unfold work_closed. cbn. by rewrite Ed.
    + destruct (c_done c && _); [|done]. injection H as <-. unfold work_closed. cbn. by rewrite Ed.
  - cbn in H. unfold emit in H. destruct (c_em c) eqn:Ee; [..|done];
      lazymatch goal with
      | _ : _ = EmWait _ |- _ => idtac
      | _ => exfalso; repeat case_match; simplify_eq; done
      end.
    case_decide; [|done]. destruct (work_closed c) eqn:Hw; [|done]. injection H as <-. done.
Qed.

(** [onBind] has been told of every payload bound, in plan order. *)
Definition bound_report (n : node) : Z * option gen_error := (p_size (bind fs n), p_openErr (bind fs n)).

Definition binds_inv (c : config) : Prop := c_binds c = bound_report <$> take (length (c_pays c)) nodes.

Lemma fire_binds ev c c' : inv fs nodes workers (budgetChunks budgetBytes) c -> binds_inv c ->
  fire fs nodes workers hdr ev c = Some c' -> binds_inv c'.
Proof.
  unfold binds_inv. intros I Hb H.
  assert (forall c1, length (c_pays c1) = length (c_pays c) -> c_binds c1 = c_binds c ->
    c_binds c1 = bound_report <$> take (length (c_pays c1)) nodes) as Hsame by (intros c1 -> ->; done).
  pose proof (inv_disp _ _ _ _ _ I) as Id. destruct ev as [alt| |k alt|alt| |]; cbn in H.
  - unfold dispatch in H. destruct (c_disp c) as [k|k|k|k|k] eqn:Ed; cbn in Id; [|
      destruct (nodes !! k) as [n|] eqn:Hn; [|done]; injection H as <-; cbn|..].
    2: { rewrite length_app, Hb. cbn [length]. destruct Id as [-> _].
         replace (k + 1)%nat with (S k) by lia. by rewrite (take_S_r _ _ _ Hn), fmap_app. }
    all: repeat case_match; simplify_eq; apply Hsame; try done; unfold on_pay; cbn; by rewrite length_alter.
  - unfold pick in H. repeat case_match; simplify_eq; apply Hsame; try done. apply length_insert.
  - unfold work in H. destruct (c_pays c !! k) as [[p pc]|]; [|done].
    destruct (read_step _ _ _ _ _ _) as [[[bud wk] [p' pc']]|]; [|done]. injection H as <-.
    apply Hsame; [|done]. cbn. destruct wk; rewrite ?length_wake; apply length_insert.
  - unfold emit in H. destruct (c_em c) eqn:Ee; [..|done];
      try (destruct (emit_write _ c) as [[] ?]);
      repeat case_match; simplify_eq; apply Hsame; try done; cbn; try apply length_wake; apply length_alter.
  - destruct (c_done c); [done|]. injection H as <-. by apply Hsame.
  - destruct (c_done c && _); [|done]. injection H as <-. apply Hsame; [|done]. apply length_wake.
Qed.

Lemma reached_more sched c : reached sched c -> end_inv c /\ binds_inv c.
Proof.
  unfold reached. intros H.
  assert (inv fs nodes workers (budgetChunks budgetBytes) start) as I by by apply inv_init.
  assert (end_inv start) as He by (by intros [res E]).
  assert (binds_inv start) as Hb by done.
  revert I He Hb H. generalize start. induction sched as [|ev sched IH]; intros c0 I He Hb H; cbn in H.
  { by simplify_eq. }
  destruct (fire _ _ _ _ ev c0) as [c1|] eqn:Hf; [|done].
  apply (IH c1); [by eapply fire_inv|by eapply fire_end|by eapply fire_binds|done].
Qed.

(** [onBind] hears of every payload bound so far, once, in plan order: its
    size, or why it could not be opened. *)
Theorem binds_in_order sched c : reached sched c ->
  c_binds c = bound_report <$> take (length (c_pays c)) nodes.
Proof. intros H. apply (reached_more _ _ H). Qed.

(** Once [wait] returned, whatever happened before, every worker and the
    dispatcher have returned and no file is left open. *)
Theorem ended_closes_files sched c : (0 < workers)%nat -> reached sched c -> ended c ->
  c_exited c = workers /\ work_closed c = true /\
  Forall (fun x => p_fd x.1 = false) (c_pays c).
Proof.
  intros Hw H Hend. destruct (reached_inv _ _ H) as (I & _ & _).
  destruct (reached_more _ _ H) as [He _]. destruct (He Hend) as [Hx Hcl]. split_and!; try done.
  apply Forall_lookup. intros j [p pc] Hj. cbn. destruct (p_fd p) eqn:Hf; [exfalso|done].
  pose proof (inv_pay _ _ _ _ _ I _ _ _ Hj) as P. destruct (pi_fd _ _ _ _ _ _ _ _ _ _ P Hf) as [Hpc Hd].
  destruct (inv_exited _ _ _ _ _ I) as [_ Hq]; [lia|].
  pose proof (inv_pool _ _ _ _ _ I) as Ip.
  assert (sum_list_with (fun x => running x.2) (c_pays c) = 0%nat) as Hr by lia.
  assert (running pc = 0%nat) as Hr0.
  { apply list_elem_of_lookup_2 in Hj. clear -Hj Hr. induction (c_pays c) as [|x l IH]; [by apply elem_of_nil in Hj|].
    cbn in Hr. apply elem_of_cons in Hj as [<-|Hj]; [cbn in Hr; lia|apply IH; [done|lia]]. }
  destruct pc; try done. destruct (Hd eq_refl) as [Hin|[E|E]].
  - rewrite Hq in Hin. by apply elem_of_nil in Hin.
  - unfold work_closed in Hcl. by rewrite E in Hcl.
  - unfold work_closed in Hcl. by rewrite E in Hcl.
Qed.

End properties.

(* ------------------------------------------------------------------ *)
(** ** Witnesses, and the two lost signals *)

Definition sample_stat (size : Z) : Stat := mkStat (Z.lor modeRegular 0x1a4) 0 0 0 0 size 1 0 0 zeroDevice.
Definition sample_stream (name : bytes) (size : Z) (r : reader) : node :=
  mkNode name [] KindStream (sample_stat size) [] [] None [] 0 [] (Some r).

(** A stream that ends early, one that is too long, and a file. *)
Definition sample_nodes : list node :=
  [sample_stream (lit "a") 7 [(lit "hel", None); ([], None); (lit "lo", Some EOF)];
   sample_stream (lit "b") 2 [(lit "x", None); (lit "yz", None)];
   mkNode (lit "c") (lit "/c") KindFile (sample_stat 3) [] [] None [] 0 [] None].
Definition sample_fs : osfs := fun path =>
  if decide (path = lit "/c") then Some (mkFile [(lit "abc", None)] (Some (3, 9)) (Some (3, 9))) else None.
Definition sample_hdr (k : nat) : bytes := [byte_of_Z (Z.of_nat k)].
Definition sample_w : countWriter := cw_open 0 [].

(** A schedule: the first candidate that can move, as long as there is one. *)
Fixpoint drive (fs : osfs) (nodes : list node) (workers : nat) (hdr : nat -> bytes)
    (cands : list event) (fuel : nat) (c : config) : list event :=
  match fuel with
  | O => []
  | S fuel =>
      let fix first (l : list event) :=
        match l with
        | [] => []
        | ev :: l =>
            match fire fs nodes workers hdr ev c with
            | Some c' => ev :: drive fs nodes workers hdr cands fuel c'
            | None => first l
            end
        end in
      first cands
  end.

Definition sample_cands : list event :=
  [Work 2 false; Dispatch false; Pick; Work 1 false; Work 0 false; Emit false; Broadcast].

(** With two workers and the smallest budget. *)
Definition sample_sched : list event :=
  drive sample_fs sample_nodes 2 sample_hdr sample_cands 200 (start 2 1 sample_w).

Definition sample_end : config :=
  default (start 2 1 sample_w) (run sample_fs sample_nodes 2 sample_hdr sample_sched (start 2 1 sample_w)).

Lemma sample_ok : Forall node_ok sample_nodes.
Proof. repeat constructor; cbn; done. Qed.

Lemma sample_reached : reached sample_fs sample_nodes 2 sample_hdr 1 sample_w sample_sched sample_end.
Proof. unfold reached. vm_compute. reflexivity. Qed.

#[export] Instance event_eq_dec : EqDecision event.
Proof. solve_decision. Defined.

Lemma sample_no_cancel : Cancel ∉ sample_sched.
Proof. apply (bool_decide_unpack _). vm_compute. done. Qed.

(** No step from a state whose readers are at rest and whose emitter is over
    or waits in vain. *)
Lemma stuck_check fs nodes workers hdr c n :
  length (c_pays c) = n ->
  forallb (fun ev => match fire fs nodes workers hdr ev c with None => true | Some _ => false end)
    ([Dispatch false; Dispatch true; Pick; Emit false; Emit true; Broadcast] ++
     (j ← seq 0 n; [Work j false; Work j true])) = true ->
  ~ can_step fs nodes workers hdr c.
Proof.
  intros Hl Hf (ev & c' & Hne & H). rewrite forallb_forall in Hf.
  assert (In ev ([Dispatch false; Dispatch true; Pick; Emit false; Emit true; Broadcast] ++
     (j ← seq 0 n; [Work j false; Work j true]))) as Hin.
  { apply in_or_app. destruct ev as [[]| |k alt|[]| |]; cbn; try tauto. right.
    assert (k < n)%nat as Hk.
    { cbn in H. unfold work in H. destruct (c_pays c !! k) eqn:Hk; [|done]. apply lookup_lt_Some in Hk. lia. }
    apply list_elem_of_In, list_elem_of_bind. exists k. split; [destruct alt; set_solver|].
    apply elem_of_seq. lia. }
  specialize (Hf _ Hin). by rewrite H in Hf.
Qed.

Lemma async_equals_sync_witness :
  (Ok (), c_warns sample_end, c_w sample_end) =
    sync_emit sample_fs sample_hdr 0 sample_nodes [] sample_w /\
  cw_out (c_w sample_end) = sample_hdr 0 ++ lit "hello" ++ [nul; nul] ++ sample_hdr 1 ++ lit "xy" ++ sample_hdr 2 ++ lit "abc".
Proof.
  split; [|by vm_compute].
  apply (async_equals_sync sample_fs sample_nodes 2 sample_hdr 1 sample_w sample_sched sample_end (Ok ())).
  - apply sample_ok.
  - apply sample_no_cancel.
  - apply sample_reached.
  - by vm_compute.
Defined.

Lemma async_completes_witness :
  c_em sample_end = EmEnd (Ok ()) /\ c_w sample_end = mkCW 15
    (sample_hdr 0 ++ lit "hello" ++ [nul; nul] ++ sample_hdr 1 ++ lit "xy" ++ sample_hdr 2 ++ lit "abc") None None /\
  c_warns sample_end = [WarnSizeChanged (lit "a") 7 5; WarnSizeChanged (lit "b") 2 3].
Proof.
  apply (async_completes sample_fs sample_nodes 2 sample_hdr 1 sample_w sample_sched sample_end).
  - apply sample_ok.
  - lia.
  - apply sample_no_cancel.
  - apply sample_reached.
  - apply (stuck_check _ _ _ _ _ 3); by vm_compute.
  - by vm_compute.
Defined.

Lemma async_terminates_witness :
  (length sample_sched <= measure sample_fs sample_nodes 2 (start 2 1 sample_w))%nat.
Proof. apply (async_terminates _ _ _ sample_hdr _ _ _ sample_end), sample_reached. Defined.

Lemma async_budget_witness :
  -4 <= b_avail (c_bud sample_end) <= budgetChunks 1 /\
  Z.of_nat (sum_list_with outst (c_pays sample_end) + em_held (c_em sample_end)) <= budgetChunks 1 + 4 /\
  Forall (fun x => length (p_chunks x.1) <= 2)%nat (c_pays sample_end).
Proof. apply (async_budget _ _ _ _ _ _ _ _ sample_reached). Defined.

Lemma binds_in_order_witness :
  c_binds sample_end = bound_report sample_fs <$> take (length (c_pays sample_end)) sample_nodes.
Proof. apply (binds_in_order _ _ _ _ _ _ _ _ sample_reached). Defined.

Lemma ended_closes_files_witness :
  c_exited sample_end = 2%nat /\ work_closed sample_end = true /\
  Forall (fun x => p_fd x.1 = false) (c_pays sample_end).
Proof.
  apply (ended_closes_files sample_fs sample_nodes 2 sample_hdr 1 sample_w sample_sched sample_end).
  - lia.
  - apply sample_reached.
  - exists (Ok ()). by vm_compute.
Defined.

(** A failing stream beside one that fills the budget. *)
Definition lost_nodes : list node :=
  [sample_stream (lit "a") 10 [([], Some (IOError 5))];
   sample_stream (lit "b") 3 [(lit "x", None); (lit "y", None); (lit "z", None)]].

(** The worker reading the second payload is between its check and its
    registration when the emitter, having failed, cancels. *)
Definition lost_sched : list event :=
  replicate 9 (Dispatch false) ++ [Pick; Pick] ++ replicate 2 (Emit false) ++
  replicate 3 (Work 0 false) ++ replicate 7 (Work 1 false) ++ replicate 3 (Emit false) ++
  [Broadcast; Work 1 false; Pick].

Definition lost_end : config :=
  default (start 2 1 sample_w)
    (run sample_fs lost_nodes 2 sample_hdr lost_sched (start 2 1 sample_w)).

(** [newChunkBudget]'s goroutine broadcasts without the mutex: a worker that
    found the context live just before is never woken, and [wait], which the
    generator calls before it closes the pipe, never returns. *)
Theorem lost_wakeup_hangs :
  Forall node_ok lost_nodes /\ (Cancel ∉ lost_sched) /\
  reached sample_fs lost_nodes 2 sample_hdr 1 sample_w lost_sched lost_end /\
  c_em lost_end = EmWait (Err (ErrReading (IOError 5))) /\ lost_wakeup lost_end /\
  ~ can_step sample_fs lost_nodes 2 sample_hdr lost_end.
Proof.
  split; [repeat constructor; cbn; done|]. split; [apply (bool_decide_unpack _); by vm_compute|].
  split; [by vm_compute|]. split; [by vm_compute|]. split.
  - split; [by vm_compute|]. eexists 1%nat, _, _. by vm_compute.
  - apply (stuck_check _ _ _ _ _ 2); by vm_compute.
Qed.

(** The caller cancels while the emitter is in [Copy]. *)
Definition orphan_sched : list event :=
  replicate 3 (Dispatch false) ++ replicate 2 (Emit false) ++
  [Cancel; Dispatch true; Broadcast; Pick; Pick].

Definition orphan_end : config :=
  default (start 2 1 sample_w)
    (run sample_fs lost_nodes 2 sample_hdr orphan_sched (start 2 1 sample_w)).

(** The dispatcher returns between delivering a payload and giving it to a
    worker, without closing its channel: [Copy], which does not look at the
    context, waits for ever. *)
Theorem orphan_hangs :
  Forall node_ok lost_nodes /\
  reached sample_fs lost_nodes 2 sample_hdr 1 sample_w orphan_sched orphan_end /\
  orphan orphan_end /\ ~ ended orphan_end /\
  ~ can_step sample_fs lost_nodes 2 sample_hdr orphan_end.
Proof.
  split; [repeat constructor; cbn; done|]. split; [by vm_compute|]. split; [|split].
  - eexists 0%nat, _. vm_compute. split_and!; try reflexivity. by apply not_elem_of_nil.
  - intros [res E]. vm_compute in E. done.
  - apply (stuck_check _ _ _ _ _ 1); by vm_compute.
Qed.

Lemma async_progress_witness :
  ended orphan_end \/ can_step sample_fs lost_nodes 2 sample_hdr orphan_end \/
  (c_done orphan_end = true /\ (lost_wakeup orphan_end \/ orphan orphan_end)).
Proof.
  apply (async_progress sample_fs lost_nodes 2 sample_hdr 1 sample_w orphan_sched).
  - repeat constructor; cbn; done.
  - lia.
  - unfold reached. vm_compute. reflexivity.
Defined.
