(* ===== verification/Hash.v ===== *)
(** * Checksums and hex

    The functions of Go's standard library the backup protocol is built on:
    hash/crc32 (IEEE), crypto/sha256, crypto/hmac and crypto/pbkdf2 over it,
    and encoding/hex, executable. *)

From S2P Require Import Prelude.
Local Open Scope Z_scope.

(* ------------------------------------------------------------------ *)
(** ** CRC-32, the IEEE polynomial *)

Definition crc32_bit (c : Z) : Z :=
  if Z.odd c then Z.lxor (Z.shiftr c 1) 0xedb88320 else Z.shiftr c 1.

Definition crc32_byte (c : Z) (b : byte) : Z :=
  Nat.iter 8 crc32_bit (Z.lxor c (Z_of_byte b)).

(** [crc32.ChecksumIEEE]. *)
Definition ChecksumIEEE (data : bytes) : Z :=
  Z.lxor (foldl crc32_byte 0xffffffff data) 0xffffffff.

(* ------------------------------------------------------------------ *)
(** ** SHA-256 *)

(** The primes below 312: there are sixty-four. *)
Definition sha_primes : list Z :=
  filter (fun n => forallb (fun d => negb (n mod d =? 0)) (seqZ 2 (n - 2)) = true) (seqZ 2 310).

(** The integer cube root, bit by bit from the top. *)
Fixpoint cbrt_bits (bits : nat) (acc n : Z) : Z :=
  match bits with
  | O => acc
  | S b =>
      let acc' := acc + 2 ^ Z.of_nat b in
      cbrt_bits b (if acc' ^ 3 <=? n then acc' else acc) n
  end.

(** The round constants: thirty-two bits after the point of the cube roots of
    the primes; the initial state: of the square roots of the first eight. *)
Definition sha_k : list Z :=
  Eval vm_compute in (fun p => u32 (cbrt_bits 36 0 (p * 2 ^ 96))) <$> sha_primes.
Definition sha_init : list Z :=
  Eval vm_compute in (fun p => u32 (Z.sqrt (p * 2 ^ 64))) <$> take 8 sha_primes.

Definition rotr32 (n x : Z) : Z := u32 (Z.lor (Z.shiftr x n) (Z.shiftl x (32 - n))).

(** The message schedule: [w] holds the last sixteen words, the newest last. *)
Fixpoint sha_schedule (n : nat) (w : list Z) : list Z :=
  match n, w with
  | S n, [w0; w1; w2; w3; w4; w5; w6; w7; w8; w9; w10; w11; w12; w13; w14; w15] =>
      let s0 := Z.lxor (Z.lxor (rotr32 7 w1) (rotr32 18 w1)) (Z.shiftr w1 3) in
      let s1 := Z.lxor (Z.lxor (rotr32 17 w14) (rotr32 19 w14)) (Z.shiftr w14 10) in
      let w16 := u32 (w0 + s0 + w9 + s1) in
      w0 :: sha_schedule n [w1; w2; w3; w4; w5; w6; w7; w8; w9; w10; w11; w12; w13; w14; w15; w16]
  | _, _ => w
  end.

Definition sha_round (st : list Z) (kw : Z * Z) : list Z :=
  match st with
  | [a; b; c; d; e; f; g; h] =>
      let s1 := Z.lxor (Z.lxor (rotr32 6 e) (rotr32 11 e)) (rotr32 25 e) in
      let ch := Z.lxor (Z.land e f) (Z.land (Z.lxor e 0xffffffff) g) in
      let t1 := h + s1 + ch + fst kw + snd kw in
      let s0 := Z.lxor (Z.lxor (rotr32 2 a) (rotr32 13 a)) (rotr32 22 a) in
      let maj := Z.lxor (Z.lxor (Z.land a b) (Z.land a c)) (Z.land b c) in
      [u32 (t1 + s0 + maj); a; b; c; u32 (d + t1); e; f; g]
  | _ => st
  end.

Definition sha_block (st block : list Z) : list Z :=
  let st' := foldl sha_round st (zip sha_k (sha_schedule 48 block)) in
  zip_with (fun x y => u32 (x + y)) st st'.

(** Big-endian words. *)
Definition be32 (z : Z) : bytes := reverse (le 4 z).
Fixpoint be_words (n : nat) (b : bytes) : list Z :=
  match n with
  | O => []
  | S n => le_dec (reverse (take 4 b)) :: be_words n (drop 4 b)
  end.

Fixpoint sha_blocks (n : nat) (st : list Z) (b : bytes) : list Z :=
  match n with
  | O => st
  | S n => sha_blocks n (sha_block st (be_words 16 b)) (drop 64 b)
  end.

Definition sha_pad (data : bytes) : bytes :=
  data ++ byte_of_Z 0x80 :: replicate (Z.to_nat ((55 - zlen data) mod 64)) nul ++
  reverse (le 8 (8 * zlen data)).

(** [sha256.Sum256]. *)
Definition Sum256 (data : bytes) : bytes :=
  let p := sha_pad data in
  mjoin (be32 <$> sha_blocks (length p / 64) sha_init p).

(* ------------------------------------------------------------------ *)
(** ** HMAC and PBKDF2 over SHA-256 *)

Definition xor_byte (a b : byte) : byte := byte_of_Z (Z.lxor (Z_of_byte a) (Z_of_byte b)).

(** [hmac.New(sha256.New, key)], written and summed. *)
Definition hmac_pad (key : bytes) : bytes :=
  let key := if 64 <? zlen key then Sum256 key else key in
  key ++ replicate (64 - length key) nul.
Definition hmac_sha256 (key data : bytes) : bytes :=
  let k := hmac_pad key in
  Sum256 ((xor_byte (byte_of_Z 0x5c) <$> k) ++ Sum256 ((xor_byte (byte_of_Z 0x36) <$> k) ++ data)).

(** [pbkdf2.Key(sha256.New, password, salt, iter, 32)]: one block. *)
Definition pbkdf2_step (password : bytes) (ut : bytes * bytes) : bytes * bytes :=
  let u := hmac_sha256 password ut.1 in (u, zip_with xor_byte ut.2 u).
Definition pbkdf2_Key (password salt : bytes) (iter : Z) : result unit bytes :=
  let u := hmac_sha256 password (salt ++ be32 1) in
  Ok (Nat.iter (Z.to_nat (iter - 1)) (pbkdf2_step password) (u, u)).2.

(* ------------------------------------------------------------------ *)
(** ** Hex *)

Definition hex_digit (z : Z) : byte := byte_of_Z (if z <? 10 then 48 + z else 87 + z).

(** [hex.EncodeToString]. *)
Definition EncodeToString (b : bytes) : bytes :=
  b ≫= fun x => [hex_digit (Z_of_byte x / 16); hex_digit (Z_of_byte x mod 16)].

(** [hex.DecodeString]: the bytes decoded up to the first error, and whether
    there was none. *)
Definition hex_val (b : byte) : option Z :=
  let z := Z_of_byte b in
  if (48 <=? z) && (z <=? 57) then Some (z - 48)
  else if (97 <=? z) && (z <=? 102) then Some (z - 87)
  else if (65 <=? z) && (z <=? 70) then Some (z - 55)
  else None.

Fixpoint DecodeString (s : bytes) : bytes * bool :=
  match s with
  | [] => ([], true)
  | [_] => ([], false)
  | a :: b :: s =>
      match hex_val a, hex_val b with
      | Some x, Some y => let '(d, ok) := DecodeString s in (byte_of_Z (16 * x + y) :: d, ok)
      | _, _ => ([], false)
      end
  end.

(* ------------------------------------------------------------------ *)
(** ** Lemmas *)

Lemma length_sha_round st kw : length (sha_round st kw) = length st.
Proof. unfold sha_round. repeat case_match; done. Qed.

Lemma length_sha_rounds ks st : length (foldl sha_round st ks) = length st.
Proof.
  revert st. induction ks as [|k ks IH]; intros st; cbn; [done|]. by rewrite IH, length_sha_round.
Qed.

Lemma length_sha_block st block : length (sha_block st block) = length st.
Proof. unfold sha_block. rewrite length_zip_with, length_sha_rounds. lia. Qed.

Lemma length_sha_blocks n st b : length (sha_blocks n st b) = length st.
Proof.
  revert st b. induction n as [|n IH]; intros st b; cbn; [done|]. by rewrite IH, length_sha_block.
Qed.

Lemma length_be32s l : length (mjoin (be32 <$> l)) = (4 * length l)%nat.
Proof.
  induction l as [|z l IH]; [done|]. change (mjoin (be32 <$> z :: l)) with (be32 z ++ mjoin (be32 <$> l)).
  rewrite length_app, IH. unfold be32. rewrite length_reverse, length_le. cbn. lia.
Qed.

Lemma length_Sum256 data : length (Sum256 data) = 32%nat.
Proof. unfold Sum256. by rewrite length_be32s, length_sha_blocks. Qed.

Lemma crc32_bit_range c : is_u32 c -> is_u32 (crc32_bit c).
Proof.
  intros Hc. assert (is_u32 (Z.shiftr c 1)) as Hs
    by (unfold is_u32 in *; rewrite Z.shiftr_div_pow2 by lia; split;
      [apply Z.div_pos; lia|apply Z.div_lt_upper_bound; lia]).
  unfold crc32_bit. case_match; [by apply lxor_u32|done].
Qed.

Lemma ChecksumIEEE_range data : is_u32 (ChecksumIEEE data).
Proof.
  unfold ChecksumIEEE. apply lxor_u32; [|done].
  assert (forall c, is_u32 c -> is_u32 (foldl crc32_byte c data)) as H; [|by apply H].
  induction data as [|b data IH]; intros c Hc; cbn [foldl]; [done|]. apply IH.
  unfold crc32_byte. assert (is_u32 (Z.lxor c (Z_of_byte b))) as Hx
    by (apply lxor_u32; [done|]; pose proof (Z_of_byte_range b); unfold is_u32; lia).
  revert Hx. generalize (Z.lxor c (Z_of_byte b)). intros z Hz.
  apply (Nat.iter_invariant 8 _ crc32_bit is_u32); [intros; by apply crc32_bit_range|done].
Qed.

Lemma hex_digit_inj a b : 0 <= a < 16 -> 0 <= b < 16 -> hex_digit a = hex_digit b -> a = b.
Proof.
  unfold hex_digit. intros Ha Hb H. apply (f_equal Z_of_byte) in H. rewrite !Z_of_byte_of_Z in H.
  destruct (Z.ltb_spec a 10), (Z.ltb_spec b 10); rewrite !Z.mod_small in H; lia.
Qed.

(** Distinct byte strings have distinct hex forms. *)
Lemma EncodeToString_inj a b : EncodeToString a = EncodeToString b -> a = b.
Proof.
  revert b. induction a as [|x a IH]; intros [|y b] H; try done. cbn in H. injection H as H1 H2 H3.
  pose proof (Z_of_byte_range x). pose proof (Z_of_byte_range y).
  apply hex_digit_inj in H1; [|split; [apply Z.div_pos|apply Z.div_lt_upper_bound]; lia
                               |split; [apply Z.div_pos|apply Z.div_lt_upper_bound]; lia].
  apply hex_digit_inj in H2; [|apply Z.mod_pos_bound; lia|apply Z.mod_pos_bound; lia].
  f_equal; [|by apply IH]. apply Z_of_byte_inj.
  rewrite (Z.div_mod (Z_of_byte x) 16), (Z.div_mod (Z_of_byte y) 16) by lia. congruence.
Qed.

Lemma hex_val_digit z : 0 <= z < 16 -> hex_val (hex_digit z) = Some z.
Proof.
  intros Hz. unfold hex_val, hex_digit. rewrite Z_of_byte_of_Z. destruct (Z.ltb_spec z 10).
  - rewrite Z.mod_small by lia. rewrite !(proj2 (Z.leb_le _ _)) by lia. cbn. f_equal. lia.
  - rewrite Z.mod_small by lia. rewrite (proj2 (Z.leb_gt (87 + z) 57)), !(proj2 (Z.leb_le _ _)) by lia. cbn. f_equal. lia.
Qed.

Lemma DecodeString_EncodeToString b : DecodeString (EncodeToString b) = (b, true).
Proof.
  induction b as [|x b IH]; [done|]. unfold EncodeToString in *. rewrite list_bind_cons.
  cbn [app DecodeString]. pose proof (Z_of_byte_range x).
  rewrite !hex_val_digit by (split; [apply Z.div_pos || apply Z.mod_pos_bound; lia|
                               apply Z.div_lt_upper_bound || apply Z.mod_pos_bound; lia]).
  rewrite IH. f_equal. f_equal. rewrite <- Z.div_mod by lia. apply byte_of_Z_of_byte.
Qed.

Lemma length_EncodeToString b : length (EncodeToString b) = (2 * length b)%nat.
Proof. induction b as [|x b IH]; [done|]. cbn. unfold EncodeToString in IH. rewrite IH. lia. Qed.

(** The published test vectors. *)
Example crc32_vector : ChecksumIEEE (lit "123456789") = 0xcbf43926.
Proof. by vm_compute. Qed.
Example sha256_vector : EncodeToString (Sum256 (lit "abc")) =
  lit "ba7816bf8f01cfea414140de5dae2223b00361a396177a9cb410ff61f20015ad".
Proof. by vm_compute. Qed.
(** RFC 4231, case 2; RFC 7914, section 11, the first 32 bytes. *)
Example hmac_vector : EncodeToString (hmac_sha256 (lit "Jefe") (lit "what do ya want for nothing?")) =
  lit "5bdcc146bf60754e6a042426089575c75a003f089d2739839dec58b964ec3843".
Proof. by vm_compute. Qed.
Example pbkdf2_vector : (EncodeToString <$> match pbkdf2_Key (lit "passwd") (lit "salt") 1 with Ok k => Some k | Err _ => None end) =
  Some (lit "55ac046e56e3089fec1691c22544b605f94185216dde0465e68b9d57c20dacbc").
Proof. by vm_compute. Qed.
