(* ===== verification/Blob.v ===== *)
(** * Blobs and chunk digests

    Models pbs/blob.go and the digest side of pbs/crypt.go: the frame every
    chunk and blob travels in (magic, CRC, the smaller of the raw and the
    compressed payload, optionally sealed), its decoder, and the digests that
    name chunks.  zstd, AES-GCM and the RSA key parser are
    parameters. *)

From S2P Require Import Prelude Hash.
Local Open Scope Z_scope.

(** What the code relies on of klauspost/compress/zstd: decoding inverts
    encoding. *)
Class Zstd := {
  EncodeAll : bytes -> bytes;
  DecodeAll : bytes -> option bytes;
  DecodeAll_EncodeAll b : DecodeAll (EncodeAll b) = Some b }.

(** ... of a [cipher.AEAD]: the sealed text is sixteen bytes of tag longer than
    the plain one, and [Open] inverts [Seal]. *)
Record AEAD := mkAEAD {
  Seal : bytes -> bytes -> bytes;
  Open : bytes -> bytes -> option bytes;
  Seal_length iv p : length (Seal iv p) = (length p + 16)%nat;
  Open_Seal iv p : length iv = 16%nat -> Open iv (Seal iv p) = Some p }.

(** A [CryptMode] is a string; a [time.Time] is its Unix seconds, [None] the
    zero time. *)
Definition CryptModeEncrypt : bytes := lit "encrypt".
Definition CryptModeSignOnly : bytes := lit "sign-only".

Record CryptConfig := mkCrypt {
  cc_Mode : bytes; cc_Key : bytes; cc_KeyCreated : option Z; cc_MasterPublicKey : option bytes }.

Record cryptState := mkState {
  cs_mode : bytes; cs_key : bytes; cs_idKey : bytes; cs_fingerprint : bytes;
  cs_aead : AEAD; cs_created : option Z; cs_masterKey : option bytes }.

(** [cryptState.computeDigest]. *)
Definition keyed_digest (idKey data : bytes) : bytes := Sum256 (data ++ idKey).
Definition computeDigest (cs : cryptState) (data : bytes) : bytes := keyed_digest (cs_idKey cs) data.

(** [cryptState.authTag] *)
Definition authTag (cs : cryptState) (data : bytes) : bytes := hmac_sha256 (cs_idKey cs) data.

(** The cipher and the RSA key parser. *)
Class KeyOps := {
  newGCM : bytes -> result unit AEAD;
  parseRSAPublicKey : bytes -> result unit bytes }.

Inductive crypt_error := CryptBadMode (m : bytes) | CryptNoKey | CryptDerive | CryptCipher | CryptMasterMode | CryptMasterKey.

Definition idKeySalt : bytes := lit "_id_key".
Definition idKeyIter : Z := 10.
Definition fingerprintInput : bytes := lit "Proxmox Backup Encryption Key Fingerprint".

Definition newCryptState `{KeyOps} (c : CryptConfig) : result crypt_error cryptState :=
  let mode := if decide (cc_Mode c = []) then CryptModeEncrypt else cc_Mode c in
  if decide (mode <> CryptModeEncrypt /\ mode <> CryptModeSignOnly) then Err (CryptBadMode (cc_Mode c)) else
  if decide (cc_Key c = replicate 32 nul) then Err CryptNoKey else
  match pbkdf2_Key (cc_Key c) idKeySalt idKeyIter with
  | Err _ => Err CryptDerive
  | Ok idKey =>
      let input := Sum256 fingerprintInput in
      let fingerprint := keyed_digest idKey input in
      match newGCM (cc_Key c) with
      | Err _ => Err CryptCipher
      | Ok aead =>
          match cc_MasterPublicKey c with
          | None => Ok (mkState mode (cc_Key c) idKey fingerprint aead (cc_KeyCreated c) None)
          | Some pem =>
              if decide (mode = CryptModeEncrypt) then
                match parseRSAPublicKey pem with
                | Err _ => Err CryptMasterKey
                | Ok k => Ok (mkState mode (cc_Key c) idKey fingerprint aead (cc_KeyCreated c) (Some k))
                end
              else Err CryptMasterMode
          end
      end
  end.

(** [BackupSession.ChunkDigest]. *)
Definition ChunkDigest (crypt : option cryptState) (plain : bytes) : bytes :=
  match crypt with
  | Some cs => if decide (cs_mode cs = CryptModeEncrypt) then computeDigest cs plain else Sum256 plain
  | None => Sum256 plain
  end.

(** [BackupSession.cryptLabel]. *)
Definition cryptLabel (crypt : option cryptState) : bytes :=
  match crypt with
  | None => lit "none"
  | Some cs => if decide (cs_mode cs = CryptModeEncrypt) then lit "encrypt" else lit "sign-only"
  end.

(* ------------------------------------------------------------------ *)
(** ** Frames *)

Definition blobUncompressedMagic : bytes := byte_of_Z <$> [66; 171; 56; 7; 190; 131; 112; 161].
Definition blobCompressedMagic : bytes := byte_of_Z <$> [49; 185; 88; 66; 111; 182; 163; 127].
Definition blobEncryptedMagic : bytes := byte_of_Z <$> [123; 103; 133; 190; 34; 45; 76; 240].
Definition blobEncryptedComprMagic : bytes := byte_of_Z <$> [230; 89; 27; 191; 11; 191; 216; 11].

Definition blobHeaderSize : Z := 12.
Definition blobEncHeaderSize : Z := 44.

Inductive blob_error :=
  | BlobTooShort (n : Z) | BlobCrc | BlobNoKey | BlobEncTooShort (n : Z)
  | BlobDecrypt | BlobMagic (m : bytes) | BlobDecompress.

Section blob.
Context {ZS : Zstd}.

(** The smaller of the two representations. *)
Definition choose_payload (plain : bytes) (compress : bool) (raw packed : bytes) : bytes * bytes :=
  if compress then
    let scratch := EncodeAll plain in
    if decide (length scratch < length plain)%nat then (scratch, packed) else (plain, raw)
  else (plain, raw).

(** [BlobEncoder.Encode]. *)
Definition Encode (plain : bytes) (compress : bool) : bytes :=
  let '(payload, magic) := choose_payload plain compress blobUncompressedMagic blobCompressedMagic in
  magic ++ le32 (ChecksumIEEE payload) ++ payload.

(** [BlobEncoder.encodeEncrypted]; [iv] is what [rand.Read] delivered. *)
Definition encodeEncrypted (aead : AEAD) (iv plain : bytes) (compress : bool) : bytes :=
  let '(payload, magic) := choose_payload plain compress blobEncryptedMagic blobEncryptedComprMagic in
  let sealed := Seal aead iv payload in
  let tag := drop (length payload) sealed in
  let ct := take (length payload) sealed in
  magic ++ le32 (ChecksumIEEE ct) ++ iv ++ tag ++ ct.

(** The end of [decodeBlob]. *)
Definition decompress (payload : bytes) (compressed : bool) : result blob_error bytes :=
  if compressed then
    match DecodeAll payload with Some plain => Ok plain | None => Err BlobDecompress end
  else Ok payload.

Definition decodeBlob (framed : bytes) (cs : option cryptState) : result blob_error bytes :=
  if zlen framed <? blobHeaderSize then Err (BlobTooShort (zlen framed)) else
  let magic := take 8 framed in
  let crc := get32 (drop 8 framed) in
  if decide (magic = blobUncompressedMagic \/ magic = blobCompressedMagic) then
    let payload := drop (Z.to_nat blobHeaderSize) framed in
    if negb (ChecksumIEEE payload =? crc) then Err BlobCrc
    else decompress payload (bool_decide (magic = blobCompressedMagic))
  else if decide (magic = blobEncryptedMagic \/ magic = blobEncryptedComprMagic) then
    match cs with
    | None => Err BlobNoKey
    | Some cs =>
        if zlen framed <? blobEncHeaderSize then Err (BlobEncTooShort (zlen framed)) else
        let iv := take 16 (drop 12 framed) in
        let tag := take 16 (drop 28 framed) in
        let ct := drop (Z.to_nat blobEncHeaderSize) framed in
        if negb (ChecksumIEEE ct =? crc) then Err BlobCrc else
        match Open (cs_aead cs) iv (ct ++ tag) with
        | None => Err BlobDecrypt
        | Some payload => decompress payload (bool_decide (magic = blobEncryptedComprMagic))
        end
    end
  else Err (BlobMagic magic).

(* ------------------------------------------------------------------ *)
(** ** Lemmas *)

Lemma get32_checksum p r : get32 (le32 (ChecksumIEEE p) ++ r) = ChecksumIEEE p.
Proof. rewrite get32_le32. apply Z.mod_small, ChecksumIEEE_range. Qed.

Lemma choose_decompress plain compress raw packed payload magic :
  raw <> packed ->
  choose_payload plain compress raw packed = (payload, magic) ->
  (magic = raw \/ magic = packed) /\
  decompress payload (bool_decide (magic = packed)) = Ok plain.
Proof.
  intros Hne. unfold choose_payload, decompress. destruct compress; [case_decide|]; intros [= <- <-].
  - rewrite bool_decide_eq_true_2 by done. rewrite DecodeAll_EncodeAll. auto.
  - rewrite bool_decide_eq_false_2 by done. auto.
  - rewrite bool_decide_eq_false_2 by done. auto.
Qed.

Lemma decode_Encode plain compress cs : decodeBlob (Encode plain compress) cs = Ok plain.
Proof.
  unfold Encode. destruct (choose_payload _ _ _ _) as [payload magic] eqn:Hc.
  apply choose_decompress in Hc as [Hm Hd]; [|done].
  assert (length magic = 8%nat) as Hl by (by destruct Hm as [-> | ->]).
  unfold decodeBlob. rewrite (take_len_app magic), (drop_len_app magic _ 8) by lia.
  rewrite decide_True by done. rewrite get32_checksum.
  assert (drop (Z.to_nat blobHeaderSize) (magic ++ le32 (ChecksumIEEE payload) ++ payload) = payload) as ->
    by (rewrite app_assoc; apply drop_len_app; rewrite length_app, length_le32, Hl; done).
  rewrite Z.eqb_refl, !length_app, Hl, length_le32. cbn [negb].
  unfold blobHeaderSize. rewrite (proj2 (Z.ltb_ge _ _)) by lia. done.
Qed.

(** C36: A framed blob decodes to what was framed, compressed or not, whatever
    key the reader has; an encrypted one decodes with its key, whatever IV was
    drawn. *)
Theorem blob_roundtrip plain compress :
  (forall cs, decodeBlob (Encode plain compress) cs = Ok plain) /\
  (forall cs iv, length iv = 16%nat ->
    decodeBlob (encodeEncrypted (cs_aead cs) iv plain compress) (Some cs) = Ok plain).
Proof.
  split.
  - intros cs. apply decode_Encode.
  - intros cs iv Hiv. unfold encodeEncrypted. destruct (choose_payload _ _ _ _) as [payload magic] eqn:Hc.
    apply choose_decompress in Hc as [Hm Hd]; [|done].
    assert (length magic = 8%nat) as Hl by (by destruct Hm as [-> | ->]).
    set (sealed := Seal (cs_aead cs) iv payload).
    assert (length sealed = (length payload + 16)%nat) as Hs by apply Seal_length.
    set (tag := drop (length payload) sealed). set (ct := take (length payload) sealed).
    assert (length tag = 16%nat) as Ht by (unfold tag; rewrite length_drop; lia).
    unfold decodeBlob. rewrite (take_len_app magic), (drop_len_app magic _ 8) by lia.
    rewrite decide_False by (destruct Hm as [-> | ->]; by intros [?|?]). rewrite decide_True by done.
    rewrite get32_checksum.
    assert (forall n k (b c : bytes), n = (12 + k)%nat ->
      drop n (magic ++ le32 (ChecksumIEEE b) ++ c) = drop k c) as Hdrop.
    { intros n k b c ->. rewrite app_assoc, drop_app_ge by (rewrite length_app, length_le32; lia).
      f_equal. rewrite length_app, length_le32. lia. }
    rewrite (Hdrop 12%nat 0%nat), (Hdrop 28%nat 16%nat), (Hdrop (Z.to_nat blobEncHeaderSize) 32%nat) by done.
    rewrite drop_0, (take_len_app iv _ 16), (drop_len_app iv _ 16), (take_len_app tag _ 16) by lia.
    assert (drop 32 (iv ++ tag ++ ct) = ct) as ->
      by (rewrite app_assoc; apply drop_len_app; rewrite length_app; lia).
    rewrite Z.eqb_refl. cbn [negb]. assert (ct ++ tag = sealed) as -> by apply take_drop. unfold sealed at 1.
    rewrite Open_Seal, Hd by done.
    rewrite !length_app, Hl, length_le32, Hiv, Ht. unfold blobHeaderSize, blobEncHeaderSize.
    rewrite !(proj2 (Z.ltb_ge _ _)) by lia. done.
Qed.
End blob.

(* ------------------------------------------------------------------ *)
(** ** Witnesses *)

(** A run-length coder in the place of zstd. *)
Definition toy_encode (b : bytes) : bytes :=
  match b with
  | x :: _ => if decide (b = replicate (length b) x /\ zlen b < 2 ^ 64)
              then byte_of_Z 1 :: x :: le64 (zlen b) else byte_of_Z 0 :: b
  | [] => [byte_of_Z 0]
  end.

Definition toy_decode (b : bytes) : option bytes :=
  match b with
  | t :: b =>
      if decide (t = byte_of_Z 0) then Some b else
      match b with
      | x :: n => Some (replicate (Z.to_nat (get64 n)) x)
      | [] => None
      end
  | [] => None
  end.

Definition toy_zstd : Zstd.
Proof.
  refine {| EncodeAll := toy_encode; DecodeAll := toy_decode |}.
  intros [|x b]; [done|]. unfold toy_encode. case_decide as Hd; [|done]. destruct Hd as [Hr Hl].
  cbn [toy_decode]. rewrite decide_False by done.
  rewrite <- (app_nil_r (le64 _)), get64_le64, u64_small by (unfold is_u64; lia).
  by rewrite Nat2Z.id, <- Hr.
Defined.

(** A transparent cipher whose tag is the IV. *)
Definition toy_tag (iv : bytes) : bytes := take 16 (iv ++ replicate 16 nul).

Definition toy_aead : AEAD.
Proof.
  refine (mkAEAD (fun iv p => p ++ toy_tag iv)
    (fun iv s => if decide (drop (length s - 16) s = toy_tag iv) then Some (take (length s - 16) s) else None) _ _).
  - intros iv p. rewrite length_app. unfold toy_tag. rewrite length_take, length_app, length_replicate. lia.
  - intros iv p Hiv. assert (length (toy_tag iv) = 16%nat) as Ht
      by (unfold toy_tag; rewrite length_take, length_app, length_replicate; lia).
    rewrite length_app, Ht. replace (length p + 16 - 16)%nat with (length p) by lia.
    by rewrite drop_app_length, take_app_length, decide_True.
Defined.

Definition toy_state : cryptState :=
  mkState CryptModeEncrypt (lit "key") (lit "id") (lit "fp") toy_aead None None.

Lemma blob_roundtrip_witness :
  decodeBlob (ZS := toy_zstd) (Encode (ZS := toy_zstd) (replicate 20 nul) true) None = Ok (replicate 20 nul) /\
  decodeBlob (ZS := toy_zstd) (encodeEncrypted (ZS := toy_zstd) (cs_aead toy_state) (replicate 16 slash) (lit "secret") true)
    (Some toy_state) = Ok (lit "secret") /\
  length (Encode (ZS := toy_zstd) (replicate 20 nul) true) = 22%nat.
Proof.
  split; [exact (proj1 (blob_roundtrip (ZS := toy_zstd) (replicate 20 nul) true) None)|].
  split; [|by vm_compute].
  exact (proj2 (blob_roundtrip (ZS := toy_zstd) (lit "secret") true) toy_state (replicate 16 slash) eq_refl).
Defined.
