(* ===== verification/Json.v ===== *)
(** * JSON documents

    What pbs/ uses of encoding/json.  The syntax is a parameter (class [JSON])
    that delivers a document as a tree; how a tree is assigned to a map, a
    struct or a slice is modelled here, because a hostile document can repeat
    a key, and then what a map holds and what a struct holds come about in
    different ways. *)

From Stdlib Require Import Strings.Byte.
From S2P Require Import Prelude.
Local Open Scope Z_scope.

(** A document as it is written: the members of an object in order, a key
    possibly more than once; a number is its text ([json.Number]). *)
Inductive json :=
  | JObject (members : list (bytes * json)) | JArray (elems : list json)
  | JNumber (text : bytes) | JString (s : bytes) | JBool (b : bool) | JNull.

Section json_ind.
Variable P : json -> Prop.
Hypothesis object : forall ms, Forall (fun m => P m.2) ms -> P (JObject ms).
Hypothesis array : forall es, Forall P es -> P (JArray es).
Hypothesis number : forall t, P (JNumber t).
Hypothesis str : forall s, P (JString s).
Hypothesis bool_ : forall b, P (JBool b).
Hypothesis null : P JNull.

Fixpoint json_rect' (v : json) : P v :=
  match v with
  | JObject ms => object ms ((fix go ms : Forall (fun m => P m.2) ms :=
      match ms with [] => Forall_nil_2 _ | m :: ms => Forall_cons_2 _ m ms (json_rect' m.2) (go ms) end) ms)
  | JArray es => array es ((fix go es : Forall P es :=
      match es with [] => Forall_nil_2 _ | e :: es => Forall_cons_2 _ e es (json_rect' e) (go es) end) es)
  | JNumber t => number t
  | JString s => str s
  | JBool b => bool_ b
  | JNull => null
  end.
End json_ind.

(** The bytes of a JSON number; every number of a document is one. *)
Definition num_char (c : byte) : bool := bool_decide (c ∈ lit "+-.0123456789eE").
Fixpoint numbers_ok (v : json) : bool :=
  match v with
  | JObject members => forallb (fun m => numbers_ok m.2) members
  | JArray elems => forallb numbers_ok elems
  | JNumber text => bool_decide (text <> []) && forallb num_char text
  | _ => true
  end.

(** Keys and strings are printable ASCII. *)
Definition text (s : bytes) : bool := forallb (fun c => (32 <=? Z_of_byte c) && (Z_of_byte c <? 127)) s.
Fixpoint textual (v : json) : bool :=
  match v with
  | JObject members => forallb (fun m => text m.1 && textual m.2) members
  | JArray elems => forallb textual elems
  | JString s => text s
  | _ => true
  end.

(** encoding/json: [Decode] reads the first value of its input, [Valid] tells
    that nothing but white space follows; [Marshal] and [MarshalIndent] write
    a value, and a textual one is read back as it was; [ParseFloat] tells that a
    number is in the range of a float64; [foldName] is the form in which field
    names are compared when no field has the key's exact name. *)
Class JSON := {
  Marshal : json -> bytes;
  MarshalIndent : json -> bytes;
  Decode : bytes -> option json;
  Valid : bytes -> bool;
  ParseFloat : bytes -> bool;
  foldName : bytes -> bytes;
  Decode_numbers raw v : Decode raw = Some v -> numbers_ok v = true;
  Decode_Marshal v : textual v = true -> numbers_ok v = true -> Decode (Marshal v) = Some v /\ Valid (Marshal v) = true;
  Decode_MarshalIndent v : textual v = true -> numbers_ok v = true ->
    Decode (MarshalIndent v) = Some v /\ Valid (MarshalIndent v) = true }.

(* ------------------------------------------------------------------ *)
(** ** Maps *)

(** The members of an object assigned to a map one after the other: the last
    one with a key stays. *)
Fixpoint last_wins {A} (ms : list (bytes * A)) : list (bytes * A) :=
  match ms with
  | [] => []
  | m :: ms => if decide (m.1 ∈ ms.*1) then last_wins ms else m :: last_wins ms
  end.

(** What [Decode] leaves in an [any]. *)
Fixpoint decoded (v : json) : json :=
  match v with
  | JObject members => JObject (last_wins (map (fun m => (m.1, decoded m.2)) members))
  | JArray elems => JArray (map decoded elems)
  | v => v
  end.

(** Unless numbers are kept as their text, they are made float64s. *)
Fixpoint floats_ok `{JSON} (v : json) : bool :=
  match v with
  | JObject members => forallb (fun m => floats_ok m.2) members
  | JArray elems => forallb floats_ok elems
  | JNumber text => ParseFloat text
  | _ => true
  end.

(** ... and in a nil [map[string]any]: null leaves it nil, and only an object
    can be assigned to it. *)
Definition decode_map (v : json) : option (list (bytes * json)) :=
  match v with
  | JObject members => Some (last_wins (map (fun m => (m.1, decoded m.2)) members))
  | JNull => Some []
  | _ => None
  end.

(* ------------------------------------------------------------------ *)
(** ** Integers ([strconv]) *)

Definition digit (z : Z) : byte := byte_of_Z (48 + z).
Definition digit_val (c : byte) : option Z :=
  let z := Z_of_byte c - 48 in if (0 <=? z) && (z <? 10) then Some z else None.

Fixpoint format_digits (fuel : nat) (z : Z) (acc : bytes) : bytes :=
  match fuel with
  | O => acc
  | S fuel => if z <? 10 then digit z :: acc else format_digits fuel (z / 10) (digit (z mod 10) :: acc)
  end.
(** Twenty digits hold every sixty-four bit integer. *)
Definition FormatInt (z : Z) : bytes :=
  if z <? 0 then lit "-" ++ format_digits 20 (- z) [] else format_digits 20 z [].

Definition parse_digits (s : bytes) : option Z :=
  foldl (fun acc c => z ← acc; d ← digit_val c; Some (10 * z + d)) (Some 0) s.
Definition ParseUint (s : bytes) : option Z :=
  if decide (s = []) then None else
  z ← parse_digits s; if z <? 2 ^ 64 then Some z else None.
Definition ParseInt (s : bytes) : option Z :=
  match s with
  | c :: s' =>
      if decide (c = Byte.x2d) then
        if decide (s' = []) then None else z ← parse_digits s'; if z <=? 2 ^ 63 then Some (- z) else None
      else z ← parse_digits s; if z <? 2 ^ 63 then Some z else None
  | [] => None
  end.

(* ------------------------------------------------------------------ *)
(** ** Structs: [json.Unmarshal] *)

(** A value assigned to a field that holds [old]: null leaves it, another type
    is an error (decoding goes on, but the error is returned in the end). *)
Definition assign_string (v : json) (old : bytes) : option bytes :=
  match v with JString s => Some s | JNull => Some old | _ => None end.
Definition assign_int64 (v : json) (old : Z) : option Z :=
  match v with JNumber t => ParseInt t | JNull => Some old | _ => None end.
Definition assign_uint64 (v : json) (old : Z) : option Z :=
  match v with JNumber t => ParseUint t | JNull => Some old | _ => None end.

(** ... to a pointer: null makes it nil, a value goes to what it points to, a
    new zero value if it is nil. *)
Definition assign_pointer {S} (assign : json -> S -> option S) (zero : S) (v : json) (old : option S) : option (option S) :=
  match v with JNull => Some None | _ => Some <$> assign v (default zero old) end.

Section struct.
Context `{JSON} {S : Type}.

(** A struct is the names of its fields with the assignments to them. *)
Abbreviation fields := (list (bytes * (json -> S -> option S))).

(** The field of a key: the one of exactly this name, or the first whose
    folded name is the folded key. *)
Definition find_field (fs : fields) (key : bytes) : option (json -> S -> option S) :=
  match list_find (fun f => f.1 = key) fs with
  | Some (_, f) => Some f.2
  | None => (fun x => x.2.2) <$> list_find (fun f => foldName f.1 = foldName key) fs
  end.

Definition assign_member (fs : fields) (acc : option S) (m : bytes * json) : option S :=
  s ← acc; match find_field fs m.1 with Some f => f m.2 s | None => Some s end.

Definition assign_struct (fs : fields) (v : json) (old : S) : option S :=
  match v with
  | JObject ms => foldl (assign_member fs) (Some old) ms
  | JNull => Some old
  | _ => None
  end.

(** [json.Unmarshal(raw, &s)] *)
Definition Unmarshal (fs : fields) (zero : S) (raw : bytes) : option S :=
  v ← Decode raw; if Valid raw then assign_struct fs v zero else None.

(* ------------------------------------------------------------------ *)
(** ** Slices *)

(** A slice of structs: its length, and the elements its backing array holds
    from this decoding; beyond them the array is zero. *)
Record slice := mkSlice { sl_len : nat; sl_backing : list S }.
Definition elements (sl : slice) : list S := take (sl_len sl) (sl_backing sl).

(** Element [i] is decoded into what the array holds there, which the decoder
    does not clear. *)
Fixpoint assign_elems (fs : fields) (zero : S) (i : nat) (vs : list json) (backing : list S) : option (list S) :=
  match vs with
  | [] => Some backing
  | v :: vs =>
      e ← assign_struct fs v (default zero (backing !! i));
      assign_elems fs zero (i + 1) vs (take i backing ++ e :: drop (i + 1) backing)
  end.

(** An empty array and null put a new empty slice in its place. *)
Definition assign_slice (fs : fields) (zero : S) (v : json) (old : slice) : option slice :=
  match v with
  | JArray [] => Some (mkSlice 0 [])
  | JArray vs => backing ← assign_elems fs zero 0 vs (sl_backing old); Some (mkSlice (length vs) backing)
  | JNull => Some (mkSlice 0 [])
  | _ => None
  end.
End struct.
#[global] Arguments slice S : clear implicits.

(* ------------------------------------------------------------------ *)
(** ** Lemmas: maps *)

Lemma last_wins_elem {A} (ms : list (bytes * A)) m : m ∈ last_wins ms -> m ∈ ms.
Proof.
  induction ms as [|x ms IH]; cbn; [done|]. case_decide; [intros; right; auto|].
  rewrite !elem_of_cons. naive_solver.
Qed.

Lemma last_wins_keys {A} (ms : list (bytes * A)) k : k ∈ (last_wins ms).*1 <-> k ∈ ms.*1.
Proof.
  induction ms as [|x ms IH]; cbn; [done|]. case_decide as Hd; [|cbn; by rewrite !elem_of_cons, IH].
  rewrite IH, elem_of_cons. naive_solver.
Qed.

Lemma last_wins_NoDup {A} (ms : list (bytes * A)) : NoDup (last_wins ms).*1.
Proof.
  induction ms as [|x ms IH]; cbn; [constructor|]. case_decide as Hd; [done|]. cbn. constructor; [|done].
  by rewrite last_wins_keys.
Qed.

Lemma last_wins_id {A} (ms : list (bytes * A)) : NoDup ms.*1 -> last_wins ms = ms.
Proof.
  induction ms as [|x ms IH]; cbn; [done|]. rewrite NoDup_cons. intros [Hx Hn]. rewrite decide_False by done. by rewrite IH.
Qed.

(** The member a map keeps is the last one with its key. *)
Lemma last_wins_split {A} (ms : list (bytes * A)) k x : (k, x) ∈ last_wins ms ->
  exists ms1 ms2, ms = ms1 ++ (k, x) :: ms2 /\ ~ k ∈ ms2.*1.
Proof.
  induction ms as [|m ms IH]; cbn; [by intros ?%not_elem_of_nil|]. case_decide as Hd.
  - intros (ms1 & ms2 & -> & Hk)%IH. by exists (m :: ms1), ms2.
  - intros [<-|(ms1 & ms2 & -> & Hk)%IH]%elem_of_cons; [by exists [], ms|]. by exists (m :: ms1), ms2.
Qed.

Lemma decoded_map_split (ms : list (bytes * json)) k x : (k, x) ∈ last_wins (map (fun m => (m.1, decoded m.2)) ms) ->
  exists ms1 v ms2, ms = ms1 ++ (k, v) :: ms2 /\ x = decoded v /\ ~ k ∈ ms2.*1.
Proof.
  intros (l1 & l2 & He & Hk)%last_wins_split. apply fmap_app_inv in He as (ms1 & ms2' & -> & He & ->).
  destruct ms2' as [|[k' v] ms2]; [done|]. cbn in He. injection He as -> -> ->. exists ms1, v, ms2. split_and!; try done.
  intros Hin. apply Hk. rewrite <- list_fmap_compose. by rewrite (list_fmap_ext _ fst) by done.
Qed.

Lemma decoded_map_keys (ms : list (bytes * json)) k : k ∈ (last_wins (map (fun m => (m.1, decoded m.2)) ms)).*1 <-> k ∈ ms.*1.
Proof. rewrite last_wins_keys, <- list_fmap_compose. by rewrite (list_fmap_ext _ fst) by done. Qed.

(* ------------------------------------------------------------------ *)
(** ** Lemmas: integers *)

Lemma digit_val_digit z : 0 <= z < 10 -> digit_val (digit z) = Some z.
Proof.
  intros Hz. unfold digit_val, digit. rewrite Z_of_byte_of_Z, Z.mod_small by lia.
  replace (48 + z - 48) with z by lia. destruct (Z.leb_spec 0 z), (Z.ltb_spec z 10); try lia. done.
Qed.

Abbreviation parse_from := (foldl (fun acc c => z ← acc; d ← digit_val c; Some (10 * z + d))).

Lemma parse_format fuel z acc : 0 <= z < 10 ^ Z.of_nat fuel -> (0 < fuel)%nat ->
  parse_from (Some 0) (format_digits fuel z acc) = parse_from (Some z) acc /\ format_digits fuel z acc <> [] /\
  (forallb num_char acc = true -> forallb num_char (format_digits fuel z acc) = true).
Proof.
  assert (forall z, 0 <= z < 10 -> num_char (digit z) = true) as Hd.
  { intros d Hd. assert (exists n, d = Z.of_nat n /\ (n < 10)%nat) as (n & -> & Hn) by (exists (Z.to_nat d); lia).
    do 10 (destruct n as [|n]; [done|]). lia. }
  revert z acc. induction fuel as [|fuel IH]; intros z acc Hz Hf; [lia|]. cbn [format_digits].
  destruct (Z.ltb_spec z 10).
  - cbn [foldl]. rewrite digit_val_digit by lia. cbn. rewrite Hd by lia. by split_and!.
  - rewrite Nat2Z.inj_succ, Z.pow_succ_r in Hz by lia.
    assert (0 < fuel)%nat by (destruct fuel; [cbn in Hz; lia|lia]).
    pose proof (Z.mod_pos_bound z 10 ltac:(lia)). pose proof (Z.div_mod z 10 ltac:(lia)).
    assert (0 <= z / 10 < 10 ^ Z.of_nat fuel) by (split; [apply Z.div_pos|apply Z.div_lt_upper_bound]; lia).
    destruct (IH (z / 10) (digit (z mod 10) :: acc)) as (I1 & I2 & I3); [done|done|]. split_and!.
    + rewrite I1. cbn [foldl]. cbn. rewrite digit_val_digit by lia. cbn. f_equal. f_equal. lia.
    + done.
    + intros Ha. apply I3. cbn. by rewrite Hd.
Qed.

Lemma parse_digits_format z : is_u64 z -> parse_digits (format_digits 20 z []) = Some z.
Proof. unfold is_u64. intros Hz. by apply parse_format; [cbn; lia|lia]. Qed.

Lemma format_head z : is_u64 z -> exists c s, format_digits 20 z [] = c :: s /\ c <> Byte.x2d.
Proof.
  intros Hz. destruct (parse_format 20 z []) as (Hp & Hn & _); [unfold is_u64 in Hz; cbn; lia|lia|].
  destruct (format_digits 20 z []) as [|c s]; [done|]. exists c, s. split; [done|]. intros ->.
  change (parse_from None s = Some z) in Hp. clear -Hp. assert (parse_from None s = None) as He by (clear; induction s as [|d s IH]; [done|exact IH]).
  by rewrite He in Hp.
Qed.

Lemma ParseUint_FormatInt z : is_u64 z -> ParseUint (FormatInt z) = Some z.
Proof.
  intros Hz. unfold ParseUint, FormatInt. unfold is_u64 in Hz. destruct (Z.ltb_spec z 0); [lia|].
  destruct (format_head z Hz) as (c & s & He & _). rewrite decide_False by (by rewrite He).
  rewrite parse_digits_format by done. cbn. destruct (Z.ltb_spec z (2 ^ 64)); [done|lia].
Qed.

Lemma ParseInt_cons c s' :
  ParseInt (c :: s') =
    (if decide (c = Byte.x2d) then
       if decide (s' = []) then None else z ← parse_digits s'; if z <=? 2 ^ 63 then Some (- z) else None
     else z ← parse_digits (c :: s'); if z <? 2 ^ 63 then Some z else None).
Proof. done. Qed.

Lemma ParseInt_FormatInt z : is_i64 z -> ParseInt (FormatInt z) = Some z.
Proof.
  unfold is_i64. intros Hz. unfold FormatInt. destruct (Z.ltb_spec z 0).
  - assert (is_u64 (- z)) as Hu by (unfold is_u64; lia).
    change (lit "-" ++ format_digits 20 (- z) []) with (Byte.x2d :: format_digits 20 (- z) []).
    rewrite ParseInt_cons, decide_True by done. destruct (format_head _ Hu) as (c & s & He & _). rewrite decide_False by (by rewrite He).
    rewrite parse_digits_format by done. cbn. destruct (Z.leb_spec (- z) (2 ^ 63)); [f_equal; lia|lia].
  - assert (is_u64 z) as Hu by (unfold is_u64; lia). destruct (format_head _ Hu) as (c & s & He & Hc).
    rewrite He, ParseInt_cons, decide_False by done.
    rewrite <- He, parse_digits_format by done. cbn. destruct (Z.ltb_spec z (2 ^ 63)); [done|lia].
Qed.

Lemma FormatInt_number z : is_u64 z \/ is_i64 z -> FormatInt z <> [] /\ forallb num_char (FormatInt z) = true.
Proof.
  unfold FormatInt, is_u64, is_i64. intros Hz. destruct (Z.ltb_spec z 0).
  - destruct (parse_format 20 (- z) []) as (_ & Hn & Hc); [cbn; lia|lia|]. split; [done|]. cbn. by apply Hc.
  - destruct (parse_format 20 z []) as (_ & Hn & Hc); [cbn; lia|lia|]. split; [done|]. by apply Hc.
Qed.

(* ------------------------------------------------------------------ *)
(** ** Lemmas: structs and slices *)

Section struct_lemmas.
Context `{JSON} {S : Type}.
Implicit Types fs : list (bytes * (json -> S -> option S)).

Lemma find_field_exact fs k f : NoDup fs.*1 -> (k, f) ∈ fs -> find_field fs k = Some f.
Proof.
  intros Hn Hin. unfold find_field.
  destruct (list_find (fun f => f.1 = k) fs) as [[i [k' f']]|] eqn:Hf.
  - apply list_find_Some in Hf as (Hi & Hk & _). cbn in Hk. subst k'. apply list_elem_of_lookup in Hin as [j Hj].
    assert (i = j) as ->; [|rewrite Hi in Hj; by injection Hj as ->]. eapply NoDup_lookup; [exact Hn|by rewrite list_lookup_fmap, Hi|by rewrite list_lookup_fmap, Hj].
  - apply list_find_None in Hf. rewrite Forall_forall in Hf. by destruct (Hf _ Hin).
Qed.

(** One member with the exact name of the field at [i]. *)
Lemma assign_member_at fs i k f v s : NoDup fs.*1 -> fs !! i = Some (k, f) -> assign_member fs (Some s) (k, v) = f v s.
Proof. intros Hn Hi. cbn. by rewrite (find_field_exact fs k f Hn) by (by eapply list_elem_of_lookup_2). Qed.

Lemma assign_members_none fs ms : foldl (assign_member fs) None ms = None.
Proof. by induction ms. Qed.

(** A part of the struct that one field determines comes from the last member
    with the field's name, if all keys are exact names. *)
Lemma assign_struct_field {A} fs (g : S -> A) k f ms1 v ms2 a old s :
  NoDup fs.*1 -> (k, f) ∈ fs -> Forall (fun m => m.1 ∈ fs.*1) (ms1 ++ (k, v) :: ms2) -> ~ k ∈ ms2.*1 ->
  (forall s s', f v s = Some s' -> g s' = a) ->
  (forall k' f' v' s s', (k', f') ∈ fs -> k' <> k -> f' v' s = Some s' -> g s' = g s) ->
  assign_struct fs (JObject (ms1 ++ (k, v) :: ms2)) old = Some s -> g s = a.
Proof.
  intros Hn Hf Hex Hk Ha Hg. cbn. rewrite foldl_app. cbn.
  destruct (foldl (assign_member fs) (Some old) ms1) as [s1|]; cbn; [|by rewrite assign_members_none].
  rewrite (find_field_exact fs k f Hn Hf). destruct (f v s1) as [s2|] eqn:Hs2; [|by rewrite assign_members_none].
  apply Ha in Hs2. revert s2 Hs2. apply Forall_app in Hex as [_ Hex]. inversion Hex as [|? ? _ Hex2]; subst. clear Hex.
  induction ms2 as [|m ms2 IH]; intros s2 Hs2; cbn; [by intros [= <-]|].
  apply Forall_cons in Hex2 as [Hm Hex2]. apply not_elem_of_cons in Hk as [Hmk Hk].
  apply list_elem_of_fmap in Hm as ([k' f'] & Hmk' & Hin). cbn in Hmk'.
  rewrite Hmk', (find_field_exact fs k' f' Hn Hin). destruct (f' m.2 s2) as [s3|] eqn:Hs3; [|by rewrite assign_members_none].
  apply IH; [done|done|]. rewrite <- Hs2. eapply Hg; [exact Hin| |exact Hs3]. intros ->. by apply Hmk.
Qed.

(** An element that does not depend on what was there before. *)
Definition determined fs (v : json) (x : S) : Prop := forall old e, assign_struct fs v old = Some e -> e = x.

Lemma assign_elems_determined fs zero vs xs : Forall2 (determined fs) vs xs -> forall i backing backing',
  (i <= length backing)%nat -> assign_elems fs zero i vs backing = Some backing' ->
  take (i + length vs) backing' = take i backing ++ xs.
Proof.
  induction 1 as [|v x vs xs Hv _ IH]; intros i backing backing' Hi; cbn [assign_elems length].
  { intros [= <-]. by rewrite Nat.add_0_r, app_nil_r. }
  destruct (assign_struct fs v _) as [e|] eqn:He; cbn; [|done]. apply Hv in He. subst e. intros Ha.
  apply IH in Ha; [|rewrite length_app, length_take; cbn; lia].
  replace (i + Datatypes.S (length vs))%nat with (i + 1 + length vs)%nat by lia. rewrite Ha.
  rewrite take_app_ge by (rewrite length_take; lia). rewrite length_take, Nat.min_l by lia.
  replace (i + 1 - i)%nat with 1%nat by lia. cbn. by rewrite <- (assoc_L (++)).
Qed.

Lemma assign_slice_determined fs zero vs xs old sl :
  Forall2 (determined fs) vs xs -> assign_slice fs zero (JArray vs) old = Some sl -> elements sl = xs.
Proof.
  intros Hd. unfold assign_slice, elements. destruct vs as [|v vs].
  { inversion Hd; subst. by intros [= <-]. }
  destruct (assign_elems fs zero 0 (v :: vs) (sl_backing old)) as [b|] eqn:Hb; cbn [mbind option_bind]; [|done]. intros [= <-].
  cbn [sl_len sl_backing]. by apply (assign_elems_determined fs zero _ xs Hd 0) in Hb; [|lia].
Qed.

Lemma assign_elems_total fs zero vs xs : Forall2 (fun v x => forall old, assign_struct fs v old = Some x) vs xs ->
  forall i backing, exists backing', assign_elems fs zero i vs backing = Some backing'.
Proof.
  induction 1 as [|v x vs xs Hv _ IH]; intros i backing; cbn [assign_elems]; [by eexists|]. rewrite Hv. cbn. apply IH.
Qed.

Lemma assign_slice_total fs zero vs xs old : Forall2 (fun v x => forall old, assign_struct fs v old = Some x) vs xs ->
  exists sl, assign_slice fs zero (JArray vs) old = Some sl /\ elements sl = xs.
Proof.
  intros Hf. assert (exists sl, assign_slice fs zero (JArray vs) old = Some sl) as [sl Hsl].
  { unfold assign_slice. destruct vs as [|v vs]; [by eexists|].
    destruct (assign_elems_total fs zero _ xs Hf 0 (sl_backing old)) as [b ->]. by eexists. }
  exists sl. split; [done|]. eapply assign_slice_determined; [|exact Hsl].
  eapply Forall2_impl; [exact Hf|]. intros v x Hv old' e. rewrite Hv. by intros [= ->].
Qed.
End struct_lemmas.

(* ------------------------------------------------------------------ *)
(** ** An instance: JSON without white space

    Printing and parsing of documents whose strings need no escapes but those
    of the quote and the backslash: the syntax the witnesses run with. *)

Definition esc (c : byte) : bytes := if decide (c = x22 \/ c = x5c) then [x5c; c] else [c].
Definition print_string (s : bytes) : bytes := x22 :: (s ≫= esc) ++ [x22].

Fixpoint print_list (l : list bytes) : bytes :=
  match l with
  | [] => []
  | [p] => p
  | p :: l => p ++ x2c :: print_list l
  end.
Fixpoint print (v : json) : bytes :=
  match v with
  | JObject ms => x7b :: print_list (map (fun m => print_string m.1 ++ x3a :: print m.2) ms) ++ [x7d]
  | JArray es => x5b :: print_list (map print es) ++ [x5d]
  | JNumber t => t
  | JString s => print_string s
  | JBool b => if b then lit "true" else lit "false"
  | JNull => lit "null"
  end.

(** The rest of a string after its opening quote, and what follows it. *)
Fixpoint parse_string (s : bytes) : option (bytes * bytes) :=
  match s with
  | [] => None
  | c :: s =>
      if decide (c = x22) then Some ([], s) else
      if decide (c = x5c) then
        match s with
        | d :: s => '(t, r) ← parse_string s; Some (d :: t, r)
        | [] => None
        end
      else '(t, r) ← parse_string s; Some (c :: t, r)
  end.

Fixpoint parse_number (s : bytes) : bytes * bytes :=
  match s with
  | c :: s' => if num_char c then let '(t, r) := parse_number s' in (c :: t, r) else ([], s)
  | [] => ([], [])
  end.

(** A list of [item]s up to the closing byte. *)
Fixpoint parse_list {A} (item : bytes -> option (A * bytes)) (close : byte) (fuel : nat) (s : bytes) : option (list A * bytes) :=
  match fuel with
  | O => None
  | S fuel =>
      '(x, r) ← item s;
      match r with
      | c :: r =>
          if decide (c = close) then Some ([x], r) else
          if decide (c = x2c) then '(xs, r) ← parse_list item close fuel r; Some (x :: xs, r) else None
      | [] => None
      end
  end.

Definition parse_member (value : bytes -> option (json * bytes)) (s : bytes) : option ((bytes * json) * bytes) :=
  match s with
  | c :: s =>
      if decide (c = x22) then
        '(k, r) ← parse_string s;
        match r with
        | d :: r => if decide (d = x3a) then '(v, r) ← value r; Some ((k, v), r) else None
        | [] => None
        end
      else None
  | [] => None
  end.

Definition strip (w s : bytes) : option bytes := if decide (take (length w) s = w) then Some (drop (length w) s) else None.

Fixpoint parse (fuel : nat) (s : bytes) : option (json * bytes) :=
  match fuel, s with
  | S fuel, c :: r =>
      if decide (c = x7b) then
        match strip [x7d] r with
        | Some r => Some (JObject [], r)
        | None => '(ms, r) ← parse_list (parse_member (parse fuel)) x7d (length r) r; Some (JObject ms, r)
        end
      else if decide (c = x5b) then
        match strip [x5d] r with
        | Some r => Some (JArray [], r)
        | None => '(es, r) ← parse_list (parse fuel) x5d (length r) r; Some (JArray es, r)
        end
      else if decide (c = x22) then '(t, r) ← parse_string r; Some (JString t, r)
      else if num_char c then let '(t, r) := parse_number s in Some (JNumber t, r)
      else if decide (c = x74) then r ← strip (lit "true") s; Some (JBool true, r)
      else if decide (c = x66) then r ← strip (lit "false") s; Some (JBool false, r)
      else r ← strip (lit "null") s; Some (JNull, r)
  | _, _ => None
  end.

Definition num_end (r : bytes) : Prop := match r with [] => True | c :: _ => num_char c = false end.

Lemma parse_print_string s r : parse_string ((s ≫= esc) ++ x22 :: r) = Some (s, r).
Proof.
  induction s as [|c s IH]; [done|]. rewrite list_bind_cons. unfold esc at 1. case_decide as Hc.
  - destruct Hc as [-> | ->]; cbn in IH |- *; by rewrite IH.
  - cbn [app parse_string]. rewrite !decide_False by tauto. by rewrite IH.
Qed.

Lemma parse_print_number t r : forallb num_char t = true -> num_end r -> parse_number (t ++ r) = (t, r).
Proof.
  intros Ht Hr. induction t as [|c t IH]; cbn in *; [destruct r as [|d r]; [done|]; cbn in *; by rewrite Hr|].
  apply andb_true_iff in Ht as [-> Ht]. by rewrite IH.
Qed.

Lemma parse_print_list {A} (item : bytes -> option (A * bytes)) (pr : A -> bytes) close l r fuel :
  close <> x2c -> num_char close = false -> l <> [] -> (length l <= fuel)%nat ->
  Forall (fun x => forall r, num_end r -> item (pr x ++ r) = Some (x, r)) l ->
  parse_list item close fuel (print_list (map pr l) ++ close :: r) = Some (l, r).
Proof.
  intros Hc Hn. revert fuel. induction l as [|x l IH]; intros fuel Hne Hf Hl; [done|].
  apply Forall_cons in Hl as [Hx Hl]. destruct fuel as [|fuel]; [cbn in Hf; lia|]. cbn [parse_list].
  destruct l as [|y l].
  - cbn [map print_list]. rewrite Hx by done. cbn. by rewrite decide_True.
  - cbn [map]. change (print_list (pr x :: pr y :: map pr l)) with (pr x ++ x2c :: print_list (map pr (y :: l))).
    rewrite <- (assoc_L (++)), <- app_comm_cons, Hx by done. cbn [mbind option_bind].
    rewrite decide_False by done. rewrite decide_True by done. rewrite IH; [done|done|cbn in Hf |- *; lia|done].
Qed.

Lemma print_member_length (ms : list (bytes * json)) m : m ∈ ms ->
  (length (print m.2) < length (print (JObject ms)))%nat.
Proof.
  intros Hin. cbn [print length]. rewrite length_app. cbn [length]. induction ms as [|x ms IH]; [by apply elem_of_nil in Hin|].
  apply elem_of_cons in Hin as [->|Hin].
  - cbn [map]. destruct ms as [|y ms]; cbn [map print_list]; rewrite !length_app; cbn [length]; lia.
  - specialize (IH Hin). cbn [map]. destruct ms as [|y ms]; [by apply elem_of_nil in Hin|].
    cbn [map print_list] in *. rewrite !length_app. cbn [length] in *. lia.
Qed.

Lemma print_elem_length (es : list json) e : e ∈ es -> (length (print e) < length (print (JArray es)))%nat.
Proof.
  intros Hin. cbn [print length]. rewrite length_app. cbn [length]. induction es as [|x es IH]; [by apply elem_of_nil in Hin|].
  apply elem_of_cons in Hin as [->|Hin].
  - cbn [map]. destruct es as [|y es]; cbn [map print_list]; rewrite ?length_app; cbn [length]; lia.
  - specialize (IH Hin). cbn [map]. destruct es as [|y es]; [by apply elem_of_nil in Hin|].
    cbn [map print_list] in *. rewrite !length_app. cbn [length] in *. lia.
Qed.

Lemma print_list_length l : Forall (fun p : bytes => p <> []) l -> (length l <= length (print_list l))%nat.
Proof.
  induction 1 as [|p l Hp _ IH]; [done|]. destruct p as [|c p]; [done|]. destruct l as [|q l]; [cbn; lia|].
  change (print_list ((c :: p) :: q :: l)) with ((c :: p) ++ x2c :: print_list (q :: l)). rewrite length_app. cbn [length] in *. lia.
Qed.

(** What a value starts with. *)
Lemma print_head v : textual v = true -> numbers_ok v = true -> exists c b, print v = c :: b /\ c <> x5d /\ c <> x7d.
Proof.
  destruct v as [ms|es|t|s|[]|]; intros _ Hn; try by eexists _, _.
  cbn in Hn. apply andb_true_iff in Hn as [Hne Hc]. apply bool_decide_eq_true in Hne. destruct t as [|c t]; [done|].
  exists c, t. cbn in Hc. apply andb_true_iff in Hc as [Hc _]. split; [done|]. split; intros ->; by vm_compute in Hc.
Qed.

Lemma strip_ne c d r : c <> d -> strip [c] (d :: r) = None.
Proof. intros Hne. unfold strip. cbn [length take]. rewrite take_0, decide_False; [done|]. by intros [= ->]. Qed.

Lemma parse_print v : textual v = true -> numbers_ok v = true -> forall fuel r, (length (print v) <= fuel)%nat -> num_end r ->
  parse fuel (print v ++ r) = Some (v, r).
Proof.
  induction v as [ms IH|es IH|t|s|b|] using json_rect'; intros Ht Hn fuel r Hf Hr.
  - destruct fuel as [|fuel]; [cbn in Hf; lia|]. cbn [print app parse]. rewrite decide_True by done.
    destruct (decide (ms = [])) as [->|Hne]; [done|].
    assert (exists c b, print_list (map (fun m => print_string m.1 ++ x3a :: print m.2) ms) = c :: b /\ x7d <> c) as (c & b & Hpl & Hcb).
    { destruct ms as [|m [|m2 ms]]; [done|by eexists _, _..]. }
    rewrite <- (assoc_L (++)). cbn [app].
    assert (forall q, strip [x7d] (print_list (map (fun m => print_string m.1 ++ x3a :: print m.2) ms) ++ q) = None) as ->
      by (intros q; rewrite Hpl; by apply strip_ne).
    rewrite (parse_print_list _ (fun m => print_string m.1 ++ x3a :: print m.2)); try done.
    + rewrite length_app. etrans; [|apply Nat.le_add_r].
      rewrite <- (length_map (fun m => print_string m.1 ++ x3a :: print m.2) ms) at 1. apply print_list_length.
      apply Forall_forall. intros p Hp. apply list_elem_of_fmap in Hp as (m & -> & _). done.
    + cbn in Ht, Hn. rewrite forallb_forall in Ht, Hn. rewrite Forall_forall in IH |- *. intros m Hm r' Hr'.
      pose proof (Ht m (proj1 (list_elem_of_In _ _) Hm)) as Htm. apply andb_true_iff in Htm as [_ Htm].
      pose proof (Hn m (proj1 (list_elem_of_In _ _) Hm)) as Hnm. pose proof (print_member_length ms m Hm).
      unfold parse_member, print_string. rewrite <- !(assoc_L (++)). cbn [app]. rewrite decide_True by done.
      rewrite <- (assoc_L (++)). cbn [app]. rewrite parse_print_string. cbn [mbind option_bind]. rewrite decide_True by done.
      rewrite IH; [by destruct m|done|done|done|lia|done].
  - destruct fuel as [|fuel]; [cbn in Hf; lia|]. cbn [print app parse]. rewrite decide_False by done. rewrite decide_True by done.
    destruct (decide (es = [])) as [->|Hne]; [done|].
    cbn in Ht, Hn. rewrite forallb_forall in Ht, Hn.
    assert (forall e, e ∈ es -> textual e = true /\ numbers_ok e = true) as Hes by (intros e He; split; by apply Ht || apply Hn; apply list_elem_of_In).
    assert (exists c b, print_list (map print es) = c :: b /\ x5d <> c) as (c & b & Hpl & Hcb).
    { destruct es as [|e es]; [done|]. destruct (Hes e) as [T N]; [by left|]. destruct (print_head e T N) as (c & b & E & ? & _).
      destruct es as [|e2 es]; cbn [map print_list]; rewrite E; eexists _, _; (split; [reflexivity|done]). }
    rewrite <- (assoc_L (++)). cbn [app].
    assert (forall q, strip [x5d] (print_list (map print es) ++ q) = None) as -> by (intros q; rewrite Hpl; by apply strip_ne).
    rewrite (parse_print_list _ print); try done.
    + rewrite length_app. etrans; [|apply Nat.le_add_r]. rewrite <- (length_map print es) at 1. apply print_list_length.
      apply Forall_forall. intros p Hp. apply list_elem_of_fmap in Hp as (e & -> & He). destruct (Hes e He) as [T N].
      by destruct (print_head e T N) as (d & q & -> & _).
    + rewrite Forall_forall in IH |- *. intros e He r' Hr'. destruct (Hes e He). pose proof (print_elem_length es e He).
      apply IH; try done. cbn [length] in *. lia.
  - cbn in Hn. apply andb_true_iff in Hn as [Hne Hc]. apply bool_decide_eq_true in Hne. destruct t as [|c t]; [done|].
    destruct fuel as [|fuel]; [cbn in Hf; lia|]. pose proof (parse_print_number (c :: t) r Hc Hr) as Hp.
    cbn [print]. cbn in Hc. apply andb_true_iff in Hc as [Hc _].
    assert (c <> x7b /\ c <> x5b /\ c <> x22) as (? & ? & ?) by (split_and!; intros ->; by vm_compute in Hc).
    cbn [app parse]. rewrite !decide_False by done. rewrite Hc. cbn [app] in Hp. by rewrite Hp.
  - destruct fuel as [|fuel]; [cbn in Hf; lia|]. cbn [print print_string app parse]. rewrite !decide_False by done. rewrite decide_True by done.
    rewrite <- (assoc_L (++)). cbn [app]. by rewrite parse_print_string.
  - destruct fuel as [|fuel]; [destruct b; cbn in Hf; lia|]. by destruct b.
  - destruct fuel as [|fuel]; [cbn in Hf; lia|]. done.
Qed.

Definition upper (b : byte) : byte := let z := Z_of_byte b in if (97 <=? z) && (z <=? 122) then byte_of_Z (z - 32) else b.

Definition plain_json : JSON.
Proof.
  refine {| Marshal := print; MarshalIndent := print;
            Decode := fun raw => match parse (length raw) raw with Some (v, _) => if numbers_ok v then Some v else None | None => None end;
            Valid := fun raw => match parse (length raw) raw with Some (_, []) => true | _ => false end;
            ParseFloat := fun t => (length t <? 300)%nat && negb (existsb (fun c => bool_decide (c ∈ lit "eE")) t);
            foldName := fmap upper |}.
  - intros raw v. destruct (parse _ _) as [[w r]|]; [|done]. destruct (numbers_ok w) eqn:Hn; [|done]. by intros [= <-].
  - intros v Ht Hn. pose proof (parse_print v Ht Hn (length (print v)) [] (Nat.le_refl _) I) as Hp. rewrite app_nil_r in Hp. by rewrite Hp, Hn.
  - intros v Ht Hn. pose proof (parse_print v Ht Hn (length (print v)) [] (Nat.le_refl _) I) as Hp. rewrite app_nil_r in Hp. by rewrite Hp, Hn.
Defined.
