(* ===== verification/Canon.v ===== *)
(** * Canonical JSON

    Models pbs/canonjson.go: the byte form of a manifest that is signed.  It is
    written from the document decoded into Go maps ([Json.decoded]).  A map has
    no order, so an object is a list of members and the theorems show that the
    order of the list is irrelevant. *)

From stdpp Require Import sorting.
From S2P Require Import Prelude Tree Hash Json.
Local Open Scope Z_scope.

Inductive canon_error := CeNonInteger (text : bytes) | CeNull | CeDecode.

Abbreviation quote := Byte.x22.
Abbreviation comma := Byte.x2c.
Abbreviation colon := Byte.x3a.

(* ------------------------------------------------------------------ *)
(** ** The writer *)

Definition hexDigits : bytes := lit "0123456789abcdef".

(** One byte of a string: the switch of [writeCanonicalString]. *)
Definition escape (c : byte) : bytes :=
  if decide (c = quote) then [backslash; quote]
  else if decide (c = backslash) then [backslash; backslash]
  else if decide (c = Byte.x08) then lit "\b"
  else if decide (c = Byte.x09) then lit "\t"
  else if decide (c = newline) then lit "\n"
  else if decide (c = Byte.x0c) then lit "\f"
  else if decide (c = Byte.x0d) then lit "\r"
  else if Z_of_byte c <? 0x20 then
    lit "\u00" ++ [nth (Z.to_nat (Z.shiftr (Z_of_byte c) 4)) hexDigits nul;
                   nth (Z.to_nat (Z.land (Z_of_byte c) 0xf)) hexDigits nul]
  else [c].

Definition writeCanonicalString (s : bytes) : bytes := [quote] ++ (s ≫= escape) ++ [quote].

(** [sort.Strings] on the keys of a map. *)
Definition key_le {A} (x y : bytes * A) : Prop := bytes_leb x.1 y.1 = true.
#[export] Instance key_le_dec {A} (x y : bytes * A) : Decision (key_le x y).
Proof. unfold key_le. apply _. Defined.

(** The loops over members and elements: what is written is separated by
    commas, the first error ends the loop. *)
Fixpoint write_each (first : bool) (l : list (result canon_error bytes)) : result canon_error bytes :=
  match l with
  | [] => Ok []
  | w :: l =>
      b ← w;
      rest ← write_each false l;
      Ok ((if first then [] else [comma]) ++ b ++ rest)
  end.

(** One member: the key, a colon and what its value came to. *)
Definition write_member (m : bytes * result canon_error bytes) : result canon_error bytes :=
  b ← m.2; Ok (writeCanonicalString m.1 ++ [colon] ++ b).

(** [strings.ContainsAny(v, ".eE")] *)
Definition non_integer (text : bytes) : bool :=
  existsb (fun c => bool_decide (c ∈ lit ".eE")) text.

Fixpoint writeCanonicalJSON (v : json) : result canon_error bytes :=
  match v with
  | JObject members =>
      b ← write_each true (write_member <$> merge_sort key_le (map (fun m => (m.1, writeCanonicalJSON m.2)) members));
      Ok (lit "{" ++ b ++ lit "}")
  | JArray elems =>
      b ← write_each true (map writeCanonicalJSON elems);
      Ok (lit "[" ++ b ++ lit "]")
  | JNumber text => if non_integer text then Err (CeNonInteger text) else Ok text
  | JString s => Ok (writeCanonicalString s)
  | JBool b => Ok (if b then lit "true" else lit "false")
  | JNull => Err CeNull
  end.

(** [delete(tree, "signature")] and [delete(tree, "unprotected")]. *)
Definition signed_part (tree : list (bytes * json)) : list (bytes * json) :=
  base.filter (fun m => m.1 <> lit "signature" /\ m.1 <> lit "unprotected") tree.

(* ------------------------------------------------------------------ *)
(** ** Documents *)

(** What a map can hold: keys are distinct, a number is a number. *)
Inductive json_ok : json -> Prop :=
  | ok_object ms : NoDup ms.*1 -> Forall (fun m => json_ok m.2) ms -> json_ok (JObject ms)
  | ok_array es : Forall json_ok es -> json_ok (JArray es)
  | ok_number text : text <> [] -> Forall (fun c => num_char c = true) text -> json_ok (JNumber text)
  | ok_string s : json_ok (JString s)
  | ok_bool b : json_ok (JBool b)
  | ok_null : json_ok JNull.

(** Equality of documents: at any depth, the order of members is no part of
    an object. *)
Inductive same : json -> json -> Prop :=
  | same_object ms ms' ms2 : ms ≡ₚ ms' -> Forall2 (fun x y => x.1 = y.1 /\ same x.2 y.2) ms' ms2 ->
      same (JObject ms) (JObject ms2)
  | same_array es es2 : Forall2 same es es2 -> same (JArray es) (JArray es2)
  | same_number text : same (JNumber text) (JNumber text)
  | same_string s : same (JString s) (JString s)
  | same_bool b : same (JBool b) (JBool b)
  | same_null : same JNull JNull.

(* ------------------------------------------------------------------ *)
(** ** Sorting members *)

#[export] Instance key_le_total A : Total (@key_le A).
Proof. intros a b. apply bytes_leb_total. Qed.
#[export] Instance key_le_trans A : Transitive (@key_le A).
Proof. intros a b c. apply bytes_leb_trans. Qed.

(** Distinct keys have one sorted order. *)
Lemma sort_unique {A} (l l' : list (bytes * A)) :
  NoDup l.*1 -> l' ≡ₚ l -> StronglySorted key_le l' -> merge_sort key_le l = l'.
Proof.
  intros Hn Hp Hs. apply (StronglySorted_unique_strong key_le).
  - intros x y Hx Hy Hxy Hyx. rewrite merge_sort_Permutation in Hx. rewrite Hp in Hy.
    assert (x.1 = y.1) as He by (by apply bytes_leb_antisym).
    apply list_elem_of_lookup in Hx as [i Hi]. apply list_elem_of_lookup in Hy as [j Hj].
    assert (i = j) as ->; [|congruence].
    eapply NoDup_lookup; [exact Hn|rewrite list_lookup_fmap, Hi; done|rewrite list_lookup_fmap, Hj; cbn; by rewrite He].
  - by apply StronglySorted_merge_sort; apply _.
  - done.
  - by rewrite merge_sort_Permutation.
Qed.

(** Sorting by key commutes with a map of the values. *)
Lemma sort_map {A B} (f : A -> B) (l : list (bytes * A)) :
  NoDup l.*1 -> merge_sort key_le (map (fun m => (m.1, f m.2)) l) = map (fun m => (m.1, f m.2)) (merge_sort key_le l).
Proof.
  intros Hn. apply sort_unique.
  - rewrite <- list_fmap_compose. by rewrite (list_fmap_ext _ fst) by done.
  - change (((fun m => (m.1, f m.2)) <$> merge_sort key_le l) ≡ₚ ((fun m => (m.1, f m.2)) <$> l)).
    by rewrite merge_sort_Permutation.
  - pose proof (StronglySorted_merge_sort key_le l) as H. induction H as [|x k Hk IH Hx]; cbn; constructor; [done|].
    apply Forall_map. by eapply Forall_impl; [exact Hx|].
Qed.

(** An object with distinct keys is written in the order of its sorted
    members. *)
Lemma write_object ms : NoDup ms.*1 ->
  writeCanonicalJSON (JObject ms) =
    (b ← write_each true ((fun m => write_member (m.1, writeCanonicalJSON m.2)) <$> merge_sort key_le ms);
     Ok (lit "{" ++ b ++ lit "}")).
Proof.
  intros Hn. cbn [writeCanonicalJSON]. rewrite sort_map by done.
  by rewrite <- (list_fmap_compose (fun m => (m.1, writeCanonicalJSON m.2)) write_member).
Qed.

(* ------------------------------------------------------------------ *)
(** ** Strings: an escaped byte shows where it ends *)

Definition all_bytes : list byte := byte_of_Z <$> seqZ 0 256.

Lemma all_bytes_spec c : c ∈ all_bytes.
Proof.
  apply list_elem_of_fmap. exists (Z_of_byte c). split; [by rewrite byte_of_Z_of_byte|].
  apply elem_of_seqZ. pose proof (Z_of_byte_range c). lia.
Qed.

Definition escape_prefix (c d : byte) : bool :=
  bool_decide (take (length (escape c)) (escape d) = escape c).

Lemma escape_table :
  forallb (fun c => forallb (fun d => bool_decide (c = d) || negb (escape_prefix c d)) all_bytes) all_bytes = true.
Proof. by vm_compute. Qed.

Lemma escape_prefix_eq c d : escape_prefix c d = true -> c = d.
Proof.
  intros H. pose proof escape_table as T. rewrite forallb_forall in T.
  specialize (T c). rewrite <- list_elem_of_In in T. specialize (T (all_bytes_spec c)).
  rewrite forallb_forall in T. specialize (T d). rewrite <- list_elem_of_In in T.
  specialize (T (all_bytes_spec d)). rewrite H, orb_false_r in T. by apply bool_decide_eq_true in T.
Qed.

Lemma escape_inj c d r1 r2 : escape c ++ r1 = escape d ++ r2 -> c = d /\ r1 = r2.
Proof.
  intros H. assert (c = d) as <-; [|split; [done|by apply app_inv_head in H]].
  destruct (le_ge_dec (length (escape c)) (length (escape d))) as [Hl|Hl]; [|symmetry]; apply escape_prefix_eq;
    unfold escape_prefix; apply bool_decide_eq_true.
  - apply (f_equal (take (length (escape c)))) in H. by rewrite take_app_length, take_app_le in H by lia.
  - apply (f_equal (take (length (escape d)))) in H. by rewrite take_app_length, take_app_le in H by lia.
Qed.

Lemma escape_head c : forall r r', escape c ++ r <> quote :: r'.
Proof. destruct c; discriminate. Qed.

Lemma escaped_inj s1 s2 r1 r2 :
  (s1 ≫= escape) ++ quote :: r1 = (s2 ≫= escape) ++ quote :: r2 -> s1 = s2 /\ r1 = r2.
Proof.
  revert s2. induction s1 as [|c s1 IH]; intros [|d s2] H; rewrite ?list_bind_cons, <- ?(assoc_L (++)) in H; cbn in H.
  - by injection H.
  - by symmetry in H; apply escape_head in H.
  - by apply escape_head in H.
  - apply escape_inj in H as [-> H]. by destruct (IH s2 H) as [-> ->].
Qed.

(** A string shows where it ends. *)
Lemma string_inj s1 s2 r1 r2 :
  writeCanonicalString s1 ++ r1 = writeCanonicalString s2 ++ r2 -> s1 = s2 /\ r1 = r2.
Proof.
  unfold writeCanonicalString. rewrite <- !(assoc_L (++)). intros [= H]. by apply escaped_inj.
Qed.

(* ------------------------------------------------------------------ *)
(** ** Values: the canonical form shows where it ends *)

(** What may follow a value. *)
Definition ends (r : bytes) : Prop := match r with [] => True | c :: _ => num_char c = false end.

Lemma number_inj t1 t2 r1 r2 :
  Forall (fun c => num_char c = true) t1 -> Forall (fun c => num_char c = true) t2 -> ends r1 -> ends r2 ->
  t1 ++ r1 = t2 ++ r2 -> t1 = t2 /\ r1 = r2.
Proof.
  intros H1 H2 He1 He2. revert t2 H2. induction H1 as [|c t1 Hc H1 IH]; intros t2 H2 H; destruct H2 as [|d t2 Hd H2]; cbn in H.
  - done.
  - subst r1. cbn in He1. congruence.
  - subst r2. cbn in He2. congruence.
  - injection H as -> H. by destruct (IH t2 H2 H) as [-> ->].
Qed.

(** A value is not empty, and starts with none of the closing characters. *)
Lemma write_head v b : json_ok v -> writeCanonicalJSON v = Ok b ->
  exists c b', b = c :: b' /\ c <> comma /\ c <> Byte.x5d /\ c <> Byte.x7d /\
    (num_char c = true <-> exists t, v = JNumber t) /\
    (c = quote <-> exists s, v = JString s) /\ (c = Byte.x7b <-> exists ms, v = JObject ms) /\
    (c = Byte.x5b <-> exists es, v = JArray es).
Proof.
  intros Hok Hw. destruct v as [ms|es|t|s|[]|]; cbn [writeCanonicalJSON] in Hw.
  - inv_bind Hw. injection Hw as <-. eexists _, _. split; [reflexivity|]. split_and!; try done; split; naive_solver.
  - inv_bind Hw. injection Hw as <-. eexists _, _. split; [reflexivity|]. split_and!; try done; split; naive_solver.
  - destruct (non_integer t); [done|]. injection Hw as <-. inversion Hok as [| |? Hne Hf| | |]; subst.
    destruct t as [|c t]; [done|]. inversion Hf as [|? ? Hc]; subst. exists c, t. split; [done|].
    split_and!; try (by intros ->; vm_compute in Hc); split; try naive_solver; intros ->; by vm_compute in Hc.
  - injection Hw as <-. eexists _, _. split; [reflexivity|]. split_and!; try done; split; naive_solver.
  - injection Hw as <-. eexists _, _. split; [reflexivity|]. split_and!; try done; split; naive_solver.
  - injection Hw as <-. eexists _, _. split; [reflexivity|]. split_and!; try done; split; naive_solver.
  - done.
Qed.

(** One writer's outputs cannot be told apart from what follows otherwise. *)
Definition inj_at {A} (w : A -> result canon_error bytes) (ok : A -> Prop) (S : A -> A -> Prop) (x : A) : Prop :=
  forall y b1 b2 r1 r2, ok y -> w x = Ok b1 -> w y = Ok b2 -> ends r1 -> ends r2 -> b1 ++ r1 = b2 ++ r2 ->
    S x y /\ r1 = r2.

Lemma write_each_inj {A} (w : A -> result canon_error bytes) (ok : A -> Prop) (S : A -> A -> Prop) (close : byte) :
  close <> comma -> num_char close = false ->
  (forall x b, ok x -> w x = Ok b -> exists c b', b = c :: b' /\ c <> close) ->
  forall l1, Forall (inj_at w ok S) l1 -> Forall ok l1 -> forall first l2 c1 c2 r1 r2, Forall ok l2 ->
  write_each first (w <$> l1) = Ok c1 -> write_each first (w <$> l2) = Ok c2 ->
  c1 ++ close :: r1 = c2 ++ close :: r2 -> Forall2 S l1 l2 /\ r1 = r2.
Proof.
  intros Hcc Hnc Hhd. induction 1 as [|x l1 Hx Hl1 IH]; intros Hok1 first l2 c1 c2 r1 r2 Hok2 H1 H2 He.
  - injection H1 as <-. destruct Hok2 as [|y l2 Hy Hok2].
    { injection H2 as <-. injection He as ->. by split; [constructor|]. }
    cbn in H2. destruct (w y) as [b|] eqn:Ew; cbn in H2; [|done]. inv_bind H2. injection H2 as <-.
    destruct (Hhd y b Hy Ew) as (c & b' & -> & Hne). destruct first; cbn in He; congruence.
  - inversion Hok1 as [|? ? Hox Hok1']; subst.
    cbn in H1. destruct (w x) as [bx|] eqn:Ewx; cbn in H1; [|done]. inv_bind H1. injection H1 as <-.
    destruct Hok2 as [|y l2 Hy Hok2].
    { injection H2 as <-. destruct (Hhd x bx Hox Ewx) as (c & b' & -> & Hne). destruct first; cbn in He; congruence. }
    cbn in H2. destruct (w y) as [by_|] eqn:Ewy; cbn in H2; [|done]. inv_bind H2. injection H2 as <-.
    rewrite <- !(assoc_L (++)) in He. apply app_inv_head in He.
    assert (forall l c r, write_each false (w <$> l) = Ok c -> ends (c ++ close :: r)) as Hends.
    { intros l c r Hl. destruct l as [|z l]; [by injection Hl as <-|]. cbn in Hl. destruct (w z); cbn in Hl; [|done].
      inv_bind Hl. by injection Hl as <-. }
    destruct (Hx y bx by_ _ _ Hy Ewx Ewy (Hends _ _ _ Ha) (Hends _ _ _ Ha0) He) as [HS He'].
    destruct (IH Hok1' false l2 _ _ r1 r2 Hok2 Ha Ha0 He') as [HF ->]. by split; [constructor|].
Qed.

Lemma Ok_inj {E A} (a b : A) : Ok (E := E) a = Ok b -> a = b.
Proof. by intros [= ->]. Qed.

Lemma write_member_inj m : inj_at writeCanonicalJSON json_ok same m.2 ->
  inj_at (fun m => write_member (m.1, writeCanonicalJSON m.2)) (fun m => json_ok m.2)
    (fun x y => x.1 = y.1 /\ same x.2 y.2) m.
Proof.
  intros IH [k v] b1 b2 r1 r2 Hok H1 H2 He1 He2 He. unfold write_member in *. cbn [fst snd] in *.
  inv_bind H1. inv_bind H2. apply Ok_inj in H1 as <-, H2 as <-. rewrite <- (assoc_L (++) (writeCanonicalString m.1)), <- (assoc_L (++) (writeCanonicalString k)) in He.
  apply string_inj in He as [-> He]. injection He as He.
  by destruct (IH v _ _ r1 r2 Hok Ha Ha0 He1 He2 He) as [? ->].
Qed.

Lemma write_member_head (m : bytes * json) b : write_member (m.1, writeCanonicalJSON m.2) = Ok b ->
  exists c b', b = c :: b' /\ c <> Byte.x7d.
Proof. unfold write_member. intros H. cbn [fst snd] in H. inv_bind H. injection H as <-. by eexists _, _. Qed.

Lemma Forall_sorted {A} (P : bytes * A -> Prop) ms : Forall P ms -> Forall P (merge_sort key_le ms).
Proof. intros H. by rewrite merge_sort_Permutation. Qed.

(** Canonical forms that agree up to what follows are of the same document. *)
Lemma write_inj v : json_ok v -> inj_at writeCanonicalJSON json_ok same v.
Proof.
  induction v as [ms IH|es IH|t|s|b|] using json_rect'; intros Hok y b1 b2 r1 r2 Hy H1 H2 He1 He2 He;
    destruct (write_head _ _ Hok H1) as (c & b' & -> & Hc1 & Hc2 & Hc3 & Hn & Hq & Hob & Har);
    destruct (write_head _ _ Hy H2) as (d & b2' & -> & _ & _ & _ & Hn' & Hq' & Hob' & Har');
    injection He as <- He.
  - destruct (proj1 Hob' (proj2 Hob ltac:(by eexists))) as [ms2 ->].
    inversion Hok as [? Hnd Hf| | | | |]; subst. inversion Hy as [? Hnd2 Hf2| | | | |]; subst.
    rewrite write_object in H1, H2 by done. inv_bind H1. inv_bind H2. injection H1 as <- <-. injection H2 as <-.
    cbn in He. rewrite <- !(assoc_L (++)) in He.
    destruct (write_each_inj (fun m => write_member (m.1, writeCanonicalJSON m.2)) (fun m => json_ok m.2)
      (fun x y => x.1 = y.1 /\ same x.2 y.2) Byte.x7d) with (l1 := merge_sort key_le ms) (l2 := merge_sort key_le ms2)
      (first := true) (c1 := a) (c2 := a0) (r1 := r1) (r2 := r2) as [HF ->]; try done.
    + intros x b _. apply write_member_head.
    + apply Forall_sorted. rewrite Forall_forall in Hf, IH |- *. intros m Hm. apply write_member_inj. auto.
    + by apply Forall_sorted.
    + by apply Forall_sorted.
    + split; [|done]. apply Forall2_flip in HF.
      destruct (Permutation_Forall2 (merge_sort_Permutation key_le ms2) HF) as (ms' & Hp & HF').
      econstructor; [|apply Forall2_flip, HF']. by rewrite <- Hp, merge_sort_Permutation.
  - destruct (proj1 Har' (proj2 Har ltac:(by eexists))) as [es2 ->].
    inversion Hok as [|? Hf| | | |]; subst. inversion Hy as [|? Hf2| | | |]; subst.
    cbn [writeCanonicalJSON] in H1, H2. inv_bind H1. inv_bind H2. injection H1 as <- <-. injection H2 as <-.
    cbn in He. rewrite <- !(assoc_L (++)) in He.
    destruct (write_each_inj writeCanonicalJSON json_ok same Byte.x5d) with (l1 := es) (l2 := es2)
      (first := true) (c1 := a) (c2 := a0) (r1 := r1) (r2 := r2) as [HF ->]; try done.
    + intros x b Hx Hb. destruct (write_head x b Hx Hb) as (c & b' & ? & ? & ? & _). by exists c, b'.
    + rewrite Forall_forall in Hf, IH |- *. auto.
    + split; [by constructor|done].
  - destruct (proj1 Hn' (proj2 Hn ltac:(by eexists))) as [t2 ->].
    inversion Hok; subst. inversion Hy; subst. cbn [writeCanonicalJSON] in H1, H2.
    destruct (non_integer t), (non_integer t2); try done. injection H1 as ->. injection H2 as ->.
    destruct (number_inj (c :: b') (c :: b2') r1 r2) as [[= ->] ->]; try done; [by rewrite <- !app_comm_cons, He|].
    split; [constructor|done].
  - destruct (proj1 Hq' (proj2 Hq ltac:(by eexists))) as [s2 ->]. cbn [writeCanonicalJSON] in H1, H2.
    apply Ok_inj in H1, H2. destruct (string_inj s s2 r1 r2) as [-> ->]; [|by split; [constructor|]].
    rewrite H1, H2. by rewrite <- !app_comm_cons, He.
  - assert (exists b2, y = JBool b2) as [b2 ->].
    { destruct y; try done; [..|by eexists];
      [destruct (proj1 Hob (proj2 Hob' ltac:(by eexists)))|destruct (proj1 Har (proj2 Har' ltac:(by eexists)))
      |destruct (proj1 Hn (proj2 Hn' ltac:(by eexists)))|destruct (proj1 Hq (proj2 Hq' ltac:(by eexists)))]; done. }
    cbn [writeCanonicalJSON] in H1, H2. apply Ok_inj in H1, H2. destruct b, b2; cbn in H1, H2; simplify_eq/=;
      by split; [constructor|].
  - done.
Qed.

(** The same document has one canonical form (or one error). *)
Lemma write_same v1 : forall v2, json_ok v1 -> json_ok v2 -> same v1 v2 -> writeCanonicalJSON v1 = writeCanonicalJSON v2.
Proof.
  induction v1 as [ms IH|es IH|t|s|b|] using json_rect'; intros v2 Hok1 Hok2 Hs; inversion Hs; subst; try done.
  - inversion Hok1 as [? Hnd Hf| | | | |]; subst. inversion Hok2 as [? Hnd2 Hf2| | | | |]; subst.
    cbn [writeCanonicalJSON]. f_equal. f_equal. f_equal.
    assert (map (fun m => (m.1, writeCanonicalJSON m.2)) ms2 ≡ₚ map (fun m => (m.1, writeCanonicalJSON m.2)) ms) as Hp.
    { match goal with H : ms ≡ₚ ?k |- _ => rename k into ms'; rename H into Hpm end.
      transitivity (map (fun m => (m.1, writeCanonicalJSON m.2)) ms'); [|change (((fun m => (m.1, writeCanonicalJSON m.2)) <$> ms') ≡ₚ ((fun m => (m.1, writeCanonicalJSON m.2)) <$> ms)); by rewrite Hpm].
      apply reflexive_eq. rewrite Hpm in IH, Hf. clear -IH Hf Hf2 H1.
      induction H1 as [|x y l k [Hk Hxy] H1 IHl]; [done|]. inversion IH; inversion Hf; inversion Hf2; subst. cbn.
      rewrite Hk. f_equal; [f_equal; symmetry; auto|auto]. }
    apply sort_unique.
    + rewrite <- list_fmap_compose. by rewrite (list_fmap_ext _ fst) by done.
    + by rewrite merge_sort_Permutation.
    + apply StronglySorted_merge_sort; apply _.
  - inversion Hok1 as [|? Hf| | | |]; subst. inversion Hok2 as [|? Hf2| | | |]; subst.
    cbn [writeCanonicalJSON]. f_equal. f_equal. rename H0 into HF. clear -IH Hf Hf2 HF.
    induction HF as [|x y l k Hxy HF IHl]; [done|]. inversion IH; inversion Hf; inversion Hf2; subst. cbn.
    f_equal; auto.
Qed.

(* ------------------------------------------------------------------ *)
(** ** The signed form *)

Lemma members_ok ms : Forall (fun m => numbers_ok m.2 = true -> json_ok (decoded m.2)) ms ->
  forallb (fun m => numbers_ok m.2) ms = true -> json_ok (JObject (last_wins (map (fun m => (m.1, decoded m.2)) ms))).
Proof.
  rewrite forallb_forall, Forall_forall. intros IH Hn. constructor; [apply last_wins_NoDup|].
  apply Forall_forall. intros x Hx. apply last_wins_elem in Hx. apply list_elem_of_fmap in Hx as (m & -> & Hm).
  apply IH; [done|]. by apply Hn, list_elem_of_In.
Qed.

Lemma decoded_ok v : numbers_ok v = true -> json_ok (decoded v).
Proof.
  induction v as [ms IH|es IH|t|s|b|] using json_rect'; cbn [numbers_ok decoded]; intros Hn;
    [by apply members_ok|constructor..].
  - apply Forall_map. rewrite forallb_forall in Hn. rewrite Forall_forall in IH |- *. intros e He. apply IH; [done|].
    by apply Hn, list_elem_of_In.
  - apply andb_true_iff in Hn as [Hn _]. by apply bool_decide_eq_true in Hn.
  - apply andb_true_iff in Hn as [_ Hn]. apply Forall_forall. rewrite forallb_forall in Hn.
    intros c Hc. by apply Hn, list_elem_of_In.
Qed.

Lemma decode_map_ok v tree : numbers_ok v = true -> decode_map v = Some tree -> json_ok (JObject tree).
Proof.
  destruct v; cbn; try done; intros Hn [= <-]; [|by repeat constructor]. apply members_ok; [|done].
  apply Forall_forall. intros m _. apply decoded_ok.
Qed.

Lemma signed_part_ok tree : json_ok (JObject tree) -> json_ok (JObject (signed_part tree)).
Proof.
  intros Hok. inversion Hok as [? Hn Hf| | | | |]; subst. constructor.
  - eapply sublist_NoDup; [exact Hn|]. apply fmap_sublist, sublist_filter.
  - rewrite Forall_forall in Hf |- *. intros m Hm. apply Hf. by apply list_elem_of_filter in Hm as [].
Qed.

Section canonical.
Context `{JSON}.

(** [dec.Decode(&tree)] *)
Definition decodeTree (raw : bytes) : option (list (bytes * json)) := Decode raw ≫= decode_map.

Definition canonicalManifestBytes (raw : bytes) : result canon_error bytes :=
  match decodeTree raw with
  | None => Err CeDecode
  | Some tree => writeCanonicalJSON (JObject (signed_part tree))
  end.

Lemma decodeTree_ok raw tree : decodeTree raw = Some tree -> json_ok (JObject (signed_part tree)).
Proof.
  unfold decodeTree. destruct (Decode raw) as [v|] eqn:Hd; cbn; [|done]. intros Ht.
  apply signed_part_ok. eapply decode_map_ok; [|done]. by eapply Decode_numbers.
Qed.

(** What is signed stands for the document: two documents have one
    canonical form exactly when they are the same, at any depth up to the
    order of members, but for their signature and unprotected members. *)
Theorem canonical_unambiguous raw1 raw2 tree1 tree2 c :
  decodeTree raw1 = Some tree1 -> decodeTree raw2 = Some tree2 -> canonicalManifestBytes raw1 = Ok c ->
  canonicalManifestBytes raw2 = Ok c <-> same (JObject (signed_part tree1)) (JObject (signed_part tree2)).
Proof.
  intros H1 H2. pose proof (decodeTree_ok _ _ H1) as O1. pose proof (decodeTree_ok _ _ H2) as O2.
  unfold canonicalManifestBytes. rewrite H1, H2. intros Hc. split.
  - intros Hc2. by destruct (write_inj _ O1 _ c c [] [] O2 Hc Hc2 I I eq_refl).
  - intros Hs. by rewrite <- (write_same _ _ O1 O2 Hs).
Qed.
End canonical.
