(* ===== verification/Index.v ===== *)
(** * Dynamic indexes and their readers

    Models pbs/index.go, pbs/reader.go and pbs/indexat.go: the dynamic index
    format, the manifest lookup and index verification of a reader session,
    the ordered stream over an index ([indexReader]), and the random-access
    [IndexFile] with its shared chunk cache.  A server is a source of
    responses: nothing is assumed of what it answers. *)

From S2P Require Import Prelude Hash Blob.
Local Open Scope Z_scope.

(* ------------------------------------------------------------------ *)
(** ** The index format *)

Definition didxMagic : bytes := byte_of_Z <$> [28; 145; 78; 165; 25; 186; 179; 205].
Definition didxHeaderSize : Z := 4096.
Definition didxRecordSize : Z := 40.

Record IndexEntry := mkEntry { EndOffset : Z; Digest : bytes }.

#[export] Instance IndexEntry_eq_dec : EqDecision IndexEntry.
Proof. solve_decision. Defined.

Inductive index_error := ErrTruncated (n : Z) | ErrMagic (m : bytes) | ErrTrailing (n : Z).

(** The record loop. *)
Fixpoint index_records (n : nat) (b : bytes) : list IndexEntry :=
  match n with
  | O => []
  | S n => mkEntry (get64 b) (take 32 (drop 8 b)) :: index_records n (drop (Z.to_nat didxRecordSize) b)
  end.

Definition ParseDynamicIndex (data : bytes) : result index_error (list IndexEntry) :=
  if zlen data <? didxHeaderSize then Err (ErrTruncated (zlen data)) else
  if decide (take 8 data = didxMagic) then
    let records := drop (Z.to_nat didxHeaderSize) data in
    if zlen records mod didxRecordSize =? 0
    then Ok (index_records (Z.to_nat (zlen records / didxRecordSize)) records)
    else Err (ErrTrailing (zlen records mod didxRecordSize))
  else Err (ErrMagic (take 8 data)).

(** What the index checksum covers. *)
Definition entry_bytes (e : IndexEntry) : bytes := le64 (EndOffset e) ++ Digest e.
Definition index_bytes (entries : list IndexEntry) : bytes := entries ≫= entry_bytes.
Definition index_csum (entries : list IndexEntry) : bytes := Sum256 (index_bytes entries).

(* ------------------------------------------------------------------ *)
(** ** Reader sessions *)

(** One answer of the server to one request: no response, or a status code
    and a body. *)
Definition response := result unit (Z * bytes).

Record ManifestFile := mkFile { Filename : bytes; Csum : bytes; Size : Z; CryptLabel : bytes }.

Inductive read_error :=
  | ReTransport | ReStatus (code : Z) | ReNotFound (name : bytes) | ReMismatch (name : bytes)
  | ReNoKey (name : bytes) | ReIndex (e : index_error) | ReNotAscending | ReCsum
  | ReBlob (e : blob_error) | ReChunkSize (got want : Z) | ReChunkDigest
  | ReCanceled | ReShort (read size : Z) | ReCovers (size want : Z) | ReNegative | EOF.

(** [SnapshotManifest.file]. *)
Fixpoint manifest_file (files : list ManifestFile) (name : bytes) : option ManifestFile :=
  match files with
  | [] => None
  | f :: files => if decide (Filename f = name) then Some f else manifest_file files name
  end.

(** [ReaderSession.download]; the status is checked by the caller of
    [sessionRoundTrip]. *)
Definition download (r : response) : result read_error bytes :=
  match r with
  | Err _ => Err ReTransport
  | Ok (code, body) => if code =? 200 then Ok body else Err (ReStatus code)
  end.

Section session.
Context {ZS : Zstd}.

(** The client's key, if any, and the manifest of the snapshot. *)
Variable crypt : option cryptState.
Variable Manifest : result read_error (list ManifestFile).

Definition manifestFile (name suffix : bytes) : result read_error ManifestFile :=
  let name := if decide (suffix `suffix_of` name) then name else name ++ suffix in
  files ← Manifest;
  match manifest_file files name with
  | Some f => Ok f
  | None => Err (ReNotFound name)
  end.

Definition DownloadBlob (srv : bytes -> response) (name : bytes) : result read_error bytes :=
  f ← manifestFile name (lit ".blob");
  framed ← download (srv (Filename f));
  if decide (zlen framed = Size f /\ EncodeToString (Sum256 framed) = Csum f) then
    match decodeBlob framed crypt with Ok data => Ok data | Err e => Err (ReBlob e) end
  else Err (ReMismatch (Filename f)).

(** The ascending check of [loadIndex]. *)
Fixpoint ascending (prev : Z) (entries : list IndexEntry) : bool :=
  match entries with
  | [] => true
  | e :: entries => if EndOffset e <=? prev then false else ascending (EndOffset e) entries
  end.

Definition loadIndex (srv : bytes -> response) (name : bytes) :
    result read_error (ManifestFile * list IndexEntry * bool) :=
  f ← manifestFile name (lit ".didx");
  let keyed := bool_decide (CryptLabel f = CryptModeEncrypt) in
  if keyed && bool_decide (crypt = None) then Err (ReNoKey (Filename f)) else
  raw ← download (srv (Filename f));
  match ParseDynamicIndex raw with
  | Err e => Err (ReIndex e)
  | Ok entries =>
      if negb (ascending 0 entries) then Err ReNotAscending else
      if decide (EncodeToString (index_csum entries) = Csum f) then Ok (f, entries, keyed) else Err ReCsum
  end.

(** The digest a chunk is checked against. *)
Definition chunk_digest (keyed : bool) (plain : bytes) : bytes :=
  match keyed, crypt with
  | true, Some cs => computeDigest cs plain
  | _, _ => Sum256 plain
  end.

Definition fetchChunk (r : response) (e : IndexEntry) (size : Z) (keyed : bool) : result read_error bytes :=
  framed ← download r;
  match decodeBlob framed crypt with
  | Err e => Err (ReBlob e)
  | Ok plain =>
      if negb (zlen plain =? size) then Err (ReChunkSize (zlen plain) size) else
      if decide (chunk_digest keyed plain = Digest e) then Ok plain else Err ReChunkDigest
  end.

(* ------------------------------------------------------------------ *)
(** ** The ordered stream *)

(** [queue] holds the results of the fetches in index order: a slot is read
    when its fetch is through, so the order in which the fetches complete is
    not seen. *)
Record indexReader := mkReader {
  ir_size : Z; ir_entries : nat; ir_queue : list (result read_error bytes);
  ir_cur : bytes; ir_consumed : nat; ir_read : Z; ir_err : option read_error }.

(** [indexReader.produce]: one fetch per entry, until the context ends. *)
Fixpoint produce (start : Z) (entries : list IndexEntry) (keyed : bool) (answers : list (option response)) :
    list (result read_error bytes) :=
  match entries, answers with
  | e :: entries, Some r :: answers =>
      fetchChunk r e (u64 (EndOffset e - start)) keyed :: produce (EndOffset e) entries keyed answers
  | _, _ => []
  end.

Definition OpenDynamicIndex (srv : bytes -> response) (name : bytes) (answers : list (option response)) :
    result read_error indexReader :=
  '(f, entries, keyed) ← loadIndex srv name;
  Ok (mkReader (Size f) (length entries) (produce 0 entries keyed answers) [] 0 0 None).

(** What [Read] reports when the queue is closed. *)
Definition stream_end (ir : indexReader) : read_error :=
  if negb (ir_consumed ir =? ir_entries ir)%nat then ReCanceled
  else if negb (ir_read ir =? ir_size ir) then ReShort (ir_read ir) (ir_size ir)
  else EOF.

(** The loop of [Read]: until there are bytes to copy or an error. *)
Fixpoint Read_loop (queue : list (result read_error bytes)) (ir : indexReader) : indexReader :=
  match ir_cur ir, ir_err ir with
  | [], None =>
      match queue with
      | [] => mkReader (ir_size ir) (ir_entries ir) [] [] (ir_consumed ir) (ir_read ir) (Some (stream_end ir))
      | Err e :: queue => mkReader (ir_size ir) (ir_entries ir) queue [] (ir_consumed ir) (ir_read ir) (Some e)
      | Ok data :: queue =>
          Read_loop queue (mkReader (ir_size ir) (ir_entries ir) queue data (S (ir_consumed ir)) (ir_read ir) None)
      end
  | _, _ => ir
  end.

(** [indexReader.Read] into a buffer of [n] bytes. *)
Definition Read (n : nat) (ir : indexReader) : indexReader * result read_error bytes :=
  let ir := Read_loop (ir_queue ir) ir in
  match ir_cur ir, ir_err ir with
  | [], Some e => (ir, Err e)
  | cur, _ =>
      let got := take n cur in
      (mkReader (ir_size ir) (ir_entries ir) (ir_queue ir) (drop n cur) (ir_consumed ir)
         (u64 (ir_read ir + zlen got)) (ir_err ir), Ok got)
  end.

(** A client that reads into buffers of the given sizes: what it received,
    and the reader afterwards. *)
Fixpoint Reads (ns : list nat) (ir : indexReader) : indexReader * bytes :=
  match ns with
  | [] => (ir, [])
  | n :: ns =>
      let '(ir, r) := Read n ir in
      let '(ir', out) := Reads ns ir in
      (ir', match r with Ok d => d ++ out | Err _ => out end)
  end.

(* ------------------------------------------------------------------ *)
(** ** Random access: the chunk cache *)

Definition indexCacheChunks : nat := 8.

(** [cachedChunk]: the chunk it was added for, whether [done] is closed, the
    data or the error, and the clock of its last use. *)
Record cachedChunk := mkCached {
  cc_chunk : nat; cc_done : bool; cc_data : bytes; cc_err : option read_error; cc_used : Z }.

(** [IndexFile]: [if_heap] holds the chunk objects by address, the cache maps
    a chunk number to one; [if_fetching] are the objects whose download is
    under way, [if_failed] those whose failed fetch has yet to leave the
    cache. *)
Record IndexFile := mkIndexFile {
  if_entries : list IndexEntry; if_keyed : bool; if_ahead : nat;
  if_heap : list cachedChunk; if_cache : gmap nat nat;
  if_clock : Z; if_last : Z; if_run : nat;
  if_fetching : list nat; if_failed : list nat }.

Definition set_heap (h : list cachedChunk) (f : IndexFile) : IndexFile :=
  mkIndexFile (if_entries f) (if_keyed f) (if_ahead f) h (if_cache f) (if_clock f) (if_last f) (if_run f) (if_fetching f) (if_failed f).
Definition set_cache (c : gmap nat nat) (f : IndexFile) : IndexFile :=
  mkIndexFile (if_entries f) (if_keyed f) (if_ahead f) (if_heap f) c (if_clock f) (if_last f) (if_run f) (if_fetching f) (if_failed f).
Definition set_clock (c : Z) (f : IndexFile) : IndexFile :=
  mkIndexFile (if_entries f) (if_keyed f) (if_ahead f) (if_heap f) (if_cache f) c (if_last f) (if_run f) (if_fetching f) (if_failed f).
Definition set_seq (last : Z) (run : nat) (f : IndexFile) : IndexFile :=
  mkIndexFile (if_entries f) (if_keyed f) (if_ahead f) (if_heap f) (if_cache f) (if_clock f) last run (if_fetching f) (if_failed f).
Definition set_jobs (fetching failed : list nat) (f : IndexFile) : IndexFile :=
  mkIndexFile (if_entries f) (if_keyed f) (if_ahead f) (if_heap f) (if_cache f) (if_clock f) (if_last f) (if_run f) fetching failed.

(** [Size] of the content of an index, as an [int64]. *)
Definition index_size (entries : list IndexEntry) : Z :=
  match last entries with Some e => i64 (EndOffset e) | None => 0 end.

Definition OpenDynamicIndexAt (srv : bytes -> response) (name : bytes) (Workers : nat) :
    result read_error IndexFile :=
  '(f, entries, keyed) ← loadIndex srv name;
  let size := match last entries with Some e => EndOffset e | None => 0 end in
  if negb (size =? Size f) then Err (ReCovers size (Size f)) else
  let ahead := if decide (Workers = 0%nat) then 4%nat else Workers in
  Ok (mkIndexFile entries keyed ahead [] ∅ 0 (-1) 0 [] []).

(** [IndexFile.add], followed by the start of the fetch: in [chunk] by the
    caller itself for the chunk asked for, by a goroutine for the others. *)
Definition add (i : nat) (f : IndexFile) : IndexFile :=
  let id := length (if_heap f) in
  let f := set_heap (if_heap f ++ [mkCached i false [] None (if_clock f)]) f in
  set_jobs (id :: if_fetching f) (if_failed f) (set_cache (<[i := id]> (if_cache f)) f).

(** The read-ahead loop: the [n] chunks from [j]. *)
Fixpoint read_ahead (n j : nat) (f : IndexFile) : IndexFile :=
  match n with
  | O => f
  | S n =>
      if (j <? length (if_entries f))%nat then
        read_ahead n (S j) (match if_cache f !! j with Some _ => f | None => add j f end)
      else f
  end.

(** The victim [evict] picks, the map being ranged over in the given order. *)
Fixpoint victim (heap : list cachedChunk) (cache : gmap nat nat) (order : list nat) (best : option (nat * Z)) : option (nat * Z) :=
  match order with
  | [] => best
  | i :: order =>
      victim heap cache order
        match cache !! i ≫= (heap !!.) with
        | Some c =>
            if cc_done c then
              match best with
              | None => Some (i, cc_used c)
              | Some (_, u) => if cc_used c <? u then Some (i, cc_used c) else best
              end
            else best
        | None => best
        end
  end.

(** [IndexFile.evict]; [order] is the iteration order of the map, which Go
    leaves open. *)
Fixpoint evict (fuel : nat) (order : gmap nat nat -> list nat) (f : IndexFile) : IndexFile :=
  match fuel with
  | O => f
  | S fuel =>
      if (indexCacheChunks + 2 * if_ahead f <? size (if_cache f))%nat then
        match victim (if_heap f) (if_cache f) (order (if_cache f)) None with
        | None => f
        | Some (i, _) => evict fuel order (set_cache (delete i (if_cache f)) f)
        end
      else f
  end.

(** The critical section of [chunk]: the object its caller waits for, and the
    state it leaves. *)
Definition chunk (order : gmap nat nat -> list nat) (i : nat) (f : IndexFile) : IndexFile * nat :=
  let f := set_clock (u64 (if_clock f + 1)) f in
  let '(f, id) :=
    match if_cache f !! i with
    | Some id => (set_heap (alter (fun c => mkCached (cc_chunk c) (cc_done c) (cc_data c) (cc_err c) (if_clock f)) id (if_heap f)) f, id)
    | None => (add i f, length (if_heap f))
    end in
  let f :=
    if (0 <=? if_last f) && (Z.of_nat i =? if_last f + 1) then
      let run := Nat.min (S (if_run f)) (if_ahead f) in
      read_ahead run (S i) (set_seq (if_last f) run f)
    else if negb (Z.of_nat i =? if_last f) then set_seq (if_last f) 0 f
    else f in
  let f := set_seq (Z.of_nat i) (if_run f) f in
  (evict (size (if_cache f)) order f, id).

(** The bytes of chunk [i] by its index entries. *)
Definition chunk_size (entries : list IndexEntry) (i : nat) : Z :=
  match entries !! i with
  | Some e =>
      let start := match i with O => 0 | S j => match entries !! j with Some p => EndOffset p | None => 0 end end in
      u64 (EndOffset e - start)
  | None => 0
  end.

Definition fetch_chunk (r : response) (entries : list IndexEntry) (i : nat) (keyed : bool) : result read_error bytes :=
  match entries !! i with
  | Some e => fetchChunk r e (chunk_size entries i) keyed
  | None => Err ReTransport
  end.

(** [IndexFile.fetch], until [close(c.done)]: the download got [r]. *)
Definition fetched (id : nat) (r : response) (f : IndexFile) : option IndexFile :=
  if decide (id ∈ if_fetching f) then
    c ← if_heap f !! id;
    let '(data, err) :=
      match fetch_chunk r (if_entries f) (cc_chunk c) (if_keyed f) with
      | Ok d => (d, None) | Err e => ([], Some e)
      end in
    let f := set_heap (<[id := mkCached (cc_chunk c) true data err (cc_used c)]> (if_heap f)) f in
    Some (set_jobs (filter (.≠ id) (if_fetching f))
            (match err with Some _ => id :: if_failed f | None => if_failed f end) f)
  else None.

(** ... and its end when the chunk was not had. *)
Definition uncache (id : nat) (f : IndexFile) : option IndexFile :=
  if decide (id ∈ if_failed f) then
    c ← if_heap f !! id;
    let f := set_jobs (if_fetching f) (filter (.≠ id) (if_failed f)) f in
    Some (if decide (if_cache f !! cc_chunk c = Some id) then set_cache (delete (cc_chunk c) (if_cache f)) f else f)
  else None.

(** What a caller of [chunk] waiting for an object gets, once it is done. *)
Definition chunk_result (f : IndexFile) (id : nat) : option (result read_error bytes) :=
  c ← if_heap f !! id;
  if cc_done c then Some (match cc_err c with Some e => Err e | None => Ok (cc_data c) end) else None.

(** The interleavings: callers entering [chunk] for a chunk of the index,
    fetches completing. *)
Inductive cache_step : IndexFile -> IndexFile -> Prop :=
  | step_chunk order i f :
      (i < length (if_entries f))%nat -> (forall m, order m ≡ₚ (map_to_list m).*1) ->
      cache_step f (fst (chunk order i f))
  | step_fetched id r f f' : fetched id r f = Some f' -> cache_step f f'
  | step_uncache id f f' : uncache id f = Some f' -> cache_step f f'.

(** [ReadAt] into [n] bytes; [chunk] gives the result of the [k]-th call of
    [f.chunk].  [None] is a panic (an index or slice out of range). *)
Fixpoint ReadAt_loop (fuel : nat) (entries : list IndexEntry) (chunk : nat -> nat -> result read_error bytes)
    (k i n : nat) (off : Z) : option (bytes * option read_error) :=
  match fuel with
  | O => None
  | S fuel =>
      if decide (0 < n)%nat then
        if off <? index_size entries then
          e ← entries !! i;
          match chunk k i with
          | Err err => Some ([], Some err)
          | Ok data =>
              let start := i64 (EndOffset e) - zlen data in
              if decide (0 <= off - start <= zlen data) then
                let got := take n (drop (Z.to_nat (off - start)) data) in
                '(out, err) ← ReadAt_loop fuel entries chunk (S k) (S i) (n - length got) (off + zlen got);
                Some (got ++ out, err)
              else None
          end
        else Some ([], Some EOF)
      else Some ([], None)
  end.

Definition ReadAt (entries : list IndexEntry) (chunk : nat -> nat -> result read_error bytes) (n : nat) (off : Z) :
    option (bytes * option read_error) :=
  if off <? 0 then Some ([], Some ReNegative) else
  let i := Search (length entries)
    (fun i => match entries !! i with Some e => off <? EndOffset e | None => false end) in
  ReadAt_loop (S (S (length entries))) entries chunk 0 i n off.

(* ------------------------------------------------------------------ *)
(** ** Specification: the content behind an index *)

(** The index of a chunk sequence. *)
Fixpoint index_of (keyed : bool) (start : Z) (xs : list bytes) : list IndexEntry :=
  match xs with
  | [] => []
  | x :: xs => mkEntry (start + zlen x) (chunk_digest keyed x) :: index_of keyed (start + zlen x) xs
  end.

(** [ps] are chunks with the sizes and digests of [entries]. *)
Fixpoint chunks_of (keyed : bool) (start : Z) (entries : list IndexEntry) (ps : list bytes) : Prop :=
  match entries, ps with
  | [], [] => True
  | e :: entries, p :: ps =>
      zlen p = u64 (EndOffset e - start) /\ chunk_digest keyed p = Digest e /\
      chunks_of keyed (EndOffset e) entries ps
  | _, _ => False
  end.

(** Where the chunk after [entries] starts. *)
Definition index_end (start : Z) (entries : list IndexEntry) : Z :=
  foldl (fun _ e => EndOffset e) start entries.

(** The results queued for the chunks of [entries]: what is not an error is
    the chunk asked for. *)
Fixpoint queue_ok (keyed : bool) (start : Z) (entries : list IndexEntry) (q : list (result read_error bytes)) : Prop :=
  match q, entries with
  | [], _ => True
  | Ok p :: q, e :: entries =>
      zlen p = u64 (EndOffset e - start) /\ chunk_digest keyed p = Digest e /\ queue_ok keyed (EndOffset e) entries q
  | Err err :: _, _ :: _ => err <> EOF
  | _, [] => False
  end.

(** A reader of [entries] that has delivered [out]: the chunks consumed so
    far are [out] and what is left of the current one; all chunks are of [P],
    those the server sent. *)
Definition delivered (P : bytes -> Prop) (keyed : bool) (entries : list IndexEntry) (ir : indexReader) (out : bytes) : Prop :=
  exists es rest ps,
    entries = es ++ rest /\ ir_entries ir = length entries /\ ir_consumed ir = length es /\
    chunks_of keyed 0 es ps /\ out ++ ir_cur ir = mjoin ps /\ ir_read ir = u64 (zlen out) /\
    Forall P ps /\ (forall p, Ok p ∈ ir_queue ir -> P p) /\
    (ir_err ir = None -> queue_ok keyed (index_end 0 es) rest (ir_queue ir)) /\
    (ir_err ir = Some EOF -> ir_cur ir = [] /\ rest = [] /\ ir_read ir = ir_size ir).

(* ------------------------------------------------------------------ *)
(** ** Lemmas: the format *)

Lemma length_chunk_digest keyed p : length (chunk_digest keyed p) = 32%nat.
Proof. unfold chunk_digest, computeDigest, keyed_digest. repeat case_match; apply length_Sum256. Qed.

Definition entry_wf (e : IndexEntry) : Prop := is_u64 (EndOffset e) /\ length (Digest e) = 32%nat.

Lemma index_records_wf n b : length b = (40 * n)%nat -> Forall entry_wf (index_records n b).
Proof.
  revert b. induction n as [|n IH]; intros b Hb; constructor.
  - split; [apply get64_range|]. change (length (take 32 (drop 8 b)) = 32%nat). rewrite length_take, length_drop. lia.
  - apply IH. rewrite length_drop. change (Z.to_nat didxRecordSize) with 40%nat. lia.
Qed.

Lemma ParseDynamicIndex_wf data entries : ParseDynamicIndex data = Ok entries -> Forall entry_wf entries.
Proof.
  unfold ParseDynamicIndex. destruct (_ <? _); [done|]. destruct (decide _); [|done].
  set (r := drop _ data). destruct (Z.eqb_spec (zlen r mod didxRecordSize) 0) as [Hm|]; intros [= <-].
  apply index_records_wf. unfold didxRecordSize in *. pose proof (Z.div_mod (zlen r) 40). lia.
Qed.

Lemma length_entry_bytes e : entry_wf e -> length (entry_bytes e) = 40%nat.
Proof. intros [_ H]. unfold entry_bytes. by rewrite length_app, length_le64, H. Qed.

Lemma entry_bytes_inj e e' r r' :
  entry_wf e -> entry_wf e' -> entry_bytes e ++ r = entry_bytes e' ++ r' -> e = e' /\ r = r'.
Proof.
  intros Hw Hw' H. apply app_inj_1 in H as [H ->]; [|by rewrite !length_entry_bytes].
  unfold entry_bytes in H. apply app_inj_1 in H as [H Hd]; [|by rewrite !length_le64].
  apply le64_inj in H; [|apply Hw|apply Hw']. split; [|done]. destruct e, e'. cbn in *. congruence.
Qed.

Lemma index_bytes_inj es es' :
  Forall entry_wf es -> Forall entry_wf es' -> index_bytes es = index_bytes es' -> es = es'.
Proof.
  intros H. revert es'. unfold index_bytes. induction H as [|e es He H IH]; intros es' H' Heq.
  - destruct H' as [|e' es' He' _]; [done|]. apply (f_equal length) in Heq.
    rewrite list_bind_cons, length_app, length_entry_bytes in Heq by done. cbn in Heq. lia.
  - destruct H' as [|e' es' He' H'].
    + apply (f_equal length) in Heq. rewrite list_bind_cons, length_app, length_entry_bytes in Heq by done. cbn in Heq. lia.
    + rewrite !list_bind_cons in Heq. apply entry_bytes_inj in Heq as [-> Heq]; [|done..]. by rewrite (IH es').
Qed.

Lemma index_of_wf keyed start xs :
  0 <= start -> start + zlen (mjoin xs) < 2 ^ 64 -> Forall entry_wf (index_of keyed start xs).
Proof.
  revert start. induction xs as [|x xs IH]; intros start Hs Hl; constructor;
    change (mjoin (x :: xs)) with (x ++ mjoin xs) in Hl; rewrite length_app in Hl.
  - split; [unfold is_u64; cbn [EndOffset]; lia|apply length_chunk_digest].
  - apply IH; lia.
Qed.

Lemma index_end_app start es es' : index_end start (es ++ es') = index_end (index_end start es) es'.
Proof. apply foldl_app. Qed.

Lemma chunks_of_app keyed start es ps es' ps' :
  chunks_of keyed start es ps -> chunks_of keyed (index_end start es) es' ps' ->
  chunks_of keyed start (es ++ es') (ps ++ ps').
Proof.
  revert start ps. induction es as [|e es IH]; intros start [|p ps]; try done.
  cbn [chunks_of app]. intros (H1 & H2 & H3) H. by split_and!; [..|apply IH].
Qed.

(** Chunks verified against the index of [xs] are those of [xs] when no two
    of them collide. *)
Lemma chunks_of_index keyed start xs es ps :
  (forall p x, p ∈ ps -> x ∈ xs -> chunk_digest keyed p = chunk_digest keyed x -> p = x) ->
  es `prefix_of` index_of keyed start xs -> chunks_of keyed start es ps -> ps `prefix_of` xs.
Proof.
  revert start es ps. induction xs as [|x xs IH]; intros start es ps Hinj [k Hk] Hch.
  - symmetry in Hk. apply app_eq_nil in Hk as [-> _]. destruct ps; [|done]. apply prefix_nil.
  - destruct es as [|e es]; [destruct ps; [apply prefix_nil|done]|].
    destruct ps as [|p ps]; [done|]. cbn in Hk. injection Hk as <- Hk. destruct Hch as (_ & Hd & Hch).
    assert (p = x) as -> by (apply Hinj; [left|left|done]). apply prefix_cons.
    eapply IH; [|by exists k|exact Hch]. intros q y Hq Hy. apply Hinj; by right.
Qed.

Lemma length_chunks_of keyed start es ps : chunks_of keyed start es ps -> length ps = length es.
Proof.
  revert start ps. induction es as [|e es IH]; intros start [|p ps]; try done. intros (_ & _ & H). cbn. f_equal. eauto.
Qed.
Lemma length_index_of keyed start xs : length (index_of keyed start xs) = length xs.
Proof. revert start. induction xs; intros; cbn; auto. Qed.

(* ------------------------------------------------------------------ *)
(** ** Lemmas: the ordered stream *)

Lemma fetchChunk_spec r e size keyed :
  match fetchChunk r e size keyed with
  | Ok p => zlen p = size /\ chunk_digest keyed p = Digest e
  | Err err => err <> EOF
  end.
Proof.
  unfold fetchChunk, download. destruct r as [[code body]|]; [|done]. destruct (code =? 200); [|done]. cbn.
  destruct (decodeBlob body crypt) as [p|]; [|done]. destruct (Z.eqb_spec (zlen p) size); [|done]. cbn.
  by destruct (decide _).
Qed.

Lemma produce_ok keyed start entries answers : queue_ok keyed start entries (produce start entries keyed answers).
Proof.
  revert start answers. induction entries as [|e es IH]; intros start [|[r|] answers]; try done.
  cbn [produce queue_ok]. pose proof (fetchChunk_spec r e (u64 (EndOffset e - start)) keyed) as H.
  destruct (fetchChunk _ _ _ _) as [p|]; [|done]. destruct H. by split_and!.
Qed.

Lemma produce_le start entries keyed answers :
  forall p, Ok p ∈ produce start entries keyed answers ->
  exists r e size, Some r ∈ answers /\ fetchChunk r e size keyed = Ok p.
Proof.
  revert start answers. induction entries as [|e es IH]; intros start [|[r|] answers] p; cbn [produce];
    try (intros H; by apply elem_of_nil in H).
  intros [H|H]%elem_of_cons.
  - exists r, e, (u64 (EndOffset e - start)). split; [left|done].
  - destruct (IH _ _ _ H) as (r' & e' & sz & Hr & Hf). exists r', e', sz. split; [by right|done].
Qed.

Lemma Read_loop_delivered P keyed entries ir out q :
  q = ir_queue ir -> delivered P keyed entries ir out -> delivered P keyed entries (Read_loop q ir) out /\
  (ir_cur (Read_loop q ir) = [] -> ir_err (Read_loop q ir) <> None).
Proof.
  revert ir. induction q as [|c q IH]; intros ir Hq Hd; cbn [Read_loop].
  - destruct (ir_cur ir) as [|x cur] eqn:Hc; [|by rewrite Hc].
    destruct (ir_err ir) eqn:He; [split; [done|by rewrite He]|].
    split; [|done]. destruct Hd as (es & rest & ps & H1 & H2 & H3 & H4 & H5 & H6 & HP & HQ & H7 & H8).
    exists es, rest, ps. cbn. rewrite Hc in H5. split_and!; try done;
      [by intros p Hp%elem_of_nil|].
    intros [= He']. unfold stream_end in He'.
    destruct (Nat.eqb_spec (ir_consumed ir) (ir_entries ir)) as [Hn|]; [|done].
    destruct (Z.eqb_spec (ir_read ir) (ir_size ir)); [|done]. split_and!; [done| |done].
    rewrite H2, H3, H1, length_app in Hn. destruct rest; [done|cbn in Hn; lia].
  - destruct (ir_cur ir) as [|x cur] eqn:Hc; [|by rewrite Hc].
    destruct (ir_err ir) eqn:He; [split; [done|by rewrite He]|].
    destruct Hd as (es & rest & ps & H1 & H2 & H3 & H4 & H5 & H6 & HP & HQ & H7 & H8). rewrite <- Hq in H7, HQ. specialize (H7 He).
    destruct rest as [|e rest]; [by destruct c|].
    destruct c as [data|err].
    + apply IH; [done|]. cbn in H7. destruct H7 as (Hz & Hdg & H7).
      exists (es ++ [e]), rest, (ps ++ [data]). cbn. split_and!; try done.
      * by rewrite <- app_assoc.
      * rewrite length_app, H3. cbn. lia.
      * apply chunks_of_app; [done|]. done.
      * rewrite Hc, app_nil_r in H5. by rewrite join_app, H5; cbn; rewrite app_nil_r.
      * apply Forall_app; split; [done|]. constructor; [apply HQ; left|done].
      * intros p Hp. apply HQ. by right.
      * intros _. by rewrite index_end_app.
    + split; [|done]. exists es, (e :: rest), ps. cbn. rewrite Hc in H5. split_and!; try done.
      * intros p Hp. apply HQ. by right.
      * intros [= ->]. by destruct H7.
Qed.

Lemma Read_delivered P keyed entries ir out n :
  delivered P keyed entries ir out ->
  let '(ir', r) := Read n ir in
  delivered P keyed entries ir' (out ++ match r with Ok d => d | Err _ => [] end).
Proof.
  intros Hd. destruct (Read_loop_delivered P keyed entries ir out (ir_queue ir) eq_refl Hd) as [Hd' Hne].
  unfold Read. set (ir1 := Read_loop (ir_queue ir) ir) in *.
  destruct (ir_cur ir1) as [|x cur] eqn:Hc; [destruct (ir_err ir1) eqn:He|].
  - by rewrite app_nil_r.
  - by destruct Hne.
  - set (c := x :: cur) in *. destruct Hd' as (es & rest & ps & H1 & H2 & H3 & H4 & H5 & H6 & HP & HQ & H7 & H8).
    exists es, rest, ps. cbn [ir_entries ir_consumed ir_cur ir_read ir_queue ir_err ir_size]. split_and!; try done.
    + by rewrite <- app_assoc, take_drop, <- Hc.
    + rewrite H6, length_app, Nat2Z.inj_add. apply u64_add_l.
    + intros He. destruct (H8 He) as (Hc' & _). by rewrite Hc in Hc'.
Qed.

Lemma Reads_delivered P keyed entries ns ir out :
  delivered P keyed entries ir out ->
  let '(ir', out') := Reads ns ir in delivered P keyed entries ir' (out ++ out').
Proof.
  revert ir out. induction ns as [|n ns IH]; intros ir out Hd; cbn [Reads]; [by rewrite app_nil_r|].
  pose proof (Read_delivered P keyed entries ir out n Hd) as H1. destruct (Read n ir) as [ir1 r].
  specialize (IH _ _ H1). destruct (Reads ns ir1) as [ir2 out2].
  destruct r; rewrite <- ?app_assoc in IH; exact IH.
Qed.

Lemma open_delivered srv name answers ir :
  OpenDynamicIndex srv name answers = Ok ir ->
  exists f entries keyed,
    loadIndex srv name = Ok (f, entries, keyed) /\ delivered (fun p => Ok p ∈ produce 0 entries keyed answers) keyed entries ir [] /\
    ir_size ir = Size f /\ ir_queue ir = produce 0 entries keyed answers.
Proof.
  unfold OpenDynamicIndex. intros Ho. inv_bind Ho. destruct a as [[f entries] keyed]. injection Ho as <-.
  exists f, entries, keyed. split_and!; try done.
  exists [], entries, []. cbn. split_and!; try done. intros _. apply produce_ok.
Qed.

(** What a verified index is: the one its checksum was made of, unless two
    indexes collide. *)
Lemma loadIndex_spec srv name f entries keyed :
  loadIndex srv name = Ok (f, entries, keyed) ->
  manifestFile name (lit ".didx") = Ok f /\ keyed = bool_decide (CryptLabel f = CryptModeEncrypt) /\
  (keyed = true -> crypt <> None) /\ Forall entry_wf entries /\ ascending 0 entries = true /\
  Csum f = EncodeToString (index_csum entries) /\
  exists raw, download (srv (Filename f)) = Ok raw /\ ParseDynamicIndex raw = Ok entries.
Proof.
  unfold loadIndex. intros Hl. inv_bind Hl.
  destruct (bool_decide (CryptLabel a = CryptModeEncrypt) && bool_decide (crypt = None)) eqn:Hk; [done|].
  inv_bind Hl. destruct (ParseDynamicIndex a0) as [es|] eqn:Hp; [|done].
  destruct (negb (ascending 0 es)) eqn:Ha'; [done|]. destruct (decide _) as [Hc|]; [|done]. injection Hl as <- <- <-.
  split_and!; try done.
  - intros Hb Hn. rewrite Hb, bool_decide_eq_true_2 in Hk by done. done.
  - by eapply ParseDynamicIndex_wf.
  - by destruct (ascending 0 es).
  - by exists a0.
Qed.

Lemma loadIndex_entries srv name f entries keyed xs :
  loadIndex srv name = Ok (f, entries, keyed) ->
  Csum f = EncodeToString (index_csum (index_of keyed 0 xs)) -> zlen (mjoin xs) < 2 ^ 64 ->
  (index_csum entries = index_csum (index_of keyed 0 xs) -> index_bytes entries = index_bytes (index_of keyed 0 xs)) ->
  entries = index_of keyed 0 xs.
Proof.
  intros Hl Hc Hlen Hinj. apply loadIndex_spec in Hl as (_ & _ & _ & Hwf & _ & Hcs & _).
  apply index_bytes_inj; [done|by apply index_of_wf|]. apply Hinj.
  rewrite Hc in Hcs. by apply EncodeToString_inj in Hcs.
Qed.

(** [delivered] with the chunks the manifest speaks of. *)
Lemma delivered_prefix P keyed xs ir out :
  delivered P keyed (index_of keyed 0 xs) ir out ->
  (forall p x, P p -> x ∈ xs -> chunk_digest keyed p = chunk_digest keyed x -> p = x) ->
  out `prefix_of` mjoin xs /\ (ir_err ir = Some EOF -> out = mjoin xs).
Proof.
  intros (es & rest & ps & H1 & H2 & H3 & H4 & H5 & H6 & HP & HQ & H7 & H8) Hinj.
  rewrite Forall_forall in HP.
  assert (ps `prefix_of` xs) as [qs Hqs] by (eapply chunks_of_index; [eauto|by exists rest|done]).
  split.
  - exists (ir_cur ir ++ mjoin qs). rewrite app_assoc, H5, Hqs. by rewrite join_app.
  - intros He. destruct (H8 He) as (Hc & -> & _). rewrite Hc, app_nil_r in H5. rewrite H5. f_equal.
    assert (length ps = length xs) as Hl.
    { rewrite (length_chunks_of _ _ _ _ H4), <- (length_index_of keyed 0 xs), H1, app_nil_r. done. }
    rewrite Hqs, length_app in Hl. destruct qs; [|cbn in Hl; lia]. by rewrite app_nil_r in Hqs.
Qed.

(* ------------------------------------------------------------------ *)
(** ** Lemmas: the chunk cache *)

Definition in_flight (f : IndexFile) (id : nat) : Prop :=
  exists c, if_heap f !! id = Some c /\ cc_done c = false.

(** Every cached object is of its chunk; an object not done is in the cache
    and being fetched; one that is done holds what some answer of the server
    was accepted or refused for. *)
Record cache_inv (f : IndexFile) : Prop := {
  ci_cache i id : if_cache f !! i = Some id -> exists c, if_heap f !! id = Some c /\ cc_chunk c = i;
  ci_chunk id c : if_heap f !! id = Some c -> (cc_chunk c < length (if_entries f))%nat;
  ci_fetching id : id ∈ if_fetching f <-> in_flight f id;
  ci_flight id c : if_heap f !! id = Some c -> cc_done c = false -> if_cache f !! cc_chunk c = Some id;
  ci_done id c : if_heap f !! id = Some c -> cc_done c = true ->
    exists r, fetch_chunk r (if_entries f) (cc_chunk c) (if_keyed f) =
      match cc_err c with None => Ok (cc_data c) | Some e => Err e end }.

(** [f'] comes after [f]: objects stay what they are for. *)
Definition later (f f' : IndexFile) : Prop :=
  if_entries f' = if_entries f /\ if_keyed f' = if_keyed f /\ if_ahead f' = if_ahead f /\
  forall id c, if_heap f !! id = Some c -> exists c', if_heap f' !! id = Some c' /\ cc_chunk c' = cc_chunk c.

#[local] Instance later_preorder : PreOrder later.
Proof.
  split.
  - intros f. split_and!; eauto.
  - intros f g h (H1 & H2 & H3 & H4) (G1 & G2 & G3 & G4). split_and!; [congruence..|].
    intros id c Hc. destruct (H4 id c Hc) as (c' & Hc' & He). destruct (G4 id c' Hc') as (d & Hd & He').
    exists d. split; [done|congruence].
Qed.

Lemma fresh_id (f : IndexFile) : if_heap f !! length (if_heap f) = None.
Proof. by apply lookup_ge_None. Qed.

Lemma add_inv i f :
  cache_inv f -> (i < length (if_entries f))%nat -> if_cache f !! i = None ->
  cache_inv (add i f) /\ later f (add i f).
Proof.
  intros [I1 I2 I3 I4 I5] Hi Hn. set (new := mkCached i false [] None (if_clock f)).
  assert (forall id c, (if_heap f ++ [new]) !! id = Some c ->
    if_heap f !! id = Some c \/ id = length (if_heap f) /\ c = new) as Hsnoc.
  { intros id c. rewrite lookup_app_Some. intros [H|[Hle H]]; [by left|right].
    apply list_lookup_singleton_Some in H as [H <-]. split; [lia|done]. }
  assert (forall id c, if_heap f !! id = Some c -> (if_heap f ++ [new]) !! id = Some c) as Hold
    by (intros; by apply lookup_app_l_Some).
  assert ((if_heap f ++ [new]) !! length (if_heap f) = Some new) as Hnew by (by apply list_lookup_middle).
  split; [|split_and!; try done; intros id c Hc; exists c; split; [by apply Hold|done]].
  constructor; cbn -[lookup].
  - intros j id. rewrite lookup_insert_Some. intros [[<- <-]|[Hne Hj]]; [by eauto|].
    destruct (I1 j id Hj) as (c & Hc & He). eauto.
  - intros id c [Hc|[-> ->]]%Hsnoc; [eauto|done].
  - intros id. rewrite elem_of_cons, I3. unfold in_flight. cbn -[lookup]. split.
    + intros [->|(c & Hc & Hd)]; eauto.
    + intros (c & [Hc|[-> _]]%Hsnoc & Hd); eauto.
  - intros id c [Hc|[-> ->]]%Hsnoc Hd; [|by rewrite lookup_insert_eq].
    rewrite lookup_insert_ne; [by apply I4|]. intros ->. rewrite (I4 id c Hc Hd) in Hn. done.
  - intros id c [Hc|[-> ->]]%Hsnoc Hd; [eauto|done].
Qed.

Lemma set_misc_inv f last run clock : cache_inv f -> cache_inv (set_seq last run (set_clock clock f)).
Proof. intros []. by constructor. Qed.
Lemma set_seq_inv f last run : cache_inv f -> cache_inv (set_seq last run f).
Proof. intros []. by constructor. Qed.
Lemma set_clock_inv f clock : cache_inv f -> cache_inv (set_clock clock f).
Proof. intros []. by constructor. Qed.

Lemma read_ahead_inv n j f : cache_inv f -> cache_inv (read_ahead n j f) /\ later f (read_ahead n j f).
Proof.
  revert j f. induction n as [|n IH]; intros j f Hf; cbn [read_ahead]; [by split|].
  destruct (Nat.ltb_spec j (length (if_entries f))); [|by split].
  destruct (if_cache f !! j) eqn:Hc; [by apply IH|].
  destruct (add_inv j f) as [Ha Hl]; [done..|]. destruct (IH (S j) _ Ha) as [Hr Hl']. split; [done|by etrans].
Qed.

(** Touching a cached object. *)
Lemma touch_inv id used f :
  cache_inv f ->
  let f' := set_heap (alter (fun c => mkCached (cc_chunk c) (cc_done c) (cc_data c) (cc_err c) used) id (if_heap f)) f in
  cache_inv f' /\ later f f'.
Proof.
  intros [I1 I2 I3 I4 I5] f'. set (g := fun c => mkCached (cc_chunk c) (cc_done c) (cc_data c) (cc_err c) used) in *.
  assert (forall k c, if_heap f !! k = Some c -> exists c', if_heap f' !! k = Some c' /\
    cc_chunk c' = cc_chunk c /\ cc_done c' = cc_done c /\ cc_data c' = cc_data c /\ cc_err c' = cc_err c) as H1.
  { intros k c Hc. cbn -[lookup]. destruct (decide (k = id)) as [->|].
    - rewrite list_lookup_alter_eq, Hc. by exists (g c).
    - rewrite list_lookup_alter_ne by done. by exists c. }
  assert (forall k c', if_heap f' !! k = Some c' -> exists c, if_heap f !! k = Some c /\
    cc_chunk c' = cc_chunk c /\ cc_done c' = cc_done c /\ cc_data c' = cc_data c /\ cc_err c' = cc_err c) as H2.
  { intros k c' Hc'. destruct (if_heap f !! k) as [c|] eqn:Hc.
    - destruct (H1 k c Hc) as (d & Hd & ?). rewrite Hd in Hc'. injection Hc' as <-. eauto.
    - apply lookup_ge_None in Hc. apply lookup_lt_Some in Hc'. cbn in Hc'. rewrite length_alter in Hc'. lia. }
  split; [|split_and!; try done; intros k c Hc; destruct (H1 k c Hc) as (d & ? & ? & _); eauto].
  constructor.
  - intros i k Hk. destruct (I1 i k Hk) as (c & Hc & He). destruct (H1 k c Hc) as (d & ? & ? & _). exists d. split; [done|congruence].
  - intros k c' Hc'. destruct (H2 k c' Hc') as (c & Hc & He & _). rewrite He. exact (I2 k c Hc).
  - intros k. transitivity (in_flight f k); [apply I3|]. unfold in_flight. split.
    + intros (c & Hc & Hd). destruct (H1 k c Hc) as (d & ? & _ & ? & _). exists d. split; [done|congruence].
    + intros (c & Hc & Hd). destruct (H2 k c Hc) as (d & ? & _ & ? & _). exists d. split; [done|congruence].
  - intros k c' Hc' Hd. destruct (H2 k c' Hc') as (c & Hc & Hk & He & _). rewrite Hk. apply I4; [done|congruence].
  - intros k c' Hc' Hd. destruct (H2 k c' Hc') as (c & Hc & Hk & He & Hdt & Her). rewrite Hk, Hdt, Her. apply (I5 k); [done|congruence].
Qed.

Lemma delete_inv i f :
  cache_inv f -> (forall id c, if_cache f !! i = Some id -> if_heap f !! id = Some c -> cc_done c = true) ->
  cache_inv (set_cache (delete i (if_cache f)) f) /\ later f (set_cache (delete i (if_cache f)) f).
Proof.
  intros [I1 I2 I3 I4 I5] Hd. split; [|split_and!; eauto]. constructor; try done.
  - intros j id Hj. change (delete i (if_cache f) !! j = Some id) in Hj. apply lookup_delete_Some in Hj as [_ Hj]. eauto.
  - intros id c Hc Hf. cbn -[lookup]. rewrite lookup_delete_ne; [by apply I4|].
    intros ->. rewrite (Hd id c) in Hf; [done|by apply I4|done].
Qed.

Lemma victim_spec heap cache order best :
  match victim heap cache order best with
  | Some (i, u) => best = Some (i, u) \/
      (i ∈ order /\ exists id c, cache !! i = Some id /\ heap !! id = Some c /\ cc_done c = true)
  | None => best = None /\
      forall i id c, i ∈ order -> cache !! i = Some id -> heap !! id = Some c -> cc_done c = false
  end.
Proof.
  revert best. induction order as [|j order IH]; intros best; cbn [victim].
  { destruct best as [[i u]|]; [by left|]. split; [done|]. by intros i id c H%elem_of_nil. }
  destruct (cache !! j ≫= (heap !!.)) as [c|] eqn:Hj; [destruct (cc_done c) eqn:Hd|].
  - set (best' := match best with None => _ | Some _ => _ end). specialize (IH best').
    apply bind_Some in Hj as (id & Hid & Hc).
    assert (exists p, best' = Some p /\ (best = Some p \/ p = (j, cc_used c))) as (p & Hp & Hor).
    { unfold best'. destruct best as [[k v]|]; [destruct (_ <? _)|]; eauto. }
    destruct (victim heap cache order best') as [[i u]|]; [|by destruct IH; congruence].
    destruct IH as [IH|(Hin & IH)]; [|right; split; [by right|done]].
    rewrite Hp in IH. injection IH as ->. destruct Hor as [->|[= -> ->]]; [by left|right].
    split; [left|]. eauto.
  - specialize (IH best). destruct (victim heap cache order best) as [[i u]|].
    + destruct IH as [?|(? & ?)]; [by left|right]. split; [by right|done].
    + destruct IH as [-> IH]. split; [done|]. intros i id d [->|Hin]%elem_of_cons Hi Hh; [|eauto].
      by rewrite Hi in Hj; cbn in Hj; simplify_eq.
  - specialize (IH best). destruct (victim heap cache order best) as [[i u]|].
    + destruct IH as [?|(? & ?)]; [by left|right]. split; [by right|done].
    + destruct IH as [-> IH]. split; [done|]. intros i id d [->|Hin]%elem_of_cons Hi Hh; [|eauto].
      by rewrite Hi in Hj; cbn in Hj; simplify_eq.
Qed.

(** After eviction the cache is within its bound, or all of it is in flight. *)
Lemma evict_spec fuel order f :
  (forall m, order m ≡ₚ (map_to_list m).*1) -> (size (if_cache f) <= fuel)%nat -> cache_inv f ->
  let f' := evict fuel order f in
  cache_inv f' /\ later f f' /\ if_heap f' = if_heap f /\
  ((size (if_cache f') <= indexCacheChunks + 2 * if_ahead f')%nat \/
   forall i id, if_cache f' !! i = Some id -> in_flight f' id).
Proof.
  intros Ho. revert f. induction fuel as [|fuel IH]; intros f Hs Hf; cbn [evict].
  { split_and!; try done. left. lia. }
  destruct (Nat.ltb_spec (indexCacheChunks + 2 * if_ahead f) (size (if_cache f))) as [Hlt|Hle]; [|by split_and!; [..|left]].
  pose proof (victim_spec (if_heap f) (if_cache f) (order (if_cache f)) None) as Hv.
  destruct (victim _ _ _ _) as [[i u]|].
  - destruct Hv as [?|(_ & id & c & Hi & Hc & Hd)]; [done|].
    destruct (delete_inv i f) as [Hf' Hl]; [done| |].
    { intros id' c' Hi' Hc'. simplify_eq. done. }
    set (g := set_cache _ f) in *. destruct (IH g) as (I1 & I2 & I3 & I4); [|done|].
    { cbn. rewrite map_size_delete_Some by eauto. lia. }
    split_and!; [done|by etrans|done|done].
  - split_and!; try done. right. intros i id Hi. destruct (ci_cache f Hf i id Hi) as (c & Hc & _).
    exists c. split; [done|]. apply (proj2 Hv i id); [|done|done].
    rewrite Ho. apply list_elem_of_fmap. exists (i, id). split; [done|]. by apply elem_of_map_to_list.
Qed.

(** The critical section of [chunk]: the caller gets the object of its chunk,
    and the window stays within its bound. *)
Lemma chunk_spec order i f f' id :
  (forall m, order m ≡ₚ (map_to_list m).*1) -> (i < length (if_entries f))%nat -> cache_inv f ->
  chunk order i f = (f', id) ->
  cache_inv f' /\ later f f' /\ (exists c, if_heap f' !! id = Some c /\ cc_chunk c = i) /\
  ((size (if_cache f') <= indexCacheChunks + 2 * if_ahead f')%nat \/
   forall j k, if_cache f' !! j = Some k -> in_flight f' k).
Proof.
  intros Ho Hi Hf Hc. unfold chunk in Hc. set (f0 := set_clock _ f) in Hc.
  assert (cache_inv f0) as Hf0 by (by apply set_clock_inv).
  set (p := match if_cache f0 !! i with Some _ => _ | None => _ end) in Hc.
  assert (cache_inv (fst p) /\ later f0 (fst p) /\ exists c, if_heap (fst p) !! snd p = Some c /\ cc_chunk c = i) as (H1 & L1 & X1).
  { unfold p. destruct (if_cache f0 !! i) as [k|] eqn:Hk; cbn [fst snd].
    - destruct (touch_inv k (if_clock f0) f0 Hf0) as [Ht Hl]. split_and!; [done|done|].
      destruct (ci_cache f0 Hf0 i k Hk) as (c & Hc' & He). destruct Hl as (_ & _ & _ & Hl).
      destruct (Hl k c Hc') as (d & ? & ?). exists d. split; [done|congruence].
    - destruct (add_inv i f0) as [Ha Hl]; [done..|]. split_and!; [done|done|].
      exists (mkCached i false [] None (if_clock f0)). split; [|done]. by apply list_lookup_middle. }
  destruct p as [f1 id1]. cbn [fst snd] in *.
  set (f2 := if (0 <=? if_last f1) && _ then _ else _) in Hc.
  assert (cache_inv f2 /\ later f1 f2) as [H2 L2].
  { unfold f2. destruct (_ && _); [|destruct (negb _)].
    - destruct (read_ahead_inv (Nat.min (S (if_run f1)) (if_ahead f1)) (S i)
        (set_seq (if_last f1) (Nat.min (S (if_run f1)) (if_ahead f1)) f1)) as [Hr Hl]; [by apply set_seq_inv|].
      split; [done|]. etrans; [|exact Hl]. split_and!; eauto.
    - split; [by apply set_seq_inv|split_and!; eauto].
    - by split. }
  injection Hc as <- <-.
  set (f3 := set_seq _ _ f2). assert (cache_inv f3) as H3 by (by apply set_seq_inv).
  destruct (evict_spec (size (if_cache f3)) order f3) as (H4 & L4 & Hh & Hb); [done|done|done|].
  assert (later f f0) as L0 by (split_and!; eauto).
  assert (later f2 f3) as L3 by (split_and!; eauto).
  split_and!; [done| |..|done].
  - etrans; [exact L0|]. etrans; [exact L1|]. etrans; [exact L2|]. etrans; [exact L3|exact L4].
  - destruct X1 as (c & Hc & He). assert (later f1 (evict (size (if_cache f3)) order f3)) as (_ & _ & _ & Hl)
      by (etrans; [exact L2|]; etrans; [exact L3|exact L4]).
    destruct (Hl id1 c Hc) as (d & ? & ?). exists d. split; [done|congruence].
Qed.

Lemma fetched_inv id r f f' : cache_inv f -> fetched id r f = Some f' -> cache_inv f' /\ later f f'.
Proof.
  intros Hf. unfold fetched. destruct (decide _) as [Hin|]; [|done].
  apply (ci_fetching f Hf) in Hin as (c & Hc & Hd). rewrite Hc. cbn [mbind option_bind].
  set (res := fetch_chunk r (if_entries f) (cc_chunk c) (if_keyed f)).
  destruct (match res with Ok _ => _ | Err _ => _ end) as [data err] eqn:Hres. intros [= <-].
  set (c' := mkCached (cc_chunk c) true data err (cc_used c)).
  destruct Hf as [I1 I2 I3 I4 I5]. pose proof (lookup_lt_Some _ _ _ Hc) as Hlt.
  assert (forall k d, <[id := c']> (if_heap f) !! k = Some d ->
    k = id /\ d = c' \/ k <> id /\ if_heap f !! k = Some d) as Hlk.
  { intros k d. destruct (decide (k = id)) as [->|].
    - rewrite list_lookup_insert_eq by done. intros [= <-]. by left.
    - rewrite list_lookup_insert_ne by done. by right. }
  split.
  - constructor; cbn -[lookup].
    + intros i k Hk. destruct (I1 i k Hk) as (d & Hk' & He). destruct (decide (k = id)) as [->|].
      * rewrite list_lookup_insert_eq by done. simplify_eq. by exists c'.
      * rewrite list_lookup_insert_ne by done. eauto.
    + intros k d [[-> ->]|[_ Hk]]%Hlk; [cbn; eauto|eauto].
    + intros k. rewrite list_elem_of_filter, I3. unfold in_flight. cbn -[lookup]. split.
      * intros [Hne (d & Hk & Hfl)]. exists d. by rewrite list_lookup_insert_ne.
      * intros (d & [[-> ->]|[Hne Hk]]%Hlk & Hfl); [done|eauto].
    + intros k d [[-> ->]|[_ Hk]]%Hlk Hfl; [done|eauto].
    + intros k d [[-> ->]|[_ Hk]]%Hlk Hdn; [|eauto]. exists r. cbn [c' cc_chunk cc_err cc_data]. fold res.
      destruct res; by injection Hres as <- <-.
  - split_and!; try done. intros k d Hk. cbn -[lookup]. destruct (decide (k = id)) as [->|].
    + rewrite list_lookup_insert_eq by done. simplify_eq. by exists c'.
    + rewrite list_lookup_insert_ne by done. eauto.
Qed.

Lemma set_jobs_failed_inv l f : cache_inv f -> cache_inv (set_jobs (if_fetching f) l f).
Proof. intros []. by constructor. Qed.

(** Failed objects are done: dropping one never drops a fetch under way. *)
Definition failed_done (f : IndexFile) : Prop :=
  forall id, id ∈ if_failed f -> exists c, if_heap f !! id = Some c /\ cc_done c = true.

Lemma uncache_inv id f f' : cache_inv f -> failed_done f -> uncache id f = Some f' -> cache_inv f' /\ later f f'.
Proof.
  intros Hf Hfd. unfold uncache. destruct (decide _) as [Hin|]; [|done].
  destruct (Hfd id Hin) as (c & Hc & Hd). rewrite Hc. cbn [mbind option_bind].
  set (f0 := set_jobs (if_fetching f) _ f). intros [= <-].
  assert (cache_inv f0) as Hf0 by (by apply set_jobs_failed_inv). assert (later f f0) as L by (split_and!; eauto).
  destruct (decide _) as [He|]; [|by split].
  destruct (delete_inv (cc_chunk c) f0) as [H1 H2]; [done| |split; [done|by etrans]].
  intros k d Hk Hd'. change (if_cache f0) with (if_cache f) in Hk. change (if_cache f0) with (if_cache f) in He. rewrite He in Hk. injection Hk as <-. change (if_heap f0) with (if_heap f) in Hd'. simplify_eq. done.
Qed.

Lemma evict_fields fuel order f :
  if_heap (evict fuel order f) = if_heap f /\ if_failed (evict fuel order f) = if_failed f.
Proof.
  revert f. induction fuel as [|fuel IH]; intros f; cbn [evict]; [done|].
  destruct (_ <? _)%nat; [|done]. destruct (victim _ _ _ _) as [[i u]|]; [|done].
  destruct (IH (set_cache (delete i (if_cache f)) f)) as [-> ->]. done.
Qed.

Definition done_stays (f f' : IndexFile) : Prop :=
  if_failed f' = if_failed f /\
  forall id c, if_heap f !! id = Some c -> exists c', if_heap f' !! id = Some c' /\ cc_done c' = cc_done c.

#[local] Instance done_stays_preorder : PreOrder done_stays.
Proof.
  split; [split; eauto|]. intros f g h [E H] [E' H']. split; [congruence|]. intros id c Hc.
  destruct (H id c Hc) as (c' & Hc' & He). destruct (H' id c' Hc') as (d & Hd & He'). exists d. split; [done|congruence].
Qed.

Lemma add_done_stays i f : done_stays f (add i f).
Proof. split; [done|]. intros id c Hc. exists c. split; [by apply lookup_app_l_Some|done]. Qed.

Lemma read_ahead_done_stays n j f : done_stays f (read_ahead n j f).
Proof.
  revert j f. induction n as [|n IH]; intros j f; cbn [read_ahead]; [done|].
  destruct (_ <? _)%nat; [|done]. destruct (if_cache f !! j); [done|]. etrans; [apply add_done_stays|apply IH].
Qed.

Lemma chunk_done_stays order i f : done_stays f (fst (chunk order i f)).
Proof.
  unfold chunk. set (f0 := set_clock _ f). set (p := match if_cache f0 !! i with Some _ => _ | None => _ end).
  assert (done_stays f0 (fst p)) as H1.
  { unfold p. destruct (if_cache f0 !! i) as [k|]; [|apply add_done_stays]. split; [done|]. intros id c Hc.
    cbn -[lookup]. destruct (decide (id = k)) as [->|].
    - rewrite list_lookup_alter_eq. change (if_heap f0) with (if_heap f) in Hc. rewrite Hc. by eexists.
    - rewrite list_lookup_alter_ne by done. eauto. }
  destruct p as [f1 id]. cbn [fst] in *.
  set (f2 := if (0 <=? if_last f1) && _ then _ else _).
  assert (done_stays f1 f2) as H2.
  { unfold f2. destruct (_ && _); [|destruct (negb _); [split; eauto|done]].
    etrans; [|apply read_ahead_done_stays]. split; eauto. }
  assert (done_stays f f0) as H0 by (split; eauto).
  etrans; [exact H0|]. etrans; [exact H1|]. etrans; [exact H2|].
  destruct (evict_fields (size (if_cache (set_seq (Z.of_nat i) (if_run f2) f2))) order (set_seq (Z.of_nat i) (if_run f2) f2)) as [Hh Hff].
  split; [done|]. intros k c Hc. exists c. split; [|done]. by rewrite Hh.
Qed.

Lemma failed_done_step f f' : cache_inv f -> failed_done f -> cache_step f f' -> failed_done f'.
Proof.
  intros Hinv Hf Hstep. destruct Hstep as [order i f Hi Ho|id r f f' Hs|id f f' Hs].
  - destruct (chunk_done_stays order i f) as [He Hst]. intros id Hin. rewrite He in Hin.
    destruct (Hf id Hin) as (c & Hc & Hd). destruct (Hst id c Hc) as (d & ? & ?). exists d. split; [done|congruence].
  - unfold fetched in Hs. destruct (decide _); [|done]. destruct (if_heap f !! id) as [c|] eqn:Hc; [|done].
    cbn [mbind option_bind] in Hs. destruct (match fetch_chunk _ _ _ _ with Ok _ => _ | Err _ => _ end) as [data err].
    injection Hs as <-. pose proof (lookup_lt_Some _ _ _ Hc) as Hlt. intros k Hk. cbn -[lookup] in *.
    destruct (decide (k = id)) as [->|Hne]; [rewrite list_lookup_insert_eq by done; eauto|].
    rewrite list_lookup_insert_ne by done. apply Hf. destruct err; [|done]. by apply elem_of_cons in Hk as [|].
  - unfold uncache in Hs. destruct (decide _); [|done]. destruct (if_heap f !! id) as [c|] eqn:Hc; [|done].
    cbn [mbind option_bind] in Hs. injection Hs as <-. intros k Hk.
    assert (k ∈ if_failed f) as Hk'.
    { destruct (decide _) in Hk; cbn in Hk; by apply list_elem_of_filter in Hk as [_ Hk]. }
    destruct (Hf k Hk') as (d & ? & ?). exists d. destruct (decide _); done.
Qed.

Lemma cache_step_inv f f' :
  cache_inv f -> failed_done f -> cache_step f f' -> cache_inv f' /\ failed_done f' /\ later f f'.
Proof.
  intros Hf Hfd Hs. pose proof (failed_done_step f f' Hf Hfd Hs) as Hfd'.
  destruct Hs as [order i f Hi Ho|id r f f' Hs|id f f' Hs].
  - destruct (chunk order i f) as [f' id] eqn:Hc. destruct (chunk_spec order i f f' id) as (? & ? & _); [done..|].
    by split_and!.
  - destruct (fetched_inv id r f f') as (? & ?); [done..|]. by split_and!.
  - destruct (uncache_inv id f f') as (? & ?); [done..|]. by split_and!.
Qed.

Lemma cache_steps_inv f f' :
  rtc cache_step f f' -> cache_inv f -> failed_done f -> cache_inv f' /\ failed_done f' /\ later f f'.
Proof.
  induction 1 as [f|f g h Hs _ IH]; intros Hf Hfd; [by split_and!|].
  destruct (cache_step_inv f g) as (? & ? & ?); [done..|]. destruct IH as (? & ? & ?); [done..|].
  split_and!; [done..|by etrans].
Qed.

Lemma open_cache_inv srv name Workers f :
  OpenDynamicIndexAt srv name Workers = Ok f -> cache_inv f /\ failed_done f.
Proof.
  unfold OpenDynamicIndexAt. intros Ho. inv_bind Ho. destruct a as [[mf entries] keyed].
  destruct (negb _); [done|]. injection Ho as <-. split; [|by intros id H%elem_of_nil].
  constructor; cbn -[lookup]; try done.
  intros id. rewrite elem_of_nil. unfold in_flight. cbn -[lookup]. split; [done|]. by intros (c & Hc & _).
Qed.

(* ------------------------------------------------------------------ *)
(** ** Lemmas: random access *)

Lemma index_of_lookup keyed start xs i :
  index_of keyed start xs !! i =
  (fun x => mkEntry (start + zlen (mjoin (take (S i) xs))) (chunk_digest keyed x)) <$> xs !! i.
Proof.
  revert start i. induction xs as [|x xs IH]; intros start [|i]; try done.
  - cbn. f_equal. f_equal. rewrite app_nil_r. lia.
  - cbn [index_of]. rewrite !lookup_cons, IH. change (take (S (S i)) (x :: xs)) with (x :: take (S i) xs).
    destruct (xs !! i); [|done]. cbn [fmap option_fmap option_map]. do 2 f_equal.
    change (mjoin (x :: take (S i) xs)) with (x ++ mjoin (take (S i) xs)). rewrite length_app. lia.
Qed.

Lemma mjoin_take_S {A} (xs : list (list A)) i x :
  xs !! i = Some x -> mjoin (take (S i) xs) = mjoin (take i xs) ++ x.
Proof. intros Hx. rewrite (take_S_r _ _ x Hx), join_app. cbn. by rewrite app_nil_r. Qed.

Lemma mjoin_take_le {A} (xs : list (list A)) i : (length (mjoin (take i xs)) <= length (mjoin xs))%nat.
Proof. rewrite <- (take_drop i xs) at 2. rewrite join_app, length_app. lia. Qed.

Lemma mjoin_take_mono {A} (xs : list (list A)) i j :
  (i <= j)%nat -> (length (mjoin (take i xs)) <= length (mjoin (take j xs)))%nat.
Proof. intros H. replace (take i xs) with (take i (take j xs)) by (rewrite take_take; f_equal; lia). apply mjoin_take_le. Qed.

Lemma index_size_of keyed xs : zlen (mjoin xs) < 2 ^ 63 -> index_size (index_of keyed 0 xs) = zlen (mjoin xs).
Proof.
  intros Hl. unfold index_size. rewrite last_lookup, length_index_of, index_of_lookup.
  destruct xs as [|x0 xs0] eqn:E; [done|]. rewrite <- E in *.
  destruct (lookup_lt_is_Some_2 xs (Nat.pred (length xs))) as [y Hy]; [rewrite E; cbn; lia|].
  rewrite Hy. cbn [fmap option_fmap option_map EndOffset].
  rewrite take_ge by lia. apply i64_small. unfold is_i64. lia.
Qed.

(** One round of the copy loop takes the next part of the range. *)
Lemma take_drop_within {A} (pre x post : list A) (n o : nat) :
  (length pre <= o <= length pre + length x)%nat ->
  let c := pre ++ x ++ post in
  let got := take n (drop (o - length pre) x) in
  take n (drop o c) = got ++ take (n - length got) (drop (o + length got) c).
Proof.
  intros Ho c got.
  assert (drop o c = drop (o - length pre) x ++ post) as Hd.
  { unfold c. rewrite drop_app_ge by lia. by rewrite drop_app_le by lia. }
  assert (length got = Nat.min n (length x - (o - length pre))) as Hg by (unfold got; rewrite length_take, length_drop; lia).
  rewrite <- drop_drop, Hd, take_app. unfold got at 1. f_equal.
  rewrite length_drop. destruct (decide (n <= length x - (o - length pre))%nat).
  - replace (n - length got)%nat with 0%nat by lia. by replace (n - _)%nat with 0%nat by lia.
  - replace (length got) with (length x - (o - length pre))%nat by lia. f_equal.
    rewrite drop_app_ge by (rewrite length_drop; lia). by rewrite length_drop, Nat.sub_diag.
Qed.

Section readat.
Variables (keyed : bool) (xs : list bytes) (chunk : nat -> nat -> result read_error bytes).
Hypothesis nonempty : Forall (fun x => x <> []) xs.
Hypothesis small : zlen (mjoin xs) < 2 ^ 63.
Hypothesis chunk_ok : forall k i d, chunk k i = Ok d -> xs !! i = Some d.

(** The loop at chunk [i], [off] inside it. *)
Lemma ReadAt_loop_spec fuel k i n off :
  (length xs - i < fuel)%nat -> (length (mjoin (take i xs)) <= off)%nat ->
  ((off < length (mjoin xs))%nat -> (off < length (mjoin (take (S i) xs)))%nat) ->
  let want := take n (drop off (mjoin xs)) in
  exists out err,
    ReadAt_loop fuel (index_of keyed 0 xs) chunk k i n (Z.of_nat off) = Some (out, err) /\
    ((out = want /\ err = (if decide (length want < n)%nat then Some EOF else None)) \/
     (exists k i e, chunk k i = Err e /\ err = Some e /\ out `prefix_of` want)).
Proof.
  revert k i n off. induction fuel as [|fuel IH]; intros k i n off Hfuel Hlo Hhi want; [lia|].
  cbn [ReadAt_loop]. rewrite index_size_of by done.
  destruct (decide (0 < n)%nat) as [Hn|Hn].
  2: { exists [], None. split; [done|left]. assert (n = 0%nat) as -> by lia. by rewrite decide_False by (cbn; lia). }
  destruct (Z.ltb_spec (Z.of_nat off) (zlen (mjoin xs))) as [Ho|Ho].
  2: { exists [], (Some EOF). split; [done|left]. unfold want. rewrite drop_ge, take_nil by lia.
       by rewrite decide_True by (cbn; lia). }
  specialize (Hhi ltac:(lia)).
  destruct (lookup_lt_is_Some_2 xs i) as [x Hx].
  { destruct (decide (i < length xs)%nat); [done|]. rewrite (take_ge xs i) in Hlo by lia. lia. }
  rewrite index_of_lookup, Hx. cbn [fmap option_fmap option_map mbind option_bind EndOffset].
  destruct (chunk k i) as [d|e] eqn:Hc.
  2: { exists [], (Some e). split; [done|right]. exists k, i, e. split_and!; [done..|]. apply prefix_nil. }
  apply chunk_ok in Hc as Hd. rewrite Hx in Hd. injection Hd as <-.
  rewrite (mjoin_take_S xs i x Hx) in Hhi |- *. rewrite length_app in Hhi |- *.
  pose proof (mjoin_take_le xs (S i)) as Hle. rewrite (mjoin_take_S xs i x Hx), length_app in Hle.
  rewrite i64_small by (unfold is_i64; lia).
  rewrite decide_True by lia.
  replace (Z.to_nat _) with (off - length (mjoin (take i xs)))%nat by lia.
  set (got := take n (drop (off - length (mjoin (take i xs))) x)).
  assert (length got = Nat.min n (length x - (off - length (mjoin (take i xs))))) as Hg
    by (unfold got; rewrite length_take, length_drop; lia).
  assert (mjoin xs = mjoin (take i xs) ++ x ++ mjoin (drop (S i) xs)) as Hsplit.
  { rewrite <- (take_drop (S i) xs) at 1. rewrite join_app, (mjoin_take_S xs i x Hx). by rewrite app_assoc. }
  assert (want = got ++ take (n - length got) (drop (off + length got) (mjoin xs))) as Hw.
  { unfold want, got. rewrite Hsplit at 1. rewrite take_drop_within by lia. by rewrite <- Hsplit. }
  replace (Z.of_nat off + zlen got) with (Z.of_nat (off + length got)) by lia.
  destruct (decide (length got = n)) as [Heq|Hne].
  - destruct fuel as [|fuel']; [pose proof (lookup_lt_Some _ _ _ Hx); lia|].
    cbn [ReadAt_loop]. rewrite decide_False by lia. cbn [mbind option_bind].
    exists (got ++ []), None. split; [done|left]. rewrite app_nil_r, Hw.
    replace (n - length got)%nat with 0%nat by lia. rewrite take_0, app_nil_r. split; [done|]. by rewrite decide_False by lia.
  - edestruct (IH (S k) (S i) (n - length got)%nat (off + length got)%nat) as (out & err & Hrun & Hout).
    { pose proof (lookup_lt_Some _ _ _ Hx). lia. }
    { rewrite (mjoin_take_S xs i x Hx), length_app. lia. }
    { intros Hlt. destruct (xs !! S i) as [y|] eqn:Hy.
      - rewrite (mjoin_take_S xs (S i) y Hy), length_app, (mjoin_take_S xs i x Hx), length_app.
        assert (y <> []) as Hne' by (eapply Forall_lookup_1 in nonempty; eauto). destruct y; [done|cbn; lia].
      - apply lookup_ge_None in Hy. rewrite (take_ge xs (S (S i))) by lia. lia. }
    rewrite Hrun. cbn [mbind option_bind]. exists (got ++ out), err. split; [done|].
    destruct Hout as [[-> ->]|(k' & i' & e & ? & ? & Hp)].
    + left. split; [done|]. rewrite Hw, length_app. set (tl := take _ (drop (off + length got) _)).
      destruct (decide (length tl < n - length got)%nat), (decide (length got + length tl < n)%nat); done || lia.
    + right. exists k', i', e. split_and!; [done..|]. rewrite Hw. by apply prefix_app.
Qed.

Lemma ReadAt_ok n off :
  0 <= off ->
  let want := take n (drop (Z.to_nat off) (mjoin xs)) in
  exists out err,
    ReadAt (index_of keyed 0 xs) chunk n off = Some (out, err) /\
    ((out = want /\ err = (if decide (length want < n)%nat then Some EOF else None)) \/
     (exists k i e, chunk k i = Err e /\ err = Some e /\ out `prefix_of` want)).
Proof.
  intros Hoff want. unfold ReadAt. rewrite (proj2 (Z.ltb_ge off 0)) by lia.
  match goal with |- context [Search _ ?f] => set (p := f) end. rewrite length_index_of.
  assert (forall a, p a = match xs !! a with Some _ => off <? zlen (mjoin (take (S a) xs)) | None => false end) as Hp.
  { intros a. unfold p. rewrite index_of_lookup. by destruct (xs !! a). }
  destruct (Search_spec (length xs) p) as (H1 & H2 & H3).
  { intros a b Hab. rewrite !Hp. destruct (lookup_lt_is_Some_2 xs a) as [x ->]; [lia|].
    destruct (lookup_lt_is_Some_2 xs b) as [y ->]; [lia|]. pose proof (mjoin_take_mono xs (S a) (S b)).
    intros Ha%Z.ltb_lt. apply Z.ltb_lt. lia. }
  set (i := Search (length xs) p) in *.
  pose proof (ReadAt_loop_spec (S (S (length xs))) 0 i n (Z.to_nat off)) as Hloop. rewrite Z2Nat.id in Hloop by lia.
  apply Hloop; [lia| |].
  - destruct i as [|j] eqn:Ei; [rewrite take_0; cbn [mjoin list_join length]; lia|]. specialize (H2 j ltac:(lia)). rewrite Hp in H2.
    destruct (lookup_lt_is_Some_2 xs j) as [x Hx]; [lia|]. rewrite Hx in H2. apply Z.ltb_ge in H2. lia.
  - intros Hlt. destruct (decide (i < length xs)%nat) as [Hi|Hi].
    + specialize (H3 Hi). rewrite Hp in H3. destruct (lookup_lt_is_Some_2 xs i) as [x Hx]; [done|].
      rewrite Hx in H3. apply Z.ltb_lt in H3. lia.
    + rewrite (take_ge xs (S i)) by lia. lia.
Qed.
End readat.

Lemma fetch_chunk_digest r entries i keyed d :
  fetch_chunk r entries i keyed = Ok d -> exists e, entries !! i = Some e /\ chunk_digest keyed d = Digest e.
Proof.
  unfold fetch_chunk. destruct (entries !! i) as [e|]; [|done]. intros Hd. exists e. split; [done|].
  pose proof (fetchChunk_spec r e (chunk_size entries i) keyed) as Hs. rewrite Hd in Hs. apply Hs.
Qed.

(* ------------------------------------------------------------------ *)
(** ** Lemmas: streaming from an honest server *)

Definition ok_bytes (r : result read_error bytes) : bytes := match r with Ok d => d | Err _ => [] end.

(** What is still to be delivered. *)
Definition pending (ir : indexReader) : bytes := ir_cur ir ++ (ir_queue ir ≫= ok_bytes).

Record honest (ir : indexReader) : Prop := {
  ho_queue : Forall (fun r => exists d, r = Ok d /\ d <> []) (ir_queue ir);
  ho_err : ir_err ir = None \/ ir_err ir = Some EOF /\ pending ir = [];
  ho_count : (ir_consumed ir + length (ir_queue ir))%nat = ir_entries ir;
  ho_size : u64 (ir_read ir + zlen (pending ir)) = ir_size ir /\ is_u64 (ir_read ir) }.

Lemma Read_loop_honest q ir :
  q = ir_queue ir -> honest ir ->
  let ir' := Read_loop q ir in
  honest ir' /\ pending ir' = pending ir /\ (pending ir = [] -> ir_err ir' = Some EOF) /\ (pending ir <> [] -> ir_cur ir' <> []).
Proof.
  revert ir. induction q as [|c q IH]; intros ir Hq [H1 H2 H3 [H4 H5]]; cbn [Read_loop].
  - destruct (ir_cur ir) as [|x cur] eqn:Hc.
    + destruct (ir_err ir) as [e|] eqn:He.
      * split; [constructor; rewrite ?He; auto|]. destruct H2 as [|[[= ->] Hp]]; [done|]. rewrite He. by split_and!.
      * assert (pending ir = []) as Hp by (unfold pending; by rewrite Hc, <- Hq). rewrite Hp in *.
        unfold stream_end. rewrite <- Hq in H3. cbn in H3. rewrite (proj2 (Nat.eqb_eq _ _)) by lia.
        cbn in H4. rewrite Z.add_0_r, u64_small in H4 by done. rewrite H4, Z.eqb_refl. cbn [negb].
        split; [|by split_and!].
        constructor; cbn; [by constructor|by right|lia|]. rewrite Z.add_0_r, u64_small; rewrite ?H4 in *; done.
    + split; [by constructor|]. split_and!; [done| |by rewrite Hc].
      intros Hp. unfold pending in Hp. by rewrite Hc in Hp.
  - destruct (ir_cur ir) as [|x cur] eqn:Hc.
    + rewrite <- Hq in H1. apply Forall_cons in H1 as [(d & -> & Hd) H1].
      assert (pending ir = d ++ (q ≫= ok_bytes)) as Hp by (unfold pending; by rewrite Hc, <- Hq).
      destruct H2 as [->|[_ Hp']]; [|rewrite Hp in Hp'; destruct d; done].
      set (ir1 := mkReader _ _ q d _ _ None). assert (pending ir1 = pending ir) as Hp1 by (rewrite Hp; done).
      destruct (IH ir1 eq_refl) as (I1 & I2 & I3 & I4).
      { constructor; [done|by left| |by rewrite Hp1]. cbn. rewrite <- Hq in H3. cbn in H3. lia. }
      rewrite Hp1 in *. by split_and!.
    + split; [by constructor|]. split_and!; [done| |by rewrite Hc].
      intros Hp. unfold pending in Hp. by rewrite Hc in Hp.
Qed.

Lemma Read_honest n ir :
  (0 < n)%nat -> honest ir ->
  let '(ir', r) := Read n ir in
  honest ir' /\ pending ir = ok_bytes r ++ pending ir' /\
  (pending ir = [] -> ir_err ir' = Some EOF) /\ (pending ir <> [] -> ok_bytes r <> []).
Proof.
  intros Hn Hh. unfold Read. destruct (Read_loop_honest (ir_queue ir) ir eq_refl Hh) as (H & Hp & He & Hne).
  set (ir1 := Read_loop (ir_queue ir) ir) in *.
  destruct (ir_cur ir1) as [|x cur] eqn:Hc; [destruct (ir_err ir1) as [e|] eqn:Hr|].
  - split_and!; [done|by rewrite Hp|by rewrite Hr|]. intros Hn0. by apply Hne in Hn0.
  - exfalso. assert (pending ir <> []) as H0 by (intros H0; by apply He in H0). by apply Hne in H0.
  - set (c := x :: cur) in *. destruct H as [H1 H2 H3 [H4 H5]].
    set (ir2 := mkReader _ _ _ (drop n c) _ _ _).
    assert (pending ir1 = take n c ++ pending ir2) as Hp2.
    { unfold pending at 1. rewrite Hc. unfold pending. cbn [ir2 ir_cur ir_queue]. by rewrite app_assoc, take_drop. }
    rewrite <- Hp in *. split_and!; [|done| |].
    + constructor; [done| |done|].
      * destruct H2 as [H2|[_ H2]]; [by left|]. rewrite Hp2 in H2. destruct n; [lia|done].
      * split; [|apply u64_range]. cbn [ir2 ir_read ir_size]. rewrite u64_add_l, <- H4, Hp2, length_app. f_equal. lia.
    + intros H0. rewrite Hp2 in H0. destruct n; [lia|done].
    + intros _. cbn [ok_bytes]. destruct n; [lia|done].
Qed.

(** Enough reads of at least a byte deliver it all, and then [EOF]. *)
Lemma Reads_honest ns ir :
  honest ir -> Forall (lt 0) ns -> (length (pending ir) < length ns)%nat ->
  let '(ir', out) := Reads ns ir in out = pending ir /\ ir_err ir' = Some EOF.
Proof.
  revert ir. induction ns as [|n ns IH]; intros ir Hh Hn Hl; [cbn in Hl; lia|].
  apply Forall_cons in Hn as [Hn0 Hn]. cbn [Reads].
  pose proof (Read_honest n ir Hn0 Hh) as HR. destruct (Read n ir) as [ir1 r]. destruct HR as (H1 & H2 & H3 & H4).
  destruct (decide (pending ir = [])) as [Hp|Hp].
  - rewrite Hp in H2. symmetry in H2. apply app_eq_nil in H2 as [Hr Hp1].
    destruct (decide (ns = [])) as [->|Hns].
    + cbn [Reads]. split; [|by apply H3]. rewrite Hp. destruct r as [d|]; [|done]. cbn in Hr. by rewrite Hr.
    + specialize (IH ir1 H1 Hn). destruct (Reads ns ir1) as [ir2 out]. destruct IH as [-> He].
      { rewrite Hp1. destruct ns; [done|cbn; lia]. }
      split; [|done]. rewrite Hp1, Hp. destruct r; cbn in Hr |- *; [by rewrite Hr|done].
  - specialize (H4 Hp). specialize (IH ir1 H1 Hn). destruct (Reads ns ir1) as [ir2 out]. destruct IH as [-> He].
    { rewrite H2, length_app in Hl. cbn in Hl. destruct (ok_bytes r); [done|cbn in Hl; lia]. }
    split; [|done]. rewrite H2. by destruct r.
Qed.

(** The answers of a server that has the chunks. *)
Definition served (keyed : bool) (xs : list bytes) (answers : list (option response)) : Prop :=
  Forall2 (fun x a => exists body, a = Some (Ok (200, body)) /\ decodeBlob body crypt = Ok x) xs answers.

Lemma produce_served keyed start xs answers :
  0 <= start -> start + zlen (mjoin xs) < 2 ^ 64 -> served keyed xs answers ->
  produce start (index_of keyed start xs) keyed answers = Ok <$> xs.
Proof.
  intros H0 Hl Hs. revert start H0 Hl. induction Hs as [|x a xs answers (body & -> & Hd) Hs IH]; intros start H0 Hl; [done|].
  change (mjoin (x :: xs)) with (x ++ mjoin xs) in Hl. rewrite length_app in Hl.
  cbn [index_of produce EndOffset fmap list_fmap]. f_equal; [|apply IH; lia].
  unfold fetchChunk, download. rewrite Z.eqb_refl. cbn [mbind result_bind]. rewrite Hd.
  rewrite u64_small by (unfold is_u64; lia). replace (start + zlen x - start) with (zlen x) by lia.
  rewrite Z.eqb_refl. cbn [negb]. by rewrite decide_True.
Qed.

Lemma stream_complete srv name answers f keyed xs ns :
  loadIndex srv name = Ok (f, index_of keyed 0 xs, keyed) -> Size f = zlen (mjoin xs) ->
  zlen (mjoin xs) < 2 ^ 64 -> Forall (fun x => x <> []) xs -> served keyed xs answers ->
  Forall (lt 0) ns -> (length (mjoin xs) < length ns)%nat ->
  exists ir ir', OpenDynamicIndex srv name answers = Ok ir /\ Reads ns ir = (ir', mjoin xs) /\ ir_err ir' = Some EOF.
Proof.
  intros Hl Hsz Hlen Hne Hs Hns Hn. unfold OpenDynamicIndex. rewrite Hl. cbn [mbind result_bind].
  rewrite produce_served by (done || lia). set (ir := mkReader _ _ _ _ _ _ _). exists ir.
  assert (pending ir = mjoin xs) as Hp.
  { unfold pending. cbn. clear. induction xs as [|x xs IH]; [done|]. cbn. by rewrite IH. }
  pose proof (Reads_honest ns ir) as HR. destruct (Reads ns ir) as [ir' out]. destruct HR as [-> He].
  - constructor; cbn [ir ir_queue ir_err ir_consumed ir_entries ir_read ir_size].
    + apply Forall_fmap. eapply Forall_impl; [exact Hne|]. intros x Hx. by exists x.
    + by left.
    + by rewrite length_fmap, length_index_of.
    + split; [|done]. rewrite Hp, Hsz. apply u64_small. unfold is_u64. lia.
  - done.
  - by rewrite Hp.
  - exists ir'. by rewrite <- Hp.
Qed.
End session.

(* ------------------------------------------------------------------ *)
(** ** Theorems *)

Section theorems.
Context {ZS : Zstd}.
Variable crypt : option cryptState.
Variable Manifest : result read_error (list ManifestFile).

(** C9: Whatever the server answers, a stream opened on an index delivers a
    prefix of the content the manifest speaks of, and [io.EOF] only after all
    of it: tampered, swapped, truncated or missing chunks end in another
    error.  The content is the one the manifest's checksum was made of; the
    assumption on SHA-256 is that what the server did send does not collide
    with it. *)
Theorem index_read_integrity srv name answers f xs ns ir ir' out :
  manifestFile Manifest name (lit ".didx") = Ok f ->
  let keyed := bool_decide (CryptLabel f = CryptModeEncrypt) in
  let index := index_of crypt keyed 0 xs in
  Csum f = EncodeToString (index_csum index) -> zlen (mjoin xs) < 2 ^ 64 ->
  (forall raw entries, download (srv (Filename f)) = Ok raw -> ParseDynamicIndex raw = Ok entries ->
    index_csum entries = index_csum index -> index_bytes entries = index_bytes index) ->
  (forall code body p x, Some (Ok (code, body)) ∈ answers -> decodeBlob body crypt = Ok p -> x ∈ xs ->
    chunk_digest crypt keyed p = chunk_digest crypt keyed x -> p = x) ->
  OpenDynamicIndex crypt Manifest srv name answers = Ok ir -> Reads ns ir = (ir', out) ->
  out `prefix_of` mjoin xs /\ (ir_err ir' = Some EOF -> out = mjoin xs).
Proof.
  intros Hm keyed index Hc Hlen Hidx Hchunk Hopen Hreads.
  apply open_delivered in Hopen as (f' & entries & k & Hload & Hdel & _).
  pose proof Hload as (Hm' & -> & _ & _ & _ & _ & raw & Hraw & Hparse)%loadIndex_spec.
  rewrite Hm in Hm'. injection Hm' as <-. fold keyed in Hload, Hdel.
  assert (entries = index) as ->.
  { eapply loadIndex_entries; [exact Hload|exact Hc|exact Hlen|]. by apply (Hidx raw). }
  pose proof (Reads_delivered crypt _ _ _ ns _ _ Hdel) as HR. rewrite Hreads in HR. cbn [app] in HR.
  eapply delivered_prefix; [exact HR|]. intros p x Hp Hx Hd.
  apply produce_le in Hp as (r & e & sz & Hr & Hf). unfold fetchChunk, download in Hf.
  destruct r as [[code body]|]; [|done]. destruct (code =? 200); [|done]. cbn in Hf.
  destruct (decodeBlob body crypt) as [q|] eqn:Hq; [|done].
  destruct (negb _); [done|]. destruct (decide _); [|done]. injection Hf as ->. by eapply Hchunk.
Qed.

(** C31: Random access.  If every chunk handed to [ReadAt] is one [fetchChunk]
    accepted for its entry, a read returns exactly the range asked for, with
    [io.EOF] exactly when the content ends in it, or the error of a chunk that
    could not be had after correct bytes; no index or slice is out of range. *)
Theorem index_ReadAt keyed xs (chunk : nat -> nat -> result read_error bytes) n off :
  let index := index_of crypt keyed 0 xs in
  Forall (fun x => x <> []) xs -> zlen (mjoin xs) < 2 ^ 63 -> 0 <= off ->
  (forall k i p, chunk k i = Ok p -> exists r, fetch_chunk crypt r index i keyed = Ok p) ->
  (forall k i p x, chunk k i = Ok p -> x ∈ xs -> chunk_digest crypt keyed p = chunk_digest crypt keyed x -> p = x) ->
  let want := take n (drop (Z.to_nat off) (mjoin xs)) in
  exists out err, ReadAt index chunk n off = Some (out, err) /\
    ((out = want /\ err = (if decide (length want < n)%nat then Some EOF else None)) \/
     (exists k i e, chunk k i = Err e /\ err = Some e /\ out `prefix_of` want)).
Proof.
  intros index Hne Hlen Hoff Hfetch Hinj. apply ReadAt_ok; [done..| |done].
  intros k i p Hp. destruct (Hfetch k i p Hp) as [r (e & He & Hd)%fetch_chunk_digest].
  unfold index in He. rewrite index_of_lookup in He. destruct (xs !! i) as [x|] eqn:Hx; [|done]. injection He as <-.
  f_equal. symmetry. eapply Hinj; [exact Hp|by eapply list_elem_of_lookup_2|done].
Qed.

(** C34: The shared chunk cache, over every interleaving of readers and
    fetches: who enters [chunk i] waits for an object of that chunk which is
    being fetched as long as it is not done (no lost wait) and then holds what
    [fetchChunk] said of an answer to that chunk's request; no chunk is
    downloaded twice at a time; and after eviction the cache is within
    [indexCacheChunks + 2 * ahead], or all of it is in flight. *)
Theorem index_cache_sound srv name Workers f0 f order i f1 id f2 :
  OpenDynamicIndexAt crypt Manifest srv name Workers = Ok f0 -> rtc (cache_step crypt) f0 f ->
  (i < length (if_entries f))%nat -> (forall m, order m ≡ₚ (map_to_list m).*1) -> chunk order i f = (f1, id) ->
  rtc (cache_step crypt) f1 f2 ->
  (chunk_result f2 id = None -> id ∈ if_fetching f2 /\ if_cache f2 !! i = Some id) /\
  (forall res, chunk_result f2 id = Some res -> exists r, fetch_chunk crypt r (if_entries f0) i (if_keyed f0) = res) /\
  (forall j j' c c', if_heap f2 !! j = Some c -> if_heap f2 !! j' = Some c' ->
    cc_done c = false -> cc_done c' = false -> cc_chunk c = cc_chunk c' -> j = j') /\
  ((size (if_cache f1) <= indexCacheChunks + 2 * if_ahead f0)%nat \/
   forall j k, if_cache f1 !! j = Some k -> chunk_result f1 k = None).
Proof.
  intros Hopen H0 Hi Ho Hc H2. apply open_cache_inv in Hopen as [I0 D0].
  destruct (cache_steps_inv crypt f0 f H0) as (I1 & D1 & L1); [done..|].
  destruct (chunk_spec crypt order i f f1 id) as (I2 & L2 & (c1 & Hc1 & He1) & Hb); [done..|].
  assert (cache_step crypt f f1) as Hst by (replace f1 with (fst (chunk order i f)) by (by rewrite Hc); by constructor).
  destruct (cache_step_inv crypt f f1) as (_ & D2 & _); [done..|].
  destruct (cache_steps_inv crypt f1 f2 H2) as (I3 & D3 & L3); [done..|].
  pose proof L3 as (E3 & K3 & A3 & Hh3). destruct (Hh3 id c1 Hc1) as (c2 & Hc2 & He2).
  pose proof L2 as (E2 & K2 & A2 & _). pose proof L1 as (E1 & K1 & A1 & _).
  unfold chunk_result. rewrite Hc2. cbn [mbind option_bind]. split_and!.
  - destruct (cc_done c2) eqn:Hd; [done|]. intros _. split.
    + apply (ci_fetching _ _ I3). by exists c2.
    + rewrite <- He1, <- He2. by apply (ci_flight _ _ I3).
  - destruct (cc_done c2) eqn:Hd; [|done]. intros res [= <-]. destruct (ci_done _ _ I3 id c2 Hc2 Hd) as [r Hr].
    exists r. rewrite <- Hr, He2, He1. congruence.
  - intros j j' c c' Hj Hj' Hd Hd' Heq. pose proof (ci_flight _ _ I3 j c Hj Hd) as H.
    rewrite Heq, (ci_flight _ _ I3 j' c' Hj' Hd') in H. congruence.
  - rewrite <- A1, <- A2. destruct Hb as [|Hb]; [by left|right]. intros j k Hk. destruct (Hb j k Hk) as (c & -> & Hd).
    cbn. by rewrite Hd.
Qed.
End theorems.

(* ------------------------------------------------------------------ *)
(** ** Witnesses *)

Definition toy_xs : list bytes := [lit "hello"; lit "worlds"].
Definition toy_entries : list IndexEntry := index_of None false 0 toy_xs.
Definition toy_raw : bytes := didxMagic ++ replicate 4088 nul ++ index_bytes toy_entries.
Definition toy_file : ManifestFile :=
  mkFile (lit "a.didx") (EncodeToString (index_csum toy_entries)) 11 (lit "none").
Definition toy_srv (name : bytes) : response :=
  if decide (name = lit "a.didx") then Ok (200, toy_raw) else Ok (404, []).
(** The second chunk is served wrong. *)
Definition toy_answers : list (option response) :=
  [Some (Ok (200, Encode (ZS := toy_zstd) (lit "hello") false)); Some (Ok (200, Encode (ZS := toy_zstd) (lit "World!") false))].

Definition toy_open := OpenDynamicIndex (ZS := toy_zstd) None (Ok [toy_file]) toy_srv (lit "a") toy_answers.
Definition toy_stream (o : result read_error indexReader) : indexReader * bytes :=
  match o with
  | Ok ir => Reads [3; 4; 100; 100]%nat ir
  | Err _ => (mkReader 0 0 [] [] 0 0 None, [])
  end.
Definition toy_read : indexReader * bytes := toy_stream toy_open.

#[local] Opaque Sum256 ChecksumIEEE.

Lemma toy_open_read : exists ir, toy_open = Ok ir /\ Reads [3; 4; 100; 100]%nat ir = toy_read.
Proof.
  unfold toy_read. assert (is_ok toy_open = true) as Ho by (by vm_compute).
  destruct toy_open as [ir|]; [by exists ir|done].
Qed.

Lemma toy_parse : ParseDynamicIndex toy_raw = Ok toy_entries.
Proof. by vm_compute. Qed.

Lemma toy_sent code body p :
  Some (Ok (code, body)) ∈ toy_answers -> decodeBlob (ZS := toy_zstd) body None = Ok p ->
  p = lit "hello" \/ p = lit "World!".
Proof.
  intros Hin Hd.
  repeat (apply elem_of_cons in Hin as [Hin|Hin]; [injection Hin as -> ->; vm_compute in Hd; injection Hd as <-; auto|]).
  by apply elem_of_nil in Hin.
Qed.

Lemma toy_xs_elem x : x ∈ toy_xs -> x = lit "hello" \/ x = lit "worlds".
Proof.
  intros Hx. repeat (apply elem_of_cons in Hx as [->|Hx]; [auto|]). by apply elem_of_nil in Hx.
Qed.

Lemma index_read_integrity_witness :
  toy_read.2 `prefix_of` mjoin toy_xs /\ ir_err toy_read.1 = Some ReChunkDigest /\ toy_read.2 = lit "hello".
Proof.
  split; [|by vm_compute].
  destruct toy_open_read as (ir & Ho & Hr). rewrite (surjective_pairing toy_read) in Hr.
  eapply (index_read_integrity (ZS := toy_zstd) None (Ok [toy_file]) toy_srv (lit "a") toy_answers toy_file toy_xs);
    [by vm_compute|by vm_compute|by vm_compute| | |exact Ho|exact Hr].
  - intros raw entries Hd Hp _. assert (raw = toy_raw) as ->.
    { change (Filename toy_file) with (lit "a.didx") in Hd. unfold toy_srv in Hd. rewrite decide_True in Hd by done. injection Hd. done. }
    rewrite toy_parse in Hp. by injection Hp as <-.
  - intros code body p x Hin Hd Hx Hdg. destruct (toy_sent code body p Hin Hd) as [-> | ->];
      apply toy_xs_elem in Hx as [-> | ->]; reflexivity || (vm_compute in Hdg; discriminate Hdg).
Defined.

Definition toy_chunk (k i : nat) : result read_error bytes :=
  match i with
  | O => fetch_chunk (ZS := toy_zstd) None (Ok (200, Encode (ZS := toy_zstd) (lit "hello") false)) toy_entries 0 false
  | S O => fetch_chunk (ZS := toy_zstd) None (Ok (200, Encode (ZS := toy_zstd) (lit "worlds") false)) toy_entries 1 false
  | _ => Err ReTransport
  end.

Lemma toy_chunk_ok k i p : toy_chunk k i = Ok p -> toy_xs !! i = Some p.
Proof. destruct i as [|[|i]]; intros Hp; vm_compute in Hp; [by injection Hp as <-..|done]. Qed.

Lemma index_ReadAt_witness :
  ReadAt toy_entries toy_chunk 6 3 = Some (lit "loworl", None) /\
  exists out err, ReadAt toy_entries toy_chunk 100 3 = Some (out, err) /\
    ((out = lit "loworlds" /\ err = Some EOF) \/
     (exists k i e, toy_chunk k i = Err e /\ err = Some e /\ out `prefix_of` lit "loworlds")).
Proof.
  split; [by vm_compute|].
  apply (index_ReadAt (ZS := toy_zstd) None false toy_xs toy_chunk 100 3); [by repeat constructor|by vm_compute|lia| |].
  - intros k i p Hp. destruct i as [|[|i]]; [by eexists..|done].
  - intros k i p x Hp Hx Hd. apply toy_chunk_ok in Hp.
    assert (p = lit "hello" \/ p = lit "worlds") as Hc
      by (apply toy_xs_elem; by eapply list_elem_of_lookup_2).
    apply toy_xs_elem in Hx as [-> | ->]; destruct Hc as [-> | ->]; reflexivity || (vm_compute in Hd; discriminate Hd).
Defined.

Definition toy_order (m : gmap nat nat) : list nat := (map_to_list m).*1.
Definition toy_cache : IndexFile := mkIndexFile toy_entries false 4 [] ∅ 0 (-1) 0 [] [].

Definition toy_entered : IndexFile * nat := chunk toy_order 1 toy_cache.
Definition toy_answer : response := Ok (200, Encode (ZS := toy_zstd) (lit "worlds") false).

Lemma index_cache_sound_witness :
  exists f2, fetched (ZS := toy_zstd) None (snd toy_entered) toy_answer (fst toy_entered) = Some f2 /\
    chunk_result f2 (snd toy_entered) = Some (Ok (lit "worlds")) /\
    exists r, fetch_chunk (ZS := toy_zstd) None r toy_entries 1 false = Ok (lit "worlds").
Proof.
  destruct (fetched (ZS := toy_zstd) None (snd toy_entered) toy_answer (fst toy_entered)) as [f2|] eqn:Hf;
    [|by vm_compute in Hf].
  assert (chunk_result f2 (snd toy_entered) = Some (Ok (lit "worlds"))) as Hres.
  { vm_compute in Hf. injection Hf as <-. by vm_compute. }
  exists f2. split; [done|]. split; [done|].
  destruct (index_cache_sound (ZS := toy_zstd) None (Ok [toy_file]) toy_srv (lit "a") 4 toy_cache toy_cache
    toy_order 1 (fst toy_entered) (snd toy_entered) f2) as (_ & Hr & _ & _).
  - by vm_compute.
  - apply rtc_refl.
  - vm_compute. lia.
  - done.
  - apply surjective_pairing.
  - eapply rtc_once, step_fetched. exact Hf.
  - by apply Hr.
Defined.
