(* ===== verification/KeyFile.v ===== *)
(** * Key files and fingerprints

    Models pbs/keyfile.go (key files, plain or sealed under a passphrase, and
    the copy of a key wrapped for a master key), pbs/masterkey.go (recovering
    the wrapped key) and pbs/tls.go (fingerprints and
    the certificate pin).  Base64 is executable; scrypt, RSA, AES and the
    RFC 3339 form of a time are parameters.  What [rand.Read] delivers is an
    argument. *)

From Stdlib Require Import Strings.Byte.
From S2P Require Import Prelude Hash Blob Json Index.
Local Open Scope Z_scope.

(* ------------------------------------------------------------------ *)
(** ** Base64 ([base64.StdEncoding]) *)

Definition b64_digit (z : Z) : byte :=
  byte_of_Z (if z <? 26 then 65 + z else if z <? 52 then 71 + z else if z <? 62 then z - 4 else if z =? 62 then 43 else 47).
Definition b64_val (b : byte) : option Z :=
  let z := Z_of_byte b in
  if (65 <=? z) && (z <=? 90) then Some (z - 65)
  else if (97 <=? z) && (z <=? 122) then Some (z - 71)
  else if (48 <=? z) && (z <=? 57) then Some (z + 4)
  else if z =? 43 then Some 62 else if z =? 47 then Some 63 else None.
Abbreviation equals := x3d.

Fixpoint b64_encode (b : bytes) : bytes :=
  match b with
  | [] => []
  | [x] =>
      let x := Z_of_byte x in [b64_digit (x / 4); b64_digit (16 * (x mod 4)); equals; equals]
  | [x; y] =>
      let x := Z_of_byte x in let y := Z_of_byte y in
      [b64_digit (x / 4); b64_digit (16 * (x mod 4) + y / 16); b64_digit (4 * (y mod 16)); equals]
  | x :: y :: z :: b =>
      let x := Z_of_byte x in let y := Z_of_byte y in let z := Z_of_byte z in
      [b64_digit (x / 4); b64_digit (16 * (x mod 4) + y / 16); b64_digit (4 * (y mod 16) + z / 64); b64_digit (z mod 64)] ++
      b64_encode b
  end.

(** Padding ends the input; the bits it leaves over are not looked at. *)
Fixpoint b64_quanta (s : bytes) : option bytes :=
  match s with
  | [] => Some []
  | a :: b :: c :: d :: s =>
      x ← b64_val a; y ← b64_val b;
      let b1 := byte_of_Z (4 * x + y / 16) in
      if decide (c = equals) then (if decide (d = equals /\ s = []) then Some [b1] else None) else
      z ← b64_val c;
      let b2 := byte_of_Z (16 * (y mod 16) + z / 4) in
      if decide (d = equals) then (if decide (s = []) then Some [b1; b2] else None) else
      w ← b64_val d;
      rest ← b64_quanta s;
      Some (b1 :: b2 :: byte_of_Z (64 * (z mod 4) + w) :: rest)
  | _ => None
  end.
(** The decoder skips line ends wherever they are. *)
Definition b64_decode (s : bytes) : option bytes := b64_quanta (base.filter (fun c => c <> x0a /\ c <> x0d) s).

(* ------------------------------------------------------------------ *)
(** ** Fingerprints (pbs/tls.go) *)

Fixpoint join (sep : bytes) (parts : list bytes) : bytes :=
  match parts with
  | [] => []
  | [p] => p
  | p :: parts => p ++ sep ++ join sep parts
  end.

Definition formatFingerprint (sum : bytes) : bytes := join (lit ":") ((fun b => EncodeToString [b]) <$> sum).

Definition to_lower (b : byte) : byte :=
  let z := Z_of_byte b in if (65 <=? z) && (z <=? 90) then byte_of_Z (z + 32) else b.

(** [strings.ToLower] beyond ASCII never makes a hex digit. *)
Definition parseFingerprint (s : bytes) : option bytes :=
  let clean := to_lower <$> base.filter (fun c => c <> x3a) s in
  let '(raw, ok) := DecodeString clean in
  if negb ok || negb (zlen raw =? 32) then None else Some raw.

(** [VerifyPeerCertificate] of [newTLSConfig]: the leaf certificate against
    the pin. *)
Inductive pin_error := PinNoCertificate | ErrFingerprint (server : bytes).
Definition VerifyPeerCertificate (pin : bytes) (rawCerts : list bytes) : result pin_error unit :=
  match rawCerts with
  | [] => Err PinNoCertificate
  | leaf :: _ =>
      let got := Sum256 leaf in
      if decide (got = pin) then Ok () else Err (ErrFingerprint (formatFingerprint got))
  end.

(** [newTLSConfig]: whether the chain is left unverified, and the pin. *)
Definition newTLSConfig (Fingerprint : bytes) (InsecureSkipAll : bool) : option (bool * option bytes) :=
  if decide (Fingerprint = []) then Some (InsecureSkipAll, None) else
  pin ← parseFingerprint Fingerprint; Some (true, Some pin).

(** [cryptState.fingerprintHex] *)
Definition fingerprintHex (cs : cryptState) : bytes := formatFingerprint (cs_fingerprint cs).

(* ------------------------------------------------------------------ *)
(** ** The file *)

Record scryptParams := mkScrypt { sp_N : Z; sp_R : Z; sp_P : Z; sp_Salt : bytes }.
Record pbkdf2Params := mkPbkdf2 { pp_Iter : Z; pp_Salt : bytes }.
Record kdfJSON := mkKdf { Scrypt : option scryptParams; PBKDF2 : option pbkdf2Params }.
Record keyFileJSON := mkKeyFile {
  kf_KDF : option kdfJSON; kf_Created : bytes; kf_Modified : bytes; kf_Data : bytes; kf_Fingerprint : bytes; kf_Hint : bytes }.

(** [KeyInfo]; a time that does not parse is the zero time. *)
Record KeyInfo := mkKeyInfo {
  ki_Key : bytes; ki_Created : option Z; ki_Modified : option Z; ki_Hint : bytes; ki_Fingerprint : bytes }.

(** [KeyInfo.CryptConfig] *)
Definition KeyInfo_CryptConfig (k : KeyInfo) (mode : bytes) : CryptConfig := mkCrypt mode (ki_Key k) (ki_Created k) None.

Definition KDFScrypt : bytes := lit "scrypt".
Definition KDFPBKDF2 : bytes := lit "pbkdf2".
Definition KDFNone : bytes := lit "none".
Definition scryptN : Z := 65536.
Definition scryptR : Z := 8.
Definition scryptP : Z := 1.
Definition pbkdf2Iter : Z := 65535.

(** The tags of the structs: how they are written ([omitempty] leaves a nil or
    empty member out) ... *)
Definition omitempty (k s : bytes) : list (bytes * json) := if decide (s = []) then [] else [(k, JString s)].
Definition json_scrypt (p : scryptParams) : json :=
  JObject [(lit "n", JNumber (FormatInt (sp_N p))); (lit "r", JNumber (FormatInt (sp_R p)));
           (lit "p", JNumber (FormatInt (sp_P p))); (lit "salt", JString (sp_Salt p))].
Definition json_pbkdf2 (p : pbkdf2Params) : json :=
  JObject [(lit "iter", JNumber (FormatInt (pp_Iter p))); (lit "salt", JString (pp_Salt p))].
Definition json_kdf (k : kdfJSON) : json :=
  JObject (match Scrypt k with Some p => [(lit "Scrypt", json_scrypt p)] | None => [] end ++
           match PBKDF2 k with Some p => [(lit "PBKDF2", json_pbkdf2 p)] | None => [] end).
Definition json_keyFile (f : keyFileJSON) : json :=
  JObject ([(lit "kdf", match kf_KDF f with Some k => json_kdf k | None => JNull end);
            (lit "created", JString (kf_Created f)); (lit "modified", JString (kf_Modified f));
            (lit "data", JString (kf_Data f))] ++
           omitempty (lit "fingerprint") (kf_Fingerprint f) ++ omitempty (lit "hint") (kf_Hint f)).

(** ... and read. *)
Section fields.
Context `{JSON}.

Definition scrypt_fields : list (bytes * (json -> scryptParams -> option scryptParams)) :=
  [(lit "n", fun v p => n ← assign_uint64 v (sp_N p); Some (mkScrypt n (sp_R p) (sp_P p) (sp_Salt p)));
   (lit "r", fun v p => r ← assign_uint64 v (sp_R p); Some (mkScrypt (sp_N p) r (sp_P p) (sp_Salt p)));
   (lit "p", fun v p => q ← assign_uint64 v (sp_P p); Some (mkScrypt (sp_N p) (sp_R p) q (sp_Salt p)));
   (lit "salt", fun v p => s ← assign_string v (sp_Salt p); Some (mkScrypt (sp_N p) (sp_R p) (sp_P p) s))].
Definition pbkdf2_fields : list (bytes * (json -> pbkdf2Params -> option pbkdf2Params)) :=
  [(lit "iter", fun v p => n ← assign_int64 v (pp_Iter p); Some (mkPbkdf2 n (pp_Salt p)));
   (lit "salt", fun v p => s ← assign_string v (pp_Salt p); Some (mkPbkdf2 (pp_Iter p) s))].
Definition kdf_fields : list (bytes * (json -> kdfJSON -> option kdfJSON)) :=
  [(lit "Scrypt", fun v k => s ← assign_pointer (assign_struct scrypt_fields) (mkScrypt 0 0 0 []) v (Scrypt k); Some (mkKdf s (PBKDF2 k)));
   (lit "PBKDF2", fun v k => p ← assign_pointer (assign_struct pbkdf2_fields) (mkPbkdf2 0 []) v (PBKDF2 k); Some (mkKdf (Scrypt k) p))].
Definition keyFile_fields : list (bytes * (json -> keyFileJSON -> option keyFileJSON)) :=
  [(lit "kdf", fun v f => k ← assign_pointer (assign_struct kdf_fields) (mkKdf None None) v (kf_KDF f);
      Some (mkKeyFile k (kf_Created f) (kf_Modified f) (kf_Data f) (kf_Fingerprint f) (kf_Hint f)));
   (lit "created", fun v f => s ← assign_string v (kf_Created f);
      Some (mkKeyFile (kf_KDF f) s (kf_Modified f) (kf_Data f) (kf_Fingerprint f) (kf_Hint f)));
   (lit "modified", fun v f => s ← assign_string v (kf_Modified f);
      Some (mkKeyFile (kf_KDF f) (kf_Created f) s (kf_Data f) (kf_Fingerprint f) (kf_Hint f)));
   (lit "data", fun v f => s ← assign_string v (kf_Data f);
      Some (mkKeyFile (kf_KDF f) (kf_Created f) (kf_Modified f) s (kf_Fingerprint f) (kf_Hint f)));
   (lit "fingerprint", fun v f => s ← assign_string v (kf_Fingerprint f);
      Some (mkKeyFile (kf_KDF f) (kf_Created f) (kf_Modified f) (kf_Data f) s (kf_Hint f)));
   (lit "hint", fun v f => s ← assign_string v (kf_Hint f);
      Some (mkKeyFile (kf_KDF f) (kf_Created f) (kf_Modified f) (kf_Data f) (kf_Fingerprint f) s))].
End fields.
Definition keyFile_zero : keyFileJSON := mkKeyFile None [] [] [] [] [].

(* ------------------------------------------------------------------ *)
(** ** What the code relies on *)

(** [scrypt.Key]; the RFC 3339 form of a time (to the second), which is text
    and is parsed back up to the year 9999. *)
Class KeyFileOps := {
  scrypt_Key : bytes -> bytes -> Z -> Z -> Z -> Z -> result unit bytes;
  FormatRFC3339 : Z -> bytes;
  ParseRFC3339 : bytes -> option Z;
  FormatRFC3339_text t : text (FormatRFC3339 t) = true;
  ParseRFC3339_Format t : 0 <= t < 253402300800 -> ParseRFC3339 (FormatRFC3339 t) = Some t }.

(** RSA with PKCS#1 v1.5 padding: a private key decrypts what its public part
    encrypted. *)
Class RSA := {
  rsa_Size : bytes -> Z;
  rsa_public : bytes -> bytes;
  EncryptPKCS1v15 : bytes -> bytes -> result unit bytes;
  DecryptPKCS1v15 : bytes -> bytes -> option bytes;
  Decrypt_Encrypt key doc w : EncryptPKCS1v15 (rsa_public key) doc = Ok w -> DecryptPKCS1v15 key w = Some doc }.

Inductive key_error :=
  | KeParse | KeBase64 | KeNotProtected | KePlainLength (n : Z) | KeNeedsPassphrase | KeSalt | KeScrypt | KePBKDF2 | KeUnknownKDF
  | KeShort (n : Z) | KeUnlock | KeLength (n : Z) | KeCrypt (e : crypt_error) | KeBadFingerprint | KeFingerprint
  | KePlainPassphrase | KePassphraseShort | KeBadKDF (kdf : bytes) | KeMasterTooSmall (doc max : Z) | KeWrap | KeUnwrap
  | KeDownload (e : read_error).

(** [copy(dst[:], src)] into a zero [[32]byte]. *)
Definition copy32 (src : bytes) : bytes := take 32 (src ++ replicate 32 nul).

Section keyfile.
Context `{JSON} `{KeyOps} `{KeyFileOps}.

Definition newKeyFileAEAD (derived : bytes) : result key_error AEAD :=
  match newCryptState (mkCrypt [] derived None None) with
  | Err e => Err (KeCrypt e)
  | Ok cs => Ok (cs_aead cs)
  end.

(** The layout of sealed data is iv(16) || tag(16) || ciphertext. *)
Definition openKeyFileData (derived raw : bytes) : result key_error bytes :=
  aead ← newKeyFileAEAD derived;
  let iv := take 16 raw in
  let tag := take 16 (drop 16 raw) in
  let ct := drop 32 raw in
  match Open aead iv (ct ++ tag) with Some key => Ok key | None => Err KeUnlock end.

Definition sealKeyFileData (derived iv plain : bytes) : result key_error bytes :=
  aead ← newKeyFileAEAD derived;
  let sealed := Seal aead iv plain in
  Ok (iv ++ take 16 (drop (length plain) sealed) ++ take (length plain) sealed).

Definition deriveKeyFileKey (k : kdfJSON) (passphrase : bytes) : result key_error bytes :=
  match Scrypt k, PBKDF2 k with
  | Some p, _ =>
      match b64_decode (sp_Salt p) with
      | None => Err KeSalt
      | Some salt =>
          match scrypt_Key passphrase salt (i64 (sp_N p)) (i64 (sp_R p)) (i64 (sp_P p)) 32 with
          | Err _ => Err KeScrypt
          | Ok raw => Ok (copy32 raw)
          end
      end
  | None, Some p =>
      match b64_decode (pp_Salt p) with
      | None => Err KeSalt
      | Some salt =>
          match pbkdf2_Key passphrase salt (pp_Iter p) with
          | Err _ => Err KePBKDF2
          | Ok raw => Ok (copy32 raw)
          end
      end
  | None, None => Err KeUnknownKDF
  end.

(** The key of a file: stored in plain, or sealed under the passphrase. *)
Definition unlock (f : keyFileJSON) (raw : bytes) (passphrase : option bytes) : result key_error bytes :=
  match kf_KDF f, passphrase with
  | None, Some _ => Err KeNotProtected
  | None, None => if negb (zlen raw =? 32) then Err (KePlainLength (zlen raw)) else Ok raw
  | Some _, None => Err KeNeedsPassphrase
  | Some k, Some pass =>
      derived ← deriveKeyFileKey k pass;
      if zlen raw <? 32 then Err (KeShort (zlen raw)) else
      key ← openKeyFileData derived raw;
      if negb (zlen key =? 32) then Err (KeLength (zlen key)) else Ok key
  end.

Definition LoadKeyFile (data : bytes) (passphrase : option bytes) : result key_error KeyInfo :=
  match Unmarshal keyFile_fields keyFile_zero data with
  | None => Err KeParse
  | Some f =>
      match b64_decode (kf_Data f) with
      | None => Err KeBase64
      | Some raw =>
          key ← unlock f raw passphrase;
          match newCryptState (mkCrypt [] key None None) with
          | Err e => Err (KeCrypt e)
          | Ok cs =>
              let info := mkKeyInfo key (ParseRFC3339 (kf_Created f)) (ParseRFC3339 (kf_Modified f)) (kf_Hint f) (fingerprintHex cs) in
              if decide (kf_Fingerprint f = []) then Ok info else
              match parseFingerprint (kf_Fingerprint f) with
              | None => Err KeBadFingerprint
              | Some stored => if decide (stored = cs_fingerprint cs) then Ok info else Err KeFingerprint
              end
          end
      end
  end.

(** [now] is the clock, [salt] and [iv] are random. *)
Definition CreateKeyFile (key : bytes) (passphrase : option bytes) (kdf hint : bytes) (now : Z) (salt iv : bytes) :
    result key_error bytes :=
  match newCryptState (mkCrypt [] key None None) with
  | Err e => Err (KeCrypt e)
  | Ok cs =>
      let now := FormatRFC3339 now in
      let file k data := MarshalIndent (json_keyFile (mkKeyFile k now now data (fingerprintHex cs) hint)) in
      if decide (kdf = KDFNone) then
        match passphrase with
        | Some _ => Err KePlainPassphrase
        | None => Ok (file None (b64_encode key))
        end
      else if decide (kdf = KDFScrypt \/ kdf = KDFPBKDF2) then
        let pass := default [] passphrase in
        if zlen pass <? 5 then Err KePassphraseShort else
        let saltB64 := b64_encode salt in
        let k := if decide (kdf = KDFScrypt) then mkKdf (Some (mkScrypt scryptN scryptR scryptP saltB64)) None
                 else mkKdf None (Some (mkPbkdf2 pbkdf2Iter saltB64)) in
        derived ← deriveKeyFileKey k pass;
        sealed ← sealKeyFileData derived iv key;
        Ok (file (Some k) (b64_encode sealed))
      else Err (KeBadKDF kdf)
  end.

(** The copy of the session's key for the holder of the master key; the
    creation time stays. *)
Definition wrapKeyConfig `{RSA} (cs : cryptState) (master : bytes) (now : Z) : result key_error bytes :=
  let created := default now (cs_created cs) in
  let doc := Marshal (json_keyFile (mkKeyFile None (FormatRFC3339 created) (FormatRFC3339 now) (b64_encode (cs_key cs)) (fingerprintHex cs) [])) in
  let max := rsa_Size master - 11 in
  if max <? zlen doc then Err (KeMasterTooSmall (zlen doc) max) else
  match EncryptPKCS1v15 master doc with Err _ => Err KeWrap | Ok w => Ok w end.

(** [RecoverKey] and [ReaderSession.RecoverKey] (pbs/masterkey.go) *)
Definition RecoverKey `{RSA} (wrapped master : bytes) : result key_error KeyInfo :=
  match DecryptPKCS1v15 master wrapped with
  | None => Err KeUnwrap
  | Some doc => LoadKeyFile doc None
  end.

Definition session_RecoverKey `{Zstd} `{RSA} (crypt : option cryptState) (Manifest : result read_error (list ManifestFile))
    (srv : bytes -> response) (master : bytes) : result key_error KeyInfo :=
  match DownloadBlob crypt Manifest srv (lit "rsa-encrypted.key.blob") with
  | Err e => Err (KeDownload e)
  | Ok wrapped => RecoverKey wrapped master
  end.
End keyfile.

(* ------------------------------------------------------------------ *)
(** ** Lemmas: base64 and fingerprints *)

Lemma b64_val_digit z : 0 <= z < 64 -> b64_val (b64_digit z) = Some z /\ b64_digit z <> equals /\ b64_digit z <> x0a /\ b64_digit z <> x0d /\
  (32 <=? Z_of_byte (b64_digit z)) && (Z_of_byte (b64_digit z) <? 127) = true.
Proof.
  intros Hz. assert (exists n, z = Z.of_nat n /\ (n < 64)%nat) as (n & -> & Hn) by (exists (Z.to_nat z); lia).
  do 64 (destruct n as [|n]; [by vm_compute; split_and!|]). lia.
Qed.

(** Induction over the quanta of an encoder's input. *)
Lemma triple_ind (P : bytes -> Prop) :
  P [] -> (forall x, P [x]) -> (forall x y, P [x; y]) -> (forall x y z b, P b -> P (x :: y :: z :: b)) -> forall b, P b.
Proof.
  intros H0 H1 H2 H3. fix IH 1. intros [|x [|y [|z b]]]; [done|apply H1|apply H2|]. apply H3, IH.
Qed.

Lemma byte_eq e x : e = Z_of_byte x -> byte_of_Z e = x.
Proof. intros ->. apply byte_of_Z_of_byte. Qed.

(** Arithmetic on the parts of bytes. *)
Ltac parts :=
  repeat match goal with |- context [Z_of_byte ?x] =>
    let H := fresh in pose proof (Z_of_byte_range x) as H; revert H; generalize (Z_of_byte x) end;
  intros; Z.to_euclidean_division_equations; lia.

(** Read one digit back. *)
Ltac digit_back :=
  match goal with |- context [b64_val (b64_digit ?z)] =>
    let H := fresh in assert (0 <= z < 64) as H by parts; destruct (b64_val_digit z H) as (-> & _); clear H end.

Lemma b64_quanta_encode b : b64_quanta (b64_encode b) = Some b.
Proof.
  induction b as [|x|x y|x y z b IH] using triple_ind; [done|..]; cbn [b64_encode app b64_quanta]; repeat digit_back;
    cbn [mbind option_bind].
  - rewrite !decide_True by done. do 2 f_equal. apply byte_eq. parts.
  - rewrite decide_False by (apply b64_val_digit; parts). rewrite !decide_True by done. do 2 f_equal; [|f_equal]; apply byte_eq; parts.
  - rewrite !decide_False by (apply b64_val_digit; parts). cbn [mbind option_bind]. rewrite IH. cbn.
    do 2 f_equal; [|f_equal; [|f_equal]]; apply byte_eq; parts.
Qed.

(** Encoded text has no line ends and needs no escaping. *)
Lemma b64_encode_text b : Forall (fun c => (c <> x0a /\ c <> x0d) /\ (32 <=? Z_of_byte c) && (Z_of_byte c <? 127) = true) (b64_encode b).
Proof.
  assert (forall z, 0 <= z < 64 -> (b64_digit z <> x0a /\ b64_digit z <> x0d) /\
    (32 <=? Z_of_byte (b64_digit z)) && (Z_of_byte (b64_digit z) <? 127) = true) as Hd
    by (intros z Hz; destruct (b64_val_digit z Hz) as (_ & _ & ? & ? & ?); by split_and!).
  induction b as [|x|x y|x y z b IH] using triple_ind; cbn [b64_encode app]; repeat constructor; try done; try (apply Hd; parts). 
Qed.

Lemma filter_id {A} (P : A -> Prop) `{!forall x, Decision (P x)} (l : list A) : Forall P l -> base.filter P l = l.
Proof. induction 1 as [|x l Hx _ IH]; [done|]. by rewrite filter_cons_True, IH. Qed.

Lemma b64_decode_encode b : b64_decode (b64_encode b) = Some b.
Proof.
  unfold b64_decode. rewrite filter_id; [apply b64_quanta_encode|].
  eapply Forall_impl; [apply b64_encode_text|]. by intros c [? _].
Qed.

Lemma text_b64 b : text (b64_encode b) = true.
Proof.
  unfold text. apply forallb_forall. intros c Hc%list_elem_of_In. pose proof (b64_encode_text b) as H.
  rewrite Forall_forall in H. by apply H.
Qed.

Lemma text_app a b : text (a ++ b) = text a && text b.
Proof. apply forallb_app. Qed.

Lemma hex_digit_facts z : 0 <= z < 16 -> hex_digit z <> x3a /\ to_lower (hex_digit z) = hex_digit z /\
  (32 <=? Z_of_byte (hex_digit z)) && (Z_of_byte (hex_digit z) <? 127) = true.
Proof.
  intros Hz. assert (exists n, z = Z.of_nat n /\ (n < 16)%nat) as (n & -> & Hn) by (exists (Z.to_nat z); lia).
  do 16 (destruct n as [|n]; [by vm_compute; split_and!|]). lia.
Qed.

Lemma EncodeToString_facts b : Forall (fun c => c <> x3a /\ to_lower c = c /\ (32 <=? Z_of_byte c) && (Z_of_byte c <? 127) = true)
  (EncodeToString b).
Proof.
  induction b as [|x b IH]; [constructor|]. unfold EncodeToString. rewrite list_bind_cons. cbn [app].
  repeat constructor; [apply hex_digit_facts; parts..|exact IH].
Qed.

Lemma text_hex b : text (EncodeToString b) = true.
Proof.
  apply forallb_forall. intros c Hc%list_elem_of_In. pose proof (EncodeToString_facts b) as H. rewrite Forall_forall in H. by apply H.
Qed.

Lemma join_filter sum : base.filter (fun c => c <> x3a) (formatFingerprint sum) = EncodeToString sum.
Proof.
  assert (forall b, base.filter (fun c => c <> x3a) (EncodeToString b) = EncodeToString b) as Hf.
  { intros b. apply filter_id. eapply Forall_impl; [apply EncodeToString_facts|]. by intros c [? _]. }
  unfold formatFingerprint. induction sum as [|b sum IH]; [done|]. rewrite fmap_cons.
  change (EncodeToString (b :: sum)) with (EncodeToString [b] ++ EncodeToString sum).
  destruct sum as [|b' sum]; [by rewrite app_nil_r; cbn [fmap list_fmap join]|].
  change (join (lit ":") (EncodeToString [b] :: ((fun b => EncodeToString [b]) <$> b' :: sum)))
    with (EncodeToString [b] ++ lit ":" ++ join (lit ":") ((fun b => EncodeToString [b]) <$> b' :: sum)).
  rewrite !filter_app, Hf, IH. done.
Qed.

Lemma lower_hex b : to_lower <$> EncodeToString b = EncodeToString b.
Proof.
  pose proof (EncodeToString_facts b) as H. induction H as [|c l (_ & Hc & _) _ IH]; [done|]. rewrite fmap_cons. by rewrite Hc, IH.
Qed.

Lemma parse_formatFingerprint sum : length sum = 32%nat -> parseFingerprint (formatFingerprint sum) = Some sum.
Proof.
  intros Hl. unfold parseFingerprint. rewrite join_filter, lower_hex, DecodeString_EncodeToString, Hl. done.
Qed.

Lemma text_join sep parts : text sep = true -> Forall (fun p => text p = true) parts -> text (join sep parts) = true.
Proof.
  intros Hs. induction 1 as [|p parts Hp Hps IH]; [done|]. destruct parts as [|q parts]; [done|].
  change (join sep (p :: q :: parts)) with (p ++ sep ++ join sep (q :: parts)). rewrite !text_app. by rewrite Hp, Hs, IH.
Qed.

Lemma text_fingerprint sum : text (formatFingerprint sum) = true.
Proof. apply text_join; [done|]. apply Forall_fmap, Forall_true. intros b. apply text_hex. Qed.

Lemma formatFingerprint_ne sum : sum <> [] -> formatFingerprint sum <> [].
Proof. destruct sum as [|b [|b' sum]]; [done|..]; intros _; discriminate. Qed.

(* ------------------------------------------------------------------ *)
(** ** Lemmas: documents *)

Section documents.
Context `{JSON}.

Lemma scrypt_fields_NoDup : NoDup scrypt_fields.*1.
Proof. apply (bool_decide_unpack _). by vm_compute. Qed.
Lemma pbkdf2_fields_NoDup : NoDup pbkdf2_fields.*1.
Proof. apply (bool_decide_unpack _). by vm_compute. Qed.
Lemma kdf_fields_NoDup : NoDup kdf_fields.*1.
Proof. apply (bool_decide_unpack _). by vm_compute. Qed.
Lemma keyFile_fields_NoDup : NoDup keyFile_fields.*1.
Proof. apply (bool_decide_unpack _). by vm_compute. Qed.

Ltac member nodup i :=
  rewrite (assign_member_at _ i _ _ _ _ nodup eq_refl); cbn [mbind option_bind assign_string].

Lemma assign_scrypt p old : is_u64 (sp_N p) -> is_u64 (sp_R p) -> is_u64 (sp_P p) -> assign_struct scrypt_fields (json_scrypt p) old = Some p.
Proof.
  intros. unfold json_scrypt, assign_struct. cbn [foldl].
  member scrypt_fields_NoDup 0%nat. cbn [assign_uint64]. rewrite ParseUint_FormatInt by done. cbn [mbind option_bind].
  member scrypt_fields_NoDup 1%nat. cbn [assign_uint64]. rewrite ParseUint_FormatInt by done. cbn [mbind option_bind].
  member scrypt_fields_NoDup 2%nat. cbn [assign_uint64]. rewrite ParseUint_FormatInt by done. cbn [mbind option_bind].
  member scrypt_fields_NoDup 3%nat. by destruct p.
Qed.

Lemma assign_pbkdf2 p old : is_i64 (pp_Iter p) -> assign_struct pbkdf2_fields (json_pbkdf2 p) old = Some p.
Proof.
  intros. unfold json_pbkdf2, assign_struct. cbn [foldl].
  member pbkdf2_fields_NoDup 0%nat. cbn [assign_int64]. rewrite ParseInt_FormatInt by done. cbn [mbind option_bind].
  member pbkdf2_fields_NoDup 1%nat. by destruct p.
Qed.

Definition kdf_ok (k : kdfJSON) : Prop :=
  match Scrypt k with Some p => is_u64 (sp_N p) /\ is_u64 (sp_R p) /\ is_u64 (sp_P p) /\ text (sp_Salt p) = true | None => True end /\
  match PBKDF2 k with Some p => is_i64 (pp_Iter p) /\ text (pp_Salt p) = true | None => True end.

Lemma assign_kdf k : kdf_ok k -> assign_struct kdf_fields (json_kdf k) (mkKdf None None) = Some k.
Proof.
  destruct k as [s p]. intros [Hs Hp]. unfold json_kdf, assign_struct. rewrite foldl_app. cbn [Scrypt PBKDF2] in *.
  destruct s as [s|]; cbn [foldl].
  - destruct Hs as (? & ? & ? & _). member kdf_fields_NoDup 0%nat.
    unfold assign_pointer at 1. cbn [json_scrypt]. rewrite assign_scrypt by done. cbn [mbind option_bind fmap option_fmap option_map Scrypt PBKDF2].
    destruct p as [p|]; cbn [foldl]; [|done]. destruct Hp as [? _]. member kdf_fields_NoDup 1%nat. unfold assign_pointer at 1. cbn [json_pbkdf2].
    by rewrite assign_pbkdf2.
  - destruct p as [p|]; cbn [foldl]; [|done]. destruct Hp as [? _]. member kdf_fields_NoDup 1%nat. unfold assign_pointer at 1. cbn [json_pbkdf2].
    by rewrite assign_pbkdf2.
Qed.

Lemma assign_omitempty k s i f old :
  keyFile_fields !! i = Some (k, f) -> (s = [] -> f (JString s) old = Some old) ->
  foldl (assign_member keyFile_fields) (Some old) (omitempty k s) = f (JString s) old.
Proof.
  intros Hi Hf. unfold omitempty. case_decide as Hs; cbn [foldl]; [by rewrite Hf|].
  by rewrite (assign_member_at _ i _ _ _ _ keyFile_fields_NoDup Hi).
Qed.

(** A file is read as it was written. *)
Lemma assign_keyFile f : match kf_KDF f with Some k => kdf_ok k | None => True end ->
  assign_struct keyFile_fields (json_keyFile f) keyFile_zero = Some f.
Proof.
  intros Hk. unfold json_keyFile, assign_struct. rewrite !foldl_app. cbn [foldl]. member keyFile_fields_NoDup 0%nat.
  assert (assign_pointer (assign_struct kdf_fields) (mkKdf None None)
    (match kf_KDF f with Some k => json_kdf k | None => JNull end) (kf_KDF keyFile_zero) = Some (kf_KDF f)) as ->.
  { destruct (kf_KDF f) as [k|]; [|done]. unfold assign_pointer, json_kdf. fold (json_kdf k). cbn [keyFile_zero kf_KDF default].
    by rewrite assign_kdf. }
  cbn [mbind option_bind]. member keyFile_fields_NoDup 1%nat. member keyFile_fields_NoDup 2%nat. member keyFile_fields_NoDup 3%nat.
  rewrite (assign_omitempty _ _ 4%nat _ _ eq_refl) by (by intros ->).
  cbn [mbind option_bind assign_string].
  rewrite (assign_omitempty _ _ 5%nat _ _ eq_refl) by (by intros ->).
  by destruct f.
Qed.

Definition keyFile_text (f : keyFileJSON) : bool :=
  text (kf_Created f) && text (kf_Modified f) && text (kf_Data f) && text (kf_Fingerprint f) && text (kf_Hint f).

Lemma json_keyFile_ok f : match kf_KDF f with Some k => kdf_ok k | None => True end -> keyFile_text f = true ->
  textual (json_keyFile f) = true /\ numbers_ok (json_keyFile f) = true.
Proof.
  intros Hk Ht. unfold keyFile_text in Ht. rewrite !andb_true_iff in Ht. destruct Ht as ((((T1 & T2) & T3) & T4) & T5).
  assert (forall z, is_u64 z \/ is_i64 z -> bool_decide (FormatInt z <> []) && forallb num_char (FormatInt z) = true) as Hn.
  { intros z Hz. apply FormatInt_number in Hz as [? ->]. by rewrite bool_decide_eq_true_2. }
  unfold json_keyFile, omitempty. cbn [textual numbers_ok]. rewrite !forallb_app. cbn [forallb fst snd textual numbers_ok]. rewrite T1, T2, T3.
  assert (textual (match kf_KDF f with Some k => json_kdf k | None => JNull end) = true /\
    numbers_ok (match kf_KDF f with Some k => json_kdf k | None => JNull end) = true) as [-> ->].
  { destruct (kf_KDF f) as [[s p]|]; [|done]. destruct Hk as [Hs Hp]. unfold json_kdf. cbn [textual numbers_ok Scrypt PBKDF2] in *.
    rewrite !forallb_app. destruct s as [s|], p as [p|]; cbn [forallb fst snd json_scrypt json_pbkdf2 textual numbers_ok];
      repeat match goal with H : _ /\ _ |- _ => destruct H end; rewrite ?Hn by tauto;
      repeat match goal with H : text _ = true |- _ => rewrite H end; done. }
  repeat case_decide; cbn [forallb fst snd textual numbers_ok]; rewrite ?T4, ?T5; done.
Qed.

Lemma Unmarshal_keyFile f raw : match kf_KDF f with Some k => kdf_ok k | None => True end ->
  Decode raw = Some (json_keyFile f) -> Valid raw = true -> Unmarshal keyFile_fields keyFile_zero raw = Some f.
Proof. intros Hk Hd Hv. unfold Unmarshal. rewrite Hd. cbn [mbind option_bind]. rewrite Hv. by apply assign_keyFile. Qed.
End documents.

(* ------------------------------------------------------------------ *)
(** ** Creating and loading *)

Section correctness.
Context `{JSON} `{KeyOps} `{KeyFileOps}.

Lemma newCryptState_spec c cs : newCryptState c = Ok cs ->
  cc_Key c <> replicate 32 nul /\ cs_key cs = cc_Key c /\ length (cs_fingerprint cs) = 32%nat /\ cs_created cs = cc_KeyCreated c.
Proof.
  unfold newCryptState. generalize (pbkdf2_Key (cc_Key c) idKeySalt idKeyIter) as r. intros r Hc.
  destruct (decide (_ /\ _)); [done|]. destruct (decide (cc_Key c = _)) as [|Hk]; [done|]. split; [done|].
  destruct r as [idKey|]; [|done]. destruct (newGCM (cc_Key c)) as [a|]; [|done].
  assert (length (keyed_digest idKey (Sum256 fingerprintInput)) = 32%nat) as Hl by apply length_Sum256.
  revert Hc Hl. generalize (keyed_digest idKey (Sum256 fingerprintInput)). intros fp Hc Hl.
  destruct (cc_MasterPublicKey c) as [pem|]; [|injection Hc as <-; by split_and!].
  destruct (decide (_ = CryptModeEncrypt)); [|done]. destruct (parseRSAPublicKey pem); [|done]. injection Hc as <-. by split_and!.
Qed.

Lemma open_seal derived iv plain s : length iv = 16%nat -> sealKeyFileData derived iv plain = Ok s ->
  openKeyFileData derived s = Ok plain /\ length s = (32 + length plain)%nat.
Proof.
  intros Hiv. unfold sealKeyFileData, openKeyFileData. destruct (newKeyFileAEAD derived) as [aead|]; cbn [mbind result_bind]; [|done].
  intros [= <-]. pose proof (Seal_length aead iv plain) as Hl.
  rewrite (take_len_app iv), (drop_len_app iv _ 16) by lia.
  set (tag := take 16 (drop (length plain) (Seal aead iv plain))).
  assert (length tag = 16%nat) as Ht by (unfold tag; rewrite length_take, length_drop; lia).
  rewrite (take_len_app tag) by lia. rewrite (assoc_L (++) iv tag).
  rewrite (drop_len_app (iv ++ tag)) by (rewrite length_app; lia).
  unfold tag. rewrite (take_ge (drop _ _)) by (rewrite length_drop; lia). rewrite take_drop, Open_Seal by done.
  split; [done|]. rewrite !length_app, length_take, length_drop. lia.
Qed.

Lemma load_created f raw passphrase cs key doc :
  newCryptState (mkCrypt [] key None None) = Ok cs -> match kf_KDF f with Some k => kdf_ok k | None => True end -> keyFile_text f = true ->
  kf_Fingerprint f = fingerprintHex cs -> b64_decode (kf_Data f) = Some raw ->
  Decode doc = Some (json_keyFile f) -> Valid doc = true -> 
  LoadKeyFile doc passphrase = (key' ← unlock f raw passphrase;
    match newCryptState (mkCrypt [] key' None None) with
    | Err e => Err (KeCrypt e)
    | Ok cs' =>
        if decide (cs_fingerprint cs = cs_fingerprint cs')
        then Ok (mkKeyInfo key' (ParseRFC3339 (kf_Created f)) (ParseRFC3339 (kf_Modified f)) (kf_Hint f) (fingerprintHex cs'))
        else Err KeFingerprint
    end).
Proof.
  intros Hcs Hk Ht Hf Hd Hdec Hv. unfold LoadKeyFile. rewrite (Unmarshal_keyFile f) by done. rewrite Hd, Hf.
  destruct (newCryptState_spec _ _ Hcs) as (_ & _ & Hl & _).
  destruct (unlock f raw passphrase) as [key'|]; cbn [mbind result_bind]; [|done].
  destruct (newCryptState (mkCrypt [] key' None None)); [|done].
  rewrite decide_False by (apply formatFingerprint_ne; by destruct (cs_fingerprint cs)).
  unfold fingerprintHex at 1. by rewrite parse_formatFingerprint.
Qed.

(** A key file that was created is loaded with the passphrase it was
    created with, and its key, the key's fingerprint, its creation time and its
    hint come back: in plain, with scrypt and with PBKDF2, the data sealed in
    the upstream layout.  Without the passphrase it is refused, and so is a
    passphrase for a file that has none. *)
Theorem keyfile_roundtrip key passphrase kdf hint now salt iv doc :
  length key = 32%nat -> length iv = 16%nat -> text hint = true -> 0 <= now < 253402300800 ->
  CreateKeyFile key passphrase kdf hint now salt iv = Ok doc ->
  (exists cs, newCryptState (mkCrypt [] key None None) = Ok cs /\
    LoadKeyFile doc passphrase = Ok (mkKeyInfo key (Some now) (Some now) hint (fingerprintHex cs))) /\
  match passphrase with
  | None => forall p, LoadKeyFile doc (Some p) = Err KeNotProtected
  | Some _ => LoadKeyFile doc None = Err KeNeedsPassphrase
  end.
Proof.
  intros Hkey Hiv Hhint Hnow. unfold CreateKeyFile. destruct (newCryptState _) as [cs|] eqn:Hcs; [|done].
  assert (forall k data raw, match k with Some k => kdf_ok k | None => True end -> text data = true -> b64_decode data = Some raw ->
    let f := mkKeyFile k (FormatRFC3339 now) (FormatRFC3339 now) data (fingerprintHex cs) hint in
    forall p, (unlock f raw p = Ok key ->
        LoadKeyFile (MarshalIndent (json_keyFile f)) p = Ok (mkKeyInfo key (Some now) (Some now) hint (fingerprintHex cs))) /\
      (forall e, unlock f raw p = Err e -> LoadKeyFile (MarshalIndent (json_keyFile f)) p = Err e)) as Hload.
  { intros k data raw Hk Hdata Hraw f p. assert (keyFile_text f = true) as Ht.
    { unfold keyFile_text, f. cbn [kf_Created kf_Modified kf_Data kf_Fingerprint kf_Hint]. unfold fingerprintHex. by rewrite FormatRFC3339_text, Hdata, text_fingerprint, Hhint. }
    destruct (json_keyFile_ok f Hk Ht) as [J1 J2]. destruct (Decode_MarshalIndent _ J1 J2) as [Hd Hv].
    rewrite (load_created f raw p cs key) by done. split; [intros Hu|intros e Hu]; rewrite Hu; cbn [mbind result_bind]; [|done].
    rewrite Hcs, decide_True by done. cbn. by rewrite ParseRFC3339_Format. }
  destruct (decide (kdf = KDFNone)).
  - destruct passphrase as [|]; [done|]. intros Hdoc. apply (f_equal (fun r => match r with Ok d => d | Err _ => doc end)) in Hdoc.
    cbn beta iota in Hdoc. subst doc.
    pose proof (Hload None (b64_encode key) key I (text_b64 key) (b64_decode_encode key)) as Hl. cbv zeta in Hl. split.
    + exists cs. split; [done|]. apply (Hl None). unfold unlock. cbn [kf_KDF]. by rewrite Hkey.
    + intros p. by apply (Hl (Some p)).
  - destruct (decide (_ \/ _)) as [Hkdf|]; [|done]. destruct (Z.ltb_spec (zlen (default [] passphrase)) 5); [done|].
    destruct passphrase as [pass|]; [|done]. cbn [default id] in *. cbv zeta.
    set (k := if decide (kdf = KDFScrypt) then _ else _).
    destruct (deriveKeyFileKey k pass) as [derived|] eqn:Hderive; cbn [mbind result_bind]; [|done].
    destruct (sealKeyFileData derived iv key) as [sealed|] eqn:Hseal; cbn [mbind result_bind]; [|done].
    intros Hdoc. apply (f_equal (fun r => match r with Ok d => d | Err _ => doc end)) in Hdoc. cbn beta iota in Hdoc. subst doc.
    destruct (open_seal _ _ _ _ Hiv Hseal) as [Hopen Hlen]. 
    assert (kdf_ok k) as Hk.
    { unfold k. case_decide; split; cbn; try done; rewrite text_b64; split_and!; try done; unfold is_u64, is_i64, scryptN, scryptR, scryptP, pbkdf2Iter; lia. }
    pose proof (Hload (Some k) (b64_encode sealed) sealed Hk (text_b64 _) (b64_decode_encode _)) as Hl. cbv zeta in Hl. clearbody k. split.
    + exists cs. split; [done|]. apply (Hl (Some pass)). unfold unlock. cbn [kf_KDF]. rewrite Hderive. cbn [mbind result_bind].
      destruct (Z.ltb_spec (zlen sealed) 32); [lia|]. rewrite Hopen. cbn [mbind result_bind]. by rewrite Hkey.
    + by apply (Hl None).
Qed.

(** Whatever a file holds, a key that is loaded is thirty-two bytes, not all
    zero, and has the fingerprint that is reported. *)
Lemma LoadKeyFile_sound doc passphrase info : LoadKeyFile doc passphrase = Ok info ->
  length (ki_Key info) = 32%nat /\ ki_Key info <> replicate 32 nul /\
  exists cs, newCryptState (mkCrypt [] (ki_Key info) None None) = Ok cs /\ ki_Fingerprint info = fingerprintHex cs.
Proof.
  unfold LoadKeyFile. destruct (Unmarshal _ _ _) as [f|]; [|done]. destruct (b64_decode _) as [raw|]; [|done].
  destruct (unlock f raw passphrase) as [key|] eqn:Hu; cbn [mbind result_bind]; [|done].
  destruct (newCryptState _) as [cs|] eqn:Hcs; [|done]. intros Hi.
  assert (info = mkKeyInfo key (ParseRFC3339 (kf_Created f)) (ParseRFC3339 (kf_Modified f)) (kf_Hint f) (fingerprintHex cs)) as ->.
  { destruct (decide _); [by injection Hi|]. destruct (parseFingerprint _); [|done]. destruct (decide _); [by injection Hi|done]. }
  cbn [ki_Key ki_Fingerprint]. split; [|split; [apply (newCryptState_spec _ _ Hcs)|by exists cs]].
  unfold unlock in Hu. destruct (kf_KDF f) as [k|], passphrase as [pass|]; try done.
  - destruct (deriveKeyFileKey k pass); cbn [mbind result_bind] in Hu; [|done]. destruct (_ <? _); [done|].
    destruct (openKeyFileData _ _) as [key'|]; cbn [mbind result_bind] in Hu; [|done].
    destruct (Z.eqb_spec (zlen key') 32); cbn in Hu; [|done]. injection Hu as ->. lia.
  - destruct (Z.eqb_spec (zlen raw) 32); cbn in Hu; [|done]. injection Hu as ->. lia.
Qed.

(** A state has the key and the fingerprint that its key alone has. *)
Lemma newCryptState_key c cs : newCryptState c = Ok cs ->
  exists cs0, newCryptState (mkCrypt [] (cc_Key c) None None) = Ok cs0 /\ cs_fingerprint cs0 = cs_fingerprint cs /\
    cs_idKey cs0 = cs_idKey cs.
Proof.
  unfold newCryptState. cbn [cc_Mode cc_Key cc_KeyCreated cc_MasterPublicKey].
  generalize (pbkdf2_Key (cc_Key c) idKeySalt idKeyIter) as r. intros r Hc.
  destruct (decide (_ /\ _)); [done|]. rewrite (decide_True (P := [] = [])) by done. rewrite decide_False by naive_solver.
  destruct (decide (cc_Key c = _)) as [|Hk]; [done|]. destruct r as [idKey|]; [|done]. destruct (newGCM (cc_Key c)) as [a|]; [|done].
  revert Hc. generalize (keyed_digest idKey (Sum256 fingerprintInput)). intros fp Hc.
  eexists. split; [reflexivity|]. destruct (cc_MasterPublicKey c) as [pem|]; [|by injection Hc as <-].
  destruct (decide (_ = CryptModeEncrypt)); [|done]. destruct (parseRSAPublicKey pem); [|done]. by injection Hc as <-.
Qed.

(** The creation time is only kept. *)
Lemma newCryptState_created c cs created : newCryptState c = Ok cs -> cc_MasterPublicKey c = None ->
  exists cs', newCryptState (mkCrypt (cc_Mode c) (cc_Key c) created None) = Ok cs' /\
    cs_fingerprint cs' = cs_fingerprint cs /\ cs_idKey cs' = cs_idKey cs.
Proof.
  unfold newCryptState. cbn [cc_Mode cc_Key cc_KeyCreated cc_MasterPublicKey].
  generalize (pbkdf2_Key (cc_Key c) idKeySalt idKeyIter) as r. intros r Hc Hm.
  destruct (decide (_ /\ _)); [done|]. destruct (decide (cc_Key c = _)) as [|Hk]; [done|].
  destruct r as [idKey|]; [|done]. destruct (newGCM (cc_Key c)) as [a|]; [|done].
  revert Hc. generalize (keyed_digest idKey (Sum256 fingerprintInput)). intros fp Hc. rewrite Hm in Hc. injection Hc as <-. eexists. by split.
Qed.

(** The copy wrapped for a master key is recovered with its private part. *)
Lemma RecoverKey_wrap `{RSA} c cs master now w :
  newCryptState c = Ok cs -> length (cc_Key c) = 32%nat ->
  wrapKeyConfig cs (rsa_public master) now = Ok w ->
  0 <= now < 253402300800 -> (forall t, cc_KeyCreated c = Some t -> 0 <= t < 253402300800) ->
  RecoverKey w master = Ok (mkKeyInfo (cc_Key c) (Some (default now (cc_KeyCreated c))) (Some now) [] (fingerprintHex cs)).
Proof.
  intros Hcs Hlen. destruct (newCryptState_key _ _ Hcs) as (cs0 & Hcs0 & Hfp & _).
  destruct (newCryptState_spec _ _ Hcs) as (_ & Hkey & _ & Hcreated).
  unfold wrapKeyConfig, RecoverKey. rewrite Hkey, Hcreated. destruct (_ <? _); [done|].
  set (f := mkKeyFile _ _ _ _ _ _). destruct (EncryptPKCS1v15 _ _) as [w'|] eqn:Hw; [|done]. intros [= ->] Hnow Hcr.
  rewrite (Decrypt_Encrypt _ _ _ Hw). assert (keyFile_text f = true) as Ht.
  { unfold keyFile_text, f. cbn [kf_Created kf_Modified kf_Data kf_Fingerprint kf_Hint]. unfold fingerprintHex. by rewrite !FormatRFC3339_text, text_b64, text_fingerprint. }
  destruct (json_keyFile_ok f I Ht) as [J1 J2]. destruct (Decode_Marshal _ J1 J2) as [Hd Hv].
  rewrite (load_created f (cc_Key c) None cs0 (cc_Key c)); [|done|done|done|by unfold fingerprintHex; rewrite Hfp|apply b64_decode_encode|done|done].
  unfold unlock. cbn [kf_KDF f]. rewrite Hlen. change (negb (Z.of_nat 32 =? 32)) with false. cbn [mbind result_bind].
  rewrite Hcs0, decide_True by done. cbn [f kf_Created kf_Modified kf_Hint]. unfold fingerprintHex. rewrite Hfp.
  rewrite !ParseRFC3339_Format; [done|done|]. destruct (cc_KeyCreated c) as [t|]; cbn; [by apply Hcr|done].
Qed.
End correctness.

(* ------------------------------------------------------------------ *)
(** ** Witnesses *)

Lemma text_FormatInt z : is_u64 z -> text (FormatInt z) = true.
Proof.
  intros Hz. destruct (FormatInt_number z (or_introl Hz)) as [_ Hn]. unfold text. rewrite forallb_forall in Hn |- *.
  intros c Hc. specialize (Hn c Hc). revert Hn. unfold num_char. rewrite bool_decide_eq_true.
  intros Hin. cbn in Hin. repeat (apply elem_of_cons in Hin as [->|Hin]; [reflexivity|]). by apply elem_of_nil in Hin.
Qed.

(** The transparent cipher of [Blob], a scrypt that joins the passphrase and the
    salt, times written as numbers, and an RSA that turns the text around. *)
Definition toy_keys : KeyOps := {| newGCM := fun _ => Ok toy_aead; parseRSAPublicKey := fun k => Ok k |}.

Definition toy_files : KeyFileOps.
Proof.
  refine {| scrypt_Key := fun pass salt _ _ _ _ => Ok (copy32 (pass ++ salt));
            FormatRFC3339 := fun t => if bool_decide (is_u64 t) then FormatInt t else [];
            ParseRFC3339 := ParseInt |}.
  - intros t. case_bool_decide; [by apply text_FormatInt|done].
  - intros t Ht. rewrite bool_decide_eq_true_2 by (unfold is_u64; lia). apply ParseInt_FormatInt. unfold is_i64. lia.
Defined.

Definition toy_rsa : RSA.
Proof.
  refine {| rsa_Size := fun _ => 1000; rsa_public := fun k => k; EncryptPKCS1v15 := fun _ d => Ok (rev d);
            DecryptPKCS1v15 := fun _ w => Some (rev w) |}.
  intros _ d w [= <-]. by rewrite rev_involutive.
Defined.

Definition toy_key : bytes := byte_of_Z <$> seqZ 1 32.
Definition toy_pass : bytes := lit "secret".
Definition toy_iv : bytes := replicate 16 x41.
Definition toy_keyfile : result key_error bytes :=
  CreateKeyFile (H := plain_json) (H0 := toy_keys) (H1 := toy_files) toy_key (Some toy_pass) KDFScrypt (lit "my key") 1593179765 (lit "salt") toy_iv.
Definition toy_doc : bytes := match toy_keyfile with Ok d => d | Err _ => [] end.

Lemma toy_created : toy_keyfile = Ok toy_doc.
Proof. vm_compute. reflexivity. Qed.

Lemma keyfile_roundtrip_witness :
  (exists fp, LoadKeyFile (H := plain_json) (H0 := toy_keys) (H1 := toy_files) toy_doc (Some toy_pass) =
     Ok (mkKeyInfo toy_key (Some 1593179765) (Some 1593179765) (lit "my key") fp)) /\
  LoadKeyFile (H := plain_json) (H0 := toy_keys) (H1 := toy_files) toy_doc None = Err KeNeedsPassphrase.
Proof.
  destruct (keyfile_roundtrip (H := plain_json) (H0 := toy_keys) (H1 := toy_files) toy_key (Some toy_pass) KDFScrypt (lit "my key")
    1593179765 (lit "salt") toy_iv toy_doc eq_refl eq_refl eq_refl ltac:(lia) toy_created) as [(cs & _ & Hl) Hn].
  split; [exists (fingerprintHex cs); exact Hl|exact Hn].
Defined.
