(* ===== verification/Server.v ===== *)
(** * The mock backup server

    Models pbs/pbstest/pbstest.go, the server the client is tested against:
    the writer handlers of a backup session (dynamic index create, append and
    close, chunk and blob upload, previous index, finish) and the reader
    handlers (download, chunk), each with its checks in the code's order.
    Requests are taken after their JSON or query encoding is undone; injected
    failures and delays are left to the steps of Upload.v. *)

From S2P Require Import Prelude Hash Blob Index.
Local Open Scope Z_scope.

(** [pbstest.Index]. *)
Record srvIndex := mkSrvIndex {
  ix_Name : bytes; ix_Digests : list bytes; ix_Offsets : list Z; ix_Closed : bool;
  ix_Csum : bytes; ix_Size : Z; ix_ChunkCount : Z }.

Record Snapshot := mkSnapshot {
  sn_ns : bytes; sn_typ : bytes; sn_id : bytes; sn_time : Z;
  sn_Files : gmap bytes bytes; sn_Sizes : gmap bytes Z }.

Record session := mkSession {
  se_ns : bytes; se_typ : bytes; se_id : bytes; se_time : Z;
  se_wids : list Z; se_blobs : gmap bytes bytes; se_allowed : gset bytes }.

(** [pbstest.Server]: what its session handlers read and write.  Counters and
    request logs are left out. *)
Record Server := mkServer {
  sv_Indexes : gmap Z srvIndex; sv_Chunks : gmap bytes bytes;
  sv_Blobs : gmap bytes bytes; sv_BlobsEncoded : gmap bytes bytes; sv_Previous : gmap bytes bytes;
  sv_Finished : bool; sv_ChunksEncoded : gmap bytes bytes;
  sv_Snapshots : list Snapshot; sv_nextWID : Z; sv_known : gset bytes }.

(** A handler's answer: a status code when it refuses. *)
Definition answer (A : Type) := result Z A.

Section server.
Context {ZS : Zstd}.

(** [cryptKey] and [idKey]: the cipher of the key the mock was given, and its
    digest namespace. *)
Variable key : option (AEAD * bytes).

(** [Server.decodeBlob]: the payload and whether it was encrypted. *)
Definition srv_decodeBlob (framed : bytes) : option (bytes * bool) :=
  if zlen framed <? 12 then None else
  let encrypted := bool_decide (take 8 framed = (byte_of_Z <$> [123; 103; 133; 190; 34; 45; 76; 240])) in
  let encryptedCompr := bool_decide (take 8 framed = (byte_of_Z <$> [230; 89; 27; 191; 11; 191; 216; 11])) in
  if encrypted || encryptedCompr then
    match key with
    | None => None
    | Some (aead, _) =>
        if zlen framed <? 44 then None else
        let iv := take 16 (drop 12 framed) in
        let tag := take 16 (drop 28 framed) in
        let ct := drop 44 framed in
        if negb (get32 (drop 8 framed) =? ChecksumIEEE ct) then None else
        payload ← Open aead iv (ct ++ tag);
        if encryptedCompr then plain ← DecodeAll payload; Some (plain, true) else Some (payload, true)
    end
  else
    let payload := drop 12 framed in
    if negb (get32 (drop 8 framed) =? ChecksumIEEE payload) then None else
    if decide (take 8 framed = (byte_of_Z <$> [66; 171; 56; 7; 190; 131; 112; 161])) then Some (payload, false)
    else if decide (take 8 framed = (byte_of_Z <$> [49; 185; 88; 66; 111; 182; 163; 127])) then
      plain ← DecodeAll payload; Some (plain, false)
    else None.

(* ------------------------------------------------------------------ *)
(** ** Writer handlers ([handleH2]) *)

Definition set_index (wid : Z) (ix : srvIndex) (m : Server) : Server :=
  mkServer (<[wid := ix]> (sv_Indexes m)) (sv_Chunks m) (sv_Blobs m) (sv_BlobsEncoded m) (sv_Previous m)
    (sv_Finished m) (sv_ChunksEncoded m) (sv_Snapshots m) (sv_nextWID m) (sv_known m).

(** POST /dynamic_index *)
Definition post_dynamic_index (name : bytes) (m : Server) (s : session) : answer Z * Server * session :=
  if decide (name = []) then (Err 400, m, s) else
  let wid := sv_nextWID m in
  (Ok wid,
   mkServer (<[wid := mkSrvIndex name [] [] false [] 0 0]> (sv_Indexes m)) (sv_Chunks m) (sv_Blobs m) (sv_BlobsEncoded m)
     (sv_Previous m) (sv_Finished m) (sv_ChunksEncoded m) (sv_Snapshots m) (u64 (wid + 1)) (sv_known m),
   mkSession (se_ns s) (se_typ s) (se_id s) (se_time s) (se_wids s ++ [wid]) (se_blobs s) (se_allowed s)).

(** PUT /dynamic_index *)
Definition put_dynamic_index (wid : Z) (digests : list bytes) (offsets : list Z) (m : Server) : answer unit * Server :=
  if negb (length digests =? length offsets)%nat || (length digests =? 0)%nat || (128 <? length digests)%nat
  then (Err 400, m) else
  match sv_Indexes m !! wid with
  | None => (Err 400, m)
  | Some ix =>
      if ix_Closed ix then (Err 400, m) else
      if forallb (fun d => bool_decide (d ∈ sv_known m)) digests then
        (Ok (), set_index wid (mkSrvIndex (ix_Name ix) (ix_Digests ix ++ digests) (ix_Offsets ix ++ offsets) false
                                 (ix_Csum ix) (ix_Size ix) (ix_ChunkCount ix)) m)
      else (Err 400, m)
  end.

(** POST /dynamic_close *)
Definition post_dynamic_close (wid : Z) (csum : bytes) (size count : Z) (m : Server) : answer unit * Server :=
  match sv_Indexes m !! wid with
  | None => (Err 400, m)
  | Some ix =>
      if ix_Closed ix then (Err 400, m) else
      if negb (zlen (ix_Digests ix) =? count) then (Err 400, m) else
      (Ok (), set_index wid (mkSrvIndex (ix_Name ix) (ix_Digests ix) (ix_Offsets ix) true csum size count) m)
  end.

(** POST /dynamic_chunk *)
Definition post_dynamic_chunk (digest : bytes) (encoded_size size : Z) (body : bytes) (m : Server) : answer unit * Server :=
  match srv_decodeBlob body with
  | None => (Err 400, m)
  | Some (plain, encrypted) =>
      if negb (encoded_size =? zlen body) then (Err 400, m) else
      if negb (size =? zlen plain) then (Err 400, m) else
      let idKey := match key with Some (_, idKey) => idKey | None => [] end in
      let h := Sum256 (if encrypted then plain ++ idKey else plain) in
      if decide (EncodeToString h = digest) then
        (Ok (), mkServer (sv_Indexes m) (<[digest := plain]> (sv_Chunks m)) (sv_Blobs m) (sv_BlobsEncoded m) (sv_Previous m)
                  (sv_Finished m) (<[digest := body]> (sv_ChunksEncoded m)) (sv_Snapshots m) (sv_nextWID m) ({[digest]} ∪ sv_known m))
      else (Err 400, m)
  end.

(** POST /blob *)
Definition post_blob (name : bytes) (encoded_size : Z) (body : bytes) (m : Server) (s : session) : answer unit * Server * session :=
  match srv_decodeBlob body with
  | None => (Err 400, m, s)
  | Some (payload, _) =>
      if negb (encoded_size =? zlen body) then (Err 400, m, s) else
      (Ok (),
       mkServer (sv_Indexes m) (sv_Chunks m) (<[name := payload]> (sv_Blobs m)) (<[name := body]> (sv_BlobsEncoded m)) (sv_Previous m)
         (sv_Finished m) (sv_ChunksEncoded m) (sv_Snapshots m) (sv_nextWID m) (sv_known m),
       mkSession (se_ns s) (se_typ s) (se_id s) (se_time s) (se_wids s) (<[name := body]> (se_blobs s)) (se_allowed s))
  end.

(** [lastSnapshot]: the newest one before the session's time. *)
Definition lastSnapshot (ns typ id : bytes) (before : Z) (snaps : list Snapshot) : option Snapshot :=
  foldl (fun last s =>
    if decide (sn_ns s = ns /\ sn_typ s = typ /\ sn_id s = id /\ sn_time s < before /\
               match last with None => true | Some l => sn_time l <? sn_time s end = true)
    then Some s else last) None snaps.

Definition findSnapshot (ns typ id : bytes) (time : Z) (snaps : list Snapshot) : option Snapshot :=
  snd <$> list_find (fun s => sn_ns s = ns /\ sn_typ s = typ /\ sn_id s = id /\ sn_time s = time) snaps.

(** The digests of a raw index, in hex. *)
Fixpoint didx_digests (fuel : nat) (data : bytes) : list bytes :=
  match fuel with
  | O => []
  | S fuel =>
      if (40 <=? length data)%nat
      then EncodeToString (take 32 (drop 8 data)) :: didx_digests fuel (drop 40 data)
      else []
  end.
Definition raw_digests (data : bytes) : list bytes := didx_digests (length data) (drop 4096 data).

(** GET /previous; [None] is the mock's "no previous backup". *)
Definition get_previous (name : bytes) (m : Server) (s : session) : option bytes * Server :=
  let data :=
    match sv_Previous m !! name with
    | Some d => Some d
    | None => last ← lastSnapshot (se_ns s) (se_typ s) (se_id s) (se_time s) (sv_Snapshots m); sn_Files last !! name
    end in
  match data with
  | None => (None, m)
  | Some d =>
      (Some d, mkServer (sv_Indexes m) (sv_Chunks m) (sv_Blobs m) (sv_BlobsEncoded m) (sv_Previous m)
                 (sv_Finished m) (sv_ChunksEncoded m) (sv_Snapshots m) (sv_nextWID m) (list_to_set (raw_digests d) ∪ sv_known m))
  end.

(** The file [commit] writes for a closed index: a chunk ends where the next
    one starts, the last one at the size. *)
Fixpoint index_file (digests : list bytes) (offsets : list Z) (size : Z) : bytes :=
  match digests with
  | [] => []
  | d :: digests =>
      let end_ := match offsets with _ :: o :: _ => o | _ => size end in
      le64 end_ ++ fst (DecodeString d) ++ index_file digests (tail offsets) size
  end.
Definition committed_index (ix : srvIndex) : bytes :=
  (byte_of_Z <$> [28; 145; 78; 165; 25; 186; 179; 205]) ++ replicate 4088 nul ++
  index_file (ix_Digests ix) (ix_Offsets ix) (ix_Size ix).

(** [pbstest.MakeDidx]: a synthetic index of chunks of 1 MiB. *)
Fixpoint synthetic_records (offset : Z) (entries : list bytes) : bytes :=
  match entries with
  | [] => []
  | d :: entries => let offset := u64 (offset + 2 ^ 20) in le64 offset ++ d ++ synthetic_records offset entries
  end.
Definition MakeDidx (entries : list bytes) : bytes :=
  (byte_of_Z <$> [28; 145; 78; 165; 25; 186; 179; 205]) ++ replicate 4088 nul ++ synthetic_records 0 entries.

Fixpoint commit_indexes (ixs : gmap Z srvIndex) (wids : list Z) (files : gmap bytes bytes) (sizes : gmap bytes Z) :
    option (gmap bytes bytes * gmap bytes Z) :=
  match wids with
  | [] => Some (files, sizes)
  | wid :: wids =>
      ix ← ixs !! wid;
      if ix_Closed ix
      then commit_indexes ixs wids (<[ix_Name ix := committed_index ix]> files) (<[ix_Name ix := ix_Size ix]> sizes)
      else None
  end.

(** POST /finish ([commit]) *)
Definition commit (m : Server) (s : session) : answer unit * Server :=
  match commit_indexes (sv_Indexes m) (se_wids s) (se_blobs s) ((fun b : bytes => zlen b) <$> se_blobs s) with
  | None => (Err 400, m)
  | Some (files, sizes) =>
      if decide (findSnapshot (se_ns s) (se_typ s) (se_id s) (se_time s) (sv_Snapshots m) = None) then
        (Ok (), mkServer (sv_Indexes m) (sv_Chunks m) (sv_Blobs m) (sv_BlobsEncoded m) (sv_Previous m)
                  true (sv_ChunksEncoded m) (sv_Snapshots m ++ [mkSnapshot (se_ns s) (se_typ s) (se_id s) (se_time s) files sizes])
                  (sv_nextWID m) (sv_known m))
      else (Err 400, m)
  end.

(* ------------------------------------------------------------------ *)
(** ** Reader handlers ([handleReaderH2], [serveChunk]) *)

(** GET /download *)
Definition get_download (snap : Snapshot) (name : bytes) (s : session) : response * session :=
  match sn_Files snap !! name with
  | None => (Ok (404, []), s)
  | Some data =>
      (Ok (200, data),
       if decide (lit ".didx" `suffix_of` name)
       then mkSession (se_ns s) (se_typ s) (se_id s) (se_time s) (se_wids s) (se_blobs s)
              (list_to_set (raw_digests data) ∪ se_allowed s)
       else s)
  end.

(** GET /chunk *)
Definition serveChunk (m : Server) (s : session) (d : bytes) : response :=
  if decide (d ∈ se_allowed s) then
    match sv_ChunksEncoded m !! d with
    | None => Ok (404, [])
    | Some data => Ok (200, data)
    end
  else Ok (400, []).

(* ------------------------------------------------------------------ *)
(** ** Lemmas *)

(** The mock's decoder is the client's, written a second time. *)
Lemma srv_decodeBlob_agrees cs framed p :
  key = (fun c => (cs_aead c, cs_idKey c)) <$> cs ->
  decodeBlob framed cs = Ok p <-> exists b, srv_decodeBlob framed = Some (p, b).
Proof.
  intros Hkey. unfold decodeBlob, srv_decodeBlob, blobHeaderSize, blobEncHeaderSize.
  destruct (_ <? 12); [by split; [|intros (? & ?)]|].
  fold blobEncryptedMagic blobEncryptedComprMagic blobUncompressedMagic blobCompressedMagic.
  change (Z.to_nat 12) with 12%nat. change (Z.to_nat 44) with 44%nat.
  set (magic := take 8 framed). clearbody magic. unfold decompress.
  destruct (decide (magic = blobUncompressedMagic \/ magic = blobCompressedMagic)) as [Hm|Hm].
  - rewrite (bool_decide_eq_false_2 (magic = blobEncryptedMagic)), (bool_decide_eq_false_2 (magic = blobEncryptedComprMagic))
      by (destruct Hm as [-> | ->]; done). cbn [orb].
    rewrite (Z.eqb_sym (get32 _)). destruct (negb _); [by split; [|intros (? & ?)]|].
    destruct Hm as [-> | ->].
    + rewrite bool_decide_eq_false_2, decide_True by done. split; [intros [= <-]; by eexists|by intros (b & [= <- _])].
    + rewrite bool_decide_eq_true_2, decide_False, decide_True by done.
      destruct (DecodeAll _) as [q|]; cbn; split; try done; try by intros (? & ?).
      * intros [= ->]. by eexists.
      * by intros (b & [= -> _]).
  - destruct (decide (magic = blobEncryptedMagic \/ magic = blobEncryptedComprMagic)) as [He|He].
    + assert (bool_decide (magic = blobEncryptedMagic) || bool_decide (magic = blobEncryptedComprMagic) = true) as ->
        by (destruct He as [-> | ->]; done).
      destruct cs as [cs|]; rewrite Hkey; cbn [fmap option_fmap option_map]; [|by split; [|intros (? & ?)]].
      destruct (_ <? 44); [by split; [|intros (? & ?)]|].
      rewrite (Z.eqb_sym (get32 _)). destruct (negb _); [by split; [|intros (? & ?)]|].
      destruct (Open _ _ _) as [payload|]; cbn; [|by split; [|intros (? & ?)]].
      destruct (bool_decide _); [|split; [intros [= <-]; by eexists|by intros (b & [= <- _])]].
      destruct (DecodeAll payload) as [q|]; cbn; split; try done; try by intros (? & ?).
      * intros [= ->]. by eexists.
      * by intros (b & [= -> _]).
    + rewrite !bool_decide_eq_false_2 by tauto. cbn [orb].
      destruct (negb _); [by split; [|intros (? & ?)]|]. rewrite !decide_False by tauto. by split; [|intros (? & ?)].
Qed.
End server.
