(* ===== verification/Upload.v ===== *)
(** * Index uploads

    Models pbs/upload.go and the writer calls of pbs/session.go: a stream is
    cut into chunk jobs by the producer, hashed, deduplicated and uploaded by
    the workers, and put back into stream order by the collector, which
    appends to the server's index in batches and closes it.  The goroutines of
    all uploads of a session share the known-chunk registry; every channel
    operation, critical section and request is one step, so any interleaving
    is a sequence of steps. *)

From S2P Require Import Prelude Io Reuse Hash Blob Index Server.
From S2P Require Chunker.
Local Open Scope Z_scope.

(* ------------------------------------------------------------------ *)
(** ** Names *)

Definition TrimSuffix (s suffix : bytes) : bytes :=
  if decide (suffix `suffix_of` s) then take (length s - length suffix) s else s.

(** The loop over the archive suffixes: the first that fits is cut off. *)
Fixpoint trim_first (suffixes : list bytes) (base : bytes) : bytes :=
  match suffixes with
  | [] => base
  | s :: suffixes => if decide (s `suffix_of` base) then TrimSuffix base s else trim_first suffixes base
  end.

Definition SplitIndexNames (name : bytes) : bytes * bytes :=
  let base := TrimSuffix name (lit ".didx") in
  let base := trim_first [lit ".pxar"; lit ".mpxar"; lit ".ppxar"] base in
  let base := if decide (base = []) then lit "backup" else base in
  (base ++ lit ".mpxar.didx", base ++ lit ".ppxar.didx").

(** The name [UploadPXARv1] and [UploadStream] upload under. *)
Definition didx_name (name : bytes) : bytes :=
  if decide (lit ".didx" `suffix_of` name) then name else name ++ lit ".didx".

(* ------------------------------------------------------------------ *)
(** ** The producer *)

Record chunkJob := mkJob {
  j_seq : nat; j_offset : Z; j_data : bytes; j_known : bool; j_digest : bytes; j_size : Z }.

Inductive up_error :=
  | UeCanceled | UeNet | UeStatus (code : Z) | UeUnknownChunk (digest : bytes)
  | UeIndex (e : index_error) | UeReuse (e : reuse_error) | UeChunker (e : Chunker.chunker_error) | UeZeroChunk | UeUnaccounted (n : nat).

(** The jobs of plain chunks. *)
Fixpoint data_jobs (seq : nat) (cs : list Chunker.Chunk) : list chunkJob :=
  match cs with
  | [] => []
  | c :: cs => mkJob seq (Chunker.ck_Offset c) (Chunker.ck_Data c) false [] 0 :: data_jobs (S seq) cs
  end.

(** State of [produceFramed]: the chunker, the unfinished chunk, the stream
    offset and the next sequence number. *)
Record framing := mkFraming { fg_c : Chunker.Chunker; fg_current : bytes; fg_offset : Z; fg_seq : nat }.

(** [cut] *)
Definition cut (f : framing) : list chunkJob * framing :=
  match fg_current f with
  | [] => ([], f)
  | d => ([mkJob (fg_seq f) (fg_offset f) d false [] 0],
          mkFraming (fg_c f) [] (u64 (fg_offset f + zlen d)) (S (fg_seq f)))
  end.

(** A data frame; every round takes at least a byte of the segment. *)
Fixpoint data_frame (fuel : nat) (seg : bytes) (f : framing) : list chunkJob * framing :=
  match fuel, seg with
  | S fuel, _ :: _ =>
      let '(pos, c) := Chunker.Scan (fg_c f) seg in
      if pos =? 0 then ([], mkFraming c (fg_current f ++ seg) (fg_offset f) (fg_seq f)) else
      let '(js, f) := cut (mkFraming c (fg_current f ++ take (Z.to_nat pos) seg) (fg_offset f) (fg_seq f)) in
      let '(js', f) := data_frame fuel (drop (Z.to_nat pos) seg) f in
      (js ++ js', f)
  | _, _ => ([], f)
  end.

(** The chunks of an injection frame. *)
Fixpoint inject_jobs (cs : list Chunk) (f : framing) : list chunkJob * option up_error * framing :=
  match cs with
  | [] => ([], None, f)
  | ch :: cs =>
      if c_Size ch =? 0 then ([], Some UeZeroChunk, f) else
      let j := mkJob (fg_seq f) (fg_offset f) [] true (c_Digest ch) (c_Size ch) in
      let '(js, e, f) := inject_jobs cs (mkFraming (fg_c f) (fg_current f) (u64 (fg_offset f + c_Size ch)) (S (fg_seq f))) in
      (j :: js, e, f)
  end.

Definition frame_jobs (fr : Frame) (f : framing) : list chunkJob * option up_error * framing :=
  match fr with
  | Data p => let '(js, f) := data_frame (length p) p f in (js, None, f)
  | Injected cs =>
      let '(js, f) := cut f in
      let '(js', e, f) := inject_jobs cs (mkFraming (Chunker.Reset (fg_c f)) (fg_current f) (fg_offset f) (fg_seq f)) in
      (js ++ js', e, f)
  end.

(** [produceFramed] for a consumer that takes every job: the jobs emitted and
    the error that ends them; [fuel] bounds the frames. *)
Fixpoint framed_loop (fuel : nat) (fr : Reader) (f : framing) : list chunkJob * option up_error :=
  match fuel with
  | O => ([], None)
  | S fuel =>
      match fr_Next fr with
      | (Err ErrEOF, _) => (fst (cut f), None)
      | (Err e, _) => ([], Some (UeReuse e))
      | (Ok frame, fr) =>
          match frame_jobs frame f with
          | (js, Some e, _) => (js, Some e)
          | (js, None, f) => let '(js', e) := framed_loop fuel fr f in (js ++ js', e)
          end
      end
  end.

Definition produceFramed (fr : Reader) (avg : Z) : list chunkJob * option up_error :=
  match Chunker.New avg with
  | Err e => ([], Some (UeChunker e))
  | Ok c => framed_loop (S (S (rsize (fr_r fr)))) fr (mkFraming c [] 0 0)
  end.

(** [io.MultiReader(bytes.NewReader(prefix), r)] *)
Definition MultiReader (prefix : bytes) (r : reader) : reader :=
  if decide (prefix = []) then r else (prefix, None) :: r.

(** The producer of [uploadIndexStream]: whether the stream is framed, the
    jobs it emits if nobody cancels, and how it ends. *)
Definition produce (r : reader) (avg : Z) : bool * list chunkJob * option up_error :=
  match NewReader r with
  | Ok fr => let '(js, e) := produceFramed fr avg in (true, js, e)
  | Err (ErrNotFramed, prefix, r) =>
      let '(cs, e) := Chunker.Split (MultiReader prefix r) avg in
      (false, data_jobs 0 cs, UeChunker <$> e)
  | Err (e, _, _) => (false, [], Some (UeReuse e))
  end.

(* ------------------------------------------------------------------ *)
(** ** The session *)

(** [chunkSet]: a digest is absent, claimed (its state's [done] is open), or
    done, with the error of the upload. *)
Inductive chunkState := InFlight | Complete (err : option up_error).
Abbreviation chunkSet := (gmap bytes chunkState).

(** [chunkSet.claim]: the state found, and whether the caller has to upload. *)
Definition claim (digest : bytes) (cs : chunkSet) : chunkSet * bool :=
  match cs !! digest with
  | Some _ => (cs, false)
  | None => (<[digest := InFlight]> cs, true)
  end.

(** [chunkSet.seed] *)
Definition seed (digest : bytes) (cs : chunkSet) : chunkSet :=
  match cs !! digest with
  | Some _ => cs
  | None => <[digest := Complete None]> cs
  end.

(** [chunkState.complete] *)
Definition complete (digest : bytes) (err : option up_error) (cs : chunkSet) : chunkSet :=
  <[digest := Complete err]> cs.

(** What the uploads of a session share: the registry, the manifest's files
    with the writer ids, the server, and the digests sent to it so far. *)
Record shared := mkShared {
  sh_known : chunkSet; sh_files : list ManifestFile; sh_byWID : gmap Z nat;
  sh_server : Server; sh_session : session; sh_sent : list bytes }.

(** A request's fate: answered, refused before the server acted on it, or
    acted on with the answer lost. *)
Inductive net := NetOk | NetFail (e : up_error) | NetLost (e : up_error).

(** [roundTrip]: a handler under a fate. *)
Definition call {A S} (n : net) (h : S -> answer A * S) (s : S) : result up_error A * S :=
  match n with
  | NetFail e => (Err e, s)
  | NetOk => let '(a, s) := h s in (match a with Ok x => Ok x | Err code => Err (UeStatus code) end, s)
  | NetLost e => (Err e, snd (h s))
  end.

Definition set_known (k : chunkSet) (s : shared) : shared :=
  mkShared k (sh_files s) (sh_byWID s) (sh_server s) (sh_session s) (sh_sent s).
Definition set_server (m : Server) (s : shared) : shared :=
  mkShared (sh_known s) (sh_files s) (sh_byWID s) m (sh_session s) (sh_sent s).

Section upload.
Context {ZS : Zstd}.
(** The client's key; the mock server was given the same. *)
Variable crypt : option cryptState.
Definition srv_key : option (AEAD * bytes) := (fun cs => (cs_aead cs, cs_idKey cs)) <$> crypt.

(** [BackupSession.DownloadPrevious]; an index that does not parse seeds
    nothing, a missing one ([ErrNoPrevious]) is [None]. *)
Definition DownloadPrevious (n : net) (name : bytes) (s : shared) : result up_error (option bytes) * shared :=
  let '(r, m) := call n (fun m => let '(d, m) := get_previous name m (sh_session s) in (Ok d, m)) (sh_server s) in
  let s := set_server m s in
  match r with
  | Err e => (Err e, s)
  | Ok None => (Ok None, s)
  | Ok (Some raw) =>
      (Ok (Some raw),
       match ParseDynamicIndex raw with
       | Ok entries => set_known (foldl (fun k e => seed (Digest e) k) (sh_known s) entries) s
       | Err _ => s
       end)
  end.

(** [BackupSession.CreateDynamicIndex] *)
Definition CreateDynamicIndex (n : net) (name : bytes) (s : shared) : result up_error Z * shared :=
  let '(r, (m, se)) :=
    call n (fun p => let '(a, m, se) := post_dynamic_index name (fst p) (snd p) in (a, (m, se)))
      (sh_server s, sh_session s) in
  match r with
  | Err e => (Err e, mkShared (sh_known s) (sh_files s) (sh_byWID s) m se (sh_sent s))
  | Ok wid =>
      (Ok wid, mkShared (sh_known s) (sh_files s ++ [mkFile name [] 0 (cryptLabel crypt)])
                 (<[wid := length (sh_files s)]> (sh_byWID s)) m se (sh_sent s))
  end.

(** [BackupSession.AppendDynamicIndex] *)
Definition AppendDynamicIndex (n : net) (wid : Z) (digests : list bytes) (offsets : list Z) (s : shared) :
    result up_error unit * shared :=
  let '(r, m) := call n (put_dynamic_index wid digests offsets) (sh_server s) in (r, set_server m s).

(** [BackupSession.CloseDynamicIndex] *)
Definition CloseDynamicIndex (n : net) (wid : Z) (csum : bytes) (size count : Z) (s : shared) :
    result up_error unit * shared :=
  let '(r, m) := call n (post_dynamic_close wid (EncodeToString csum) size count) (sh_server s) in
  let s := set_server m s in
  match r with
  | Err e => (Err e, s)
  | Ok _ =>
      (Ok (),
       match sh_byWID s !! wid with
       | Some i =>
           mkShared (sh_known s) (alter (fun f => mkFile (Filename f) (EncodeToString csum) size (CryptLabel f)) i (sh_files s))
             (sh_byWID s) (sh_server s) (sh_session s) (sh_sent s)
       | None => s
       end)
  end.

(** The frame of [UploadDynamicChunk] and [UploadBlob]; [iv] is what
    [rand.Read] delivered. *)
Definition frame (iv plain : bytes) (compress : bool) : bytes :=
  match crypt with
  | Some cs =>
      if decide (cs_mode cs = CryptModeEncrypt) then encodeEncrypted (cs_aead cs) iv plain compress else Encode plain compress
  | None => Encode plain compress
  end.

(** [BackupSession.UploadDynamicChunk] *)
Definition UploadDynamicChunk (n : net) (iv digest plain : bytes) (s : shared) : result up_error unit * shared :=
  let framed := frame iv plain true in
  let '(r, m) := call n (post_dynamic_chunk srv_key (EncodeToString digest) (zlen framed) (zlen plain) framed) (sh_server s) in
  (r, mkShared (sh_known s) (sh_files s) (sh_byWID s) m (sh_session s) (digest :: sh_sent s)).

(** [BackupSession.PreviousIndex]: the absence of an index is an error here. *)
Definition PreviousIndex (n : net) (name : bytes) (s : shared) : result up_error (option (list IndexEntry)) * shared :=
  match DownloadPrevious n name s with
  | (Err e, s) => (Err e, s)
  | (Ok None, s) => (Ok None, s)
  | (Ok (Some raw), s) =>
      (match ParseDynamicIndex raw with Ok es => Ok (Some es) | Err e => Err (UeIndex e) end, s)
  end.

(** [BackupSession.putBlob] *)
Definition putBlob (n : net) (filename framed label : bytes) (s : shared) : result up_error unit * shared :=
  let '(r, (m, se)) :=
    call n (fun p => let '(a, m, se) := post_blob srv_key filename (zlen framed) framed (fst p) (snd p) in (a, (m, se)))
      (sh_server s, sh_session s) in
  match r with
  | Err e => (Err e, mkShared (sh_known s) (sh_files s) (sh_byWID s) m se (sh_sent s))
  | Ok _ =>
      (Ok (), mkShared (sh_known s) (sh_files s ++ [mkFile filename (EncodeToString (Sum256 framed)) (zlen framed) label])
                (sh_byWID s) m se (sh_sent s))
  end.

(** [BackupSession.UploadBlob] *)
Definition UploadBlob (n : net) (iv filename data : bytes) (compress : bool) (s : shared) : result up_error unit * shared :=
  putBlob n filename (frame iv data compress) (cryptLabel crypt) s.

(* ------------------------------------------------------------------ *)
(** ** The pipeline of one index *)

Record chunkDone := mkDone {
  d_seq : nat; d_offset : Z; d_size : Z; d_digest : bytes; d_reused : bool; d_err : option up_error }.

Record UploadStats := mkStats {
  st_Size : Z; st_ChunkCount : Z; st_NewChunks : Z; st_NewBytes : Z; st_ReusedChunks : Z; st_Entries : list IndexEntry }.

(** A worker: waiting for a job, with a job, uploading, with the outcome of
    its upload, waiting for another's upload, with a completion to send, or
    gone. *)
Inductive worker :=
  | WIdle | WJob (j : chunkJob) | WUpload (j : chunkJob) | WUploaded (j : chunkJob) (err : option up_error)
  | WWait (j : chunkJob) | WSend (d : chunkDone) | WExit.

(** Where [uploadIndexStream] itself is: its requests, the receive from
    [dones], the reassembly loop, the last flush, the close, or its end. *)
Inductive phase := PPrevious | PCreate | PRecv | PLoop | PFlush | PClose | PDone (err : option up_error).

Record upload := mkUpload {
  up_name : bytes; up_wid : Z; up_phase : phase; up_canceled : bool;
  up_framed : bool; up_todo : list chunkJob; up_end : option up_error;
  up_prodErr : option (option up_error); up_jobs : list chunkJob;
  up_workers : list worker; up_dones : list chunkDone;
  up_firstErr : option up_error; up_pending : gmap nat chunkDone; up_next : nat;
  up_stats : UploadStats; up_csum : bytes; up_digests : list bytes; up_offsets : list Z }.

Definition set_phase (p : phase) (u : upload) : upload :=
  mkUpload (up_name u) (up_wid u) p (up_canceled u) (up_framed u) (up_todo u) (up_end u) (up_prodErr u) (up_jobs u)
    (up_workers u) (up_dones u) (up_firstErr u) (up_pending u) (up_next u) (up_stats u) (up_csum u) (up_digests u) (up_offsets u).
Definition set_wid (wid : Z) (u : upload) : upload :=
  mkUpload (up_name u) wid (up_phase u) (up_canceled u) (up_framed u) (up_todo u) (up_end u) (up_prodErr u) (up_jobs u)
    (up_workers u) (up_dones u) (up_firstErr u) (up_pending u) (up_next u) (up_stats u) (up_csum u) (up_digests u) (up_offsets u).
Definition cancel (u : upload) : upload :=
  mkUpload (up_name u) (up_wid u) (up_phase u) true (up_framed u) (up_todo u) (up_end u) (up_prodErr u) (up_jobs u)
    (up_workers u) (up_dones u) (up_firstErr u) (up_pending u) (up_next u) (up_stats u) (up_csum u) (up_digests u) (up_offsets u).
Definition set_prod (todo : list chunkJob) (prodErr : option (option up_error)) (jobs : list chunkJob) (u : upload) : upload :=
  mkUpload (up_name u) (up_wid u) (up_phase u) (up_canceled u) (up_framed u) todo (up_end u) prodErr jobs
    (up_workers u) (up_dones u) (up_firstErr u) (up_pending u) (up_next u) (up_stats u) (up_csum u) (up_digests u) (up_offsets u).
Definition set_worker (k : nat) (w : worker) (u : upload) : upload :=
  mkUpload (up_name u) (up_wid u) (up_phase u) (up_canceled u) (up_framed u) (up_todo u) (up_end u) (up_prodErr u) (up_jobs u)
    (<[k := w]> (up_workers u)) (up_dones u) (up_firstErr u) (up_pending u) (up_next u) (up_stats u) (up_csum u) (up_digests u) (up_offsets u).
Definition set_dones (dones : list chunkDone) (u : upload) : upload :=
  mkUpload (up_name u) (up_wid u) (up_phase u) (up_canceled u) (up_framed u) (up_todo u) (up_end u) (up_prodErr u) (up_jobs u)
    (up_workers u) dones (up_firstErr u) (up_pending u) (up_next u) (up_stats u) (up_csum u) (up_digests u) (up_offsets u).
Definition set_first (e : option up_error) (u : upload) : upload :=
  mkUpload (up_name u) (up_wid u) (up_phase u) (up_canceled u) (up_framed u) (up_todo u) (up_end u) (up_prodErr u) (up_jobs u)
    (up_workers u) (up_dones u) e (up_pending u) (up_next u) (up_stats u) (up_csum u) (up_digests u) (up_offsets u).
Definition set_pending (p : gmap nat chunkDone) (u : upload) : upload :=
  mkUpload (up_name u) (up_wid u) (up_phase u) (up_canceled u) (up_framed u) (up_todo u) (up_end u) (up_prodErr u) (up_jobs u)
    (up_workers u) (up_dones u) (up_firstErr u) p (up_next u) (up_stats u) (up_csum u) (up_digests u) (up_offsets u).
Definition set_batch (digests : list bytes) (offsets : list Z) (u : upload) : upload :=
  mkUpload (up_name u) (up_wid u) (up_phase u) (up_canceled u) (up_framed u) (up_todo u) (up_end u) (up_prodErr u) (up_jobs u)
    (up_workers u) (up_dones u) (up_firstErr u) (up_pending u) (up_next u) (up_stats u) (up_csum u) digests offsets.

(** The state [uploadIndexStream] starts in. *)
Definition uploadIndexStream (name : bytes) (Workers : nat) (avg : Z) (r : reader) : upload :=
  let workers := if decide (Workers = 0%nat) then 4%nat else Workers in
  let '(framed, todo, e) := produce r avg in
  mkUpload name 0 PPrevious false framed todo e None [] (replicate workers WIdle) [] None ∅ 0
    (mkStats 0 0 0 0 0 []) [] [] [].

(** [UploadPXARv1], [UploadStream] and [UploadCatalog]. *)
Definition UploadStream (name : bytes) (Workers : nat) (avg : Z) (r : reader) : upload :=
  uploadIndexStream (didx_name name) Workers avg r.
Definition UploadCatalog (Workers : nat) (avg : Z) (r : reader) : upload :=
  uploadIndexStream (lit "catalog.pcat1.didx") Workers avg r.

(** [UploadPXARv2]: two uploads side by side.  When one fails it cancels the
    other: an [EvCancel] of that one, which may come at any time. *)
Definition UploadPXARv2 (name : bytes) (Workers : nat) (avg : Z) (meta payload : reader) : upload * upload :=
  let '(metaName, payloadName) := SplitIndexNames name in
  (uploadIndexStream metaName Workers avg meta, uploadIndexStream payloadName Workers avg payload).

(** The error it reports: the root cause, not the cancellation it provoked. *)
Definition canceled (e : up_error) : bool := match e with UeCanceled => true | _ => false end.
Definition v2_error (err payloadErr : option up_error) : option up_error :=
  match err, payloadErr with
  | None, _ => payloadErr
  | Some e, Some pe => if canceled e && negb (canceled pe) then Some pe else Some e
  | Some e, None => Some e
  end.

(** The completion of a job, before its error is known. *)
Definition job_size (j : chunkJob) : Z := if j_known j then j_size j else zlen (j_data j).
Definition job_digest (j : chunkJob) : bytes := if j_known j then j_digest j else ChunkDigest crypt (j_data j).
Definition job_done (j : chunkJob) (reused : bool) (err : option up_error) : chunkDone :=
  mkDone (j_seq j) (j_offset j) (job_size j) (job_digest j) reused err.

Definition running (u : upload) : bool :=
  match up_phase u with PRecv | PLoop => true | _ => false end.

(** [flush] *)
Definition flush (n : net) (u : upload) (s : shared) : option up_error * upload * shared :=
  match up_digests u with
  | [] => (None, u, s)
  | _ =>
      match AppendDynamicIndex n (up_wid u) (up_digests u) (up_offsets u) s with
      | (Err e, s) => (Some e, u, s)
      | (Ok _, s) => (None, set_batch [] [] u, s)
      end
  end.

(** One completion in stream order: the statistics, the index checksum and the
    batch. *)
Definition take_done (cur : chunkDone) (u : upload) : upload :=
  let st := up_stats u in
  let end_ := u64 (d_offset cur + d_size cur) in
  let st :=
    mkStats end_ (u64 (st_ChunkCount st + 1))
      (if d_reused cur then st_NewChunks st else u64 (st_NewChunks st + 1))
      (if d_reused cur then st_NewBytes st else u64 (st_NewBytes st + d_size cur))
      (if d_reused cur then u64 (st_ReusedChunks st + 1) else st_ReusedChunks st)
      (st_Entries st ++ [mkEntry end_ (d_digest cur)]) in
  mkUpload (up_name u) (up_wid u) (up_phase u) (up_canceled u) (up_framed u) (up_todo u) (up_end u) (up_prodErr u) (up_jobs u)
    (up_workers u) (up_dones u) (up_firstErr u) (delete (up_next u) (up_pending u)) (S (up_next u)) st
    (up_csum u ++ le64 end_ ++ d_digest cur) (up_digests u ++ [EncodeToString (d_digest cur)]) (up_offsets u ++ [d_offset cur]).

(** The events: requests of [uploadIndexStream] itself, moves of the producer,
    of worker [k], of the collector, and the end of the context. *)
Inductive event :=
  | EvPrevious (n : net) | EvCreate (n : net)
  | EvEmit | EvEmitCancel | EvProduced
  | EvTake (k : nat) | EvExit (k : nat) | EvClaim (k : nat) | EvUpload (k : nat) (n : net) (iv : bytes)
  | EvComplete (k : nat) | EvWait (k : nat) | EvWaitCancel (k : nat) | EvSend (k : nat)
  | EvCollect | EvNext (n : net) | EvEnd | EvFlush (n : net) | EvClose (n : net)
  | EvCancel.

(** The producer and the workers. *)
Definition step_workers (ev : event) (u : upload) (s : shared) : option (upload * shared) :=
  let cap := length (up_workers u) in
  match ev with
  | EvEmit =>
      match up_todo u, up_prodErr u with
      | j :: todo, None =>
          if (length (up_jobs u) <? cap)%nat then Some (set_prod todo None (up_jobs u ++ [j]) u, s) else None
      | _, _ => None
      end
  | EvEmitCancel =>
      match up_todo u, up_prodErr u with
      | _ :: _, None => if up_canceled u then Some (set_prod (up_todo u) (Some (Some UeCanceled)) (up_jobs u) u, s) else None
      | _, _ => None
      end
  | EvProduced =>
      match up_todo u, up_prodErr u with
      | [], None =>
          let e := match up_end u with
                   | Some e => Some (if up_framed u && up_canceled u then UeCanceled else e)
                   | None => None
                   end in
          Some (set_prod [] (Some e) (up_jobs u) u, s)
      | _, _ => None
      end
  | EvTake k =>
      match up_workers u !! k, up_jobs u with
      | Some WIdle, j :: jobs => Some (set_worker k (WJob j) (set_prod (up_todo u) (up_prodErr u) jobs u), s)
      | _, _ => None
      end
  | EvExit k =>
      match up_workers u !! k, up_jobs u, up_prodErr u with
      | Some WIdle, [], Some _ => Some (set_worker k WExit u, s)
      | _, _, _ => None
      end
  | EvClaim k =>
      match up_workers u !! k with
      | Some (WJob j) =>
          let '(known, winner) := claim (job_digest j) (sh_known s) in
          Some (set_worker k (if winner then WUpload j else WWait j) u, set_known known s)
      | _ => None
      end
  | EvUpload k n iv =>
      match up_workers u !! k with
      | Some (WUpload j) =>
          if j_known j then Some (set_worker k (WUploaded j (Some (UeUnknownChunk (take 8 (job_digest j))))) u, s)
          else
            let '(r, s) := UploadDynamicChunk n iv (job_digest j) (j_data j) s in
            Some (set_worker k (WUploaded j (match r with Ok _ => None | Err e => Some e end)) u, s)
      | _ => None
      end
  | EvComplete k =>
      match up_workers u !! k with
      | Some (WUploaded j err) =>
          Some (set_worker k (WSend (job_done j false err)) u, set_known (complete (job_digest j) err (sh_known s)) s)
      | _ => None
      end
  | EvWait k =>
      match up_workers u !! k with
      | Some (WWait j) =>
          match sh_known s !! job_digest j with
          | Some (Complete err) =>
              Some (set_worker k (WSend (job_done j (match err with None => true | Some _ => false end) err)) u, s)
          | _ => None
          end
      | _ => None
      end
  | EvWaitCancel k =>
      match up_workers u !! k with
      | Some (WWait j) =>
          if up_canceled u then Some (set_worker k (WSend (job_done j false (Some UeCanceled))) u, s) else None
      | _ => None
      end
  | EvSend k =>
      match up_workers u !! k with
      | Some (WSend d) =>
          if (length (up_dones u) <? cap * 2)%nat then Some (set_worker k WIdle (set_dones (up_dones u ++ [d]) u), s) else None
      | _ => None
      end
  | _ => None
  end.

(** The collector. *)
Definition step_collector (ev : event) (u : upload) (s : shared) : option (upload * shared) :=
  match ev, up_phase u with
  | EvCollect, PRecv =>
      match up_dones u with
      | d :: dones =>
          let u := set_dones dones u in
          Some (match up_firstErr u, d_err d with
                | Some _, _ => u
                | None, Some e => cancel (set_first (Some e) u)
                | None, None => set_phase PLoop (set_pending (<[d_seq d := d]> (up_pending u)) u)
                end, s)
      | [] => None
      end
  | EvNext n, PLoop =>
      match up_pending u !! up_next u with
      | None => Some (set_phase PRecv u, s)
      | Some cur =>
          let u := take_done cur u in
          if (length (up_digests u) =? 128)%nat then
            match flush n u s with
            | (None, u, s) => Some (u, s)
            | (Some e, u, s) => Some (set_phase PRecv (cancel (set_first (Some e) u)), s)
            end
          else Some (u, s)
      end
  | EvEnd, PRecv =>
      match up_dones u, up_prodErr u with
      | [], Some prodErr =>
          if forallb (fun w => match w with WExit => true | _ => false end) (up_workers u) then
            let first := match up_firstErr u with Some e => Some e | None => prodErr end in
            Some (set_phase match first with
                            | Some e => PDone (Some e)
                            | None => if decide (up_pending u = ∅) then PFlush else PDone (Some (UeUnaccounted (size (up_pending u))))
                            end u, s)
          else None
      | _, _ => None
      end
  | EvFlush n, PFlush =>
      let '(e, u, s) := flush n u s in
      Some (set_phase (match e with Some e => PDone (Some e) | None => PClose end) u, s)
  | EvClose n, PClose =>
      let '(r, s) := CloseDynamicIndex n (up_wid u) (Sum256 (up_csum u)) (st_Size (up_stats u)) (st_ChunkCount (up_stats u)) s in
      Some (set_phase (PDone (match r with Ok _ => None | Err e => Some e end)) u, s)
  | EvPrevious n, PPrevious =>
      let '(r, s) := DownloadPrevious n (up_name u) s in
      Some (set_phase (match r with Ok _ => PCreate | Err e => PDone (Some e) end) u, s)
  | EvCreate n, PCreate =>
      match CreateDynamicIndex n (up_name u) s with
      | (Ok wid, s) => Some (set_phase PRecv (set_wid wid u), s)
      | (Err e, s) => Some (set_phase (PDone (Some e)) u, s)
      end
  | EvCancel, _ => Some (cancel u, s)
  | _, _ => None
  end.

Definition step (ev : event) (u : upload) (s : shared) : option (upload * shared) :=
  match step_collector ev u s with
  | Some r => Some r
  | None => if running u then step_workers ev u s else None
  end.

(** The uploads of a session side by side. *)
Definition sstep (i : nat) (ev : event) (us : list upload) (s : shared) : option (list upload * shared) :=
  u ← us !! i;
  '(u, s) ← step ev u s;
  Some (<[i := u]> us, s).

Fixpoint srun (evs : list (nat * event)) (us : list upload) (s : shared) : option (list upload * shared) :=
  match evs with
  | [] => Some (us, s)
  | (i, ev) :: evs => '(us, s) ← sstep i ev us s; srun evs us s
  end.
End upload.
