(* ===== verification/UploadSpec.v ===== *)
(** * Index uploads: what every interleaving does

    The invariants of Upload.v's steps, over any number of uploads sharing a
    session, and what they give: a chunk is sent to the server at most once,
    an index that is closed successfully lists exactly the jobs of its stream
    in stream order, and no state is a deadlock. *)

From S2P Require Import Prelude Io Reuse Hash Blob Index Server Upload.
Local Open Scope Z_scope.

(* ------------------------------------------------------------------ *)
(** ** Lists *)

Lemma bind_insert_perm {A B} (f : A -> list B) (l : list A) i x y :
  l !! i = Some x -> (<[i := y]> l ≫= f) ++ f x ≡ₚ f y ++ (l ≫= f).
Proof.
  intros Hi. rewrite <- (take_drop_middle l i x Hi) at 2.
  rewrite (insert_take_drop l i y) by (by eapply lookup_lt_Some).
  rewrite !bind_app. cbn. rewrite <- (Permutation_app_comm (f x)). solve_Permutation.
Qed.

Section flight.
Context {ZS : Zstd}.
Variable crypt : option cryptState.

(* ------------------------------------------------------------------ *)
(** ** Claims: who holds a digest *)

(** The digests a worker has claimed and not completed, and those it has yet to
    send. *)
Definition hold (w : worker) : list bytes :=
  match w with WUpload j | WUploaded j _ => [job_digest crypt j] | _ => [] end.
Definition to_send (w : worker) : list bytes :=
  match w with WUpload j => [job_digest crypt j] | _ => [] end.

Definition holders (us : list upload) : list bytes := us ≫= fun u => up_workers u ≫= hold.
Definition senders (us : list upload) : list bytes := us ≫= fun u => up_workers u ≫= to_send.

(** What a step does to the claims: nothing but learning of digests the server
    has, or one claim, one request, one completion. *)
Inductive flight (u : upload) (s : shared) (u' : upload) (s' : shared) : Prop :=
  | fl_quiet :
      up_workers u' ≫= hold ≡ₚ up_workers u ≫= hold ->
      up_workers u' ≫= to_send ≡ₚ up_workers u ≫= to_send ->
      sh_sent s' = sh_sent s ->
      (forall d st, sh_known s !! d = Some st -> sh_known s' !! d = Some st) ->
      (forall d st, sh_known s !! d = None -> sh_known s' !! d = Some st -> st = Complete None) ->
      flight u s u' s'
  | fl_claim d :
      sh_known s !! d = None -> sh_known s' = <[d := InFlight]> (sh_known s) ->
      up_workers u' ≫= hold ≡ₚ d :: (up_workers u ≫= hold) ->
      up_workers u' ≫= to_send ≡ₚ d :: (up_workers u ≫= to_send) ->
      sh_sent s' = sh_sent s -> flight u s u' s'
  | fl_send d :
      sh_known s' = sh_known s -> up_workers u' ≫= hold ≡ₚ up_workers u ≫= hold ->
      d :: (up_workers u' ≫= to_send) ≡ₚ up_workers u ≫= to_send ->
      (sh_sent s' = sh_sent s \/ sh_sent s' = d :: sh_sent s) -> flight u s u' s'
  | fl_complete d err :
      sh_known s' = <[d := Complete err]> (sh_known s) ->
      d :: (up_workers u' ≫= hold) ≡ₚ up_workers u ≫= hold ->
      up_workers u' ≫= to_send ≡ₚ up_workers u ≫= to_send ->
      sh_sent s' = sh_sent s -> flight u s u' s'.

(** A worker that changes neither. *)
Lemma set_worker_quiet {B} (f : worker -> list B) ws k w w' :
  ws !! k = Some w -> f w = f w' -> <[k := w']> ws ≫= f ≡ₚ ws ≫= f.
Proof.
  intros Hk He. pose proof (bind_insert_perm f ws k w w' Hk) as Hp. rewrite He in Hp.
  apply (Permutation_app_inv_r (f w')). rewrite Hp. apply Permutation_app_comm.
Qed.

Lemma same_flight u s u' s' :
  up_workers u' = up_workers u -> sh_sent s' = sh_sent s -> sh_known s' = sh_known s -> flight u s u' s'.
Proof. intros Hw Hs Hk. apply fl_quiet; [by rewrite Hw..|done| |]; rewrite Hk; [done|]. intros d st H1 H2. congruence. Qed.

Lemma quiet_flight u s u' s' k w w' :
  up_workers u !! k = Some w -> up_workers u' = <[k := w']> (up_workers u) ->
  hold w = hold w' -> to_send w = to_send w' -> sh_sent s' = sh_sent s -> sh_known s' = sh_known s -> flight u s u' s'.
Proof.
  intros Hk Hw Hh Hs He Hkn. apply fl_quiet; rewrite ?Hw.
  - by eapply set_worker_quiet.
  - by eapply set_worker_quiet.
  - done.
  - by rewrite Hkn.
  - rewrite Hkn. intros d st H1 H2. congruence.
Qed.

Lemma seeds_known (es : list IndexEntry) k :
  let k' := foldl (fun k e => seed (Digest e) k) k es in
  (forall d st, k !! d = Some st -> k' !! d = Some st) /\
  (forall d st, k !! d = None -> k' !! d = Some st -> st = Complete None /\ d ∈ Digest <$> es).
Proof.
  revert k. induction es as [|e es IH]; intros k; cbn [foldl].
  { split; [done|]. intros d st H1 H2. congruence. }
  destruct (IH (seed (Digest e) k)) as [I1 I2]. unfold seed in *. destruct (k !! Digest e) as [st0|] eqn:He.
  - split; [done|]. intros d st H1 H2. destruct (I2 d st H1 H2). split; [done|]. by right.
  - split.
    + intros d st Hd. apply I1. rewrite lookup_insert_ne; [done|congruence].
    + intros d st Hd H2. destruct (decide (d = Digest e)) as [->|Hne].
      * rewrite (I1 (Digest e) (Complete None)) in H2 by apply lookup_insert_eq. injection H2 as <-. split; [done|]. by left.
      * destruct (I2 d st) as [-> Hin]; [by rewrite lookup_insert_ne|done|]. split; [done|]. by right.
Qed.

(** Requests of the upload itself leave claims alone. *)
Lemma flush_flight n u s e u' s' : flush n u s = (e, u', s') ->
  up_workers u' = up_workers u /\ sh_sent s' = sh_sent s /\ sh_known s' = sh_known s.
Proof.
  unfold flush, AppendDynamicIndex. destruct (up_digests u); [by intros [= <- <- <-]|].
  destruct (call _ _ _) as [[|]]; by intros [= <- <- <-].
Qed.

Lemma step_flight ev u s u' s' : step crypt ev u s = Some (u', s') -> flight u s u' s'.
Proof.
  unfold step. destruct (step_collector crypt ev u s) as [[u1 s1]|] eqn:Hc.
  - intros [= <- <-].
    destruct ev; try done; cbn [step_collector] in Hc; destruct (up_phase u) eqn:Hph; try done.
    all: try (injection Hc as <- <-; by apply same_flight).
    + destruct (DownloadPrevious n (up_name u) s) as [r s2] eqn:Hd. injection Hc as <- <-.
      unfold DownloadPrevious in Hd. destruct (call _ _ _) as [r0 m]. destruct r0 as [[raw|]|e]; try (injection Hd as <- <-; by apply same_flight).
      destruct (ParseDynamicIndex raw) as [es|]; injection Hd as <- <-; [|by apply same_flight].
      destruct (seeds_known es (sh_known s)) as [H1 H2].
      apply fl_quiet; [done|done|done|exact H1|]. intros d st Hn Hs. by destruct (H2 d st Hn Hs).
    + destruct (CreateDynamicIndex crypt n (up_name u) s) as [r s2] eqn:Hd. unfold CreateDynamicIndex in Hd.
      destruct (call _ _ _) as [r0 [m se]]. destruct r0 as [wid|e]; injection Hd as <- <-; injection Hc as <- <-; by apply same_flight.
    + destruct (up_dones u) as [|d dones]; [done|]. injection Hc as <- <-.
      cbn. destruct (up_firstErr u), (d_err d); by apply same_flight.
    + destruct (up_pending u !! up_next u) as [cur|]; [|injection Hc as <- <-; by apply same_flight].
      destruct (_ =? 128)%nat; [|injection Hc as <- <-; by apply same_flight].
      destruct (flush n (take_done cur u) s) as [[e u2] s2] eqn:Hf. apply flush_flight in Hf as (H1 & H2 & H3).
      destruct e; injection Hc as <- <-; by apply same_flight.
    + destruct (up_dones u); [|done]. destruct (up_prodErr u) as [pe|]; [|done]. destruct (forallb _ _); [|done].
      injection Hc as <- <-. by apply same_flight.
    + destruct (flush n u s) as [[e u2] s2] eqn:Hf. apply flush_flight in Hf as (H1 & H2 & H3).
      injection Hc as <- <-. by apply same_flight.
    + destruct (CloseDynamicIndex n _ _ _ _ s) as [r s2] eqn:Hd. unfold CloseDynamicIndex in Hd.
      destruct (call _ _ _) as [r0 m]. injection Hc as <- <-.
      destruct r0; [|injection Hd as <- <-; by apply same_flight].
      cbn in Hd. destruct (sh_byWID s !! up_wid u); injection Hd as <- <-; by apply same_flight.
  - destruct (running u); [|done]. intros Hw. destruct ev; try done; cbn [step_workers] in Hw.
    + destruct (up_todo u), (up_prodErr u); try done. destruct (_ <? _)%nat; [|done]. injection Hw as <- <-. by apply same_flight.
    + destruct (up_todo u), (up_prodErr u); try done. destruct (up_canceled u); [|done]. injection Hw as <- <-. by apply same_flight.
    + destruct (up_todo u), (up_prodErr u); try done. injection Hw as <- <-. by apply same_flight.
    + destruct (up_workers u !! k) as [[]|] eqn:Hk; try done. destruct (up_jobs u) as [|j jobs]; [done|]. injection Hw as <- <-.
      by eapply quiet_flight.
    + destruct (up_workers u !! k) as [[]|] eqn:Hk; try done. destruct (up_jobs u), (up_prodErr u); try done. injection Hw as <- <-.
      by eapply quiet_flight.
    + destruct (up_workers u !! k) as [[|j| | | | |]|] eqn:Hk; try done. unfold claim in Hw.
      destruct (sh_known s !! job_digest crypt j) as [st|] eqn:Hs; injection Hw as <- <-; [by eapply quiet_flight|].
      apply (fl_claim _ _ _ _ (job_digest crypt j)); [done|done| | |done].
      * pose proof (bind_insert_perm hold _ k _ (WUpload j) Hk) as Hp. rewrite app_nil_r in Hp. exact Hp.
      * pose proof (bind_insert_perm to_send _ k _ (WUpload j) Hk) as Hp. rewrite app_nil_r in Hp. exact Hp.
    + destruct (up_workers u !! k) as [[| |j| | | |]|] eqn:Hk; try done.
      assert (forall err, job_digest crypt j :: (<[k := WUploaded j err]> (up_workers u) ≫= to_send) ≡ₚ up_workers u ≫= to_send) as Hp.
      { intros err. pose proof (bind_insert_perm to_send _ k _ (WUploaded j err) Hk) as Hp. cbn [to_send app] in Hp.
        rewrite <- Hp. by rewrite <- Permutation_cons_append. }
      destruct (j_known j).
      * injection Hw as <- <-. apply (fl_send _ _ _ _ (job_digest crypt j)); [done|by eapply set_worker_quiet|apply Hp|by left].
      * destruct (UploadDynamicChunk crypt n iv _ _ s) as [r s2] eqn:Hu. unfold UploadDynamicChunk in Hu.
        destruct (call _ _ _) as [r0 m]. injection Hu as <- <-. injection Hw as <- <-.
        apply (fl_send _ _ _ _ (job_digest crypt j)); [done|by eapply set_worker_quiet|apply Hp|by right].
    + destruct (up_workers u !! k) as [[| | |j err| | |]|] eqn:Hk; try done. injection Hw as <- <-.
      apply (fl_complete _ _ _ _ (job_digest crypt j) err); [done| |by eapply set_worker_quiet|done].
      pose proof (bind_insert_perm hold _ k _ (WSend (job_done crypt j false err)) Hk) as Hp. cbn [hold app] in Hp.
      rewrite <- Hp. cbn. by rewrite <- Permutation_cons_append.
    + destruct (up_workers u !! k) as [[| | | |j| |]|] eqn:Hk; try done.
      destruct (sh_known s !! job_digest crypt j) as [[|err]|]; try done. injection Hw as <- <-. by eapply quiet_flight.
    + destruct (up_workers u !! k) as [[| | | |j| |]|] eqn:Hk; try done. destruct (up_canceled u); [|done].
      injection Hw as <- <-. by eapply quiet_flight.
    + destruct (up_workers u !! k) as [[| | | | |d|]|] eqn:Hk; try done. destruct (_ <? _)%nat; [|done].
      injection Hw as <- <-. by eapply quiet_flight.
Qed.

(** The claims of a session: a digest is held by at most one worker of all
    uploads, exactly while it is in flight, and is sent at most once, by who
    holds it. *)
Record claims_ok (us : list upload) (s : shared) : Prop := {
  cl_nodup : NoDup (holders us);
  cl_hold d : d ∈ holders us <-> sh_known s !! d = Some InFlight;
  cl_sent : NoDup (sh_sent s);
  cl_senders d : d ∈ senders us -> d ∉ sh_sent s;
  cl_known d : d ∈ sh_sent s -> sh_known s !! d <> None }.

Lemma to_send_hold ws : ws ≫= to_send ⊆+ ws ≫= hold.
Proof.
  induction ws as [|w ws IH]; [done|]. rewrite !list_bind_cons. apply submseteq_app; [|done].
  destruct w; cbn; try done; apply submseteq_nil_l.
Qed.
Lemma senders_holders us : senders us ⊆+ holders us.
Proof.
  induction us as [|u us IH]; [done|]. unfold senders, holders in *. rewrite !list_bind_cons.
  apply submseteq_app; [apply to_send_hold|done].
Qed.

Lemma insert_bind_perm {A B} (f : A -> list B) (l : list A) i x y (a b : list B) :
  l !! i = Some x -> a ++ f y ≡ₚ b ++ f x -> a ++ (<[i := y]> l ≫= f) ≡ₚ b ++ (l ≫= f).
Proof.
  intros Hi Hp. pose proof (bind_insert_perm f l i x y Hi) as H.
  apply (Permutation_app_inv_r (f x)). rewrite <- app_assoc, H, app_assoc, Hp, <- !app_assoc.
  apply Permutation_app_head, Permutation_app_comm.
Qed.

Lemma sstep_claims i ev us s us' s' :
  sstep crypt i ev us s = Some (us', s') -> claims_ok us s -> claims_ok us' s'.
Proof.
  unfold sstep. intros Hs Hok. destruct (us !! i) as [u|] eqn:Hi; [|done]. cbn [mbind option_bind] in Hs.
  destruct (step crypt ev u s) as [[u' s1]|] eqn:Hst; [|done]. cbn in Hs. injection Hs as <- <-.
  pose proof (senders_holders us) as Hsub. destruct Hok as [H1 H2 H3 H4 H5].
  assert (NoDup (senders us)) as Hns.
  { apply submseteq_Permutation in Hsub as [k Hk]. rewrite Hk in H1. by apply NoDup_app in H1 as (? & _). }
  pose proof (fun a b => insert_bind_perm (fun u => up_workers u ≫= hold) us i u u' a b Hi) as Ph.
  pose proof (fun a b => insert_bind_perm (fun u => up_workers u ≫= to_send) us i u u' a b Hi) as Ps.
  fold (holders us) (holders (<[i := u']> us)) in Ph. fold (senders us) (senders (<[i := u']> us)) in Ps.
  destruct (step_flight _ _ _ _ _ Hst) as [Eh Es Et K1 K2|d Kn Ek Eh Es Et|d Ek Eh Es Et|d err Ek Eh Es Et].
  - specialize (Ph [] [] Eh). specialize (Ps [] [] Es). cbn [app] in Ph, Ps. constructor.
    + by rewrite Ph.
    + intros d. rewrite Ph, H2. split; [apply K1|]. intros Hd. destruct (sh_known s !! d) as [st|] eqn:Hk.
      * specialize (K1 d st Hk). congruence.
      * by specialize (K2 d _ Hk Hd).
    + by rewrite Et.
    + intros d. rewrite Ps, Et. apply H4.
    + intros d. rewrite Et. intros Hd. specialize (H5 d Hd). destruct (sh_known s !! d) as [st|] eqn:Hk; [|done].
      by rewrite (K1 d st Hk).
  - specialize (Ph [] [d] Eh). specialize (Ps [] [d] Es). cbn [app] in Ph, Ps. constructor.
    + rewrite Ph. apply NoDup_cons. split; [|done]. rewrite H2. congruence.
    + intros d'. rewrite Ph, Ek, elem_of_cons, H2. destruct (decide (d = d')) as [<-|Hne].
      * rewrite lookup_insert_eq. by split; [|left].
      * rewrite lookup_insert_ne by done. split; [intros [->|]; done|by right].
    + by rewrite Et.
    + intros d'. rewrite Ps, Et, elem_of_cons. intros [->|Hd]; [|by apply H4]. intros Hd. by apply H5 in Hd.
    + intros d'. rewrite Et, Ek. intros Hd. destruct (decide (d = d')) as [<-|Hne]; [by rewrite lookup_insert_eq|].
      rewrite lookup_insert_ne by done. by apply H5.
  - specialize (Ph [] [] Eh). specialize (Ps [d] [] Es). cbn [app] in Ph, Ps.
    assert (d ∈ senders us) as Hd by (rewrite <- Ps; left). constructor.
    + by rewrite Ph.
    + intros d'. by rewrite Ph, Ek.
    + destruct Et as [-> | ->]; [done|]. apply NoDup_cons. split; [by apply H4|done].
    + intros d' Hd'. assert (d' ∈ senders us) as Hin by (rewrite <- Ps; by right).
      destruct Et as [-> | ->]; [by apply H4|]. intros [->|Hx]%elem_of_cons; [|by apply (H4 d')].
      rewrite <- Ps in Hns. by apply NoDup_cons in Hns as [? _].
    + intros d'. rewrite Ek. assert (d ∈ holders us) as Hdh by (eapply elem_of_submseteq; eauto).
      apply H2 in Hdh. destruct Et as [-> | ->]; [apply H5|]. intros [->|Hx]%elem_of_cons; [congruence|by apply H5].
  - specialize (Ph [d] [] Eh). specialize (Ps [] [] Es). cbn [app] in Ph, Ps.
    assert (NoDup (d :: holders (<[i := u']> us))) as Hnd by (by rewrite Ph). apply NoDup_cons in Hnd as [Hd Hnd]. constructor.
    + done.
    + intros d'. rewrite Ek. destruct (decide (d = d')) as [<-|Hne].
      * rewrite lookup_insert_eq. by split.
      * rewrite lookup_insert_ne by done. rewrite <- H2, <- Ph, elem_of_cons. split; [by right|]. intros [->|]; done.
    + by rewrite Et.
    + intros d'. rewrite Ps, Et. apply H4.
    + intros d'. rewrite Et, Ek. intros Hx. destruct (decide (d = d')) as [<-|Hne]; [by rewrite lookup_insert_eq|].
      rewrite lookup_insert_ne by done. by apply H5.
Qed.
End flight.

Section pipeline.
Context {ZS : Zstd}.
Variable crypt : option cryptState.

(* ------------------------------------------------------------------ *)
(** ** The jobs in the pipeline *)

(** The server accepts a reference to the chunk. *)
Definition srv_has (s : shared) (d : bytes) : Prop := EncodeToString d ∈ sv_known (sh_server s).

(** A digest that is complete without error is known to the server. *)
Definition known_ok (s : shared) : Prop :=
  forall d, sh_known s !! d = Some (Complete None) -> srv_has s d.

Section jobs.
(** All jobs of the stream, in order. *)
Variable J : list chunkJob.

Definition in_J (j : chunkJob) : Prop := J !! j_seq j = Some j.

Definition done_ok (s : shared) (d : chunkDone) : Prop :=
  exists j, J !! d_seq d = Some j /\ d_offset d = j_offset j /\ d_size d = job_size j /\
    d_digest d = job_digest crypt j /\ (d_err d = None -> srv_has s (d_digest d)).

Definition worker_ok (s : shared) (w : worker) : Prop :=
  match w with
  | WJob j | WUpload j | WWait j => in_J j
  | WUploaded j err => in_J j /\ (err = None -> srv_has s (job_digest crypt j))
  | WSend d => done_ok s d
  | WIdle | WExit => True
  end.

Definition wseq (w : worker) : list nat :=
  match w with
  | WJob j | WUpload j | WWait j | WUploaded j _ => [j_seq j]
  | WSend d => [d_seq d]
  | WIdle | WExit => []
  end.

(** Where every job of the stream is. *)
Definition seqs (u : upload) : list nat :=
  seq 0 (up_next u) ++ (map_to_list (up_pending u)).*1 ++ (d_seq <$> up_dones u) ++
  (up_workers u ≫= wseq) ++ (j_seq <$> up_jobs u) ++ (j_seq <$> up_todo u).

Record pipe_ok (u : upload) (s : shared) : Prop := {
  pi_todo : Forall in_J (up_todo u);
  pi_jobs : Forall in_J (up_jobs u);
  pi_workers : Forall (worker_ok s) (up_workers u);
  pi_dones : Forall (done_ok s) (up_dones u);
  pi_pending : map_Forall (fun k d => d_seq d = k /\ d_err d = None /\ done_ok s d) (up_pending u);
  pi_seqs : up_firstErr u = None -> seqs u ≡ₚ seq 0 (length J);
  pi_prod : up_prodErr u = Some None -> up_todo u = [] /\ up_end u = None }.

Definition srv_grows (s s' : shared) : Prop := sv_known (sh_server s) ⊆ sv_known (sh_server s').

#[local] Instance srv_grows_refl : Reflexive srv_grows.
Proof. intros s. unfold srv_grows. reflexivity. Qed.
Lemma set_known_grows k s : srv_grows s (set_known k s).
Proof. unfold srv_grows. cbn. reflexivity. Qed.
Lemma srv_has_mono s s' d : srv_grows s s' -> srv_has s d -> srv_has s' d.
Proof. unfold srv_has, srv_grows. set_solver. Qed.
Lemma done_ok_mono s s' d : srv_grows s s' -> done_ok s d -> done_ok s' d.
Proof. intros Hg (j & ? & ? & ? & ? & H). exists j. split_and!; try done. intros He. eapply srv_has_mono; eauto. Qed.
Lemma worker_ok_mono s s' w : srv_grows s s' -> worker_ok s w -> worker_ok s' w.
Proof.
  intros Hg. destruct w; cbn; try done; [|by apply done_ok_mono]. intros [? H]. split; [done|]. intros He.
  eapply srv_has_mono; eauto.
Qed.

Lemma pipe_ok_mono u s s' : srv_grows s s' -> pipe_ok u s -> pipe_ok u s'.
Proof.
  intros Hg [H1 H2 H3 H4 H5 H6 H7]. constructor; try done.
  - eapply Forall_impl; [exact H3|]. intros w. by apply worker_ok_mono.
  - eapply Forall_impl; [exact H4|]. intros w. by apply done_ok_mono.
  - intros k d Hk. destruct (H5 k d Hk) as (? & ? & ?). split_and!; try done. by eapply done_ok_mono.
Qed.

(** Steps that leave the pipeline alone. *)
Lemma pipe_ok_same u u' s :
  up_todo u' = up_todo u -> up_jobs u' = up_jobs u -> up_workers u' = up_workers u -> up_dones u' = up_dones u ->
  up_pending u' = up_pending u -> up_next u' = up_next u -> (up_firstErr u' = None -> up_firstErr u = None) ->
  up_prodErr u' = up_prodErr u -> up_end u' = up_end u -> pipe_ok u s -> pipe_ok u' s.
Proof.
  intros E1 E2 E3 E4 E5 E6 E7 E8 E9 [H1 H2 H3 H4 H5 H6 H7]. constructor; rewrite ?E1, ?E2, ?E3, ?E4, ?E5, ?E8, ?E9; try done.
  unfold seqs. rewrite E1, E2, E3, E4, E5, E6. intros He. apply H6. auto.
Qed.

(** Steps of one worker. *)
Lemma pipe_ok_worker k w w' u s todo prodErr jobs :
  up_workers u !! k = Some w -> worker_ok s w' ->
  pipe_ok u s -> prodErr = up_prodErr u -> todo = up_todo u ->
  wseq w' ++ (j_seq <$> jobs) ≡ₚ wseq w ++ (j_seq <$> up_jobs u) -> Forall in_J jobs ->
  pipe_ok (set_worker k w' (set_prod todo prodErr jobs u)) s.
Proof.
  intros Hk Hw [H1 H2 H3 H4 H5 H6 H7] -> -> Hp Hj. constructor; try done.
  - by apply Forall_insert.
  - intros He. specialize (H6 He). rewrite <- H6. unfold seqs. cbn.
    pose proof (bind_insert_perm wseq (up_workers u) k w w' Hk) as Hb.
    do 3 apply Permutation_app_head. rewrite !app_assoc. apply Permutation_app_tail.
    apply (Permutation_app_inv_r (wseq w)).
    rewrite <- !app_assoc, (Permutation_app_comm (j_seq <$> jobs)), app_assoc, Hb.
    rewrite (Permutation_app_comm (wseq w')), <- !app_assoc, Hp.
    apply Permutation_app_head. apply Permutation_app_comm.
Qed.

Lemma pipe_ok_worker' k w w' u s :
  up_workers u !! k = Some w -> worker_ok s w' -> pipe_ok u s -> wseq w' = wseq w -> pipe_ok (set_worker k w' u) s.
Proof.
  intros Hk Hw Hu He.
  destruct (pipe_ok_worker k w w' u s (up_todo u) (up_prodErr u) (up_jobs u) Hk Hw Hu eq_refl eq_refl)
    as [G1 G2 G3 G4 G5 G6 G7]; [by rewrite He|apply Hu|]. by constructor.
Qed.
End jobs.

#[local] Instance srv_grows_refl' : Reflexive srv_grows := srv_grows_refl.

(** What the answers of the server leave known. *)
Lemma call_known {A} n (h : Server -> answer A * Server) m :
  sv_known m ⊆ sv_known (h m).2 -> sv_known m ⊆ sv_known (call n h m).2.
Proof. intros Hh. destruct n; cbn; try done. by destruct (h m). Qed.

Lemma put_known wid ds os m : sv_known (put_dynamic_index wid ds os m).2 = sv_known m.
Proof. unfold put_dynamic_index. repeat case_match; done. Qed.
Lemma close_known wid csum size count m : sv_known (post_dynamic_close wid csum size count m).2 = sv_known m.
Proof. unfold post_dynamic_close. repeat case_match; done. Qed.
Lemma chunk_known d es sz body m :
  sv_known m ⊆ sv_known (post_dynamic_chunk (srv_key crypt) d es sz body m).2 /\
  (is_ok (post_dynamic_chunk (srv_key crypt) d es sz body m).1 = true ->
   d ∈ sv_known (post_dynamic_chunk (srv_key crypt) d es sz body m).2).
Proof. unfold post_dynamic_chunk. repeat case_match; cbn; try done; set_solver. Qed.

Lemma didx_digests_records n fuel b e :
  length b = (40 * n)%nat -> (length b <= fuel)%nat -> e ∈ index_records n b ->
  EncodeToString (Digest e) ∈ didx_digests fuel b.
Proof.
  revert fuel b. induction n as [|n IH]; intros fuel b Hb Hf He; [by apply elem_of_nil in He|].
  destruct fuel as [|fuel]; [lia|]. cbn [didx_digests].
  rewrite (proj2 (Nat.leb_le 40 (length b))) by lia.
  cbn [index_records] in He. apply elem_of_cons in He as [->|He]; [by left|right].
  apply IH; [rewrite length_drop; lia..|exact He].
Qed.

Lemma parse_digests raw es e :
  ParseDynamicIndex raw = Ok es -> e ∈ es -> EncodeToString (Digest e) ∈ raw_digests raw.
Proof.
  unfold ParseDynamicIndex, raw_digests. destruct (_ <? _); [done|]. destruct (decide _); [|done].
  change (Z.to_nat didxHeaderSize) with 4096%nat. set (b := drop 4096 raw).
  destruct (Z.eqb_spec (zlen b mod didxRecordSize) 0) as [Hm|]; intros [= <-].
  apply didx_digests_records.
  - unfold didxRecordSize in *. pose proof (Z.div_mod (zlen b) 40). lia.
  - unfold b. rewrite length_drop. lia.
Qed.

Lemma UploadDynamicChunk_spec n iv d p s r s' :
  UploadDynamicChunk crypt n iv d p s = (r, s') ->
  srv_grows s s' /\ sh_known s' = sh_known s /\ (r = Ok () -> srv_has s' d).
Proof.
  unfold UploadDynamicChunk. set (h := post_dynamic_chunk _ _ _ _ _).
  pose proof (chunk_known (EncodeToString d) (zlen (frame crypt iv p true)) (zlen p) (frame crypt iv p true) (sh_server s)) as [H1 H2].
  fold h in H1, H2. pose proof (call_known n h (sh_server s) H1) as H3.
  destruct (call n h (sh_server s)) as [r0 m] eqn:Hc. intros [= <- <-]. split_and!; [exact H3|done|].
  intros ->. unfold srv_has. cbn. destruct n; cbn in Hc; [|done..].
  destruct (h (sh_server s)) as [[[]|] m']; [|done]. injection Hc as <-. by apply H2.
Qed.

Lemma known_ok_mono s s' : srv_grows s s' -> sh_known s' = sh_known s -> known_ok s -> known_ok s'.
Proof. intros Hg Hk H d Hd. rewrite Hk in Hd. eapply srv_has_mono; eauto. Qed.

Lemma job_done_ok J s j reused err :
  in_J J j -> (err = None -> srv_has s (job_digest crypt j)) -> done_ok J s (job_done crypt j reused err).
Proof. intros Hj He. exists j. by split_and!. Qed.

Lemma step_workers_pipe J ev u s u' s' :
  step_workers crypt ev u s = Some (u', s') -> known_ok s -> pipe_ok J u s ->
  pipe_ok J u' s' /\ known_ok s' /\ srv_grows s s'.
Proof.
  intros Hw Hkn Hp. pose proof Hp as [H1 H2 H3 H4 H5 H6 H7].
  destruct ev; try done; cbn [step_workers] in Hw.
  - destruct (up_todo u) as [|j todo] eqn:Ht, (up_prodErr u) eqn:Hpe; try done. destruct (_ <? _)%nat; [|done].
    injection Hw as <- <-. split_and!; [|done..]. apply Forall_cons in H1 as [Hj H1].
    constructor; cbn; try done.
    + apply Forall_app. split; [done|]. by constructor.
    + intros He. rewrite <- (H6 He). unfold seqs. cbn. rewrite Ht, fmap_app. cbn.
      do 4 apply Permutation_app_head. by rewrite <- app_assoc.
  - destruct (up_todo u) eqn:Ht, (up_prodErr u); try done. destruct (up_canceled u); [|done]. injection Hw as <- <-.
    split_and!; [|done..]. constructor; cbn; try done.
    intros He. specialize (H6 He). unfold seqs in H6 |- *. cbn. by rewrite Ht in H6.
  - destruct (up_todo u) eqn:Ht, (up_prodErr u); try done. injection Hw as <- <-.
    split_and!; [|done..]. constructor; cbn; try done.
    + intros He. specialize (H6 He). unfold seqs in H6 |- *. cbn. by rewrite Ht in H6.
    + destruct (up_end u); [|by split]. by destruct (_ && _).
  - destruct (up_workers u !! k) as [[]|] eqn:Hk; try done. destruct (up_jobs u) as [|j jobs] eqn:Hj; [done|]. injection Hw as <- <-.
    split_and!; [|done..]. apply Forall_cons in H2 as [Hj1 H2].
    eapply pipe_ok_worker; [exact Hk|exact Hj1|done|done|done| |done]. rewrite Hj. done.
  - destruct (up_workers u !! k) as [[]|] eqn:Hk; try done. destruct (up_jobs u), (up_prodErr u); try done. injection Hw as <- <-.
    split_and!; [|done..]. by eapply pipe_ok_worker'.
  - destruct (up_workers u !! k) as [[|j| | | | |]|] eqn:Hk; try done.
    pose proof (Forall_lookup_1 _ _ _ _ H3 Hk) as Hj. unfold claim in Hw.
    destruct (sh_known s !! job_digest crypt j) as [st|] eqn:Hs; injection Hw as <- <-.
    + split_and!; [|exact Hkn|apply set_known_grows].
      eapply (pipe_ok_worker' J k _ (WWait j)); [exact Hk|exact Hj|exact (pipe_ok_mono J u s _ (set_known_grows _ s) Hp)|done].
    + split_and!; [|..|apply set_known_grows].
      * eapply (pipe_ok_worker' J k _ (WUpload j)); [exact Hk|exact Hj|exact (pipe_ok_mono J u s _ (set_known_grows _ s) Hp)|done].
      * intros d. cbn. destruct (decide (d = job_digest crypt j)) as [->|Hne]; [by rewrite lookup_insert_eq|].
        rewrite lookup_insert_ne by done. apply Hkn.
  - destruct (up_workers u !! k) as [[| |j| | | |]|] eqn:Hk; try done.
    pose proof (Forall_lookup_1 _ _ _ _ H3 Hk) as Hj. destruct (j_known j).
    + injection Hw as <- <-. split_and!; [|done..]. by eapply pipe_ok_worker'.
    + destruct (UploadDynamicChunk crypt n iv _ _ s) as [r s2] eqn:Hu. injection Hw as <- <-.
      apply UploadDynamicChunk_spec in Hu as (U1 & U2 & U3). split_and!; [|by eapply known_ok_mono|done].
      eapply pipe_ok_worker'; [exact Hk| |by eapply pipe_ok_mono|done].
      split; [done|]. destruct r as [[]|]; [by intros _; apply U3|done].
  - destruct (up_workers u !! k) as [[| | |j err| | |]|] eqn:Hk; try done. injection Hw as <- <-.
    pose proof (Forall_lookup_1 _ _ _ _ H3 Hk) as [Hj He]. split_and!; [|..|apply set_known_grows].
    + eapply pipe_ok_worker'; [exact Hk|by apply job_done_ok|exact (pipe_ok_mono J u s _ (set_known_grows _ s) Hp)|done].
    + intros d. cbn. unfold complete. destruct (decide (d = job_digest crypt j)) as [->|Hne].
      * rewrite lookup_insert_eq. intros [= ->]. by apply He.
      * rewrite lookup_insert_ne by done. apply Hkn.
  - destruct (up_workers u !! k) as [[| | | |j| |]|] eqn:Hk; try done.
    pose proof (Forall_lookup_1 _ _ _ _ H3 Hk) as Hj.
    destruct (sh_known s !! job_digest crypt j) as [[|err]|] eqn:Hs; try done. injection Hw as <- <-.
    split_and!; [|done..]. eapply pipe_ok_worker'; [exact Hk| |done|done].
    apply job_done_ok; [done|]. intros ->. by apply Hkn.
  - destruct (up_workers u !! k) as [[| | | |j| |]|] eqn:Hk; try done. destruct (up_canceled u); [|done].
    pose proof (Forall_lookup_1 _ _ _ _ H3 Hk) as Hj. injection Hw as <- <-.
    split_and!; [|done..]. eapply pipe_ok_worker'; [exact Hk|by apply job_done_ok|done|done].
  - destruct (up_workers u !! k) as [[| | | | |d|]|] eqn:Hk; try done. destruct (_ <? _)%nat; [|done].
    pose proof (Forall_lookup_1 _ _ _ _ H3 Hk) as Hd. injection Hw as <- <-. split_and!; [|done..].
    constructor; cbn; try done.
    + by apply Forall_insert.
    + apply Forall_app. split; [done|]. by constructor.
    + intros He. rewrite <- (H6 He). unfold seqs. cbn. rewrite fmap_app. cbn.
      pose proof (bind_insert_perm wseq (up_workers u) k _ WIdle Hk) as Hb. cbn [wseq app] in Hb.
      do 2 apply Permutation_app_head. rewrite <- app_assoc. apply Permutation_app_head. rewrite <- Hb.
      solve_Permutation.
Qed.

Lemma get_previous_known name m s : sv_known m ⊆ sv_known (get_previous name m s).2 /\
  forall raw d, (get_previous name m s).1 = Some raw -> d ∈ raw_digests raw -> d ∈ sv_known (get_previous name m s).2.
Proof.
  unfold get_previous. set (data := match sv_Previous m !! name with Some _ => _ | None => _ end).
  destruct data as [d|]; cbn; [|done]. split; [set_solver|]. intros raw x [= <-] Hx.
  apply elem_of_union_l. by apply elem_of_list_to_set.
Qed.

Lemma DownloadPrevious_spec n name s r s' :
  DownloadPrevious n name s = (r, s') -> known_ok s -> srv_grows s s' /\ known_ok s'.
Proof.
  unfold DownloadPrevious. intros Hd Hk. set (h := fun m => _) in Hd.
  pose proof (get_previous_known name (sh_server s) (sh_session s)) as [G1 G2].
  assert ((h (sh_server s)).2 = (get_previous name (sh_server s) (sh_session s)).2) as Hh2
    by (unfold h; by destruct (get_previous _ _ _)).
  assert (forall x, (h (sh_server s)).1 = Ok x -> x = (get_previous name (sh_server s) (sh_session s)).1) as Hh1
    by (unfold h; destruct (get_previous _ _ _); cbn; congruence).
  pose proof (call_known n h (sh_server s)) as Hg. rewrite Hh2 in Hg. specialize (Hg G1).
  destruct (call n h (sh_server s)) as [r0 m] eqn:Hc. cbn [snd] in Hg.
  assert (known_ok (set_server m s)) as Hk' by (by apply (known_ok_mono s)).
  destruct r0 as [[raw|]|e]; [|by injection Hd as <- <-..].
  destruct (ParseDynamicIndex raw) as [es|] eqn:Hp; injection Hd as <- <-; [|done].
  split; [done|]. intros d Hs. cbn in Hs. destruct (seeds_known es (sh_known s)) as [S1 S2].
  destruct (sh_known s !! d) as [st|] eqn:Hd.
  - rewrite (S1 d st Hd) in Hs. injection Hs as ->. by apply Hk'.
  - destruct (S2 d _ Hd Hs) as [_ Hin]. apply list_elem_of_fmap in Hin as (e & -> & He).
    unfold srv_has. cbn. pose proof (parse_digests raw es e Hp He) as Hraw.
    destruct n; cbn in Hc; [|done..]. destruct (h (sh_server s)) as [a m'] eqn:Hhe. cbn in Hh1, Hh2.
    destruct a as [x|]; [|done]. injection Hc as -> <-. subst m'. apply (G2 raw); [|done]. by rewrite <- (Hh1 _ eq_refl).
Qed.

Lemma CreateDynamicIndex_spec n name s r s' :
  CreateDynamicIndex crypt n name s = (r, s') ->
  sv_known (sh_server s') = sv_known (sh_server s) /\ sh_known s' = sh_known s.
Proof.
  unfold CreateDynamicIndex. set (h := fun p => _).
  assert (sv_known (h (sh_server s, sh_session s)).2.1 = sv_known (sh_server s)) as Hh.
  { unfold h, post_dynamic_index. cbn. by destruct (decide _). }
  destruct (call n h _) as [r0 [m se]] eqn:Hc. intros Hd.
  assert (sv_known m = sv_known (sh_server s)) as Hm.
  { destruct n; cbn in Hc.
    - destruct (h _) as [a [m' se']]. injection Hc as _ <- _. exact Hh.
    - by injection Hc as _ <- _.
    - destruct (h _) as [a [m' se']]. injection Hc as _ <- _. exact Hh. }
  destruct r0; injection Hd as <- <-; by split.
Qed.

Lemma call_known_eq {A} n (h : Server -> answer A * Server) m :
  sv_known (h m).2 = sv_known m -> sv_known (call n h m).2 = sv_known m.
Proof. intros Hh. destruct n; cbn; try done. by destruct (h m). Qed.

Lemma AppendDynamicIndex_known n wid ds os s r s' :
  AppendDynamicIndex n wid ds os s = (r, s') ->
  sv_known (sh_server s') = sv_known (sh_server s) /\ sh_known s' = sh_known s.
Proof.
  unfold AppendDynamicIndex. pose proof (call_known_eq n _ _ (put_known wid ds os (sh_server s))) as H.
  destruct (call n _ _) as [r0 m]. intros [= <- <-]. done.
Qed.

Lemma flush_spec n u s e u' s' :
  flush n u s = (e, u', s') ->
  sv_known (sh_server s') = sv_known (sh_server s) /\ sh_known s' = sh_known s /\
  (u' = u \/ u' = set_batch [] [] u).
Proof.
  unfold flush. destruct (up_digests u) as [|d ds] eqn:Hds; [intros [= <- <- <-]; auto|].
  destruct (AppendDynamicIndex n _ _ _ s) as [r s1] eqn:Ha. apply AppendDynamicIndex_known in Ha as [H1 H2].
  destruct r; intros [= <- <- <-]; auto.
Qed.

Lemma CloseDynamicIndex_known n wid csum size count s r s' :
  CloseDynamicIndex n wid csum size count s = (r, s') ->
  sv_known (sh_server s') = sv_known (sh_server s) /\ sh_known s' = sh_known s.
Proof.
  unfold CloseDynamicIndex.
  pose proof (call_known_eq n _ _ (close_known wid (EncodeToString csum) size count (sh_server s))) as H.
  destruct (call n _ _) as [r0 m]. destruct r0; [|by intros [= <- <-]]. cbn.
  destruct (sh_byWID s !! wid); by intros [= <- <-].
Qed.

Lemma eq_grows s s' : sv_known (sh_server s') = sv_known (sh_server s) -> srv_grows s s'.
Proof. intros H. unfold srv_grows. by rewrite H. Qed.

(** Taking the next completion out of the map. *)
Lemma take_done_pipe J u s cur :
  up_pending u !! up_next u = Some cur -> pipe_ok J u s -> pipe_ok J (take_done cur u) s.
Proof.
  intros Hc [H1 H2 H3 H4 H5 H6 H7]. constructor; try done.
  - intros k d Hk. cbn in Hk. apply lookup_delete_Some in Hk as [_ Hk]. by apply H5.
  - intros He. rewrite <- (H6 He). unfold seqs. cbn [take_done up_next up_pending up_dones up_workers up_jobs up_todo].
    assert (seq 0 (S (up_next u)) = seq 0 (up_next u) ++ [up_next u]) as -> by apply seq_S.
    rewrite <- !app_assoc. apply Permutation_app_head.
    rewrite !app_assoc. do 4 apply Permutation_app_tail.
    rewrite <- (map_to_list_delete (up_pending u) (up_next u) cur Hc). done.
Qed.

Lemma step_collector_pipe J ev u s u' s' :
  step_collector crypt ev u s = Some (u', s') -> known_ok s -> pipe_ok J u s ->
  pipe_ok J u' s' /\ known_ok s' /\ srv_grows s s'.
Proof.
  intros Hc Hkn Hp. pose proof Hp as [H1 H2 H3 H4 H5 H6 H7].
  assert (forall s1 u1, sv_known (sh_server s1) = sv_known (sh_server s) /\ sh_known s1 = sh_known s ->
    pipe_ok J u1 s -> pipe_ok J u1 s1 /\ known_ok s1 /\ srv_grows s s1) as Hsrv.
  { intros s1 u1 [E1 E2] Hu. apply eq_grows in E1. split_and!; [by eapply pipe_ok_mono|by eapply known_ok_mono|done]. }
  destruct ev; try done; cbn [step_collector] in Hc; destruct (up_phase u) eqn:Hph; try done.
  all: try (injection Hc as <- <-; split_and!; [by apply (pipe_ok_same J u)|done|done]).
  - destruct (DownloadPrevious n (up_name u) s) as [r s2] eqn:Hd. injection Hc as <- <-.
    apply DownloadPrevious_spec in Hd as [D1 D2]; [|done]. split_and!; [|done..].
    apply (pipe_ok_same J u); try done. by eapply pipe_ok_mono.
  - destruct (CreateDynamicIndex crypt n (up_name u) s) as [r s2] eqn:Hd. apply CreateDynamicIndex_spec in Hd.
    destruct r; injection Hc as <- <-; (apply Hsrv; [done|by apply (pipe_ok_same J u)]).
  - destruct (up_dones u) as [|d dones] eqn:Hds; [done|]. injection Hc as <- <-. apply Forall_cons in H4 as [Hd H4].
    split_and!; [|done..].
    destruct (up_firstErr u) as [e|] eqn:Hfe; [|destruct (d_err d) as [e|] eqn:Hde]; constructor; cbn; try done.
    + congruence.
    + intros k d' Hk. apply lookup_insert_Some in Hk as [[<- <-]|[_ Hk]]; [done|by apply H5].
    + intros He. rewrite <- (H6 eq_refl). unfold seqs. cbn. rewrite Hds. cbn.
      apply Permutation_app_head.
      assert (up_pending u !! d_seq d = None) as Hn.
      { destruct (up_pending u !! d_seq d) as [d'|] eqn:Hn; [|done]. exfalso.
        assert (NoDup (seqs u)) as Hnd by (rewrite (H6 eq_refl); apply NoDup_seq).
        unfold seqs in Hnd. apply NoDup_app in Hnd as (_ & _ & Hnd). apply NoDup_app in Hnd as (_ & Hnd & _).
        apply (Hnd (d_seq d)); [apply list_elem_of_fmap; exists (d_seq d, d'); split; [done|by apply elem_of_map_to_list]|].
        rewrite Hds. cbn. by left. }
      rewrite map_to_list_insert by done. cbn. by rewrite <- Permutation_middle.
  - destruct (up_pending u !! up_next u) as [cur|] eqn:Hcur;
      [|injection Hc as <- <-; split_and!; [by apply (pipe_ok_same J u)|done|done]].
    pose proof (take_done_pipe J u s cur Hcur Hp) as Ht.
    destruct (_ =? 128)%nat; [|injection Hc as <- <-; split_and!; done].
    destruct (flush n (take_done cur u) s) as [[e u2] s2] eqn:Hf. apply flush_spec in Hf as (F1 & F2 & F3).
    assert (pipe_ok J u2 s) as Hu2 by (destruct F3 as [-> | ->]; [done|by apply (pipe_ok_same J (take_done cur u))]).
    destruct e; injection Hc as <- <-; (apply Hsrv; [done|]); [by apply (pipe_ok_same J u2)|done].
  - destruct (up_dones u); [|done]. destruct (up_prodErr u) as [pe|]; [|done]. destruct (forallb _ _); [|done].
    injection Hc as <- <-. split_and!; [by apply (pipe_ok_same J u)|done|done].
  - destruct (flush n u s) as [[e u2] s2] eqn:Hf. apply flush_spec in Hf as (F1 & F2 & F3).
    injection Hc as <- <-. apply Hsrv; [done|].
    destruct F3 as [-> | ->]; by apply (pipe_ok_same J u).
  - destruct (CloseDynamicIndex n _ _ _ _ s) as [r s2] eqn:Hd. apply CloseDynamicIndex_known in Hd.
    injection Hc as <- <-. apply Hsrv; [done|by apply (pipe_ok_same J u)].
Qed.

Lemma step_pipe J ev u s u' s' :
  step crypt ev u s = Some (u', s') -> known_ok s -> pipe_ok J u s ->
  pipe_ok J u' s' /\ known_ok s' /\ srv_grows s s'.
Proof.
  unfold step. destruct (step_collector crypt ev u s) as [[u1 s1]|] eqn:Hc.
  - intros [= <- <-]. by apply (step_collector_pipe J ev u s).
  - destruct (running u); [|done]. by apply step_workers_pipe.
Qed.
End pipeline.

Section collector.
Context {ZS : Zstd}.
Variable crypt : option cryptState.

(* ------------------------------------------------------------------ *)
(** ** The index on the server *)

(** The index entry and the wire digest of a job. *)
Definition job_entry (j : chunkJob) : IndexEntry := mkEntry (u64 (j_offset j + job_size j)) (job_digest crypt j).
Definition job_hex (j : chunkJob) : bytes := EncodeToString (job_digest crypt j).
(** Where the stream ends after some jobs. *)
Definition jobs_end (js : list chunkJob) : Z :=
  match last js with Some j => EndOffset (job_entry j) | None => 0 end.

(** Writer ids name distinct manifest files and are below the next one. *)
Record shared_ok (s : shared) : Prop := {
  so_wid w i : sh_byWID s !! w = Some i -> w < sv_nextWID (sh_server s) /\ (i < length (sh_files s))%nat;
  so_inj w w' i : sh_byWID s !! w = Some i -> sh_byWID s !! w' = Some i -> w = w' }.

(** All that belongs to a writer id is as before. *)
Definition same_wid (w : Z) (s s' : shared) : Prop :=
  sv_Indexes (sh_server s') !! w = sv_Indexes (sh_server s) !! w /\
  sh_byWID s' !! w = sh_byWID s !! w /\
  forall i, sh_byWID s !! w = Some i -> sh_files s' !! i = sh_files s !! i.

#[local] Instance same_wid_refl w : Reflexive (same_wid w).
Proof. by intros s. Qed.
Lemma same_wid_trans w s1 s2 s3 : same_wid w s1 s2 -> same_wid w s2 s3 -> same_wid w s1 s3.
Proof.
  intros (A1 & A2 & A3) (B1 & B2 & B3). split_and!; [congruence|congruence|]. intros i Hi.
  rewrite B3 by congruence. by apply A3.
Qed.

(** A step of the writer [wid] leaves what belongs to the others alone. *)
Definition frame_ok (wid : option Z) (s s' : shared) : Prop :=
  (forall w, is_Some (sh_byWID s !! w) -> Some w <> wid -> same_wid w s s') /\
  (forall w, is_Some (sh_byWID s !! w) -> is_Some (sh_byWID s' !! w)) /\ shared_ok s'.

Section jobs.
Variable J : list chunkJob.

(** The open index of an upload: what has been taken in stream order is
    appended, but for the batch in hand, of at most [b] chunks. *)
Record indexed (b : nat) (u : upload) (s : shared) : Prop := {
  in_next : (up_next u <= length J)%nat;
  in_entries : st_Entries (up_stats u) = job_entry <$> take (up_next u) J;
  in_csum : up_csum u = index_bytes (job_entry <$> take (up_next u) J);
  in_size : st_Size (up_stats u) = jobs_end (take (up_next u) J);
  in_count : st_ChunkCount (up_stats u) = u64 (Z.of_nat (up_next u));
  in_has : Forall (fun j => srv_has s (job_digest crypt j)) (take (up_next u) J);
  in_batch : (length (up_digests u) <= b)%nat;
  in_server : exists ix i, sv_Indexes (sh_server s) !! up_wid u = Some ix /\ ix_Closed ix = false /\
    ix_Name ix = up_name u /\
    ix_Digests ix ++ up_digests u = job_hex <$> take (up_next u) J /\
    ix_Offsets ix ++ up_offsets u = j_offset <$> take (up_next u) J /\
    length (up_digests u) = length (up_offsets u) /\
    sh_byWID s !! up_wid u = Some i /\ sh_files s !! i = Some (mkFile (up_name u) [] 0 (cryptLabel crypt)) }.

(** What a successful upload leaves: the closed index and the manifest file,
    both of exactly the jobs of the stream, in order. *)
Definition closed (u : upload) (s : shared) : Prop :=
  let entries := job_entry <$> J in
  let csum := EncodeToString (index_csum entries) in
  up_end u = None /\ st_Entries (up_stats u) = entries /\
  st_Size (up_stats u) = jobs_end J /\ st_ChunkCount (up_stats u) = zlen J /\
  Forall (fun j => srv_has s (job_digest crypt j)) J /\
  sv_Indexes (sh_server s) !! up_wid u =
    Some (mkSrvIndex (up_name u) (job_hex <$> J) (j_offset <$> J) true csum (jobs_end J) (zlen J)) /\
  exists i, sh_byWID s !! up_wid u = Some i /\
    sh_files s !! i = Some (mkFile (up_name u) csum (jobs_end J) (cryptLabel crypt)).

Definition fresh (u : upload) : Prop :=
  up_next u = 0%nat /\ up_stats u = mkStats 0 0 0 0 0 [] /\ up_csum u = [] /\ up_digests u = [] /\ up_offsets u = [] /\
  up_firstErr u = None.

Definition coll_ok (u : upload) (s : shared) : Prop :=
  match up_phase u with
  | PPrevious | PCreate => fresh u
  | PRecv => is_Some (sh_byWID s !! up_wid u) /\ (up_firstErr u = None -> indexed 127 u s)
  | PLoop => is_Some (sh_byWID s !! up_wid u) /\ up_firstErr u = None /\ indexed 127 u s
  | PFlush => is_Some (sh_byWID s !! up_wid u) /\ indexed 127 u s /\ up_next u = length J /\ up_end u = None
  | PClose => is_Some (sh_byWID s !! up_wid u) /\ indexed 127 u s /\ up_next u = length J /\ up_end u = None /\ up_digests u = []
  | PDone None => closed u s
  | PDone (Some _) => True
  end.

(** An upload that has a writer. *)
Definition live (u : upload) : bool :=
  match up_phase u with PPrevious | PCreate | PDone (Some _) => false | _ => true end.
Definition writer (u : upload) : option Z := if live u then Some (up_wid u) else None.

Lemma indexed_mono b u s s' :
  same_wid (up_wid u) s s' -> srv_grows s s' -> indexed b u s -> indexed b u s'.
Proof.
  intros (W1 & W2 & W3) Hg [H1 H2 H3 H4 H5 H6 H7 (ix & i & I1 & I2 & I3 & I4 & I5 & I6 & I7 & I8)].
  constructor; try done.
  - eapply Forall_impl; [exact H6|]. intros j. by apply srv_has_mono.
  - exists ix, i. split_and!; try done; [by rewrite W1|by rewrite W2|by rewrite W3].
Qed.

Lemma coll_ok_mono u s s' :
  same_wid (up_wid u) s s' -> srv_grows s s' -> coll_ok u s -> coll_ok u s'.
Proof.
  intros Hs Hg. pose proof Hs as (W1 & W2 & W3). unfold coll_ok. destruct (up_phase u) as [| | | | | |[e|]]; try done.
  - rewrite W2. intros [? H]. split; [done|]. intros He. eapply indexed_mono; eauto.
  - rewrite W2. intros (? & ? & ?). split_and!; try done. by eapply indexed_mono.
  - rewrite W2. intros (? & ? & ? & ?). split_and!; try done. by eapply indexed_mono.
  - rewrite W2. intros (? & ? & ? & ? & ?). split_and!; try done. by eapply indexed_mono.
  - intros (C1 & C2 & C3 & C4 & C5 & C6 & i & C7 & C8). unfold closed. rewrite W1, W2.
    split_and!; try done.
    + eapply Forall_impl; [exact C5|]. intros j. by apply srv_has_mono.
    + exists i. split; [done|]. by rewrite W3.
Qed.

Lemma indexed_same b u u' s :
  up_next u' = up_next u -> up_stats u' = up_stats u -> up_csum u' = up_csum u -> up_digests u' = up_digests u ->
  up_offsets u' = up_offsets u -> up_wid u' = up_wid u -> up_name u' = up_name u -> indexed b u s -> indexed b u' s.
Proof.
  intros E1 E2 E3 E4 E5 E6 E7 [H1 H2 H3 H4 H5 H6 H7 H8].
  constructor; rewrite ?E1, ?E2, ?E3, ?E4, ?E5, ?E6, ?E7; try done.
Qed.
End jobs.

(** The handlers: what belongs to another writer is left alone. *)
Lemma put_spec wid ds os m :
  let '(r, m') := put_dynamic_index wid ds os m in
  (forall w, w <> wid -> sv_Indexes m' !! w = sv_Indexes m !! w) /\ sv_nextWID m' = sv_nextWID m /\
  match r with
  | Ok _ => exists ix, sv_Indexes m !! wid = Some ix /\ ix_Closed ix = false /\
      sv_Indexes m' !! wid = Some (mkSrvIndex (ix_Name ix) (ix_Digests ix ++ ds) (ix_Offsets ix ++ os) false
                                     (ix_Csum ix) (ix_Size ix) (ix_ChunkCount ix))
  | Err _ => m' = m
  end.
Proof.
  unfold put_dynamic_index. destruct (_ || _); [done|]. destruct (sv_Indexes m !! wid) as [ix|] eqn:Hi; [|done].
  destruct (ix_Closed ix) eqn:Hc; [done|]. destruct (forallb _ ds); [|done]. cbn. split_and!; [|done|].
  - intros w Hw. by rewrite lookup_insert_ne.
  - exists ix. split_and!; [done..|]. by rewrite lookup_insert_eq.
Qed.

Lemma close_spec wid csum size count m :
  let '(r, m') := post_dynamic_close wid csum size count m in
  (forall w, w <> wid -> sv_Indexes m' !! w = sv_Indexes m !! w) /\ sv_nextWID m' = sv_nextWID m /\
  match r with
  | Ok _ => exists ix, sv_Indexes m !! wid = Some ix /\ ix_Closed ix = false /\ zlen (ix_Digests ix) = count /\
      sv_Indexes m' !! wid = Some (mkSrvIndex (ix_Name ix) (ix_Digests ix) (ix_Offsets ix) true csum size count)
  | Err _ => m' = m
  end.
Proof.
  unfold post_dynamic_close. destruct (sv_Indexes m !! wid) as [ix|] eqn:Hi; [|done].
  destruct (ix_Closed ix) eqn:Hc; [done|]. destruct (Z.eqb_spec (zlen (ix_Digests ix)) count); [|done]. cbn. split_and!; [|done|].
  - intros w Hw. by rewrite lookup_insert_ne.
  - exists ix. split_and!; [done..|]. by rewrite lookup_insert_eq.
Qed.

Lemma set_server_frame wid m' s :
  shared_ok s -> (forall w, w <> wid -> sv_Indexes m' !! w = sv_Indexes (sh_server s) !! w) ->
  sv_nextWID m' = sv_nextWID (sh_server s) -> frame_ok (Some wid) s (set_server m' s).
Proof.
  intros [S1 S2] Hi Hn. split_and!; [|done|].
  - intros w _ Hw. split_and!; [|done|done]. cbn. apply Hi. congruence.
  - constructor; cbn; [rewrite Hn; apply S1|apply S2].
Qed.

Lemma AppendDynamicIndex_frame n wid ds os s r s' :
  AppendDynamicIndex n wid ds os s = (r, s') -> shared_ok s ->
  frame_ok (Some wid) s s' /\ sh_byWID s' = sh_byWID s /\ sh_files s' = sh_files s /\
  sv_nextWID (sh_server s') = sv_nextWID (sh_server s) /\
  (r = Ok () -> exists ix, sv_Indexes (sh_server s) !! wid = Some ix /\
    sv_Indexes (sh_server s') !! wid = Some (mkSrvIndex (ix_Name ix) (ix_Digests ix ++ ds) (ix_Offsets ix ++ os) false
                                     (ix_Csum ix) (ix_Size ix) (ix_ChunkCount ix))).
Proof.
  unfold AppendDynamicIndex. intros Ha Hs. pose proof (put_spec wid ds os (sh_server s)) as Hp.
  destruct (put_dynamic_index wid ds os (sh_server s)) as [a m] eqn:Hput. destruct Hp as (P1 & P2 & P3).
  pose proof (set_server_frame wid m s Hs P1 P2) as Hf.
  pose proof (set_server_frame wid (sh_server s) s Hs ltac:(done) eq_refl) as Hf0.
  destruct n; cbn in Ha; rewrite ?Hput in Ha; cbn in Ha; injection Ha as <- <-; split_and!; try done.
  destruct a as [[]|]; [|done]. intros _. destruct P3 as (ix & ? & _ & ?). by exists ix.
Qed.

Lemma CloseDynamicIndex_frame n wid csum size count s r s' :
  CloseDynamicIndex n wid csum size count s = (r, s') -> shared_ok s ->
  frame_ok (Some wid) s s' /\ sv_nextWID (sh_server s') = sv_nextWID (sh_server s) /\ sh_byWID s' = sh_byWID s /\
  (r = Ok () -> exists ix, sv_Indexes (sh_server s) !! wid = Some ix /\ zlen (ix_Digests ix) = count /\
    sv_Indexes (sh_server s') !! wid =
      Some (mkSrvIndex (ix_Name ix) (ix_Digests ix) (ix_Offsets ix) true (EncodeToString csum) size count) /\
    forall i f, sh_byWID s !! wid = Some i -> sh_files s !! i = Some f ->
      sh_files s' !! i = Some (mkFile (Filename f) (EncodeToString csum) size (CryptLabel f))).
Proof.
  unfold CloseDynamicIndex. intros Ha Hs. pose proof (close_spec wid (EncodeToString csum) size count (sh_server s)) as Hp.
  destruct (post_dynamic_close _ _ _ _ (sh_server s)) as [a m] eqn:Hput. destruct Hp as (P1 & P2 & P3).
  pose proof (set_server_frame wid m s Hs P1 P2) as Hf.
  pose proof (set_server_frame wid (sh_server s) s Hs ltac:(done) eq_refl) as Hf0.
  destruct n; cbn in Ha; rewrite ?Hput in Ha; cbn in Ha; [|injection Ha as <- <-; by split_and!..].
  destruct a as [[]|]; [|injection Ha as <- <-; by split_and!].
  destruct P3 as (ix & Hix & Hcl & Hcnt & Hix').
  destruct (sh_byWID s !! wid) as [i|] eqn:Hw; injection Ha as <- <-.
  - cbn. split_and!; [|done|done|].
    + destruct Hf as (F1 & F2 & [F3 F4]). split_and!; [|done|].
      * intros w Hsome Hne. destruct (F1 w Hsome Hne) as (W1 & W2 & W3). split_and!; [done|done|].
        cbn. intros k Hk. rewrite list_lookup_alter_ne; [done|]. intros ->.
        assert (w = wid) as -> by (by eapply (so_inj s Hs)). done.
      * constructor; cbn in *; [|done]. intros w k Hk. rewrite length_alter. by apply F3.
    + intros _. exists ix. split_and!; [done..|]. intros k f [= <-] Hk. by rewrite list_lookup_alter_eq, Hk.
  - split_and!; [exact Hf|done|done|]. intros _. exists ix. split_and!; try done.
Qed.

Lemma CreateDynamicIndex_frame n name s r s' :
  CreateDynamicIndex crypt n name s = (r, s') -> shared_ok s -> 0 <= sv_nextWID (sh_server s) < 2 ^ 64 - 1 ->
  frame_ok None s s' /\ 0 <= sv_nextWID (sh_server s') <= sv_nextWID (sh_server s) + 1 /\
  match r with
  | Err _ => True
  | Ok wid => sh_byWID s !! wid = None /\
      sv_Indexes (sh_server s') !! wid = Some (mkSrvIndex name [] [] false [] 0 0) /\
      exists i, sh_byWID s' !! wid = Some i /\ sh_files s' !! i = Some (mkFile name [] 0 (cryptLabel crypt))
  end.
Proof.
  unfold CreateDynamicIndex. intros Hc Hs Hb. destruct Hs as [S1 S2].
  set (h := fun p => _) in Hc.
  assert (sh_byWID s !! sv_nextWID (sh_server s) = None) as Hfresh.
  { destruct (sh_byWID s !! sv_nextWID (sh_server s)) as [i|] eqn:Hi; [|done]. apply S1 in Hi as [Hi _]. lia. }
  assert (forall m se, (m = (h (sh_server s, sh_session s)).2.1 \/ m = sh_server s) ->
    frame_ok None s (mkShared (sh_known s) (sh_files s) (sh_byWID s) m se (sh_sent s)) /\
    0 <= sv_nextWID m <= sv_nextWID (sh_server s) + 1) as Hno.
  { intros m se Hm. assert ((forall w, w <> sv_nextWID (sh_server s) -> sv_Indexes m !! w = sv_Indexes (sh_server s) !! w) /\
      sv_nextWID (sh_server s) <= sv_nextWID m <= sv_nextWID (sh_server s) + 1) as [M1 M2].
    { destruct Hm as [-> | ->]; [|split; [done|lia]]. unfold h, post_dynamic_index. cbn. destruct (decide _); cbn; [split; [done|lia]|].
      split; [|rewrite u64_small by (unfold is_u64; lia); lia]. intros w Hw. by rewrite lookup_insert_ne. }
    split; [|lia]. split_and!; [|done|].
    - intros w [i Hw] _. split_and!; [|done|done]. cbn. apply M1. intros ->. by rewrite Hfresh in Hw.
    - constructor; cbn; [|done]. intros w i Hw. destruct (S1 w i Hw). split; [lia|done]. }
  destruct (call n h _) as [r0 [m se]] eqn:Hcall.
  destruct r0 as [wid|e].
  - destruct n; cbn in Hcall; [|done..]. destruct (h (sh_server s, sh_session s)) as [a [m' se']] eqn:Hh.
    destruct a as [wid'|]; [|done]. injection Hcall as -> <- <-. injection Hc as <- <-.
    unfold h, post_dynamic_index in Hh. cbn in Hh. destruct (decide _); [done|]. injection Hh as <- <- <-.
    cbn. rewrite u64_small by (unfold is_u64; lia). split_and!; [|lia|lia|done|by rewrite lookup_insert_eq|].
    + split_and!.
      * intros w [i Hw] _. assert (w <> sv_nextWID (sh_server s)) as Hne by (intros ->; by rewrite Hfresh in Hw).
        split_and!; cbn; [by rewrite lookup_insert_ne|by rewrite lookup_insert_ne|].
        intros k Hk. apply lookup_app_l. destruct (S1 w k Hk). lia.
      * intros w Hw. cbn. destruct (decide (w = sv_nextWID (sh_server s))) as [->|]; [by rewrite lookup_insert_eq|].
        by rewrite lookup_insert_ne.
      * constructor; cbn.
        -- intros w i Hw. rewrite length_app. cbn. apply lookup_insert_Some in Hw as [[<- <-]|[_ Hw]]; [lia|].
           destruct (S1 w i Hw). lia.
        -- intros w w' i Hw Hw'. apply lookup_insert_Some in Hw as [[<- <-]|[_ Hw]], Hw' as [[<- He]|[_ Hw']]; [done|..].
           ++ destruct (S1 w' _ Hw'). lia.
           ++ subst i. destruct (S1 w _ Hw). lia.
           ++ eauto.
    + exists (length (sh_files s)). split; [by rewrite lookup_insert_eq|]. by rewrite list_lookup_middle.
  - injection Hc as <- <-. assert (m = (h (sh_server s, sh_session s)).2.1 \/ m = sh_server s) as Hm.
    { destruct n; cbn in Hcall.
      - destruct (h _) as [a [m' se']]. injection Hcall as _ -> _. by left.
      - injection Hcall as _ -> _. by right.
      - destruct (h _) as [a [m' se']]. injection Hcall as _ -> _. by left. }
    destruct (Hno m se Hm) as [H1 H2]. exact (conj H1 (conj H2 I)).
Qed.

Definition same_coll (u u' : upload) : Prop :=
  up_phase u' = up_phase u /\ up_next u' = up_next u /\ up_stats u' = up_stats u /\ up_csum u' = up_csum u /\
  up_digests u' = up_digests u /\ up_offsets u' = up_offsets u /\ up_wid u' = up_wid u /\ up_name u' = up_name u /\
  up_firstErr u' = up_firstErr u /\ up_end u' = up_end u.

Lemma coll_ok_same J u u' s : same_coll u u' -> coll_ok J u s -> coll_ok J u' s.
Proof.
  intros (E1 & E2 & E3 & E4 & E5 & E6 & E7 & E8 & E9 & E10).
  assert (indexed J 127 u s -> indexed J 127 u' s) as Hi by (by apply indexed_same).
  unfold coll_ok, fresh, closed. rewrite E1, E2, E3, E4, E5, E6, E7, E8, E9, E10.
  destruct (up_phase u) as [| | | | | |[e|]]; try done; intuition.
Qed.

(** What neither the files nor the indexes of the session see. *)
Definition quiet (s s' : shared) : Prop :=
  sv_Indexes (sh_server s') = sv_Indexes (sh_server s) /\ sv_nextWID (sh_server s') = sv_nextWID (sh_server s) /\
  sh_byWID s' = sh_byWID s /\ sh_files s' = sh_files s.

Lemma quiet_frame wid s s' : quiet s s' -> shared_ok s -> frame_ok wid s s'.
Proof.
  intros (Q1 & Q2 & Q3 & Q4) [S1 S2]. split_and!.
  - intros w _ _. unfold same_wid. by rewrite Q1, Q3, Q4.
  - intros w. by rewrite Q3.
  - constructor; rewrite ?Q2, ?Q3, ?Q4; [apply S1|apply S2].
Qed.

Lemma quiet_same w s s' : quiet s s' -> same_wid w s s'.
Proof. intros (Q1 & Q2 & Q3 & Q4). unfold same_wid. by rewrite Q1, Q3, Q4. Qed.

Lemma quiet_coll_ok J u s s' : quiet s s' -> srv_grows s s' -> coll_ok J u s -> coll_ok J u s'.
Proof. intros Hq Hg. apply coll_ok_mono; [by apply quiet_same|done]. Qed.

Lemma call_server {A} n (h : Server -> answer A * Server) m r m' :
  call n h m = (r, m') ->
  (forall m, sv_Indexes (h m).2 = sv_Indexes m /\ sv_nextWID (h m).2 = sv_nextWID m) ->
  sv_Indexes m' = sv_Indexes m /\ sv_nextWID m' = sv_nextWID m.
Proof.
  intros Hc Hh. specialize (Hh m). destruct n; cbn in Hc; [destruct (h m) as [a m1]|..]; injection Hc as _ <-; done.
Qed.

Lemma step_workers_coll ev u s u' s' :
  step_workers crypt ev u s = Some (u', s') -> same_coll u u' /\ quiet s s'.
Proof.
  intros Hw. destruct ev; try done; cbn [step_workers] in Hw.
  all: try (destruct (up_todo u), (up_prodErr u); try done; repeat destruct (_ <? _)%nat; try destruct (up_canceled u); try done; injection Hw as <- <-; by split_and!).
  all: try (destruct (up_workers u !! k) as [[]|]; try done; repeat case_match; try done; injection Hw as <- <-; by split_and!).
  - destruct (up_workers u !! k) as [[| |j| | | |]|]; try done. destruct (j_known j); [injection Hw as <- <-; by split_and!|].
    destruct (UploadDynamicChunk crypt n iv _ _ s) as [r s2] eqn:Hu. injection Hw as <- <-. split; [by split_and!|].
    unfold UploadDynamicChunk in Hu.
    destruct (call n _ (sh_server s)) as [r0 m] eqn:Hc. injection Hu as <- <-.
    destruct (call_server _ _ _ _ _ Hc) as [M1 M2].
    { intros m0. unfold post_dynamic_chunk. repeat case_match; done. }
    by split_and!.
Qed.

Lemma DownloadPrevious_quiet n name s r s' : DownloadPrevious n name s = (r, s') -> quiet s s'.
Proof.
  unfold DownloadPrevious. destruct (call n _ (sh_server s)) as [r0 m] eqn:Hc.
  destruct (call_server _ _ _ _ _ Hc) as [M1 M2].
  { intros m0. unfold get_previous. by destruct (match sv_Previous m0 !! name with Some _ => _ | None => _ end). }
  destruct r0 as [[raw|]|e]; [destruct (ParseDynamicIndex raw)|..]; intros [= <- <-]; by split_and!.
Qed.

(** The next completion, and what it is of. *)
Lemma take_done_indexed J b u s cur :
  indexed J b u s -> pipe_ok crypt J u s -> up_pending u !! up_next u = Some cur -> indexed J (S b) (take_done cur u) s.
Proof.
  intros [H1 H2 H3 H4 H5 H6 H7 (ix & i & I1 & I2 & I3 & I4 & I5 & I6 & I7 & I8)] Hp Hc.
  destruct (pi_pending _ _ _ _ Hp _ _ Hc) as (Hseq & Herr & j & Hj & Hoff & Hsz & Hd & Hhas).
  rewrite Hseq in Hj. assert (take (S (up_next u)) J = take (up_next u) J ++ [j]) as Htake by (by apply take_S_r).
  assert (mkEntry (u64 (d_offset cur + d_size cur)) (d_digest cur) = job_entry j) as Hje by (unfold job_entry; by rewrite Hoff, Hsz, Hd).
  constructor; cbn [take_done up_next up_stats up_csum up_digests up_offsets up_wid up_name st_Entries st_Size st_ChunkCount].
  - apply lookup_lt_Some in Hj. lia.
  - rewrite Htake, fmap_app, H2. change (job_entry <$> [j]) with [job_entry j]. by rewrite <- Hje.
  - rewrite Htake, fmap_app. unfold index_bytes. rewrite bind_app, H3.
    change (job_entry <$> [j]) with [job_entry j]. rewrite <- Hje. cbn. by rewrite app_nil_r.
  - rewrite Htake. unfold jobs_end. rewrite last_snoc. by rewrite <- Hje.
  - rewrite H5, u64_add_l. f_equal. lia.
  - rewrite Htake. apply Forall_app. split; [done|]. constructor; [|done]. rewrite <- Hd. by apply Hhas.
  - rewrite length_app. cbn. lia.
  - exists ix, i. split_and!; try done.
    + rewrite Htake, fmap_app, app_assoc, I4, Hd. done.
    + rewrite Htake, fmap_app, app_assoc, I5, Hoff. done.
    + rewrite !length_app. cbn. lia.
Qed.

Lemma flush_indexed J n b u s e u' s' :
  flush n u s = (e, u', s') -> shared_ok s -> indexed J b u s ->
  frame_ok (Some (up_wid u)) s s' /\ sv_nextWID (sh_server s') = sv_nextWID (sh_server s) /\
  (u' = u \/ u' = set_batch [] [] u) /\ (e = None -> indexed J 0 u' s' /\ up_digests u' = []).
Proof.
  intros Hf Hs Hi. pose proof Hi as [H1 H2 H3 H4 H5 H6 H7 (ix & i & I1 & I2 & I3 & I4 & I5 & I6 & I7 & I8)].
  unfold flush in Hf. destruct (up_digests u) as [|d ds] eqn:Hd.
  - injection Hf as <- <- <-. split_and!; [|done|by left|].
    + by apply quiet_frame; [split_and!|].
    + intros _. split; [|done]. constructor; try done; [rewrite Hd; cbn; lia|].
      exists ix, i. rewrite Hd. by split_and!.
  - destruct (AppendDynamicIndex n _ _ _ s) as [r s1] eqn:Ha. pose proof (AppendDynamicIndex_known _ _ _ _ _ _ _ Ha) as [K1 K2].
    destruct (AppendDynamicIndex_frame _ _ _ _ _ _ _ Ha Hs) as (F1 & F2 & F3 & F4 & F5).
    destruct r as [[]|err]; injection Hf as <- <- <-; (split_and!; [done|done|auto|]); [|done].
    intros _. split; [|done]. destruct (F5 eq_refl) as (ix' & X1 & X2). rewrite I1 in X1. injection X1 as <-.
    constructor; try done.
    + eapply Forall_impl; [exact H6|]. intros j. apply srv_has_mono. by apply eq_grows.
    + exists (mkSrvIndex (ix_Name ix) (ix_Digests ix ++ d :: ds) (ix_Offsets ix ++ up_offsets u) false (ix_Csum ix) (ix_Size ix) (ix_ChunkCount ix)), i.
      cbn. rewrite !app_nil_r, F2, F3. by split_and!.
Qed.

(** When everything has been sent, collected and taken, the whole stream is in
    the index. *)
Lemma seqs_all J u s :
  pipe_ok crypt J u s -> up_firstErr u = None -> up_pending u = ∅ -> up_dones u = [] ->
  Forall (fun w => w = WExit) (up_workers u) -> up_jobs u = [] -> up_todo u = [] -> up_next u = length J.
Proof.
  intros Hp He H1 H2 H3 H4 H5. pose proof (pi_seqs _ _ _ _ Hp He) as Hs. apply Permutation_length in Hs.
  unfold seqs in Hs. rewrite H1, H2, H4, H5, map_to_list_empty in Hs. cbn in Hs.
  assert (up_workers u ≫= wseq = []) as Hw.
  { clear -H3. induction H3 as [|w ws -> _ IH]; [done|]. by rewrite list_bind_cons, IH. }
  rewrite Hw, !app_nil_r, !length_seq in Hs. done.
Qed.

(** Nothing is left in the jobs channel once every worker has gone. *)
Definition drained (u : upload) : Prop :=
  WExit ∈ up_workers u -> up_jobs u = [] /\ exists e, up_prodErr u = Some e.

Lemma step_drained ev u s u' s' : step crypt ev u s = Some (u', s') -> drained u -> drained u'.
Proof.
  unfold step. destruct (step_collector crypt ev u s) as [[u1 s1]|] eqn:Hc.
  - intros [= <- <-].
    assert (up_workers u1 = up_workers u /\ up_jobs u1 = up_jobs u /\ up_prodErr u1 = up_prodErr u) as (W & Jb & P).
    { destruct ev; try done; cbn [step_collector] in Hc; destruct (up_phase u); try done.
      all: try (injection Hc as <- <-; done).
      - destruct (DownloadPrevious _ _ _). by injection Hc as <- <-.
      - destruct (CreateDynamicIndex _ _ _ _) as [[|]]; by injection Hc as <- <-.
      - destruct (up_dones u); [done|]. injection Hc as <- <-. by repeat case_match.
      - destruct (up_pending u !! up_next u); [|by injection Hc as <- <-].
        destruct (_ =? 128)%nat; [|by injection Hc as <- <-].
        destruct (flush n (take_done _ u) s) as [[e u2] s2] eqn:Hf. apply flush_spec in Hf as (_ & _ & F).
        assert (up_workers u2 = up_workers u /\ up_jobs u2 = up_jobs u /\ up_prodErr u2 = up_prodErr u) as (? & ? & ?)
          by (by destruct F as [-> | ->]).
        destruct e; by injection Hc as <- <-.
      - destruct (up_dones u), (up_prodErr u) eqn:Hpe; try done. destruct (forallb _ _); [|done]. by injection Hc as <- <-.
      - destruct (flush n u s) as [[e u2] s2] eqn:Hf. apply flush_spec in Hf as (_ & _ & F).
        injection Hc as <- <-. by destruct F as [-> | ->].
      - destruct (CloseDynamicIndex _ _ _ _ _ _). by injection Hc as <- <-. }
    unfold drained. by rewrite W, Jb, P.
  - destruct (running u); [|done]. intros Hw Hd. unfold drained in *.
    assert (forall (k : nat) (w : worker) (ws : list worker), w <> WExit -> WExit ∈ <[k := w]> ws -> WExit ∈ ws) as Hin.
    { intros k w ws Hne Hi. apply list_elem_of_lookup in Hi as [m Hm]. destruct (decide (m = k)) as [->|Hmk].
      - destruct (decide (k < length ws)%nat).
        + rewrite list_lookup_insert_eq in Hm by done. congruence.
        + rewrite list_insert_ge in Hm by lia. by eapply list_elem_of_lookup_2.
      - rewrite list_lookup_insert_ne in Hm by done. by eapply list_elem_of_lookup_2. }
    destruct ev; try done; cbn [step_workers] in Hw.
    + destruct (up_todo u), (up_prodErr u) eqn:Hpe; try done. destruct (_ <? _)%nat; [|done]. injection Hw as <- <-.
      cbn. intros Hx. destruct (Hd Hx) as (_ & e & ?). done.
    + destruct (up_todo u), (up_prodErr u) eqn:Hpe; try done. destruct (up_canceled u); [|done]. injection Hw as <- <-.
      cbn. intros Hx. destruct (Hd Hx) as (? & e & ?). done.
    + destruct (up_todo u), (up_prodErr u) eqn:Hpe; try done. injection Hw as <- <-.
      cbn. intros Hx. destruct (Hd Hx) as (? & e & ?). done.
    + destruct (up_workers u !! k) as [[]|]; try done. destruct (up_jobs u) as [|j jobs] eqn:Hj; [done|]. injection Hw as <- <-.
      cbn. intros Hx%Hin; [|done]. by destruct (Hd Hx).
    + destruct (up_workers u !! k) as [[]|]; try done. destruct (up_jobs u) eqn:Hj, (up_prodErr u) eqn:Hpe; try done. injection Hw as <- <-.
      cbn. rewrite Hj, Hpe. intros _. split; [done|by eexists].
    + destruct (up_workers u !! k) as [[]|]; try done. destruct (claim _ _) as [kn wn]. injection Hw as <- <-.
      cbn. intros Hx%Hin; [auto|by destruct wn].
    + destruct (up_workers u !! k) as [[]|]; try done. destruct (j_known _); [injection Hw as <- <-; cbn; intros Hx%Hin; auto; done|].
      destruct (UploadDynamicChunk _ _ _ _ _ _). injection Hw as <- <-. cbn. intros Hx%Hin; [auto|done].
    + destruct (up_workers u !! k) as [[]|]; try done. injection Hw as <- <-. cbn. intros Hx%Hin; [auto|done].
    + destruct (up_workers u !! k) as [[]|]; try done. destruct (sh_known s !! _) as [[]|]; try done. injection Hw as <- <-. cbn. intros Hx%Hin; [auto|done].
    + destruct (up_workers u !! k) as [[]|]; try done. destruct (up_canceled u); [|done]. injection Hw as <- <-. cbn. intros Hx%Hin; [auto|done].
    + destruct (up_workers u !! k) as [[]|]; try done. destruct (_ <? _)%nat; [|done]. injection Hw as <- <-. cbn. intros Hx%Hin; [auto|done].
Qed.

Lemma all_exit ws : forallb (fun w => match w with WExit => true | _ => false end) ws = true -> Forall (fun w => w = WExit) ws.
Proof. induction ws as [|w ws IH]; cbn; [done|]. intros [? ?]%andb_true_iff. constructor; [by destruct w|auto]. Qed.

(** The writer ids an upload may still ask for. *)
Definition creates (u : upload) : Z := match up_phase u with PPrevious | PCreate => 1 | _ => 0 end.

(** What a step does: to its own index, to the others', to the next id. *)
Record coll_step (J : list chunkJob) (u : upload) (s : shared) (u' : upload) (s' : shared) : Prop := {
  cs_frame : frame_ok (writer u) s s';
  cs_coll : coll_ok J u' s';
  cs_wid : live u = true -> up_wid u' = up_wid u;
  cs_new : live u = false -> live u' = true -> sh_byWID s !! up_wid u' = None;
  cs_next : 0 <= sv_nextWID (sh_server s') /\
    sv_nextWID (sh_server s') + creates u' <= sv_nextWID (sh_server s) + creates u }.

(** Steps that move within the phases of an upload and leave the session's
    indexes and files alone. *)
Lemma quiet_step J u s u' s' :
  quiet s s' -> shared_ok s -> 0 <= sv_nextWID (sh_server s) -> coll_ok J u' s' ->
  up_wid u' = up_wid u -> (live u' = true -> live u = true) -> creates u' <= creates u -> coll_step J u s u' s'.
Proof.
  intros Hq Hs Hn Hc Hw Hl Hcr. pose proof Hq as (_ & Q & _ & _). constructor; try done.
  - by apply quiet_frame.
  - intros H1 H2. apply Hl in H2. congruence.
  - rewrite Q. lia.
Qed.

#[local] Instance quiet_refl : Reflexive quiet.
Proof. by intros s. Qed.

(** The collector's loop. *)
Lemma step_next J n u s u' s' :
  step_collector crypt (EvNext n) u s = Some (u', s') -> shared_ok s -> 0 <= sv_nextWID (sh_server s) ->
  pipe_ok crypt J u s -> coll_ok J u s -> coll_step J u s u' s'.
Proof.
  intros Hc Hs Hn Hp Hco. cbn [step_collector] in Hc. destruct (up_phase u) eqn:Hph; try done.
  unfold coll_ok in Hco. rewrite Hph in Hco. destruct Hco as (Hw & Hfe & Hi).
  destruct (up_pending u !! up_next u) as [cur|] eqn:Hcur.
  2: { injection Hc as <- <-. apply quiet_step; try done; [|unfold live; by rewrite Hph|by unfold creates; rewrite Hph].
       split; [done|]. intros _. by apply (indexed_same J 127 u). }
  pose proof (take_done_indexed J 127 u s cur Hi Hp Hcur) as Ht.
  destruct (Nat.eqb_spec (length (up_digests (take_done cur u))) 128) as [He|He].
  - destruct (flush n (take_done cur u) s) as [[e u2] s2] eqn:Hf.
    destruct (flush_indexed J n 128 _ _ _ _ _ Hf Hs Ht) as (F1 & F2 & F3 & F4).
    assert (up_wid u2 = up_wid u /\ up_phase u2 = PLoop /\ up_firstErr u2 = None) as (W2 & P2 & E2)
      by (by destruct F3 as [-> | ->]).
    assert (is_Some (sh_byWID s2 !! up_wid u)) as Hw2 by (by apply (proj1 (proj2 F1))).
    assert (writer u = Some (up_wid u)) as Hwr by (unfold writer, live; by rewrite Hph).
    destruct e as [e|]; injection Hc as <- <-.
    + constructor; cbn; try done.
      * by rewrite Hwr.
      * split; [by rewrite W2|done].
      * unfold live. by rewrite Hph.
      * unfold creates. cbn. rewrite Hph, F2. lia.
    + destruct (F4 eq_refl) as [F5 F6]. constructor; try done.
      * by rewrite Hwr.
      * unfold coll_ok. rewrite P2, W2, E2. split_and!; [done|done|].
        destruct F5 as [G1 G2 G3 G4 G5 G6 G7 G8]. constructor; try done. lia.
      * unfold live. by rewrite Hph.
      * unfold creates. rewrite P2, Hph, F2. lia.
  - injection Hc as <- <-. apply quiet_step; try done.
    unfold coll_ok. cbn [take_done up_phase up_wid up_firstErr]. rewrite Hph. split_and!; [done|done|].
    destruct Ht as [G1 G2 G3 G4 G5 G6 G7 G8]. constructor; try done. cbn [up_digests take_done] in *. lia.
Qed.

(** The close. *)
Lemma step_close J n u s u' s' :
  step_collector crypt (EvClose n) u s = Some (u', s') -> shared_ok s -> 0 <= sv_nextWID (sh_server s) ->
  coll_ok J u s -> coll_step J u s u' s'.
Proof.
  intros Hc Hs Hn Hco. cbn [step_collector] in Hc. destruct (up_phase u) eqn:Hph; try done.
  unfold coll_ok in Hco. rewrite Hph in Hco. destruct Hco as (Hw & Hi & Hnx & Hend & Hdg).
  destruct (CloseDynamicIndex n (up_wid u) _ _ _ s) as [r s2] eqn:Hd. injection Hc as <- <-.
  destruct (CloseDynamicIndex_frame _ _ _ _ _ _ _ _ Hd Hs) as (F1 & F2 & F3 & F4).
  apply CloseDynamicIndex_known in Hd as [K1 K2].
  constructor; cbn; try done.
  - unfold writer, live. by rewrite Hph.
  - destruct r as [[]|e]; [|done]. destruct Hi as [H1 H2 H3 H4 H5 H6 H7 (ix & i & I1 & I2 & I3 & I4 & I5 & I6 & I7 & I8)].
    destruct (F4 eq_refl) as (ix' & X1 & X2 & X3 & X4). rewrite I1 in X1. injection X1 as <-.
    rewrite Hnx, firstn_all in *. rewrite Hdg in I4, I6. symmetry in I6. apply nil_length_inv in I6. rewrite I6 in I5. rewrite app_nil_r in I4, I5.
    unfold coll_ok, closed. cbn -[lookup]. unfold index_csum. rewrite <- H3.
    assert (st_ChunkCount (up_stats u) = zlen J) as Hcount by (rewrite <- X2, I4; by rewrite length_fmap).
    split_and!; try done.
    + eapply Forall_impl; [exact H6|]. intros j. apply srv_has_mono. by apply eq_grows.
    + by rewrite X3, I3, I4, I5, H4, Hcount.
    + exists i. rewrite F3. split; [done|]. specialize (X4 i _ I7 I8). cbn in X4. by rewrite X4, H4.
  - unfold live. by rewrite Hph.
  - unfold creates. cbn. rewrite Hph, F2. lia.
Qed.

Lemma quiet_phase J u u' s :
  shared_ok s -> 0 <= sv_nextWID (sh_server s) -> coll_ok J u' s -> up_wid u' = up_wid u ->
  (live u' = true -> live u = true) -> creates u' <= creates u -> coll_step J u s u' s.
Proof. by apply quiet_step. Qed.

Lemma step_flush J n u s u' s' :
  step_collector crypt (EvFlush n) u s = Some (u', s') -> shared_ok s -> 0 <= sv_nextWID (sh_server s) ->
  coll_ok J u s -> coll_step J u s u' s'.
Proof.
  intros Hc Hs Hn Hco. cbn [step_collector] in Hc. destruct (up_phase u) eqn:Hph; try done.
  unfold coll_ok in Hco. rewrite Hph in Hco. destruct Hco as (Hw & Hi & Hnx & Hend).
  destruct (flush n u s) as [[e u2] s2] eqn:Hf. injection Hc as <- <-.
  destruct (flush_indexed J n 127 _ _ _ _ _ Hf Hs Hi) as (F1 & F2 & F3 & F4).
  assert (up_wid u2 = up_wid u /\ up_next u2 = up_next u /\ up_end u2 = up_end u) as (W2 & P2 & E2) by (by destruct F3 as [-> | ->]).
  assert (is_Some (sh_byWID s2 !! up_wid u)) as Hw2 by (by apply (proj1 (proj2 F1))).
  constructor; cbn; try done.
  - unfold writer, live. by rewrite Hph.
  - destruct e as [e|]; [done|]. destruct (F4 eq_refl) as [F5 F6]. unfold coll_ok. cbn [set_phase up_phase up_wid up_next up_end up_digests].
    rewrite W2, P2, E2. split_and!; try done.
    destruct F5 as [G1 G2 G3 G4 G5 G6 G7 G8]. constructor; try done. cbn. lia.
  - unfold live. by rewrite Hph.
  - unfold creates. cbn. rewrite Hph, F2. destruct e; lia.
Qed.

Lemma step_end J u s u' s' :
  step_collector crypt EvEnd u s = Some (u', s') -> shared_ok s -> 0 <= sv_nextWID (sh_server s) ->
  up_workers u <> [] -> pipe_ok crypt J u s -> drained u -> coll_ok J u s -> coll_step J u s u' s'.
Proof.
  intros Hc Hs Hn Hne Hp Hdr Hco. cbn [step_collector] in Hc. destruct (up_phase u) eqn:Hph; try done.
  unfold coll_ok in Hco. rewrite Hph in Hco. destruct Hco as (Hw & Hi).
  destruct (up_dones u) eqn:Hd; [|done]. destruct (up_prodErr u) as [pe|] eqn:Hpe; [|done].
  destruct (forallb _ _) eqn:Hall; [|done]. injection Hc as <- <-. apply all_exit in Hall.
  assert (WExit ∈ up_workers u) as Hx.
  { destruct (up_workers u) as [|w ws]; [done|]. apply Forall_cons in Hall as [-> _]. by left. }
  destruct (Hdr Hx) as [Hj _].
  apply quiet_phase; try done.
  - destruct (up_firstErr u) as [e|] eqn:Hfe; [done|]. destruct pe as [e|]; [done|].
    destruct (decide (up_pending u = ∅)) as [Hpd|]; [|done].
    destruct (pi_prod _ _ _ _ Hp Hpe) as [Ht Hen].
    unfold coll_ok. cbn [set_phase up_phase up_wid up_next up_end].
    assert (up_next u = length J) as Hnx by (by eapply seqs_all).
    split_and!; [done| |done|done]. by apply (indexed_same J 127 u), Hi.
  - by unfold live; rewrite Hph.
  - unfold creates. cbn. rewrite Hph. repeat case_match; done.
Qed.

Lemma step_create J n u s u' s' :
  step_collector crypt (EvCreate n) u s = Some (u', s') -> shared_ok s ->
  0 <= sv_nextWID (sh_server s) -> sv_nextWID (sh_server s) + creates u < 2 ^ 64 ->
  coll_ok J u s -> coll_step J u s u' s'.
Proof.
  intros Hc Hs Hn Hb Hco. cbn [step_collector] in Hc. destruct (up_phase u) eqn:Hph; try done.
  unfold coll_ok in Hco. rewrite Hph in Hco. destruct Hco as (E1 & E2 & E3 & E4 & E5 & E6).
  destruct (CreateDynamicIndex crypt n (up_name u) s) as [r s2] eqn:Hd.
  unfold creates in Hb. rewrite Hph in Hb.
  destruct (CreateDynamicIndex_frame n (up_name u) s r s2 Hd Hs) as (F1 & F2 & F3); [lia|].
  destruct r as [wid|e]; injection Hc as <- <-.
  - destruct F3 as (X1 & X2 & i & X3 & X4). constructor; cbn; try done.
    + unfold writer, live. by rewrite Hph.
    + split; [by rewrite X3|]. intros _.
      constructor; cbn [set_phase set_wid up_next up_stats up_csum up_digests up_offsets up_wid up_name]; rewrite ?E1, ?E2, ?E3, ?E4, ?E5, ?take_0; try done; [cbn; lia..|].
      exists (mkSrvIndex (up_name u) [] [] false [] 0 0), i. by split_and!.
    + unfold live. by rewrite Hph.
    + unfold creates. cbn. rewrite Hph. lia.
  - constructor; cbn; try done.
    + unfold writer, live. by rewrite Hph.
    + unfold creates. cbn. rewrite Hph. lia.
Qed.

Lemma step_coll J ev u s u' s' :
  step crypt ev u s = Some (u', s') -> shared_ok s ->
  0 <= sv_nextWID (sh_server s) -> sv_nextWID (sh_server s) + creates u < 2 ^ 64 ->
  up_workers u <> [] -> known_ok s -> pipe_ok crypt J u s -> drained u -> coll_ok J u s -> coll_step J u s u' s'.
Proof.
  intros Hstep Hs Hn Hb Hne Hkn Hp Hdr Hco. pose proof Hstep as Hst. unfold step in Hstep.
  destruct (step_collector crypt ev u s) as [[u1 s1]|] eqn:Hc.
  - injection Hstep as <- <-. destruct ev; try done.
    + cbn [step_collector] in Hc. destruct (up_phase u) eqn:Hph; try done.
      destruct (DownloadPrevious n (up_name u) s) as [r s2] eqn:Hd. injection Hc as <- <-.
      apply DownloadPrevious_quiet in Hd. apply quiet_step; try done.
      * unfold coll_ok in Hco |- *. rewrite Hph in Hco. by destruct r.
      * unfold live. cbn. by destruct r.
      * unfold creates. cbn. rewrite Hph. by destruct r.
    + by eapply step_create.
    + cbn [step_collector] in Hc. destruct (up_phase u) eqn:Hph; try done.
      destruct (up_dones u) as [|d dones]; [done|]. injection Hc as <- <-.
      unfold coll_ok in Hco. rewrite Hph in Hco. destruct Hco as (Hw & Hi).
      cbn. destruct (up_firstErr u) as [e|] eqn:Hfe; [|destruct (d_err d)].
      * apply quiet_phase; try done; try (unfold live; cbn; by rewrite Hph); try (unfold creates; cbn; by rewrite Hph).
        unfold coll_ok. cbn. rewrite Hph. split; [done|]. by rewrite Hfe.
      * apply quiet_phase; try done; try (unfold live; cbn; by rewrite Hph); try (unfold creates; cbn; by rewrite Hph).
        unfold coll_ok. cbn. rewrite Hph. by split.
      * apply quiet_phase; try done; try (unfold live; cbn; by rewrite Hph); try (unfold creates; cbn; by rewrite Hph).
        unfold coll_ok. cbn. split_and!; [done|done|]. by apply (indexed_same J 127 u), Hi.
    + by eapply step_next.
    + by eapply step_end.
    + by eapply step_flush.
    + by eapply step_close.
    + cbn [step_collector] in Hc. assert (Some (cancel u, s) = Some (u1, s1)) as Hcc by (by destruct (up_phase u)).
      injection Hcc as <- <-. apply quiet_phase; try done. apply (coll_ok_same J u); [by split_and!|done].
  - destruct (running u); [|done]. pose proof (step_workers_pipe crypt J ev u s u' s' Hstep Hkn Hp) as (_ & _ & Hg).
    apply step_workers_coll in Hstep as [Hsame Hq]. pose proof Hsame as (P & _ & _ & _ & _ & _ & W & _).
    apply quiet_step; try done.
    + apply (coll_ok_same J u); [done|]. by apply (quiet_coll_ok J u s).
    + unfold live. by rewrite P.
    + unfold creates. by rewrite P.
Qed.
End collector.

Section session.
Context {ZS : Zstd}.
Variable crypt : option cryptState.

(* ------------------------------------------------------------------ *)
(** ** All uploads of a session *)

(** The writer ids a session may still ask for. *)
Definition creates_all (us : list upload) : Z := foldr (fun u n => creates u + n) 0 us.

(** The invariant of one upload of the jobs [J]. *)
Record upload_ok (J : list chunkJob) (u : upload) (s : shared) : Prop := {
  uo_pipe : pipe_ok crypt J u s;
  uo_drained : drained u;
  uo_coll : coll_ok crypt J u s;
  uo_workers : up_workers u <> [] }.

Record session_ok (Js : list (list chunkJob)) (us : list upload) (s : shared) : Prop := {
  ss_shared : shared_ok s;
  ss_known : known_ok s;
  ss_claims : claims_ok crypt us s;
  ss_next : 0 <= sv_nextWID (sh_server s) /\ sv_nextWID (sh_server s) + creates_all us < 2 ^ 64;
  ss_each : Forall2 (fun J u => upload_ok J u s) Js us;
  ss_wids i j u v : us !! i = Some u -> us !! j = Some v -> i <> j -> live u = true -> live v = true -> up_wid u <> up_wid v }.

#[local] Arguments creates : simpl never.

Lemma creates_nonneg u : 0 <= creates u.
Proof. unfold creates. by destruct (up_phase u). Qed.
Lemma creates_all_cons u us : creates_all (u :: us) = creates u + creates_all us.
Proof. done. Qed.
Lemma creates_all_nonneg us : 0 <= creates_all us.
Proof. induction us as [|u us IH]; [done|]. rewrite creates_all_cons. pose proof (creates_nonneg u). lia. Qed.
Lemma creates_all_insert us i u u' :
  us !! i = Some u -> creates_all (<[i := u']> us) = creates_all us - creates u + creates u'.
Proof.
  revert i. induction us as [|v us IH]; intros [|i] Hi; try done; cbn in Hi.
  - injection Hi as ->. change (<[0%nat := u']> (u :: us)) with (u' :: us). rewrite !creates_all_cons. lia.
  - change (<[S i := u']> (v :: us)) with (v :: <[i := u']> us). rewrite !creates_all_cons, (IH i Hi). lia.
Qed.
Lemma creates_all_elem us i u : us !! i = Some u -> creates u <= creates_all us.
Proof.
  revert i. induction us as [|v us IH]; intros [|i] Hi; try done; cbn in Hi; rewrite creates_all_cons.
  - injection Hi as ->. pose proof (creates_all_nonneg us). lia.
  - specialize (IH i Hi). pose proof (creates_nonneg v). lia.
Qed.

Lemma coll_live_owned J u s : coll_ok crypt J u s -> live u = true -> is_Some (sh_byWID s !! up_wid u).
Proof.
  unfold coll_ok, live. destruct (up_phase u) as [| | | | | |[e|]]; try done; try by intros [? _].
  intros (_ & _ & _ & _ & _ & _ & i & Hi & _) _. by exists i.
Qed.

(** An upload not moving: the steps of the others leave it alone. *)
Lemma upload_ok_other J u s s' wid :
  upload_ok J u s -> frame_ok wid s s' -> srv_grows s s' -> (live u = true -> Some (up_wid u) <> wid) -> upload_ok J u s'.
Proof.
  intros [H1 H2 H3 H4] (F1 & F2 & F3) Hg Hw. constructor; try done.
  - by eapply pipe_ok_mono.
  - destruct (live u) eqn:Hl.
    + eapply coll_ok_mono; [|done|done]. apply F1; [by eapply coll_live_owned|auto].
    + unfold coll_ok, live in *. by destruct (up_phase u) as [| | | | | |[e|]].
Qed.

Lemma step_workers_ne ev u s u' s' : step crypt ev u s = Some (u', s') -> up_workers u <> [] -> up_workers u' <> [].
Proof.
  intros Hs Hne. assert (length (up_workers u') = length (up_workers u)) as Hl.
  { unfold step in Hs. destruct (step_collector crypt ev u s) as [[u1 s1]|] eqn:Hc.
    - injection Hs as <- <-. destruct ev; try done; cbn [step_collector] in Hc; destruct (up_phase u); try done.
      all: try (injection Hc as <- <-; done).
      + destruct (DownloadPrevious _ _ _). by injection Hc as <- <-.
      + destruct (CreateDynamicIndex _ _ _ _) as [[|]]; by injection Hc as <- <-.
      + destruct (up_dones u); [done|]. injection Hc as <- <-. by repeat case_match.
      + destruct (up_pending u !! up_next u); [|by injection Hc as <- <-].
        destruct (_ =? 128)%nat; [|by injection Hc as <- <-].
        destruct (flush n (take_done _ u) s) as [[e u2] s2] eqn:Hf. apply flush_spec in Hf as (_ & _ & F).
        assert (up_workers u2 = up_workers u) as Hw by (by destruct F as [-> | ->]).
        destruct e; injection Hc as <- <-; cbn; by rewrite Hw.
      + destruct (up_dones u), (up_prodErr u); try done. destruct (forallb _ _); [|done]. by injection Hc as <- <-.
      + destruct (flush n u s) as [[e u2] s2] eqn:Hf. apply flush_spec in Hf as (_ & _ & F).
        injection Hc as <- <-. by destruct F as [-> | ->].
      + destruct (CloseDynamicIndex _ _ _ _ _ _). by injection Hc as <- <-.
    - destruct (running u); [|done]. destruct ev; try done; cbn [step_workers] in Hs.
      all: try (destruct (up_todo u), (up_prodErr u); try done; repeat destruct (_ <? _)%nat; try destruct (up_canceled u); try done; injection Hs as <- <-; done).
      all: destruct (up_workers u !! k) as [[]|]; try done.
      all: try (repeat case_match; try done; injection Hs as <- <-; cbn; apply length_insert).
      }
  destruct (up_workers u'), (up_workers u); done.
Qed.

Lemma sstep_ok Js i ev us s us' s' :
  sstep crypt i ev us s = Some (us', s') -> session_ok Js us s -> session_ok Js us' s'.
Proof.
  intros Hs Hok. pose proof (sstep_claims crypt i ev us s us' s' Hs (ss_claims _ _ _ Hok)) as Hcl.
  destruct Hok as [S1 S2 S3 [S4 S4'] S5 S6]. unfold sstep in Hs.
  destruct (us !! i) as [u|] eqn:Hi; [|done]. cbn [mbind option_bind] in Hs.
  destruct (step crypt ev u s) as [[u' s1]|] eqn:Hst; [|done]. cbn in Hs. injection Hs as <- <-.
  destruct (Forall2_lookup_r _ _ _ _ _ S5 Hi) as (J & HJ & [U1 U2 U3 U4]).
  pose proof (creates_all_elem us i u Hi) as Hce.
  destruct (step_pipe crypt J ev u s u' s1 Hst S2 U1) as (P1 & P2 & P3).
  destruct (step_coll crypt J ev u s u' s1 Hst S1 S4 ltac:(lia) U4 S2 U1 U2 U3) as [C1 C2 C3 C4 [C5 C6]].
  assert (forall j v, us !! j = Some v -> j <> i -> live v = true -> up_wid v <> up_wid u' \/ live u' = false) as Hother.
  { intros j v Hj Hne Hl. destruct (live u') eqn:Hl'; [|by right]. left. destruct (live u) eqn:Hlu.
    - rewrite (C3 eq_refl). by eapply S6.
    - intros He. specialize (C4 eq_refl eq_refl). rewrite <- He in C4.
      destruct (Forall2_lookup_r _ _ _ _ _ S5 Hj) as (J' & _ & [_ _ V3 _]). destruct (coll_live_owned J' v s V3 Hl). congruence. }
  constructor.
  - apply (proj2 C1).
  - done.
  - done.
  - split; [done|]. rewrite (creates_all_insert us i u u' Hi). lia.
  - apply Forall2_lookup. intros k. destruct (decide (k = i)) as [->|Hk].
    + rewrite list_lookup_insert_eq by (by eapply lookup_lt_Some). rewrite HJ. constructor.
      constructor; [done|by eapply step_drained|done|by eapply step_workers_ne].
    + rewrite list_lookup_insert_ne by done. destruct (us !! k) as [v|] eqn:Hv.
      * destruct (Forall2_lookup_r _ _ _ _ _ S5 Hv) as (J' & HJ' & Hv'). rewrite HJ'. constructor.
        eapply upload_ok_other; [done|exact C1|done|]. intros Hl. unfold writer. destruct (live u) eqn:Hlu; [|done].
        intros [= He]. by eapply (S6 k i v u).
      * destruct (Js !! k) as [J'|] eqn:HJ'; [|constructor].
        destruct (Forall2_lookup_l _ _ _ _ _ S5 HJ') as (v & ? & _). congruence.
  - intros a b v w Ha Hb Hne Hlv Hlw. pose proof (lookup_lt_Some _ _ _ Hi) as Hlt.
    destruct (decide (a = i)) as [->|Hai], (decide (b = i)) as [->|Hbi]; [done|..].
    + rewrite list_lookup_insert_eq in Ha by done. injection Ha as <-. rewrite list_lookup_insert_ne in Hb by done.
      destruct (Hother b w Hb Hbi Hlw); congruence.
    + rewrite list_lookup_insert_eq in Hb by done. injection Hb as <-. rewrite list_lookup_insert_ne in Ha by done.
      destruct (Hother a v Ha Hai Hlv); congruence.
    + rewrite list_lookup_insert_ne in Ha, Hb by done. by eapply (S6 a b).
Qed.

Lemma srun_ok Js evs us s us' s' :
  srun crypt evs us s = Some (us', s') -> session_ok Js us s -> session_ok Js us' s'.
Proof.
  revert us s. induction evs as [|[i ev] evs IH]; intros us s; cbn [srun]; [by intros [= <- <-]|].
  intros Hr Hok. destruct (sstep crypt i ev us s) as [[us1 s1]|] eqn:Hs; [|done]. cbn in Hr.
  eapply IH; [exact Hr|]. by eapply sstep_ok.
Qed.

(** The session and its uploads at the start. *)
Definition session_start (s : shared) : Prop :=
  sh_known s = ∅ /\ sh_byWID s = ∅ /\ sh_sent s = [] /\ 0 <= sv_nextWID (sh_server s).

(** Jobs carry their place in the stream. *)
Definition numbered (js : list chunkJob) : Prop := forall k j, js !! k = Some j -> j_seq j = k.

Lemma start_upload name Workers avg r s :
  numbered (produce r avg).1.2 -> upload_ok (produce r avg).1.2 (uploadIndexStream name Workers avg r) s /\
  up_phase (uploadIndexStream name Workers avg r) = PPrevious.
Proof.
  intros Hnum. unfold uploadIndexStream. destruct (produce r avg) as [[framed js] e]. cbn [fst snd] in *.
  set (W := if decide (Workers = 0%nat) then 4%nat else Workers).
  assert (0 < W)%nat as HW by (unfold W; destruct (decide _); lia).
  assert (forall w, w ∈ replicate W WIdle -> w = WIdle) as Hidle by (intros w Hw; by apply elem_of_replicate in Hw as [? _]).
  split; [|done]. constructor.
  - constructor; cbn; try done.
    + apply Forall_lookup. intros k j Hk. unfold in_J. by rewrite (Hnum k j Hk).
    + apply Forall_forall. intros w Hw. by rewrite (Hidle w Hw).
    + intros _. unfold seqs. cbn.
      assert (replicate W WIdle ≫= wseq = []) as -> by (clear; induction W; [done|by cbn]).
      cbn. assert (j_seq <$> js = seq 0 (length js)) as ->; [|done].
      apply list_eq. intros k. rewrite list_lookup_fmap. destruct (js !! k) as [j|] eqn:Hk.
      * cbn. rewrite (Hnum k j Hk). symmetry. apply lookup_seq. apply lookup_lt_Some in Hk. lia.
      * cbn. symmetry. apply lookup_ge_None. apply lookup_ge_None in Hk. by rewrite length_seq.
  - intros Hx. by apply Hidle in Hx.
  - unfold coll_ok. cbn. by split_and!.
  - cbn. by destruct W; [lia|].
Qed.
End session.
