(* ===== verification/UploadJobs.v ===== *)
(** * Index uploads: the jobs of a stream

    What the producer of an upload makes of its stream: the jobs are numbered,
    follow each other without gap, none is empty, and spell the stream: the
    bytes of plain data and, for a framed stream, the injected chunks exactly
    where they were injected. *)

From S2P Require Import Prelude Io Reuse Hash Blob Index Server Upload UploadSpec.
From S2P Require Chunker.
Local Open Scope Z_scope.

(* ------------------------------------------------------------------ *)
(** ** Specification *)

(** A stream as the server sees it: bytes, and chunks it already has. *)
Inductive token := TByte (b : byte) | TChunk (digest : bytes) (size : Z).

Definition frame_tokens (f : Frame) : list token :=
  match f with
  | Data p => TByte <$> p
  | Injected cs => (fun c => TChunk (c_Digest c) (c_Size c)) <$> cs
  end.
Definition job_tokens (j : chunkJob) : list token :=
  if j_known j then [TChunk (j_digest j) (j_size j)] else TByte <$> j_data j.

(** Jobs numbered from [n] that follow each other from offset [off]. *)
Fixpoint laid (n : nat) (off : Z) (js : list chunkJob) : Prop :=
  match js with
  | [] => True
  | j :: js => j_seq j = n /\ j_offset j = off /\ laid (S n) (u64 (off + job_size j)) js
  end.
Definition laid_end (off : Z) (js : list chunkJob) : Z := foldl (fun o j => u64 (o + job_size j)) off js.

Definition job_nonempty (j : chunkJob) : Prop := job_size j <> 0.

(* ------------------------------------------------------------------ *)
(** ** Lemmas *)

Lemma laid_app n off js js' :
  laid n off js -> laid (n + length js) (laid_end off js) js' -> laid n off (js ++ js').
Proof.
  revert n off. induction js as [|j js IH]; intros n off; cbn [laid app length]; [by rewrite Nat.add_0_r|].
  intros (H1 & H2 & H3) H. split_and!; [done..|]. apply IH; [done|].
  replace (S n + length js)%nat with (n + S (length js))%nat by lia. exact H.
Qed.

Lemma laid_numbered n off js k j : laid n off js -> js !! k = Some j -> j_seq j = (n + k)%nat.
Proof.
  revert n off k. induction js as [|i js IH]; intros n off [|k]; cbn; try done.
  - intros (<- & _) [= ->]. lia.
  - intros (_ & _ & H) Hk. rewrite (IH _ _ _ H Hk). lia.
Qed.

Lemma laid_end_app off js js' : laid_end off (js ++ js') = laid_end (laid_end off js) js'.
Proof. apply foldl_app. Qed.

(** From the state [f], the jobs [js] lead to [f'] having spelled [toks]; the
    bytes of the unfinished chunk are still to come. *)
Record emits (f : framing) (js : list chunkJob) (toks : list token) (f' : framing) : Prop := {
  em_laid : laid (fg_seq f) (fg_offset f) js;
  em_seq : fg_seq f' = (fg_seq f + length js)%nat;
  em_offset : fg_offset f' = laid_end (fg_offset f) js;
  em_tokens : (TByte <$> fg_current f) ++ toks = (js ≫= job_tokens) ++ (TByte <$> fg_current f');
  em_nonempty : Forall job_nonempty js }.

Lemma emits_trans f js toks f' js' toks' f'' :
  emits f js toks f' -> emits f' js' toks' f'' -> emits f (js ++ js') (toks ++ toks') f''.
Proof.
  intros [H1 H2 H3 H4 H5] [G1 G2 G3 G4 G5]. constructor.
  - apply laid_app; [done|]. by rewrite <- H2, <- H3.
  - rewrite length_app. lia.
  - by rewrite laid_end_app, <- H3.
  - by rewrite app_assoc, H4, <- app_assoc, G4, bind_app, app_assoc.
  - by apply Forall_app.
Qed.

Lemma emits_none f c d : emits f [] (TByte <$> d) (mkFraming c (fg_current f ++ d) (fg_offset f) (fg_seq f)).
Proof. constructor; cbn; [done|lia|done|by rewrite fmap_app|done]. Qed.

Lemma cut_emits f js f' : cut f = (js, f') -> emits f js [] f' /\ fg_current f' = [] /\ fg_c f' = fg_c f.
Proof.
  unfold cut. destruct (fg_current f) as [|b d] eqn:Hc; intros [= <- <-].
  - split; [|done]. constructor; cbn; [done|lia|done|by rewrite app_nil_r|done].
  - split; [|done]. constructor; cbn [fg_seq fg_offset fg_current].
    + by split_and!.
    + cbn. lia.
    + done.
    + rewrite Hc. cbn. by rewrite !app_nil_r.
    + constructor; [|done]. unfold job_nonempty, job_size. cbn. lia.
Qed.

(** What a chunker that follows the unfinished chunk does with a frame. *)
Definition follows (f : framing) : Prop := Chunker.chunk_state (fg_c f) (fg_current f).

Lemma data_frame_emits fuel seg f js f' :
  (length seg <= fuel)%nat -> follows f -> data_frame fuel seg f = (js, f') ->
  emits f js (TByte <$> seg) f' /\ follows f'.
Proof.
  revert seg f js f'. induction fuel as [|fuel IH]; intros seg f js f' Hf Hfo.
  - destruct seg; [|cbn in Hf; lia]. intros [= <- <-]. split; [|done].
    constructor; cbn; [done|lia|done|by rewrite app_nil_r|done].
  - destruct seg as [|x seg']; cbn [data_frame].
    { intros [= <- <-]. split; [|done]. constructor; cbn; [done|lia|done|by rewrite app_nil_r|done]. }
    set (seg := x :: seg') in *. pose proof (Chunker.Scan_ok (fg_c f) (fg_current f) seg Hfo) as [_ Hs].
    destruct (Chunker.Scan (fg_c f) seg) as [pos c]. cbn [fst snd] in Hs.
    destruct (Chunker.first_break (fg_c f) (fg_current f) seg) as [k|] eqn:Hb.
    + destruct Hs as [-> Hc]. apply Chunker.first_break_bound in Hb as Hk.
      rewrite (proj2 (Z.eqb_neq _ _)) by lia.
      replace (Z.to_nat (0 + Z.of_nat k)) with k by lia.
      destruct (cut _) as [js1 f1] eqn:Hcut. apply cut_emits in Hcut as (E1 & C1 & C2). cbn [fg_c] in C2.
      destruct (data_frame fuel (drop k seg) f1) as [js2 f2] eqn:Hd. intros [= <- <-].
      assert (follows f1) as F1 by (unfold follows; by rewrite C1, C2).
      destruct (IH (drop k seg) f1 js2 f2) as [E2 F2]; [rewrite length_drop; lia|done|done|].
      split; [|done]. rewrite <- (take_drop k seg), fmap_app. eapply (emits_trans f js1 _ f1); [|exact E2].
      rewrite <- (app_nil_r (TByte <$> take k seg)). change js1 with ([] ++ js1).
      eapply emits_trans; [apply emits_none|exact E1].
    + destruct Hs as [-> Hc]. intros [= <- <-]. split; [apply emits_none|exact Hc].
Qed.

Lemma inject_jobs_emits cs f js f' :
  fg_current f = [] -> inject_jobs cs f = (js, None, f') ->
  emits f js (frame_tokens (Injected cs)) f' /\ fg_current f' = [] /\ fg_c f' = fg_c f.
Proof.
  revert f js f'. induction cs as [|c cs IH]; intros f js f' Hc; cbn [inject_jobs].
  - intros [= <- <-]. split; [|done]. constructor; cbn; [done|lia|done|by rewrite app_nil_r|done].
  - destruct (Z.eqb_spec (c_Size c) 0); [done|].
    set (f1 := mkFraming _ _ (u64 _) _). destruct (inject_jobs cs f1) as [[js1 e1] f2] eqn:Hi. intros [= <- -> <-].
    destruct (IH f1 js1 f2 Hc Hi) as (E & C1 & C2). split; [|done].
    change (frame_tokens (Injected (c :: cs))) with ([TChunk (c_Digest c) (c_Size c)] ++ frame_tokens (Injected cs)).
    set (j := mkJob _ _ [] true _ _). change (j :: js1) with ([j] ++ js1).
    eapply emits_trans; [|exact E]. constructor; cbn; [by split_and!|lia|done| |].
    + by rewrite Hc.
    + constructor; [|done]. unfold job_nonempty, job_size. done.
Qed.

Lemma frame_jobs_emits fr f js f' :
  follows f -> frame_jobs fr f = (js, None, f') -> emits f js (frame_tokens fr) f' /\ follows f'.
Proof.
  intros Hf. destruct fr as [p|cs]; cbn [frame_jobs].
  - destruct (data_frame (length p) p f) as [js1 f1] eqn:Hd. intros [= <- <-].
    by apply (data_frame_emits (length p) p f).
  - destruct (cut f) as [js1 f1] eqn:Hc. destruct (inject_jobs cs _) as [[js2 e2] f2] eqn:Hi. intros [= <- -> <-].
    apply cut_emits in Hc as (E1 & C1 & C2). apply inject_jobs_emits in Hi as (E2 & C3 & C4); [|done]. split.
    + change (frame_tokens (Injected cs)) with ([] ++ frame_tokens (Injected cs)).
      eapply emits_trans; [exact E1|]. destruct E2. by constructor.
    + unfold follows. rewrite C3, C4. cbn [fg_c]. rewrite C2. by eapply Chunker.chunk_state_reset.
Qed.

Lemma framed_loop_emits fuel fr f fs js :
  follows f -> fr_all fuel fr = (fs, ErrEOF) -> (length fs < fuel)%nat -> framed_loop fuel fr f = (js, None) ->
  exists f', emits f js (fs ≫= frame_tokens) f' /\ fg_current f' = [].
Proof.
  revert fr f fs js. induction fuel as [|fuel IH]; intros fr f fs js Hfo Ha Hl; cbn [framed_loop]; [lia|].
  cbn [fr_all] in Ha. destruct (fr_Next fr) as [[frame|e] fr'].
  - destruct (fr_all fuel fr') as [fs' e'] eqn:Ha'. injection Ha as <- ->. cbn [length] in Hl.
    destruct (frame_jobs frame f) as [[js1 [e1|]] f1] eqn:Hj; [done|].
    destruct (framed_loop fuel fr' f1) as [js2 e2] eqn:Hr. intros [= <- ->].
    apply frame_jobs_emits in Hj as [E1 F1]; [|done].
    destruct (IH _ _ _ _ F1 Ha' ltac:(lia) Hr) as (f' & E2 & C). exists f'. split; [|done].
    rewrite list_bind_cons. by eapply emits_trans.
  - injection Ha as <- ->. intros [= <-]. destruct (cut f) as [js1 f1] eqn:Hc.
    apply cut_emits in Hc as (E1 & C1 & _). by exists f1.
Qed.

(** No frame is lost on the way, and nothing but an empty injected chunk stops
    the producer. *)
Lemma inject_jobs_total cs f : Forall (fun c => c_Size c <> 0) cs -> (inject_jobs cs f).1.2 = None.
Proof.
  intros H. revert f. induction H as [|c cs Hc _ IH]; intros f; cbn [inject_jobs]; [done|].
  rewrite (proj2 (Z.eqb_neq _ _)) by done.
  set (f1 := mkFraming _ _ (u64 _) _). specialize (IH f1). by destruct (inject_jobs cs f1) as [[js1 e1] f2].
Qed.
Definition frame_sized (fr : Frame) : Prop :=
  match fr with Data _ => True | Injected cs => Forall (fun c => c_Size c <> 0) cs end.
Lemma frame_jobs_total fr f : frame_sized fr -> (frame_jobs fr f).1.2 = None.
Proof.
  destruct fr as [p|cs]; cbn [frame_jobs]; intros Hs; [by destruct (data_frame _ _ _)|].
  destruct (cut f) as [js1 f1]. pose proof (inject_jobs_total cs (mkFraming (Chunker.Reset (fg_c f1)) (fg_current f1) (fg_offset f1) (fg_seq f1)) Hs) as H.
  by destruct (inject_jobs _ _) as [[js2 e2] f2].
Qed.
Lemma framed_loop_total fuel fr f fs :
  fr_all fuel fr = (fs, ErrEOF) -> (length fs < fuel)%nat -> Forall frame_sized fs -> (framed_loop fuel fr f).2 = None.
Proof.
  revert fr f fs. induction fuel as [|fuel IH]; intros fr f fs Ha Hl Hs; cbn [framed_loop]; [done|].
  cbn [fr_all] in Ha. destruct (fr_Next fr) as [[frame|e] fr'].
  - destruct (fr_all fuel fr') as [fs' e'] eqn:Ha'. injection Ha as <- ->. cbn [length] in Hl.
    apply Forall_cons in Hs as [Hs1 Hs]. pose proof (frame_jobs_total frame f Hs1) as Hj.
    destruct (frame_jobs frame f) as [[js1 e1] f1]. cbn in Hj. subst e1.
    specialize (IH fr' f1 fs' Ha' ltac:(lia) Hs). destruct (framed_loop fuel fr' f1). exact IH.
  - by injection Ha as <- ->.
Qed.

(** The chunks of a plain stream. *)
Lemma cut_jobs c p off data n :
  let '(ys, (p', o')) := Chunker.cut c p off data in
  laid n off (data_jobs n ys) /\ o' = laid_end off (data_jobs n ys) /\ Forall job_nonempty (data_jobs n ys) /\
  (TByte <$> p) ++ (TByte <$> data) = (data_jobs n ys ≫= job_tokens) ++ (TByte <$> p').
Proof.
  remember (length data) as m eqn:Hm. revert p off data n Hm.
  induction m as [m IH] using lt_wf_ind. intros p off data n ->. rewrite Chunker.cut_eq.
  destruct (Chunker.first_break c p data) as [k|] eqn:E.
  2: { cbn. split_and!; [done..|]. by rewrite fmap_app. }
  cbv zeta. apply Chunker.first_break_bound in E as Hk. set (d := p ++ take k data).
  specialize (IH (length (drop k data)) ltac:(rewrite length_drop; lia) [] (u64 (off + zlen d)) (drop k data) (S n) eq_refl).
  destruct (Chunker.cut c [] (u64 (off + zlen d)) (drop k data)) as [ys [p' o']]. destruct IH as (H1 & H2 & H3 & H4).
  cbn [data_jobs Chunker.ck_Offset Chunker.ck_Data laid]. split_and!; [done|done|done|done| |].
  - constructor; [|done]. unfold job_nonempty, job_size, d. cbn. rewrite length_app, length_take. lia.
  - change ((TByte <$> []) ++ (TByte <$> drop k data)) with (TByte <$> drop k data) in H4.
    rewrite list_bind_cons, <- app_assoc, <- H4. unfold job_tokens, d. cbn [j_known j_data].
    assert (TByte <$> data = (TByte <$> take k data) ++ (TByte <$> drop k data)) as -> by (by rewrite <- fmap_app, take_drop).
    by rewrite fmap_app, <- app_assoc.
Qed.

Lemma data_jobs_app n xs ys : data_jobs n (xs ++ ys) = data_jobs n xs ++ data_jobs (n + length xs) ys.
Proof.
  revert n. induction xs as [|x xs IH]; intros n; cbn; [by rewrite Nat.add_0_r|]. rewrite IH. do 3 f_equal. lia.
Qed.
Lemma length_data_jobs n xs : length (data_jobs n xs) = length xs.
Proof. revert n. induction xs; intros; cbn; auto. Qed.

Lemma split_jobs r avg ys :
  Chunker.Split r avg = (ys, None) ->
  laid 0 0 (data_jobs 0 ys) /\ Forall job_nonempty (data_jobs 0 ys) /\ data_jobs 0 ys ≫= job_tokens = TByte <$> (contents r).1.
Proof.
  unfold Chunker.Split. destruct (Chunker.New avg) as [c|] eqn:Hn; [|done].
  rewrite (Chunker.split_loop_ok _ c [] 0 r (Chunker.New_state _ _ Hn)) by lia.
  pose proof (cut_jobs c [] 0 (contents r).1 0) as Hc.
  destruct (Chunker.cut c [] 0 (contents r).1) as [zs [p o]]. destruct Hc as (H1 & H2 & H3 & H4).
  destruct (contents r).2; try done. intros [= <-]. rewrite data_jobs_app, bind_app. cbn [fmap list_fmap app] in H4. rewrite H4.
  destruct (decide (p = [])) as [->|Hp].
  - cbn. rewrite !app_nil_r. by split_and!.
  - cbn [data_jobs Chunker.ck_Offset Chunker.ck_Data]. split_and!.
    + apply laid_app; [done|]. rewrite length_data_jobs, <- H2. by split_and!.
    + apply Forall_app. split; [done|]. constructor; [|done]. unfold job_nonempty, job_size. cbn. destruct p; [done|cbn; lia].
    + rewrite list_bind_cons. cbn. by rewrite app_nil_r.
Qed.

Lemma contents_multi prefix r : contents (MultiReader prefix r) = (prefix ++ (contents r).1, (contents r).2).
Proof.
  unfold MultiReader. destruct (decide (prefix = [])) as [->|]; [by destruct (contents r)|]. cbn. by destruct (contents r).
Qed.

(** Also when the stream ends in an error, what was emitted is in place. *)
Lemma inject_jobs_laid cs f : laid (fg_seq f) (fg_offset f) (inject_jobs cs f).1.1.
Proof.
  revert f. induction cs as [|c cs IH]; intros f; cbn [inject_jobs]; [done|].
  destruct (c_Size c =? 0); [done|]. set (f1 := mkFraming _ _ (u64 _) _). specialize (IH f1).
  destruct (inject_jobs cs f1) as [[js1 e1] f2]. exact (conj eq_refl (conj eq_refl IH)).
Qed.

Lemma frame_jobs_laid fr f : follows f -> laid (fg_seq f) (fg_offset f) (frame_jobs fr f).1.1.
Proof.
  intros Hf. destruct fr as [p|cs]; cbn [frame_jobs].
  - destruct (data_frame (length p) p f) as [js1 f1] eqn:Hd.
    apply data_frame_emits in Hd as [[] _]; done.
  - destruct (cut f) as [js1 f1] eqn:Hc. apply cut_emits in Hc as ([E1 E2 E3 _ _] & _ & _).
    set (f2 := mkFraming (Chunker.Reset _) _ _ _). pose proof (inject_jobs_laid cs f2) as Hi.
    destruct (inject_jobs cs f2) as [[js2 e2] f3]. cbn [fst] in *. apply laid_app; [done|]. by rewrite <- E2, <- E3.
Qed.

Lemma framed_loop_laid fuel fr f : follows f -> laid (fg_seq f) (fg_offset f) (framed_loop fuel fr f).1.
Proof.
  revert fr f. induction fuel as [|fuel IH]; intros fr f Hf; cbn [framed_loop]; [done|].
  destruct (fr_Next fr) as [[frame|e] fr'].
  - pose proof (frame_jobs_laid frame f Hf) as Hl. destruct (frame_jobs frame f) as [[js1 [e1|]] f1] eqn:Hj; [done|].
    apply frame_jobs_emits in Hj as [[E1 E2 E3 _ _] F1]; [|done]. specialize (IH fr' f1 F1).
    destruct (framed_loop fuel fr' f1) as [js2 e2]. cbn [fst] in *. apply laid_app; [done|]. by rewrite <- E2, <- E3.
  - destruct (cut f) as [js1 f1] eqn:Hc. apply cut_emits in Hc as ([E1 _ _ _ _] & _ & _). by destruct e.
Qed.

Lemma produce_laid r avg : laid 0 0 (produce r avg).1.2.
Proof.
  unfold produce. destruct (NewReader r) as [fr|[[e prefix] r']].
  - unfold produceFramed. destruct (Chunker.New avg) as [c|] eqn:Hn; [|done].
    pose proof (framed_loop_laid (S (S (rsize (fr_r fr)))) fr (mkFraming c [] 0 0) (Chunker.New_state _ _ Hn)) as H.
    destruct (framed_loop _ _ _). exact H.
  - destruct e; try done. unfold Chunker.Split. destruct (Chunker.New avg) as [c|] eqn:Hn; [|done].
    rewrite (Chunker.split_loop_ok _ c [] 0 _ (Chunker.New_state _ _ Hn)) by lia.
    pose proof (cut_jobs c [] 0 (contents (MultiReader prefix r')).1 0) as Hc.
    destruct (Chunker.cut c [] 0 _) as [zs [p o]]. destruct Hc as (H1 & H2 & _ & _).
    destruct (contents (MultiReader prefix r')).2; cbn [fst snd]; try done.
    rewrite data_jobs_app. apply laid_app; [done|]. rewrite length_data_jobs, <- H2.
    destruct (decide (p = [])); [done|]. cbn [data_jobs laid Chunker.ck_Offset j_seq j_offset]. by repeat split.
Qed.

Lemma produce_numbered r avg : numbered (produce r avg).1.2.
Proof. intros k j Hk. by rewrite (laid_numbered _ _ _ _ _ (produce_laid r avg) Hk). Qed.

(** Every frame takes at least its header. *)
Lemma fr_Next_length fr f fr' :
  fr_Next fr = (Ok f, fr') -> (length (contents (fr_r fr')).1 < length (contents (fr_r fr)).1)%nat.
Proof.
  unfold fr_Next. destruct (ReadFull_spec 9 (fr_r fr)) as [r1 H1]. cbv zeta in H1.
  destruct (decide (9 <= length (contents (fr_r fr)).1)%nat) as [H9|H9].
  2: { rewrite H1. destruct (contents (fr_r fr)).2; [destruct (decide _)|..]; done. }
  destruct H1 as [-> Hc1]. destruct (2 ^ 31 <? _); [done|].
  set (n := Z.to_nat _). destruct (ReadFull_spec n r1) as [r2 H2]. cbv zeta in H2. rewrite Hc1 in H2. cbn [fst snd] in H2.
  rewrite length_drop in H2. destruct (decide (n <= _)%nat) as [Hn|Hn].
  - destruct H2 as [-> Hc2]. intros H.
    assert (fr' = {| fr_r := r2 |}) as ->.
    { destruct (decide _); [by injection H as _ <-|]. destruct (decide _); [|done]. destruct (negb _); [done|]. by injection H as _ <-. }
    cbn [fr_r]. rewrite Hc2. cbn [fst]. rewrite !length_drop. lia.
  - rewrite H2. by destruct (contents (fr_r fr)).2; [destruct (decide _)|..].
Qed.

Lemma fr_all_length fuel fr fs e :
  fr_all fuel fr = (fs, e) -> (length (contents (fr_r fr)).1 < fuel)%nat -> (length fs < fuel)%nat.
Proof.
  revert fr fs e. induction fuel as [|fuel IH]; intros fr fs e; cbn [fr_all]; [lia|].
  destruct (fr_Next fr) as [[f|e1] fr'] eqn:Hn; [|intros [= <- <-]; cbn; lia].
  apply fr_Next_length in Hn. destruct (fr_all fuel fr') as [fs' e'] eqn:Ha. intros [= <- <-] Hl. cbn [length].
  specialize (IH _ _ _ Ha). lia.
Qed.

(** What a stream uploads: its bytes, or what its frames say. *)
Definition stream_tokens (r : reader) : list token :=
  match NewReader r with
  | Ok fr => (fr_all (S (S (rsize (fr_r fr)))) fr).1 ≫= frame_tokens
  | Err _ => TByte <$> (contents r).1
  end.

Lemma framed_loop_error fuel fr f fs e :
  fr_all fuel fr = (fs, e) -> (length fs < fuel)%nat -> e <> ErrEOF -> (framed_loop fuel fr f).2 <> None.
Proof.
  revert fr f fs. induction fuel as [|fuel IH]; intros fr f fs Ha Hl He; cbn [framed_loop]; [lia|].
  cbn [fr_all] in Ha. destruct (fr_Next fr) as [[frame|e1] fr'].
  - destruct (fr_all fuel fr') as [fs' e'] eqn:Ha'. injection Ha as <- ->. cbn [length] in Hl.
    destruct (frame_jobs frame f) as [[js1 [e1|]] f1]; [done|].
    specialize (IH fr' f1 fs' Ha' ltac:(lia) He). by destruct (framed_loop fuel fr' f1).
  - injection Ha as <- ->. by destruct e.
Qed.

Lemma produce_tokens r avg framed js :
  produce r avg = (framed, js, None) ->
  laid 0 0 js /\ Forall job_nonempty js /\ js ≫= job_tokens = stream_tokens r.
Proof.
  intros Hp. split; [pose proof (produce_laid r avg) as H; by rewrite Hp in H|].
  unfold produce in Hp. unfold stream_tokens. destruct (NewReader r) as [fr|[[e prefix] r']] eqn:Hnr.
  - unfold produceFramed in Hp. destruct (Chunker.New avg) as [c|] eqn:Hn; [|done].
    set (fuel := S (S (rsize (fr_r fr)))) in *.
    destruct (framed_loop fuel fr (mkFraming c [] 0 0)) as [js1 e1] eqn:Hl. injection Hp as <- <- ->.
    destruct (fr_all fuel fr) as [fs e] eqn:Ha.
    assert (length fs < fuel)%nat as Hfs.
    { eapply fr_all_length; [exact Ha|]. pose proof (contents_rsize (fr_r fr)). unfold fuel. lia. }
    assert (e = ErrEOF) as ->.
    { assert (e = ErrEOF \/ e <> ErrEOF) as [->|He] by (destruct e; auto); [done|]. exfalso.
      apply (framed_loop_error fuel fr (mkFraming c [] 0 0) fs e Ha Hfs He). by rewrite Hl. }
    destruct (framed_loop_emits fuel fr (mkFraming c [] 0 0) fs js1 (Chunker.New_state _ _ Hn) Ha Hfs Hl) as (f' & [_ _ _ E4 E5] & C).
    rewrite C in E4. cbn in E4. split; [done|]. cbn [fst]. by rewrite E4, app_nil_r.
  - destruct e; try done.
    destruct (Chunker.Split (MultiReader prefix r') avg) as [ys e] eqn:Hs. injection Hp as <- <- He.
    destruct e as [e|]; [done|]. apply split_jobs in Hs as (H1 & H2 & H3). rewrite H3, contents_multi. cbn [fst].
    apply NewReader_unframed in Hnr as [Hc _]. by rewrite Hc.
Qed.
