(* ===== verification/UploadRead.v ===== *)
(** * Index uploads: reading them back

    The chunk store of the server through a session, the snapshot a finished
    session leaves, and what a reader session gets out of it: the stream that
    was uploaded. *)

From S2P Require Import Prelude Io Reuse Hash Blob Index Server Upload UploadSpec UploadJobs.
Local Open Scope Z_scope.

Section store.
Context {ZS : Zstd}.
Variable crypt : option cryptState.

(* ------------------------------------------------------------------ *)
(** ** What a step does to the server and the session *)

Lemma call_inv {A} (P : Server -> Prop) n (h : Server -> answer A * Server) m :
  (P m -> P (h m).2) -> P m -> P (call n h m).2.
Proof. intros Hh Hm. destruct n; cbn; auto. destruct (h m); auto. Qed.

Lemma list_alter_fmap_id {A B} (f : A -> B) (g : A -> A) (i : nat) (l : list A) : (forall x, f (g x) = f x) -> f <$> alter g i l = f <$> l.
Proof. intros H. apply list_eq. intros k. rewrite !list_lookup_fmap, list_lookup_alter. case_decide; [|done]. subst. destruct (l !! k); cbn; by rewrite ?H. Qed.

(** Whatever the handlers keep, every step keeps; [P] is about the server, the
    session and the manifest's file names. *)
Lemma step_server (P : Server -> session -> list bytes -> gmap Z nat -> Prop) ev u s u' s' :
  let Ps s := P (sh_server s) (sh_session s) (Filename <$> sh_files s) (sh_byWID s) in
  (forall name m se fs w, P m se fs w -> P (get_previous name m se).2 se fs w) ->
  (forall n, ev = EvCreate n -> up_phase u = PCreate -> Ps s -> Ps (CreateDynamicIndex crypt n (up_name u) s).2) ->
  (forall wid ds os m se fs w, P m se fs w -> P (put_dynamic_index wid ds os m).2 se fs w) ->
  (forall wid csum size count m se fs w, P m se fs w -> P (post_dynamic_close wid csum size count m).2 se fs w) ->
  (forall iv d plain size m se fs w, P m se fs w ->
    P (post_dynamic_chunk (srv_key crypt) d (zlen (frame crypt iv plain true)) size (frame crypt iv plain true) m).2 se fs w) ->
  step crypt ev u s = Some (u', s') -> Ps s -> Ps s'.
Proof.
  intros Ps Hprev Hcreate Hput Hclose Hchunk Hst Hm. unfold step in Hst.
  assert (forall n v e v' t t', flush n v t = (e, v', t') -> Ps t -> Ps t') as Hflush.
  { intros n v e v' t t'. unfold flush, AppendDynamicIndex. destruct (up_digests v) as [|b l]; [by intros [= <- <- <-]|].
    intros Hf Ht. pose proof (call_inv (fun m => P m _ _ _) n (put_dynamic_index (up_wid v) (b :: l) (up_offsets v)) (sh_server t) (Hput _ _ _ _ _ _ _) Ht) as Hc.
    destruct (call n _ (sh_server t)) as [[|] m]; by injection Hf as <- <- <-. }
  destruct (step_collector crypt ev u s) as [[u1 s1]|] eqn:Hc.
  - injection Hst as <- <-. destruct ev; try done; cbn [step_collector] in Hc; destruct (up_phase u) eqn:Hph; try done.
    all: try (by injection Hc as <- <-).
    + destruct (DownloadPrevious n (up_name u) s) as [r s2] eqn:Hd. injection Hc as <- <-. unfold DownloadPrevious in Hd.
      set (h := fun m => _) in Hd. pose proof (call_inv (fun m => P m (sh_session s) (Filename <$> sh_files s) (sh_byWID s)) n h (sh_server s)) as Hcall.
      destruct (call n h (sh_server s)) as [r0 m]. cbn [snd] in Hcall.
      assert (P m (sh_session s) (Filename <$> sh_files s) (sh_byWID s)) as HPm.
      { apply Hcall; [|done]. intros Hs. unfold h. pose proof (Hprev (up_name u) (sh_server s) (sh_session s) _ _ Hs) as Hp.
        by destruct (get_previous _ _ _). }
      destruct r0 as [[raw|]|e]; [destruct (ParseDynamicIndex raw)|..]; by injection Hd as <- <-.
    + specialize (Hcreate n eq_refl eq_refl Hm).
      by destruct (CreateDynamicIndex crypt n (up_name u) s) as [[] s2]; injection Hc as <- <-.
    + destruct (up_dones u) as [|d dones]; [done|]. by injection Hc as <- <-.
    + destruct (up_pending u !! up_next u) as [cur|]; [|by injection Hc as <- <-].
      destruct (_ =? 128)%nat; [|by injection Hc as <- <-].
      destruct (flush n (take_done cur u) s) as [[e u2] s2] eqn:Hf. apply Hflush in Hf; [|done].
      by destruct e; injection Hc as <- <-.
    + destruct (up_dones u); [|done]. destruct (up_prodErr u) as [pe|]; [|done]. destruct (forallb _ _); [|done].
      by injection Hc as <- <-.
    + destruct (flush n u s) as [[e u2] s2] eqn:Hf. apply Hflush in Hf; [|done]. by injection Hc as <- <-.
    + destruct (CloseDynamicIndex n _ _ _ _ s) as [r s2] eqn:Hd. unfold CloseDynamicIndex in Hd.
      set (h := post_dynamic_close _ _ _ _) in Hd. pose proof (call_inv (fun m => P m _ _ _) n h (sh_server s) (Hclose _ _ _ _ _ _ _ _) Hm) as HPm.
      destruct (call n h _) as [r0 m]. injection Hc as <- <-. destruct r0; [|by injection Hd as <- <-].
      cbn in Hd. destruct (sh_byWID s !! up_wid u); injection Hd as <- <-; [|done].
      unfold Ps. cbn. by rewrite list_alter_fmap_id.
  - destruct (running u); [|done]. destruct ev; try done; cbn [step_workers] in Hst.
    + destruct (up_todo u), (up_prodErr u); try done. destruct (_ <? _)%nat; [|done]. by injection Hst as <- <-.
    + destruct (up_todo u), (up_prodErr u); try done. destruct (up_canceled u); [|done]. by injection Hst as <- <-.
    + destruct (up_todo u), (up_prodErr u); try done. by injection Hst as <- <-.
    + destruct (up_workers u !! k) as [[]|]; try done. destruct (up_jobs u) as [|j jobs]; [done|]. by injection Hst as <- <-.
    + destruct (up_workers u !! k) as [[]|]; try done. destruct (up_jobs u), (up_prodErr u); try done. by injection Hst as <- <-.
    + destruct (up_workers u !! k) as [[|j| | | | |]|]; try done.
      destruct (claim _ _) as [kn w]. by injection Hst as <- <-.
    + destruct (up_workers u !! k) as [[| |j| | | |]|]; try done. destruct (j_known j); [by injection Hst as <- <-|].
      destruct (UploadDynamicChunk crypt n iv _ _ s) as [r s2] eqn:Hu. unfold UploadDynamicChunk in Hu.
      set (h := post_dynamic_chunk _ _ _ _ _) in Hu.
      pose proof (call_inv (fun m => P m _ _ _) n h (sh_server s) (Hchunk iv _ (j_data j) _ _ _ _ _) Hm) as HPm.
      destruct (call n h _) as [r0 m]. injection Hu as <- <-. by injection Hst as <- <-.
    + destruct (up_workers u !! k) as [[| | |j err| | |]|]; try done. by injection Hst as <- <-.
    + destruct (up_workers u !! k) as [[| | | |j| |]|]; try done.
      destruct (sh_known s !! job_digest crypt j) as [[|err]|]; try done. by injection Hst as <- <-.
    + destruct (up_workers u !! k) as [[| | | |j| |]|]; try done. destruct (up_canceled u); [|done]. by injection Hst as <- <-.
    + destruct (up_workers u !! k) as [[| | | | |d|]|]; try done. destruct (_ <? _)%nat; [|done]. by injection Hst as <- <-.
Qed.

(** An upload keeps its name and its stream, and opens its index once. *)
Definition ident (u : upload) : bytes * option up_error := (up_name u, up_end u).
Lemma flush_name n u s e u' s' : flush n u s = (e, u', s') -> ident u' = ident u /\ up_phase u' = up_phase u.
Proof.
  unfold flush. destruct (up_digests u); [by intros [= <- <- <-]|].
  destruct (AppendDynamicIndex _ _ _ _ _) as [[|] ?]; by intros [= <- <- <-].
Qed.

Lemma step_name ev u s u' s' :
  step crypt ev u s = Some (u', s') ->
  ident u' = ident u /\ (creates u' <= creates u) /\ ((exists n, ev = EvCreate n) -> up_phase u = PCreate -> creates u' = 0).
Proof.
  unfold step, creates. destruct (step_collector crypt ev u s) as [[u1 s1]|] eqn:Hc.
  - intros [= <- <-]. destruct ev; try done; cbn [step_collector] in Hc; destruct (up_phase u) eqn:Hph; try done.
    all: try (injection Hc as <- <-; cbn; rewrite Hph; split_and!; [done|lia|by intros [? ?]]).
    + destruct (DownloadPrevious _ _ _) as [[] s2]; injection Hc as <- <-; cbn; (split_and!; [done|lia|by intros [? ?]]).
    + destruct (CreateDynamicIndex _ _ _ _) as [[] s2]; injection Hc as <- <-; cbn; by split_and!.
    + destruct (up_dones u) as [|d dones]; [done|]. injection Hc as <- <-. cbn.
      destruct (up_firstErr u), (d_err d); cbn; rewrite ?Hph; (split_and!; [done|lia|by intros [? ?]]).
    + destruct (up_pending u !! up_next u) as [cur|]; [|injection Hc as <- <-; cbn; split_and!; [done|lia|by intros [? ?]]].
      destruct (_ =? 128)%nat; [|injection Hc as <- <-; cbn; rewrite Hph; split_and!; [done|lia|by intros [? ?]]].
      destruct (flush n (take_done cur u) s) as [[e u2] s2] eqn:Hf. apply flush_name in Hf as [H1 H2].
      cbn in H1, H2. destruct e; injection Hc as <- <-; cbn; rewrite ?H2, ?Hph; (split_and!; [done|lia|by intros [? ?]]).
    + destruct (up_dones u); [|done]. destruct (up_prodErr u) as [pe|]; [|done]. destruct (forallb _ _); [|done].
      injection Hc as <- <-. cbn. destruct (up_firstErr u) as [e|]; [|destruct pe as [e|]; [|destruct (decide _)]];
        (split_and!; [done|lia|by intros [? ?]]).
    + destruct (flush n u s) as [[e u2] s2] eqn:Hf. apply flush_name in Hf as [H1 H2].
      injection Hc as <- <-. cbn. destruct e; (split_and!; [done|lia|by intros [? ?]]).
    + destruct (CloseDynamicIndex _ _ _ _ _ _) as [r s2]. injection Hc as <- <-. cbn. split_and!; [done|lia|by intros [? ?]].
  - destruct (running u); [|done]. intros Hst.
    assert (ident u' = ident u /\ up_phase u' = up_phase u /\ forall n, ev <> EvCreate n) as (H1 & H2 & H3).
    { destruct ev; try done; cbn [step_workers] in Hst.
      - destruct (up_todo u), (up_prodErr u); try done. destruct (_ <? _)%nat; [|done]. by injection Hst as <- <-.
      - destruct (up_todo u), (up_prodErr u); try done. destruct (up_canceled u); [|done]. by injection Hst as <- <-.
      - destruct (up_todo u), (up_prodErr u); try done. by injection Hst as <- <-.
      - destruct (up_workers u !! k) as [[]|]; try done. destruct (up_jobs u) as [|j jobs]; [done|]. by injection Hst as <- <-.
      - destruct (up_workers u !! k) as [[]|]; try done. destruct (up_jobs u), (up_prodErr u); try done. by injection Hst as <- <-.
      - destruct (up_workers u !! k) as [[|j| | | | |]|]; try done. destruct (claim _ _) as [kn w]. by injection Hst as <- <-.
      - destruct (up_workers u !! k) as [[| |j| | | |]|]; try done. destruct (j_known j); [by injection Hst as <- <-|].
        destruct (UploadDynamicChunk _ _ _ _ _ _) as [r s2]. by injection Hst as <- <-.
      - destruct (up_workers u !! k) as [[| | |j err| | |]|]; try done. by injection Hst as <- <-.
      - destruct (up_workers u !! k) as [[| | | |j| |]|]; try done.
        destruct (sh_known s !! job_digest crypt j) as [[|err]|]; try done. by injection Hst as <- <-.
      - destruct (up_workers u !! k) as [[| | | |j| |]|]; try done. destruct (up_canceled u); [|done]. by injection Hst as <- <-.
      - destruct (up_workers u !! k) as [[| | | | |d|]|]; try done. destruct (_ <? _)%nat; [|done]. by injection Hst as <- <-. }
    rewrite H1, H2. split_and!; [done|lia|]. intros [n Hn]. by destruct (H3 n).
Qed.

(* ------------------------------------------------------------------ *)
(** ** The chunk store *)

(** The server has a frame under the hex digest that decodes to content of
    that digest. *)
Definition good (m : Server) (h : bytes) : Prop :=
  exists body p, sv_ChunksEncoded m !! h = Some body /\ decodeBlob body crypt = Ok p /\
    EncodeToString (ChunkDigest crypt p) = h.

(** The indexes of earlier backups. *)
Definition previous_of (m : Server) (d : bytes) : Prop :=
  (exists name, sv_Previous m !! name = Some d) \/
  (exists sn name, sn ∈ sv_Snapshots m /\ sn_Files sn !! name = Some d).

(** The store holds what the server says it knows, and what the indexes it may
    hand out as previous ones refer to. *)
Record store_ok (m : Server) : Prop := {
  st_known h : h ∈ sv_known m -> good m h;
  st_prev d h : previous_of m d -> h ∈ raw_digests d -> good m h }.

Lemma lastSnapshot_elem ns typ id before snaps sn : lastSnapshot ns typ id before snaps = Some sn -> sn ∈ snaps.
Proof.
  unfold lastSnapshot. assert (forall last, foldl (fun last s =>
    if decide (sn_ns s = ns /\ sn_typ s = typ /\ sn_id s = id /\ sn_time s < before /\
               match last with None => true | Some l => sn_time l <? sn_time s end = true)
    then Some s else last) last snaps = Some sn -> sn ∈ snaps \/ last = Some sn) as H.
  { induction snaps as [|x snaps IH]; intros last; cbn [foldl]; [by right|].
    intros Hf. apply IH in Hf as [Hf|Hf]; [by left; right|]. destruct (decide _); [|by right].
    injection Hf as ->. by left; left. }
  intros Hf. by apply H in Hf as [|].
Qed.

(** Whether a frame is encrypted shows in its magic. *)
Lemma frame_flag iv plain compress p b :
  srv_decodeBlob (srv_key crypt) (frame crypt iv plain compress) = Some (p, b) ->
  b = match crypt with Some cs => bool_decide (cs_mode cs = CryptModeEncrypt) | None => false end.
Proof.
  set (enc := match crypt with Some cs => _ | None => _ end).
  assert (exists magic rest, frame crypt iv plain compress = magic ++ rest /\
    (if enc then magic = blobEncryptedMagic \/ magic = blobEncryptedComprMagic
     else magic = blobUncompressedMagic \/ magic = blobCompressedMagic)) as (magic & rest & -> & Hm).
  { unfold frame, enc, Encode, encodeEncrypted, choose_payload. destruct crypt as [cs|]; [case_bool_decide as Hd; [rewrite decide_True by done|rewrite decide_False by done]|];
      (destruct compress; [destruct (decide (length (EncodeAll plain) < length plain)%nat)|]); eauto. }
  unfold srv_decodeBlob. destruct (_ <? 12); [done|].
  assert (length magic = 8%nat) as Hl by (destruct enc, Hm as [-> | ->]; done).
  rewrite (take_len_app magic) by done.
  fold blobEncryptedMagic blobEncryptedComprMagic blobUncompressedMagic blobCompressedMagic.
  destruct enc.
  - assert (bool_decide (magic = blobEncryptedMagic) || bool_decide (magic = blobEncryptedComprMagic) = true) as ->
      by (destruct Hm as [-> | ->]; done).
    destruct (srv_key crypt) as [[aead idk]|]; [|done]. destruct (_ <? 44); [done|]. destruct (negb _); [done|].
    destruct (Open _ _ _) as [payload|]; [|done]. cbn. destruct (bool_decide _); [destruct (DecodeAll payload); [|done]|]; by intros [= _ <-].
  - assert (bool_decide (magic = blobEncryptedMagic) || bool_decide (magic = blobEncryptedComprMagic) = false) as ->
      by (destruct Hm as [-> | ->]; done).
    destruct (negb _); [done|]. destruct (decide _); [by intros [= _ <-]|]. destruct (decide _); [|done].
    destruct (DecodeAll _); [|done]. cbn. by intros [= _ <-].
Qed.

Lemma chunk_stored iv d plain size m :
  store_ok m -> store_ok (post_dynamic_chunk (srv_key crypt) d (zlen (frame crypt iv plain true)) size (frame crypt iv plain true) m).2.
Proof.
  intros [H1 H2]. unfold post_dynamic_chunk. set (body := frame crypt iv plain true).
  destruct (srv_decodeBlob (srv_key crypt) body) as [[p b]|] eqn:Hdec; [|by constructor].
  destruct (negb _); [by constructor|]. destruct (negb _); [by constructor|]. cbv zeta.
  destruct (decide _) as [Hd|]; [|by constructor].
  apply frame_flag in Hdec as Hb.
  assert (decodeBlob body crypt = Ok p) as Hbody by (apply (srv_decodeBlob_agrees (srv_key crypt) crypt); [done|by eexists]).
  assert (EncodeToString (ChunkDigest crypt p) = d) as Hdig.
  { rewrite <- Hd. f_equal. unfold ChunkDigest, computeDigest, keyed_digest. subst b. unfold srv_key. destruct crypt as [cs|]; [|done].
    destruct (decide (cs_mode cs = CryptModeEncrypt)) as [Hm|Hm]; [by rewrite bool_decide_eq_true_2|by rewrite bool_decide_eq_false_2]. }
  set (m' := mkServer _ _ _ _ _ _ _ _ _ _).
  assert (forall h, h = d \/ good m h -> good m' h) as Hgood.
  { intros h Hh. destruct (decide (h = d)) as [->|Hne].
    - exists body, p. cbn. by rewrite lookup_insert_eq.
    - destruct Hh as [|(body' & p' & ? & ? & ?)]; [done|]. exists body', p'. cbn. by rewrite lookup_insert_ne. }
  constructor.
  - intros h. cbn. intros Hh. apply Hgood. set_solver.
  - intros d' h Hp Hh. apply Hgood. right. by eapply H2.
Qed.

Lemma step_store ev u s u' s' :
  step crypt ev u s = Some (u', s') -> store_ok (sh_server s) -> store_ok (sh_server s').
Proof.
  apply (step_server (fun m _ _ _ => store_ok m)).
  - intros name m se _ _ [H1 H2]. unfold get_previous.
    destruct (match sv_Previous m !! name with Some d => _ | None => _ end) as [d|] eqn:Hd; [|by constructor].
    constructor; [|done]. intros h. cbn. rewrite elem_of_union, elem_of_list_to_set. intros [Hh|Hh]; [|by apply H1].
    apply (H2 d); [|done]. destruct (sv_Previous m !! name) as [d'|] eqn:Hp.
    + injection Hd as <-. left. eauto.
    + destruct (lastSnapshot _ _ _ _ _) as [sn|] eqn:Hl; [|done]. cbn in Hd. right. exists sn, name. split; [|done].
      by eapply lastSnapshot_elem.
  - intros n _ _ Hs. unfold CreateDynamicIndex, call.
    assert (store_ok (post_dynamic_index (up_name u) (sh_server s) (sh_session s)).1.2) as Hp.
    { unfold post_dynamic_index. destruct (decide _); [done|]. destruct Hs. by constructor. }
    destruct n; cbn; [|done|]; destruct (post_dynamic_index _ _ _) as [[[] m] se]; done.
  - intros wid ds os m _ _ _ Hm. unfold put_dynamic_index. repeat case_match; try done; destruct Hm; by constructor.
  - intros wid csum size count m _ _ _ Hm. unfold post_dynamic_close. repeat case_match; try done; destruct Hm; by constructor.
  - intros iv d plain size m _ _ _ Hm. by apply chunk_stored.
Qed.

(* ------------------------------------------------------------------ *)
(** ** Index names *)

(** The names of the uploads that have yet to create their index. *)
Definition unstarted (us : list upload) : list bytes := us ≫= fun u => if creates u =? 1 then [up_name u] else [].
Definition index_name (m : Server) (wid : Z) : option bytes := ix_Name <$> sv_Indexes m !! wid.

(** The indexes and the manifest's files of a session belong to its uploads,
    one to each at most. *)
Record names_ok (names : list bytes) (us : list upload) (s : shared) : Prop := {
  na_files : (Filename <$> sh_files s) ++ unstarted us ⊆+ names;
  na_indexes : omap (index_name (sh_server s)) (se_wids (sh_session s)) ++ unstarted us ⊆+ names;
  na_wids w : w ∈ se_wids (sh_session s) -> w < sv_nextWID (sh_server s);
  na_owned w : is_Some (sh_byWID s !! w) -> w ∈ se_wids (sh_session s) }.

(** Steps that create no index leave all of it alone. *)
Lemma step_core ev u s u' s' :
  step crypt ev u s = Some (u', s') -> ((exists n, ev = EvCreate n) -> up_phase u <> PCreate) ->
  (forall w, index_name (sh_server s') w = index_name (sh_server s) w) /\
  sv_nextWID (sh_server s') = sv_nextWID (sh_server s) /\ sh_session s' = sh_session s /\
  Filename <$> sh_files s' = Filename <$> sh_files s /\ sh_byWID s' = sh_byWID s.
Proof.
  intros Hst Hno. revert Hst.
  set (P := fun (m : Server) (se : session) (fs : list bytes) (w : gmap Z nat) =>
    (forall k, index_name m k = index_name (sh_server s) k) /\ sv_nextWID m = sv_nextWID (sh_server s) /\
    se = sh_session s /\ fs = Filename <$> sh_files s /\ w = sh_byWID s).
  intros Hst. apply (step_server P ev u s u' s'); [..|exact Hst|by split_and!].
  - intros name m se fs w. unfold get_previous. by destruct (match sv_Previous m !! name with Some d => _ | None => _ end).
  - intros n -> Hph. by destruct (Hno (ex_intro _ n eq_refl)).
  - intros wid ds os m se fs w (H1 & H). unfold put_dynamic_index.
    destruct (negb _ || _ || _); [by split|]. destruct (sv_Indexes m !! wid) as [ix|] eqn:Hix; [|by split].
    destruct (ix_Closed ix); [by split|]. destruct (forallb _ _); [|by split]. split; [|done]. intros k. rewrite <- H1.
    unfold index_name. cbn. destruct (decide (k = wid)) as [->|]; [by rewrite lookup_insert_eq, Hix|by rewrite lookup_insert_ne].
  - intros wid csum size count m se fs w (H1 & H). unfold post_dynamic_close.
    destruct (sv_Indexes m !! wid) as [ix|] eqn:Hix; [|by split].
    destruct (ix_Closed ix); [by split|]. destruct (negb _); [by split|]. split; [|done]. intros k. rewrite <- H1.
    unfold index_name. cbn. destruct (decide (k = wid)) as [->|]; [by rewrite lookup_insert_eq, Hix|by rewrite lookup_insert_ne].
  - intros iv d plain size m se fs w H. unfold post_dynamic_chunk. repeat case_match; done.
Qed.

Lemma creates_1 u : creates u = 0 \/ creates u = 1.
Proof. unfold creates. destruct (up_phase u); auto. Qed.

Lemma unstarted_insert us i u u' :
  us !! i = Some u -> ident u' = ident u -> creates u' <= creates u ->
  unstarted (<[i := u']> us) ⊆+ unstarted us /\
  (creates u = 1 -> creates u' = 0 -> up_name u :: unstarted (<[i := u']> us) ≡ₚ unstarted us).
Proof.
  intros Hi [= Hn _] Hc. pose proof (bind_insert_perm (fun u => if creates u =? 1 then [up_name u] else []) us i u u' Hi) as H.
  fold (unstarted us) (unstarted (<[i := u']> us)) in H. cbn beta in H. rewrite Hn in H.
  destruct (creates_1 u) as [E|E], (creates_1 u') as [E'|E']; rewrite E, E' in *; try lia; cbn in H; rewrite ?app_nil_r in H.
  - split; [by rewrite H|lia].
  - split; [rewrite <- H; apply submseteq_inserts_r; reflexivity|]. intros _ _. rewrite <- H. apply Permutation_cons_append.
  - split; [|lia]. rewrite Permutation_app_comm in H. by rewrite (Permutation_app_inv_l [_] _ _ H).
Qed.

Lemma omap_eq {A B} (f g : A -> option B) (l : list A) : (forall x, x ∈ l -> f x = g x) -> omap f l = omap g l.
Proof.
  induction l as [|x l IH]; intros H; [done|]. cbn. rewrite (H x) by left. rewrite IH; [done|]. intros y Hy. apply H. by right.
Qed.

(** Creating an index uses up the name; a lost answer leaves an index on the
    server that no upload has. *)
Lemma create_names names us us' n name s :
  0 <= sv_nextWID (sh_server s) < 2 ^ 64 - 1 -> names_ok names us s ->
  unstarted us' ++ [name] ⊆+ unstarted us ->
  names_ok names us' (CreateDynamicIndex crypt n name s).2.
Proof.
  intros Hmax [N1 N2 N3 N4] Hus. set (w := sv_nextWID (sh_server s)) in *.
  assert (unstarted us' ⊆+ unstarted us) as Hus' by (etrans; [|exact Hus]; by apply submseteq_inserts_r).
  assert (forall l, l ++ unstarted us ⊆+ names -> (l ++ [name]) ++ unstarted us' ⊆+ names) as Huse.
  { intros l Hl. etrans; [|exact Hl]. rewrite <- app_assoc. apply submseteq_app; [done|]. by rewrite Permutation_app_comm. }
  assert (forall l, l ++ unstarted us ⊆+ names -> l ++ unstarted us' ⊆+ names) as Hkeep.
  { intros l Hl. etrans; [|exact Hl]. by apply submseteq_app. }
  unfold CreateDynamicIndex. set (h := fun p => _).
  assert (forall fs byw m se, (m, se) = (sh_server s, sh_session s) \/ (m, se) = (h (sh_server s, sh_session s)).2 ->
    (fs = sh_files s /\ byw = sh_byWID s \/
     fs = sh_files s ++ [mkFile name [] 0 (cryptLabel crypt)] /\ byw = <[w := length (sh_files s)]> (sh_byWID s) /\
       (m, se) = (h (sh_server s, sh_session s)).2 /\ name <> []) ->
    names_ok names us' (mkShared (sh_known s) fs byw m se (sh_sent s))) as Hall.
  { intros fs byw m se Hms Hfs. unfold h, post_dynamic_index in Hms, Hfs. cbn in Hms, Hfs. destruct (decide (name = [])) as [He|He].
    - assert ((m, se) = (sh_server s, sh_session s)) as [= -> ->] by (cbn in Hms; tauto).
      destruct Hfs as [[-> ->]|(_ & _ & _ & Hx)]; [|done]. constructor; cbn; auto.
    - destruct Hms as [[= -> ->]|[= -> ->]].
      + destruct Hfs as [[-> ->]|(_ & _ & [= _ Hx] & _)]; [constructor; cbn; auto|].
        exfalso. apply (f_equal (length ∘ se_wids)) in Hx. cbn in Hx. rewrite length_app in Hx. cbn in Hx. lia.
      + assert (forall k, k ∈ se_wids (sh_session s) ++ [w] -> k < u64 (w + 1)) as Hlt.
        { intros k. rewrite elem_of_app, list_elem_of_singleton, u64_small by (unfold is_u64; lia). intros [Hk| ->]; [|lia].
          specialize (N3 k Hk). unfold w in *. lia. }
        constructor; cbn; [| |exact Hlt|].
        * destruct Hfs as [[-> _]|(-> & _)]; [auto|]. rewrite fmap_app. by apply Huse.
        * fold w. rewrite omap_app. set (m' := mkServer _ _ _ _ _ _ _ _ _ _).
          assert (omap (index_name m') [w] = [name]) as -> by (cbn; unfold index_name; cbn; by rewrite lookup_insert_eq).
          apply Huse.
          rewrite (omap_eq _ (index_name (sh_server s))); [done|]. intros k Hk. unfold index_name, m'. cbn.
          rewrite lookup_insert_ne; [done|]. specialize (N3 k Hk). unfold w in *. lia.
        * intros k Hk. rewrite elem_of_app, list_elem_of_singleton. destruct Hfs as [[_ ->]|(_ & -> & _)]; [auto|].
          destruct (decide (k = w)) as [->|]; [auto|]. rewrite lookup_insert_ne in Hk by done. auto. }
  assert (forall r, call n h (sh_server s, sh_session s) = r ->
    (r.2.1, r.2.2) = (sh_server s, sh_session s) \/ (r.2.1, r.2.2) = (h (sh_server s, sh_session s)).2) as Hcall.
  { intros r <-. destruct n; cbn -[h]; [|by left|]; destruct (h _) as [a [m se]]; by right. }
  specialize (Hcall _ eq_refl). destruct (call n h _) as [[wid|e] [m se]] eqn:Hc; cbn in Hcall |- *; [|apply Hall; auto].
  apply Hall; [done|]. right. destruct n; cbn -[h] in Hc; [|done..].
  unfold h, post_dynamic_index in Hc |- *. cbn in Hc |- *. destruct (decide (name = [])); [done|]. by injection Hc as <- <- <-.
Qed.

Lemma sstep_names names i ev us s us' s' :
  sstep crypt i ev us s = Some (us', s') -> 0 <= sv_nextWID (sh_server s) -> sv_nextWID (sh_server s) + creates_all us < 2 ^ 64 ->
  names_ok names us s -> names_ok names us' s'.
Proof.
  unfold sstep. intros Hs H0 Hmax [N1 N2 N3 N4]. destruct (us !! i) as [u|] eqn:Hi; [|done]. cbn [mbind option_bind] in Hs.
  destruct (step crypt ev u s) as [[u' s1]|] eqn:Hst; [|done]. cbn in Hs. injection Hs as <- <-.
  destruct (step_name _ _ _ _ _ Hst) as (Hn & Hc & Hcr). destruct (unstarted_insert us i u u' Hi Hn Hc) as [Hsub Hperm].
  assert ((exists n, ev = EvCreate n) /\ up_phase u = PCreate \/ ((exists n, ev = EvCreate n) -> up_phase u <> PCreate)) as [[[n ->] Hph]|Hno].
  { destruct ev; try (right; by intros [? ?]). destruct (up_phase u); try (right; done). left. eauto. }
  - specialize (Hcr (ex_intro _ n eq_refl) Hph). assert (creates u = 1) as Hc1 by (unfold creates; by rewrite Hph).
    specialize (Hperm Hc1 Hcr). pose proof (creates_all_elem us i u Hi) as Hle.
    unfold step in Hst. cbn [step_collector] in Hst. rewrite Hph in Hst.
    assert (s1 = (CreateDynamicIndex crypt n (up_name u) s).2) as ->
      by (destruct (CreateDynamicIndex _ _ _ _) as [[] ?]; by injection Hst as _ <-).
    clear Hst. apply (create_names names us); [lia|by constructor|].
    rewrite <- Hperm. by rewrite Permutation_app_comm.
  - destruct (step_core _ _ _ _ _ Hst Hno) as (C1 & C2 & C3 & C4 & C5). constructor.
    + rewrite C4. etrans; [|exact N1]. by apply submseteq_app.
    + rewrite C3, (omap_eq _ (index_name (sh_server s))) by done. etrans; [|exact N2]. by apply submseteq_app.
    + rewrite C3, C2. exact N3.
    + rewrite C3, C5. exact N4.
Qed.

(* ------------------------------------------------------------------ *)
(** ** A session from its start *)

(** What the client passes to [uploadIndexStream]. *)
Record input := mkInput { i_name : bytes; i_Workers : nat; i_avg : Z; i_reader : reader }.
Definition begin (i : input) : upload := uploadIndexStream (i_name i) (i_Workers i) (i_avg i) (i_reader i).
Definition jobs_of (i : input) : list chunkJob := (produce (i_reader i) (i_avg i)).1.2.

(** A new session: nothing known, created or sent. *)
Definition new_session (ins : list input) (s : shared) : Prop :=
  session_start s /\ sh_files s = [] /\ se_wids (sh_session s) = [] /\
  sv_nextWID (sh_server s) + zlen ins < 2 ^ 64.

Lemma begin_workers i : exists n, up_workers (begin i) = replicate n WIdle.
Proof. unfold begin, uploadIndexStream. destruct (produce _ _) as [[]]. cbn. eauto. Qed.
Lemma begin_name i : ident (begin i) = (i_name i, (produce (i_reader i) (i_avg i)).2) /\ up_phase (begin i) = PPrevious.
Proof. unfold begin, uploadIndexStream. by destruct (produce _ _) as [[]]. Qed.

Lemma begin_all (f : worker -> list bytes) ins : f WIdle = [] -> (begin <$> ins) ≫= (fun u => up_workers u ≫= f) = [].
Proof.
  intros Hf. induction ins as [|i ins IH]; [done|]. rewrite fmap_cons, list_bind_cons, IH, app_nil_r.
  destruct (begin_workers i) as [n ->]. clear IH. induction n; [done|]. cbn. by rewrite Hf.
Qed.

Lemma new_session_ok ins s : new_session ins s -> session_ok crypt (jobs_of <$> ins) (begin <$> ins) s.
Proof.
  intros ((H1 & H2 & H3 & H4) & H5 & H6 & H7).
  assert (holders crypt (begin <$> ins) = []) as Hh by by apply begin_all.
  assert (senders crypt (begin <$> ins) = []) as Hse by by apply begin_all.
  assert (forall u, u ∈ begin <$> ins -> up_phase u = PPrevious) as Hph.
  { intros u Hu. apply list_elem_of_fmap in Hu as (i & -> & _). apply begin_name. }
  assert (creates_all (begin <$> ins) = zlen ins) as Hc.
  { clear -ZS. induction ins as [|i ins IH]; [done|]. rewrite fmap_cons, creates_all_cons, IH.
    unfold creates. rewrite (proj2 (begin_name i)). cbn. lia. }
  constructor.
  - constructor; by rewrite H2.
  - intros d. by rewrite H1.
  - constructor.
    + rewrite Hh. constructor.
    + intros d. rewrite Hh, H1, lookup_empty. split; [intros Hd; by apply elem_of_nil in Hd|done].
    + rewrite H3. constructor.
    + intros d. rewrite H3. intros _ Hd. by apply elem_of_nil in Hd.
    + intros d. rewrite H3. intros Hd. by apply elem_of_nil in Hd.
  - rewrite Hc. lia.
  - apply Forall2_fmap_2, Forall2_lookup. intros k. destruct (ins !! k) as [i|] eqn:Hi; constructor.
    apply start_upload, produce_numbered.
  - intros i j u v Hu _ _ Hl. apply list_elem_of_lookup_2, Hph in Hu. unfold live in Hl. by rewrite Hu in Hl.
Qed.

Lemma unstarted_begin ins : unstarted (begin <$> ins) = i_name <$> ins.
Proof.
  induction ins as [|i ins IH]; [done|]. unfold unstarted in *. rewrite !fmap_cons, list_bind_cons, IH.
  unfold creates. rewrite (proj2 (begin_name i)). destruct (begin_name i) as [[= H _] _]. cbn. by rewrite H.
Qed.

Lemma new_session_names ins s : new_session ins s -> names_ok (i_name <$> ins) (begin <$> ins) s.
Proof.
  intros ((H1 & H2 & H3 & H4) & H5 & H6 & H7). constructor; rewrite ?H2, ?H5, ?H6, ?unstarted_begin.
  - reflexivity.
  - reflexivity.
  - intros w Hw. by apply elem_of_nil in Hw.
  - intros w [? Hw]. by rewrite lookup_empty in Hw.
Qed.

Lemma srun_inv Js names evs us s us' s' :
  srun crypt evs us s = Some (us', s') -> session_ok crypt Js us s -> names_ok names us s ->
  session_ok crypt Js us' s' /\ names_ok names us' s' /\ (store_ok (sh_server s) -> store_ok (sh_server s')) /\ ident <$> us' = ident <$> us.
Proof.
  revert us s. induction evs as [|[i ev] evs IH]; intros us s; cbn [srun]; [by intros [= <- <-]|].
  intros Hr Hok Hn. destruct (sstep crypt i ev us s) as [[us1 s1]|] eqn:Hs; [|done]. cbn in Hr.
  assert (session_ok crypt Js us1 s1) as Hok1 by by eapply sstep_ok.
  assert (names_ok names us1 s1) as Hn1 by (eapply sstep_names; [exact Hs|apply Hok..|exact Hn]).
  unfold sstep in Hs. destruct (us !! i) as [u|] eqn:Hi; [|done]. cbn [mbind option_bind] in Hs.
  destruct (step crypt ev u s) as [[u' s2]|] eqn:Hst1; [|done]. cbn in Hs. injection Hs as <- <-.
  destruct (IH _ _ Hr Hok1 Hn1) as (I1 & I2 & I3 & I4). split_and!; try done; [intros Hst; apply I3; by eapply step_store|].
  rewrite I4, list_fmap_insert, (proj1 (step_name _ _ _ _ _ Hst1)). apply list_insert_id. by rewrite list_lookup_fmap, Hi.
Qed.

Lemma run_from_start ins s0 evs us s :
  new_session ins s0 -> srun crypt evs (begin <$> ins) s0 = Some (us, s) ->
  session_ok crypt (jobs_of <$> ins) us s /\ names_ok (i_name <$> ins) us s /\ (store_ok (sh_server s0) -> store_ok (sh_server s)) /\
  ident <$> us = ident <$> (begin <$> ins).
Proof.
  intros H0 Hr. eapply srun_inv; [exact Hr|by apply new_session_ok|by apply new_session_names].
Qed.

(** The state of a finished upload. *)
Lemma finished_upload ins us s i inp u :
  session_ok crypt (jobs_of <$> ins) us s -> ident <$> us = ident <$> (begin <$> ins) ->
  ins !! i = Some inp -> us !! i = Some u -> up_phase u = PDone None ->
  up_name u = i_name inp /\ closed crypt (jobs_of inp) u s /\
  laid 0 0 (jobs_of inp) /\ Forall job_nonempty (jobs_of inp) /\
  jobs_of inp ≫= job_tokens = stream_tokens (i_reader inp).
Proof.
  intros Hok Hid Hi Hu Hph.
  assert (ident u = ident (begin inp)) as Hue.
  { apply (f_equal (.!! i)) in Hid. rewrite !list_lookup_fmap, Hu, Hi in Hid. cbn in Hid. congruence. }
  rewrite (proj1 (begin_name inp)) in Hue. injection Hue as Hname Hend.
  destruct Hok as [_ _ _ _ He _]. rewrite Forall2_lookup in He. specialize (He i).
  rewrite list_lookup_fmap, Hi, Hu in He. inversion He as [? ? [_ _ Hc _]|]; subst.
  unfold coll_ok in Hc. rewrite Hph in Hc. split; [done|]. split; [done|].
  destruct Hc as [Hc _]. unfold jobs_of in *. destruct (produce (i_reader inp) (i_avg inp)) as [[framed js] e] eqn:Hp.
  cbn [fst snd] in *. apply (produce_tokens (i_reader inp) (i_avg inp) framed js). congruence.
Qed.

(* ------------------------------------------------------------------ *)
(** ** Reading a snapshot *)

(** A reader session that opens an index of a snapshot and downloads its
    chunks, one after the other. *)
Definition read_back (m : Server) (snap : Snapshot) (Manifest : list ManifestFile) (rs : session) (name : bytes) :
    result read_error indexReader :=
  let '(resp, rs') := get_download snap name rs in
  let entries :=
    match resp with
    | Ok (_, raw) => match ParseDynamicIndex raw with Ok es => es | Err _ => [] end
    | Err _ => []
    end in
  OpenDynamicIndex crypt (Ok Manifest) (fun n => (get_download snap n rs).1) name
    ((fun e => Some (serveChunk m rs' (EncodeToString (Digest e)))) <$> entries).

(** The content of a stream, given what its injected chunks hold. *)
Definition resolve (content : bytes -> bytes) (t : token) : bytes :=
  match t with TByte b => [b] | TChunk d _ => content d end.
Definition job_content (content : bytes -> bytes) (j : chunkJob) : bytes :=
  if j_known j then content (j_digest j) else j_data j.

Lemma mjoin_content content js : mjoin (job_content content <$> js) = (js ≫= job_tokens) ≫= resolve content.
Proof.
  induction js as [|j js IH]; [done|]. rewrite list_bind_cons, bind_app, <- IH. cbn. f_equal.
  unfold job_content, job_tokens. destruct (j_known j); [cbn; by rewrite app_nil_r|].
  induction (j_data j) as [|b d IHd]; [done|]. cbn. by rewrite <- IHd.
Qed.

Definition keyed : bool := bool_decide (cryptLabel crypt = CryptModeEncrypt).
Lemma chunk_digest_label p : chunk_digest crypt keyed p = ChunkDigest crypt p.
Proof.
  unfold keyed, chunk_digest, ChunkDigest, cryptLabel. destruct crypt as [cs|]; [|by destruct (bool_decide _)].
  by destruct (decide (cs_mode cs = CryptModeEncrypt)).
Qed.

Lemma index_records_bytes es : Forall entry_wf es -> index_records (length es) (index_bytes es) = es.
Proof.
  induction 1 as [|e es He _ IH]; [done|]. unfold index_bytes in *. rewrite list_bind_cons. cbn [length index_records].
  rewrite (drop_len_app (entry_bytes e) _ (Z.to_nat didxRecordSize)) by (by rewrite length_entry_bytes). rewrite IH.
  destruct He as [Hu Hd]. unfold entry_bytes. rewrite <- app_assoc, get64_le64, u64_small by done.
  rewrite (drop_len_app (le64 _) _ 8) by done. rewrite (take_len_app (Digest e)) by done. by destruct e.
Qed.

Lemma length_index_bytes es : Forall entry_wf es -> length (index_bytes es) = (40 * length es)%nat.
Proof.
  induction 1 as [|e es He _ IH]; [done|]. unfold index_bytes in *. rewrite list_bind_cons, length_app, length_entry_bytes by done.
  cbn [length]. lia.
Qed.

Lemma ParseDynamicIndex_app header records n :
  zlen header = didxHeaderSize -> take 8 header = didxMagic -> length records = (40 * n)%nat ->
  ParseDynamicIndex (header ++ records) = Ok (index_records n records).
Proof.
  intros Hh Hm Hr. unfold ParseDynamicIndex.
  assert (0 < didxHeaderSize /\ 8 < didxHeaderSize) as [Hp Hp8] by done.
  rewrite length_app, Nat2Z.inj_add, Hr, Hh. rewrite (proj2 (Z.ltb_ge _ _)) by lia.
  rewrite take_app_le by lia. rewrite decide_True by done.
  rewrite drop_len_app by lia. unfold didxRecordSize.
  replace (zlen records) with (Z.of_nat n * 40) by lia. by rewrite Z.mod_mul, Z.div_mul, Nat2Z.id.
Qed.

Lemma ParseDynamicIndex_bytes es :
  Forall entry_wf es -> ParseDynamicIndex (didxMagic ++ replicate 4088 nul ++ index_bytes es) = Ok es.
Proof.
  intros He. rewrite app_assoc, (ParseDynamicIndex_app _ _ (length es)).
  - by rewrite index_records_bytes.
  - by rewrite length_app, length_replicate.
  - by apply take_len_app.
  - by apply length_index_bytes.
Qed.

Lemma ascending_index_of k start xs : Forall (fun x => x <> []) xs -> ascending start (index_of crypt k start xs) = true.
Proof.
  intros H. revert start. induction H as [|x xs Hx _ IH]; intros start; [done|]. cbn [index_of ascending EndOffset].
  assert (length x <> 0%nat) by (by destruct x). rewrite (proj2 (Z.leb_gt _ _)) by lia. apply IH.
Qed.

(** The jobs of a stream are the index of their contents. *)
Lemma jobs_index content js n off :
  laid n off js -> Forall (fun j => job_size j = zlen (job_content content j) /\
                                    job_digest crypt j = ChunkDigest crypt (job_content content j)) js ->
  0 <= off -> off + zlen (mjoin (job_content content <$> js)) < 2 ^ 64 ->
  let es := index_of crypt keyed off (job_content content <$> js) in
  job_entry crypt <$> js = es /\
  index_file (job_hex crypt <$> js) (j_offset <$> js) (off + zlen (mjoin (job_content content <$> js))) = index_bytes es /\
  (js <> [] -> jobs_end crypt js = off + zlen (mjoin (job_content content <$> js))).
Proof.
  intros Hl Hj. revert n off Hl. induction Hj as [|j js [Hs Hd] Hj IH]; intros n off Hl H0 Hlen es; [done|].
  unfold es in *. clear es. cbn [laid] in Hl. destruct Hl as (_ & Ho & Hl). rewrite fmap_cons in Hlen.
  change (mjoin (job_content content j :: (job_content content <$> js)))
    with (job_content content j ++ mjoin (job_content content <$> js)) in *.
  rewrite length_app in Hlen. specialize (IH (S n) (u64 (off + job_size j)) Hl).
  rewrite u64_small in IH by (unfold is_u64; lia). rewrite Hs in IH. destruct (IH ltac:(lia) ltac:(lia)) as (I1 & I2 & I3). clear IH.
  rewrite !fmap_cons. cbn [index_of index_file tail].
  change (mjoin (job_content content j :: (job_content content <$> js)))
    with (job_content content j ++ mjoin (job_content content <$> js)).
  rewrite length_app, Nat2Z.inj_add, Z.add_assoc. split_and!.
  - f_equal; [|exact I1]. unfold job_entry. rewrite Ho, Hs, u64_small by (unfold is_u64; lia). by rewrite Hd, chunk_digest_label.
  - unfold index_bytes. rewrite list_bind_cons. fold (index_bytes (index_of crypt keyed (off + zlen (job_content content j)) (job_content content <$> js))).
    rewrite <- I2. unfold entry_bytes. cbn [EndOffset Digest]. rewrite <- app_assoc. f_equal.
    + f_equal. destruct js as [|j' js']; [cbn; lia|]. cbn. destruct Hl as (_ & -> & _). rewrite Hs. apply u64_small. unfold is_u64. lia.
    + f_equal. unfold job_hex. rewrite DecodeString_EncodeToString. cbn. by rewrite Hd, chunk_digest_label.
  - intros _. unfold jobs_end. destruct js as [|j' js'].
    + cbn. rewrite Ho, Hs, u64_small by (unfold is_u64; lia). lia.
    + rewrite <- I3 by done. done.
Qed.

(* ------------------------------------------------------------------ *)
(** ** The snapshot a session leaves *)

Lemma commit_indexes_file ixs wids files sizes files' sizes' :
  commit_indexes ixs wids files sizes = Some (files', sizes') ->
  NoDup (omap (fun w => ix_Name <$> ixs !! w) wids) ->
  (forall w ix, w ∈ wids -> ixs !! w = Some ix -> files' !! ix_Name ix = Some (committed_index ix)) /\
  (forall name, name ∉ omap (fun w => ix_Name <$> ixs !! w) wids -> files' !! name = files !! name).
Proof.
  revert files sizes. induction wids as [|wid wids IH]; intros files sizes; cbn [commit_indexes].
  { intros [= <- <-] _. split; [|done]. intros w ix Hw. by apply elem_of_nil in Hw. }
  destruct (ixs !! wid) as [ix0|] eqn:Hix; [|done]. cbn [mbind option_bind]. destruct (ix_Closed ix0); [|done].
  intros Hc. cbn. rewrite Hix. cbn. intros Hnd. apply NoDup_cons in Hnd as [Hno Hnd].
  destruct (IH _ _ Hc Hnd) as [I1 I2]. split.
  - intros w ix Hw Hx. apply elem_of_cons in Hw as [->|Hw]; [|by eapply I1].
    rewrite Hix in Hx. injection Hx as ->. rewrite I2 by done. apply lookup_insert_eq.
  - intros name Hn. apply not_elem_of_cons in Hn as [Hne Hn]. rewrite I2 by done. by rewrite lookup_insert_ne.
Qed.

Lemma findSnapshot_app ns typ id time snaps sn :
  findSnapshot ns typ id time snaps = None -> sn_ns sn = ns -> sn_typ sn = typ -> sn_id sn = id -> sn_time sn = time ->
  findSnapshot ns typ id time (snaps ++ [sn]) = Some sn.
Proof.
  unfold findSnapshot. intros Hn <- <- <- <-. destruct (list_find _ snaps) as [[k x]|] eqn:Hf; [done|].
  rewrite list_find_app_r by done. cbn. by rewrite decide_True.
Qed.

Lemma commit_spec m se m' :
  commit m se = (Ok (), m') -> NoDup (omap (index_name m) (se_wids se)) ->
  exists snap, findSnapshot (se_ns se) (se_typ se) (se_id se) (se_time se) (sv_Snapshots m') = Some snap /\
    sv_ChunksEncoded m' = sv_ChunksEncoded m /\
    forall w ix, w ∈ se_wids se -> sv_Indexes m !! w = Some ix -> sn_Files snap !! ix_Name ix = Some (committed_index ix).
Proof.
  unfold commit. destruct (commit_indexes _ _ _ _) as [[files sizes]|] eqn:Hc; [|done].
  destruct (decide _) as [Hf|]; [|done]. intros [= <-] Hnd. eexists. split; [by apply findSnapshot_app|]. split; [done|].
  by eapply commit_indexes_file.
Qed.

Lemma manifest_file_elem files i f : NoDup (Filename <$> files) -> files !! i = Some f -> manifest_file files (Filename f) = Some f.
Proof.
  revert i. induction files as [|g files IH]; intros [|i] Hnd; [done..|cbn; intros [= ->]; by rewrite decide_True|].
  cbn. intros Hi. apply NoDup_cons in Hnd as [Hno Hnd]. rewrite decide_False; [by eapply IH|]. intros He. apply Hno. cbn.
  rewrite He. apply list_elem_of_fmap. exists f. split; [done|]. by eapply list_elem_of_lookup_2.
Qed.

(** What is known of the chunks of a finished upload when they are read. *)
Lemma jobs_stored content J u s toks :
  closed crypt J u s -> store_ok (sh_server s) -> J ≫= job_tokens = toks ->
  (forall d n, TChunk d n ∈ toks -> zlen (content d) = n) ->
  (forall h body p j, sv_ChunksEncoded (sh_server s) !! h = Some body -> decodeBlob body crypt = Ok p -> j ∈ J ->
    ChunkDigest crypt p = job_digest crypt j -> p = job_content content j) ->
  Forall (fun j => job_size j = zlen (job_content content j) /\ job_digest crypt j = ChunkDigest crypt (job_content content j) /\
    exists body, sv_ChunksEncoded (sh_server s) !! job_hex crypt j = Some body /\ decodeBlob body crypt = Ok (job_content content j)) J.
Proof.
  intros (_ & _ & _ & _ & Hhas & _) [Hst _] Ht Hsz Hcol. apply Forall_forall. intros j Hj.
  rewrite Forall_forall in Hhas. destruct (Hst _ (Hhas j Hj)) as (body & p & Hb & Hp & Hd).
  apply EncodeToString_inj in Hd. assert (p = job_content content j) as -> by by eapply Hcol. split_and!; [|done|by exists body].
  unfold job_size, job_content. destruct (j_known j) eqn:Hk; [|done]. symmetry. apply Hsz. rewrite <- Ht.
  apply list_elem_of_bind. exists j. split; [|done]. unfold job_tokens. rewrite Hk. by left.
Qed.

(** A snapshot that has the index and a server that has the chunks give the
    content back. *)
Lemma read_back_served m snap files rs name xs ns :
  let es := index_of crypt keyed 0 xs in
  lit ".didx" `suffix_of` name ->
  sn_Files snap !! name = Some (didxMagic ++ replicate 4088 nul ++ index_bytes es) ->
  manifest_file files name = Some (mkFile name (EncodeToString (index_csum es)) (zlen (mjoin xs)) (cryptLabel crypt)) ->
  zlen (mjoin xs) < 2 ^ 64 -> Forall (fun x => x <> []) xs ->
  Forall (fun x => exists body, sv_ChunksEncoded m !! EncodeToString (ChunkDigest crypt x) = Some body /\ decodeBlob body crypt = Ok x) xs ->
  Forall (lt 0) ns -> (length (mjoin xs) < length ns)%nat ->
  exists ir ir', read_back m snap files rs name = Ok ir /\ Reads ns ir = (ir', mjoin xs) /\ ir_err ir' = Some EOF.
Proof.
  intros es Hsuf Hfile Hman Hlen Hne Hsrv Hns Hn. pose proof (index_of_wf crypt keyed 0 xs) as Hwf.
  assert (Forall entry_wf es) as Hes by (apply Hwf; lia). pose proof (ParseDynamicIndex_bytes es Hes) as Hparse.
  remember (didxMagic ++ replicate 4088 nul ++ index_bytes es) as raw eqn:Hraw. clear Hraw.
  unfold read_back. destruct (get_download snap name rs) as [resp rs'] eqn:Hd.
  pose proof Hd as Hd'. unfold get_download in Hd'. rewrite Hfile, decide_True in Hd' by done. injection Hd' as <- Hrs.
  cbv beta iota. rewrite Hparse. set (srv := fun n => (get_download snap n rs).1).
  assert (loadIndex crypt (Ok files) srv name =
    Ok (mkFile name (EncodeToString (index_csum es)) (zlen (mjoin xs)) (cryptLabel crypt), es, keyed)) as Hload.
  { unfold loadIndex, manifestFile. rewrite decide_True by done. cbn [mbind result_bind]. rewrite Hman. cbn [mbind result_bind CryptLabel Filename Csum].
    fold keyed. assert (keyed && bool_decide (crypt = None) = false) as -> 
      by (unfold keyed, cryptLabel; destruct crypt as [cs|]; [rewrite (bool_decide_eq_false_2 (Some cs = None)) by done; apply andb_false_r|done]).
    unfold srv at 1. rewrite Hd. cbn [fst]. unfold download. rewrite Z.eqb_refl. cbn [mbind result_bind]. rewrite Hparse.
    unfold es at 1. rewrite ascending_index_of by done. cbn [negb]. by rewrite decide_True. }
  eapply (stream_complete crypt (Ok files) srv name _ _ keyed xs ns Hload); try done.
  unfold served. assert (forall e, e ∈ es -> EncodeToString (Digest e) ∈ se_allowed rs') as Hall.
  { intros e He. rewrite <- Hrs. cbn. apply elem_of_union_l, elem_of_list_to_set. by eapply parse_digests. }
  apply Forall2_fmap_r. clear Hload Hparse Hes Hwf Hfile Hman Hlen Hns Hn Hd. unfold es in *. clear es. revert Hall. generalize 0 at 1 2.
  induction Hsrv as [|x xs (body & Hb & Hx) Hsrv IH]; intros start Hall; constructor.
  - exists body. split; [|done]. unfold serveChunk. rewrite decide_True by (apply Hall; by left). cbn [Digest].
    by rewrite chunk_digest_label, Hb.
  - apply IH; [by apply Forall_cons in Hne as [_ ?]|]. intros e He. apply Hall. by right.
Qed.

(* ------------------------------------------------------------------ *)
(** ** Properties *)

(** C15: However the uploads of a session interleave and whatever requests fail,
    an upload that reports success has produced jobs without gaps that spell
    its stream, and has left exactly those, in stream order, in a closed index
    on the server and in the manifest's file: digests, offsets, count, size and
    checksum; every chunk it refers to is known to the server. *)
Theorem upload_closed ins s0 evs us s i inp u :
  new_session ins s0 -> srun crypt evs (begin <$> ins) s0 = Some (us, s) ->
  ins !! i = Some inp -> us !! i = Some u -> up_phase u = PDone None ->
  up_name u = i_name inp /\ closed crypt (jobs_of inp) u s /\
  laid 0 0 (jobs_of inp) /\ Forall job_nonempty (jobs_of inp) /\
  jobs_of inp ≫= job_tokens = stream_tokens (i_reader inp).
Proof.
  intros H0 Hr Hi Hu Hph. destruct (run_from_start ins s0 evs us s H0 Hr) as (Hok & _ & _ & Hid).
  by eapply finished_upload.
Qed.

(** C23: In every state of a session no digest was sent to the server twice, by
    all its uploads together, and at most one worker holds a digest that is in
    flight; a digest is in flight exactly while a worker holds it. *)
Theorem upload_once ins s0 evs us s :
  new_session ins s0 -> srun crypt evs (begin <$> ins) s0 = Some (us, s) ->
  NoDup (sh_sent s) /\ NoDup (holders crypt us) /\
  (forall d, d ∈ holders crypt us <-> sh_known s !! d = Some InFlight) /\
  (forall d, d ∈ sh_sent s -> (d ∉ senders crypt us) /\ sh_known s !! d <> None).
Proof.
  intros H0 Hr. destruct (run_from_start ins s0 evs us s H0 Hr) as ([_ _ [C1 C2 C3 C4 C5] _ _ _] & _ & _ & _).
  split_and!; try done. intros d Hd. split; [|by apply C5]. intros Hs. by apply (C4 d).
Qed.

(** C2: A backup can be read back.  After any session whose uploads have
    distinct names and that the server commits, the index of an upload that
    reported success is in the snapshot, and a reader session with the same key
    that streams it receives the bytes of the stream, each injected chunk
    replaced by its content, then [io.EOF]; chunks may have come from this
    upload, from another one, or from an earlier backup.  Assumed: the store is
    sound at the start, who injected a chunk told its size, and SHA-256 did not
    collide on what the store holds. *)
Theorem backup_restored ins s0 evs us s m i inp u content rs ns :
  new_session ins s0 -> store_ok (sh_server s0) -> NoDup (i_name <$> ins) ->
  srun crypt evs (begin <$> ins) s0 = Some (us, s) ->
  ins !! i = Some inp -> us !! i = Some u -> up_phase u = PDone None -> lit ".didx" `suffix_of` i_name inp ->
  commit (sh_server s) (sh_session s) = (Ok (), m) ->
  let toks := stream_tokens (i_reader inp) in
  let bytes := toks ≫= resolve content in
  (forall d n, TChunk d n ∈ toks -> zlen (content d) = n) ->
  (forall h body p j, sv_ChunksEncoded (sh_server s) !! h = Some body -> decodeBlob body crypt = Ok p -> j ∈ jobs_of inp ->
    ChunkDigest crypt p = job_digest crypt j -> p = job_content content j) ->
  zlen bytes < 2 ^ 64 -> Forall (lt 0) ns -> (length bytes < length ns)%nat ->
  exists snap ir ir',
    findSnapshot (se_ns (sh_session s)) (se_typ (sh_session s)) (se_id (sh_session s)) (se_time (sh_session s)) (sv_Snapshots m) = Some snap /\
    read_back m snap (sh_files s) rs (i_name inp) = Ok ir /\ Reads ns ir = (ir', bytes) /\ ir_err ir' = Some EOF.
Proof.
  intros H0 Hst0 Hnd Hr Hi Hu Hph Hsuf Hcommit toks bytes Hsz Hcol Hlen Hns Hn.
  destruct (run_from_start ins s0 evs us s H0 Hr) as (Hok & [N1 N2 _ N4] & Hst & Hid). specialize (Hst Hst0).
  destruct (finished_upload ins us s i inp u Hok Hid Hi Hu Hph) as (Hname & Hcl & Hlaid & Hne & Htoks).
  assert (forall l, l ++ unstarted us ⊆+ i_name <$> ins -> NoDup l) as Hdist.
  { intros l Hl. apply submseteq_Permutation in Hl as [k Hk]. rewrite Hk in Hnd. apply NoDup_app in Hnd as [Hnd _].
    by apply NoDup_app in Hnd as [Hnd _]. }
  pose proof (jobs_stored content (jobs_of inp) u s toks Hcl Hst Htoks Hsz Hcol) as Hjobs.
  assert (mjoin (job_content content <$> jobs_of inp) = bytes) as Hb by (by rewrite mjoin_content, Htoks).
  destruct (commit_spec _ _ _ Hcommit (Hdist _ N2)) as (snap & Hfind & Henc & Hfiles). exists snap.
  set (J := jobs_of inp) in *. set (xs := job_content content <$> J) in *.
  destruct (jobs_index content J 0 0 Hlaid) as (I1 & I2 & I3); [|lia|fold xs; rewrite Hb; lia|].
  { eapply Forall_impl; [exact Hjobs|]. intros j (? & ? & _). by split. }
  fold xs in I1, I2, I3. rewrite Hb in I2, I3. rewrite Z.add_0_l in I2, I3.
  assert (jobs_end crypt J = zlen bytes) as Hend.
  { destruct (decide (J = [])) as [HJ|HJ]; [|by apply I3]. rewrite <- Hb. unfold xs. by rewrite HJ. }
  destruct Hcl as (_ & _ & _ & _ & _ & Hix & k & Hwid & Hman). rewrite Hend, Hname in *.
  destruct (read_back_served m snap (sh_files s) rs (i_name inp) xs ns) as (ir & ir' & R1 & R2 & R3); rewrite ?Hb; try done.
  - pose proof (Hfiles (up_wid u) _ (N4 _ (ex_intro _ k Hwid)) Hix) as Hf. cbn [ix_Name] in Hf. rewrite Hf.
    unfold committed_index. cbn [ix_Digests ix_Offsets ix_Size]. fold (job_hex crypt <$> J). by rewrite I2.
  - rewrite <- I1. rewrite <- (manifest_file_elem (sh_files s) k _ (Hdist _ N1) Hman). done.
  - unfold xs. rewrite Forall_fmap. clear -Hne Hjobs. induction Hjobs as [|j js (H1 & _) _ IH]; [constructor|].
    apply Forall_cons in Hne as [Hj Hne]. constructor; [|by apply IH]. cbn. intros He. apply Hj. by rewrite H1, He.
  - unfold xs. rewrite Forall_fmap. eapply Forall_impl; [exact Hjobs|]. intros j (_ & Hd & body & Hb1 & Hb2). cbn.
    exists body. rewrite Henc. split; [|done]. by rewrite <- Hd.
  - rewrite Hb in *. by exists ir, ir'.
Qed.
End store.

(* ------------------------------------------------------------------ *)
(** ** Witnesses *)

(** Two uploads of one worker each: plain data, and a framed stream that
    injects the chunk the other one is uploading. *)
Definition toy_data : bytes := lit "hello world".
Definition toy_framed : bytes :=
  (fw_w (fw_calls [Injected [mkChunk (Sum256 toy_data) 11]; Data (lit " again")] (NewWriter [])).2).
Definition toy_ins : list input :=
  [mkInput (lit "a.didx") 1 256 [(toy_data, Some Io.EOF)]; mkInput (lit "b.didx") 1 256 [(toy_framed, Some Io.EOF)]].
Definition toy_s0 : shared :=
  mkShared ∅ [] ∅ (mkServer ∅ ∅ ∅ ∅ ∅ false ∅ [] 1 ∅) (mkSession [] (lit "host") (lit "h") 1000 [] ∅ ∅) [].
Definition toy_evs : list (nat * event) :=
  ((fun e => (0%nat, e)) <$> [EvPrevious NetOk; EvCreate NetOk; EvEmit; EvTake 0; EvClaim 0]) ++
  ((fun e => (1%nat, e)) <$> [EvPrevious NetOk; EvCreate NetOk; EvEmit; EvTake 0; EvClaim 0]) ++
  ((fun e => (0%nat, e)) <$> [EvUpload 0 NetOk []; EvComplete 0]) ++
  ((fun e => (1%nat, e)) <$> [EvWait 0; EvSend 0; EvCollect; EvNext NetOk; EvNext NetOk; EvEmit; EvTake 0; EvClaim 0;
     EvUpload 0 NetOk []; EvComplete 0; EvSend 0; EvProduced; EvExit 0; EvCollect; EvNext NetOk; EvNext NetOk; EvEnd;
     EvFlush NetOk; EvClose NetOk]) ++
  ((fun e => (0%nat, e)) <$> [EvSend 0; EvProduced; EvExit 0; EvCollect; EvNext NetOk; EvNext NetOk; EvEnd;
     EvFlush NetOk; EvClose NetOk]).
Definition toy_end : list upload * shared :=
  default ([], toy_s0) (srun (ZS := toy_zstd) None toy_evs (begin <$> toy_ins) toy_s0).
Definition toy_us : list upload := toy_end.1.
Definition toy_s : shared := toy_end.2.
Definition toy_m : Server := (commit (sh_server toy_s) (sh_session toy_s)).2.

Lemma toy_run : srun (ZS := toy_zstd) None toy_evs (begin <$> toy_ins) toy_s0 = Some (toy_us, toy_s).
Proof.
  assert (match srun (ZS := toy_zstd) None toy_evs (begin <$> toy_ins) toy_s0 with Some _ => true | None => false end = true) as H
    by (vm_compute; reflexivity).
  unfold toy_us, toy_s, toy_end. revert H. generalize (srun (ZS := toy_zstd) None toy_evs (begin <$> toy_ins) toy_s0).
  by intros [[us s]|].
Qed.
Lemma toy_new : new_session toy_ins toy_s0.
Proof. unfold new_session, session_start. by split_and!. Qed.
Lemma toy_store : store_ok (ZS := toy_zstd) None (sh_server toy_s0).
Proof.
  constructor; [done|]. intros d h [[name Hn]|(sn & name & Hs & _)]; [done|by apply elem_of_nil in Hs].
Qed.

Definition toy_inp : input := mkInput (lit "b.didx") 1 256 [(toy_framed, Some Io.EOF)].
Definition toy_u : upload := nth 1 toy_us (begin toy_inp).
Lemma toy_done : toy_us !! 1%nat = Some toy_u /\ up_phase toy_u = PDone None.
Proof.
  split; [|vm_compute; reflexivity]. assert (length toy_us = 2%nat) as H by (vm_compute; reflexivity).
  unfold toy_u. revert H. generalize toy_us. by intros [|u1 [|u2 [|]]].
Qed.
Lemma toy_committed : commit (sh_server toy_s) (sh_session toy_s) = (Ok (), toy_m).
Proof.
  assert (match (commit (sh_server toy_s) (sh_session toy_s)).1 with Ok _ => true | Err _ => false end = true) as H
    by (vm_compute; reflexivity).
  unfold toy_m. revert H. generalize (commit (sh_server toy_s) (sh_session toy_s)). by intros [[[]|] m].
Qed.

Definition toy_content (d : bytes) : bytes := toy_data.
Lemma toy_sizes d n : TChunk d n ∈ stream_tokens (i_reader toy_inp) -> zlen (toy_content d) = n.
Proof.
  assert (Forall (fun t => match t with TChunk d n => zlen (toy_content d) = n | TByte _ => True end) (stream_tokens (i_reader toy_inp))) as H.
  { assert (stream_tokens (i_reader toy_inp) = TChunk (Sum256 toy_data) 11 :: (TByte <$> lit " again")) as -> by (vm_compute; reflexivity).
    constructor; [done|]. apply Forall_fmap, Forall_true. done. }
  rewrite Forall_forall in H. intros Hd. exact (H _ Hd).
Qed.

(** The store of the run, checked against the jobs. *)
Definition toy_check : bool :=
  forallb (fun '(_, body) =>
    match decodeBlob (ZS := toy_zstd) body None with
    | Ok p => forallb (fun j => negb (bool_decide (ChunkDigest None p = job_digest None j)) || bool_decide (p = job_content toy_content j))
                (jobs_of toy_inp)
    | Err _ => true
    end) (map_to_list (sv_ChunksEncoded (sh_server toy_s))).
Lemma toy_no_collision h body p j :
  sv_ChunksEncoded (sh_server toy_s) !! h = Some body -> decodeBlob (ZS := toy_zstd) body None = Ok p -> j ∈ jobs_of toy_inp ->
  ChunkDigest None p = job_digest None j -> p = job_content toy_content j.
Proof.
  intros Hb Hp Hj Hd. assert (toy_check = true) as H by (vm_compute; reflexivity). unfold toy_check in H.
  rewrite forallb_forall in H. specialize (H (h, body)). cbv beta iota in H. rewrite Hp in H.
  rewrite forallb_forall in H. specialize (H (proj1 (list_elem_of_In _ _) (proj2 (elem_of_map_to_list _ _ _) Hb)) j (proj1 (list_elem_of_In _ _) Hj)).
  apply orb_true_iff in H as [H|H].
  - apply negb_true_iff, bool_decide_eq_false in H. exact (False_ind _ (H Hd)).
  - apply bool_decide_eq_true in H. exact H.
Qed.

Lemma upload_closed_witness : up_name toy_u = lit "b.didx" /\ closed None (jobs_of toy_inp) toy_u toy_s.
Proof.
  assert (toy_ins !! 1%nat = Some toy_inp) as Hi by reflexivity.
  destruct (upload_closed (ZS := toy_zstd) None toy_ins toy_s0 toy_evs toy_us toy_s 1 toy_inp toy_u
    toy_new toy_run Hi (proj1 toy_done) (proj2 toy_done)) as (H1 & H2 & _).
  exact (conj H1 H2).
Defined.

Lemma upload_once_witness : length (sh_sent toy_s) = 2%nat /\ NoDup (sh_sent toy_s).
Proof.
  split; [vm_compute; reflexivity|].
  exact (proj1 (upload_once (ZS := toy_zstd) None toy_ins toy_s0 toy_evs toy_us toy_s toy_new toy_run)).
Defined.

Lemma backup_restored_witness :
  exists snap ir ir',
    read_back (ZS := toy_zstd) None toy_m snap (sh_files toy_s) (sh_session toy_s0) (lit "b.didx") = Ok ir /\
    Reads (replicate 18 4%nat) ir = (ir', lit "hello world again") /\ ir_err ir' = Some EOF.
Proof.
  assert (toy_ins !! 1%nat = Some toy_inp) as Hi by reflexivity.
  assert (stream_tokens (i_reader toy_inp) ≫= resolve toy_content = lit "hello world again") as Hb by (vm_compute; reflexivity).
  assert (NoDup (i_name <$> toy_ins)) as Hnd.
  { apply (bool_decide_unpack (NoDup (i_name <$> toy_ins))). vm_compute. exact I. }
  assert (lit ".didx" `suffix_of` i_name toy_inp) as Hs
    by (apply (bool_decide_unpack (lit ".didx" `suffix_of` i_name toy_inp)); vm_compute; exact I).
  pose proof (backup_restored (ZS := toy_zstd) None toy_ins toy_s0 toy_evs toy_us toy_s toy_m 1 toy_inp toy_u toy_content
    (sh_session toy_s0) (replicate 18 4%nat) toy_new toy_store Hnd toy_run Hi (proj1 toy_done) (proj2 toy_done) Hs
    toy_committed toy_sizes toy_no_collision) as H.
  cbv zeta in H. rewrite Hb in H. destruct H as (snap & ir & ir' & _ & H1 & H2 & H3).
  - by vm_compute.
  - apply Forall_replicate. lia.
  - cbn. lia.
  - exists snap, ir, ir'. exact (conj H1 (conj H2 H3)).
Defined.
