(* ===== verification/UploadLive.v ===== *)
(** * Index uploads: they end

    No state of a session is a deadlock, although a worker waits for an upload
    that a worker of any other stream may have under way, and no session goes
    on for ever: every step but a cancellation brings an upload nearer to its
    end.  Together: whatever the order of events, all uploads finish. *)

From S2P Require Import Prelude Io Reuse Hash Blob Index Server Upload UploadSpec UploadJobs UploadRead.
Local Open Scope Z_scope.

Definition is_cancel (ev : event) : bool := match ev with EvCancel => true | _ => false end.

(* ------------------------------------------------------------------ *)
(** ** The work left *)

Definition worker_work (w : worker) : nat :=
  match w with
  | WExit => 0 | WIdle => 1 | WSend _ => 6 | WUploaded _ _ => 7 | WUpload _ | WWait _ => 8 | WJob _ => 9
  end.
Definition phase_work (p : phase) : nat :=
  match p with
  | PDone _ => 0 | PClose => 1 | PFlush => 2 | PRecv => 3 | PLoop => 4 | PCreate => 4 | PPrevious => 5
  end.
Definition workers_work (ws : list worker) : nat := sum_list_with worker_work ws.
Definition work (u : upload) : nat :=
  phase_work (up_phase u) + 10 * length (up_todo u) + 9 * length (up_jobs u) + workers_work (up_workers u) +
  4 * length (up_dones u) + 2 * size (up_pending u) + (match up_prodErr u with None => 1 | Some _ => 0 end).

Lemma works_sum_insert {A} (f : A -> nat) (l : list A) k x y :
  l !! k = Some x -> (sum_list_with f (<[k := y]> l) + f x = sum_list_with f l + f y)%nat.
Proof.
  intros Hk. rewrite <- (take_drop_middle l k x Hk) at 2. rewrite (insert_take_drop l k y) by (by eapply lookup_lt_Some).
  rewrite !sum_list_with_app. cbn. lia.
Qed.
Lemma workers_work_insert ws k w w' :
  ws !! k = Some w -> (workers_work (<[k := w']> ws) + worker_work w = workers_work ws + worker_work w')%nat.
Proof. apply works_sum_insert. Qed.

#[local] Arguments Nat.mul : simpl never.
#[local] Arguments size {_ _} _ : simpl never.
#[local] Arguments workers_work : simpl never.

Section live.
Context {ZS : Zstd}.
Variable crypt : option cryptState.

Lemma flush_work n u s e u' s' : flush n u s = (e, u', s') -> work u' = work u /\ up_phase u' = up_phase u.
Proof.
  unfold flush. destruct (up_digests u); [by intros [= <- <- <-]|].
  destruct (AppendDynamicIndex _ _ _ _ _) as [[|] ?]; by intros [= <- <- <-].
Qed.

Lemma take_done_work cur u :
  up_pending u !! up_next u = Some cur -> (work (take_done cur u) < work u)%nat /\ up_phase (take_done cur u) = up_phase u.
Proof.
  intros Hp. split; [|done]. unfold work. cbn. rewrite map_size_delete, Hp.
  assert (size (up_pending u) <> 0%nat); [|lia]. intros H0. apply map_size_empty_inv in H0. by rewrite H0 in Hp.
Qed.

Lemma set_phase_work p u : (work (set_phase p u) + phase_work (up_phase u) = work u + phase_work p)%nat.
Proof. unfold work. cbn. lia. Qed.

Lemma step_work ev u s u' s' : step crypt ev u s = Some (u', s') -> is_cancel ev = false -> (work u' < work u)%nat.
Proof.
  unfold step. destruct (step_collector crypt ev u s) as [[u1 s1]|] eqn:Hc.
  - intros [= <- <-] He. destruct ev; try done; cbn [step_collector] in Hc; destruct (up_phase u) eqn:Hph; try done.
    + destruct (DownloadPrevious _ _ _) as [[] s2]; injection Hc as <- <-; unfold work; cbn; rewrite Hph; cbn; lia.
    + destruct (CreateDynamicIndex _ _ _ _) as [[] s2]; injection Hc as <- <-; unfold work; cbn; rewrite Hph; cbn; lia.
    + destruct (up_dones u) as [|d dones] eqn:Hd; [done|]. injection Hc as <- <-. cbn.
      destruct (up_firstErr u), (d_err d); unfold work; cbn; rewrite ?Hd, ?Hph; cbn; try lia.
      rewrite map_size_insert. destruct (up_pending u !! d_seq d); cbn; lia.
    + destruct (up_pending u !! up_next u) as [cur|] eqn:Hp; [|injection Hc as <- <-; unfold work; cbn; rewrite Hph; cbn; lia].
      destruct (take_done_work cur u Hp) as [H1 H2].
      destruct (_ =? 128)%nat; [|by injection Hc as <- <-].
      destruct (flush n (take_done cur u) s) as [[e u2] s2] eqn:Hf. apply flush_work in Hf as [H3 H4].
      destruct e as [e|]; injection Hc as <- <-; [|lia].
      pose proof (set_phase_work PRecv (cancel (set_first (Some e) u2))) as Hs.
      change (up_phase (cancel (set_first (Some e) u2))) with (up_phase u2) in Hs. rewrite H4, H2, Hph in Hs. cbn [phase_work] in Hs.
      assert (work (cancel (set_first (Some e) u2)) = work u2) by done. lia.
    + destruct (up_dones u); [|done]. destruct (up_prodErr u) as [pe|]; [|done]. destruct (forallb _ _); [|done].
      injection Hc as <- <-. match goal with |- context [set_phase ?p _] => pose proof (set_phase_work p u) as Hs; set (q := p) in * end.
      rewrite Hph in Hs. cbn in Hs. assert (phase_work q <= 2)%nat; [|lia].
      unfold q. destruct (match up_firstErr u with Some _ => _ | None => _ end); [cbn; lia|]. destruct (decide _); cbn; lia.
    + destruct (flush n u s) as [[e u2] s2] eqn:Hf. apply flush_work in Hf as [H3 H4].
      injection Hc as <- <-. match goal with |- context [set_phase ?p _] => pose proof (set_phase_work p u2) as Hs end.
      rewrite H4, Hph in Hs. destruct e; cbn in *; lia.
    + destruct (CloseDynamicIndex _ _ _ _ _ _) as [r s2]. injection Hc as <- <-.
      match goal with |- context [set_phase ?p _] => pose proof (set_phase_work p u) as Hs end. rewrite Hph in Hs. cbn in *. lia.
  - destruct (running u); [|done]. intros Hst _.
    assert (forall k w w' v, up_workers u !! k = Some w -> (worker_work w' < worker_work w)%nat ->
      v = set_worker k w' u -> (work v < work u)%nat) as Hw.
    { intros k w w' v Hk Hlt ->. pose proof (workers_work_insert _ k w w' Hk). unfold work. cbn. lia. }
    destruct ev; try done; cbn [step_workers] in Hst.
    + destruct (up_todo u) eqn:Ht, (up_prodErr u) eqn:Hp; try done. destruct (_ <? _)%nat; [|done]. injection Hst as <- <-.
      unfold work. cbn. rewrite Ht, Hp, length_app. cbn. lia.
    + destruct (up_todo u) eqn:Ht, (up_prodErr u) eqn:Hp; try done. destruct (up_canceled u); [|done]. injection Hst as <- <-.
      unfold work. cbn. rewrite Hp, Ht. cbn. lia.
    + destruct (up_todo u) eqn:Ht, (up_prodErr u) eqn:Hp; try done. injection Hst as <- <-. unfold work. cbn. rewrite Hp, Ht. cbn. lia.
    + destruct (up_workers u !! k) as [[]|] eqn:Hk; try done. destruct (up_jobs u) as [|j jobs] eqn:Hj; [done|]. injection Hst as <- <-.
      pose proof (workers_work_insert _ k _ (WJob j) Hk). unfold work. cbn in *. rewrite Hj. cbn. lia.
    + destruct (up_workers u !! k) as [[]|] eqn:Hk; try done. destruct (up_jobs u), (up_prodErr u); try done.
      injection Hst as <- <-. eapply Hw; [exact Hk| |done]. cbn. lia.
    + destruct (up_workers u !! k) as [[|j| | | | |]|] eqn:Hk; try done. destruct (claim _ _) as [kn w].
      injection Hst as <- <-. eapply Hw; [exact Hk| |done]. destruct w; cbn; lia.
    + destruct (up_workers u !! k) as [[| |j| | | |]|] eqn:Hk; try done.
      destruct (j_known j); [|destruct (UploadDynamicChunk _ _ _ _ _ _) as [r s2]]; injection Hst as <- <-;
        (eapply Hw; [exact Hk| |done]; cbn; lia).
    + destruct (up_workers u !! k) as [[| | |j err| | |]|] eqn:Hk; try done. injection Hst as <- <-.
      eapply Hw; [exact Hk| |done]. cbn. lia.
    + destruct (up_workers u !! k) as [[| | | |j| |]|] eqn:Hk; try done.
      destruct (sh_known s !! job_digest crypt j) as [[|err]|]; try done. injection Hst as <- <-.
      eapply Hw; [exact Hk| |done]. cbn. lia.
    + destruct (up_workers u !! k) as [[| | | |j| |]|] eqn:Hk; try done. destruct (up_canceled u); [|done]. injection Hst as <- <-.
      eapply Hw; [exact Hk| |done]. cbn. lia.
    + destruct (up_workers u !! k) as [[| | | | |d|]|] eqn:Hk; try done. destruct (_ <? _)%nat; [|done]. injection Hst as <- <-.
      pose proof (workers_work_insert _ k _ WIdle Hk). unfold work. cbn in *. rewrite length_app. cbn. lia.
Qed.

Lemma step_cancel u s u' s' : step crypt EvCancel u s = Some (u', s') -> work u' = work u.
Proof. intros [= <- _]. done. Qed.

Definition works (us : list upload) : nat := sum_list_with work us.

Lemma works_insert us i u u' : us !! i = Some u -> (works (<[i := u']> us) + work u = works us + work u')%nat.
Proof. apply works_sum_insert. Qed.

Lemma srun_works evs us s us' s' :
  srun crypt evs us s = Some (us', s') ->
  (works us' + length (filter (fun e => is_cancel e.2 = false) evs) <= works us)%nat.
Proof.
  revert us s. induction evs as [|[i ev] evs IH]; intros us s; cbn [srun].
  { intros [= <- <-]. cbn. lia. }
  intros Hr. destruct (sstep crypt i ev us s) as [[us1 s1]|] eqn:Hs; [|done]. cbn in Hr. specialize (IH _ _ Hr).
  unfold sstep in Hs. destruct (us !! i) as [u|] eqn:Hi; [|done]. cbn [mbind option_bind] in Hs.
  destruct (step crypt ev u s) as [[u' s2]|] eqn:Hst; [|done]. cbn in Hs. injection Hs as <- <-.
  pose proof (works_insert us i u u' Hi). rewrite filter_cons. destruct (decide _) as [Hc|Hc]; cbn in Hc |- *.
  - pose proof (step_work _ _ _ _ _ Hst Hc). lia.
  - destruct ev; try done. pose proof (step_cancel _ _ _ _ Hst). lia.
Qed.

(* ------------------------------------------------------------------ *)
(** ** Who waits for whom *)

(** Only a running upload holds a digest, and a worker waits for nothing that
    was never claimed. *)
Record wait_ok (u : upload) (s : shared) : Prop := {
  wo_hold : running u = false -> up_workers u ≫= hold crypt = [];
  wo_wait j : WWait j ∈ up_workers u -> sh_known s !! job_digest crypt j <> None }.

(** How a step moves an upload: the workers stay, and the upload stops running
    only when they are gone; or one worker of a running upload moves. *)
Inductive moves (u u' : upload) (s : shared) : Prop :=
  | mv_stay : up_workers u' = up_workers u ->
      (running u' = false -> running u = false \/ Forall (fun w => w = WExit) (up_workers u)) -> moves u u' s
  | mv_worker k w w' : running u' = true -> up_workers u !! k = Some w -> up_workers u' = <[k := w']> (up_workers u) ->
      (forall j, w' = WWait j -> sh_known s !! job_digest crypt j <> None) -> moves u u' s.

Lemma step_moves ev u s u' s' : step crypt ev u s = Some (u', s') -> moves u u' s.
Proof.
  unfold step. destruct (step_collector crypt ev u s) as [[u1 s1]|] eqn:Hc.
  - intros [= <- <-]. destruct ev; try done; cbn [step_collector] in Hc; destruct (up_phase u) eqn:Hph; try done.
    all: try (injection Hc as <- <-; apply mv_stay; [done|cbn; unfold running; cbn; rewrite Hph; auto]).
    + destruct (DownloadPrevious _ _ _) as [[] s2]; injection Hc as <- <-; apply mv_stay; try done; unfold running; rewrite Hph; auto.
    + destruct (CreateDynamicIndex _ _ _ _) as [[] s2]; injection Hc as <- <-; apply mv_stay; try done; unfold running; rewrite Hph; auto.
    + destruct (up_dones u) as [|d dones]; [done|]. injection Hc as <- <-. cbn.
      apply mv_stay; destruct (up_firstErr u), (d_err d); unfold running; cbn; try done; rewrite ?Hph; auto.
    + destruct (up_pending u !! up_next u) as [cur|]; [|injection Hc as <- <-; by apply mv_stay].
      destruct (_ =? 128)%nat; [|injection Hc as <- <-; apply mv_stay; [done|unfold running; cbn; rewrite Hph; auto]].
      destruct (flush n (take_done cur u) s) as [[e u2] s2] eqn:Hf. pose proof (flush_work _ _ _ _ _ _ Hf) as [_ H2].
      apply flush_flight in Hf as [H1 _]. cbn in H1, H2.
      destruct e; injection Hc as <- <-; apply mv_stay; try done; unfold running; cbn; rewrite ?H2, ?Hph; done.
    + destruct (up_dones u); [|done]. destruct (up_prodErr u) as [pe|]; [|done]. destruct (forallb _ _) eqn:Hall; [|done].
      injection Hc as <- <-. apply mv_stay; [done|]. right. by apply all_exit.
    + destruct (flush n u s) as [[e u2] s2] eqn:Hf. apply flush_flight in Hf as [H1 _].
      injection Hc as <- <-. apply mv_stay; [done|]. unfold running. rewrite Hph. auto.
    + destruct (CloseDynamicIndex _ _ _ _ _ _) as [r s2]. injection Hc as <- <-. apply mv_stay; [done|]. unfold running. rewrite Hph. auto.
  - destruct (running u) eqn:Hrun; [|done]. intros Hst. destruct ev; try done; cbn [step_workers] in Hst.
    + destruct (up_todo u), (up_prodErr u); try done. destruct (_ <? _)%nat; [|done]. injection Hst as <- <-.
      apply mv_stay; [done|]. intros Hr. unfold running in *. cbn in Hr. congruence.
    + destruct (up_todo u), (up_prodErr u); try done. destruct (up_canceled u); [|done]. injection Hst as <- <-.
      apply mv_stay; [done|]. intros Hr. unfold running in *. cbn in Hr. congruence.
    + destruct (up_todo u), (up_prodErr u); try done. injection Hst as <- <-.
      apply mv_stay; [done|]. intros Hr. unfold running in *. cbn in Hr. congruence.
    + destruct (up_workers u !! k) as [[]|] eqn:Hk; try done. destruct (up_jobs u) as [|j jobs]; [done|]. injection Hst as <- <-.
      by eapply (mv_worker _ _ _ k).
    + destruct (up_workers u !! k) as [[]|] eqn:Hk; try done. destruct (up_jobs u), (up_prodErr u); try done. injection Hst as <- <-.
      by eapply (mv_worker _ _ _ k).
    + destruct (up_workers u !! k) as [[|j| | | | |]|] eqn:Hk; try done. unfold claim in Hst.
      destruct (sh_known s !! job_digest crypt j) as [st|] eqn:Hs; injection Hst as <- <-; eapply (mv_worker _ _ _ k); try done.
      intros j' [= <-]. by rewrite Hs.
    + destruct (up_workers u !! k) as [[| |j| | | |]|] eqn:Hk; try done.
      destruct (j_known j); [|destruct (UploadDynamicChunk _ _ _ _ _ _) as [r s2]]; injection Hst as <- <-; by eapply (mv_worker _ _ _ k).
    + destruct (up_workers u !! k) as [[| | |j err| | |]|] eqn:Hk; try done. injection Hst as <- <-. by eapply (mv_worker _ _ _ k).
    + destruct (up_workers u !! k) as [[| | | |j| |]|] eqn:Hk; try done.
      destruct (sh_known s !! job_digest crypt j) as [[|err]|]; try done. injection Hst as <- <-. by eapply (mv_worker _ _ _ k).
    + destruct (up_workers u !! k) as [[| | | |j| |]|] eqn:Hk; try done. destruct (up_canceled u); [|done]. injection Hst as <- <-.
      by eapply (mv_worker _ _ _ k).
    + destruct (up_workers u !! k) as [[| | | | |d|]|] eqn:Hk; try done. destruct (_ <? _)%nat; [|done]. injection Hst as <- <-.
      by eapply (mv_worker _ _ _ k).
Qed.

(** A digest once claimed stays known. *)
Lemma flight_known u s u' s' d : flight crypt u s u' s' -> sh_known s !! d <> None -> sh_known s' !! d <> None.
Proof.
  intros Hf Hd. destruct (sh_known s !! d) as [st|] eqn:Hs; [|done].
  destruct Hf as [_ _ _ K _|d' _ -> _ _ _|d' -> _ _ _|d' err -> _ _ _].
  - by rewrite (K d st Hs).
  - destruct (decide (d' = d)) as [->|]; [by rewrite lookup_insert_eq|by rewrite lookup_insert_ne, Hs].
  - by rewrite Hs.
  - destruct (decide (d' = d)) as [->|]; [by rewrite lookup_insert_eq|by rewrite lookup_insert_ne, Hs].
Qed.

Lemma exited_hold ws : Forall (fun w => w = WExit) ws -> ws ≫= hold crypt = [].
Proof. by induction 1 as [|w ws -> _ IH]. Qed.

Lemma step_wait ev u s u' s' : step crypt ev u s = Some (u', s') -> wait_ok u s -> wait_ok u' s'.
Proof.
  intros Hst [H1 H2]. pose proof (step_flight _ _ _ _ _ _ Hst) as Hf.
  destruct (step_moves _ _ _ _ _ Hst) as [Hw Hr|k w w' Hrun Hk Hw Hwait].
  - constructor; rewrite Hw.
    + intros Hf'. destruct (Hr Hf') as [|He]; [auto|by apply exited_hold].
    + intros j Hj. eapply flight_known; [exact Hf|auto].
  - constructor; [by rewrite Hrun|]. rewrite Hw. intros j Hj. eapply flight_known; [exact Hf|].
    apply list_elem_of_lookup in Hj as [i Hi]. apply list_lookup_insert_Some in Hi as [(_ & Hj & _)|[_ Hi]]; [by apply Hwait|].
    apply H2. by eapply list_elem_of_lookup_2.
Qed.

Lemma sstep_wait i ev us s us' s' :
  sstep crypt i ev us s = Some (us', s') -> Forall (fun u => wait_ok u s) us -> Forall (fun u => wait_ok u s') us'.
Proof.
  unfold sstep. intros Hs Hok. destruct (us !! i) as [u|] eqn:Hi; [|done]. cbn [mbind option_bind] in Hs.
  destruct (step crypt ev u s) as [[u' s1]|] eqn:Hst; [|done]. cbn in Hs. injection Hs as <- <-.
  pose proof (step_flight _ _ _ _ _ _ Hst) as Hf. apply Forall_insert.
  - eapply Forall_impl; [exact Hok|]. intros v [H1 H2]. constructor; [done|]. intros j Hj. eapply flight_known; [exact Hf|auto].
  - eapply step_wait; [exact Hst|]. by eapply (Forall_lookup_1 _ _ _ _ Hok).
Qed.

Lemma srun_wait evs us s us' s' :
  srun crypt evs us s = Some (us', s') -> Forall (fun u => wait_ok u s) us -> Forall (fun u => wait_ok u s') us'.
Proof.
  revert us s. induction evs as [|[i ev] evs IH]; intros us s; cbn [srun]; [by intros [= <- <-]|].
  intros Hr Hok. destruct (sstep crypt i ev us s) as [[us1 s1]|] eqn:Hs; [|done]. cbn in Hr.
  eapply IH; [exact Hr|]. by eapply sstep_wait.
Qed.

(* ------------------------------------------------------------------ *)
(** ** No deadlock *)

Definition finished (u : upload) : bool := match up_phase u with PDone _ => true | _ => false end.

(** The upload can move by itself. *)
Definition can_step (u : upload) (s : shared) : Prop := exists ev u' s', is_cancel ev = false /\ step crypt ev u s = Some (u', s').

Lemma collector_steps ev u s r : is_cancel ev = false -> step_collector crypt ev u s = Some r -> can_step u s.
Proof. intros He Hc. exists ev, r.1, r.2. split; [done|]. unfold step. rewrite Hc. by destruct r. Qed.

Lemma worker_steps ev u s r :
  is_cancel ev = false -> running u = true -> step_workers crypt ev u s = Some r ->
  can_step u s.
Proof.
  intros He Hr Hw. destruct (step_collector crypt ev u s) as [r'|] eqn:Hc; [by eapply collector_steps|].
  exists ev, r.1, r.2. split; [done|]. unfold step. rewrite Hc, Hr, Hw. by destruct r.
Qed.

(** A worker with work to do can do it, unless it waits for an upload. *)
Lemma active_worker k w u s :
  running u = true -> up_dones u = [] -> up_workers u !! k = Some w -> w <> WIdle -> w <> WExit ->
  can_step u s \/ exists j, w = WWait j /\ forall err, sh_known s !! job_digest crypt j <> Some (Complete err).
Proof.
  intros Hrun Hd Hk Hi Hx. pose proof (lookup_lt_Some _ _ _ Hk) as Hlen. destruct w as [|j|j|j err|j|d|]; try done.
  - left. destruct (claim (job_digest crypt j) (sh_known s)) as [kn win] eqn:Hc.
    eapply (worker_steps (EvClaim k)); [done|done|]. cbn. by rewrite Hk, Hc.
  - left. destruct (j_known j) eqn:Hkn.
    + eapply (worker_steps (EvUpload k NetOk [])); [done|done|]. cbn. by rewrite Hk, Hkn.
    + destruct (UploadDynamicChunk crypt NetOk [] (job_digest crypt j) (j_data j) s) as [r s2] eqn:Hu.
      eapply (worker_steps (EvUpload k NetOk [])); [done|done|]. cbn [step_workers]. by rewrite Hk, Hkn, Hu.
  - left. eapply (worker_steps (EvComplete k)); [done|done|]. cbn. by rewrite Hk.
  - destruct (sh_known s !! job_digest crypt j) as [[|err]|] eqn:Hs.
    + right. exists j. split; [done|]. intros err. by rewrite Hs.
    + left. eapply (worker_steps (EvWait k)); [done|done|]. cbn. by rewrite Hk, Hs.
    + right. exists j. split; [done|]. intros err. by rewrite Hs.
  - left. eapply (worker_steps (EvSend k)); [done|done|]. cbn [step_workers]. rewrite Hk, Hd.
    by rewrite (proj2 (Nat.ltb_lt (length []) _)) by (cbn [length]; lia).
Qed.

#[local] Instance worker_idle_dec (w : worker) : Decision (w = WIdle).
Proof. destruct w; (left; done) || (right; done). Defined.
#[local] Instance worker_exit_dec (w : worker) : Decision (w = WExit).
Proof. destruct w; (left; done) || (right; done). Defined.

(** The last resorts: idle workers and the end of the collection. *)
Lemma idle_steps u s :
  up_phase u = PRecv -> up_dones u = [] -> drained u -> up_workers u <> [] ->
  Forall (fun w => w = WIdle \/ w = WExit) (up_workers u) -> can_step u s.
Proof.
  intros Hph Hd Hdr Hne Hall. assert (running u = true) as Hrun by (unfold running; by rewrite Hph).
  destruct (decide (Forall (fun w => w = WExit) (up_workers u))) as [He|He].
  - assert (WExit ∈ up_workers u) as Hin.
    { destruct (up_workers u) as [|w ws]; [done|]. apply Forall_cons in He as [-> _]. by left. }
    destruct (Hdr Hin) as [_ [e Hp]]. eapply (collector_steps EvEnd); [done|]. cbn. rewrite Hph, Hd, Hp.
    assert (forallb (fun w => match w with WExit => true | _ => false end) (up_workers u) = true) as ->; [|done].
    apply forallb_forall. intros w Hw. apply list_elem_of_In in Hw. rewrite Forall_forall in He. by rewrite (He w Hw).
  - apply not_Forall_Exists in He; [|intros w; apply _]. apply Exists_exists in He as (w & Hw & Hx).
    rewrite Forall_forall in Hall. destruct (Hall w Hw) as [-> | ->]; [|by destruct Hx].
    apply list_elem_of_lookup in Hw as [k Hk]. pose proof (lookup_lt_Some _ _ _ Hk) as Hlen.
    destruct (up_jobs u) as [|j jobs] eqn:Hj.
    + destruct (up_prodErr u) as [e|] eqn:Hp.
      * eapply (worker_steps (EvExit k)); [done|done|]. cbn. by rewrite Hk, Hj, Hp.
      * destruct (up_todo u) as [|j todo] eqn:Ht.
        -- eapply (worker_steps EvProduced); [done|done|]. cbn. by rewrite Ht, Hp.
        -- eapply (worker_steps EvEmit); [done|done|]. cbn [step_workers]. rewrite Ht, Hp, Hj.
           by rewrite (proj2 (Nat.ltb_lt (length []) _)) by (cbn [length]; lia).
    + eapply (worker_steps (EvTake k)); [done|done|]. cbn. by rewrite Hk, Hj.
Qed.

Lemma upload_steps J u s :
  upload_ok crypt J u s -> wait_ok u s -> finished u = false ->
  can_step u s \/ exists j, WWait j ∈ up_workers u /\ sh_known s !! job_digest crypt j = Some InFlight.
Proof.
  intros [_ Hdr _ Hne] [_ Hwait] Hfin. unfold finished in Hfin. destruct (up_phase u) eqn:Hph; try done.
  - left. destruct (DownloadPrevious NetOk (up_name u) s) as [r s2] eqn:Hd.
    eapply (collector_steps (EvPrevious NetOk)); [done|]. cbn [step_collector]. by rewrite Hph, Hd.
  - left. destruct (CreateDynamicIndex crypt NetOk (up_name u) s) as [[wid|e] s2] eqn:Hd;
      (eapply (collector_steps (EvCreate NetOk)); [done|]; cbn [step_collector]; by rewrite Hph, Hd).
  - destruct (up_dones u) as [|d dones] eqn:Hd.
    2: { left. eapply (collector_steps EvCollect); [done|]. cbn. by rewrite Hph, Hd. }
    assert (running u = true) as Hrun by (unfold running; by rewrite Hph).
    destruct (decide (Forall (fun w => w = WIdle \/ w = WExit) (up_workers u))) as [Hall|Hall]; [left; by apply idle_steps|].
    apply not_Forall_Exists in Hall; [|intros w; apply _]. apply Exists_exists in Hall as (w & Hw & Hx).
    pose proof Hw as Hin. apply list_elem_of_lookup in Hw as [k Hk].
    destruct (active_worker k w u s Hrun Hd Hk) as [|(j & -> & Hno)]; [intros ->; apply Hx; auto..|by left|].
    right. exists j. split; [done|]. specialize (Hwait j Hin).
    destruct (sh_known s !! job_digest crypt j) as [[|err]|] eqn:Hs; [done|by destruct (Hno err)|done].
  - left. destruct (up_pending u !! up_next u) as [cur|] eqn:Hp.
    + destruct (length (up_digests (take_done cur u)) =? 128)%nat eqn:Hb.
      * destruct (flush NetOk (take_done cur u) s) as [[[e|] u2] s2] eqn:Hf;
          (eapply (collector_steps (EvNext NetOk)); [done|]; cbn [step_collector]; by rewrite Hph, Hp, Hb, Hf).
      * eapply (collector_steps (EvNext NetOk)); [done|]. cbn [step_collector]. by rewrite Hph, Hp, Hb.
    + eapply (collector_steps (EvNext NetOk)); [done|]. cbn [step_collector]. by rewrite Hph, Hp.
  - left. destruct (flush NetOk u s) as [[e u2] s2] eqn:Hf.
    eapply (collector_steps (EvFlush NetOk)); [done|]. cbn [step_collector]. by rewrite Hph, Hf.
  - left. destruct (CloseDynamicIndex NetOk (up_wid u) (Sum256 (up_csum u)) (st_Size (up_stats u)) (st_ChunkCount (up_stats u)) s) as [r s2] eqn:Hf.
    eapply (collector_steps (EvClose NetOk)); [done|]. cbn [step_collector]. by rewrite Hph, Hf.
Qed.

(** Who holds a digest can move. *)
Lemma holder_steps us s d :
  Forall (fun u => wait_ok u s) us -> d ∈ holders crypt us -> exists i u, us !! i = Some u /\ can_step u s.
Proof.
  intros Hok Hd. apply list_elem_of_bind in Hd as (u & Hd & Hu). apply list_elem_of_lookup in Hu as [i Hi].
  exists i, u. split; [done|]. pose proof (Forall_lookup_1 _ _ _ _ Hok Hi) as [Hhold _].
  assert (running u = true) as Hrun.
  { destruct (running u) eqn:Hr; [done|]. rewrite (Hhold eq_refl) in Hd. by apply elem_of_nil in Hd. }
  apply list_elem_of_bind in Hd as (w & Hd & Hw). apply list_elem_of_lookup in Hw as [k Hk].
  destruct w as [|j|j|j err|j|x|]; cbn in Hd; try (by apply elem_of_nil in Hd).
  - destruct (j_known j) eqn:Hkn.
    + eapply (worker_steps (EvUpload k NetOk [])); [done|done|]. cbn. by rewrite Hk, Hkn.
    + destruct (UploadDynamicChunk crypt NetOk [] (job_digest crypt j) (j_data j) s) as [r s2] eqn:Hu.
      eapply (worker_steps (EvUpload k NetOk [])); [done|done|]. cbn [step_workers]. by rewrite Hk, Hkn, Hu.
  - eapply (worker_steps (EvComplete k)); [done|done|]. cbn. by rewrite Hk.
Qed.

Lemma begin_wait ins s : Forall (fun u => wait_ok u s) (begin <$> ins).
Proof.
  apply Forall_fmap, Forall_true. intros i. destruct (begin_workers i) as [n Hn]. constructor.
  - intros _. rewrite Hn. clear. by induction n.
  - rewrite Hn. intros j Hj. by apply elem_of_replicate in Hj as [? _].
Qed.

(* ------------------------------------------------------------------ *)
(** ** Properties *)

(** C27: Uploads end.  From the start of a session, whatever the interleaving
    and the fate of the requests: as long as an upload has not returned, some
    goroutine can move without the context being cancelled, although workers
    wait for each other's uploads across streams and on bounded channels; and
    no more steps are possible, cancellations apart, than the streams give
    work to do. *)
Theorem upload_progress ins s0 evs us s :
  new_session ins s0 -> srun crypt evs (begin <$> ins) s0 = Some (us, s) ->
  (Exists (fun u => finished u = false) us ->
    exists i ev, is_cancel ev = false /\ is_Some (sstep crypt i ev us s)) /\
  (length (filter (fun e => is_cancel e.2 = false) evs) <= works (begin <$> ins))%nat.
Proof.
  intros H0 Hr. split; [|pose proof (srun_works _ _ _ _ _ Hr); lia]. intros Hex.
  destruct (run_from_start crypt ins s0 evs us s H0 Hr) as (Hok & _ & _ & _).
  assert (Forall (fun u => wait_ok u s) us) as Hw by (eapply srun_wait; [exact Hr|apply begin_wait]).
  assert (exists i u, us !! i = Some u /\ can_step u s) as (i & u & Hi & ev & u' & s' & He & Hst).
  2: { exists i, ev. split; [done|]. unfold sstep. rewrite Hi. cbn [mbind option_bind]. rewrite Hst. cbn. by eexists. }
  apply Exists_exists in Hex as (u & Hu & Hfin). apply list_elem_of_lookup in Hu as [i Hi].
  destruct Hok as [_ _ [_ Chold _ _ _] _ Heach _]. rewrite Forall2_lookup in Heach. specialize (Heach i).
  rewrite Hi in Heach. inversion Heach as [J u1 Hup HJ|]; subst.
  destruct (upload_steps J u s Hup (Forall_lookup_1 _ _ _ _ Hw Hi) Hfin) as [Hc|(j & _ & Hfl)]; [by exists i, u|].
  apply Chold in Hfl. by eapply holder_steps.
Qed.
End live.

(* ------------------------------------------------------------------ *)
(** ** Witness *)

(** Halfway through the run of UploadRead.v one upload waits for the other. *)
Definition toy_half : list upload * shared :=
  default ([], toy_s0) (srun (ZS := toy_zstd) None (take 10 toy_evs) (begin <$> toy_ins) toy_s0).

Lemma upload_progress_witness :
  exists i ev, is_cancel ev = false /\ is_Some (sstep (ZS := toy_zstd) None i ev toy_half.1 toy_half.2).
Proof.
  assert (srun (ZS := toy_zstd) None (take 10 toy_evs) (begin <$> toy_ins) toy_s0 = Some (toy_half.1, toy_half.2)) as Hr.
  { assert (match srun (ZS := toy_zstd) None (take 10 toy_evs) (begin <$> toy_ins) toy_s0 with Some _ => true | None => false end = true) as H
      by (vm_compute; reflexivity).
    unfold toy_half. revert H. generalize (srun (ZS := toy_zstd) None (take 10 toy_evs) (begin <$> toy_ins) toy_s0).
    by intros [[us s]|]. }
  assert (Exists (fun u => finished u = false) toy_half.1) as Hex.
  { assert (match toy_half.1 with u :: _ => finished u | [] => true end = false) as H by (vm_compute; reflexivity).
    revert H. generalize toy_half.1. intros [|u us] H; [done|]. by left. }
  exact (proj1 (upload_progress (ZS := toy_zstd) None toy_ins toy_s0 (take 10 toy_evs) _ _ toy_new Hr) Hex).
Defined.
