(* ===== verification/Manifest.v ===== *)
(** * The snapshot manifest and its signature

    Models [BackupSession.Finish] (pbs/session.go) and the manifest side of
    pbs/reader.go: building, signing and storing index.json.blob, and
    downloading, decoding and verifying it.  The signature is over the
    canonical form of the document as a map; what is used is the document as a
    struct.  A hostile document can make these differ in the decoder; the
    theorem on [Manifest] shows that it cannot make a signed one differ. *)

From stdpp Require Import sorting.
From S2P Require Import Prelude Tree Hash Blob Json Canon Index KeyFile Server Upload UploadRead.
Local Open Scope Z_scope.

(** [SnapshotRef]; the time is in seconds, [None] the zero time. *)
Record SnapshotRef := mkRef { ref_Type : bytes; ref_ID : bytes; ref_Time : option Z; ref_Notes : bytes }.
Inductive ref_error := RefBadType (typ : bytes) | RefNoHostname.

(** [SnapshotRef.withDefaults], with the host's name and the clock. *)
Definition withDefaults (hostname : option bytes) (now : Z) (r : SnapshotRef) : result ref_error SnapshotRef :=
  let typ := if decide (ref_Type r = []) then lit "host" else ref_Type r in
  if negb (bool_decide (typ ∈ [lit "host"; lit "vm"; lit "ct"])) then Err (RefBadType typ) else
  id ← (if decide (ref_ID r = []) then match hostname with Some h => Ok h | None => Err RefNoHostname end else Ok (ref_ID r));
  Ok (mkRef typ id (Some (default now (ref_Time r))) (ref_Notes r)).

(** [backupManifest].  The files are a slice, nil when there is none; the
    signature is an [any], nil when there is none. *)
Record backupManifest := mkManifest {
  bm_BackupID : bytes; bm_BackupTime : Z; bm_BackupType : bytes; bm_Files : slice ManifestFile;
  bm_Signature : json; bm_Unprotected : list (bytes * json) }.
Definition manifest_zero : backupManifest := mkManifest [] 0 [] (mkSlice 0 []) JNull [].
Definition file_zero : ManifestFile := mkFile [] [] 0 [].

(** The documents [json.Marshal] writes; the keys of a map are sorted. *)
Definition json_file (f : ManifestFile) : json :=
  JObject [(lit "crypt-mode", JString (CryptLabel f)); (lit "csum", JString (Csum f));
           (lit "filename", JString (Filename f)); (lit "size", JNumber (FormatInt (Size f)))].
Definition json_files (files : list ManifestFile) : json :=
  match files with [] => JNull | _ => JArray (json_file <$> files) end.
Definition json_manifest (m : backupManifest) : json :=
  JObject [(lit "backup-id", JString (bm_BackupID m)); (lit "backup-time", JNumber (FormatInt (bm_BackupTime m)));
           (lit "backup-type", JString (bm_BackupType m)); (lit "files", json_files (elements (bm_Files m)));
           (lit "signature", bm_Signature m); (lit "unprotected", JObject (merge_sort key_le (bm_Unprotected m)))].

(** A map that is assigned to keeps the members it had. *)
Definition assign_map (v : json) (old : list (bytes * json)) : option (list (bytes * json)) :=
  match v with
  | JNull => Some []
  | _ => new ← decode_map v; Some (base.filter (fun m => ~ m.1 ∈ new.*1) old ++ new)
  end.

Section manifest.
Context `{JSON}.

Definition file_fields : list (bytes * (json -> ManifestFile -> option ManifestFile)) :=
  [(lit "crypt-mode", fun v f => s ← assign_string v (CryptLabel f); Some (mkFile (Filename f) (Csum f) (Size f) s));
   (lit "csum", fun v f => s ← assign_string v (Csum f); Some (mkFile (Filename f) s (Size f) (CryptLabel f)));
   (lit "filename", fun v f => s ← assign_string v (Filename f); Some (mkFile s (Csum f) (Size f) (CryptLabel f)));
   (lit "size", fun v f => n ← assign_uint64 v (Size f); Some (mkFile (Filename f) (Csum f) n (CryptLabel f)))].
Definition manifest_fields : list (bytes * (json -> backupManifest -> option backupManifest)) :=
  [(lit "backup-id", fun v m => s ← assign_string v (bm_BackupID m);
      Some (mkManifest s (bm_BackupTime m) (bm_BackupType m) (bm_Files m) (bm_Signature m) (bm_Unprotected m)));
   (lit "backup-time", fun v m => t ← assign_int64 v (bm_BackupTime m);
      Some (mkManifest (bm_BackupID m) t (bm_BackupType m) (bm_Files m) (bm_Signature m) (bm_Unprotected m)));
   (lit "backup-type", fun v m => s ← assign_string v (bm_BackupType m);
      Some (mkManifest (bm_BackupID m) (bm_BackupTime m) s (bm_Files m) (bm_Signature m) (bm_Unprotected m)));
   (lit "files", fun v m => fs ← assign_slice file_fields file_zero v (bm_Files m);
      Some (mkManifest (bm_BackupID m) (bm_BackupTime m) (bm_BackupType m) fs (bm_Signature m) (bm_Unprotected m)));
   (lit "signature", fun v m => if negb (floats_ok v) then None else
      Some (mkManifest (bm_BackupID m) (bm_BackupTime m) (bm_BackupType m) (bm_Files m) (decoded v) (bm_Unprotected m)));
   (lit "unprotected", fun v m => if negb (floats_ok v) then None else u ← assign_map v (bm_Unprotected m);
      Some (mkManifest (bm_BackupID m) (bm_BackupTime m) (bm_BackupType m) (bm_Files m) (bm_Signature m) u))].

Definition canonicalManifestJSON (m : backupManifest) : result canon_error bytes := canonicalManifestBytes (Marshal (json_manifest m)).

(* ------------------------------------------------------------------ *)
(** ** Reading *)

Inductive manifest_error :=
  | MeRead (e : read_error) | MeBlob (e : blob_error) | MeDecode | MeOther (typ id : bytes) (time : Z)
  | MeWrongKey (fp : bytes) | MeUnsigned | MeNotHex | MeCanon (e : canon_error) | MeMismatch.

(** [v.(string)], with the empty string for anything else. *)
Definition as_string (v : option json) : bytes := match v with Some (JString s) => s | _ => [] end.
Definition map_get (k : bytes) (m : list (bytes * json)) : option json :=
  (fun x => x.2.2) <$> list_find (fun x => x.1 = k) m.

(** [strings.EqualFold]; letters that fold to ASCII from outside it are no hex
    digits. *)
Definition EqualFold (a b : bytes) : bool := bool_decide ((to_lower <$> a) = (to_lower <$> b)).

Definition verifyManifest (raw : bytes) (m : backupManifest) (cs : cryptState) : result manifest_error unit :=
  let fp := as_string (map_get (lit "key-fingerprint") (bm_Unprotected m)) in
  if decide (fp <> [] /\ EqualFold fp (fingerprintHex cs) = false) then Err (MeWrongKey fp) else
  let sigHex := as_string (Some (bm_Signature m)) in
  if decide (sigHex = []) then Err MeUnsigned else
  let '(sig, ok) := DecodeString sigHex in
  if negb ok then Err MeNotHex else
  match canonicalManifestBytes raw with
  | Err e => Err (MeCanon e)
  | Ok canon => if decide (sig = authTag cs canon) then Ok () else Err MeMismatch
  end.

(** [ReaderSession.Manifest]: [cached] is what an earlier call left, [r] the
    answer to the download. *)
Definition Manifest `{Zstd} (crypt : option cryptState) (ref : SnapshotRef) (cached : option (list ManifestFile)) (r : response) :
    result manifest_error (list ManifestFile) * option (list ManifestFile) :=
  match cached with
  | Some files => (Ok files, cached)
  | None =>
      let res :=
        match download r with
        | Err e => Err (MeRead e)
        | Ok framed =>
            match decodeBlob framed None with
            | Err e => Err (MeBlob e)
            | Ok raw =>
                match Unmarshal manifest_fields manifest_zero raw with
                | None => Err MeDecode
                | Some m =>
                    if decide (bm_BackupType m <> ref_Type ref \/ bm_BackupID m <> ref_ID ref \/ Some (bm_BackupTime m) <> ref_Time ref)
                    then Err (MeOther (bm_BackupType m) (bm_BackupID m) (bm_BackupTime m)) else
                    _ ← match crypt with Some cs => verifyManifest raw m cs | None => Ok () end;
                    Ok (elements (bm_Files m))
                end
            end
        end in
      (res, match res with Ok files => Some files | Err _ => None end)
  end.

(* ------------------------------------------------------------------ *)
(** ** Writing *)

Inductive finish_error := FeFinished | FeKey (e : key_error) | FeCanon (e : canon_error) | FeUpload (e : up_error).

(** The manifest of a session, as it is signed and as it is stored. *)
Definition session_manifest (ref : SnapshotRef) (files : list ManifestFile) : backupManifest :=
  mkManifest (ref_ID ref) (default 0 (ref_Time ref)) (ref_Type ref) (mkSlice (length files) files) JNull
    (if decide (ref_Notes ref = []) then [] else [(lit "notes", JString (ref_Notes ref))]).
Definition sign_manifest (crypt : option cryptState) (m : backupManifest) : result canon_error backupManifest :=
  match crypt with
  | None => Ok m
  | Some cs =>
      canon ← canonicalManifestJSON m;
      Ok (mkManifest (bm_BackupID m) (bm_BackupTime m) (bm_BackupType m) (bm_Files m)
            (JString (EncodeToString (authTag cs canon)))
            (bm_Unprotected m ++ [(lit "key-fingerprint", JString (fingerprintHex cs))]))
  end.

(** The state of a session: its uploads' shared state, and [finished].  [now] is
    the clock; how closing the connection ends is left out. *)
Definition Finish `{Zstd} `{KeyFileOps} `{RSA} (crypt : option cryptState) (ref : SnapshotRef) (now : Z) (n1 n2 n3 : net)
    (s : shared * bool) : result finish_error unit * (shared * bool) :=
  let '(s, finished) := s in
  if finished : bool then (Err FeFinished, (s, finished)) else
  let '(wrapped, s) :=
    match crypt with
    | Some cs =>
        match cs_masterKey cs with
        | Some master =>
            match wrapKeyConfig cs master now with
            | Err e => (Err (FeKey e), s)
            | Ok w =>
                match putBlob crypt n1 (lit "rsa-encrypted.key.blob") (Encode w false) CryptModeEncrypt s with
                | (Err e, s) => (Err (FeUpload e), s)
                | (Ok _, s) => (Ok (), s)
                end
            end
        | None => (Ok (), s)
        end
    | None => (Ok (), s)
    end in
  match wrapped with
  | Err e => (Err e, (s, false))
  | Ok _ =>
      match sign_manifest crypt (session_manifest ref (sh_files s)) with
      | Err e => (Err (FeCanon e), (s, false))
      | Ok m =>
          match putBlob crypt n2 (lit "index.json.blob") (Encode (Marshal (json_manifest m)) false) (lit "none") s with
          | (Err e, s) => (Err (FeUpload e), (s, false))
          | (Ok _, s) =>
              let '(r, m) := call n3 (fun m => commit m (sh_session s)) (sh_server s) in
              let s := set_server m s in
              match r with
              | Err e => (Err (FeUpload e), (s, false))
              | Ok _ => (Ok (), (s, true))
              end
          end
      end
  end.

Definition Abort (s : shared * bool) : shared * bool := (s.1, true).
End manifest.

(* ------------------------------------------------------------------ *)
(** ** Lemmas: a document and the struct it becomes *)

Section authentic.
Context `{JSON}.

Lemma file_fields_NoDup : NoDup file_fields.*1.
Proof. apply (bool_decide_unpack _). by vm_compute. Qed.
Lemma manifest_fields_NoDup : NoDup manifest_fields.*1.
Proof. apply (bool_decide_unpack _). by vm_compute. Qed.

(** A member of the map a document becomes, in the document. *)
Lemma member_in_document ms k x : (k, x) ∈ last_wins (map (fun m => (m.1, decoded m.2)) ms) ->
  exists ms1 v ms2, ms = ms1 ++ (k, v) :: ms2 /\ x = decoded v /\ ~ k ∈ ms2.*1.
Proof. apply decoded_map_split. Qed.

Lemma same_string s v : same (JString s) (decoded v) -> v = JString s.
Proof. intros Hs. destruct v; cbn in Hs; inversion Hs; by subst. Qed.
Lemma same_num t v : same (JNumber t) (decoded v) -> v = JNumber t.
Proof. intros Hs. destruct v; cbn in Hs; inversion Hs; by subst. Qed.
Lemma same_array_inv es v : same (JArray es) (decoded v) -> exists vs, v = JArray vs /\ Forall2 same es (map decoded vs).
Proof. intros Hs. destruct v; cbn in Hs; inversion Hs; subst. by eexists. Qed.

(** An object that is the same as another one has its members. *)
Lemma same_members ms ms2 : same (JObject ms) (JObject ms2) ->
  (forall k x, (k, x) ∈ ms -> exists y, (k, y) ∈ ms2 /\ same x y) /\ (forall k, k ∈ ms2.*1 -> k ∈ ms.*1).
Proof.
  intros Hs. inversion Hs as [? ms' ? Hp HF| | | | |]; subst. split.
  - intros k x Hin. rewrite Hp in Hin. apply list_elem_of_lookup in Hin as [i Hi].
    destruct (Forall2_lookup_l _ _ _ _ _ HF Hi) as ([k' y] & Hy & Hk & Hxy). cbn in Hk, Hxy. subst k'.
    exists y. split; [by eapply list_elem_of_lookup_2|done].
  - intros k Hk. apply list_elem_of_fmap in Hk as ([k' y] & -> & Hin). apply list_elem_of_lookup in Hin as [i Hi].
    destruct (Forall2_lookup_r _ _ _ _ _ HF Hi) as ([k2 x] & Hx & Hkk & _). cbn in Hkk. subst k2. rewrite Hp.
    apply list_elem_of_fmap. exists (k', x). split; [done|]. by eapply list_elem_of_lookup_2.
Qed.

(** The field that a member of the map decides: [x0] is what the member is
    the same as. *)
Lemma struct_field {S A} fs (g : S -> A) k f ms x0 x a old s :
  NoDup fs.*1 -> (k, f) ∈ fs -> (forall k, k ∈ ms.*1 -> k ∈ fs.*1) ->
  (k, x) ∈ last_wins (map (fun m => (m.1, decoded m.2)) ms) -> same x0 x ->
  (forall v s s', same x0 (decoded v) -> f v s = Some s' -> g s' = a) ->
  (forall k' f' v' s s', (k', f') ∈ fs -> k' <> k -> f' v' s = Some s' -> g s' = g s) ->
  assign_struct fs (JObject ms) old = Some s -> g s = a.
Proof.
  intros Hn Hf Hex Hin Hsame Ha Hg Hs. apply member_in_document in Hin as (ms1 & v & ms2 & -> & -> & Hk).
  eapply (assign_struct_field fs g k f ms1 v ms2); try done.
  - apply Forall_forall. intros m Hm. apply Hex, list_elem_of_fmap. by exists m.
  - intros s0 s1. by apply Ha.
Qed.

(** Fields do not touch each other. *)
Ltac other_fields :=
  intros k' f' v' s s' Hin Hne Hf; cbn in Hin;
  repeat (apply elem_of_cons in Hin as [[= -> ->]|Hin]; [first [by destruct Hne | simpl in Hf; repeat case_match; simplify_option_eq; done]|]);
  by apply elem_of_nil in Hin.

Lemma json_file_keys f : NoDup (match json_file f with JObject ms => ms.*1 | _ => [] end).
Proof. apply (bool_decide_unpack _). by vm_compute. Qed.

(** An entry of the files that is the same as the one a file is written as is
    read as that file, whatever was there before. *)
Lemma file_determined f v : is_u64 (Size f) -> same (json_file f) (decoded v) -> determined file_fields v f.
Proof.
  intros Hsz Hs old e He. destruct v as [ms| | | | |]; try by inversion Hs. cbn [decoded] in Hs.
  destruct (same_members _ _ Hs) as [Hm Hk].
  assert (forall k, k ∈ ms.*1 -> k ∈ file_fields.*1) as Hex.
  { intros k Hin. apply decoded_map_keys, Hk in Hin. exact Hin. }
  destruct (Hm (lit "crypt-mode") (JString (CryptLabel f))) as (x1 & I1 & S1); [by left|].
  destruct (Hm (lit "csum") (JString (Csum f))) as (x2 & I2 & S2); [by right; left|].
  destruct (Hm (lit "filename") (JString (Filename f))) as (x3 & I3 & S3); [by right; right; left|].
  destruct (Hm (lit "size") (JNumber (FormatInt (Size f)))) as (x4 & I4 & S4); [by right; right; right; left|].
  assert (CryptLabel e = CryptLabel f) as E1.
  { eapply (struct_field file_fields CryptLabel (lit "crypt-mode")); try done; [apply file_fields_NoDup|by left| |other_fields].
    intros w s s' ->%same_string. cbn. by intros [= <-]. }
  assert (Csum e = Csum f) as E2.
  { eapply (struct_field file_fields Csum (lit "csum")); try done; [apply file_fields_NoDup|by right; left| |other_fields].
    intros w s s' ->%same_string. cbn. by intros [= <-]. }
  assert (Filename e = Filename f) as E3.
  { eapply (struct_field file_fields Filename (lit "filename")); try done; [apply file_fields_NoDup|by right; right; left| |other_fields].
    intros w s s' ->%same_string. cbn. by intros [= <-]. }
  assert (Size e = Size f) as E4.
  { eapply (struct_field file_fields Size (lit "size")); try done; [apply file_fields_NoDup|by right; right; right; left| |other_fields].
    intros w s s' ->%same_num. cbn [assign_uint64 mbind option_bind]. rewrite ParseUint_FormatInt by done. cbn. by intros [= <-]. }
  destruct e, f; cbn in *; congruence.
Qed.

Lemma decoded_file f : decoded (json_file f) = json_file f.
Proof. reflexivity. Qed.
Lemma decoded_files files : decoded (json_files files) = json_files files.
Proof.
  destruct files as [|f files]; [done|]. unfold json_files. cbn [decoded]. f_equal.
  change (map decoded (map json_file (f :: files)) = map json_file (f :: files)). rewrite map_map. apply map_ext. apply decoded_file.
Qed.

Lemma files_determined files v old sl : Forall (fun f => is_u64 (Size f)) files -> same (json_files files) (decoded v) ->
  assign_slice file_fields file_zero v old = Some sl -> elements sl = files.
Proof.
  intros Hsz Hs Ha. destruct files as [|f files].
  { destruct v; cbn in Hs; inversion Hs. by injection Ha as <-. }
  apply same_array_inv in Hs as (vs & -> & HF). eapply assign_slice_determined; [|exact Ha].
  revert HF Hsz. generalize (f :: files). intros l HF. change (json_file <$> l) with (map json_file l) in HF.
  clear -HF. revert vs HF. induction l as [|x l IH]; intros [|v vs] HF Hsz; inversion HF; subst; [constructor|].
  apply Forall_cons in Hsz as [? ?]. constructor; [by apply file_determined|by apply IH].
Qed.

(** What can be signed and written: text, and numbers in their ranges. *)
Definition manifest_ok (m : backupManifest) : Prop :=
  textual (json_manifest m) = true /\ numbers_ok (json_manifest m) = true /\ is_i64 (bm_BackupTime m) /\
  Forall (fun f => is_u64 (Size f)) (elements (bm_Files m)) /\
  floats_ok (bm_Signature m) = true /\ Forall (fun x => floats_ok x.2 = true) (bm_Unprotected m).

(** The members of a manifest that are signed. *)
Definition signed_members (m : backupManifest) : list (bytes * json) :=
  [(lit "backup-id", JString (bm_BackupID m)); (lit "backup-time", JNumber (FormatInt (bm_BackupTime m)));
   (lit "backup-type", JString (bm_BackupType m)); (lit "files", json_files (elements (bm_Files m)))].

Lemma decodeTree_manifest m : manifest_ok m ->
  exists tree, decodeTree (Marshal (json_manifest m)) = Some tree /\ signed_part tree = signed_members m.
Proof.
  intros (Ht & Hn & _). unfold decodeTree. destruct (Decode_Marshal _ Ht Hn) as [-> _]. cbn [mbind option_bind].
  unfold json_manifest. eexists. split; [reflexivity|]. unfold signed_members.
  rewrite last_wins_id by (apply (bool_decide_unpack _); by vm_compute). cbn [map fst snd]. rewrite decoded_files. reflexivity.
Qed.

(** A document with the canonical form of a manifest becomes that manifest, but
    for what is not signed. *)
Lemma canonical_determines m0 raw m c : manifest_ok m0 -> canonicalManifestJSON m0 = Ok c -> canonicalManifestBytes raw = Ok c ->
  Unmarshal manifest_fields manifest_zero raw = Some m ->
  bm_BackupID m = bm_BackupID m0 /\ bm_BackupTime m = bm_BackupTime m0 /\ bm_BackupType m = bm_BackupType m0 /\
  elements (bm_Files m) = elements (bm_Files m0).
Proof.
  intros Hok Hc0 Hc Hu. destruct (decodeTree_manifest m0 Hok) as (tree0 & Ht0 & Hs0). destruct Hok as (_ & _ & Htime & Hsz & _).
  destruct (decodeTree raw) as [tree|] eqn:Ht; [|by unfold canonicalManifestBytes in Hc; rewrite Ht in Hc].
  pose proof (proj1 (canonical_unambiguous _ _ _ _ c Ht0 Ht Hc0) Hc) as Hsame. rewrite Hs0 in Hsame.
  destruct (same_members _ _ Hsame) as [Hm Hk].
  unfold Unmarshal in Hu. unfold decodeTree in Ht. destruct (Decode raw) as [v|]; cbn [mbind option_bind] in Hu, Ht; [|done].
  destruct (Valid raw); [|done].
  destruct v as [ms| | | | |]; cbn [decode_map] in Ht; try done; injection Ht as <-.
  2: { destruct (Hm (lit "backup-id") (JString (bm_BackupID m0))) as (y & Hy & _); [by left|]. by apply elem_of_nil in Hy. }
  set (tree := last_wins _) in *.
  assert (forall k x, (k, x) ∈ signed_part tree -> (k, x) ∈ tree) as Hsub by (intros k x Hx; by apply list_elem_of_filter in Hx as []).
  assert (forall k, k ∈ ms.*1 -> k ∈ manifest_fields.*1) as Hex.
  { intros k Hkin. apply decoded_map_keys in Hkin. fold tree in Hkin.
    destruct (decide (k = lit "signature")) as [->|H1]; [by apply (bool_decide_unpack _); vm_compute|].
    destruct (decide (k = lit "unprotected")) as [->|H2]; [by apply (bool_decide_unpack _); vm_compute|].
    assert (k ∈ (signed_part tree).*1) as Hks.
    { apply list_elem_of_fmap in Hkin as ([k' x] & -> & Hx). apply list_elem_of_fmap. exists (k', x). split; [done|].
      by apply list_elem_of_filter. }
    apply Hk in Hks. cbn in Hks |- *. set_solver. }
  destruct (Hm (lit "backup-id") (JString (bm_BackupID m0))) as (x1 & I1 & S1); [by left|].
  destruct (Hm (lit "backup-time") (JNumber (FormatInt (bm_BackupTime m0)))) as (x2 & I2 & S2); [by right; left|].
  destruct (Hm (lit "backup-type") (JString (bm_BackupType m0))) as (x3 & I3 & S3); [by right; right; left|].
  destruct (Hm (lit "files") (json_files (elements (bm_Files m0)))) as (x4 & I4 & S4); [by right; right; right; left|].
  split_and!.
  - eapply (struct_field manifest_fields bm_BackupID (lit "backup-id") _ ms _ x1);
      [apply manifest_fields_NoDup|by left|exact Hex|by apply Hsub|exact S1| |other_fields|exact Hu].
    intros w s s' ->%same_string. cbn. by intros [= <-].
  - eapply (struct_field manifest_fields bm_BackupTime (lit "backup-time") _ ms _ x2);
      [apply manifest_fields_NoDup|by right; left|exact Hex|by apply Hsub|exact S2| |other_fields|exact Hu].
    intros w s s' ->%same_num. cbn [assign_int64 mbind option_bind]. rewrite ParseInt_FormatInt by done. cbn. by intros [= <-].
  - eapply (struct_field manifest_fields bm_BackupType (lit "backup-type") _ ms _ x3);
      [apply manifest_fields_NoDup|by right; right; left|exact Hex|by apply Hsub|exact S3| |other_fields|exact Hu].
    intros w s s' ->%same_string. cbn. by intros [= <-].
  - eapply (struct_field manifest_fields (fun m => elements (bm_Files m)) (lit "files") _ ms _ x4);
      [apply manifest_fields_NoDup|by right; right; right; left|exact Hex|by apply Hsub|exact S4| |other_fields|exact Hu].
    intros w s s' Hw. cbn. destruct (assign_slice file_fields file_zero w (bm_Files s)) as [sl|] eqn:Hsl; cbn; [|done].
    intros [= <-]. by eapply files_determined.
Qed.

(** C21: A verified manifest is the one that was signed.  Whatever bytes the
    server answers with, repeated, renamed and extra keys included, when
    [Manifest] returns files with a key configured, they are those of the
    document downloaded, which carries the key's tag of its canonical form; and
    if some holder of the key signed a manifest with that canonical form, the
    files are that manifest's, in number, order and every field, and it is of
    the very snapshot that was asked for. *)
Theorem manifest_authentic `{Zstd} cs ref r files cached :
  Manifest (Some cs) ref None r = (Ok files, cached) ->
  cached = Some files /\
  exists framed raw m c, download r = Ok framed /\ decodeBlob framed None = Ok raw /\
    Unmarshal manifest_fields manifest_zero raw = Some m /\ files = elements (bm_Files m) /\
    canonicalManifestBytes raw = Ok c /\ DecodeString (as_string (Some (bm_Signature m))) = (authTag cs c, true) /\
    forall m0, manifest_ok m0 -> canonicalManifestJSON m0 = Ok c ->
      files = elements (bm_Files m0) /\ ref_Type ref = bm_BackupType m0 /\ ref_ID ref = bm_BackupID m0 /\
      ref_Time ref = Some (bm_BackupTime m0).
Proof.
  unfold Manifest. destruct (download r) as [framed|] eqn:Hd; [|done]. destruct (decodeBlob framed None) as [raw|] eqn:Hb; [|done].
  destruct (Unmarshal manifest_fields manifest_zero raw) as [m|] eqn:Hu; [|done].
  destruct (decide _) as [|Href]; [done|]. destruct (verifyManifest raw m cs) as [[]|] eqn:Hv; cbn [mbind result_bind]; [|done].
  intros [= <- <-]. split; [done|]. exists framed, raw, m. unfold verifyManifest in Hv.
  destruct (decide (_ /\ _)); [done|]. destruct (decide (_ = [])); [done|].
  destruct (DecodeString _) as [sig [|]] eqn:Hsig; cbn [negb] in Hv; [|done].
  destruct (canonicalManifestBytes raw) as [c|] eqn:Hc; [|done]. destruct (decide (sig = authTag cs c)) as [->|]; [|done].
  exists c. split_and!; try done. intros m0 Hok Hc0.
  destruct (canonical_determines m0 raw m c Hok Hc0 Hc Hu) as (E1 & E2 & E3 & E4). rewrite <- E1, <- E2, <- E3.
  split_and!; [done|by apply dec_stable; intros ?; apply Href; left; congruence|by apply dec_stable; intros ?; apply Href; right; left; congruence
    |by apply dec_stable; intros ?; apply Href; right; right; congruence].
Qed.
End authentic.

(* ------------------------------------------------------------------ *)
(** ** From [Finish] to [Manifest] *)

Section restored.
Context `{JSON} {ZS : Zstd} `{KeyOps} `{KeyFileOps} `{RSA}.

Lemma assign_file f old : is_u64 (Size f) -> assign_struct file_fields (json_file f) old = Some f.
Proof.
  intros Hsz. unfold json_file, assign_struct. cbn [foldl].
  rewrite (assign_member_at _ 0%nat _ _ _ _ file_fields_NoDup eq_refl). cbn [mbind option_bind assign_string].
  rewrite (assign_member_at _ 1%nat _ _ _ _ file_fields_NoDup eq_refl). cbn [mbind option_bind assign_string].
  rewrite (assign_member_at _ 2%nat _ _ _ _ file_fields_NoDup eq_refl). cbn [mbind option_bind assign_string].
  rewrite (assign_member_at _ 3%nat _ _ _ _ file_fields_NoDup eq_refl). cbn [mbind option_bind assign_uint64].
  rewrite ParseUint_FormatInt by done. by destruct f.
Qed.

Lemma assign_files files old : Forall (fun f => is_u64 (Size f)) files ->
  exists sl, assign_slice file_fields file_zero (json_files files) old = Some sl /\ elements sl = files.
Proof.
  intros Hsz. destruct files as [|f files]; [by eexists|]. apply assign_slice_total.
  clear -Hsz. induction Hsz as [|x l Hx _ IH]; [constructor|]. constructor; [|exact IH]. intros old. by apply assign_file.
Qed.

(** A manifest is read as it was written. *)
Lemma Unmarshal_manifest m : manifest_ok m -> exists sl u,
  Unmarshal manifest_fields manifest_zero (Marshal (json_manifest m)) =
    Some (mkManifest (bm_BackupID m) (bm_BackupTime m) (bm_BackupType m) sl (decoded (bm_Signature m)) u) /\
  elements sl = elements (bm_Files m) /\ u = last_wins (map (fun x => (x.1, decoded x.2)) (merge_sort key_le (bm_Unprotected m))).
Proof.
  intros (Ht & Hn & Htime & Hsz & Hf1 & Hf2). destruct (Decode_Marshal _ Ht Hn) as [Hd Hv].
  unfold Unmarshal. rewrite Hd. cbn [mbind option_bind]. rewrite Hv. unfold json_manifest, assign_struct. cbn [foldl].
  rewrite (assign_member_at _ 0%nat _ _ _ _ manifest_fields_NoDup eq_refl). cbn [mbind option_bind assign_string].
  rewrite (assign_member_at _ 1%nat _ _ _ _ manifest_fields_NoDup eq_refl). cbn [mbind option_bind assign_int64].
  rewrite ParseInt_FormatInt by done. cbn [mbind option_bind].
  rewrite (assign_member_at _ 2%nat _ _ _ _ manifest_fields_NoDup eq_refl). cbn [mbind option_bind assign_string].
  rewrite (assign_member_at _ 3%nat _ _ _ _ manifest_fields_NoDup eq_refl).
  destruct (assign_files (elements (bm_Files m)) (mkSlice 0 []) Hsz) as (sl & Hsl & Hel).
  cbn [bm_Files manifest_zero]. rewrite Hsl. cbn [mbind option_bind].
  rewrite (assign_member_at _ 4%nat _ _ _ _ manifest_fields_NoDup eq_refl), Hf1. cbn [negb].
  rewrite (assign_member_at _ 5%nat _ _ _ _ manifest_fields_NoDup eq_refl).
  assert (floats_ok (JObject (merge_sort key_le (bm_Unprotected m))) = true) as ->.
  { cbn [floats_ok]. rewrite forallb_forall. intros x Hx. apply list_elem_of_In in Hx. rewrite merge_sort_Permutation in Hx.
    rewrite Forall_forall in Hf2. by apply Hf2. }
  cbn [negb].
  cbn [bm_Unprotected assign_map decode_map mbind option_bind]. eexists sl, _. split; [reflexivity|]. by split.
Qed.

(** The text and the numbers of a manifest. *)
Definition file_ok (f : ManifestFile) : Prop :=
  text (Filename f) = true /\ text (Csum f) = true /\ text (CryptLabel f) = true /\ is_u64 (Size f).
Definition ref_ok (ref : SnapshotRef) : Prop :=
  text (ref_Type ref) = true /\ text (ref_ID ref) = true /\ text (ref_Notes ref) = true /\ exists t, ref_Time ref = Some t /\ is_i64 t.

Lemma FormatInt_ok z : is_u64 z \/ is_i64 z -> bool_decide (FormatInt z <> []) && forallb num_char (FormatInt z) = true.
Proof. intros Hz. apply FormatInt_number in Hz as [? ->]. by rewrite bool_decide_eq_true_2. Qed.

Lemma json_file_ok f : file_ok f -> textual (json_file f) = true /\ numbers_ok (json_file f) = true.
Proof.
  intros (T1 & T2 & T3 & Hsz). unfold json_file. cbn [textual numbers_ok forallb fst snd].
  rewrite T1, T2, T3, FormatInt_ok by auto. by split.
Qed.

Lemma json_files_ok files : Forall file_ok files -> textual (json_files files) = true /\ numbers_ok (json_files files) = true.
Proof.
  intros Hf. destruct files as [|f files]; [done|]. unfold json_files. cbn [textual numbers_ok].
  rewrite !forallb_forall. split; intros v Hv; apply list_elem_of_In, list_elem_of_fmap in Hv as (x & -> & Hx);
    rewrite Forall_forall in Hf; by apply json_file_ok, Hf.
Qed.

Lemma elements_all {S} (l : list S) : elements (mkSlice (length l) l) = l.
Proof. apply firstn_all. Qed.

Lemma session_manifest_ok ref files sig un : ref_ok ref -> Forall file_ok files -> textual sig = true -> numbers_ok sig = true -> floats_ok sig = true ->
  Forall (fun m => text m.1 && textual m.2 = true /\ numbers_ok m.2 = true /\ floats_ok m.2 = true) un ->
  manifest_ok (mkManifest (ref_ID ref) (default 0 (ref_Time ref)) (ref_Type ref) (mkSlice (length files) files) sig un).
Proof.
  intros (T1 & T2 & T3 & t & -> & Ht) Hf Hs1 Hs2 Hs3 Hu. destruct (json_files_ok files Hf) as [F1 F2].
  assert (forallb (fun m => text m.1 && textual m.2) (merge_sort key_le un) = true /\
    forallb (fun m => numbers_ok m.2) (merge_sort key_le un) = true) as [U1 U2].
  { rewrite !forallb_forall. split; intros m Hm; apply list_elem_of_In in Hm; rewrite merge_sort_Permutation in Hm;
      rewrite Forall_forall in Hu; by apply Hu. }
  unfold manifest_ok, json_manifest. cbn [bm_BackupID bm_BackupTime bm_BackupType bm_Files bm_Signature bm_Unprotected default].
  rewrite elements_all. cbn [textual numbers_ok forallb fst snd]. rewrite T1, T2, F1, F2, Hs1, Hs2, U1, U2, FormatInt_ok by auto.
  split_and!; try done; [eapply Forall_impl; [exact Hf|]; by intros f (_ & _ & _ & ?)|].
  eapply Forall_impl; [exact Hu|]. by intros x (_ & _ & ?).
Qed.

Lemma canonical_signed m m' : manifest_ok m -> manifest_ok m' -> signed_members m = signed_members m' ->
  canonicalManifestJSON m = canonicalManifestJSON m'.
Proof.
  intros H1' H2' Hs. unfold canonicalManifestJSON, canonicalManifestBytes.
  destruct (decodeTree_manifest m H1') as (t1 & -> & E1). destruct (decodeTree_manifest m' H2') as (t2 & -> & E2).
  by rewrite E1, E2, Hs.
Qed.

Lemma as_string_decoded s : as_string (Some (decoded (JString s))) = s.
Proof. done. Qed.

(** What is stored verifies under the key it was signed with, and under
    any state with its id key and fingerprint. *)
Lemma signed_manifest crypt ref files m : ref_ok ref -> Forall file_ok files ->
  sign_manifest crypt (session_manifest ref files) = Ok m ->
  exists m', Unmarshal manifest_fields manifest_zero (Marshal (json_manifest m)) = Some m' /\
    bm_BackupID m' = ref_ID ref /\ Some (bm_BackupTime m') = ref_Time ref /\ bm_BackupType m' = ref_Type ref /\
    elements (bm_Files m') = files /\
    forall cs cs1, crypt = Some cs -> cs_idKey cs1 = cs_idKey cs -> cs_fingerprint cs1 = cs_fingerprint cs ->
      verifyManifest (Marshal (json_manifest m)) m' cs1 = Ok ().
Proof.
  intros Href Hf. set (m0 := session_manifest ref files).
  assert (Forall (fun m : bytes * json => text m.1 && textual m.2 = true /\ numbers_ok m.2 = true /\ floats_ok m.2 = true) (bm_Unprotected m0)) as Hu.
  { unfold m0, session_manifest. cbn [bm_Unprotected]. case_decide; [constructor|]. destruct Href as (_ & _ & T3 & _).
    constructor; [|constructor]. cbn [fst snd textual numbers_ok floats_ok]. by rewrite T3. }
  assert (manifest_ok m0) as Hok0 by (by apply session_manifest_ok).
  assert (Some (default 0 (ref_Time ref)) = ref_Time ref) as Htime by (by destruct Href as (_ & _ & _ & t & -> & _)).
  unfold sign_manifest. destruct crypt as [cs|].
  - destruct (canonicalManifestJSON m0) as [c|] eqn:Hc; cbn [mbind result_bind]; [|done]. intros Hm. apply Ok_inj in Hm. subst m.
    set (m := mkManifest _ _ _ _ _ _). assert (manifest_ok m) as Hok.
    { apply (session_manifest_ok ref files); [done|done|by cbn; rewrite text_hex|done|done|]. apply Forall_app. split; [exact Hu|].
      constructor; [|constructor]. cbn [fst snd textual numbers_ok floats_ok]. unfold fingerprintHex. by rewrite text_fingerprint. }
    destruct (Unmarshal_manifest m Hok) as (sl & u & -> & Hel & ->). eexists. split; [reflexivity|].
    cbn [bm_BackupID bm_BackupTime bm_BackupType bm_Files bm_Signature bm_Unprotected m m0 session_manifest] in *.
    split_and!; try done; [by rewrite Hel, elements_all|]. intros cs' cs1 [= <-] Hid Hfp. unfold verifyManifest.
    cbn [bm_Unprotected bm_Signature].
    assert (as_string (map_get (lit "key-fingerprint") (last_wins (map (fun x => (x.1, decoded x.2))
      (merge_sort key_le ((if decide (ref_Notes ref = []) then [] else [(lit "notes", JString (ref_Notes ref))]) ++
        [(lit "key-fingerprint", JString (fingerprintHex cs))]))))) = fingerprintHex cs) as -> by (case_decide; reflexivity).
    rewrite as_string_decoded. unfold EqualFold, fingerprintHex. rewrite Hfp, bool_decide_eq_true_2 by done.
    rewrite decide_False by (by intros [_ ?]). rewrite decide_False.
    2: { intros He. apply (f_equal length) in He. rewrite length_EncodeToString in He.
         assert (length (authTag cs c) = 32%nat) as Hl by apply length_Sum256. by rewrite Hl in He. }
    rewrite DecodeString_EncodeToString. cbn [negb].
    assert (canonicalManifestBytes (Marshal (json_manifest m)) = Ok c) as ->.
    { change (canonicalManifestJSON m = Ok c). rewrite <- Hc. by apply canonical_signed. }
    unfold authTag. by rewrite Hid, decide_True.
  - intros Hm. apply Ok_inj in Hm. subst m. destruct (Unmarshal_manifest m0 Hok0) as (sl & u & -> & Hel & _).
    eexists. split; [reflexivity|]. cbn [bm_BackupID bm_BackupTime bm_BackupType bm_Files]. rewrite Hel.
    unfold m0, session_manifest. cbn [bm_Files bm_BackupTime]. rewrite elements_all. by split_and!.
Qed.

Lemma putBlob_ok crypt n name framed label s u s' : putBlob crypt n name framed label s = (Ok u, s') ->
  sh_files s' = sh_files s ++ [mkFile name (EncodeToString (Sum256 framed)) (zlen framed) label] /\
  sv_Indexes (sh_server s') = sv_Indexes (sh_server s) /\ se_wids (sh_session s') = se_wids (sh_session s) /\
  se_blobs (sh_session s') = <[name := framed]> (se_blobs (sh_session s)) /\
  (se_ns (sh_session s'), se_typ (sh_session s'), se_id (sh_session s'), se_time (sh_session s')) =
  (se_ns (sh_session s), se_typ (sh_session s), se_id (sh_session s), se_time (sh_session s)).
Proof.
  unfold putBlob. destruct n as [|e|e]; cbn [call fst snd].
  - unfold post_blob. destruct (srv_decodeBlob _ framed) as [[p b]|]; [|done]. rewrite Z.eqb_refl. cbn [negb]. by intros [= _ <-].
  - done.
  - destruct (post_blob _ _ _ _ _ _) as [[a m] se]. cbn. done.
Qed.

(** The names of the indexes of a session. *)
Definition index_names (s : shared) : list bytes := omap (index_name (sh_server s)) (se_wids (sh_session s)).

Lemma committed_blobs n s r m : call n (fun m => commit m (sh_session s)) (sh_server s) = (Ok r, m) -> NoDup (index_names s) ->
  exists snap, findSnapshot (se_ns (sh_session s)) (se_typ (sh_session s)) (se_id (sh_session s)) (se_time (sh_session s)) (sv_Snapshots m) = Some snap /\
    forall name, ~ name ∈ index_names s -> sn_Files snap !! name = se_blobs (sh_session s) !! name.
Proof.
  destruct n; cbn [call]; [|done..]. unfold commit. destruct (commit_indexes _ _ _ _) as [[files sizes]|] eqn:Hc; [|done].
  destruct (decide _) as [Hf|]; [|done]. intros [= _ <-] Hnd. eexists. split; [by apply findSnapshot_app|]. cbn [sn_Files].
  intros name Hn. by apply (commit_indexes_file _ _ _ _ _ _ Hc).
Qed.

Definition master_name : bytes := lit "rsa-encrypted.key.blob".
Definition manifest_name : bytes := lit "index.json.blob".

Lemma Finish_inv crypt ref now n1 n2 n3 s s' : Finish crypt ref now n1 n2 n3 (s, false) = (Ok (), (s', true)) ->
  exists s1 m s2 sv,
    match crypt ≫= cs_masterKey with
    | Some master => exists cs w, crypt = Some cs /\ wrapKeyConfig cs master now = Ok w /\
        putBlob crypt n1 master_name (Encode w false) CryptModeEncrypt s = (Ok (), s1)
    | None => s1 = s
    end /\
    sign_manifest crypt (session_manifest ref (sh_files s1)) = Ok m /\
    putBlob crypt n2 manifest_name (Encode (Marshal (json_manifest m)) false) (lit "none") s1 = (Ok (), s2) /\
    call n3 (fun m => commit m (sh_session s2)) (sh_server s2) = (Ok (), sv) /\ s' = set_server sv s2.
Proof.
  unfold Finish. intros Hf.
  assert (forall s1, match sign_manifest crypt (session_manifest ref (sh_files s1)) with
      | Err e => (Err (FeCanon e), (s1, false))
      | Ok m =>
          match putBlob crypt n2 (lit "index.json.blob") (Encode (Marshal (json_manifest m)) false) (lit "none") s1 with
          | (Err e, s) => (Err (FeUpload e), (s, false))
          | (Ok _, s) =>
              let '(r, m) := call n3 (fun m => commit m (sh_session s)) (sh_server s) in
              match r with Err e => (Err (FeUpload e), (set_server m s, false)) | Ok _ => (Ok (), (set_server m s, true)) end
          end
      end = (Ok (), (s', true)) -> exists m s2 sv,
    sign_manifest crypt (session_manifest ref (sh_files s1)) = Ok m /\
    putBlob crypt n2 manifest_name (Encode (Marshal (json_manifest m)) false) (lit "none") s1 = (Ok (), s2) /\
    call n3 (fun m => commit m (sh_session s2)) (sh_server s2) = (Ok (), sv) /\ s' = set_server sv s2) as Hend.
  { intros s1 Hs1. destruct (sign_manifest _ _) as [m|]; [|done]. exists m.
    fold manifest_name in Hs1. destruct (putBlob _ n2 _ _ _ s1) as [[[]|] s2]; [|done]. exists s2.
    destruct (call n3 _ _) as [[[]|] sv]; [|done]. injection Hs1 as <-. by exists sv. }
  destruct crypt as [cs|]; cbn [mbind option_bind].
  - destruct (cs_masterKey cs) as [master|].
    + destruct (wrapKeyConfig cs master now) as [w|] eqn:Hw; [|done]. fold master_name in Hf.
      destruct (putBlob _ n1 _ _ _ s) as [[[]|] s1] eqn:Hp; [|done]. destruct (Hend _ Hf) as (m & s2 & sv & ?).
      exists s1, m, s2, sv. split; [|done]. by exists cs, w.
    + destruct (Hend _ Hf) as (m & s2 & sv & ?). by exists s, m, s2, sv.
  - destruct (Hend _ Hf) as (m & s2 & sv & ?). by exists s, m, s2, sv.
Qed.

Lemma download_ok body : download (Ok (200, body)) = Ok body.
Proof. done. Qed.

Lemma manifest_file_app files f : ~ Filename f ∈ Filename <$> files -> manifest_file (files ++ [f]) (Filename f) = Some f.
Proof.
  induction files as [|x files IH]; cbn; [by rewrite decide_True|]. intros [Hx Hn]%not_elem_of_cons.
  rewrite decide_False by congruence. by apply IH.
Qed.

(** C29: What [Finish] commits can be read back and verified.  When it reports
    success the snapshot holds the manifest, and a reader, with the session's
    key or without one, gets the session's files from it, those it had and the
    wrapped key if there is one.  With the private part of the master key the
    session's key is recovered from the snapshot by a client that has no key,
    and any state of that key verifies the manifest. *)
Theorem manifest_restored c crypt ref now n1 n2 n3 s s' :
  match c with Some c => exists cs, newCryptState c = Ok cs /\ crypt = Some cs /\ length (cc_Key c) = 32%nat | None => crypt = None end ->
  ref_ok ref -> Forall file_ok (sh_files s') -> NoDup (index_names s) ->
  ~ manifest_name ∈ index_names s -> ~ master_name ∈ index_names s -> ~ master_name ∈ Filename <$> sh_files s ->
  0 <= now < 253402300800 -> (forall t, c ≫= cc_KeyCreated = Some t -> 0 <= t < 253402300800) ->
  Finish crypt ref now n1 n2 n3 (s, false) = (Ok (), (s', true)) ->
  exists snap files,
    findSnapshot (se_ns (sh_session s)) (se_typ (sh_session s)) (se_id (sh_session s)) (se_time (sh_session s)) (sv_Snapshots (sh_server s')) = Some snap /\
    sh_files s `prefix_of` files /\
    (forall rs, Manifest None ref None (get_download snap manifest_name rs).1 = (Ok files, Some files)) /\
    (forall rs cs cs1, crypt = Some cs -> cs_idKey cs1 = cs_idKey cs -> cs_fingerprint cs1 = cs_fingerprint cs ->
       Manifest (Some cs1) ref None (get_download snap manifest_name rs).1 = (Ok files, Some files)) /\
    (forall rs cs master, crypt = Some cs -> cs_masterKey cs = Some (rsa_public master) ->
       exists info, session_RecoverKey None (Ok files) (fun name => (get_download snap name rs).1) master = Ok info /\
         ki_Key info = cs_key cs /\
         exists cs1, newCryptState (KeyInfo_CryptConfig info []) = Ok cs1 /\ cs_idKey cs1 = cs_idKey cs /\
           cs_fingerprint cs1 = cs_fingerprint cs).
Proof.
  intros Hcrypt Href Hfiles Hnd Hn1 Hn2 Hn3 Hnow Hcreated Hfin.
  destruct (Finish_inv _ _ _ _ _ _ _ _ Hfin) as (s1 & m & s2 & sv & H1' & Hsign & Hput & Hcommit & ->). clear Hfin.
  destruct (putBlob_ok _ _ _ _ _ _ _ _ Hput) as (F2 & I2 & W2 & B2 & R2).
  assert (sh_files s `prefix_of` sh_files s1 /\ sv_Indexes (sh_server s1) = sv_Indexes (sh_server s) /\
    se_wids (sh_session s1) = se_wids (sh_session s) /\
    (se_ns (sh_session s1), se_typ (sh_session s1), se_id (sh_session s1), se_time (sh_session s1)) =
    (se_ns (sh_session s), se_typ (sh_session s), se_id (sh_session s), se_time (sh_session s))) as (F1 & I1 & W1 & R1).
  { destruct (crypt ≫= cs_masterKey); [|by subst s1]. destruct H1' as (cs & w & _ & _ & Hp).
    destruct (putBlob_ok _ _ _ _ _ _ _ _ Hp) as (-> & ? & ? & _ & ?). split_and!; try done. by apply prefix_app_r. }
  assert (index_names s2 = index_names s) as Hnames by (unfold index_names, index_name; by rewrite I2, W2, I1, W1).
  destruct (committed_blobs _ _ _ _ Hcommit) as (snap & Hsnap & Hblobs); [by rewrite Hnames|]. rewrite Hnames in Hblobs.
  exists snap, (sh_files s1). rewrite R1 in R2. injection R2 as E1 E2 E3 E4. rewrite E1, E2, E3, E4 in Hsnap.
  split; [exact Hsnap|]. split; [exact F1|].
  change (sh_files (set_server sv s2)) with (sh_files s2) in Hfiles. rewrite F2 in Hfiles. apply Forall_app in Hfiles as [Hfiles _].
  destruct (signed_manifest crypt ref _ m Href Hfiles Hsign) as (m' & Hu & M1 & M2 & M3 & M4 & Hver).
  assert (forall rs, (get_download snap manifest_name rs).1 = Ok (200, Encode (Marshal (json_manifest m)) false)) as Hget.
  { intros rs. unfold get_download. rewrite Hblobs, B2, lookup_insert_eq by done. done. }
  assert (forall crypt' rs, match crypt' with Some cs1 => verifyManifest (Marshal (json_manifest m)) m' cs1 = Ok () | None => True end ->
    Manifest crypt' ref None (get_download snap manifest_name rs).1 = (Ok (sh_files s1), Some (sh_files s1))) as Hman.
  { intros crypt' rs Hc. unfold Manifest. rewrite Hget, download_ok, decode_Encode, Hu.
    rewrite decide_False by (intros [?|[?|?]]; congruence). rewrite M4.
    destruct crypt' as [cs1|]; [rewrite Hc|]; done. }
  split_and!.
  - intros rs. by apply Hman.
  - intros rs cs cs1 Hcs Hid Hfp. apply Hman. by apply (Hver cs).
  - intros rs cs master Hcs Hmaster. rewrite Hcs in H1'. cbn [mbind option_bind] in H1'. rewrite Hmaster in H1'.
    destruct H1' as (cs' & w & [= <-] & Hw & Hp). destruct (putBlob_ok _ _ _ _ _ _ _ _ Hp) as (F1' & _ & _ & B1' & _).
    destruct c as [c|]; [|congruence]. destruct Hcrypt as (cs0 & Hcs0 & Hcs' & Hlen). assert (cs0 = cs) as -> by congruence.
    pose proof (RecoverKey_wrap c cs master now w Hcs0 Hlen Hw Hnow Hcreated) as Hrec.
    eexists. split; [|split].
    + unfold session_RecoverKey, DownloadBlob, manifestFile. fold master_name. rewrite decide_True by (by exists (lit "rsa-encrypted.key")).
      cbn [mbind result_bind]. rewrite F1'.
      pose proof (manifest_file_app (sh_files s) (mkFile master_name (EncodeToString (Sum256 (Encode w false))) (zlen (Encode w false)) CryptModeEncrypt) Hn3) as Hmf.
      cbn [Filename] in Hmf. rewrite Hmf. cbn [mbind result_bind Filename Size Csum].
      assert ((get_download snap master_name rs).1 = Ok (200, Encode w false)) as ->.
      { unfold get_download. rewrite Hblobs by done. rewrite B2, lookup_insert_ne by done. by rewrite B1', lookup_insert_eq. }
      rewrite download_ok. cbn [mbind result_bind]. rewrite decide_True by done. rewrite decode_Encode. exact Hrec.
    + cbn. by destruct (newCryptState_spec _ _ Hcs0) as (_ & -> & _).
    + destruct (newCryptState_key _ _ Hcs0) as (cs2 & Hcs2 & Hfp & Hid).
      destruct (newCryptState_created (mkCrypt [] (cc_Key c) None None) cs2 (Some (default now (cc_KeyCreated c))) Hcs2 eq_refl) as (cs3 & Hcs3 & ? & ?).
      exists cs3. unfold KeyInfo_CryptConfig. cbn [ki_Key ki_Created]. split_and!; [exact Hcs3|congruence|congruence].
Qed.
End restored.

(* ------------------------------------------------------------------ *)
(** ** Witnesses *)

(** A snapshot. *)
Definition toy_ref : SnapshotRef := mkRef (lit "host") (lit "elsa") (Some 1593179765) [].

(** The vector of proxmox-backup's test_manifest_signature (pbs/crypt_test.go):
    key, id key, canonical form and tag. *)
Definition vector_key : bytes := (DecodeString (lit "28cdb1a3bef39396c3860e00d448fe7a0efd8244486ab6feb30457681d31597e")).1.
Definition vector_file (c : byte) (name label : bytes) : ManifestFile := mkFile name (EncodeToString (replicate 32 c)) 200 label.
Definition vector_manifest : backupManifest :=
  mkManifest (lit "elsa") 1593179765 (lit "host")
    (mkSlice 2 [vector_file Byte.x01 (lit "test1.img.fidx") (lit "encrypt"); vector_file Byte.x02 (lit "abc.blob") (lit "none")])
    JNull [(lit "note", JString (lit "This is not protected by the signature."))].
Example manifest_signature :
  match newCryptState (H := toy_keys) (mkCrypt [] vector_key None None), canonicalManifestJSON (H := plain_json) vector_manifest with
  | Ok cs, Ok canon => EncodeToString (authTag cs canon)
  | _, _ => []
  end = lit "d7b446fb7db081662081d4b40fedd858a1d6307a5aff4ecff7d5bf4fd35679e9".
Proof. vm_compute. reflexivity. Qed.

(** A session with a key that has stored nothing cannot be finished: its nil
    slice of files is written as null, which is refused. *)
Example finish_without_files :
  Finish (H := plain_json) (H0 := toy_zstd) (H1 := toy_files) (H2 := toy_rsa) (Some toy_state) toy_ref 0 NetOk NetOk NetOk
    (mkShared ∅ [] ∅ (mkServer ∅ ∅ ∅ ∅ ∅ false ∅ [] 1 ∅) (mkSession [] (lit "host") (lit "elsa") 1593179765 [] ∅ ∅) [], false) =
  (Err (FeCanon CeNull), (mkShared ∅ [] ∅ (mkServer ∅ ∅ ∅ ∅ ∅ false ∅ [] 1 ∅) (mkSession [] (lit "host") (lit "elsa") 1593179765 [] ∅ ∅) [], false)).
Proof. vm_compute. reflexivity. Qed.

(** A manifest that was signed, and a document that is not it: the files are
    there twice, the first time others, and the tag is of the last ones. *)
Definition toy_image : ManifestFile := mkFile (lit "test1.img.fidx") (lit "0101") 200 (lit "encrypt").
Definition toy_other : ManifestFile := mkFile (lit "other.blob") (lit "0202") 7 (lit "none").
Definition toy_signed : backupManifest := session_manifest toy_ref [toy_image].
Definition toy_canon : bytes := match canonicalManifestJSON (H := plain_json) toy_signed with Ok c => c | Err _ => [] end.
Definition toy_hostile : bytes :=
  @Marshal plain_json (JObject [(lit "files", json_files [toy_other; toy_image]); (lit "backup-id", JString (lit "elsa"));
    (lit "signature", JString (EncodeToString (authTag toy_state toy_canon))); (lit "backup-type", JString (lit "host"));
    (lit "backup-time", JNumber (lit "1593179765")); (lit "files", json_files [toy_image]); (lit "unprotected", JNull)]).
Definition toy_answer : response := Ok (200, @Encode toy_zstd toy_hostile false).

Lemma toy_canonical : canonicalManifestJSON (H := plain_json) toy_signed = Ok toy_canon /\
  canonicalManifestBytes (H := plain_json) toy_hostile = Ok toy_canon.
Proof. split; vm_compute; reflexivity. Qed.
Lemma toy_accepted : Manifest (H := plain_json) (H0 := toy_zstd) (Some toy_state) toy_ref None toy_answer = (Ok [toy_image], Some [toy_image]).
Proof. vm_compute. reflexivity. Qed.
Lemma toy_signed_ok : manifest_ok (H := plain_json) toy_signed.
Proof. unfold manifest_ok. split_and!; [reflexivity|reflexivity|unfold is_i64; cbn; lia| |reflexivity|constructor]. repeat constructor; unfold is_u64; cbn; lia. Qed.

Lemma manifest_authentic_witness : [toy_image] = elements (bm_Files toy_signed) /\ lit "host" = bm_BackupType toy_signed /\
  lit "elsa" = bm_BackupID toy_signed /\ Some 1593179765 = Some (bm_BackupTime toy_signed).
Proof.
  destruct (manifest_authentic (H := plain_json) (H0 := toy_zstd) toy_state toy_ref toy_answer [toy_image] (Some [toy_image]) toy_accepted)
    as (_ & framed & raw & m & c & Hd & Hb & _ & _ & Hc & _ & H).
  unfold toy_answer in Hd. rewrite download_ok in Hd. apply Ok_inj in Hd. subst framed.
  rewrite decode_Encode in Hb. apply Ok_inj in Hb. subst raw.
  apply (H toy_signed toy_signed_ok). rewrite <- Hc, (proj1 toy_canonical). symmetry. exact (proj2 toy_canonical).
Defined.

(** A session with a key and a master key that has stored one blob. *)
Definition toy_config : CryptConfig := mkCrypt [] toy_key (Some 1000) (Some (lit "master")).
Definition toy_cs : cryptState :=
  match newCryptState (H := toy_keys) toy_config with Ok cs => cs | Err _ => toy_state end.
Definition toy_session : shared :=
  mkShared ∅ [toy_other] ∅ (mkServer ∅ ∅ ∅ ∅ ∅ false ∅ [] 1 ∅) (mkSession [] (lit "host") (lit "elsa") 1593179765 [] ∅ ∅) [].
Lemma toy_derived : newCryptState (H := toy_keys) toy_config = Ok toy_cs.
Proof.
  assert (match newCryptState (H := toy_keys) toy_config with Ok _ => true | Err _ => false end = true) as H by (vm_compute; reflexivity).
  unfold toy_cs. revert H. generalize (newCryptState (H := toy_keys) toy_config). by intros [cs|].
Qed.
Definition file_okb (f : ManifestFile) : bool :=
  text (Filename f) && text (Csum f) && text (CryptLabel f) && (0 <=? Size f) && (Size f <? 2 ^ 64).
Lemma file_okb_ok fs : forallb file_okb fs = true -> Forall file_ok fs.
Proof.
  intros H. apply Forall_forall. intros f Hf%list_elem_of_In. rewrite forallb_forall in H. specialize (H f Hf). unfold file_okb in H.
  rewrite !andb_true_iff, Z.leb_le, Z.ltb_lt in H. unfold file_ok, is_u64. tauto.
Qed.
Lemma toy_finish : exists s', Finish (H := plain_json) (H0 := toy_zstd) (H1 := toy_files) (H2 := toy_rsa) (Some toy_cs) toy_ref 2000 NetOk NetOk NetOk
    (toy_session, false) =
    (Ok (), (s', true)) /\ Forall file_ok (sh_files s').
Proof.
  assert (match Finish (H := plain_json) (H0 := toy_zstd) (H1 := toy_files) (H2 := toy_rsa) (Some toy_cs) toy_ref 2000 NetOk NetOk NetOk
    (toy_session, false) with
    (Ok (), (s, true)) => forallb file_okb (sh_files s) | _ => false end = true) as H by (vm_compute; reflexivity).
  revert H. generalize (Finish (H := plain_json) (H0 := toy_zstd) (H1 := toy_files) (H2 := toy_rsa) (Some toy_cs) toy_ref 2000 NetOk NetOk NetOk
    (toy_session, false)).
  intros [[[]|] [s [|]]]; try done. intros H. exists s. split; [done|]. by apply file_okb_ok.
Qed.

Lemma manifest_restored_witness : exists s' snap files,
  findSnapshot [] (lit "host") (lit "elsa") 1593179765 (sv_Snapshots (sh_server s')) = Some snap /\
  Manifest (H := plain_json) (H0 := toy_zstd) None toy_ref None (get_download snap manifest_name (sh_session toy_session)).1 = (Ok files, Some files) /\
  (exists f, files !! 0%nat = Some f /\ f = toy_other) /\
  exists info, session_RecoverKey (H := plain_json) (H0 := toy_keys) (H1 := toy_files) (H2 := toy_zstd) (H3 := toy_rsa) None (Ok files)
    (fun name => (get_download snap name (sh_session toy_session)).1) (lit "master") = Ok info /\ ki_Key info = toy_key.
Proof.
  assert (NoDup (index_names toy_session)) as Hn by constructor. destruct toy_finish as (s' & Hfin & Hfiles).
  destruct (manifest_restored (H := plain_json) (ZS := toy_zstd) (H0 := toy_keys) (H1 := toy_files) (H2 := toy_rsa)
    (Some toy_config) (Some toy_cs) toy_ref 2000 NetOk NetOk NetOk toy_session s') as (snap & files & H1 & [k ->] & H3 & _ & H5).
  - exists toy_cs. split; [exact toy_derived|]. by split.
  - unfold ref_ok. split_and!; try reflexivity. eexists. split; [reflexivity|]. unfold is_i64. lia.
  - exact Hfiles.
  - exact Hn.
  - apply not_elem_of_nil.
  - apply not_elem_of_nil.
  - apply (bool_decide_unpack _). vm_compute. exact I.
  - lia.
  - intros t [= <-]. lia.
  - exact Hfin.
  - exists s', snap, (sh_files toy_session ++ k). split; [exact H1|]. split; [apply H3|]. split; [exists toy_other; split; reflexivity|].
    destruct (H5 (sh_session toy_session) toy_cs (lit "master") eq_refl) as (info & R1 & R2 & _).
    + assert (match cs_masterKey toy_cs with Some m => bool_decide (m = lit "master") | None => false end = true) as H by (vm_compute; reflexivity).
      revert H. destruct (cs_masterKey toy_cs) as [m|]; [|done]. by intros ->%bool_decide_eq_true.
    + exists info. split; [exact R1|]. rewrite R2. by destruct (newCryptState_spec _ _ toy_derived) as (_ & -> & _).
Defined.
